(* ===== verification/_CoqProject ===== *)
-Q . S2P
Prelude.v
GoStd.v
GoNet.v
GoText.v
InternalAuth.v
InternalAuthSpec.v
S0fsTypes.v
S0fsCore.v
S0fsEngine.v
S0fsInv.v
S0fsSafety.v
S0fsFiles.v
S0fsPath.v
S0fsSnapshot.v
S0fsRecovery.v
S0fsFaults.v
S0fsCrypto.v
ObjectStore.v
S0fsMaterializer.v
S0fsCache.v
S0fsCommit.v
S0fsContent.v
Policy.v
PolicyEval.v
PolicySpec.v
PolicyStore.v
PolicyGuard.v
Volume.v
Notify.v
Naming.v
FsServer.v
NotifySpec.v
VolumeSpec.v
FsServerSpec.v
FsServerAccess.v
FsServerFiles.v
FsServerLife.v
Mounts.v
Coordinator.v
CoordinatorSpec.v
VolumeFiles.v
VolumeTree.v
VolumeFilesSpec.v
Classifier.v
ClassifierSpec.v
ClassifierTls.v
Proxy.v
ProxySpec.v
Quic.v
QuicSpec.v
Udp.v
UdpSpec.v
EgressAuth.v
EgressAuthSpec.v
CredentialProxy.v
CredentialMqtt.v
CredentialSpec.v
Broker.v
BrokerSpec.v
KubeNames.v
KubeNamesSpec.v
Portal.v
PortalSpec.v
Handoff.v
HandoffSpec.v
