(* ===== verification/Prelude.v ===== *)
(** * sandbox0: storage engine, file system server and sandbox egress

    sandbox0 runs sandboxes on Kubernetes.  This development models the parts of it that
    guard the data of its users, and proves what they promise.

    ** The program

    storage-proxy keeps the volumes of sandboxes.  Its engine s0fs holds a file system in
    memory, logs every change, saves its state in local files and, from time to time, in an
    object store, under a head that is moved by compare-and-swap.  Above it are the manager
    of mounted volumes with its sessions and handles, the hub of watch events, and the file
    system server, which checks the caller's team and permissions and calls the engine.
    Its HTTP API turns paths into calls of that server.  The instances of storage-proxy
    share a database of mounts, through which one of them owns a volume, flushes are
    coordinated, and expired mounts are cleaned up.

    ctld runs on every node.  It opens the volumes of the sandboxes of the node behind
    portals, which are file systems published before it is known what they show, and owns
    them in the same database.  storage-proxy sends the requests for a volume to its owner,
    and takes a volume from one node and gives it to another by a handoff.

    The services know each other by signed tokens (pkg/internalauth), and by names made
    from those of clusters, templates and teams (pkg/naming).

    netd stands between sandboxes and the network.  It compiles the policy of every sandbox
    together with a policy of the platform, keeps them in a store by pod address, and for
    each TCP connection or UDP datagram of a sandbox tells the protocol and the host from
    the first bytes, checks the host against DNS, asks the policy, and hands the flow to an
    adapter, which relays it, puts credentials into it, or refuses it.  Credentials come
    from a broker (pkg/egressauth), which resolves the references of a sandbox through the
    bindings of its team.

    ** How code becomes definitions

    Go functions are Gallina functions of the same name.  [res] (this file) is a value, an
    error or a panic: indexing and slicing out of range, nil maps and negative sizes panic
    as in Go.  [ST] passes the state on, and keeps it on errors.  Integers are [Z] with
    their wrap-around written out ([u64], [u32], [add64]).  Maps are [gmap]s.  Strings and
    byte slices are byte strings.  What runs under one lock is one step; where the code
    releases a lock or starts a goroutine the steps are separate and other steps come
    between them.  Times and I/O outcomes are arguments.

    Code that is not in the repository is a class: ciphers and JSON ([Ciphers], [Json]),
    SHA-256, DNS ([Resolver]), the network ([Network]), http.ReadRequest ([HTTPReader]), the
    QUIC packages ([QuicLib]), certificates and TLS handshakes ([Certificates],
    [Interception]), templates and time formats ([RuntimeLib]), the order of a range over a
    map ([MapOrder], [FirstKey]), letters outside ASCII ([UnicodeCase], [UnicodeUpper]), the
    JWT library ([Jwt]), SHA-1 and the label checks of Kubernetes ([Sha1],
    [KubeValidation]), its pods ([Kubernetes], [Pods]).  What theorems need of them are
    classes of laws ([CipherLaws], [JsonLaws], [DigestLaws], [FormatLaws], [JwtLaws],
    [KubeLaws], ...), for which there are instances.  Interfaces of the repository itself are classes that its
    implementations are instances of: [Store], [HeadStore], [ColdReader], [Backend].

    ** Files

    Foundations.
    - Prelude: results, state passing, slices, integers, tactics and general lemmas.
    - GoStd, GoNet, GoText: the parts of the packages strings, path, encoding/json,
      encoding/hex, encoding/base32, fmt and net that the code calls, with parsing of
      addresses and networks.

    The engine (src/storage-proxy/pkg/s0fs).
    - S0fsTypes (types.go, errors.go), S0fsCore (engine.go: the operations on the state in
      memory and the replay of records), S0fsEngine (engine.go, wal.go: the calls, the log
      and the files).
    - S0fsInv, S0fsSafety: the invariant of the file system over every call
      ([engine_invariant]) and the absence of panics ([engine_no_panic]).
    - S0fsFiles: reads, writes and truncations byte by byte ([write_read],
      [truncate_read]), and that a call of the file
      API that fails leaves the file system as it was ([failed_call_atomic]).
    - S0fsPath: the search for the path of an inode.
    - S0fsSnapshot (snapshot.go): [snapshot_restore], [fork_spec].
    - S0fsRecovery: reopening after a crash gives the file system back
      ([crash_recovery]).  S0fsFaults: where it does not.
    - S0fsCrypto (crypto.go): encrypted segments and blobs ([segment_roundtrip]).
    - ObjectStore (src/storage-proxy/pkg/objectstore/store.go): the interface of object
      stores, the memory store and the prefixed store.
    - S0fsMaterializer (materializer.go, head_store.go), S0fsCache (with db/
      repository_s0fs_head.go), S0fsCommit, S0fsContent: a materialization keeps every file
      ([materialize_preserves_content]), is what is loaded next ([materialize_loads]), the
      cache does not show ([cache_transparent]) and of two writers one wins
      ([head_cas_exclusive]).

    Network policy (src/netd/pkg/policy, src/netd/pkg/daemon/platform_policy.go).
    - Policy (compiler.go, platform.go), PolicyEval (eval.go, src/netd/pkg/proxy/
      decision.go), PolicySpec: the meaning of policies on their source text and that
      compiling and evaluating implements it ([traffic_rules_first_match],
      [legacy_lists_spec]).
    - PolicyStore (store.go, platform_policy.go), PolicyGuard: the store has the policies
      of the sandboxes that exist ([store_follows_sandboxes], [platform_policy_current]) and
      keeps sandboxes apart ([sandboxes_isolated]).

    Mounted volumes and the file system server (src/storage-proxy/pkg).
    - Volume (volume/manager.go, backend.go, access_mode.go, root_posix_identity.go),
      VolumeSpec: the sessions over all interleavings ([direct_sessions_safe]) and the
      end of invalidations ([invalidations_settle]).
    - Notify (notify/hub.go), NotifySpec: the delivery of events ([watch_delivery]).
    - Naming (src/pkg/naming/paths.go).
    - FsServer (fsserver/server.go), FsServerSpec: callers reach only the volumes of their
      team ([tenant_isolation]).  FsServerAccess: permissions and events
      ([open_permission], [changes_published]).  FsServerFiles, FsServerLife: files stay
      while they are open and are freed afterwards ([open_file_stays],
      [unlinked_files_freed]).

    - VolumeFiles (http/handlers_volume_files.go), VolumeTree (what the engine's calls do to
      the paths of a tree), VolumeFilesSpec: what is written through the HTTP API is what is
      read ([written_file_read_back]), and requests of one team do not show to another
      ([file_requests_apart]).

    Owners of volumes (src/storage-proxy/pkg, src/ctld/internal/ctld/portal).
    - Mounts (db/repository.go, models.go): the tables, statements and transactions.
    - Coordinator (coordinator/coordinator.go), CoordinatorSpec: instances that share the
      database; one writer per volume ([mounts_exclusive]) and flushes that were done
      ([flush_complete]).
    - Portal (manager.go, session.go, registry.go), PortalSpec: one portal per writer on a
      node ([portal_single_writer]) and the barrier of a handoff ([handoff_barrier]).
    - Handoff (http/volume_handoff.go, volume_affinity.go, ctld_owner.go and
      prepareSandboxVolumeForPortalBind of handlers_sandboxvolume.go), HandoffSpec: the
      servers agree on the owner ([ctld_owner_agreed]); over the nodes and the database
      together, a handoff moves the volume ([handoff_moves_owner]) or leaves the source
      serving ([failed_handoff_releases]).  It composes Mounts, Portal and the messages
      between them.

    Tokens and names (src/pkg/internalauth, src/pkg/naming).
    - InternalAuth (claims.go, token.go, options.go, context.go, middleware.go, with
      src/storage-proxy/pkg/auth/middleware.go), InternalAuthSpec: tokens are authentic
      ([token_authentic]), arrive as they were made ([token_roundtrip]) and are used once
      ([token_used_once]).
    - KubeNames (core.go, parse.go, replicaset.go, template.go, resources.go, image.go),
      KubeNamesSpec: names lead back to cluster and port ([sandbox_name_routes]), images of
      a private registry to one team ([private_image_one_team]).

    Flows of sandboxes (src/netd/pkg/proxy).
    - Classifier (classifier.go), ClassifierSpec, ClassifierTls: classification ends with a
      result, whatever is sent ([classifyTCP_total]), and finds the name in a TLS hello in
      any segmentation ([tls_name_found]).
    - Proxy (host_verifier.go, adapter_registry.go, and handleTCPConn of server.go),
      ProxySpec: every flow follows a decision of the policy ([flow_follows_policy],
      [tls_domain_enforced]), hosts are verified by DNS ([verified_host_resolves]), adapters
      are found where they were registered ([registry_well_formed]).
    - Quic (quic_sni.go, quic_reassembly.go), QuicSpec: [crypto_frames_reassemble],
      [server_name_parsers_agree].
    - Udp (handleUDPDatagram of server.go, udp_session.go), UdpSpec: datagrams and replies
      of different flows stay apart ([udp_flows_isolated]).
    - EgressAuth (egress_auth.go, adapter_base.go, tls_proxy.go, src/pkg/egressauth/
      types.go), EgressAuthSpec: flows that need credentials go out with their own or not
      at all ([credentials_fail_closed], [credentials_scoped]).
    - CredentialProxy (credential_protocol_proxy.go), CredentialMqtt, CredentialSpec: what
      is sent upstream in MQTT, SOCKS5 and Redis sessions ([mqtt_credentials_replaced],
      [credentials_before_data]).
    - Broker (src/pkg/egressauth/runtime, bindings.go, sources.go), BrokerSpec: material
      comes from the sandbox's own current binding ([broker_scoped]).

    A file ending in Spec, and the others named with theorems, also hold the behaviours
    that fall short of what the code is for, each as a lemma about a concrete run, such as
    [checkpoint_crash_fails], [reused_address_loses_policy] or [long_list_panics].

    ** Bounds and fuel

    Loops that are not structural take fuel, and running out of it is an outcome that the
    theorems about results exclude.
    - [classify_loop]: the header limit and two more; every round but the last two reads at
      least one byte and no more than the limit is read ([classifyTCP_total]).
      [readTCPPrefix]: the limit of the probe and one, for the same reason
      ([flow_follows_policy]).
    - The parsers of hellos, of DNS names and of CRYPTO frames: the length of the data, as
      every round passes at least one byte.  [readRESPFrame] and the items of an array: the
      length of the stream and one, as every round reads a byte or fails.
    - [append_pending]: the number of pending frames, as every round removes one
      ([crypto_frames_reassemble]).
    - [path_loop]: the number of nodes and two, as every inode is queued once (S0fsPath).
      [encrypt_loop]: the length of the payload, as a chunk has at least one byte
      (S0fsCrypto).  [trim_left] and the parser of IPv6 groups: the length of the string
      and eight groups.
    - [removeVolumePath]: the depth of the tree below the path and one; any fuel is allowed
      where the theorems speak of every request.  [drain]: the number of requests under
      way, each round ends one (Portal).  [waitForVolumeHandoff] polls for as long as it is
      given ticks.
    - [LoadLatestManifest] calls itself after it has moved an old head to the head store;
      its fuel is the number of such moves, and the theorems hold for any.
    [engine_no_panic] bounds offsets and sizes as its hypotheses say; link counts and
    sequence numbers wrap as in the code.  A reader that returns no data and no error for
    ever is excluded where the code would spin on it ([reads_progress]).

    ** Not modelled

    - Of storage-proxy: the handlers of snapshots, sessions and replication, the creation
      and deletion of volumes, SQL texts (their effect on the rows is modelled), the web
      socket of watches, the forwarding of a request's body, the S3 client, configuration of
      backends.  These are I/O around the modelled parts.
    - Of ctld: the session behind a portal with its read cache (calls of the file system
      server), FUSE, cgroups and the container runtime.  In Portal the engine of a volume is
      the results of its calls; the engine itself is in the S0fs files.
    - Of internal tokens the keys and the HTTP transport: files and net/http.
    - Of netd: the exchanges of SSH, of HTTP and of HTTP/2 inside a flow that is terminated
      (net/http, crypto/tls, crypto/ssh), the making of certificates, copying loops of
      relays with their audit, socket options, iptables and connection tracking.  The
      memory an allocation may need is not modelled, nor are timers except as the times
      and timeouts a step is given.
    - The manager and its controllers, procd, the gateways, the infra operator, the
      scheduler, the FUSE client and the other shared packages: Kubernetes, HTTP, SQL and kernel
      interfaces; generated code. *)

From stdpp Require Import base gmap strings list fin_maps numbers sorting.
From Stdlib Require Import Strings.Byte.

Local Open Scope Z_scope.

(** ** Results of Go code: a value, an error value, or a run-time panic. *)

Inductive res (E A : Type) : Type :=
| Ok (a : A)
| Err (e : E)
| Panic.
Arguments Ok {E A} a.
Arguments Err {E A} e.
Arguments Panic {E A}.

Definition is_ok {E A} (r : res E A) : bool :=
  match r with Ok _ => true | _ => false end.

Definition rbind {E A B} (m : res E A) (k : A -> res E B) : res E B :=
  match m with
  | Ok a => k a
  | Err e => Err e
  | Panic => Panic
  end.

(** State-passing code: the state is kept on every outcome, as Go does not roll
    back the writes of a function that returns an error. *)

Definition ST (E S A : Type) : Type := S -> res E A * S.

Definition ret {E S A} (a : A) : ST E S A := fun s => (Ok a, s).
Definition throw {E S A} (e : E) : ST E S A := fun s => (Err e, s).
Definition panic {E S A} : ST E S A := fun s => (Panic, s).
Definition get {E S} : ST E S S := fun s => (Ok s, s).
Definition gets {E S A} (f : S -> A) : ST E S A := fun s => (Ok (f s), s).
Definition modify {E S} (f : S -> S) : ST E S unit := fun s => (Ok tt, f s).
Definition lift_res {E S A} (r : res E A) : ST E S A := fun s => (r, s).

Definition bind {E S A B} (m : ST E S A) (k : A -> ST E S B) : ST E S B :=
  fun s =>
    match m s with
    | (Ok a, s') => k a s'
    | (Err e, s') => (Err e, s')
    | (Panic, s') => (Panic, s')
    end.

Declare Scope go_scope.
Delimit Scope go_scope with go.
Notation "'let?' x ':=' m 'in' k" := (rbind m (fun x => k))
  (at level 10, x binder, m at level 100, k at level 200) : go_scope.
Notation "'let*' x ':=' m 'in' k" := (bind m (fun x => k))
  (at level 10, x binder, m at level 100, k at level 200) : go_scope.
Notation "'do*' m 'in' k" := (bind m (fun _ => k))
  (at level 10, m at level 100, k at level 200) : go_scope.
Open Scope go_scope.

Section st_lemmas.
Context {E S A B : Type}.
Implicit Types (m : ST E S A) (k : A -> ST E S B) (s : S).

Lemma bind_ok_inv m k s b s' :
    bind m k s = (Ok b, s') ->
    exists a s1, m s = (Ok a, s1) /\ k a s1 = (Ok b, s').
Proof. unfold bind. destruct (m s) as [[a|e|] s1]; naive_solver. Qed.

Lemma bind_ok m k s a s1 : m s = (Ok a, s1) -> bind m k s = k a s1.
Proof. unfold bind. by intros ->. Qed.

Lemma bind_err m k s e s1 : m s = (Err e, s1) -> bind m k s = (Err e, s1).
Proof. unfold bind. by intros ->. Qed.
End st_lemmas.

(** ** Machine integers *)

Definition u64 (x : Z) : Z := x mod 2 ^ 64.
Definition u32 (x : Z) : Z := x mod 2 ^ 32.
(** [int(x)] of a uint64: two's complement reinterpretation on 64 bits. *)
Definition int64_of (x : Z) : Z := if x <? 2 ^ 63 then x else x - 2 ^ 64.
Definition maxInt : Z := 2 ^ 63 - 1.
(** The sum of two int64 values. *)
Definition add64 (x y : Z) : Z := int64_of (u64 (x + y)).

Lemma u64_small x : 0 <= x < 2 ^ 64 -> u64 x = x.
Proof. intros. unfold u64. by apply Z.mod_small. Qed.
Lemma u32_small x : 0 <= x < 2 ^ 32 -> u32 x = x.
Proof. intros. unfold u32. by apply Z.mod_small. Qed.
Lemma int64_of_small x : x <= maxInt -> int64_of x = x.
Proof. intros. unfold int64_of. rewrite (proj2 (Z.ltb_lt _ _)); unfold maxInt in *; lia. Qed.
Lemma add64_small x y : 0 <= x + y <= maxInt -> add64 x y = x + y.
Proof. intros H. unfold add64. unfold maxInt in *. rewrite u64_small by lia. apply int64_of_small. unfold maxInt. lia. Qed.
Lemma u64_range x : 0 <= u64 x < 2 ^ 64.
Proof. unfold u64. apply Z.mod_pos_bound. lia. Qed.

(** ** Byte slices *)

Section slices.
Context {A : Type}.
Implicit Types l : list A.

Definition zlen l : Z := Z.of_nat (length l).

(** The elements of [l] from index [a] up to index [b]. *)
Definition subslice (a b : Z) l : list A :=
  take (Z.to_nat (b - a)) (drop (Z.to_nat a) l).

(** The slice expression [l[a:b]], which panics outside the bounds. *)
Definition goslice {E} (a b : Z) l : res E (list A) :=
  if (0 <=? a) && (a <=? b) && (b <=? zlen l) then Ok (subslice a b l) else Panic.

(** [l] with the elements from index [a] on replaced by [d]. *)
Definition splice (a : Z) (d l : list A) : list A :=
  take (Z.to_nat a) l ++ d ++ drop (Z.to_nat a + length d) l.

Lemma zlen_nonneg l : 0 <= zlen l.
Proof. unfold zlen. lia. Qed.
Lemma zlen_cons x l : zlen (x :: l) = zlen l + 1.
Proof. unfold zlen. simpl. lia. Qed.
Lemma zlen_app l1 l2 : zlen (l1 ++ l2) = zlen l1 + zlen l2.
Proof. unfold zlen. rewrite length_app. lia. Qed.
Lemma zlen_replicate n (x : A) : zlen (replicate n x) = Z.of_nat n.
Proof. unfold zlen. by rewrite length_replicate. Qed.
Lemma zlen_nil_iff l : zlen l = 0 <-> l = [].
Proof. unfold zlen. destruct l; simpl; split; try done; lia. Qed.
Lemma zlen_subslice a b l :
  0 <= a -> a <= b -> b <= zlen l -> zlen (subslice a b l) = b - a.
Proof. unfold zlen, subslice. rewrite length_take, length_drop. lia. Qed.
Lemma zlen_subslice_le a b l :
  0 <= a -> a < b -> zlen (subslice a b l) = b - a -> b <= zlen l.
Proof. unfold zlen, subslice. rewrite length_take, length_drop. lia. Qed.
Lemma subslice_all l : subslice 0 (zlen l) l = l.
Proof. unfold subslice, zlen. rewrite Z.sub_0_r, Nat2Z.id. simpl. by rewrite drop_0, firstn_all. Qed.
Lemma subslice_empty a b l : b <= a -> subslice a b l = [].
Proof. intros. unfold subslice. by replace (Z.to_nat (b - a)) with 0%nat by lia. Qed.
Lemma lookup_subslice a b l (i : nat) :
  0 <= a -> Z.of_nat i < b - a -> subslice a b l !! i = l !! (Z.to_nat a + i)%nat.
Proof. intros. unfold subslice. rewrite lookup_take_lt by lia. by rewrite lookup_drop. Qed.
Lemma subslice_subslice a b c d l :
  0 <= a -> 0 <= c -> d <= b - a ->
  subslice c d (subslice a b l) = subslice (a + c) (a + d) l.
Proof.
  intros. unfold subslice. rewrite skipn_firstn_comm, drop_drop, take_take.
  f_equal; [lia | f_equal; lia].
Qed.
Lemma subslice_app a b c l :
  0 <= a -> a <= b -> b <= c -> subslice a b l ++ subslice b c l = subslice a c l.
Proof.
  intros. unfold subslice.
  replace (Z.to_nat (c - a)) with (Z.to_nat (b - a) + Z.to_nat (c - b))%nat by lia.
  replace (Z.to_nat b) with (Z.to_nat a + Z.to_nat (b - a))%nat by lia.
  rewrite <- drop_drop. rewrite <- take_take_drop. done.
Qed.
Lemma subslice_app_l a b l1 l2 :
  0 <= a -> b <= zlen l1 -> subslice a b (l1 ++ l2) = subslice a b l1.
Proof.
  intros. unfold subslice, zlen in *.
  destruct (decide (Z.to_nat a <= length l1)%nat).
  - rewrite drop_app_le, take_app_le; rewrite ?length_drop; auto; lia.
  - replace (Z.to_nat (b - a)) with 0%nat by lia. done.
Qed.
Lemma subslice_app_r a b l1 l2 :
  zlen l1 <= a -> subslice a b (l1 ++ l2) = subslice (a - zlen l1) (b - zlen l1) l2.
Proof.
  intros. unfold subslice, zlen in *.
  rewrite drop_app_ge by lia.
  replace (Z.to_nat (a - Z.of_nat (length l1))) with (Z.to_nat a - length l1)%nat by lia.
  by replace (b - Z.of_nat (length l1) - (a - Z.of_nat (length l1))) with (b - a) by lia.
Qed.
Lemma goslice_ok {E} a b l :
  0 <= a -> a <= b -> b <= zlen l -> goslice (E:=E) a b l = Ok (subslice a b l).
Proof.
  intros. unfold goslice.
  rewrite (proj2 (Z.leb_le 0 a)), (proj2 (Z.leb_le a b)), (proj2 (Z.leb_le b _)) by done.
  done.
Qed.
Lemma zlen_splice a d l :
  0 <= a -> a + zlen d <= zlen l -> zlen (splice a d l) = zlen l.
Proof.
  unfold splice, zlen. rewrite !length_app, length_take, length_drop. lia.
Qed.
Lemma subslice_splice_new a d l :
  0 <= a -> a + zlen d <= zlen l -> subslice a (a + zlen d) (splice a d l) = d.
Proof.
  unfold splice, zlen. intros.
  assert (Ht : length (take (Z.to_nat a) l) = Z.to_nat a) by (rewrite length_take; lia).
  unfold subslice. rewrite drop_app_ge by lia. rewrite Ht, Nat.sub_diag, drop_0.
  rewrite take_app_le by lia. replace (Z.to_nat (a + Z.of_nat (length d) - a)) with (length d) by lia.
  by rewrite firstn_all.
Qed.
Lemma lookup_splice_old a d l (i : nat) :
  0 <= a -> a + zlen d <= zlen l -> ~ (a <= Z.of_nat i < a + zlen d) ->
  splice a d l !! i = l !! i.
Proof.
  unfold splice, zlen. intros ? ? Hi.
  assert (Ht : length (take (Z.to_nat a) l) = Z.to_nat a) by (rewrite length_take; lia).
  destruct (decide (i < Z.to_nat a)%nat).
  - rewrite lookup_app_l by lia. by rewrite lookup_take_lt by lia.
  - rewrite lookup_app_r by lia. rewrite lookup_app_r by lia.
    rewrite lookup_drop. f_equal. lia.
Qed.
End slices.

(** ** Hints and tactics of the development *)

Create HintDb go.
Create Rewrite HintDb go.
#[export] Hint Resolve zlen_nonneg u64_range : go.
#[export] Hint Rewrite @zlen_app @zlen_replicate : go.

(** Split the hypothesis [bind m k s = (Ok a, s')] into its steps. *)
Ltac inv_bind :=
  repeat match goal with
  | H : bind _ _ _ = (Ok _, _) |- _ =>
      apply bind_ok_inv in H; destruct H as (? & ? & ? & ?)
  end.

(** Case analysis on every match of the goal or of a hypothesis, keeping equations. *)
Ltac go_cases := repeat (case_match; simplify_eq/=; try done).
