(* ===== verification/GoStd.v ===== *)
(** * The parts of the Go standard library the modelled code calls

    Strings are byte strings, as in Go: [String.string] with one [ascii] per byte.
    [TrimSpace] and [ToLower] of package strings, the replacement of invalid UTF-8
    that encoding/json performs when it writes a string, and the decimal printing
    of [fmt.Sprintf("%020d", n)]. *)

From stdpp Require Import base gmap strings list fin_maps numbers.
From Stdlib Require Import Ascii.
From S2P Require Import Prelude.

Local Open Scope nat_scope.

Definition code (a : ascii) : nat := nat_of_ascii a.
Definition between (lo hi n : nat) : bool := (lo <=? n) && (n <=? hi).

Fixpoint str_forallb (f : ascii -> bool) (s : string) : bool :=
  match s with
  | EmptyString => true
  | String a s' => f a && str_forallb f s'
  end.

Fixpoint str_map (f : ascii -> ascii) (s : string) : string :=
  match s with
  | EmptyString => EmptyString
  | String a s' => String (f a) (str_map f s')
  end.

Fixpoint str_of_codes (l : list nat) : string :=
  match l with
  | [] => EmptyString
  | n :: l' => String (ascii_of_nat n) (str_of_codes l')
  end.

(** ** strings.HasPrefix, strings.TrimPrefix, strings.HasSuffix *)

Fixpoint TrimPrefixOpt (p s : string) : option string :=
  match p, s with
  | EmptyString, _ => Some s
  | String a p', String b s' => if decide (a = b) then TrimPrefixOpt p' s' else None
  | String _ _, EmptyString => None
  end.

Definition HasPrefix (s p : string) : bool :=
  match TrimPrefixOpt p s with Some _ => true | None => false end.

Definition TrimPrefix (s p : string) : string :=
  match TrimPrefixOpt p s with Some r => r | None => s end.

Definition HasSuffix (s p : string) : bool :=
  HasPrefix (String.rev s) (String.rev p).

(** ** strings.TrimLeft, strings.TrimRight and strings.Trim with a one-byte cutset *)

Fixpoint TrimLeft (s : string) (c : ascii) : string :=
  match s with
  | EmptyString => EmptyString
  | String a s' => if decide (a = c) then TrimLeft s' c else s
  end.

Definition TrimRight (s : string) (c : ascii) : string := String.rev (TrimLeft (String.rev s) c).
Definition Trim (s : string) (c : ascii) : string := TrimRight (TrimLeft s c) c.

(** ** strings.TrimSpace

    The UTF-8 encodings of the runes for which [unicode.IsSpace] holds. *)

Definition space_encodings : list string :=
  str_of_codes <$>
    ([[9]; [10]; [11]; [12]; [13]; [32]; [194; 133]; [194; 160]; [225; 154; 128]] ++
     ((fun k => [226; 128; k]) <$> [128; 129; 130; 131; 132; 133; 134; 135; 136; 137; 138; 168; 169; 175]) ++
     [[226; 129; 159]; [227; 128; 128]]).

Fixpoint strip_first (encs : list string) (s : string) : option string :=
  match encs with
  | [] => None
  | e :: encs' =>
      match TrimPrefixOpt e s with
      | Some r => Some r
      | None => strip_first encs' s
      end
  end.

Fixpoint trim_left (fuel : nat) (encs : list string) (s : string) : string :=
  match fuel with
  | O => s
  | S fuel' =>
      match strip_first encs s with
      | Some r => trim_left fuel' encs r
      | None => s
      end
  end.

(** The fuel is the length of the string: every round removes at least one byte. *)
Definition TrimSpace (s : string) : string :=
  let l := trim_left (String.length s) space_encodings s in
  String.rev (trim_left (String.length l) (String.rev <$> space_encodings) (String.rev l)).

Lemma rev_app_app s t acc : String.rev_app (s +:+ t) acc = String.rev_app t (String.rev_app s acc).
Proof. revert acc. induction s as [|c s IH]; intros acc; simpl; [done|]. apply IH. Qed.

Lemma str_app_assoc (a b c : string) : a +:+ (b +:+ c) = (a +:+ b) +:+ c.
Proof. induction a as [|x a IH]; [done|]. change (String x (a +:+ (b +:+ c)) = String x ((a +:+ b) +:+ c)). by rewrite IH. Qed.
Lemma str_app_nil (a : string) : a +:+ "" = a.
Proof. induction a as [|x a IH]; [done|]. change (String x (a +:+ "") = String x a). by rewrite IH. Qed.

Lemma rev_app_eq s acc : String.rev_app s acc = String.rev s +:+ acc.
Proof.
  unfold String.rev. revert acc. induction s as [|c s IH]; intros acc; simpl; [done|].
  rewrite IH, (IH (String c "")). by rewrite <- str_app_assoc.
Qed.
Lemma rev_app_string a b : String.rev (a +:+ b) = String.rev b +:+ String.rev a.
Proof. unfold String.rev at 1. by rewrite rev_app_app, rev_app_eq. Qed.
Lemma rev_involutive s : String.rev (String.rev s) = s.
Proof.
  induction s as [|c s IH]; [done|]. unfold String.rev at 2. simpl. rewrite rev_app_eq, rev_app_string, IH. done.
Qed.

Lemma TrimPrefixOpt_spec p s r : TrimPrefixOpt p s = Some r <-> s = p +:+ r.
Proof.
  revert s. induction p as [|a p IH]; intros s; simpl.
  - split; [by intros [= ->]|by intros ->].
  - destruct s as [|b s]; [done|]. destruct (decide (a = b)) as [->|Hab].
    + rewrite IH. split; [by intros ->|by intros [= ->]].
    + split; [done|]. by intros [= ? ?].
Qed.

Lemma HasPrefix_spec s p : HasPrefix s p = true <-> exists r, s = p +:+ r.
Proof.
  unfold HasPrefix. destruct (TrimPrefixOpt p s) as [r|] eqn:E.
  - split; [|done]. intros _. exists r. by apply TrimPrefixOpt_spec.
  - split; [done|]. intros [r Hr%TrimPrefixOpt_spec]. congruence.
Qed.

Lemma HasSuffix_spec s p : HasSuffix s p = true <-> exists r, s = r +:+ p.
Proof.
  unfold HasSuffix. rewrite HasPrefix_spec. split; intros [r Hr].
  - exists (String.rev r). rewrite <- (rev_involutive s), Hr, rev_app_string. by rewrite rev_involutive.
  - exists (String.rev r). by rewrite Hr, rev_app_string.
Qed.

(** ** strings.ToLower

    ASCII strings are lowered byte by byte; a string with a byte above 127 goes
    through the Unicode case tables, which are a parameter. *)

Class UnicodeCase := { unicode_lower : string -> string }.

Definition lower_byte (a : ascii) : ascii :=
  if between 65 90 (code a) then ascii_of_nat (code a + 32) else a.

Definition is_ascii (s : string) : bool := str_forallb (fun a => code a <? 128) s.

Definition ToLower `{UnicodeCase} (s : string) : string :=
  if is_ascii s then str_map lower_byte s else unicode_lower s.

(** ** strings.ToUpper, with the same treatment *)

Class UnicodeUpper := { unicode_upper : string -> string }.

Definition upper_byte (a : ascii) : ascii :=
  if between 97 122 (code a) then ascii_of_nat (code a - 32) else a.

Definition ToUpper `{UnicodeUpper} (s : string) : string :=
  if is_ascii s then str_map upper_byte s else unicode_upper s.

(** ** strings.Contains *)

Fixpoint Contains_str (s sub : string) : bool :=
  HasPrefix s sub ||
  match s with
  | EmptyString => false
  | String _ s' => Contains_str s' sub
  end.

(** ** The strings encoding/json writes

    Each byte that does not start a valid UTF-8 sequence is written as U+FFFD. *)

Definition cont (a : ascii) : bool := between 128 191 (code a).

Definition valid2 (a b : ascii) : bool := between 194 223 (code a) && cont b.

Definition valid3 (a b c : ascii) : bool :=
  cont c &&
  ( ((code a =? 224) && between 160 191 (code b))
    || ((code a =? 237) && between 128 159 (code b))
    || ((between 225 236 (code a) || between 238 239 (code a)) && cont b)).

Definition valid4 (a b c d : ascii) : bool :=
  cont c && cont d &&
  ( ((code a =? 240) && between 144 191 (code b))
    || ((code a =? 244) && between 128 143 (code b))
    || (between 241 243 (code a) && cont b)).

Definition rune_error : string := str_of_codes [239; 191; 189].

Fixpoint json_string (s : string) : string :=
  match s with
  | EmptyString => EmptyString
  | String a r =>
      if code a <? 128 then String a (json_string r) else
      match r with
      | EmptyString => rune_error
      | String b r2 =>
          if valid2 a b then String a (String b (json_string r2)) else
          match r2 with
          | EmptyString => rune_error +:+ json_string r
          | String c r3 =>
              if valid3 a b c then String a (String b (String c (json_string r3))) else
              match r3 with
              | EmptyString => rune_error +:+ json_string r
              | String d r4 =>
                  if valid4 a b c d
                  then String a (String b (String c (String d (json_string r4))))
                  else rune_error +:+ json_string r
              end
          end
      end
  end.

(** Valid UTF-8: the strings JSON writes unchanged. *)
Definition utf8_ok (s : string) : Prop := json_string s = s.

#[export] Instance utf8_ok_dec s : Decision (utf8_ok s).
Proof. unfold utf8_ok. apply _. Defined.

Lemma json_string_ascii s : is_ascii s = true -> json_string s = s.
Proof.
  unfold is_ascii. induction s as [|a s IH]; [done|]. cbn [str_forallb].
  intros [Ha Hs]%andb_prop. specialize (IH Hs). cbn [json_string]. by rewrite Ha, IH.
Qed.

(** ** fmt.Sprintf("%020d", n) *)

Fixpoint digits (w : nat) (n : Z) (acc : string) : string :=
  match w with
  | O => acc
  | S w' => digits w' (n / 10)%Z (String (ascii_of_nat (48 + Z.to_nat (n mod 10))) acc)
  end.

(** A uint64 has at most twenty decimal digits, so the width never overflows. *)
Definition pad20 (n : Z) : string := digits 20 n "".

Example pad20_ex : pad20 1203 = "00000000000000001203".
Proof. reflexivity. Qed.
Example trim_ex : TrimSpace (String (ascii_of_nat 9) " a b  ") = "a b".
Proof. reflexivity. Qed.
