(* ===== verification/GoNet.v ===== *)
(** * The parts of package net that the network policy code calls

    Addresses ([net.IP]) are lists of bytes, 4 or 16 of them, with the empty list for
    nil; a network is an address with a mask.  Parsing follows net/netip (IPv4 dotted
    decimal without leading zeros, IPv6 with one ellipsis and an optional IPv4 tail;
    package net refuses zones), printing the canonical form.  The theorems say that
    membership of an address in a parsed network is agreement on the prefix bits. *)

From stdpp Require Import base gmap strings list fin_maps numbers.
From Stdlib Require Import Ascii.
From S2P Require Import Prelude GoStd.

Local Open Scope Z_scope.

Definition IP : Type := list Z.
Record IPNet := mkIPNet { in_IP : IP; in_Mask : list Z }.

Definition chr (a : ascii) : Z := Z.of_nat (code a).
Definition is_digit (a : ascii) : bool := (48 <=? chr a) && (chr a <=? 57).
Definition hex_digit (a : ascii) : option Z :=
  let c := chr a in
  if (48 <=? c) && (c <=? 57) then Some (c - 48) else
  if (97 <=? c) && (c <=? 102) then Some (c - 87) else
  if (65 <=? c) && (c <=? 70) then Some (c - 55) else None.

Definition dot : ascii := "."%char.
Definition colon : ascii := ":"%char.
Definition slash_char : ascii := "/"%char.
Definition percent : ascii := "%"%char.

Fixpoint contains_char (c : ascii) (s : string) : bool :=
  match s with
  | EmptyString => false
  | String a s' => bool_decide (a = c) || contains_char c s'
  end.

(** [strings.Cut] around a byte. *)
Fixpoint cut (c : ascii) (s : string) : option (string * string) :=
  match s with
  | EmptyString => None
  | String a s' =>
      if decide (a = c) then Some ("", s') else
      match cut c s' with
      | Some (l, r) => Some (String a l, r)
      | None => None
      end
  end.

(** ** netip.ParseAddr *)

(** [parseIPv4Fields]: the octets so far, the value and the number of digits of the
    current one; [last] is whether the byte before was a dot or there is none. *)
Fixpoint ipv4_loop (s : string) (fields : list Z) (val : Z) (digLen : nat) (last : bool) : option (list Z) :=
  match s with
  | EmptyString => if (length fields <? 3)%nat then None else Some (fields ++ [val])
  | String a s' =>
      if is_digit a then
        if (digLen =? 1)%nat && (val =? 0) then None else
        let val := val * 10 + (chr a - 48) in
        if 255 <? val then None else ipv4_loop s' fields val (digLen + 1) false
      else if decide (a = dot) then
        if last || bool_decide (s' = EmptyString) then None else
        if (length fields =? 3)%nat then None else ipv4_loop s' (fields ++ [val]) 0 0 true
      else None
  end.

Definition parseIPv4 (s : string) : option IP := ipv4_loop s [] 0 0 true.

(** The hexadecimal number a group starts with: its value, its digits and the rest. *)
Fixpoint hex_group (s : string) (off : nat) (acc : Z) : option (Z * nat * string) :=
  match s with
  | EmptyString => Some (acc, off, s)
  | String a s' =>
      match hex_digit a with
      | None => Some (acc, off, s)
      | Some d =>
          let acc := acc * 16 + d in
          if (3 <? off)%nat || (65535 <? acc) then None else hex_group s' (off + 1) acc
      end
  end.

(** The loop over the groups: the bytes so far, the position of the ellipsis, and
    what remains of the string.  Each round adds a group, so eight rounds suffice. *)
Fixpoint ipv6_loop (fuel : nat) (s : string) (ip : list Z) (ellipsis : option nat)
    : option (list Z * option nat * string) :=
  match fuel with
  | O => Some (ip, ellipsis, s)
  | S fuel' =>
      match hex_group s 0 0 with
      | None => None
      | Some (acc, off, rest) =>
          if (off =? 0)%nat then None else
          match rest with
          | EmptyString => Some (ip ++ [acc / 256; acc mod 256], ellipsis, rest)
          | String a rest' =>
              if decide (a = dot) then
                if bool_decide (ellipsis = None) && negb (length ip =? 12)%nat then None else
                if (16 <? length ip + 4)%nat then None else
                match parseIPv4 s with
                | None => None
                | Some v4 => Some (ip ++ v4, ellipsis, EmptyString)
                end
              else
              let ip := ip ++ [acc / 256; acc mod 256] in
              if decide (a <> colon) then None else
              match rest' with
              | EmptyString => None
              | String b rest'' =>
                  if decide (b = colon) then
                    match ellipsis with
                    | Some _ => None
                    | None =>
                        if decide (rest'' = EmptyString) then Some (ip, Some (length ip), rest'')
                        else ipv6_loop fuel' rest'' ip (Some (length ip))
                    end
                  else ipv6_loop fuel' rest' ip ellipsis
              end
          end
      end
  end.

Definition ipv6_finish (r : list Z * option nat * string) : option IP :=
  let '(ip, ellipsis, s) := r in
  if decide (s <> EmptyString) then None else
  if (length ip <? 16)%nat then
    match ellipsis with
    | None => None
    | Some e => Some (take e ip ++ replicate (16 - length ip) 0 ++ drop e ip)
    end
  else if decide (ellipsis = None) then Some ip else None.

(** [parseIPv6] for a string without a zone. *)
Definition parseIPv6 (s : string) : option IP :=
  match TrimPrefixOpt "::" s with
  | Some s' =>
      if decide (s' = EmptyString) then Some (replicate 16 0)
      else ipv6_loop 8 s' [] (Some 0%nat) ≫= ipv6_finish
  | None => ipv6_loop 8 s [] None ≫= ipv6_finish
  end.

(** The first dot or colon decides.  A percent sign makes a zone, or an error; package
    net refuses both. *)
Fixpoint address_kind (s : string) : option bool :=
  match s with
  | EmptyString => None
  | String a s' =>
      if decide (a = dot) then Some true else
      if decide (a = colon) then Some false else
      if decide (a = percent) then None else address_kind s'
  end.

(** [None] for an error or a zone; an IPv4 address has 4 bytes. *)
Definition ParseAddr (s : string) : option IP :=
  if contains_char percent s then None else
  match address_kind s with
  | Some true => parseIPv4 s
  | Some false => parseIPv6 s
  | None => None
  end.

(** ** net.IP *)

Definition v4InV6Prefix : list Z := [0; 0; 0; 0; 0; 0; 0; 0; 0; 0; 255; 255].

Definition As16 (ip : IP) : IP := if (length ip =? 4)%nat then v4InV6Prefix ++ ip else ip.

(** [ip.To4()], with the empty list for nil. *)
Definition To4 (ip : IP) : IP :=
  if (length ip =? 4)%nat then ip else
  if (length ip =? 16)%nat && bool_decide (take 12 ip = v4InV6Prefix) then drop 12 ip else [].

Definition ParseIP (s : string) : option IP := As16 <$> ParseAddr s.

(** [net.CIDRMask] *)
Fixpoint CIDRMask (ones : Z) (len : nat) : list Z :=
  match len with
  | O => []
  | S len' =>
      if 8 <=? ones then 255 :: CIDRMask (ones - 8) len'
      else (256 - 2 ^ (8 - ones)) :: CIDRMask 0 len'
  end.

Definition and_bytes (a b : list Z) : list Z := zip_with Z.land a b.

(** [ip.Mask(m)]; nil is the empty list. *)
Definition Mask (ip : IP) (m : list Z) : IP :=
  let m := if (length m =? 16)%nat && (length ip =? 4)%nat && bool_decide (take 12 m = replicate 12 255)
           then drop 12 m else m in
  let ip := if (length m =? 4)%nat && (length ip =? 16)%nat && bool_decide (take 12 ip = v4InV6Prefix)
            then drop 12 ip else ip in
  if (length ip =? length m)%nat then and_bytes ip m else [].

(** [dtoi]: the number, and whether all of a non-empty string is one below 0xFFFFFF. *)
Fixpoint dtoi_loop (s : string) (n : Z) : option Z :=
  match s with
  | EmptyString => Some n
  | String a s' =>
      if is_digit a then
        let n := n * 10 + (chr a - 48) in
        if 16777215 <=? n then None else dtoi_loop s' n
      else None
  end.
Definition dtoi (s : string) : option Z := if decide (s = EmptyString) then None else dtoi_loop s 0.

Definition ParseCIDR (s : string) : option (IP * IPNet) :=
  match cut slash_char s with
  | None => None
  | Some (addr, mask) =>
      match ParseAddr addr, dtoi mask with
      | Some ip, Some n =>
          let bits := Z.of_nat (length ip) * 8 in
          if bits <? n then None else
          let m := CIDRMask n (length ip) in
          Some (As16 ip, mkIPNet (Mask (As16 ip) m) m)
      | _, _ => None
      end
  end.

(** [networkNumberAndMask] *)
Definition networkNumberAndMask (n : IPNet) : option (IP * list Z) :=
  let ip := if decide (To4 (in_IP n) = []) then in_IP n else To4 (in_IP n) in
  if negb ((length ip =? 4)%nat || (length ip =? 16)%nat) then None else
  if (length (in_Mask n) =? 4)%nat then
    if (length ip =? 4)%nat then Some (ip, in_Mask n) else None
  else if (length (in_Mask n) =? 16)%nat then
    Some (ip, if (length ip =? 4)%nat then drop 12 (in_Mask n) else in_Mask n)
  else None.

Definition Contains (n : IPNet) (ip : IP) : bool :=
  let ip := if decide (To4 ip = []) then ip else To4 ip in
  match networkNumberAndMask n with
  | None => (length ip =? 0)%nat
  | Some (nn, m) => (length ip =? length nn)%nat && bool_decide (and_bytes nn m = and_bytes ip m)
  end.

(** ** Printing *)

Definition digit_char (d : Z) : ascii := ascii_of_nat (if d <? 10 then 48 + Z.to_nat d else 87 + Z.to_nat d).

(** The digits of a number below [base ^ w], without leading zeros. *)
Fixpoint show (base : Z) (w : nat) (n : Z) (acc : string) : string :=
  match w with
  | O => acc
  | S w' =>
      let acc := String (digit_char (n mod base)) acc in
      if n / base =? 0 then acc else show base w' (n / base) acc
  end.
Definition show_dec (n : Z) : string := show 10 20 n "".
Definition show_hex (n : Z) : string := show 16 4 n "".

Fixpoint show_octets (l : list Z) : string :=
  match l with
  | [] => ""
  | [a] => show_dec a
  | a :: l' => show_dec a +:+ "." +:+ show_octets l'
  end.

Fixpoint groups (ip : list Z) : list Z :=
  match ip with
  | a :: b :: ip' => a * 256 + b :: groups ip'
  | _ => []
  end.

Fixpoint zero_run (l : list Z) : nat :=
  match l with
  | 0 :: l' => S (zero_run l')
  | _ => 0
  end.

(** The first longest run of at least two zero groups: its start and its end. *)
Fixpoint longest_run (i : nat) (l : list Z) (best : option (nat * nat)) : option (nat * nat) :=
  match l with
  | [] => best
  | _ :: l' =>
      let n := zero_run l in
      let len := match best with Some (s, e) => (e - s)%nat | None => 0%nat end in
      longest_run (S i) l' (if (2 <=? n)%nat && (len <? n)%nat then Some (i, i + n)%nat else best)
  end.

Fixpoint show_groups (l : list Z) : string :=
  match l with
  | [] => ""
  | [g] => show_hex g
  | g :: l' => show_hex g +:+ ":" +:+ show_groups l'
  end.

Definition show_v6 (ip : IP) : string :=
  let g := groups ip in
  match longest_run 0 g None with
  | Some (s, e) => show_groups (take s g) +:+ "::" +:+ show_groups (drop e g)
  | None => show_groups g
  end.

Fixpoint hexString (b : list Z) : string :=
  match b with
  | [] => ""
  | x :: b' => String (digit_char (x / 16)) (String (digit_char (x mod 16)) (hexString b'))
  end.

Definition IP_String (ip : IP) : string :=
  if (length ip =? 0)%nat then "<nil>" else
  if negb ((length ip =? 4)%nat || (length ip =? 16)%nat) then "?" +:+ hexString ip else
  if decide (To4 ip = []) then show_v6 ip else show_octets (To4 ip).

(** [simpleMaskLength], [None] for a mask that is not a prefix. *)
Fixpoint simpleMaskLength (m : list Z) : option Z :=
  match m with
  | [] => Some 0
  | v :: m' =>
      if v =? 255 then (fun n => 8 + n) <$> simpleMaskLength m' else
      match list_find (fun k => v = 256 - 2 ^ (8 - k)) (seqZ 0 8) with
      | Some (_, k) => if forallb (Z.eqb 0) m' then Some k else None
      | None => None
      end
  end.

Definition IPNet_String (n : IPNet) : string :=
  match networkNumberAndMask n with
  | None => "<nil>"
  | Some (nn, m) =>
      match simpleMaskLength m with
      | Some l => IP_String nn +:+ "/" +:+ show_dec l
      | None => IP_String nn +:+ "/" +:+ hexString m
      end
  end.

Example parse_v4 : ParseIP "10.1.2.3" = Some (v4InV6Prefix ++ [10; 1; 2; 3]).
Proof. reflexivity. Qed.
Example parse_v4_zero : ParseAddr "10.01.2.3" = None.
Proof. reflexivity. Qed.
Example parse_v6 : ParseAddr "fd00::1:2" = Some [253; 0; 0; 0; 0; 0; 0; 0; 0; 0; 0; 0; 0; 1; 0; 2].
Proof. reflexivity. Qed.
Example parse_v6_tail : ParseAddr "::ffff:1.2.3.4" = Some (v4InV6Prefix ++ [1; 2; 3; 4]).
Proof. reflexivity. Qed.
Example parse_v6_end : ParseAddr "fe80::" = Some ([254; 128] ++ replicate 14 0).
Proof. reflexivity. Qed.
Example parse_v6_bad : ParseAddr "1::2::3" = None /\ ParseAddr "1:2:3" = None /\ ParseAddr "1:2:3:4:5:6:7:8::" = None.
Proof. by repeat split. Qed.
Example print_v6 : IP_String [253; 0; 0; 0; 0; 0; 0; 0; 0; 0; 0; 0; 0; 1; 0; 2] = "fd00::1:2".
Proof. reflexivity. Qed.
Example print_v6_runs : IP_String [0; 1; 0; 0; 0; 0; 0; 1; 0; 0; 0; 0; 0; 0; 171; 205] = "1:0:0:1::abcd".
Proof. reflexivity. Qed.
Example print_net : (IPNet_String ∘ snd) <$> ParseCIDR "10.9.8.7/13" = Some "10.8.0.0/13".
Proof. reflexivity. Qed.

(** ** Membership is agreement on the prefix *)

Definition bytes_ok (l : list Z) : Prop := Forall (fun b => 0 <= b < 256) l.

(** An address as a number, most significant byte first. *)
Fixpoint number (l : list Z) : Z :=
  match l with
  | [] => 0
  | b :: l' => b * 2 ^ (8 * zlen l') + number l'
  end.

Lemma number_range l : bytes_ok l -> 0 <= number l < 2 ^ (8 * zlen l).
Proof.
  induction 1 as [|b l Hb Hl IH]; [by vm_compute|]. rewrite zlen_cons. pose proof (zlen_nonneg l). cbn [number].
  replace (8 * (zlen l + 1)) with (8 + 8 * zlen l) by lia. rewrite Z.pow_add_r by lia.
  change (2 ^ 8) with 256. nia.
Qed.

Lemma mask_byte b k : 0 <= b < 256 -> 0 <= k < 8 -> Z.land b (256 - 2 ^ (8 - k)) = b / 2 ^ (8 - k) * 2 ^ (8 - k).
Proof.
  intros Hb Hk.
  assert (Hall : forallb (fun k => forallb (fun b => Z.land b (256 - 2 ^ (8 - k)) =? b / 2 ^ (8 - k) * 2 ^ (8 - k))
     (seqZ 0 256)) (seqZ 0 8) = true) by (vm_compute; reflexivity).
  rewrite forallb_forall in Hall. specialize (Hall k). rewrite <- list_elem_of_In in Hall.
  specialize (Hall ltac:(apply elem_of_seqZ; lia)). rewrite forallb_forall in Hall. specialize (Hall b).
  rewrite <- list_elem_of_In in Hall. apply Z.eqb_eq, Hall, elem_of_seqZ. lia.
Qed.

Lemma mask_none l : and_bytes l (CIDRMask 0 (length l)) = replicate (length l) 0.
Proof.
  induction l as [|b l IH]; [done|]. cbn [length CIDRMask Z.leb Z.compare and_bytes zip_with replicate].
  rewrite Z.land_0_r. f_equal. exact IH.
Qed.

Lemma masked_equal a b n :
  bytes_ok a -> bytes_ok b -> length a = length b -> 0 <= n <= 8 * zlen a ->
  and_bytes a (CIDRMask n (length a)) = and_bytes b (CIDRMask n (length a)) <->
  number a / 2 ^ (8 * zlen a - n) = number b / 2 ^ (8 * zlen a - n).
Proof.
  intros Ha. revert b n. induction Ha as [|x a Hx Ha IH]; intros b n Hb Hlen Hn.
  - destruct b; [done|done].
  - destruct Hb as [|y b Hy Hb]; [done|]. injection Hlen as Hlen. rewrite zlen_cons in *.
    pose proof (zlen_nonneg a). pose proof (number_range a Ha) as Ra. pose proof (number_range b Hb) as Rb.
    assert (Hz : zlen b = zlen a) by (unfold zlen; lia).
    cbn [length CIDRMask number]. rewrite Hz in *. destruct (8 <=? n) eqn:E; [apply Z.leb_le in E|apply Z.leb_gt in E];
      cbn [and_bytes zip_with].
    + assert (Hid : forall z, 0 <= z < 256 -> Z.land z 255 = z).
      { intros z Hz'. change 255 with (Z.ones 8). rewrite Z.land_ones by lia. apply Z.mod_small. lia. }
      rewrite !Hid by lia. specialize (IH b (n - 8) Hb Hlen ltac:(lia)).
      replace (8 * (zlen a + 1) - n) with (8 * zlen a - (n - 8)) by lia. set (d := 8 * zlen a - (n - 8)) in *.
      assert (Hp : 2 ^ (8 * zlen a) = 2 ^ (n - 8) * 2 ^ d) by (rewrite <- Z.pow_add_r by lia; f_equal; lia).
      assert (0 < 2 ^ d) by (apply Z.pow_pos_nonneg; lia).
      rewrite Hp in *. rewrite !Z.mul_assoc, !Z.div_add_l by lia.
      assert (forall r, 0 <= r < 2 ^ (n - 8) * 2 ^ d -> 0 <= r / 2 ^ d < 2 ^ (n - 8)) as Hq.
      { intros r Hr. split; [apply Z.div_pos; lia|]. apply Z.div_lt_upper_bound; [done|]. lia. }
      pose proof (Hq _ Ra). pose proof (Hq _ Rb). unfold and_bytes in IH. split.
      * intros [= -> Heq]. apply IH in Heq. congruence.
      * intros Heq. assert (x = y) as -> by nia. f_equal. apply IH. lia.
    + rewrite !mask_byte by lia.
      assert (Hm : forall l, length l = length a -> zip_with Z.land l (CIDRMask 0 (length a)) = replicate (length a) 0).
      { intros l Hl. rewrite <- Hl. apply mask_none. }
      rewrite !Hm by done. replace (8 * (zlen a + 1) - n) with (8 * zlen a + (8 - n)) by lia.
      rewrite Z.pow_add_r by lia. assert (0 < 2 ^ (8 * zlen a)) by (apply Z.pow_pos_nonneg; lia).
      assert (0 < 2 ^ (8 - n)) by (apply Z.pow_pos_nonneg; lia).
      rewrite <- !Z.div_div, !Z.div_add_l by lia. rewrite !(Z.div_small (number _)) by lia. rewrite !Z.add_0_r.
      split; [intros [= Heq]; nia|intros ->; done].
Qed.

Lemma CIDRMask_length n len : length (CIDRMask n len) = len.
Proof. revert n. induction len as [|len IH]; intros n; cbn [CIDRMask]; [done|]. destruct (8 <=? n); simpl; by rewrite IH. Qed.

Lemma chr_digit a : is_digit a = true -> 0 <= chr a - 48 <= 9.
Proof. unfold is_digit. rewrite andb_true_iff, !Z.leb_le. lia. Qed.

Lemma ipv4_loop_ok s fields val digLen last ip :
  ipv4_loop s fields val digLen last = Some ip -> bytes_ok fields -> 0 <= val < 256 -> (length fields <= 3)%nat ->
  length ip = 4%nat /\ bytes_ok ip.
Proof.
  revert fields val digLen last. induction s as [|a s IH]; intros fields val digLen last; cbn [ipv4_loop].
  - destruct (length fields <? 3)%nat eqn:E; [done|]. apply Nat.ltb_ge in E. intros [= <-] Hf Hv Hl.
    rewrite length_app. simpl. split; [lia|]. apply Forall_app. split; [done|]. by constructor.
  - destruct (is_digit a) eqn:Ed.
    + apply chr_digit in Ed. destruct (_ && _); [done|]. destruct (255 <? val * 10 + (chr a - 48)) eqn:Ev; [done|].
      apply Z.ltb_ge in Ev. intros Hl Hf Hv Hlen. eapply IH; [exact Hl|done|lia|done].
    + destruct (decide (a = dot)); [|done]. destruct (_ || _); [done|].
      destruct (length fields =? 3)%nat eqn:E; [done|]. apply Nat.eqb_neq in E. intros Hl Hf Hv Hlen.
      eapply IH; [exact Hl| |lia|rewrite length_app; simpl; lia]. apply Forall_app. split; [done|]. by constructor.
Qed.

Lemma dtoi_nonneg s n : dtoi s = Some n -> 0 <= n.
Proof.
  unfold dtoi. destruct (decide (s = "")); [done|]. assert (H : forall k, 0 <= k -> dtoi_loop s k = Some n -> 0 <= n); [|by apply H].
  clear. induction s as [|a s IH]; intros k Hk; cbn [dtoi_loop]; [by intros [= <-]|].
  destruct (is_digit a) eqn:Ed; [|done]. apply chr_digit in Ed. destruct (_ <=? _); [done|]. apply IH. lia.
Qed.

(** An IPv4 network has the addresses that agree with its own on the prefix. *)
Lemma Contains_v4 s addr mask a n ip net x :
  cut slash_char s = Some (addr, mask) -> parseIPv4 addr = Some a -> ParseAddr addr = Some a -> dtoi mask = Some n ->
  ParseCIDR s = Some (ip, net) -> To4 x <> [] -> bytes_ok x ->
  n <= 32 /\ (Contains net x = true <-> number (To4 x) / 2 ^ (32 - n) = number a / 2 ^ (32 - n)).
Proof.
  intros Hc H4 Ha Hn Hp Hx Hb. apply dtoi_nonneg in Hn as Hn0.
  destruct (ipv4_loop_ok _ _ _ _ _ _ H4) as [Hlen Hok]; [constructor|lia|simpl; lia|].
  unfold ParseCIDR in Hp. rewrite Hc, Ha, Hn, Hlen in Hp. change (Z.of_nat 4 * 8) with 32 in Hp.
  destruct (32 <? n) eqn:E; [done|]. apply Z.ltb_ge in E. split; [done|].
  assert (net = mkIPNet (Mask (As16 a) (CIDRMask n 4)) (CIDRMask n 4)) as -> by congruence. clear Hp.
  assert (Hx4 : length (To4 x) = 4%nat /\ bytes_ok (To4 x)).
  { unfold To4 in *. destruct (length x =? 4)%nat eqn:E4; [by apply Nat.eqb_eq in E4|].
    destruct ((length x =? 16)%nat && _) eqn:E16; [|done]. apply andb_true_iff in E16 as [E16 _].
    apply Nat.eqb_eq in E16. rewrite length_drop. split; [lia|]. by apply Forall_drop. }
  assert (Hmask : length (CIDRMask n 4) = 4%nat) by apply CIDRMask_length.
  assert (Has : As16 a = v4InV6Prefix ++ a) by (unfold As16; by rewrite Hlen).
  assert (Hm : Mask (As16 a) (CIDRMask n 4) = and_bytes a (CIDRMask n 4)).
  { unfold Mask. rewrite Has, Hmask. cbn [Nat.eqb andb]. rewrite length_app, Hlen. cbn [length v4InV6Prefix Nat.eqb Nat.add andb].
    rewrite (take_app_length' v4InV6Prefix a 12) by done. rewrite bool_decide_eq_true_2 by done.
    rewrite Hmask. cbn [Nat.eqb andb]. rewrite (drop_app_length' v4InV6Prefix a 12), Hlen by done. done. }
  assert (Hml : length (and_bytes a (CIDRMask n 4)) = 4%nat) by (unfold and_bytes; rewrite length_zip_with, Hlen, Hmask; done).
  unfold Contains, networkNumberAndMask. cbn [in_IP in_Mask]. rewrite Hm.
  assert (HT : To4 (and_bytes a (CIDRMask n 4)) = and_bytes a (CIDRMask n 4)) by (unfold To4; by rewrite Hml).
  rewrite HT, (decide_False (P := To4 x = [])) by done. rewrite (decide_False (P := and_bytes _ _ = [])) by (intros E'; by rewrite E' in Hml).
  rewrite Hml, Hmask. cbn [Nat.eqb orb negb]. destruct Hx4 as [Hx4 Hxb]. rewrite Hx4. cbn [Nat.eqb andb].
  rewrite Hml. cbn [Nat.eqb andb].
  assert (Hidem : forall l m, and_bytes (and_bytes l m) m = and_bytes l m).
  { intros l. induction l as [|y l IHl]; intros [|z m]; cbn [and_bytes zip_with]; [done..|].
    rewrite <- Z.land_assoc, Z.land_diag. f_equal. apply IHl. }
  rewrite Hidem, bool_decide_eq_true. pose proof (masked_equal (To4 x) a n Hxb Hok ltac:(lia)) as Hmeq.
  rewrite Hx4 in Hmeq. replace (zlen (To4 x)) with 4 in Hmeq by (unfold zlen; lia). change (8 * 4) with 32 in Hmeq.
  rewrite <- Hmeq by lia. split; congruence.
Qed.
