(* ===== verification/GoText.v ===== *)
(** * More of the Go standard library: encodings, searches and paths

    hex and base32 of package encoding, the searches, splits and slices of package
    strings, decimal numbers of strconv and fmt, and [path.Clean] on rooted paths. *)

From stdpp Require Import base strings list numbers.
From Stdlib Require Import Strings.Byte Strings.Ascii Lia.
From S2P Require Import Prelude GoStd.

Local Open Scope Z_scope.

(** ** Slices of strings *)

Fixpoint str_take (n : nat) (s : string) : string :=
  match n, s with
  | S n, String a s => String a (str_take n s)
  | _, _ => ""
  end.

Fixpoint str_from (n : nat) (s : string) : string :=
  match n, s with
  | S n, String a s => str_from n s
  | _, _ => s
  end.

Lemma str_take_app n a b : String.length a = n -> str_take n (a +:+ b) = a.
Proof. intros <-. induction a as [|x a IH]; simpl; [by destruct b|]. f_equal. apply IH. Qed.

Lemma str_from_app n a b : String.length a = n -> str_from n (a +:+ b) = b.
Proof. intros <-. induction a as [|x a IH]; simpl; [done|]. apply IH. Qed.

Lemma str_length_app (a b : string) : String.length (a +:+ b) = (String.length a + String.length b)%nat.
Proof. induction a as [|x a IH]; simpl; [done|]. f_equal. apply IH. Qed.

Lemma str_take_drop n s : str_take n s +:+ str_from n s = s.
Proof. revert s. induction n as [|n IH]; intros [|a s]; try done. exact (f_equal (String a) (IH s)). Qed.

Lemma str_take_length n s : (n <= String.length s)%nat -> String.length (str_take n s) = n.
Proof. revert s. induction n as [|n IH]; intros [|a s] Hn; simpl in *; try lia. f_equal. apply IH. lia. Qed.

Lemma str_take_all n s : (String.length s <= n)%nat -> str_take n s = s.
Proof. revert s. induction n as [|n IH]; intros [|a s] Hn; simpl in *; try done; try lia. f_equal. apply IH. lia. Qed.

Fixpoint str_In (c : ascii) (s : string) : Prop :=
  match s with
  | EmptyString => False
  | String a rest => a = c \/ str_In c rest
  end.

Lemma str_In_app c a b : str_In c (a +:+ b) <-> str_In c a \/ str_In c b.
Proof. induction a as [|x a IH]; simpl; [tauto|]. tauto. Qed.

(** ** strings.Index, strings.LastIndex and strings.Split with one-byte separators *)

Fixpoint Index_byte (s : string) (c : ascii) : option nat :=
  match s with
  | EmptyString => None
  | String a rest => if decide (a = c) then Some 0%nat else S <$> Index_byte rest c
  end.

Fixpoint LastIndex (s sub : string) : option nat :=
  match s with
  | EmptyString => if HasPrefix "" sub then Some 0%nat else None
  | String _ rest =>
      match LastIndex rest sub with
      | Some n => Some (S n)
      | None => if HasPrefix s sub then Some 0%nat else None
      end
  end.

Fixpoint Split (s : string) (c : ascii) : list string :=
  match s with
  | EmptyString => [""]
  | String a rest =>
      if decide (a = c) then "" :: Split rest c
      else match Split rest c with
           | [] => [String a ""]
           | part :: parts => String a part :: parts
           end
  end.

Fixpoint Join (parts : list string) (sep : string) : string :=
  match parts with
  | [] => ""
  | [part] => part
  | part :: rest => part +:+ sep +:+ Join rest sep
  end.

Lemma Split_not_nil s c : Split s c <> [].
Proof. destruct s as [|a s]; simpl; [done|]. case_decide; [done|]. by destruct (Split s c). Qed.

(** A part without the separator is kept whole. *)
Lemma Split_no_sep s c : ~ str_In c s -> Split s c = [s].
Proof.
  induction s as [|a s IH]; simpl; [done|]. intros Hn. rewrite decide_False by tauto. rewrite IH by tauto. done.
Qed.

Lemma Split_app s c t : ~ str_In c s -> Split (s +:+ String c t) c = s :: Split t c.
Proof.
  induction s as [|a s IH]; simpl; intros Hn; [by rewrite decide_True|].
  rewrite decide_False by tauto. by rewrite IH by tauto.
Qed.

Lemma Join_cons p q parts sep : Join (p :: q :: parts) sep = p +:+ (sep +:+ Join (q :: parts) sep).
Proof. done. Qed.

Lemma Split_Join parts c : parts <> [] -> Forall (fun p => ~ str_In c p) parts -> Split (Join parts (String c "")) c = parts.
Proof.
  intros Hne Hf. destruct parts as [|p parts]; [done|]. clear Hne. revert p Hf.
  induction parts as [|q parts IH]; intros p Hf; apply Forall_cons_iff in Hf as [Hp Hf]; [by apply Split_no_sep|].
  rewrite Join_cons. change (String c "" +:+ Join (q :: parts) (String c "")) with (String c (Join (q :: parts) (String c ""))).
  rewrite Split_app by done. f_equal. by apply IH.
Qed.

Lemma Split_parts s c : Forall (fun p => ~ str_In c p) (Split s c).
Proof.
  induction s as [|a s IH]; simpl; [repeat constructor; tauto|]. case_decide as Ha; [constructor; [simpl; tauto|done]|].
  destruct (Split s c) as [|p ps]; [repeat constructor; simpl; tauto|]. apply Forall_cons_iff in IH as [Hp Hps].
  constructor; [simpl; tauto|done].
Qed.

(** ** encoding/hex *)

Definition hex_digit (n : nat) : ascii := if (n <? 10)%nat then ascii_of_nat (48 + n) else ascii_of_nat (87 + n).

Fixpoint hex_EncodeToString (b : list byte) : string :=
  match b with
  | [] => ""
  | x :: rest =>
      let n := N.to_nat (Byte.to_N x) in
      String (hex_digit (n / 16)) (String (hex_digit (n mod 16)) (hex_EncodeToString rest))
  end.

Lemma hex_length b : String.length (hex_EncodeToString b) = (2 * length b)%nat.
Proof. induction b as [|x b IH]; cbn [hex_EncodeToString String.length length]; [done|]. rewrite IH. lia. Qed.

(** ** encoding/base32, without padding *)

(** Five bits, the highest first, to a character and back. *)
Definition b32_char (a b c d e : bool) : ascii :=
  let n := (16 * Nat.b2n a + 8 * Nat.b2n b + 4 * Nat.b2n c + 2 * Nat.b2n d + Nat.b2n e)%nat in
  if (n <? 26)%nat then ascii_of_nat (65 + n) else ascii_of_nat (24 + n).

Definition b32_bits (x : ascii) : option (list bool) :=
  let n := nat_of_ascii x in
  let bits v := Some [Nat.testbit v 4; Nat.testbit v 3; Nat.testbit v 2; Nat.testbit v 1; Nat.testbit v 0] in
  if ((65 <=? n) && (n <=? 90))%nat then bits (n - 65)%nat
  else if ((50 <=? n) && (n <=? 55))%nat then bits (n - 24)%nat
  else None.

Fixpoint str_bits (s : string) : list bool :=
  match s with
  | EmptyString => []
  | String (Ascii b0 b1 b2 b3 b4 b5 b6 b7) rest => b7 :: b6 :: b5 :: b4 :: b3 :: b2 :: b1 :: b0 :: str_bits rest
  end.

Fixpoint enc_bits (l : list bool) : string :=
  match l with
  | a :: b :: c :: d :: e :: rest => String (b32_char a b c d e) (enc_bits rest)
  | [a; b; c; d] => String (b32_char a b c d false) ""
  | [a; b; c] => String (b32_char a b c false false) ""
  | [a; b] => String (b32_char a b false false false) ""
  | [a] => String (b32_char a false false false false) ""
  | [] => ""
  end.

Definition b32_EncodeToString (s : string) : string := enc_bits (str_bits s).

Fixpoint dec_bits (s : string) : option (list bool) :=
  match s with
  | EmptyString => Some []
  | String a rest =>
      match b32_bits a, dec_bits rest with
      | Some bits, Some more => Some (bits ++ more)
      | _, _ => None
      end
  end.

Fixpoint bits_str (l : list bool) : string :=
  match l with
  | b7 :: b6 :: b5 :: b4 :: b3 :: b2 :: b1 :: b0 :: rest => String (Ascii b0 b1 b2 b3 b4 b5 b6 b7) (bits_str rest)
  | _ => ""
  end.

(** Line breaks are skipped; a last group of three or six characters gives no bytes. *)
Fixpoint strip_newlines (s : string) : string :=
  match s with
  | EmptyString => ""
  | String a rest =>
      if ((nat_of_ascii a =? 10) || (nat_of_ascii a =? 13))%nat then strip_newlines rest else String a (strip_newlines rest)
  end.

Definition b32_DecodeString (s : string) : option string :=
  let s := strip_newlines s in
  let d := (String.length s mod 8)%nat in
  match dec_bits s with
  | None => None
  | Some bits =>
      if ((d =? 3) || (d =? 6))%nat then Some (bits_str (take (5 * (String.length s - d)) bits)) else Some (bits_str bits)
  end.

Lemma b32_char_bits a b c d e : b32_bits (b32_char a b c d e) = Some [a; b; c; d; e].
Proof. by destruct a, b, c, d, e. Qed.

Lemma bits_str_bits s pad : (length pad < 8)%nat -> bits_str (str_bits s ++ pad) = s.
Proof.
  intros Hp. induction s as [|[] s IH]; simpl.
  - do 8 (destruct pad as [|? pad]; [done|]). simpl in Hp. lia.
  - f_equal. exact IH.
Qed.

(** The bits come back, after them at most four that are zero. *)
Lemma dec_enc_bits n l : (length l <= n)%nat ->
  exists pad, dec_bits (enc_bits l) = Some (l ++ pad) /\ (length pad < 5)%nat.
Proof.
  revert l. induction n as [|n IH]; intros l Hn.
  - destruct l; [|simpl in Hn; lia]. exists []. simpl. split; [done|lia].
  - destruct l as [|a [|b [|c [|d [|e l]]]]].
    + exists []. simpl. split; [done|lia].
    + exists [false; false; false; false]. cbn [enc_bits dec_bits]. rewrite b32_char_bits. split; [done|simpl; lia].
    + exists [false; false; false]. cbn [enc_bits dec_bits]. rewrite b32_char_bits. split; [done|simpl; lia].
    + exists [false; false]. cbn [enc_bits dec_bits]. rewrite b32_char_bits. split; [done|simpl; lia].
    + exists [false]. cbn [enc_bits dec_bits]. rewrite b32_char_bits. split; [done|simpl; lia].
    + destruct (IH l) as (pad & Hd & Hp); [simpl in Hn; lia|]. exists pad. cbn [enc_bits dec_bits].
      rewrite b32_char_bits, Hd. split; [done|lia].
Qed.

Lemma enc_bits_length n l : (length l <= n)%nat -> String.length (enc_bits l) = ((length l + 4) / 5)%nat.
Proof.
  revert l. induction n as [|n IH]; intros l Hn; [destruct l; [done|simpl in Hn; lia]|].
  destruct l as [|a [|b [|c [|d [|e l]]]]]; try done. cbn [enc_bits String.length length].
  rewrite IH by (simpl in Hn; lia). replace (S (S (S (S (S (length l))))) + 4)%nat with (1 * 5 + (length l + 4))%nat by lia.
  rewrite Nat.div_add_l by lia. lia.
Qed.

Lemma str_bits_length s : length (str_bits s) = (8 * String.length s)%nat.
Proof. induction s as [|[] s IH]; simpl; [done|]. rewrite IH. lia. Qed.

Lemma b32_char_not_newline a b c d e : ((nat_of_ascii (b32_char a b c d e) =? 10) || (nat_of_ascii (b32_char a b c d e) =? 13))%nat = false.
Proof. by destruct a, b, c, d, e. Qed.

Fixpoint b32_text (s : string) : Prop :=
  match s with
  | EmptyString => True
  | String x rest => (exists a b c d e, x = b32_char a b c d e) /\ b32_text rest
  end.

Lemma enc_bits_text n l : (length l <= n)%nat -> b32_text (enc_bits l).
Proof.
  revert l. induction n as [|n IH]; intros l Hn; [destruct l; [done|simpl in Hn; lia]|].
  destruct l as [|a [|b [|c [|d [|e l]]]]]; cbn [enc_bits b32_text]; try (split; [by do 5 eexists|done]); [done|].
  split; [by do 5 eexists|]. apply IH. simpl in Hn. lia.
Qed.

Lemma strip_newlines_text s : b32_text s -> strip_newlines s = s.
Proof.
  induction s as [|x s IH]; cbn [strip_newlines b32_text]; [done|]. intros ((a & b & c & d & e & ->) & Hs).
  rewrite b32_char_not_newline. by rewrite IH.
Qed.

(** Decoding undoes encoding, on every string. *)
Lemma b32_roundtrip s : b32_DecodeString (b32_EncodeToString s) = Some s.
Proof.
  unfold b32_DecodeString, b32_EncodeToString. rewrite strip_newlines_text by (by eapply enc_bits_text).
  destruct (dec_enc_bits _ (str_bits s) (le_n _)) as (pad & -> & Hp).
  rewrite (enc_bits_length _ _ (le_n _)), str_bits_length.
  replace (_ || _)%nat with false; [rewrite bits_str_bits by lia; done|].
  set (m := String.length s). pose proof (Nat.div_mod_eq m 5) as Hm. pose proof (Nat.mod_upper_bound m 5 ltac:(lia)) as Hr.
  set (q := (m / 5)%nat) in *. set (r := (m mod 5)%nat) in *. clearbody m q r.
  replace ((8 * m + 4) / 5)%nat with (q * 8 + (8 * r + 4) / 5)%nat by
    (rewrite Hm; replace (8 * (5 * q + r) + 4)%nat with (q * 8 * 5 + (8 * r + 4))%nat by lia; by rewrite Nat.div_add_l by lia).
  rewrite Nat.add_comm, Nat.Div0.mod_add. do 5 (destruct r as [|r]; [done|]). lia.
Qed.

Lemma b32_length s : String.length (b32_EncodeToString s) = ((8 * String.length s + 4) / 5)%nat.
Proof. unfold b32_EncodeToString. by rewrite (enc_bits_length _ _ (le_n _)), str_bits_length. Qed.

(** ** path.Clean on a rooted path *)

Definition clean_part (stack : list string) (part : string) : list string :=
  if bool_decide (part = "") || bool_decide (part = ".") then stack
  else if bool_decide (part = "..") then tail stack
  else part :: stack.

Definition clean_parts (parts : list string) : list string := rev (fold_left clean_part parts []).

(** [path.Clean("/" + s)] *)
Definition Clean_rooted (s : string) : string := String "/" (Join (clean_parts (Split s "/")) "/").

(** A part that may stand in a cleaned path. *)
Definition proper_part (p : string) : Prop := p <> "" /\ p <> "." /\ p <> ".." /\ ~ str_In "/" p.

Lemma clean_part_proper stack p : ~ str_In "/" p -> Forall proper_part stack -> Forall proper_part (clean_part stack p).
Proof.
  intros Hp Hs. unfold clean_part. repeat case_bool_decide; simpl; try done.
  - destruct Hs; simpl; [constructor|done].
  - constructor; [|done]. done.
Qed.

Lemma clean_parts_proper s : Forall proper_part (clean_parts (Split s "/")).
Proof.
  unfold clean_parts. apply Forall_rev. assert (Hp := Split_parts s "/"). revert Hp.
  assert (H0 : Forall proper_part []) by constructor. revert H0. generalize (@nil string) as stack.
  induction (Split s "/") as [|p ps IH]; intros stack H0 Hp; simpl; [done|]. apply Forall_cons_iff in Hp as [Hp Hps].
  apply IH; [|done]. by apply clean_part_proper.
Qed.

Lemma fold_clean_proper parts stack : Forall proper_part parts -> fold_left clean_part parts stack = rev parts ++ stack.
Proof.
  revert stack. induction parts as [|p parts IH]; intros stack Hp; simpl; [done|].
  apply Forall_cons_iff in Hp as [(H1 & H2 & H3 & _) Hps]. unfold clean_part at 2.
  rewrite !bool_decide_eq_false_2 by done. simpl. rewrite IH by done. by rewrite <- app_assoc.
Qed.

Lemma clean_parts_id parts : Forall proper_part parts -> clean_parts parts = parts.
Proof. intros Hp. unfold clean_parts. rewrite fold_clean_proper by done. by rewrite app_nil_r, List.rev_involutive. Qed.

(** The parts of a cleaned path are the parts it was cleaned to. *)
Lemma Split_clean s : clean_parts (Split (Join (clean_parts (Split s "/")) "/") "/") = clean_parts (Split s "/").
Proof.
  pose proof (clean_parts_proper s) as Hp. destruct (clean_parts (Split s "/")) as [|p ps] eqn:E; [done|].
  rewrite Split_Join; [by apply clean_parts_id|done|]. eapply Forall_impl; [|exact Hp]. by intros x (_ & _ & _ & Hx).
Qed.
