(* ===== verification/InternalAuth.v ===== *)
(** * Tokens between services (pkg/internalauth, storage-proxy/pkg/auth)

    A service that calls another signs a token for it with its team, user and
    permissions ([Generator]); the other one validates it ([Validator]) and puts the
    claims into the context of the request.  The JWT library and Ed25519 are parameters
    ([Jwt]); [JwtLaws] is what their documentation says and the code relies on.  Clocks,
    random ids and the headers of a request are arguments. *)

From stdpp Require Import base gmap strings list fin_maps numbers.
From Stdlib Require Import Strings.Byte Strings.Ascii.
From S2P Require Import Prelude GoStd GoText.

Local Open Scope Z_scope.

Definition sec : Z := 1000000000.

(** ** claims.go *)

Inductive auth_error :=
| ErrInvalidToken (detail : string)
| ErrTokenExpired
| ErrInvalidSignature (detail : string)
| ErrInvalidCaller (detail : string)
| ErrInvalidTarget (expected got : string)
| ErrReplayAttack
| ErrText (text : string).

(** A nil date is [None]. *)
Record Claims := mkTokenClaims {
  tc_Issuer : string;
  tc_Subject : string;
  tc_Audience : string;
  tc_IssuedAt : option Z;
  tc_ExpiresAt : option Z;
  tc_ID : string;
  tc_Caller : string;
  tc_Target : string;
  tc_TeamID : string;
  tc_UserID : string;
  tc_SandboxID : string;
  tc_Permissions : list string;
  tc_IsSystem : bool
}.

Definition IsSystemToken (c : Claims) : bool := tc_IsSystem c.

(** [generateJTI]: the hex text of the random bytes, or of the time when there are none. *)
Definition generateJTI (random : option (list byte)) (unixNano : string) : string :=
  match random with
  | Some b => hex_EncodeToString b
  | None => unixNano
  end.

(** ** The JWT library *)

Inductive jwt_error := JwtExpired | JwtSignature (text : string) | JwtOther (text : string).

(** [PrivateKey] and [PublicKey] are keys of Ed25519.  [ParseWithClaims] is given the
    function from the signing method of the token to the key, and the library's clock. *)
Class Jwt := {
  PrivateKey : Type;
  PublicKey : Type;
  public_key : PrivateKey -> PublicKey;
  NewNumericDate : Z -> Z;
  SignedString : string -> PrivateKey -> Claims -> string + string;
  ParseWithClaims : (string -> option PublicKey) -> Z -> string -> jwt_error + Claims
}.

Definition SigningMethodEdDSA : string := "EdDSA".

(** ** options.go, token.go: the generator *)

Record GeneratorConfig `{Jwt} := mkGeneratorConfig {
  gc_Caller : string;
  gc_PrivateKey : option PrivateKey;
  gc_TTL : Z
}.
Arguments mkGeneratorConfig {_}.

Record GenerateOptions := mkGenerateOptions {
  go_Permissions : list string;
  go_SandboxID : string;
  go_TTL : Z
}.

Record Generator `{Jwt} := mkGenerator {
  ge_Caller : string;
  ge_PrivateKey : PrivateKey;
  ge_TTL : Z
}.
Arguments mkGenerator {_}.

Definition NewGenerator `{Jwt} (config : GeneratorConfig) : res auth_error Generator :=
  if decide (gc_Caller config = "") then Panic else
  match gc_PrivateKey config with
  | None => Panic
  | Some key => Ok (mkGenerator (gc_Caller config) key (if gc_TTL config =? 0 then 30 * sec else gc_TTL config))
  end.

Definition sign `{Jwt} (g : Generator) (c : Claims) : res auth_error string :=
  match SignedString SigningMethodEdDSA (ge_PrivateKey g) c with
  | inl e => Err (ErrText ("failed to sign token: " +:+ e))
  | inr token => Ok token
  end.

Definition Generate `{Jwt} (now : Z) (jti : string) (g : Generator) (target teamID userID : string) (opts : GenerateOptions)
    : res auth_error string :=
  if decide (target = "") then Err (ErrText "internalauth: target cannot be empty") else
  if decide (teamID = "") then Err (ErrText "internalauth: teamID cannot be empty") else
  let ttl := if 0 <? go_TTL opts then go_TTL opts else ge_TTL g in
  sign g (mkTokenClaims (ge_Caller g) teamID target (Some (NewNumericDate now)) (Some (NewNumericDate (now + ttl))) jti
            (ge_Caller g) target teamID userID (go_SandboxID opts) (go_Permissions opts) false).

Definition GenerateSystem `{Jwt} (now : Z) (jti : string) (g : Generator) (target : string) (opts : GenerateOptions)
    : res auth_error string :=
  if decide (target = "") then Err (ErrText "internalauth: target cannot be empty") else
  let ttl := if 0 <? go_TTL opts then go_TTL opts else ge_TTL g in
  sign g (mkTokenClaims (ge_Caller g) "system" target (Some (NewNumericDate now)) (Some (NewNumericDate (now + ttl))) jti
            (ge_Caller g) target "" "" "" (go_Permissions opts) true).

Definition MustGenerate `{Jwt} (now : Z) (jti : string) (g : Generator) (target teamID userID : string) (opts : GenerateOptions)
    : res auth_error string :=
  match Generate now jti g target teamID userID opts with Err _ => Panic | r => r end.

(** ** token.go: the validator *)

Record ValidatorConfig `{Jwt} := mkValidatorConfig {
  vc_Target : string;
  vc_PublicKey : option PublicKey;
  vc_AllowedCallers : list string;
  vc_ClockSkewTolerance : Z;
  vc_ReplayDetectionEnabled : bool
}.
Arguments mkValidatorConfig {_}.

Record ValidateOptions := mkValidateOptions {
  vo_RequireTeamID : bool;
  vo_RequirePermissions : list string;
  vo_SkipTargetCheck : bool;
  vo_SkipCallerCheck : bool
}.

(** [jtiCache]: the ids that were used, with the expiry of their tokens. *)
Record Validator `{Jwt} := mkValidator {
  va_config : ValidatorConfig;
  va_PublicKey : PublicKey;
  va_jtiCache : gmap string Z
}.
Arguments mkValidator {_}.

Definition NewValidator `{Jwt} (config : ValidatorConfig) : res auth_error Validator :=
  if decide (vc_Target config = "") then Panic else
  match vc_PublicKey config with
  | None => Panic
  | Some key => Ok (mkValidator config key ∅)
  end.

Definition hasPermissions (have require : list string) : bool :=
  forallb (fun req => bool_decide (req ∈ have) || bool_decide ("*" ∈ have)) require.

Definition isReplay `{Jwt} (jti : string) (v : Validator) : bool := bool_decide (is_Some (va_jtiCache v !! jti)).

(** With it, whether a cleanup is started. *)
Definition recordJTI `{Jwt} (jti : string) (expiresAt : Z) (v : Validator) : bool * Validator :=
  let cache := <[jti := expiresAt]> (va_jtiCache v) in
  ((Z.of_nat (size cache) mod 100 =? 0), mkValidator (va_config v) (va_PublicKey v) cache).

Definition cleanupExpiredJTI `{Jwt} (now : Z) (v : Validator) : Validator :=
  mkValidator (va_config v) (va_PublicKey v)
    (filter (fun e => negb (e.2 + 5 * 60 * sec <? now)) (va_jtiCache v)).

(** [ValidateWithOptions] up to the check for replays: the claims and when they expire.
    [libNow] is the clock of the library, [now] that of the validator. *)
Definition validate_checks `{Jwt} (libNow now : Z) (v : Validator) (tokenString : string) (opts : ValidateOptions)
    : res auth_error (Claims * Z) :=
  let keyfunc method := if decide (method = SigningMethodEdDSA) then Some (va_PublicKey v) else None in
  match ParseWithClaims keyfunc libNow tokenString with
  | inl JwtExpired => Err ErrTokenExpired
  | inl (JwtSignature e) => Err (ErrInvalidSignature e)
  | inl (JwtOther e) => Err (ErrInvalidToken e)
  | inr claims =>
      match tc_ExpiresAt claims with
      | None => Panic
      | Some expiresAt =>
          if expiresAt + vc_ClockSkewTolerance (va_config v) <? now then Err ErrTokenExpired else
          if negb (vo_SkipTargetCheck opts) && negb (bool_decide (tc_Audience claims = vc_Target (va_config v)))
          then Err (ErrInvalidTarget (vc_Target (va_config v)) (tc_Audience claims)) else
          if negb (vo_SkipCallerCheck opts) && negb (bool_decide (tc_Caller claims = tc_Issuer claims))
          then Err (ErrInvalidCaller "caller mismatch") else
          if negb (vo_SkipCallerCheck opts) && (0 <? zlen (vc_AllowedCallers (va_config v))) &&
             negb (existsb (fun c => bool_decide (c = tc_Caller claims)) (vc_AllowedCallers (va_config v)))
          then Err (ErrInvalidCaller ("caller " +:+ tc_Caller claims +:+ " not in allowed list")) else
          if vo_RequireTeamID opts && bool_decide (tc_TeamID claims = "") && negb (tc_IsSystem claims)
          then Err (ErrText "internalauth: team_id is required") else
          if (0 <? zlen (vo_RequirePermissions opts)) && negb (hasPermissions (tc_Permissions claims) (vo_RequirePermissions opts))
          then Err (ErrText "internalauth: missing required permissions") else
          Ok (claims, expiresAt)
      end
  end.

(** [v.mu] is only held for reading, so calls run side by side: the check for a replay and
    the record of the id are critical sections of their own. *)
Definition ValidateWithOptions `{Jwt} (libNow now : Z) (tokenString : string) (opts : ValidateOptions)
    : ST auth_error Validator Claims := fun v =>
  match validate_checks libNow now v tokenString opts with
  | Panic => (Panic, v)
  | Err e => (Err e, v)
  | Ok (claims, expiresAt) =>
      if negb (vc_ReplayDetectionEnabled (va_config v)) then (Ok claims, v) else
      if isReplay (tc_ID claims) v then (Err ErrReplayAttack, v) else
      (Ok claims, (recordJTI (tc_ID claims) expiresAt v).2)
  end.

Definition no_options : ValidateOptions := mkValidateOptions false [] false false.

Definition Validate `{Jwt} (libNow now : Z) (tokenString : string) : ST auth_error Validator Claims :=
  ValidateWithOptions libNow now tokenString no_options.

(** ** context.go *)

Definition GetTeamID (ctx : option Claims) : string := match ctx with Some c => tc_TeamID c | None => "" end.
Definition GetUserID (ctx : option Claims) : string := match ctx with Some c => tc_UserID c | None => "" end.
Definition GetCaller (ctx : option Claims) : string := match ctx with Some c => tc_Caller c | None => "" end.
Definition GetPermissions (ctx : option Claims) : list string := match ctx with Some c => tc_Permissions c | None => [] end.

Definition HasPermission (ctx : option Claims) (permission : string) : bool :=
  match ctx with
  | Some c => existsb (fun p => bool_decide (p = permission) || bool_decide (p = "*")) (tc_Permissions c)
  | None => false
  end.

Definition HasAnyPermission (ctx : option Claims) (permissions : list string) : bool :=
  match ctx with
  | Some c => existsb (fun required =>
      existsb (fun p => bool_decide (p = required) || bool_decide (p = "*")) (tc_Permissions c)) permissions
  | None => false
  end.

Definition HasAllPermissions (ctx : option Claims) (permissions : list string) : bool :=
  hasPermissions (GetPermissions ctx) permissions.

(** ** middleware.go, storage-proxy/pkg/auth/middleware.go *)

(** [r.Header.Get]. *)
Abbreviation headers := (string -> string).

Record HeaderExtractor := mkExtractor { he_HeaderName : string; he_Prefix : string }.

Definition header_ExtractToken (e : HeaderExtractor) (h : headers) : option string :=
  let header := h (he_HeaderName e) in
  if decide (header = "") then None else
  if decide (he_Prefix e = "") then Some (TrimSpace header) else
  if negb (HasPrefix header (he_Prefix e)) then None else
  Some (TrimSpace (TrimPrefix header (he_Prefix e))).

Fixpoint multi_ExtractToken (es : list HeaderExtractor) (h : headers) : option string :=
  match es with
  | [] => None
  | e :: rest =>
      match header_ExtractToken e h with
      | Some token => if decide (token = "") then multi_ExtractToken rest h else Some token
      | None => multi_ExtractToken rest h
      end
  end.

Definition DefaultExtractor : list HeaderExtractor :=
  [mkExtractor "X-Internal-Token" ""; mkExtractor "Authorization" "Bearer "].

(** The next handler runs with these claims in its context, or the request is answered. *)
Inductive auth_outcome := NextHandler (ctx : option Claims) | Rejected (status : Z) (message : string).

Definition AuthMiddleware `{Jwt} (libNow now : Z) (es : list HeaderExtractor) (h : headers) (v : Validator)
    : res auth_error auth_outcome * Validator :=
  match multi_ExtractToken es h with
  | None => (Ok (Rejected 401 "missing or invalid token"), v)
  | Some token =>
      match Validate libNow now token v with
      | (Panic, v) => (Panic, v)
      | (Err _, v) => (Ok (Rejected 401 "unauthorized"), v)
      | (Ok claims, v) => (Ok (NextHandler (Some claims)), v)
      end
  end.

Definition OptionalAuthMiddleware `{Jwt} (libNow now : Z) (es : list HeaderExtractor) (h : headers) (ctx : option Claims)
    (v : Validator) : res auth_error auth_outcome * Validator :=
  match multi_ExtractToken es h with
  | None => (Ok (NextHandler ctx), v)
  | Some token =>
      if decide (token = "") then (Ok (NextHandler ctx), v) else
      match Validate libNow now token v with
      | (Panic, v) => (Panic, v)
      | (Err _, v) => (Ok (NextHandler ctx), v)
      | (Ok claims, v) => (Ok (NextHandler (Some claims)), v)
      end
  end.

Definition RequirePermissions (permissions : list string) (ctx : option Claims) : auth_outcome :=
  match ctx with
  | None => Rejected 401 "no authentication context"
  | Some claims => if hasPermissions (tc_Permissions claims) permissions then NextHandler ctx
                   else Rejected 403 "insufficient permissions"
  end.

Definition RequireTeam (teamID : string) (ctx : option Claims) : auth_outcome :=
  match ctx with
  | None => Rejected 401 "no authentication context"
  | Some claims => if decide (tc_TeamID claims = teamID) then NextHandler ctx else Rejected 403 "team mismatch"
  end.

(** [HTTPAuthenticator.Middleware] of storage-proxy. *)
Definition http_Middleware `{Jwt} (libNow now : Z) (h : headers) (v : Validator) : res auth_error auth_outcome * Validator :=
  let tokenString := if decide (h "X-Internal-Token" = "") then h "x-internal-token" else h "X-Internal-Token" in
  if decide (tokenString = "") then (Ok (Rejected 401 "missing authentication token"), v) else
  match Validate libNow now tokenString v with
  | (Panic, v) => (Panic, v)
  | (Err _, v) => (Ok (Rejected 401 "invalid token"), v)
  | (Ok claims, v) => (Ok (NextHandler (Some claims)), v)
  end.

Definition HealthCheckMiddleware `{Jwt} (libNow now : Z) (path : string) (h : headers) (ctx : option Claims) (v : Validator)
    : res auth_error auth_outcome * Validator :=
  if decide (path ∈ ["/healthz"; "/readyz"; "/metrics"]) then (Ok (NextHandler ctx), v)
  else http_Middleware libNow now h v.
