(* ===== verification/InternalAuthSpec.v ===== *)
(** * Tokens between services: what is shown of them

    A token that is accepted was signed for this service by an allowed caller and has not
    expired; a token that a generator makes is accepted by the service it is for, until it
    expires, with its team and permissions, and by no other; with the detection of replays
    it is accepted once. *)

From stdpp Require Import base gmap strings list fin_maps countable numbers relations.
From Stdlib Require Import Strings.Byte Strings.Ascii Lia.
From S2P Require Import Prelude GoStd InternalAuth.

Local Open Scope Z_scope.

(** ** What the JWT library promises *)

(** Claims that JSON and dates in seconds keep as they are. *)
Definition wire_claims `{Jwt} (c : Claims) : Prop :=
  Forall utf8_ok [tc_Issuer c; tc_Subject c; tc_Audience c; tc_ID c; tc_Caller c; tc_Target c; tc_TeamID c; tc_UserID c; tc_SandboxID c] /\
  Forall utf8_ok (tc_Permissions c) /\
  (forall t, tc_IssuedAt c = Some t -> exists u, t = NewNumericDate u) /\
  (forall t, tc_ExpiresAt c = Some t -> exists u, t = NewNumericDate u).

(** Dates are cut to seconds.  A token parses if it is signed with the private key of the
    key it is checked with, to the claims that were signed, and while it has not expired;
    and what it parses to does not depend on the time. *)
Class JwtLaws `{JW : Jwt} : Prop := {
  date_cut t : t - sec < NewNumericDate t <= t;
  parse_authentic kf now token c : ParseWithClaims kf now token = inr c ->
    exists method key, kf method = Some key /\ forall k, public_key k = key -> SignedString method k c = inr token;
  parse_unexpired kf now token c e : ParseWithClaims kf now token = inr c -> tc_ExpiresAt c = Some e -> now < e;
  parse_stable kf now now' token c c' : ParseWithClaims kf now token = inr c -> ParseWithClaims kf now' token = inr c' -> c = c';
  parse_signed kf now method k c token e : SignedString method k c = inr token -> kf method = Some (public_key k) ->
    wire_claims c -> tc_ExpiresAt c = Some e ->
    ParseWithClaims kf now token = if now <? e then inr c else inl JwtExpired
}.

Section tokens.
Context `{JL : JwtLaws}.

(** What the checks before the replay detection establish. *)
Lemma checks_ok libNow now v token opts c e :
  validate_checks libNow now v token opts = Ok (c, e) ->
  ParseWithClaims (fun method => if decide (method = SigningMethodEdDSA) then Some (va_PublicKey v) else None) libNow token = inr c /\
  tc_ExpiresAt c = Some e /\ libNow < e /\ now <= e + vc_ClockSkewTolerance (va_config v) /\
  (vo_SkipTargetCheck opts = false -> tc_Audience c = vc_Target (va_config v)) /\
  (vo_SkipCallerCheck opts = false -> tc_Caller c = tc_Issuer c /\
     (vc_AllowedCallers (va_config v) = [] \/ tc_Caller c ∈ vc_AllowedCallers (va_config v))) /\
  (vo_RequireTeamID opts = true -> tc_TeamID c <> "" \/ tc_IsSystem c = true) /\
  hasPermissions (tc_Permissions c) (vo_RequirePermissions opts) = true.
Proof.
  unfold validate_checks. destruct (ParseWithClaims _ libNow token) as [[]|c0] eqn:Ep; [done..|].
  destruct (tc_ExpiresAt c0) as [e0|] eqn:Ee; [|done]. pose proof (parse_unexpired _ _ _ _ _ Ep Ee) as Hlive.
  destruct (Z.ltb_spec (e0 + vc_ClockSkewTolerance (va_config v)) now); [done|].
  destruct (negb (vo_SkipTargetCheck opts) && _) eqn:Et; [done|].
  destruct (negb (vo_SkipCallerCheck opts) && negb (bool_decide (tc_Caller c0 = tc_Issuer c0))) eqn:Ec; [done|].
  destruct (negb (vo_SkipCallerCheck opts) && _ && _) eqn:Ea; [done|].
  destruct (vo_RequireTeamID opts && _ && _) eqn:Er; [done|].
  destruct ((0 <? _) && _) eqn:Epm; [done|]. intros [= <- <-]. split_and!; try done.
  - intros Hs. rewrite Hs in Et. simpl in Et. by destruct (bool_decide_reflect (tc_Audience c0 = vc_Target (va_config v))).
  - intros Hs. rewrite Hs in Ec, Ea. simpl in Ec, Ea. split; [by destruct (bool_decide_reflect (tc_Caller c0 = tc_Issuer c0))|].
    destruct (vc_AllowedCallers (va_config v)) as [|x l] eqn:El; [by left|right]. rewrite zlen_cons in Ea.
    assert (0 <? zlen l + 1 = true) as Hl by (apply Z.ltb_lt; pose proof (zlen_nonneg l); lia). rewrite Hl in Ea.
    apply negb_false_iff in Ea. apply existsb_exists in Ea as (y & Hy & Hb). apply bool_decide_eq_true in Hb. subst y.
    by apply list_elem_of_In.
  - intros Hq. rewrite Hq in Er. simpl in Er. destruct (bool_decide_reflect (tc_TeamID c0 = "")); [|by left]. right. by destruct (tc_IsSystem c0).
  - destruct (vo_RequirePermissions opts) as [|p ps]; [done|]. rewrite zlen_cons in Epm.
    assert (0 <? zlen ps + 1 = true) as Hl by (apply Z.ltb_lt; pose proof (zlen_nonneg ps); lia). rewrite Hl in Epm.
    by apply negb_false_iff in Epm.
Qed.

Lemma validate_inv libNow now token opts v c v' :
  ValidateWithOptions libNow now token opts v = (Ok c, v') ->
  exists e, validate_checks libNow now v token opts = Ok (c, e) /\
    va_config v' = va_config v /\ va_PublicKey v' = va_PublicKey v /\
    (vc_ReplayDetectionEnabled (va_config v) = true -> va_jtiCache v !! tc_ID c = None /\ va_jtiCache v' = <[tc_ID c := e]> (va_jtiCache v)) /\
    (vc_ReplayDetectionEnabled (va_config v) = false -> v' = v).
Proof.
  unfold ValidateWithOptions. destruct (validate_checks libNow now v token opts) as [[c0 e]|e|]; [|done..].
  destruct (vc_ReplayDetectionEnabled (va_config v)); simpl; [|intros [= -> <-]; by exists e].
  unfold isReplay. destruct (bool_decide_reflect (is_Some (va_jtiCache v !! tc_ID c0))) as [|Hn]; [done|].
  intros [= -> <-]. exists e. split_and!; try done. intros _. split; [|done]. by apply eq_None_not_Some.
Qed.


(** The claims of a generated token. *)
Definition generated_claims (gnow : Z) (jti : string) (g : Generator) (target teamID userID : string) (opts : GenerateOptions) (e : Z) : Claims :=
  mkTokenClaims (ge_Caller g) teamID target (Some (NewNumericDate gnow)) (Some e) jti (ge_Caller g) target teamID userID
    (go_SandboxID opts) (go_Permissions opts) false.

Lemma generate_inv gnow jti g target teamID userID opts token :
  Generate gnow jti g target teamID userID opts = Ok token ->
  SignedString SigningMethodEdDSA (ge_PrivateKey g) (generated_claims gnow jti g target teamID userID opts
    (NewNumericDate (gnow + (if 0 <? go_TTL opts then go_TTL opts else ge_TTL g)))) = inr token.
Proof.
  unfold Generate. repeat case_decide; try done. unfold sign, generated_claims.
  destruct (SignedString _ _ _) eqn:E; [done|]. intros [= <-]. first [reflexivity|exact E].
Qed.


(** ** Replays *)

Inductive token_event := EvValidate (libNow now : Z) (token : string) | EvCleanup (now : Z).

Definition run_event (v : Validator) (e : token_event) : Validator :=
  match e with
  | EvValidate libNow now token => (Validate libNow now token v).2
  | EvCleanup now => cleanupExpiredJTI now v
  end.

(** An id stays remembered until a cleanup more than five minutes after its expiry. *)
Definition remembered (id : string) (e until : Z) (v : Validator) : Prop :=
  va_jtiCache v !! id = Some e \/ e < until.

Lemma run_event_remembers id e until v ev :
  vc_ReplayDetectionEnabled (va_config v) = true ->
  (forall now, ev = EvCleanup now -> now <= until) -> remembered id e until v ->
  remembered id e until (run_event v ev) /\ va_config (run_event v ev) = va_config v /\ va_PublicKey (run_event v ev) = va_PublicKey v.
Proof.
  intros Hon Ht Hr. destruct ev as [libNow now token|now]; simpl.
  - unfold Validate. destruct (ValidateWithOptions libNow now token no_options v) as [r v'] eqn:E. destruct r as [c|err|].
    + destruct (validate_inv _ _ _ _ _ _ _ E) as (e' & _ & Hc & Hk & Hrec & _). destruct (Hrec Hon) as [Hnew Hcache].
      split_and!; [|done|done]. simpl. destruct Hr as [Hr|Hr]; [left|by right]. rewrite Hcache, lookup_insert_ne by congruence. done.
    + assert (v' = v) as -> by (unfold ValidateWithOptions in E; repeat case_match; by simplify_eq). done.
    + assert (v' = v) as -> by (unfold ValidateWithOptions in E; repeat case_match; by simplify_eq). done.
  - split_and!; [|done|done]. destruct Hr as [Hr|Hr]; [|by right]. specialize (Ht now eq_refl). unfold remembered, cleanupExpiredJTI. simpl.
    destruct (Z.ltb_spec (e + 5 * 60 * sec) now).
    + right. unfold sec in *. lia.
    + left. apply map_lookup_filter_Some. split; [done|]. simpl. apply Is_true_true. apply negb_true_iff, Z.ltb_ge. done.
Qed.

End tokens.

(** ** A library for the examples *)

(** Tokens are the method, the key and the claims in the clear. *)
Definition claims_tuple (c : Claims) :=
  (tc_Issuer c, tc_Subject c, tc_Audience c, tc_IssuedAt c, tc_ExpiresAt c, tc_ID c, tc_Caller c, tc_Target c,
   tc_TeamID c, tc_UserID c, tc_SandboxID c, tc_Permissions c, tc_IsSystem c).

Definition tuple_claims (x : string * string * string * option Z * option Z * string * string * string * string * string * string * list string * bool) : Claims :=
  let '(a, b, c, d, e, f, g, h, i, j, k, l, m) := x in mkTokenClaims a b c d e f g h i j k l m.

Lemma tuple_claims_tuple c : tuple_claims (claims_tuple c) = c.
Proof. by destruct c. Qed.

Fixpoint show_bits (p : positive) : string :=
  match p with
  | xH => ""
  | xO q => String "0" (show_bits q)
  | xI q => String "1" (show_bits q)
  end.
Fixpoint read_bits (s : string) : positive :=
  match s with
  | EmptyString => xH
  | String a rest => if decide (a = "0"%char) then xO (read_bits rest) else xI (read_bits rest)
  end.
Lemma read_show_bits p : read_bits (show_bits p) = p.
Proof. induction p as [p IH|p IH|]; simpl; by rewrite ?IH. Qed.

Definition clear_parse (kf : string -> option string) (now : Z) (token : string) : jwt_error + Claims :=
  match decode (A := string * string * _) (read_bits token) with
  | None => inl (JwtOther "malformed")
  | Some (method, key, x) =>
      if decide (show_bits (encode (method, key, claims_tuple (tuple_claims x))) <> token) then inl (JwtOther "malformed") else
      if decide (kf method = Some key) then
        match tc_ExpiresAt (tuple_claims x) with
        | Some e => if now <? e then inr (tuple_claims x) else inl JwtExpired
        | None => inr (tuple_claims x)
        end
      else inl (JwtSignature "verification error")
  end.

Definition clear_jwt : Jwt := {|
  PrivateKey := string;
  PublicKey := string;
  public_key := fun k => k;
  NewNumericDate := fun t => t / sec * sec;
  SignedString := fun method k c => inr (show_bits (encode (method, k, claims_tuple c)));
  ParseWithClaims := clear_parse
|}.

Lemma clear_parse_ok kf now token c :
  clear_parse kf now token = inr c ->
  (exists method key, kf method = Some key /\ token = show_bits (encode (method, key, claims_tuple c))) /\
  (forall e, tc_ExpiresAt c = Some e -> now < e).
Proof.
  unfold clear_parse. destruct (decode (read_bits token)) as [[[method key] x]|] eqn:Ed; [|done].
  case_decide as Hw; [done|]. case_decide as Hk; [|done].
  destruct (tc_ExpiresAt (tuple_claims x)) as [e|] eqn:Ee.
  - destruct (Z.ltb_spec now e) as [Hl|]; [|done]. intros [= <-]. split; [|intros e' Ee'; congruence]. exists method, key. split; [done|].
    destruct (decide (show_bits (encode (method, key, claims_tuple (tuple_claims x))) = token)); [done|tauto].
  - intros [= <-]. split; [|congruence]. exists method, key. split; [done|].
    destruct (decide (show_bits (encode (method, key, claims_tuple (tuple_claims x))) = token)); [done|tauto].
Qed.

#[local] Instance clear_jwt_laws : JwtLaws (JW := clear_jwt).
Proof.
  split; simpl.
  - intros t. pose proof (Z.div_mod t sec ltac:(done)). pose proof (Z.mod_pos_bound t sec ltac:(done)). lia.
  - intros kf now token c Hp. apply clear_parse_ok in Hp as [(method & key & Hk & ->) _]. exists method, key. split; [done|].
    by intros k ->.
  - intros kf now token c e Hp. apply clear_parse_ok in Hp as [_ Hp]. apply Hp.
  - intros kf now now' token c c' Hp Hp'. apply clear_parse_ok in Hp as [(m1 & k1 & _ & E1) _].
    apply clear_parse_ok in Hp' as [(m2 & k2 & _ & E2) _]. rewrite E1 in E2. apply (f_equal read_bits) in E2.
    rewrite !read_show_bits in E2. apply encode_inj in E2. apply (f_equal snd) in E2. cbn [snd] in E2.
    rewrite <-(tuple_claims_tuple c), E2. apply tuple_claims_tuple.
  - intros kf now method k c token e [= <-] Hk _ He. unfold clear_parse. rewrite read_show_bits, decode_encode.
    rewrite tuple_claims_tuple. rewrite decide_False by tauto. rewrite decide_True by done. by rewrite He.
Qed.

(** ** Examples *)

Definition demo_generator : Generator (H := clear_jwt) := mkGenerator (H := clear_jwt) "gw" "k" (30 * sec).
Definition demo_validator : Validator (H := clear_jwt) :=
  mkValidator (H := clear_jwt)
    (mkValidatorConfig (H := clear_jwt) "sp" (Some "k" : option (PublicKey (Jwt := clear_jwt))) ["gw"] (5 * sec) true)
    "k" ∅.
Definition demo_opts : GenerateOptions := mkGenerateOptions ["r"] "s" 0.
Definition demo_claims : Claims := generated_claims (JW := clear_jwt) 0 "i" demo_generator "sp" "t" "u" demo_opts (30 * sec).
Definition demo_token : string := show_bits (encode (SigningMethodEdDSA, "k", claims_tuple demo_claims)).
Definition demo_after : Validator (H := clear_jwt) := (Validate (H := clear_jwt) sec sec demo_token demo_validator).2.

Lemma demo_generated : Generate (H := clear_jwt) 0 "i" demo_generator "sp" "t" "u" demo_opts = Ok demo_token.
Proof. reflexivity. Qed.

Lemma pair_first {A B} (p : A * B) a : p.1 = a -> p = (a, p.2).
Proof. by destruct p; cbn; intros ->. Qed.

Lemma demo_accepted : Validate (H := clear_jwt) sec sec demo_token demo_validator = (Ok demo_claims, demo_after).
Proof. unfold demo_after. apply pair_first. vm_compute. reflexivity. Qed.




(** ** What goes wrong *)

Section problems.
Context `{JL : JwtLaws}.

(** Calls that run side by side: each checks for a replay and records the id in a critical
    section of its own. *)
Inductive call := Called (libNow now : Z) (token : string) | Checked (c : Claims) (e : Z) | Accepted (c : Claims) | Refused.

Inductive call_step (v : Validator) : call -> Validator -> call -> Prop :=
| call_checks libNow now token c e :
    validate_checks libNow now v token no_options = Ok (c, e) -> isReplay (tc_ID c) v = false ->
    call_step v (Called libNow now token) v (Checked c e)
| call_refused libNow now token :
    (forall c e, validate_checks libNow now v token no_options = Ok (c, e) -> isReplay (tc_ID c) v = true) ->
    call_step v (Called libNow now token) v Refused
| call_records c e : call_step v (Checked c e) (recordJTI (tc_ID c) e v).2 (Accepted c).

Inductive calls_step : Validator * call * call -> Validator * call * call -> Prop :=
| first_steps v a b v' a' : call_step v a v' a' -> calls_step (v, a, b) (v', a', b)
| second_steps v a b v' b' : call_step v b v' b' -> calls_step (v, a, b) (v', a, b').

(** Two calls with one token are both accepted when both look before either records. *)
Lemma replay_race libNow now token v c e :
  validate_checks libNow now v token no_options = Ok (c, e) -> isReplay (tc_ID c) v = false ->
  exists v', rtc calls_step (v, Called libNow now token, Called libNow now token) (v', Accepted c, Accepted c).
Proof.
  intros Hc Hr. eexists. eapply rtc_l; [apply first_steps, call_checks; done|].
  eapply rtc_l; [apply second_steps, call_checks; done|]. eapply rtc_l; [apply first_steps, call_records|].
  eapply rtc_l; [apply second_steps, call_records|]. apply rtc_refl.
Qed.

(** The tolerance never helps: a token that has expired by the library's clock is refused
    whatever the tolerance is. *)
Lemma skew_never_applies libNow now token v c e v' :
  Validate libNow now token v = (Ok c, v') -> tc_ExpiresAt c = Some e -> libNow < e.
Proof.
  intros Hv He. apply validate_inv in Hv as (e' & Hc & _). apply checks_ok in Hc as (_ & He' & Hl & _). congruence.
Qed.
End problems.

(** A token that is signed without an expiry is a nil dereference. *)
Lemma missing_expiry_panics :
  let c := mkTokenClaims "gw" "t" "sp" None None "" "gw" "sp" "t" "" "" [] false in
  let token := show_bits (encode (SigningMethodEdDSA, "k", claims_tuple c)) in
  (Validate (H := clear_jwt) 0 0 token demo_validator).1 = Panic.
Proof. vm_compute. reflexivity. Qed.
