(* ===== verification/S0fsTypes.v ===== *)
(** * s0fs: the data of the storage engine

    The types of storage-proxy/pkg/s0fs (types.go, errors.go, crypto.go,
    head_store.go) and the images that JSON encoding gives them.

    Go maps are [gmap]s; a nil or missing inner map is an absent key.  No code of
    the package stores a nil pointer in a map, so [m[k] == nil] and a failed
    two-value lookup are both the absent key.  Times are nanoseconds since the
    epoch.  Structures reached through pointers are values: every place that hands
    one out or takes one in clones it first ([cloneNode], [cloneState],
    [slices.Clone]), so no two owners share one. *)

From stdpp Require Import base gmap strings list fin_maps numbers.
From Stdlib Require Import Strings.Byte.
From S2P Require Import Prelude GoStd.

Local Open Scope Z_scope.

Definition RootInode : Z := 1.

(** [TypeUnset] is the zero value "" of the string type. *)
Inductive FileType := TypeDirectory | TypeFile | TypeSymlink | TypeUnset.

#[export] Instance FileType_eq_dec : EqDecision FileType.
Proof. solve_decision. Defined.

(** The sentinel errors, the errors of I/O and the wrapping of [Open]. *)
Inductive error :=
| ErrClosed
| ErrCommittedHeadConflict
| ErrCommittedHeadNotFound
| ErrExists
| ErrInvalidInput
| ErrIsDir
| ErrNotEmpty
| ErrNotDir
| ErrNotFound
| ErrSnapshotNotFound
| ErrMaterializedManifestNotFound
| ErrUnknownOp (op : string)
| ErrDecode
| ErrIO (what : string)
| ErrReplay (seq : Z) (e : error).

#[export] Instance error_eq_dec : EqDecision error.
Proof. solve_decision. Defined.

(** [errors.Is]: ErrSnapshotNotFound wraps ErrNotFound, a replay error wraps its cause. *)
Fixpoint errors_Is (e target : error) : bool :=
  bool_decide (e = target) ||
  match e with
  | ErrSnapshotNotFound => bool_decide (target = ErrNotFound)
  | ErrReplay _ e' => errors_Is e' target
  | _ => false
  end.

Abbreviation gores := (res error).

Record Node := mkNode {
  n_Inode : Z;
  n_Type : FileType;
  n_Mode : Z;
  n_UID : Z;
  n_GID : Z;
  n_Nlink : Z;
  n_Size : Z;
  n_Target : string;
  n_Atime : Z;
  n_Mtime : Z;
  n_Ctime : Z
}.

Record DirEntry := mkDirEntry { de_Name : string; de_Inode : Z; de_Type : FileType }.

Record FileExtent := mkExtent { x_SegmentID : string; x_Offset : Z; x_Length : Z }.

Record SegmentEncryption := mkSegEnc {
  se_Version : Z;
  se_Algorithm : string;
  se_ChunkSize : Z;
  se_PlaintextSize : Z;
  se_CiphertextSize : Z;
  se_WrappedKey : list byte;
  se_NoncePrefix : list byte
}.

(** [sg_SHA256] is the digest; the code keeps its hexadecimal form. *)
Record Segment := mkSegment {
  sg_ID : string;
  sg_VolumeID : string;
  sg_Key : string;
  sg_Length : Z;
  sg_SHA256 : list byte;
  sg_Encryption : option SegmentEncryption
}.

Record SnapshotState := mkState {
  NextSeq : Z;
  NextInode : Z;
  Nodes : gmap Z Node;
  Children : gmap Z (gmap string Z);
  Data : gmap Z (list byte);
  ColdFiles : gmap Z (list FileExtent);
  Segments : gmap string Segment
}.

Inductive walOp :=
| OpCreate | OpWrite | OpLink | OpRmdir | OpRename | OpChmod | OpChown | OpTruncate | OpUnlink
| OpOther (op : string).

Record walRecord := mkRecord {
  r_Seq : Z;
  r_Op : walOp;
  r_Inode : Z;
  r_Parent : Z;
  r_Name : string;
  r_NewParent : Z;
  r_NewName : string;
  r_Type : FileType;
  r_Mode : Z;
  r_Offset : Z;
  r_Data : list byte;
  r_Target : string;
  r_TimeUnix : Z
}.

Record CommittedHead := mkHead {
  h_VolumeID : string;
  h_ManifestSeq : Z;
  h_CheckpointSeq : Z;
  h_ManifestKey : string;
  h_UpdatedAt : Z
}.

Record Manifest := mkManifest {
  mf_Version : Z;
  mf_VolumeID : string;
  mf_ManifestSeq : Z;
  mf_CheckpointSeq : Z;
  mf_CreatedAt : Z;
  mf_State : option SnapshotState
}.

(** ** Field updates *)

Definition set_NextSeq v s := mkState v (NextInode s) (Nodes s) (Children s) (Data s) (ColdFiles s) (Segments s).
Definition set_NextInode v s := mkState (NextSeq s) v (Nodes s) (Children s) (Data s) (ColdFiles s) (Segments s).
Definition set_Nodes v s := mkState (NextSeq s) (NextInode s) v (Children s) (Data s) (ColdFiles s) (Segments s).
Definition set_Children v s := mkState (NextSeq s) (NextInode s) (Nodes s) v (Data s) (ColdFiles s) (Segments s).
Definition set_Data v s := mkState (NextSeq s) (NextInode s) (Nodes s) (Children s) v (ColdFiles s) (Segments s).
Definition set_ColdFiles v s := mkState (NextSeq s) (NextInode s) (Nodes s) (Children s) (Data s) v (Segments s).
Definition set_Segments v s := mkState (NextSeq s) (NextInode s) (Nodes s) (Children s) (Data s) (ColdFiles s) v.

Definition node_set_Nlink v n := mkNode (n_Inode n) (n_Type n) (n_Mode n) (n_UID n) (n_GID n) v (n_Size n) (n_Target n) (n_Atime n) (n_Mtime n) (n_Ctime n).
Definition node_set_Ctime v n := mkNode (n_Inode n) (n_Type n) (n_Mode n) (n_UID n) (n_GID n) (n_Nlink n) (n_Size n) (n_Target n) (n_Atime n) (n_Mtime n) v.
Definition node_set_Mtime v n := mkNode (n_Inode n) (n_Type n) (n_Mode n) (n_UID n) (n_GID n) (n_Nlink n) (n_Size n) (n_Target n) (n_Atime n) v (n_Ctime n).
Definition node_set_Mode v n := mkNode (n_Inode n) (n_Type n) v (n_UID n) (n_GID n) (n_Nlink n) (n_Size n) (n_Target n) (n_Atime n) (n_Mtime n) (n_Ctime n).
Definition node_set_Owner u g n := mkNode (n_Inode n) (n_Type n) (n_Mode n) u g (n_Nlink n) (n_Size n) (n_Target n) (n_Atime n) (n_Mtime n) (n_Ctime n).
Definition node_set_Size v n := mkNode (n_Inode n) (n_Type n) (n_Mode n) (n_UID n) (n_GID n) (n_Nlink n) v (n_Target n) (n_Atime n) (n_Mtime n) (n_Ctime n).

Definition is_dir (n : Node) : bool := bool_decide (n_Type n = TypeDirectory).

(** The directory [p] of a children map, with the nil map for an absent key. *)
Definition dir_of (ch : gmap Z (gmap string Z)) (p : Z) : gmap string Z := default ∅ (ch !! p).

(** ** The image of a value written as JSON and read back

    Numbers, times and byte slices come back unchanged; strings come back with
    invalid UTF-8 replaced ([json_string]). *)

Definition json_record (r : walRecord) : walRecord :=
  mkRecord (r_Seq r) (r_Op r) (r_Inode r) (r_Parent r) (json_string (r_Name r))
    (r_NewParent r) (json_string (r_NewName r)) (r_Type r) (r_Mode r) (r_Offset r)
    (r_Data r) (json_string (r_Target r)) (r_TimeUnix r).

(** Names with the same image share one JSON key, and one of their values is read back. *)
Definition json_keys {V} (m : gmap string V) : gmap string V :=
  list_to_map (prod_map json_string id <$> map_to_list m).

Definition json_node (n : Node) : Node :=
  mkNode (n_Inode n) (n_Type n) (n_Mode n) (n_UID n) (n_GID n) (n_Nlink n) (n_Size n)
    (json_string (n_Target n)) (n_Atime n) (n_Mtime n) (n_Ctime n).

Definition json_extent (x : FileExtent) : FileExtent :=
  mkExtent (json_string (x_SegmentID x)) (x_Offset x) (x_Length x).

Definition json_segment (g : Segment) : Segment :=
  mkSegment (json_string (sg_ID g)) (json_string (sg_VolumeID g)) (json_string (sg_Key g))
    (sg_Length g) (sg_SHA256 g)
    ((fun se => mkSegEnc (se_Version se) (json_string (se_Algorithm se)) (se_ChunkSize se)
        (se_PlaintextSize se) (se_CiphertextSize se) (se_WrappedKey se) (se_NoncePrefix se))
       <$> sg_Encryption g).

Definition json_state (s : SnapshotState) : SnapshotState :=
  mkState (NextSeq s) (NextInode s) (json_node <$> Nodes s) (json_keys (V:=Z) <$> Children s)
    (Data s) (fmap (M:=list) json_extent <$> ColdFiles s) (json_segment <$> json_keys (Segments s)).

Definition json_manifest (m : Manifest) : Manifest :=
  mkManifest (mf_Version m) (json_string (mf_VolumeID m)) (mf_ManifestSeq m) (mf_CheckpointSeq m)
    (mf_CreatedAt m) (json_state <$> mf_State m).

(** ** States whose strings JSON keeps *)

Definition record_utf8 (r : walRecord) : Prop :=
  utf8_ok (r_Name r) /\ utf8_ok (r_NewName r) /\ utf8_ok (r_Target r).

Lemma json_record_id r : record_utf8 r -> json_record r = r.
Proof. destruct r; unfold record_utf8, utf8_ok, json_record; simpl. by intros (-> & -> & ->). Qed.

Lemma json_keys_id {V} (m : gmap string V) :
  (forall k, is_Some (m !! k) -> utf8_ok k) -> json_keys m = m.
Proof.
  intros H. unfold json_keys. rewrite <- (list_to_map_to_list m) at 2. f_equal.
  rewrite <- (list_fmap_id (map_to_list m)) at 2. apply list_fmap_ext.
  intros i [k v] Hkv%list_elem_of_lookup_2%elem_of_map_to_list. simpl.
  unfold prod_map; simpl. f_equal. apply H. eauto.
Qed.
