(* ===== verification/S0fsCore.v ===== *)
(** * s0fs: the operations on the in-memory file system (engine.go)

    The seven fields that [Engine] shares with [SnapshotState] are the state of
    this file; [currentStateLocked] and [replaceStateLocked] of the source copy
    them across.  The [apply] functions replay one record of the write-ahead log
    on that state, the other functions are the locked helpers they use.

    File contents that were materialized live in object-store segments.  The
    engine reads them through the interface [ColdReader], which S0fsMaterializer
    implements. *)

From stdpp Require Import base gmap strings list fin_maps numbers sorting.
From Stdlib Require Import Strings.Byte.
From S2P Require Import Prelude GoStd S0fsTypes.

Local Open Scope Z_scope.

(** What the engine uses of the materializer: whether one is configured
    ([e.materializer != nil && e.materializer.Enabled()]) and range reads. *)
Class ColdReader := {
  cold_enabled : bool;
  ReadSegmentRange : Segment -> Z -> Z -> gores (list byte)
}.

Abbreviation Core := (ST error SnapshotState).

Definition minUint64 (a b : Z) : Z := if a <? b then a else b.
Definition maxUint64 (a b : Z) : Z := if b <? a then a else b.

(** [make([]byte, n)] followed by [copy(_, l)], for [len(l) <= n]. *)
Definition grow_to (n : Z) (l : list byte) : gores (list byte) :=
  if (n <? 0) || (maxInt <? n) then Panic
  else Ok (splice 0 l (replicate (Z.to_nat n) x00)).

(** [copy(l[a:b], d)] *)
Definition copy_at (a b : Z) (d l : list byte) : gores (list byte) :=
  let? dst := goslice a b l in
  Ok (splice a (take (length dst) d) l).

(** ** Directory entries and nodes *)

Definition put_child (p : Z) (name : string) (i : Z) : Core unit := fun s =>
  match Children s !! p with
  | Some m => (Ok tt, set_Children (<[p := <[name := i]> m]> (Children s)) s)
  | None => (Panic, s)
  end.

Definition del_child (p : Z) (name : string) : Core unit :=
  modify (fun s => set_Children (alter (delete name) p (Children s)) s).

Definition put_node (i : Z) (n : Node) : Core unit :=
  modify (fun s => set_Nodes (<[i := n]> (Nodes s)) s).

Definition put_data (i : Z) (d : list byte) : Core unit :=
  modify (fun s => set_Data (<[i := d]> (Data s)) s).

Definition ensureDirLocked (inode : Z) : Core unit := fun s =>
  match Nodes s !! inode with
  | None => (Err ErrNotFound, s)
  | Some node =>
      if negb (is_dir node) then (Err ErrNotDir, s) else
      match Children s !! inode with
      | Some _ => (Ok tt, s)
      | None => (Ok tt, set_Children (<[inode := ∅]> (Children s)) s)
      end
  end.

Definition lookupLocked (parent : Z) (name : string) : Core Z :=
  do* ensureDirLocked parent in
  let* s := get in
  match dir_of (Children s) parent !! name with
  | Some inode => ret inode
  | None => throw ErrNotFound
  end.

Definition fileNodeLocked (inode : Z) : Core Node :=
  let* s := get in
  match Nodes s !! inode with
  | None => throw ErrNotFound
  | Some node => if is_dir node then throw ErrIsDir else ret node
  end.

Section cold.
Context `{CR : ColdReader}.

(** ** Cold file contents *)

Fixpoint cold_loop (segs : gmap string Segment) (rangeStart rangeEnd : Z)
    (extents : list FileExtent) (fileOffset remaining : Z) (out : list byte)
    : gores (list byte) :=
  match extents with
  | [] => Ok out
  | extent :: rest =>
      let extentStart := fileOffset in
      let extentEnd := u64 (fileOffset + x_Length extent) in
      if (rangeEnd <=? extentStart) || (extentEnd <=? rangeStart) then
        cold_loop segs rangeStart rangeEnd rest extentEnd remaining out
      else
        let readStart := maxUint64 rangeStart extentStart in
        let readEnd := minUint64 rangeEnd extentEnd in
        match segs !! x_SegmentID extent with
        | None => Err ErrInvalidInput
        | Some segment =>
            let segmentOffset := u64 (x_Offset extent + (readStart - extentStart)) in
            let? chunk := ReadSegmentRange segment (int64_of segmentOffset)
                            (int64_of (u64 (readEnd - readStart))) in
            let remaining' := u64 (remaining - zlen chunk) in
            if remaining' =? 0 then Ok (out ++ chunk)
            else cold_loop segs rangeStart rangeEnd rest extentEnd remaining' (out ++ chunk)
        end
  end.

Definition cold_of (s : SnapshotState) (inode : Z) : list FileExtent :=
  default [] (ColdFiles s !! inode).

Definition data_of (s : SnapshotState) (inode : Z) : list byte :=
  default [] (Data s !! inode).

Definition readColdRangeLocked (s : SnapshotState) (inode offset size : Z) : gores (list byte) :=
  if negb cold_enabled then Err ErrInvalidInput else
  match cold_of s inode with
  | [] => Ok []
  | extents =>
      cold_loop (Segments s) offset (u64 (offset + size)) extents 0 size []
  end.

(** The inline payload is used when it is non-empty or when there is no cold one. *)
Definition is_hot (s : SnapshotState) (inode : Z) : bool :=
  (0 <? zlen (data_of s inode)) || (zlen (cold_of s inode) =? 0).

Definition readFileLocked (node : Node) (inode offset size : Z) (s : SnapshotState)
    : gores (list byte) :=
  if n_Size node <=? offset then Ok [] else
  if is_hot s inode then
    let payload := data_of s inode in
    if zlen payload <=? offset then Ok [] else
    let end_ := u64 (offset + size) in
    let end_ := if zlen payload <? end_ then zlen payload else end_ in
    goslice offset end_ payload
  else readColdRangeLocked s inode offset size.

(** [readFileIntoLocked] with a destination of [n] bytes: the bytes it copies there. *)
Definition readFileIntoLocked (node : Node) (inode offset n : Z) (s : SnapshotState)
    : gores (list byte) :=
  if (n =? 0) || (n_Size node <=? offset) then Ok [] else
  if is_hot s inode then
    let payload := data_of s inode in
    if zlen payload <=? offset then Ok [] else
    let end_ := u64 (offset + n) in
    let end_ := if zlen payload <? end_ then zlen payload else end_ in
    let? chunk := goslice offset end_ payload in
    Ok (take (Z.to_nat n) chunk)
  else
    let? payload := readColdRangeLocked s inode offset n in
    Ok (take (Z.to_nat n) payload).

Definition mutableFileDataLocked (inode : Z) : Core (list byte) :=
  let* s := get in
  if is_hot s inode then ret (data_of s inode) else
  match Nodes s !! inode with
  | None => throw ErrNotFound
  | Some node =>
      let* payload := lift_res (readColdRangeLocked s inode 0 (n_Size node)) in
      do* put_data inode payload in
      do* modify (fun s => set_ColdFiles (delete inode (ColdFiles s)) s) in
      ret payload
  end.

(** ** Replaying one record *)

Definition applyCreate (r : walRecord) : Core unit :=
  if (r_Inode r =? 0) || (r_Parent r =? 0) || bool_decide (r_Name r = "") then
    throw ErrInvalidInput else
  do* ensureDirLocked (r_Parent r) in
  let* s := get in
  match dir_of (Children s) (r_Parent r) !! r_Name r with
  | Some _ => throw ErrExists
  | None =>
      let now := r_TimeUnix r in
      let typ := if decide (r_Type r = TypeUnset) then TypeFile else r_Type r in
      let node := mkNode (r_Inode r) typ (r_Mode r) 0 0 1 0 (r_Target r) now now now in
      do* (if is_dir node
           then modify (fun s => set_Children (<[n_Inode node := ∅]> (Children s)) s)
           else ret tt) in
      do* put_node (n_Inode node) node in
      do* put_child (r_Parent r) (r_Name r) (n_Inode node) in
      modify (fun s => if NextInode s <=? r_Inode r
                       then set_NextInode (u64 (r_Inode r + 1)) s else s)
  end.

Definition applyLink (r : walRecord) : Core unit :=
  if (r_Inode r =? 0) || (r_NewParent r =? 0) || bool_decide (r_NewName r = "") then
    throw ErrInvalidInput else
  let* s := get in
  match Nodes s !! r_Inode r with
  | None => throw ErrNotFound
  | Some node =>
      if is_dir node then throw ErrIsDir else
      do* ensureDirLocked (r_NewParent r) in
      let* s := get in
      match dir_of (Children s) (r_NewParent r) !! r_NewName r with
      | Some _ => throw ErrExists
      | None =>
          do* put_child (r_NewParent r) (r_NewName r) (r_Inode r) in
          put_node (r_Inode r)
            (node_set_Ctime (r_TimeUnix r) (node_set_Nlink (u32 (n_Nlink node + 1)) node))
      end
  end.

Definition touch_size (d : list byte) (now : Z) (node : Node) : Node :=
  node_set_Ctime now (node_set_Mtime now (node_set_Size (zlen d) node)).

Definition applyWrite (r : walRecord) : Core unit :=
  let* node := fileNodeLocked (r_Inode r) in
  let* current := mutableFileDataLocked (r_Inode r) in
  let end_ := u64 (r_Offset r + zlen (r_Data r)) in
  let* current := lift_res (if zlen current <? end_ then grow_to end_ current else Ok current) in
  let* current := lift_res (copy_at (r_Offset r) end_ (r_Data r) current) in
  do* put_data (r_Inode r) current in
  put_node (r_Inode r) (touch_size current (r_TimeUnix r) node).

Definition applyTruncate (r : walRecord) : Core unit :=
  let* node := fileNodeLocked (r_Inode r) in
  let* current := mutableFileDataLocked (r_Inode r) in
  let target := int64_of (r_Offset r) in
  let* current := lift_res
    (if target <? zlen current then goslice 0 target current
     else if zlen current <? target then grow_to target current
     else Ok current) in
  do* put_data (r_Inode r) current in
  put_node (r_Inode r) (touch_size current (r_TimeUnix r) node).

Definition applyRename (r : walRecord) : Core unit :=
  let* inode := lookupLocked (r_Parent r) (r_Name r) in
  do* ensureDirLocked (r_NewParent r) in
  do* del_child (r_Parent r) (r_Name r) in
  do* put_child (r_NewParent r) (r_NewName r) inode in
  let* s := get in
  match Nodes s !! inode with
  | Some node => put_node inode (node_set_Ctime (r_TimeUnix r) node)
  | None => ret tt
  end.

Definition applyRemoveDir (r : walRecord) : Core unit :=
  let* inode := lookupLocked (r_Parent r) (r_Name r) in
  let* s := get in
  match Nodes s !! inode with
  | None => throw ErrNotFound
  | Some node =>
      if negb (is_dir node) then throw ErrNotDir else
      if decide (dir_of (Children s) inode <> ∅) then throw ErrNotEmpty else
      do* del_child (r_Parent r) (r_Name r) in
      do* modify (fun s => set_Children (delete inode (Children s)) s) in
      modify (fun s => set_Nodes (delete inode (Nodes s)) s)
  end.

Definition applySetMode (r : walRecord) : Core unit :=
  let* s := get in
  match Nodes s !! r_Inode r with
  | None => throw ErrNotFound
  | Some node => put_node (r_Inode r) (node_set_Ctime (r_TimeUnix r) (node_set_Mode (r_Mode r) node))
  end.

Definition applySetOwner (r : walRecord) : Core unit :=
  let* s := get in
  match Nodes s !! r_Inode r with
  | None => throw ErrNotFound
  | Some node =>
      put_node (r_Inode r)
        (node_set_Ctime (r_TimeUnix r) (node_set_Owner (r_Mode r) (u32 (r_Offset r)) node))
  end.

Definition applyUnlink (r : walRecord) : Core unit :=
  let* inode := lookupLocked (r_Parent r) (r_Name r) in
  let* s := get in
  match Nodes s !! inode with
  | Some node =>
      if is_dir node then throw ErrIsDir else
      do* del_child (r_Parent r) (r_Name r) in
      if 0 <? n_Nlink node
      then put_node inode (node_set_Ctime (r_TimeUnix r) (node_set_Nlink (n_Nlink node - 1) node))
      else ret tt
  | None => del_child (r_Parent r) (r_Name r)
  end.

Definition apply (r : walRecord) : Core unit :=
  match r_Op r with
  | OpCreate => applyCreate r
  | OpWrite => applyWrite r
  | OpLink => applyLink r
  | OpRmdir => applyRemoveDir r
  | OpRename => applyRename r
  | OpChmod => applySetMode r
  | OpChown => applySetOwner r
  | OpTruncate => applyTruncate r
  | OpUnlink => applyUnlink r
  | OpOther op => throw (ErrUnknownOp op)
  end.

(** ** Garbage collection, export and materialization of the state *)

Definition unlinked (s : SnapshotState) (i : Z) : Prop :=
  i <> RootInode /\ exists n, Nodes s !! i = Some n /\ n_Nlink n = 0.

#[export] Instance unlinked_dec s i : Decision (unlinked s i).
Proof.
  unfold unlinked. destruct (decide (i = RootInode)); [by right; intros []|].
  destruct (Nodes s !! i) as [nd|]; [|right; naive_solver].
  destruct (decide (n_Nlink nd = 0)); [left; eauto | right; naive_solver].
Defined.

Definition collectUnlinkedLocked (s : SnapshotState) : SnapshotState :=
  mkState (NextSeq s) (NextInode s)
    (filter (fun kv => ~ unlinked s kv.1) (Nodes s))
    (filter (fun kv => ~ unlinked s kv.1) (Children s))
    (filter (fun kv => ~ unlinked s kv.1) (Data s))
    (filter (fun kv => ~ unlinked s kv.1) (ColdFiles s))
    (Segments s).

(** The loop of [exportStateLocked] over the cold files, in some order. *)
Fixpoint export_loop (s : SnapshotState) (inodes : list Z) (acc : gmap Z (list byte))
    : gores (gmap Z (list byte)) :=
  match inodes with
  | [] => Ok acc
  | i :: rest =>
      match Nodes s !! i with
      | None => export_loop s rest acc
      | Some node =>
          let? payload := readColdRangeLocked s i 0 (n_Size node) in
          export_loop s rest (<[i := payload]> acc)
      end
  end.

Definition exportStateLocked (s : SnapshotState) : gores SnapshotState :=
  if decide (ColdFiles s = ∅) then Ok (set_Segments ∅ s) else
  let? d := export_loop s (fst <$> map_to_list (ColdFiles s)) (Data s) in
  Ok (set_Segments ∅ (set_ColdFiles ∅ (set_Data d s))).

Definition materializeStateLocked (s : SnapshotState) : SnapshotState :=
  set_ColdFiles (filter (fun kv => is_Some (Nodes s !! kv.1)) (ColdFiles s)) s.

End cold.

(** ** Listing and paths *)

Definition entry_le (a b : DirEntry) : Prop := String.le (de_Name a) (de_Name b).
#[export] Instance entry_le_dec a b : Decision (entry_le a b).
Proof. unfold entry_le. apply _. Defined.

(** The entries [ReadDir] returns: those with a node, sorted by name. *)
Definition ReadDir_entries (s : SnapshotState) (inode : Z) : list DirEntry :=
  merge_sort entry_le
    (omap (fun kv : string * Z =>
             (fun node => mkDirEntry kv.1 kv.2 (n_Type node)) <$> Nodes s !! kv.2)
          (map_to_list (dir_of (Children s) inode))).

Definition join_path (base name : string) : string :=
  if decide (base = "/") then base +:+ name else base +:+ "/" +:+ name.

(** The inner loop of [pathLocked] over the sorted names of one directory: the path
    when the target is found, or the visited set and the queue. *)
Fixpoint path_scan (s : SnapshotState) (target : Z) (cpath : string) (ch : gmap string Z)
    (names : list string) (seen : gset Z) (queue : list (Z * string))
    : string + (gset Z * list (Z * string)) :=
  match names with
  | [] => inr (seen, queue)
  | name :: rest =>
      let child := default 0 (ch !! name) in
      let childPath := join_path cpath name in
      if child =? target then inl childPath else
      if decide (child ∈ seen) then path_scan s target cpath ch rest seen queue else
      let queue' :=
        match Nodes s !! child with
        | Some node => if is_dir node then queue ++ [(child, childPath)] else queue
        | None => queue
        end in
      path_scan s target cpath ch rest ({[child]} ∪ seen) queue'
  end.

Definition sorted_names (ch : gmap string Z) : list string :=
  merge_sort String.le (fst <$> map_to_list ch).

(** The outer loop, with fuel; [None] is out of fuel. *)
Fixpoint path_loop (fuel : nat) (s : SnapshotState) (target : Z) (seen : gset Z)
    (queue : list (Z * string)) : option (option string) :=
  match fuel with
  | O => None
  | S fuel' =>
      match queue with
      | [] => Some None
      | (inode, cpath) :: queue' =>
          let ch := dir_of (Children s) inode in
          match path_scan s target cpath ch (sorted_names ch) seen queue' with
          | inl p => Some (Some p)
          | inr (seen', queue'') => path_loop fuel' s target seen' queue''
          end
      end
  end.

(** A directory is queued at most once, so one round per node and one to find the
    queue empty are enough. *)
Definition path_fuel (s : SnapshotState) : nat := 2 + size (Nodes s).

Definition pathLocked (s : SnapshotState) (target : Z) : option string :=
  if target =? RootInode then Some "/" else
  match Nodes s !! target with
  | None => None
  | Some _ => default None (path_loop (path_fuel s) s target {[RootInode]} [(RootInode, "/")])
  end.
