(* ===== verification/S0fsEngine.v ===== *)
(** * s0fs: the engine, its write-ahead log and its local files (engine.go, wal.go)

    A [World] is an engine together with the files of its volume directory.  The
    log is kept line by line; a line that a short write or a crash cut off is
    [Torn].  The state files are written to a temporary file and renamed, so each
    holds a whole document.  Every operation takes the clock readings and the I/O
    faults of its run as an [Env].  The mutexes are not modelled: each operation
    runs under the engine's lock from its first to its last statement, so an
    operation is one step; [SyncMaterialize] and [RefreshMaterialized], which
    release the lock in between, are two steps each. *)

From stdpp Require Import base gmap strings list fin_maps numbers sorting.
From Stdlib Require Import Strings.Byte.
From S2P Require Import Prelude GoStd S0fsTypes S0fsCore.

Local Open Scope Z_scope.

(** ** The files *)

Inductive wal_line := Line (r : walRecord) | Torn.

Record Disk := mkDisk {
  d_wal : list wal_line;
  d_head : option SnapshotState;
  d_snaps : gmap string SnapshotState
}.

Definition set_wal v d := mkDisk v (d_head d) (d_snaps d).
Definition set_head v d := mkDisk (d_wal d) v (d_snaps d).
Definition set_snaps v d := mkDisk (d_wal d) (d_head d) v.

(** The field [file] of the wal: nil, an open file, or a handle that was closed and
    could not be reopened. *)
Inductive WalHandle := HNil | HOpen | HStale.

Record Engine := mkEngine {
  volumeID : string;
  walHandle : WalHandle;
  closed : bool;
  core : SnapshotState;
  mutationVersion : Z;
  lastCommittedManifest : Z;
  lastMaterializedVersion : Z;
  dirty : bool;
  dirtyAt : Z
}.

Definition set_core v e := mkEngine (volumeID e) (walHandle e) (closed e) v (mutationVersion e) (lastCommittedManifest e) (lastMaterializedVersion e) (dirty e) (dirtyAt e).
Definition set_handle v e := mkEngine (volumeID e) v (closed e) (core e) (mutationVersion e) (lastCommittedManifest e) (lastMaterializedVersion e) (dirty e) (dirtyAt e).
Definition set_closed v e := mkEngine (volumeID e) (walHandle e) v (core e) (mutationVersion e) (lastCommittedManifest e) (lastMaterializedVersion e) (dirty e) (dirtyAt e).
Definition set_lcm v e := mkEngine (volumeID e) (walHandle e) (closed e) (core e) (mutationVersion e) v (lastMaterializedVersion e) (dirty e) (dirtyAt e).
Definition set_lmv v e := mkEngine (volumeID e) (walHandle e) (closed e) (core e) (mutationVersion e) (lastCommittedManifest e) v (dirty e) (dirtyAt e).
Definition set_dirty v e := mkEngine (volumeID e) (walHandle e) (closed e) (core e) (mutationVersion e) (lastCommittedManifest e) (lastMaterializedVersion e) v (dirtyAt e).
Definition set_dirty_at v t e := mkEngine (volumeID e) (walHandle e) (closed e) (core e) v (lastCommittedManifest e) (lastMaterializedVersion e) true t.

Record World := mkWorld { eng : Engine; disk : Disk }.

Abbreviation Eng := (ST error World).

Definition set_eng (f : Engine -> Engine) (w : World) : World := mkWorld (f (eng w)) (disk w).
Definition set_disk (f : Disk -> Disk) (w : World) : World := mkWorld (eng w) (f (disk w)).

(** The clock readings and the I/O faults of one operation. *)
Inductive append_fault := AppendOk | AppendFails (torn : bool).
Inductive reset_fault := ResetOk | CloseFails | ReopenFails.

Record Env := mkEnv {
  env_now : Z;
  env_dirty_now : Z;
  env_append : append_fault;
  env_save : bool;
  env_reset : reset_fault;
  env_sync : bool;
  env_close : bool
}.

Definition run_core {A} (m : Core A) : Eng A := fun w =>
  let '(r, s) := m (core (eng w)) in (r, set_eng (set_core s) w).

(** ** wal.go *)

(** A record appended after a torn line continues that line. *)
Definition wal_push (l : wal_line) (ls : list wal_line) : list wal_line :=
  match last ls with
  | Some Torn => ls
  | _ => ls ++ [l]
  end.

Definition wal_append (env : Env) (r : walRecord) : Eng unit := fun w =>
  match walHandle (eng w) with
  | HNil => (Err ErrClosed, w)
  | HStale => (Err (ErrIO "append wal record"), w)
  | HOpen =>
      match env_append env with
      | AppendOk => (Ok tt, set_disk (fun d => set_wal (wal_push (Line (json_record r)) (d_wal d)) d) w)
      | AppendFails torn =>
          (Err (ErrIO "append wal record"),
           if torn then set_disk (fun d => set_wal (wal_push Torn (d_wal d)) d) w else w)
      end
  end.

Fixpoint readWAL (ls : list wal_line) : gores (list walRecord) :=
  match ls with
  | [] => Ok []
  | Torn :: _ => Err ErrDecode
  | Line r :: rest => let? rs := readWAL rest in Ok (r :: rs)
  end.

Definition wal_sync (env : Env) : Eng unit := fun w =>
  match walHandle (eng w) with
  | HNil => (Err ErrClosed, w)
  | HStale => (Err (ErrIO "sync wal"), w)
  | HOpen => if env_sync env then (Ok tt, w) else (Err (ErrIO "sync wal"), w)
  end.

Definition wal_close (env : Env) : Eng unit := fun w =>
  match walHandle (eng w) with
  | HNil => (Ok tt, w)
  | HStale => (Err (ErrIO "close"), set_eng (set_handle HNil) w)
  | HOpen => (if env_close env then Ok tt else Err (ErrIO "close"), set_eng (set_handle HNil) w)
  end.

Definition wal_reset (env : Env) : Eng unit := fun w =>
  let reopen :=
    match env_reset env with
    | ResetOk => (Ok tt, set_eng (set_handle HOpen) (set_disk (set_wal []) w))
    | CloseFails => (Err (ErrIO "close"), w)
    | ReopenFails => (Err (ErrIO "reset wal"), set_eng (set_handle HStale) w)
    end in
  match walHandle (eng w) with
  | HStale => (Err (ErrIO "close"), w)
  | HNil =>
      match env_reset env with
      | ReopenFails => (Err (ErrIO "reset wal"), w)
      | _ => (Ok tt, set_eng (set_handle HOpen) (set_disk (set_wal []) w))
      end
  | HOpen => reopen
  end.

(** ** The locked helpers of engine.go *)

Definition checkOpen : Eng unit := fun w =>
  if closed (eng w) then (Err ErrClosed, w) else (Ok tt, w).

Definition newRecord (env : Env) (op : walOp) : Eng walRecord := fun w =>
  let s := core (eng w) in
  (Ok (mkRecord (NextSeq s) op 0 0 "" 0 "" TypeUnset 0 0 [] "" (env_now env)),
   set_eng (set_core (set_NextSeq (u64 (NextSeq s + 1)) s)) w).

Definition markDirtyLocked (env : Env) : Eng unit :=
  modify (set_eng (fun e => set_dirty_at (u64 (mutationVersion e + 1)) (env_dirty_now env) e)).

Definition persistCurrentStateLocked (env : Env) : Eng unit := fun w =>
  if env_save env
  then (Ok tt, set_disk (set_head (Some (json_state (core (eng w))))) w)
  else (Err (ErrIO "write snapshot state"), w).

Definition replaceStateLocked (st : SnapshotState) : Eng unit :=
  modify (set_eng (set_core
    (collectUnlinkedLocked
       (set_NextInode (if NextInode st <=? RootInode then RootInode + 1 else NextInode st)
          (set_NextSeq (if NextSeq st =? 0 then 1 else NextSeq st) st))))).

Section ops.
Context `{CR : ColdReader}.

(** [e.wal.append(record)], [e.apply(record)], [e.markDirtyLocked()]. *)
Definition log_apply (env : Env) (r : walRecord) : Eng unit :=
  do* wal_append env r in
  do* run_core (apply r) in
  markDirtyLocked env.

(** ** Reading *)

Definition Lookup (parent : Z) (name : string) : Eng (option Node) :=
  do* checkOpen in
  let* inode := run_core (lookupLocked parent name) in
  gets (fun w => Nodes (core (eng w)) !! inode).

Definition GetAttr (inode : Z) : Eng Node :=
  do* checkOpen in
  let* w := get in
  match Nodes (core (eng w)) !! inode with
  | None => throw ErrNotFound
  | Some node => ret node
  end.

Definition ReadDir (inode : Z) : Eng (list DirEntry) :=
  do* checkOpen in
  do* run_core (ensureDirLocked inode) in
  gets (fun w => ReadDir_entries (core (eng w)) inode).

Definition Path (w : World) (inode : Z) : option string :=
  if closed (eng w) then None else pathLocked (core (eng w)) inode.

Definition ChildPath (w : World) (parent : Z) (name : string) : option string :=
  if closed (eng w) then None else
  match pathLocked (core (eng w)) parent with
  | None => None
  | Some parentPath =>
      if decide (name = "") then None else
      if decide (parentPath = "/") then Some ("/" +:+ name)
      else Some (parentPath +:+ "/" +:+ name)
  end.

Definition Read (inode offset size : Z) : Eng (list byte) :=
  do* checkOpen in
  let* node := run_core (fileNodeLocked inode) in
  let* w := get in
  lift_res (readFileLocked node inode offset size (core (eng w))).

(** The bytes [ReadInto] copies into a destination of [n] bytes. *)
Definition ReadInto (inode offset n : Z) : Eng (list byte) :=
  do* checkOpen in
  let* node := run_core (fileNodeLocked inode) in
  let* w := get in
  lift_res (readFileIntoLocked node inode offset n (core (eng w))).

(** ** Mutations *)

Definition create (env : Env) (parent : Z) (name : string) (typ : FileType) (mode : Z)
    (target : string) : Eng (option Node) :=
  do* checkOpen in
  if decide (name = "") then throw ErrInvalidInput else
  do* run_core (ensureDirLocked parent) in
  let* w := get in
  match dir_of (Children (core (eng w))) parent !! name with
  | Some _ => throw ErrExists
  | None =>
      let* r := newRecord env OpCreate in
      let* inode := gets (fun w => NextInode (core (eng w))) in
      do* log_apply env (mkRecord (r_Seq r) OpCreate inode parent name 0 "" typ mode 0 [] target
                           (r_TimeUnix r)) in
      gets (fun w => Nodes (core (eng w)) !! inode)
  end.

Definition Mkdir env parent name mode := create env parent name TypeDirectory mode "".
Definition CreateFile env parent name mode := create env parent name TypeFile mode "".
Definition Symlink env parent name target mode : Eng (option Node) :=
  if decide (target = "") then throw ErrInvalidInput
  else create env parent name TypeSymlink mode target.

Definition Link (env : Env) (inode newParent : Z) (newName : string) : Eng (option Node) :=
  do* checkOpen in
  if decide (newName = "") then throw ErrInvalidInput else
  let* w := get in
  match Nodes (core (eng w)) !! inode with
  | None => throw ErrNotFound
  | Some node =>
      if is_dir node then throw ErrIsDir else
      do* run_core (ensureDirLocked newParent) in
      let* w := get in
      match dir_of (Children (core (eng w))) newParent !! newName with
      | Some _ => throw ErrExists
      | None =>
          let* r := newRecord env OpLink in
          do* log_apply env (mkRecord (r_Seq r) OpLink inode 0 "" newParent newName TypeUnset 0 0 [] ""
                               (r_TimeUnix r)) in
          gets (fun w => Nodes (core (eng w)) !! inode)
      end
  end.

Definition Write (env : Env) (inode offset : Z) (payload : list byte) : Eng Z :=
  do* checkOpen in
  let* _ := run_core (fileNodeLocked inode) in
  let* r := newRecord env OpWrite in
  do* log_apply env (mkRecord (r_Seq r) OpWrite inode 0 "" 0 "" TypeUnset 0 offset payload ""
                       (r_TimeUnix r)) in
  ret (zlen payload).

Definition Rename (env : Env) (oldParent : Z) (oldName : string) (newParent : Z)
    (newName : string) : Eng unit :=
  do* checkOpen in
  if decide (oldName = "" \/ newName = "") then throw ErrInvalidInput else
  let* _ := run_core (lookupLocked oldParent oldName) in
  do* run_core (ensureDirLocked newParent) in
  let* r := newRecord env OpRename in
  log_apply env (mkRecord (r_Seq r) OpRename 0 oldParent oldName newParent newName TypeUnset 0 0 [] ""
                   (r_TimeUnix r)).

Definition UnlinkWithInode (env : Env) (parent : Z) (name : string) : Eng Z :=
  do* checkOpen in
  let* inode := run_core (lookupLocked parent name) in
  let* w := get in
  match Nodes (core (eng w)) !! inode with
  | None => panic
  | Some node =>
      if is_dir node then throw ErrIsDir else
      let* r := newRecord env OpUnlink in
      do* log_apply env (mkRecord (r_Seq r) OpUnlink 0 parent name 0 "" TypeUnset 0 0 [] ""
                           (r_TimeUnix r)) in
      ret inode
  end.

Definition Unlink (env : Env) (parent : Z) (name : string) : Eng unit :=
  let* _ := UnlinkWithInode env parent name in ret tt.

Definition forget_state (inode : Z) (s : SnapshotState) : SnapshotState :=
  match Nodes s !! inode with
  | Some node =>
      if n_Nlink node =? 0 then
        set_Data (delete inode (Data s))
          (set_Nodes (delete inode (Nodes s)) (set_Children (delete inode (Children s)) s))
      else s
  | None => s
  end.

Definition Forget (inode : Z) : Eng unit :=
  do* checkOpen in
  modify (set_eng (fun e => set_core (forget_state inode (core e)) e)).

Definition RemoveDir (env : Env) (parent : Z) (name : string) : Eng unit :=
  do* checkOpen in
  let* inode := run_core (lookupLocked parent name) in
  let* w := get in
  match Nodes (core (eng w)) !! inode with
  | None => throw ErrNotFound
  | Some node =>
      if negb (is_dir node) then throw ErrNotDir else
      if decide (dir_of (Children (core (eng w))) inode <> ∅) then throw ErrNotEmpty else
      let* r := newRecord env OpRmdir in
      log_apply env (mkRecord (r_Seq r) OpRmdir 0 parent name 0 "" TypeUnset 0 0 [] "" (r_TimeUnix r))
  end.

Definition SetMode (env : Env) (inode mode : Z) : Eng unit :=
  do* checkOpen in
  let* w := get in
  match Nodes (core (eng w)) !! inode with
  | None => throw ErrNotFound
  | Some _ =>
      let* r := newRecord env OpChmod in
      log_apply env (mkRecord (r_Seq r) OpChmod inode 0 "" 0 "" TypeUnset mode 0 [] "" (r_TimeUnix r))
  end.

Definition SetOwner (env : Env) (inode uid gid : Z) : Eng unit :=
  do* checkOpen in
  let* w := get in
  match Nodes (core (eng w)) !! inode with
  | None => throw ErrNotFound
  | Some _ =>
      let* r := newRecord env OpChown in
      log_apply env (mkRecord (r_Seq r) OpChown inode 0 "" 0 "" TypeUnset uid gid [] "" (r_TimeUnix r))
  end.

Definition Truncate (env : Env) (inode size : Z) : Eng unit :=
  do* checkOpen in
  let* _ := run_core (fileNodeLocked inode) in
  let* r := newRecord env OpTruncate in
  log_apply env (mkRecord (r_Seq r) OpTruncate inode 0 "" 0 "" TypeUnset 0 size [] "" (r_TimeUnix r)).

Definition Fsync (env : Env) : Eng unit :=
  do* checkOpen in wal_sync env.

(** ** Snapshots and whole-state replacement *)

Definition ExportState : Eng SnapshotState :=
  do* checkOpen in
  let* w := get in
  lift_res (exportStateLocked (core (eng w))).

Definition CreateSnapshot (env : Env) (snapshotID : string) : Eng SnapshotState :=
  do* checkOpen in
  if decide (snapshotID = "") then throw ErrInvalidInput else
  let* w := get in
  let* st := lift_res (exportStateLocked (core (eng w))) in
  if env_save env
  then do* modify (set_disk (fun d => set_snaps (<[snapshotID := json_state st]> (d_snaps d)) d)) in ret st
  else throw (ErrIO "write snapshot state").

Definition RestoreSnapshot (env : Env) (snapshotID : string) : Eng unit :=
  do* checkOpen in
  let* w := get in
  match d_snaps (disk w) !! snapshotID with
  | None => throw ErrSnapshotNotFound
  | Some st =>
      let minNextSeq := u64 (NextSeq (core (eng w)) + 1) in
      let committedNext := u64 (lastCommittedManifest (eng w) + 2) in
      let minNextSeq := if minNextSeq <? committedNext then committedNext else minNextSeq in
      let st := if NextSeq st <? minNextSeq then set_NextSeq minNextSeq st else st in
      do* replaceStateLocked st in
      do* persistCurrentStateLocked env in
      do* wal_reset env in
      markDirtyLocked env
  end.

Definition ReplaceState (env : Env) (st : SnapshotState) : Eng unit :=
  do* checkOpen in
  do* replaceStateLocked st in
  do* persistCurrentStateLocked env in
  do* wal_reset env in
  markDirtyLocked env.

Definition DeleteSnapshot (env : Env) (snapshotID : string) : Eng unit :=
  do* checkOpen in
  if decide (snapshotID = "") then throw ErrInvalidInput else
  let* w := get in
  match d_snaps (disk w) !! snapshotID with
  | None => throw ErrSnapshotNotFound
  | Some _ =>
      if env_save env
      then modify (set_disk (fun d => set_snaps (delete snapshotID (d_snaps d)) d))
      else throw (ErrIO "delete snapshot state")
  end.

(** ** Materialization: the two critical sections around [materializer.Materialize] *)

(** The first one: [None] when there is nothing to do. *)
Definition SyncMaterialize_begin : Eng (option (Z * SnapshotState * Z)) :=
  do* checkOpen in
  gets (fun w =>
    let e := eng w in
    if negb cold_enabled || negb (dirty e) then None
    else Some (mutationVersion e, materializeStateLocked (core e), lastCommittedManifest e)).

(** The second one, with the manifest [Materialize] returned. *)
Definition SyncMaterialize_finish (env : Env) (version expectedManifestSeq : Z) (m : Manifest)
    : Eng unit :=
  let* w := get in
  if (mutationVersion (eng w) =? version) && (lastCommittedManifest (eng w) =? expectedManifestSeq) then
    do* match mf_State m with Some st => replaceStateLocked st | None => ret tt end in
    do* persistCurrentStateLocked env in
    do* wal_reset env in
    modify (set_eng (fun e => set_dirty false (set_lmv version (set_lcm (mf_ManifestSeq m) e))))
  else if lastCommittedManifest (eng w) <? mf_ManifestSeq m then
    modify (set_eng (set_lcm (mf_ManifestSeq m)))
  else ret tt.

Definition RefreshMaterialized_begin : Eng (option Z) :=
  do* checkOpen in
  gets (fun w =>
    let e := eng w in
    if negb cold_enabled || dirty e then None else Some (NextSeq (core e))).

(** The rest of [RefreshMaterialized], with what [LoadLatestState] returned. *)
Definition RefreshMaterialized_finish (env : Env) (currentNextSeq : Z)
    (latest : gores (SnapshotState * Manifest)) : Eng bool :=
  match latest with
  | Panic => panic
  | Err err => if errors_Is err ErrMaterializedManifestNotFound then ret false else throw err
  | Ok (st, m) =>
      if NextSeq st <=? currentNextSeq then ret false else
      do* checkOpen in
      let* w := get in
      if dirty (eng w) || (NextSeq st <=? NextSeq (core (eng w))) then ret false else
      do* replaceStateLocked st in
      do* persistCurrentStateLocked env in
      do* wal_reset env in
      do* modify (set_eng (set_lcm (mf_ManifestSeq m))) in
      ret true
  end.

(** ** Opening and closing *)

Definition replay_one (r : walRecord) : Core unit := fun s =>
  match apply r s with
  | (Ok _, s1) =>
      let s2 := if NextSeq s1 <=? r_Seq r then set_NextSeq (u64 (r_Seq r + 1)) s1 else s1 in
      let s3 := if NextInode s2 <=? r_Inode r then set_NextInode (u64 (r_Inode r + 1)) s2 else s2 in
      (Ok tt, s3)
  | (Err e, s1) => (Err (ErrReplay (r_Seq r) e), s1)
  | (Panic, s1) => (Panic, s1)
  end.

Fixpoint replay (rs : list walRecord) : Core unit :=
  match rs with
  | [] => ret tt
  | r :: rest => do* replay_one r in replay rest
  end.

Definition loadCurrentState (walPath : string) (d : Disk) : gores SnapshotState :=
  if decide (walPath = "") then Err ErrInvalidInput else
  match d_head d with Some st => Ok st | None => Err ErrSnapshotNotFound end.

Definition shouldUseMaterializedState (current : option SnapshotState) (currentErr : option error)
    (latest : SnapshotState) (walRecords : nat) : bool :=
  match currentErr with
  | Some err => errors_Is err ErrSnapshotNotFound
  | None =>
      match current with
      | None => true
      | Some cur => if (0 <? walRecords)%nat then false else NextSeq cur <? NextSeq latest
      end
  end.

Definition initialState (now : Z) : SnapshotState :=
  mkState 1 (RootInode + 1)
    {[RootInode := mkNode RootInode TypeDirectory 493 0 0 1 0 "" now now now]}
    {[RootInode := ∅]} ∅ ∅ ∅.

(** The choice [Open] makes between the local state and the materialized one: the
    state and error left, and the manifest. *)
Definition choose_state (local : gores SnapshotState) (latest : option (gores (SnapshotState * Manifest)))
    (nrecords : nat) : option SnapshotState * option error * option Manifest :=
  let state := match local with Ok st => Some st | _ => None end in
  let err := match local with Err e => Some e | _ => None end in
  match latest with
  | None => (state, err, None)
  | Some (Ok (lst, m)) =>
      if shouldUseMaterializedState state err lst nrecords then (Some lst, None, Some m)
      else (state, err, Some m)
  | Some (Err lerr) =>
      match err with
      | Some e =>
          if errors_Is e ErrSnapshotNotFound && negb (errors_Is lerr ErrMaterializedManifestNotFound)
          then (state, Some lerr, None) else (state, err, None)
      | None => (state, err, None)
      end
  | Some Panic => (state, err, None)
  end.

Definition open_err_fatal (e : error) : bool :=
  negb (errors_Is e ErrSnapshotNotFound) && negb (errors_Is e ErrMaterializedManifestNotFound).

(** The tail of [Open]: replay the log on the chosen state and collect. *)
Definition open_with (env : Env) (volID : string) (st : SnapshotState) (records : list walRecord)
    (manifest : option Manifest) (d : Disk) : gores World :=
  match replay records st with
  | (Ok _, s) =>
      let s := collectUnlinkedLocked s in
      let replayed := match records with [] => false | _ => true end in
      Ok (mkWorld
            (mkEngine volID HOpen false s (if replayed then 1 else 0)
               (match manifest with Some m => mf_ManifestSeq m | None => 0 end) 0
               replayed (if replayed then env_dirty_now env else 0)) d)
  | (Err e, _) => Err e
  | (Panic, _) => Panic
  end.

Definition Open (env : Env) (volID walPath : string)
    (latest : option (gores (SnapshotState * Manifest))) (d : Disk) : gores World :=
  if decide (volID = "") then Err ErrInvalidInput else
  if decide (walPath = "") then Err ErrInvalidInput else
  let? records := readWAL (d_wal d) in
  let? _ := match latest with Some Panic => Panic | _ => Ok tt end in
  let '(state, err, manifest) := choose_state (loadCurrentState walPath d) latest (length records) in
  match err with
  | Some e => if open_err_fatal e then Err e else open_with env volID (default (initialState (env_now env)) state) records manifest d
  | None => open_with env volID (default (initialState (env_now env)) state) records manifest d
  end.

Definition Close (env : Env) : Eng unit :=
  let* w := get in
  if closed (eng w) then ret tt else
  do* persistCurrentStateLocked env in
  do* wal_reset env in
  do* modify (set_eng (set_closed true)) in
  wal_close env.

End ops.
