(* ===== verification/S0fsInv.v ===== *)
(** * s0fs: well-formed file systems and their preservation

    [wf] is the invariant of the in-memory file system: the root is a directory,
    directories and only directories have an entry table, every entry names a node,
    and no node has more entries than its link count.  The file proves that every
    record the log can replay keeps it. *)

From stdpp Require Import base gmap strings list fin_maps numbers sorting.
From Stdlib Require Import Strings.Byte.
From S2P Require Import Prelude GoStd S0fsTypes S0fsCore.

Local Open Scope Z_scope.

(** ** The entries of all directories as one map *)

Definition flat (ch : gmap Z (gmap string Z)) : gmap (Z * string) Z :=
  map_uncurry (M1:=gmap Z) (M2:=gmap string) (M12:=gmap (Z * string)) ch.

(** The number of entries that name inode [i]. *)
Definition entry_count (i : Z) (f : gmap (Z * string) Z) : nat :=
  size (filter (fun kv : (Z * string) * Z => kv.2 = i) f).

Lemma lookup_flat ch p name : flat ch !! (p, name) = dir_of ch p !! name.
Proof.
  unfold flat, dir_of. rewrite lookup_map_uncurry.
  destruct (ch !! p); simpl; by rewrite ?lookup_empty.
Qed.

Lemma dir_of_Some ch p m : ch !! p = Some m -> dir_of ch p = m.
Proof. unfold dir_of. by intros ->. Qed.

Lemma flat_put ch p m name i :
  ch !! p = Some m -> flat (<[p := <[name := i]> m]> ch) = <[(p, name) := i]> (flat ch).
Proof.
  intros Hp. apply map_eq. intros [q n]. rewrite lookup_flat. unfold dir_of.
  destruct (decide (q = p)) as [->|Hq].
  - rewrite lookup_insert_eq. simpl. destruct (decide (n = name)) as [->|Hn].
    + by rewrite !lookup_insert_eq.
    + rewrite !lookup_insert_ne by congruence. rewrite lookup_flat. by rewrite (dir_of_Some _ _ m).
  - rewrite !lookup_insert_ne by congruence. by rewrite lookup_flat.
Qed.

Lemma flat_del ch p name : flat (alter (delete name) p ch) = delete (p, name) (flat ch).
Proof.
  apply map_eq. intros [q n]. rewrite lookup_flat. unfold dir_of.
  destruct (decide (q = p)) as [->|Hq].
  - rewrite lookup_alter_eq. destruct (decide (n = name)) as [->|Hn].
    + rewrite lookup_delete_eq. destruct (ch !! p); simpl; [apply lookup_delete_eq | apply lookup_empty].
    + rewrite (lookup_delete_ne _ (p, name)) by congruence. rewrite lookup_flat. unfold dir_of.
      destruct (ch !! p); simpl; [by rewrite lookup_delete_ne | done].
  - rewrite lookup_alter_ne by congruence. rewrite lookup_delete_ne by congruence. by rewrite lookup_flat.
Qed.

Lemma flat_empty_dir ch p : dir_of ch p = ∅ -> flat (<[p := ∅]> ch) = flat ch.
Proof.
  intros Hp. apply map_eq. intros [q n]. rewrite !lookup_flat. unfold dir_of in *.
  destruct (decide (q = p)) as [->|Hq].
  - rewrite lookup_insert_eq, Hp. done.
  - by rewrite lookup_insert_ne by congruence.
Qed.

Lemma flat_drop_dir ch p : dir_of ch p = ∅ -> flat (delete p ch) = flat ch.
Proof.
  intros Hp. apply map_eq. intros [q n]. rewrite !lookup_flat. unfold dir_of in *.
  destruct (decide (q = p)) as [->|Hq].
  - rewrite lookup_delete_eq, Hp. done.
  - by rewrite lookup_delete_ne by congruence.
Qed.

(** ** Counting entries *)

Lemma entry_count_delete (f : gmap (Z * string) Z) k i j :
  f !! k = Some i ->
  entry_count j f = (entry_count j (delete k f) + if decide (i = j) then 1 else 0)%nat.
Proof.
  intros Hk. unfold entry_count. rewrite map_filter_delete. rewrite map_size_delete.
  destruct (decide (i = j)) as [->|Hij].
  - rewrite (map_lookup_filter_Some_2 _ _ _ _ Hk) by done.
    assert (filter (fun kv : (Z * string) * Z => kv.2 = j) f <> ∅).
    { intros E. pose proof (map_lookup_filter_Some_2 (fun kv : (Z * string) * Z => kv.2 = j) f k j Hk eq_refl) as H.
      rewrite E, lookup_empty in H. done. }
    rewrite <- map_size_non_empty_iff in H. lia.
  - rewrite map_lookup_filter_None_2; [simpl; lia|].
    right. intros x Hx Hp. simpl in Hp. congruence.
Qed.

Lemma entry_count_insert_new (f : gmap (Z * string) Z) k i j :
  f !! k = None ->
  entry_count j (<[k := i]> f) = (entry_count j f + if decide (i = j) then 1 else 0)%nat.
Proof.
  intros Hk. rewrite (entry_count_delete _ k i j) by apply lookup_insert_eq.
  by rewrite delete_insert_id.
Qed.

Lemma entry_count_insert_le (f : gmap (Z * string) Z) k i j :
  (entry_count j (<[k := i]> f) <= entry_count j (delete k f) + if decide (i = j) then 1 else 0)%nat.
Proof.
  rewrite <- insert_delete_eq. rewrite entry_count_insert_new by apply lookup_delete_eq. lia.
Qed.

Lemma entry_count_delete_le (f : gmap (Z * string) Z) k j :
  (entry_count j (delete k f) <= entry_count j f)%nat.
Proof.
  destruct (f !! k) as [i|] eqn:E; [rewrite (entry_count_delete f k i j E); lia|].
  by rewrite delete_id.
Qed.

Lemma entry_count_pos (f : gmap (Z * string) Z) k i :
  f !! k = Some i -> (1 <= entry_count i f)%nat.
Proof. intros H. rewrite (entry_count_delete f k i i H), decide_True by done. lia. Qed.

(** ** The invariant *)

Definition refs (s : SnapshotState) (i : Z) : Z := Z.of_nat (entry_count i (flat (Children s))).

Record wf (s : SnapshotState) : Prop := {
  wf_next : RootInode < NextInode s < 2 ^ 64;
  wf_root : exists n, Nodes s !! RootInode = Some n /\ is_dir n = true;
  wf_node : forall i n, Nodes s !! i = Some n ->
      n_Inode n = i /\ 0 < i < NextInode s /\ 0 <= n_Nlink n < 2 ^ 32 /\ refs s i <= n_Nlink n /\
      (is_dir n = true -> n_Nlink n = 1);
  wf_dirs : forall i, is_Some (Children s !! i) <-> exists n, Nodes s !! i = Some n /\ is_dir n = true;
  wf_entry : forall p name i, dir_of (Children s) p !! name = Some i ->
      i <> RootInode /\ is_Some (Nodes s !! i);
  wf_data : forall i, is_Some (Data s !! i) -> 0 < i < NextInode s;
  wf_cold : forall i, is_Some (ColdFiles s !! i) -> 0 < i < NextInode s
}.

#[export] Hint Resolve wf_next wf_root : go.

(** On a well-formed state the lookups of a directory change nothing: the branch of
    [ensureDirLocked] that creates a missing table is dead. *)
Lemma ensureDir_wf s i :
  wf s -> ensureDirLocked i s =
    (match Nodes s !! i with
     | None => Err ErrNotFound
     | Some n => if is_dir n then Ok tt else Err ErrNotDir
     end, s).
Proof.
  intros W. unfold ensureDirLocked. destruct (Nodes s !! i) as [n|] eqn:E; [|done].
  destruct (is_dir n) eqn:D; simpl; [|done].
  destruct (proj2 (wf_dirs _ W i)) as [m ->]; eauto.
Qed.

Lemma lookup_wf s p name :
  wf s -> lookupLocked p name s =
    (match Nodes s !! p with
     | None => Err ErrNotFound
     | Some n =>
         if is_dir n then
           match dir_of (Children s) p !! name with Some i => Ok i | None => Err ErrNotFound end
         else Err ErrNotDir
     end, s).
Proof.
  intros W. unfold lookupLocked, bind. rewrite ensureDir_wf by done.
  destruct (Nodes s !! p) as [n|]; [|done]. destruct (is_dir n); simpl; [|done].
  unfold get. destruct (dir_of (Children s) p !! name); done.
Qed.

Lemma wf_dir_table s p n :
  wf s -> Nodes s !! p = Some n -> is_dir n = true ->
  Children s !! p = Some (dir_of (Children s) p).
Proof.
  intros W Hn Hd. destruct (proj2 (wf_dirs _ W p)) as [m Hm]; eauto.
  by rewrite (dir_of_Some _ _ m).
Qed.

(** ** Updates that keep the invariant *)

Lemma wf_put_node s i n n' :
  wf s -> Nodes s !! i = Some n ->
  n_Inode n' = n_Inode n -> n_Type n' = n_Type n -> n_Nlink n' = n_Nlink n ->
  wf (set_Nodes (<[i := n']> (Nodes s)) s).
Proof.
  intros W Hn HI HT HL.
  assert (HD : is_dir n' = is_dir n) by (unfold is_dir; by rewrite HT).
  assert (Hdir : forall j, (exists n0, <[i := n']> (Nodes s) !! j = Some n0 /\ is_dir n0 = true) <->
                      (exists n0, Nodes s !! j = Some n0 /\ is_dir n0 = true)).
  { intros j. destruct (decide (j = i)) as [->|Hj].
    - rewrite lookup_insert_eq, Hn. split; intros (n0 & [= <-] & H); eexists; (split; [done|congruence]).
    - by rewrite lookup_insert_ne by congruence. }
  split; simpl.
  - apply W.
  - apply Hdir, W.
  - intros j m. destruct (decide (j = i)) as [->|Hj].
    + rewrite lookup_insert_eq. intros [= <-]. rewrite HI, HL, HD. by apply (wf_node _ W).
    + rewrite lookup_insert_ne by congruence. apply (wf_node _ W).
  - intros j. rewrite Hdir. apply W.
  - intros p name j Hj. destruct (wf_entry _ W _ _ _ Hj) as [? ?]. split; [done|].
    destruct (decide (j = i)) as [->|]; [rewrite lookup_insert_eq | rewrite lookup_insert_ne by congruence]; eauto.
  - apply W.
  - apply W.
Qed.

Lemma wf_set_Data s i d :
  wf s -> is_Some (Nodes s !! i) -> wf (set_Data (<[i := d]> (Data s)) s).
Proof.
  intros W [n Hn]. destruct W. split; simpl; try done.
  intros j. destruct (decide (j = i)) as [->|Hj].
  - intros _. apply (wf_node0 _ _ Hn).
  - rewrite lookup_insert_ne by congruence. auto.
Qed.

Lemma wf_drop_Cold s i : wf s -> wf (set_ColdFiles (delete i (ColdFiles s)) s).
Proof.
  intros W. destruct W. split; simpl; try done.
  intros j. destruct (decide (j = i)) as [->|Hj].
  - rewrite lookup_delete_eq. by intros [].
  - rewrite lookup_delete_ne by congruence. auto.
Qed.

Lemma wf_set_NextSeq s q : wf s -> wf (set_NextSeq q s).
Proof. intros W. destruct W. by split. Qed.

Lemma wf_set_NextInode s i : wf s -> NextInode s <= i < 2 ^ 64 -> wf (set_NextInode i s).
Proof.
  intros W Hi. destruct W. split; simpl; try done.
  - lia.
  - intros j n Hn. destruct (wf_node0 _ _ Hn) as (? & ? & ? & ? & ?). repeat split; auto; lia.
  - intros j Hj. specialize (wf_data0 _ Hj). lia.
  - intros j Hj. specialize (wf_cold0 _ Hj). lia.
Qed.

(** Changing the entries: every node still has at most its link count of them. *)
Lemma wf_entries s ch :
  wf s ->
  (forall p, is_Some (ch !! p) <-> is_Some (Children s !! p)) ->
  (forall p name i, dir_of ch p !! name = Some i -> i <> RootInode /\ is_Some (Nodes s !! i)) ->
  (forall i n, Nodes s !! i = Some n -> Z.of_nat (entry_count i (flat ch)) <= n_Nlink n) ->
  wf (set_Children ch s).
Proof.
  intros W H1 H2 H3. destruct W. split; simpl; try done.
  - intros i n Hn. destruct (wf_node0 _ _ Hn) as (? & ? & ? & ? & ?). repeat split; auto; try lia.
    by apply H3.
  - intros i. rewrite H1. apply wf_dirs0.
Qed.

Lemma is_Some_alter_delete (ch : gmap Z (gmap string Z)) p name q :
  is_Some (alter (delete name) p ch !! q) <-> is_Some (ch !! q).
Proof.
  destruct (decide (q = p)) as [->|]; [rewrite lookup_alter_eq, fmap_is_Some; done|].
  by rewrite lookup_alter_ne by congruence.
Qed.

Lemma wf_del_child s p name : wf s -> wf (set_Children (alter (delete name) p (Children s)) s).
Proof.
  intros W. apply wf_entries; [done| | |].
  - intros q. apply is_Some_alter_delete.
  - intros q n i. rewrite <- lookup_flat, flat_del. intros [_ H]%lookup_delete_Some.
    rewrite lookup_flat in H. by apply (wf_entry _ W _ _ _ H).
  - intros i n Hn. rewrite flat_del. destruct (wf_node _ W _ _ Hn) as (_ & _ & _ & Hr & _).
    unfold refs in Hr. pose proof (entry_count_delete_le (flat (Children s)) (p, name) i). lia.
Qed.

(** ** Each record keeps the invariant *)

(** What the log guarantees of a record: a created inode is new, and neither the
    inode counter nor a link count is at the end of its range. *)
Definition record_ok (s : SnapshotState) (r : walRecord) : Prop :=
  match r_Op r with
  | OpCreate => NextInode s <= r_Inode r < 2 ^ 64 - 1
  | OpLink => forall n, Nodes s !! r_Inode r = Some n -> n_Nlink n < 2 ^ 32 - 1
  | _ => True
  end.

Lemma wf_fresh s i : wf s -> NextInode s <= i ->
  Nodes s !! i = None /\ Children s !! i = None /\ refs s i = 0.
Proof.
  intros W Hi.
  assert (HN : Nodes s !! i = None).
  { destruct (Nodes s !! i) as [n|] eqn:E; [|done]. destruct (wf_node _ W _ _ E) as (_ & ? & _). lia. }
  split; [done|]. split.
  - apply eq_None_not_Some. rewrite (wf_dirs _ W). naive_solver.
  - unfold refs. destruct (entry_count i (flat (Children s))) eqn:E; [done|]. exfalso.
    unfold entry_count in E.
    assert (Hne : filter (fun kv : (Z * string) * Z => kv.2 = i) (flat (Children s)) <> ∅).
    { intros H. rewrite H, map_size_empty in E. done. }
    apply map_choose in Hne as ([p name] & j & [Hl Hj]%map_lookup_filter_Some). simpl in Hj. subst j.
    rewrite lookup_flat in Hl. destruct (wf_entry _ W _ _ _ Hl) as [_ [? ?]]. congruence.
Qed.

(** The state after a new node [n] and its entry were added under [p]. *)
Definition add_node (p : Z) (name : string) (n : Node) (s : SnapshotState) : SnapshotState :=
  let i := n_Inode n in
  let ch := if is_dir n then <[i := ∅]> (Children s) else Children s in
  mkState (NextSeq s) (u64 (i + 1)) (<[i := n]> (Nodes s))
    (<[p := <[name := i]> (dir_of (Children s) p)]> ch) (Data s) (ColdFiles s) (Segments s).

Lemma wf_add_node s p name n :
  wf s -> NextInode s <= n_Inode n < 2 ^ 64 - 1 -> n_Nlink n = 1 ->
  (exists d, Nodes s !! p = Some d /\ is_dir d = true) ->
  dir_of (Children s) p !! name = None ->
  wf (add_node p name n s).
Proof.
  intros W Hi HL (d & Hd & Hdd) Hfree. pose proof (wf_next _ W) as Hnx.
  destruct (wf_fresh s (n_Inode n) W) as (HfN & HfC & HfR); [lia|].
  set (i := n_Inode n) in *.
  assert (Hpi : p <> i) by congruence.
  assert (Hu : u64 (i + 1) = i + 1) by (apply u64_small; unfold RootInode in *; lia).
  pose proof (wf_dir_table _ _ _ W Hd Hdd) as Hpt.
  set (ch := if is_dir n then <[i := ∅]> (Children s) else Children s).
  assert (Hch : ch !! p = Some (dir_of (Children s) p)).
  { unfold ch. destruct (is_dir n); [by rewrite lookup_insert_ne by congruence|done]. }
  assert (Hflat0 : flat ch = flat (Children s)).
  { unfold ch. destruct (is_dir n); [|done]. apply flat_empty_dir. unfold dir_of. by rewrite HfC. }
  assert (Hflat : flat (<[p := <[name := i]> (dir_of (Children s) p)]> ch) =
                  <[(p, name) := i]> (flat (Children s))) by (rewrite (flat_put ch p _ name i Hch), Hflat0; done).
  assert (Hcount : forall j, entry_count j (<[(p, name) := i]> (flat (Children s))) =
      (entry_count j (flat (Children s)) + if decide (i = j) then 1 else 0)%nat).
  { intros j. apply entry_count_insert_new. by rewrite lookup_flat. }
  unfold add_node. fold i ch. split; simpl.
  - rewrite Hu. lia.
  - destruct (wf_root _ W) as (n0 & H0 & ?). exists n0.
    rewrite lookup_insert_ne; [done|]. intros ->. congruence.
  - intros j m Hm. rewrite Hu. unfold refs; simpl. rewrite Hflat, Hcount.
    destruct (decide (i = j)) as [<-|Hj].
    + rewrite lookup_insert_eq in Hm. injection Hm as <-. rewrite HL.
      unfold refs in HfR. repeat split; try lia. unfold RootInode in *; lia.
    + rewrite lookup_insert_ne in Hm by congruence.
      destruct (wf_node _ W _ _ Hm) as (? & ? & ? & Hr & ?). unfold refs in Hr.
      repeat split; auto; lia.
  - intros j. destruct (decide (j = p)) as [->|Hjp].
    + rewrite lookup_insert_eq. split; [|by eauto]. intros _. exists d.
      by rewrite lookup_insert_ne by congruence.
    + rewrite (lookup_insert_ne _ p) by congruence. unfold ch.
      destruct (decide (j = i)) as [->|Hji].
      * rewrite lookup_insert_eq. destruct (is_dir n) eqn:D.
        -- rewrite lookup_insert_eq. split; eauto.
        -- rewrite HfC. split; [by intros []|]. intros (m & [= <-] & ?). congruence.
      * rewrite (lookup_insert_ne (Nodes s)) by congruence. rewrite <- (wf_dirs _ W).
        destruct (is_dir n); [by rewrite lookup_insert_ne by congruence|done].
  - intros q nm j. rewrite <- lookup_flat, Hflat. intros [[_ <-]|[_ H]]%lookup_insert_Some.
    + split; [unfold RootInode in *; lia|]. rewrite lookup_insert_eq. eauto.
    + rewrite lookup_flat in H. destruct (wf_entry _ W _ _ _ H) as [? [m ?]]. split; [done|].
      rewrite lookup_insert_ne by congruence. eauto.
  - intros j Hj. rewrite Hu. specialize (wf_data _ W _ Hj). lia.
  - intros j Hj. rewrite Hu. specialize (wf_cold _ W _ Hj). lia.
Qed.

(** ** What each record does on a well-formed state

    Either it fails and leaves the state as it was, or it succeeds with the state
    given. *)

Definition created_node (r : walRecord) : Node :=
  mkNode (r_Inode r) (if decide (r_Type r = TypeUnset) then TypeFile else r_Type r) (r_Mode r)
    0 0 1 0 (r_Target r) (r_TimeUnix r) (r_TimeUnix r) (r_TimeUnix r).

Definition is_directory (s : SnapshotState) (p : Z) : Prop :=
  exists d, Nodes s !! p = Some d /\ is_dir d = true.

Lemma applyCreate_cases s r :
  wf s -> NextInode s <= r_Inode r < 2 ^ 64 - 1 ->
  (exists e, applyCreate r s = (Err e, s)) \/
  (applyCreate r s = (Ok tt, add_node (r_Parent r) (r_Name r) (created_node r) s) /\
   is_directory s (r_Parent r) /\ dir_of (Children s) (r_Parent r) !! r_Name r = None /\ r_Name r <> "").
Proof.
  intros W Hi. unfold applyCreate. case_match eqn:G; [left; eauto|].
  rewrite !orb_false_iff, !Z.eqb_neq, bool_decide_eq_false in G. destruct G as [[_ _] Hnm].
  unfold bind. rewrite ensureDir_wf by done.
  destruct (Nodes s !! r_Parent r) as [d|] eqn:Hd; [|left; eauto].
  destruct (is_dir d) eqn:Hdd; [|left; eauto]. unfold get.
  destruct (dir_of (Children s) (r_Parent r) !! r_Name r) eqn:Hfree; [left; unfold throw; eauto|].
  right. split; [|unfold is_directory; eauto 10].
  destruct (wf_fresh s (r_Inode r) W) as (HfN & HfC & _); [lia|].
  assert (r_Parent r <> r_Inode r) by congruence.
  pose proof (wf_dir_table _ _ _ W Hd Hdd) as Hpt.
  fold (created_node r). unfold add_node. simpl.
  unfold modify, ret, put_node, put_child.
  destruct (is_dir (created_node r)); simpl.
  - rewrite lookup_insert_ne by congruence. rewrite Hpt. simpl.
    rewrite (proj2 (Z.leb_le _ _)) by lia. done.
  - rewrite Hpt. simpl. rewrite (proj2 (Z.leb_le _ _)) by lia. done.
Qed.

(** The state after entry [(p, name)] was added for the existing node [i]. *)
Definition link_state (p : Z) (name : string) (i : Z) (n : Node) (s : SnapshotState) : SnapshotState :=
  set_Nodes (<[i := n]> (Nodes s))
    (set_Children (<[p := <[name := i]> (dir_of (Children s) p)]> (Children s)) s).

Lemma applyLink_cases s r :
  wf s ->
  (exists e, applyLink r s = (Err e, s)) \/
  (exists n, applyLink r s = (Ok tt, link_state (r_NewParent r) (r_NewName r) (r_Inode r)
       (node_set_Ctime (r_TimeUnix r) (node_set_Nlink (u32 (n_Nlink n + 1)) n)) s) /\
     Nodes s !! r_Inode r = Some n /\ is_dir n = false /\
     is_directory s (r_NewParent r) /\ dir_of (Children s) (r_NewParent r) !! r_NewName r = None /\
     r_NewName r <> "").
Proof.
  intros W. unfold applyLink. case_match eqn:G; [left; eauto|].
  rewrite !orb_false_iff, !Z.eqb_neq, bool_decide_eq_false in G. destruct G as [[_ _] Hnm].
  unfold bind, get. destruct (Nodes s !! r_Inode r) as [n|] eqn:Hn; [|left; unfold throw; eauto].
  destruct (is_dir n) eqn:Hnd; [left; unfold throw; eauto|].
  rewrite ensureDir_wf by done.
  destruct (Nodes s !! r_NewParent r) as [d|] eqn:Hd; [|left; eauto].
  destruct (is_dir d) eqn:Hdd; [|left; eauto].
  destruct (dir_of (Children s) (r_NewParent r) !! r_NewName r) eqn:Hfree; [left; unfold throw; eauto|].
  right. exists n. split; [|unfold is_directory; eauto 10].
  pose proof (wf_dir_table _ _ _ W Hd Hdd) as Hpt.
  unfold put_child, put_node, modify. rewrite Hpt. done.
Qed.

Lemma wf_link_state s p name i n n' :
  wf s -> Nodes s !! i = Some n -> is_dir n = false -> n_Nlink n < 2 ^ 32 - 1 ->
  is_directory s p -> dir_of (Children s) p !! name = None ->
  n_Inode n' = n_Inode n -> n_Type n' = n_Type n -> n_Nlink n' = n_Nlink n + 1 ->
  wf (link_state p name i n' s).
Proof.
  intros W Hn Hnd HL (d & Hd & Hdd) Hfree HI HT HL'.
  pose proof (wf_dir_table _ _ _ W Hd Hdd) as Hpt.
  assert (Hnd' : is_dir n' = false) by (unfold is_dir in *; by rewrite HT).
  assert (Hdir : forall j, (exists n0, <[i := n']> (Nodes s) !! j = Some n0 /\ is_dir n0 = true) <->
                      (exists n0, Nodes s !! j = Some n0 /\ is_dir n0 = true)).
  { intros j. destruct (decide (j = i)) as [->|Hj].
    - rewrite lookup_insert_eq, Hn. split; intros (n0 & [= <-] & H); congruence.
    - by rewrite lookup_insert_ne by congruence. }
  pose proof (flat_put (Children s) p _ name i Hpt) as Hflat.
  assert (Hroot : i <> RootInode).
  { intros ->. destruct (wf_root _ W) as (n0 & ? & ?). congruence. }
  unfold link_state. split; simpl.
  - apply W.
  - apply Hdir, W.
  - intros j m Hm. unfold refs; simpl. rewrite Hflat, entry_count_insert_new by (by rewrite lookup_flat).
    destruct (decide (i = j)) as [<-|Hj].
    + rewrite lookup_insert_eq in Hm. injection Hm as <-.
      destruct (wf_node _ W _ _ Hn) as (? & ? & ? & Hr & ?). unfold refs in Hr.
      rewrite HI, HL', Hnd'. repeat split; try lia; done.
    + rewrite lookup_insert_ne in Hm by congruence.
      destruct (wf_node _ W _ _ Hm) as (? & ? & ? & Hr & ?). unfold refs in Hr.
      repeat split; auto; lia.
  - intros j. rewrite Hdir, <- (wf_dirs _ W).
    destruct (decide (j = p)) as [->|]; [rewrite lookup_insert_eq, Hpt; split; eauto|].
    by rewrite lookup_insert_ne by congruence.
  - intros q nm j. rewrite <- lookup_flat, Hflat. intros [[_ <-]|[_ H]]%lookup_insert_Some.
    + split; [done|]. rewrite lookup_insert_eq. eauto.
    + rewrite lookup_flat in H. destruct (wf_entry _ W _ _ _ H) as [? [m ?]]. split; [done|].
      destruct (decide (j = i)) as [->|]; [rewrite lookup_insert_eq | rewrite lookup_insert_ne by congruence]; eauto.
  - apply W.
  - apply W.
Qed.

(** The state after entry [(p, name)] was moved to [(p', name')]. *)
Definition rename_state (p : Z) (name : string) (p' : Z) (name' : string) (i : Z) (n : Node)
    (s : SnapshotState) : SnapshotState :=
  let ch := alter (delete name) p (Children s) in
  set_Nodes (<[i := n]> (Nodes s)) (set_Children (<[p' := <[name' := i]> (dir_of ch p')]> ch) s).

Lemma applyRename_cases s r :
  wf s ->
  (exists e, applyRename r s = (Err e, s)) \/
  (exists i n, applyRename r s =
       (Ok tt, rename_state (r_Parent r) (r_Name r) (r_NewParent r) (r_NewName r) i
                 (node_set_Ctime (r_TimeUnix r) n) s) /\
     dir_of (Children s) (r_Parent r) !! r_Name r = Some i /\ Nodes s !! i = Some n /\
     is_directory s (r_Parent r) /\ is_directory s (r_NewParent r)).
Proof.
  intros W. unfold applyRename, bind. rewrite lookup_wf by done.
  destruct (Nodes s !! r_Parent r) as [d|] eqn:Hd; [|left; eauto].
  destruct (is_dir d) eqn:Hdd; [|left; eauto].
  destruct (dir_of (Children s) (r_Parent r) !! r_Name r) as [i|] eqn:Hi; [|left; eauto].
  rewrite ensureDir_wf by done.
  destruct (Nodes s !! r_NewParent r) as [d'|] eqn:Hd'; [|left; eauto].
  destruct (is_dir d') eqn:Hdd'; [|left; eauto].
  right. destruct (wf_entry _ W _ _ _ Hi) as [_ [n Hn]]. exists i, n.
  split; [|unfold is_directory; eauto 10].
  unfold del_child, modify, put_child, get. simpl.
  destruct (proj2 (is_Some_alter_delete (Children s) (r_Parent r) (r_Name r) (r_NewParent r))) as [m Hm].
  { rewrite (wf_dir_table _ _ _ W Hd' Hdd'). eauto. }
  rewrite Hm. simpl. rewrite Hn. unfold put_node, modify, rename_state.
  by rewrite (dir_of_Some _ _ m Hm).
Qed.

Lemma wf_put_child_existing s p name i n :
  wf s -> Nodes s !! i = Some n -> i <> RootInode -> is_Some (Children s !! p) ->
  Z.of_nat (entry_count i (delete (p, name) (flat (Children s)))) + 1 <= n_Nlink n ->
  wf (set_Children (<[p := <[name := i]> (dir_of (Children s) p)]> (Children s)) s).
Proof.
  intros W Hn Hroot [m Hm] Hc.
  assert (Hpt : Children s !! p = Some (dir_of (Children s) p)) by (by rewrite (dir_of_Some _ _ m)).
  pose proof (flat_put (Children s) p _ name i Hpt) as Hflat.
  apply wf_entries; [done| | |].
  - intros q. destruct (decide (q = p)) as [->|]; [rewrite lookup_insert_eq, Hpt; split; eauto|].
    by rewrite lookup_insert_ne by congruence.
  - intros q nm j. rewrite <- lookup_flat, Hflat. intros [[_ <-]|[_ H]]%lookup_insert_Some; [eauto|].
    rewrite lookup_flat in H. by apply (wf_entry _ W _ _ _ H).
  - intros j nj Hj. rewrite Hflat.
    pose proof (entry_count_insert_le (flat (Children s)) (p, name) i j) as Hle.
    pose proof (entry_count_delete_le (flat (Children s)) (p, name) j) as Hdl.
    destruct (wf_node _ W _ _ Hj) as (_ & _ & _ & Hr & _). unfold refs in Hr.
    destruct (decide (i = j)) as [<-|]; [assert (nj = n) by congruence; subst nj|]; lia.
Qed.

Lemma wf_rename_state s p name p' name' i n n' :
  wf s -> dir_of (Children s) p !! name = Some i -> Nodes s !! i = Some n ->
  is_directory s p' ->
  n_Inode n' = n_Inode n -> n_Type n' = n_Type n -> n_Nlink n' = n_Nlink n ->
  wf (rename_state p name p' name' i n' s).
Proof.
  intros W Hi Hn (d & Hd & Hdd) HI HT HL. unfold rename_state.
  pose proof (wf_del_child s p name W) as W1.
  apply (wf_put_node (set_Children _ _) i n); try done.
  apply (wf_put_child_existing (set_Children _ s) p' name' i n W1); simpl; [done| | |].
  - apply (wf_entry _ W _ _ _ Hi).
  - apply is_Some_alter_delete. rewrite (wf_dir_table _ _ _ W Hd Hdd). eauto.
  - rewrite flat_del.
    pose proof (entry_count_delete_le (delete (p, name) (flat (Children s))) (p', name') i).
    rewrite <- lookup_flat in Hi. pose proof (entry_count_delete _ _ _ i Hi) as Hc.
    rewrite decide_True in Hc by done.
    destruct (wf_node _ W _ _ Hn) as (_ & _ & _ & Hr & _). unfold refs in Hr. lia.
Qed.

Definition rmdir_state (p : Z) (name : string) (i : Z) (s : SnapshotState) : SnapshotState :=
  set_Nodes (delete i (Nodes s))
    (set_Children (delete i (alter (delete name) p (Children s))) s).

Lemma applyRemoveDir_cases s r :
  wf s ->
  (exists e, applyRemoveDir r s = (Err e, s)) \/
  (exists i n, applyRemoveDir r s = (Ok tt, rmdir_state (r_Parent r) (r_Name r) i s) /\
     dir_of (Children s) (r_Parent r) !! r_Name r = Some i /\ Nodes s !! i = Some n /\
     is_dir n = true /\ dir_of (Children s) i = ∅ /\ is_directory s (r_Parent r)).
Proof.
  intros W. unfold applyRemoveDir, bind. rewrite lookup_wf by done.
  destruct (Nodes s !! r_Parent r) as [d|] eqn:Hd; [|left; eauto].
  destruct (is_dir d) eqn:Hdd; [|left; eauto].
  destruct (dir_of (Children s) (r_Parent r) !! r_Name r) as [i|] eqn:Hi; [|left; eauto].
  unfold get. destruct (Nodes s !! i) as [n|] eqn:Hn; [|left; unfold throw; eauto].
  destruct (is_dir n) eqn:Hnd; simpl; [|left; unfold throw; eauto].
  destruct (decide (dir_of (Children s) i <> ∅)) as [|Hemp]; [left; unfold throw; eauto|].
  right. exists i, n. split; [done|]. apply dec_stable in Hemp. unfold is_directory. eauto 10.
Qed.

Lemma wf_rmdir_state s p name i n :
  wf s -> dir_of (Children s) p !! name = Some i -> Nodes s !! i = Some n ->
  is_dir n = true -> dir_of (Children s) i = ∅ ->
  wf (rmdir_state p name i s).
Proof.
  intros W Hi Hn Hnd Hemp.
  destruct (wf_node _ W _ _ Hn) as (_ & _ & _ & Hr & HL). specialize (HL Hnd). unfold refs in Hr.
  pose proof Hi as Hfl. rewrite <- lookup_flat in Hfl.
  pose proof (entry_count_delete _ _ _ i Hfl) as Hc. rewrite decide_True in Hc by done.
  assert (Hpi : p <> i) by (intros ->; rewrite Hemp, lookup_empty in Hi; done).
  assert (Hemp' : dir_of (alter (delete name) p (Children s)) i = ∅).
  { unfold dir_of. rewrite lookup_alter_ne by congruence. done. }
  pose proof (wf_entry _ W _ _ _ Hi) as [Hroot _].
  unfold rmdir_state. split; simpl.
  - apply W.
  - destruct (wf_root _ W) as (n0 & ? & ?). exists n0. by rewrite lookup_delete_ne by congruence.
  - intros j m [Hj Hm]%lookup_delete_Some. destruct (wf_node _ W _ _ Hm) as (? & ? & ? & Hrj & ?).
    unfold refs in *; simpl. rewrite flat_drop_dir, flat_del by done.
    pose proof (entry_count_delete_le (flat (Children s)) (p, name) j). repeat split; auto; lia.
  - intros j. destruct (decide (j = i)) as [->|Hj].
    + rewrite !lookup_delete_eq. split; [by intros []|naive_solver].
    + rewrite !lookup_delete_ne by congruence. rewrite is_Some_alter_delete. apply (wf_dirs _ W).
  - intros q nm j. rewrite <- lookup_flat, flat_drop_dir, flat_del by done.
    intros [Hk H]%lookup_delete_Some.
    pose proof H as H'. rewrite lookup_flat in H'. destruct (wf_entry _ W _ _ _ H') as [? Hs].
    split; [done|]. destruct (decide (j = i)) as [->|]; [|by rewrite lookup_delete_ne by congruence].
    exfalso. assert (1 <= entry_count i (delete (p, name) (flat (Children s))))%nat.
    { apply (entry_count_pos _ (q, nm)). by rewrite lookup_delete_ne. }
    lia.
  - apply W.
  - apply W.
Qed.

Definition unlink_node (t : Z) (n : Node) : Node :=
  if 0 <? n_Nlink n then node_set_Ctime t (node_set_Nlink (n_Nlink n - 1) n) else n.

Definition unlink_state (p : Z) (name : string) (i : Z) (n : Node) (s : SnapshotState) : SnapshotState :=
  set_Nodes (<[i := n]> (Nodes s)) (set_Children (alter (delete name) p (Children s)) s).

Lemma applyUnlink_cases s r :
  wf s ->
  (exists e, applyUnlink r s = (Err e, s)) \/
  (exists i n, applyUnlink r s =
       (Ok tt, unlink_state (r_Parent r) (r_Name r) i (unlink_node (r_TimeUnix r) n) s) /\
     dir_of (Children s) (r_Parent r) !! r_Name r = Some i /\ Nodes s !! i = Some n /\
     is_dir n = false /\ is_directory s (r_Parent r)).
Proof.
  intros W. unfold applyUnlink, bind. rewrite lookup_wf by done.
  destruct (Nodes s !! r_Parent r) as [d|] eqn:Hd; [|left; eauto].
  destruct (is_dir d) eqn:Hdd; [|left; eauto].
  destruct (dir_of (Children s) (r_Parent r) !! r_Name r) as [i|] eqn:Hi; [|left; eauto].
  unfold get. destruct (wf_entry _ W _ _ _ Hi) as [_ [n Hn]]. rewrite Hn.
  destruct (is_dir n) eqn:Hnd; [left; unfold throw; eauto|].
  right. exists i, n. split; [|unfold is_directory; eauto 10].
  unfold del_child, modify, unlink_state, unlink_node. simpl.
  destruct (0 <? n_Nlink n); [done|]. unfold ret. f_equal.
  unfold set_Nodes; simpl. by rewrite insert_id.
Qed.

Lemma wf_unlink_state s p name i n t :
  wf s -> dir_of (Children s) p !! name = Some i -> Nodes s !! i = Some n -> is_dir n = false ->
  wf (unlink_state p name i (unlink_node t n) s).
Proof.
  intros W Hi Hn Hnd.
  destruct (wf_node _ W _ _ Hn) as (HI & HR & HL & Hr & _). unfold refs in Hr.
  pose proof Hi as Hfl. rewrite <- lookup_flat in Hfl.
  pose proof (entry_count_delete _ _ _ i Hfl) as Hc. rewrite decide_True in Hc by done.
  set (n' := unlink_node t n).
  assert (HN : n_Inode n' = i /\ n_Type n' = n_Type n /\ n_Nlink n' = n_Nlink n - 1).
  { unfold n', unlink_node. rewrite (proj2 (Z.ltb_lt 0 _)) by lia. simpl. auto. }
  destruct HN as (HI' & HT' & HL').
  assert (Hnd' : is_dir n' = false) by (unfold is_dir in *; by rewrite HT').
  assert (Hdir : forall j, (exists n0, <[i := n']> (Nodes s) !! j = Some n0 /\ is_dir n0 = true) <->
                      (exists n0, Nodes s !! j = Some n0 /\ is_dir n0 = true)).
  { intros j. destruct (decide (j = i)) as [->|Hj].
    - rewrite lookup_insert_eq, Hn. split; intros (n0 & [= <-] & H); congruence.
    - by rewrite lookup_insert_ne by congruence. }
  unfold unlink_state. split; simpl.
  - apply W.
  - apply Hdir, W.
  - intros j m Hm. unfold refs; simpl. rewrite flat_del.
    pose proof (entry_count_delete_le (flat (Children s)) (p, name) j).
    destruct (decide (j = i)) as [->|Hj].
    + rewrite lookup_insert_eq in Hm. injection Hm as <-. rewrite HI', HL', Hnd'.
      repeat split; try lia; done.
    + rewrite lookup_insert_ne in Hm by congruence.
      destruct (wf_node _ W _ _ Hm) as (? & ? & ? & Hrj & ?). unfold refs in Hrj.
      repeat split; auto; lia.
  - intros j. rewrite Hdir, is_Some_alter_delete. apply (wf_dirs _ W).
  - intros q nm j. rewrite <- lookup_flat, flat_del. intros [_ H]%lookup_delete_Some.
    rewrite lookup_flat in H. destruct (wf_entry _ W _ _ _ H) as [? [m ?]]. split; [done|].
    destruct (decide (j = i)) as [->|]; [rewrite lookup_insert_eq | rewrite lookup_insert_ne by congruence]; eauto.
  - apply W.
  - apply W.
Qed.

Section files.
Context `{CR : ColdReader}.

(** ** File contents

    The bytes of file [i]: its inline payload, or the cold one read in full. *)
Definition file_content (s : SnapshotState) (i : Z) : gores (list byte) :=
  if is_hot s i then Ok (data_of s i) else
  match Nodes s !! i with
  | None => Err ErrNotFound
  | Some n => readColdRangeLocked s i 0 (n_Size n)
  end.

(** The state in which the content [d] of a cold file has become inline. *)
Definition warm (i : Z) (d : list byte) (s : SnapshotState) : SnapshotState :=
  if is_hot s i then s
  else set_ColdFiles (delete i (ColdFiles s)) (set_Data (<[i := d]> (Data s)) s).

Lemma mutableFileData_eq s i :
  mutableFileDataLocked i s =
    match file_content s i with
    | Ok d => (Ok d, warm i d s)
    | Err e => (Err e, s)
    | Panic => (Panic, s)
    end.
Proof.
  unfold mutableFileDataLocked, file_content, warm, bind, get.
  destruct (is_hot s i); [done|]. destruct (Nodes s !! i) as [n|]; [|done].
  unfold lift_res. by destruct (readColdRangeLocked s i 0 (n_Size n)).
Qed.

Definition write_bytes (off : Z) (d cur : list byte) : gores (list byte) :=
  let end_ := u64 (off + zlen d) in
  let? cur := if zlen cur <? end_ then grow_to end_ cur else Ok cur in
  copy_at off end_ d cur.

Definition truncate_bytes (size : Z) (cur : list byte) : gores (list byte) :=
  let target := int64_of size in
  if target <? zlen cur then goslice 0 target cur
  else if zlen cur <? target then grow_to target cur
  else Ok cur.

(** File [i] with the content [d]. *)
Definition file_state (i : Z) (d : list byte) (n : Node) (s : SnapshotState) : SnapshotState :=
  set_Nodes (<[i := n]> (Nodes s)) (set_Data (<[i := d]> (Data s)) s).

(** A record that rewrites the content of file [i] with [f]. *)
Definition content_update (i t : Z) (f : list byte -> gores (list byte)) (s : SnapshotState)
    : gores unit * SnapshotState :=
  match Nodes s !! i with
  | None => (Err ErrNotFound, s)
  | Some n =>
      if is_dir n then (Err ErrIsDir, s) else
      match file_content s i with
      | Ok cur =>
          match f cur with
          | Ok new => (Ok tt, file_state i new (touch_size new t n) (warm i cur s))
          | Err e => (Err e, warm i cur s)
          | Panic => (Panic, warm i cur s)
          end
      | Err e => (Err e, s)
      | Panic => (Panic, s)
      end
  end.

Lemma warm_Nodes i d s : Nodes (warm i d s) = Nodes s.
Proof. unfold warm. by destruct (is_hot s i). Qed.

Lemma applyWrite_eq s r :
  applyWrite r s = content_update (r_Inode r) (r_TimeUnix r) (write_bytes (r_Offset r) (r_Data r)) s.
Proof.
  unfold applyWrite, content_update, fileNodeLocked, bind, get, write_bytes.
  destruct (Nodes s !! r_Inode r) as [n|] eqn:Hn; [|done]. destruct (is_dir n) eqn:Hd; [done|].
  unfold ret at 1. rewrite mutableFileData_eq. destruct (file_content s (r_Inode r)) as [cur| |]; [|done..].
  unfold lift_res.
  destruct (if zlen cur <? u64 (r_Offset r + zlen (r_Data r)) then _ else _) as [cur'| |]; [|done..].
  simpl. by destruct (copy_at _ _ _ cur').
Qed.

Lemma applyTruncate_eq s r :
  applyTruncate r s = content_update (r_Inode r) (r_TimeUnix r) (truncate_bytes (r_Offset r)) s.
Proof.
  unfold applyTruncate, content_update, fileNodeLocked, bind, get, truncate_bytes.
  destruct (Nodes s !! r_Inode r) as [n|] eqn:Hn; [|done]. destruct (is_dir n) eqn:Hd; [done|].
  unfold ret at 1. rewrite mutableFileData_eq. destruct (file_content s (r_Inode r)) as [cur| |]; [|done..].
  unfold lift_res. cbv zeta. by destruct (if int64_of (r_Offset r) <? zlen cur then _ else _).
Qed.

Lemma wf_warm s i d : wf s -> is_Some (Nodes s !! i) -> wf (warm i d s).
Proof.
  intros W H. unfold warm. destruct (is_hot s i); [done|].
  apply (wf_drop_Cold (set_Data _ s)), wf_set_Data; auto.
Qed.

Lemma wf_content_update s i t f : wf s -> wf (content_update i t f s).2.
Proof.
  intros W. unfold content_update. destruct (Nodes s !! i) as [n|] eqn:Hn; [|done].
  destruct (is_dir n); [done|]. destruct (file_content s i) as [cur| |]; [|done..].
  assert (Wc : wf (warm i cur s)) by (apply wf_warm; eauto).
  destruct (f cur); [|done..]. simpl. unfold file_state.
  apply (wf_put_node (set_Data _ _) i n); [|simpl; by rewrite warm_Nodes|done..].
  apply wf_set_Data; [done|]. rewrite warm_Nodes. eauto.
Qed.

(** Every record the log may hold keeps the invariant, whatever its outcome. *)
Lemma apply_wf s r : wf s -> record_ok s r -> wf (apply r s).2.
Proof.
  intros W Hr. unfold apply, record_ok in *. destruct (r_Op r).
  - destruct (applyCreate_cases s r W Hr) as [[e ->]|(-> & ? & ? & _)]; [done|].
    apply wf_add_node; auto.
  - rewrite applyWrite_eq. by apply wf_content_update.
  - destruct (applyLink_cases s r W) as [[e ->]|(n & -> & Hn & ? & ? & ? & _)]; [done|].
    destruct (wf_node _ W _ _ Hn) as (_ & _ & ? & _).
    apply (wf_link_state s _ _ _ n); auto; simpl. rewrite u32_small; [done|]. specialize (Hr _ Hn). lia.
  - destruct (applyRemoveDir_cases s r W) as [[e ->]|(i & n & -> & ? & ? & ? & ? & _)]; [done|].
    by eapply wf_rmdir_state.
  - destruct (applyRename_cases s r W) as [[e ->]|(i & n & -> & ? & ? & ? & ?)]; [done|].
    by eapply wf_rename_state.
  - unfold applySetMode, bind, get. destruct (Nodes s !! r_Inode r) as [n|] eqn:Hn; [|done].
    by apply (wf_put_node s _ n).
  - unfold applySetOwner, bind, get. destruct (Nodes s !! r_Inode r) as [n|] eqn:Hn; [|done].
    by apply (wf_put_node s _ n).
  - rewrite applyTruncate_eq. by apply wf_content_update.
  - destruct (applyUnlink_cases s r W) as [[e ->]|(i & n & -> & ? & ? & ? & _)]; [done|].
    by apply wf_unlink_state.
  - done.
Qed.

End files.
