(* ===== verification/S0fsSafety.v ===== *)
(** * s0fs: the invariant over every call of the engine

    [Call] lists the operations a client can issue; [exec] runs one.  The file
    proves that every call keeps a well-formed file system well formed, in memory
    and in the files, and that no call panics inside its stated bounds. *)

From stdpp Require Import base gmap strings list fin_maps numbers sorting.
From Stdlib Require Import Strings.Byte.
From S2P Require Import Prelude GoStd S0fsTypes S0fsCore S0fsEngine S0fsInv.

Local Open Scope Z_scope.

(** ** Whole-state operations keep the invariant *)

Lemma entry_count_image (f g : gmap (Z * string) Z) (h : Z * string -> Z * string) i :
  (forall k, g !! k = Some i -> exists k', f !! k' = Some i /\ h k' = k) ->
  (entry_count i g <= entry_count i f)%nat.
Proof.
  intros H. unfold entry_count. set (P := fun kv : (Z * string) * Z => kv.2 = i).
  assert (Hlen : forall m : gmap (Z * string) Z, size m = length (fst <$> map_to_list m)).
  { intros m. by rewrite length_fmap, length_map_to_list. }
  rewrite !Hlen. rewrite <- (length_fmap h (fst <$> map_to_list (filter P f))).
  apply submseteq_length, NoDup_submseteq; [apply NoDup_fst_map_to_list|].
  intros k ([k0 j] & -> & Hk)%list_elem_of_fmap. simpl.
  apply elem_of_map_to_list, map_lookup_filter_Some in Hk as [Hk Hj].
  unfold P in Hj; simpl in Hj; subst j. destruct (H _ Hk) as (k' & Hk' & <-).
  apply list_elem_of_fmap. exists k'. split; [done|]. apply list_elem_of_fmap. exists (k', i).
  split; [done|]. by apply elem_of_map_to_list, map_lookup_filter_Some.
Qed.

Lemma entry_count_submap (f g : gmap (Z * string) Z) i :
  (forall k, g !! k = Some i -> f !! k = Some i) -> (entry_count i g <= entry_count i f)%nat.
Proof. intros H. apply (entry_count_image f g id). eauto. Qed.

Lemma json_keys_lookup {V} (m : gmap string V) k v :
  json_keys m !! k = Some v -> exists k', m !! k' = Some v /\ json_string k' = k.
Proof.
  unfold json_keys. intros H%elem_of_list_to_map_2. apply list_elem_of_fmap in H as ([k' v'] & Heq & Hin).
  apply elem_of_map_to_list in Hin. unfold prod_map in Heq; simpl in Heq. naive_solver.
Qed.

Lemma wf_json_state s : wf s -> wf (json_state s).
Proof.
  intros W.
  assert (HN : forall i, (exists n, (json_node <$> Nodes s) !! i = Some n /\ is_dir n = true) <->
                    (exists n, Nodes s !! i = Some n /\ is_dir n = true)).
  { intros i. rewrite lookup_fmap. destruct (Nodes s !! i) as [n|]; simpl; [|naive_solver].
    split; intros (m & [= <-] & ?); eauto. }
  assert (HE : forall p name i, dir_of (json_keys (V:=Z) <$> Children s) p !! name = Some i ->
             exists name', dir_of (Children s) p !! name' = Some i /\ json_string name' = name).
  { intros p name i. unfold dir_of. rewrite lookup_fmap.
    destruct (Children s !! p) as [m|]; simpl; [apply json_keys_lookup|done]. }
  split; simpl.
  - apply W.
  - apply HN, W.
  - intros i m. rewrite lookup_fmap. destruct (Nodes s !! i) as [n|] eqn:E; simpl; [|done].
    intros [= <-]. destruct (wf_node _ W _ _ E) as (? & ? & ? & Hr & ?). simpl.
    repeat split; auto; try lia. unfold refs in *; simpl.
    pose proof (entry_count_image (flat (Children s)) (flat (json_keys (V:=Z) <$> Children s))
                  (prod_map id json_string) i) as Hc.
    enough (entry_count i (flat (json_keys (V:=Z) <$> Children s)) <= entry_count i (flat (Children s)))%nat by lia.
    apply Hc. intros [p name]. rewrite lookup_flat. intros (name' & Hx & <-)%HE.
    exists (p, name'). by rewrite lookup_flat.
  - intros i. rewrite lookup_fmap, fmap_is_Some, HN. apply W.
  - intros p name i (name' & H & _)%HE. destruct (wf_entry _ W _ _ _ H) as [? [n Hn]].
    split; [done|]. rewrite lookup_fmap, Hn. eauto.
  - apply W.
  - intros i. rewrite lookup_fmap, fmap_is_Some. apply W.
Qed.

(** Collecting removes no node that has an entry. *)
Lemma unlinked_no_entry s i p name :
  wf s -> unlinked s i -> dir_of (Children s) p !! name <> Some i.
Proof.
  intros W (_ & n & Hn & HL) H. destruct (wf_node _ W _ _ Hn) as (_ & _ & _ & Hr & _).
  rewrite <- lookup_flat in H. pose proof (entry_count_pos _ _ _ H). unfold refs in Hr. lia.
Qed.

Lemma unlinked_no_table s i : wf s -> unlinked s i -> Children s !! i = None.
Proof.
  intros W (_ & n & Hn & HL). apply eq_None_not_Some. rewrite (wf_dirs _ W).
  intros (m & Hm & Hd). destruct (wf_node _ W _ _ Hm) as (_ & _ & _ & _ & H1). specialize (H1 Hd).
  assert (m = n) by congruence. subst m. lia.
Qed.

Lemma collect_Children s : wf s -> Children (collectUnlinkedLocked s) = Children s.
Proof.
  intros W. simpl. apply map_filter_id. intros i m Hm Hu. simpl in Hu.
  rewrite (unlinked_no_table s i) in Hm; done.
Qed.

Lemma collect_Nodes s i :
  Nodes (collectUnlinkedLocked s) !! i = if decide (unlinked s i) then None else Nodes s !! i.
Proof.
  simpl. destruct (decide (unlinked s i)) as [H|H].
  - apply map_lookup_filter_None. right. intros n _ Hn. by apply Hn.
  - destruct (Nodes s !! i) as [n|] eqn:E.
    + by apply map_lookup_filter_Some.
    + apply map_lookup_filter_None. by left.
Qed.

Lemma wf_collect s : wf s -> wf (collectUnlinkedLocked s).
Proof.
  intros W. pose proof (collect_Children s W) as HC. pose proof (collect_Nodes s) as HN.
  assert (Hroot : ~ unlinked s RootInode) by (intros [? _]; done).
  assert (Hr : forall i, refs (collectUnlinkedLocked s) i = refs s i) by (intros; unfold refs; by rewrite HC).
  split; rewrite ?HC.
  - apply W.
  - rewrite HN, decide_False by done. apply W.
  - intros i n. rewrite HN. destruct (decide (unlinked s i)); [done|]. rewrite Hr. apply W.
  - intros i. rewrite HN. destruct (decide (unlinked s i)) as [Hu|]; [|apply W].
    rewrite (unlinked_no_table s i W Hu). split; [by intros []|naive_solver].
  - intros p name i H. destruct (wf_entry _ W _ _ _ H) as [? ?]. split; [done|].
    rewrite HN, decide_False; [done|]. intros Hu. by apply (unlinked_no_entry s i p name W Hu).
  - intros i [d [H _]%map_lookup_filter_Some]. apply (wf_data _ W). eauto.
  - intros i [d [H _]%map_lookup_filter_Some]. apply (wf_cold _ W). eauto.
Qed.

Lemma wf_forget s i : wf s -> wf (forget_state i s).
Proof.
  intros W. unfold forget_state. destruct (Nodes s !! i) as [n|] eqn:Hn; [|done].
  destruct (n_Nlink n =? 0) eqn:HL; [|done]. apply Z.eqb_eq in HL.
  assert (Hi : i <> RootInode).
  { intros ->. destruct (wf_root _ W) as (m & Hm & Hd).
    destruct (wf_node _ W _ _ Hm) as (_ & _ & _ & _ & H1). specialize (H1 Hd). congruence. }
  assert (Hu : unlinked s i) by (split; eauto).
  pose proof (unlinked_no_table s i W Hu) as HT.
  assert (HC : delete i (Children s) = Children s) by (by apply delete_id).
  split; simpl; rewrite ?HC.
  - apply W.
  - destruct (wf_root _ W) as (m & Hm & Hd). exists m. by rewrite lookup_delete_ne by congruence.
  - intros j m [_ Hm]%lookup_delete_Some. pose proof (wf_node _ W _ _ Hm) as Hw.
    unfold refs in *. simpl. by rewrite ?HC.
  - intros j. destruct (decide (j = i)) as [->|].
    + rewrite lookup_delete_eq, HT. split; [by intros []|naive_solver].
    + rewrite lookup_delete_ne by congruence. apply W.
  - intros p name j H. destruct (wf_entry _ W _ _ _ H) as [? ?]. split; [done|].
    rewrite lookup_delete_ne; [done|]. intros <-. by apply (unlinked_no_entry s i p name W Hu).
  - intros j [d [_ H]%lookup_delete_Some]. apply (wf_data _ W). eauto.
  - apply W.
Qed.

Lemma wf_replace s :
  wf s ->
  wf (collectUnlinkedLocked
       (set_NextInode (if NextInode s <=? RootInode then RootInode + 1 else NextInode s)
          (set_NextSeq (if NextSeq s =? 0 then 1 else NextSeq s) s))).
Proof.
  intros W. pose proof (wf_next _ W). apply wf_collect.
  rewrite (proj2 (Z.leb_gt _ _)) by lia. apply wf_set_NextInode; [by apply wf_set_NextSeq|simpl; lia].
Qed.

Section export_wf.
Context `{CR : ColdReader}.

Lemma export_loop_keys s js acc d :
  export_loop s js acc = Ok d ->
  forall i, is_Some (d !! i) -> is_Some (acc !! i) \/ is_Some (Nodes s !! i).
Proof.
  revert acc. induction js as [|j js IH]; intros acc; simpl; [naive_solver|].
  destruct (Nodes s !! j) as [n|] eqn:Hj; [|by apply IH].
  destruct (readColdRangeLocked s j 0 (n_Size n)) as [p| |]; simpl; [|done..].
  intros H i Hi. destruct (IH _ H i Hi) as [Ha|?]; [|by right].
  destruct (decide (i = j)) as [->|]; [right; eauto|].
  rewrite lookup_insert_ne in Ha by congruence. by left.
Qed.

Lemma wf_export s s' : wf s -> exportStateLocked s = Ok s' -> wf s'.
Proof.
  intros W. unfold exportStateLocked. destruct (decide (ColdFiles s = ∅)) as [Hc|Hc].
  - intros [= <-]. destruct W. by split.
  - destruct (export_loop _ _ _) as [d| |] eqn:E; simpl; [|done..]. intros [= <-].
    pose proof (export_loop_keys _ _ _ _ E) as HK. split; simpl; try apply W.
    + intros i Hi. destruct (HK i Hi) as [?|[n Hn]]; [by apply (wf_data _ W)|]. apply (wf_node _ W _ _ Hn).
    + intros i. rewrite lookup_empty. by intros [].
Qed.
End export_wf.

(** ** Calls *)

Inductive Call :=
| CLookup (parent : Z) (name : string)
| CGetAttr (inode : Z)
| CReadDir (inode : Z)
| CMkdir (parent : Z) (name : string) (mode : Z)
| CCreateFile (parent : Z) (name : string) (mode : Z)
| CSymlink (parent : Z) (name target : string) (mode : Z)
| CLink (inode newParent : Z) (newName : string)
| CWrite (inode offset : Z) (payload : list byte)
| CRead (inode offset size : Z)
| CReadInto (inode offset n : Z)
| CRename (oldParent : Z) (oldName : string) (newParent : Z) (newName : string)
| CUnlink (parent : Z) (name : string)
| CForget (inode : Z)
| CRemoveDir (parent : Z) (name : string)
| CSetMode (inode mode : Z)
| CSetOwner (inode uid gid : Z)
| CTruncate (inode size : Z)
| CFsync
| CExportState
| CCreateSnapshot (id : string)
| CRestoreSnapshot (id : string)
| CReplaceState (st : SnapshotState)
| CDeleteSnapshot (id : string)
| CSyncFinish (version expected : Z) (m : Manifest)
| CRefreshFinish (seq : Z) (latest : gores (SnapshotState * Manifest))
| CClose.

Definition void {E S A} (m : ST E S A) : ST E S unit := bind m (fun _ => ret tt).

Section calls.
Context `{CR : ColdReader}.

Definition exec (env : Env) (c : Call) : Eng unit :=
  match c with
  | CLookup p n => void (Lookup p n)
  | CGetAttr i => void (GetAttr i)
  | CReadDir i => void (ReadDir i)
  | CMkdir p n m => void (Mkdir env p n m)
  | CCreateFile p n m => void (CreateFile env p n m)
  | CSymlink p n t m => void (Symlink env p n t m)
  | CLink i p n => void (Link env i p n)
  | CWrite i o d => void (Write env i o d)
  | CRead i o k => void (Read i o k)
  | CReadInto i o k => void (ReadInto i o k)
  | CRename p n p' n' => Rename env p n p' n'
  | CUnlink p n => Unlink env p n
  | CForget i => Forget i
  | CRemoveDir p n => RemoveDir env p n
  | CSetMode i m => SetMode env i m
  | CSetOwner i u g => SetOwner env i u g
  | CTruncate i k => Truncate env i k
  | CFsync => Fsync env
  | CExportState => void ExportState
  | CCreateSnapshot id => void (CreateSnapshot env id)
  | CRestoreSnapshot id => RestoreSnapshot env id
  | CReplaceState st => ReplaceState env st
  | CDeleteSnapshot id => DeleteSnapshot env id
  | CSyncFinish v x m => SyncMaterialize_finish env v x m
  | CRefreshFinish q l => void (RefreshMaterialized_finish env q l)
  | CClose => Close env
  end.

(** ** The invariant of a world *)

Record world_ok (w : World) : Prop := {
  ok_core : wf (core (eng w));
  ok_head : forall st, d_head (disk w) = Some st -> wf st;
  ok_snaps : forall id st, d_snaps (disk w) !! id = Some st -> wf st
}.

(** The counters are not at the end of their range. *)
Definition headroom (w : World) : Prop :=
  NextInode (core (eng w)) < 2 ^ 64 - 1 /\
  forall i n, Nodes (core (eng w)) !! i = Some n -> n_Nlink n < 2 ^ 32 - 1.

(** The states a caller hands in are well formed. *)
Definition call_ok (c : Call) : Prop :=
  match c with
  | CReplaceState st => wf st
  | CSyncFinish _ _ m => forall st, mf_State m = Some st -> wf st
  | CRefreshFinish _ (Ok (st, _)) => wf st
  | _ => True
  end.

(** The world after [newRecord]. *)
Definition numbered (w : World) : World :=
  set_eng (set_core (set_NextSeq (u64 (NextSeq (core (eng w)) + 1)) (core (eng w)))) w.

(** ** Symbolic execution of a call: guards leave the world as it is *)

Definition ends {A} (m : Eng A) (w : World) : Prop := world_ok (m w).2.

Lemma world_core_eta w : set_eng (set_core (core (eng w))) w = w.
Proof. by destruct w as [[] ?]. Qed.

Lemma run_core_guard {A} (m : Core A) w r :
  m (core (eng w)) = (r, core (eng w)) -> run_core m w = (r, w).
Proof. unfold run_core. intros ->. by rewrite world_core_eta. Qed.

Lemma checkOpen_eq w : checkOpen w = (if closed (eng w) then Err ErrClosed else Ok tt, w).
Proof. unfold checkOpen. by destruct (closed (eng w)). Qed.

Lemma fileNode_eq s i :
  fileNodeLocked i s =
    (match Nodes s !! i with
     | None => Err ErrNotFound
     | Some n => if is_dir n then Err ErrIsDir else Ok n
     end, s).
Proof. unfold fileNodeLocked, bind, get. destruct (Nodes s !! i) as [n|]; [|done]. by destruct (is_dir n). Qed.

Lemma ends_guard {A B} (m : Eng A) (k : A -> Eng B) w r :
  m w = (r, w) -> world_ok w -> (forall a, r = Ok a -> ends (k a) w) -> ends (bind m k) w.
Proof. unfold ends, bind. intros -> W H. destruct r; auto. Qed.

Lemma ends_seq {A B} (m : Eng A) (k : A -> Eng B) w :
  ends m w -> (forall a w', m w = (Ok a, w') -> world_ok w' -> ends (k a) w') -> ends (bind m k) w.
Proof. unfold ends, bind. destruct (m w) as [[a|e|] w'] eqn:E; simpl; auto. Qed.

Lemma ends_void {A} (m : Eng A) w : ends m w -> ends (void m) w.
Proof. intros H. by apply ends_seq. Qed.

Lemma ok_set_core w s : world_ok w -> wf s -> world_ok (set_eng (set_core s) w).
Proof. intros [] ?. by split. Qed.

Lemma log_apply_ends env r w :
  world_ok w -> record_ok (core (eng w)) r -> ends (log_apply env r) w.
Proof.
  intros W Hr. unfold log_apply.
  assert (Ha : forall w', (exists x, wal_append env r w = (x, w')) ->
             core (eng w') = core (eng w) /\ world_ok w').
  { intros w' [x H]. unfold wal_append in H. destruct W.
    destruct (walHandle (eng w)); simplify_eq; [split; [done|by split]| |split; [done|by split]].
    destruct (env_append env) as [|[]]; simplify_eq; (split; [done|by split]). }
  apply ends_seq.
  - unfold ends. destruct (wal_append env r w) as [x w'] eqn:E. simpl. apply Ha. eauto.
  - intros [] w' E _. destruct (Ha w') as [Hc W']; [eauto|]. apply ends_seq.
    + unfold ends, run_core. destruct (apply r (core (eng w'))) as [x s] eqn:E'. simpl.
      apply ok_set_core; [done|]. replace s with (apply r (core (eng w'))).2 by (by rewrite E').
      apply apply_wf; [apply W'|by rewrite Hc].
    + intros [] w'' _ []. by split.
Qed.

Lemma ends_newRecord {B} env op (k : walRecord -> Eng B) w :
  world_ok w -> headroom w ->
  (forall r w', world_ok w' -> headroom w' ->
     (exists q, core (eng w') = set_NextSeq q (core (eng w))) -> ends (k r) w') ->
  ends (bind (newRecord env op) k) w.
Proof.
  intros W H Hk. eapply ends_seq; unfold ends, newRecord; simpl.
  - apply ok_set_core; [done|]. apply wf_set_NextSeq, W.
  - intros r w' [= <- <-] W'. apply Hk; [done|done|]. simpl. eauto.
Qed.

Lemma persist_ends env w : world_ok w -> ends (persistCurrentStateLocked env) w.
Proof.
  intros [W1 W2 W3]. unfold ends, persistCurrentStateLocked. destruct (env_save env); [|done].
  split; simpl; [done| |done]. intros st [= <-]. by apply wf_json_state.
Qed.

Lemma reset_ends env w : world_ok w -> ends (wal_reset env) w.
Proof.
  intros []. unfold ends, wal_reset. destruct (walHandle (eng w)), (env_reset env); by split.
Qed.

Lemma replace_ends st w : world_ok w -> wf st -> ends (replaceStateLocked st) w.
Proof. intros W Hst. apply ok_set_core; [done|]. by apply wf_replace. Qed.

(** Symbolic execution of one statement. *)
Ltac ends_step :=
  lazymatch goal with
  | |- ends (bind checkOpen _) _ =>
      eapply ends_guard; [apply checkOpen_eq | assumption | intros ? _]
  | |- ends (bind get _) _ =>
      eapply ends_guard; [reflexivity | assumption | intros ? [= <-]]
  | |- ends (bind (gets _) _) _ =>
      eapply ends_guard; [reflexivity | assumption | intros ? [= <-]]
  | |- ends (bind (run_core (ensureDirLocked _)) _) _ =>
      eapply ends_guard; [apply run_core_guard, ensureDir_wf, ok_core; assumption | assumption | intros ? _]
  | |- ends (bind (run_core (lookupLocked _ _)) _) _ =>
      eapply ends_guard; [apply run_core_guard, lookup_wf, ok_core; assumption | assumption | intros ? _]
  | |- ends (bind (run_core (fileNodeLocked _)) _) _ =>
      eapply ends_guard; [apply run_core_guard, fileNode_eq | assumption | intros ? _]
  | |- ends (bind (newRecord _ _) _) _ =>
      apply ends_newRecord; [assumption | assumption | intros ? ? ? ? [? ?]]
  | |- ends (bind (log_apply _ _) _) _ =>
      eapply ends_seq; [apply log_apply_ends; [assumption|] | intros ? ? _ ?]
  | |- ends (log_apply _ _) _ => apply log_apply_ends; [assumption|]
  | |- ends (bind (persistCurrentStateLocked _) _) _ =>
      eapply ends_seq; [by apply persist_ends | intros ? ? _ ?]
  | |- ends (bind (wal_reset _) _) _ => eapply ends_seq; [by apply reset_ends | intros ? ? _ ?]
  | |- ends (bind (lift_res _) _) _ => eapply ends_guard; [reflexivity | assumption | intros ? ?]
  | |- ends (if ?b then _ else _) _ => destruct b
  | |- ends (match ?x with _ => _ end) _ => destruct x eqn:?
  | |- ends (throw _) _ => assumption
  | |- ends (ret _) _ => assumption
  | |- ends panic _ => assumption
  | |- ends (gets _) _ => assumption
  | |- ends (lift_res _) _ => assumption
  | |- ends (markDirtyLocked _) ?w => match goal with H : world_ok w |- _ => destruct H; by split end
  end.

Lemma create_ends env p n t m tgt w : world_ok w -> headroom w -> ends (create env p n t m tgt) w.
Proof.
  intros W H. unfold create. repeat ends_step.
  unfold record_ok; simpl. pose proof (wf_next _ (ok_core _ H0)). destruct H1. lia.
Qed.

Lemma restore_ends env w st : world_ok w -> wf st ->
  ends (do* replaceStateLocked st in do* persistCurrentStateLocked env in
        do* wal_reset env in markDirtyLocked env) w.
Proof.
  intros W Hst. eapply ends_seq; [by apply replace_ends|intros ? ? _ ?]. repeat ends_step.
Qed.

Lemma modify_ends (f : Engine -> Engine) w :
  world_ok w -> (forall e, core (f e) = core e) -> ends (modify (set_eng f)) w.
Proof. intros [W1 W2 W3] Hf. split; simpl; [by rewrite Hf|done|done]. Qed.

Lemma sync_ends env v x m w :
  world_ok w -> (forall st, mf_State m = Some st -> wf st) ->
  ends (SyncMaterialize_finish env v x m) w.
Proof.
  intros W Hm. unfold SyncMaterialize_finish. do 2 ends_step.
  - eapply (ends_seq (match mf_State m with Some _ => _ | None => _ end)).
    + destruct (mf_State m); [apply replace_ends; auto|done].
    + intros ? ? _ ?. ends_step. ends_step. by apply modify_ends.
  - ends_step; [by apply modify_ends|done].
Qed.

Lemma refresh_ends env q latest w :
  world_ok w -> call_ok (CRefreshFinish q latest) -> ends (RefreshMaterialized_finish env q latest) w.
Proof.
  intros W Hm. unfold RefreshMaterialized_finish. destruct latest as [[st m]|e|]; simpl in Hm.
  - ends_step; [done|]. ends_step. ends_step. ends_step; [done|].
    eapply ends_seq; [by apply replace_ends|intros ? ? _ ?]. ends_step. ends_step.
    eapply ends_seq; [by apply modify_ends|intros ? ? _ ?]. done.
  - by ends_step.
  - done.
Qed.

Lemma close_ends env w : world_ok w -> ends (Close env) w.
Proof.
  intros W. unfold Close. ends_step. ends_step; [done|]. ends_step. ends_step.
  eapply ends_seq; [by apply modify_ends|intros ? ? _ W'].
  destruct W'. unfold ends, wal_close. destruct (walHandle _), (env_close env); by split.
Qed.

Lemma exec_ok env c w :
  world_ok w -> headroom w -> call_ok c -> world_ok (exec env c w).2.
Proof.
  intros W H Hc. change (ends (exec env c) w). destruct c; simpl in *.
  - apply ends_void. unfold Lookup. repeat ends_step.
  - apply ends_void. unfold GetAttr. repeat ends_step.
  - apply ends_void. unfold ReadDir. repeat ends_step.
  - by apply ends_void, create_ends.
  - by apply ends_void, create_ends.
  - apply ends_void. unfold Symlink. ends_step; [done|by apply create_ends].
  - apply ends_void. unfold Link. repeat ends_step.
    unfold record_ok; simpl. destruct H1 as [_ H1]. eauto.
  - apply ends_void. unfold Write. repeat ends_step. done.
  - apply ends_void. unfold Read. repeat ends_step.
  - apply ends_void. unfold ReadInto. repeat ends_step.
  - unfold Rename. repeat ends_step. done.
  - unfold Unlink, UnlinkWithInode. apply ends_void. repeat ends_step. done.
  - unfold Forget. ends_step. destruct W as [W1 W2 W3]. split; [by apply wf_forget|done|done].
  - unfold RemoveDir. repeat ends_step. done.
  - unfold SetMode. repeat ends_step. done.
  - unfold SetOwner. repeat ends_step. done.
  - unfold Truncate. repeat ends_step. done.
  - unfold Fsync. ends_step. unfold ends, wal_sync. destruct (walHandle (eng w)), (env_sync env); done.
  - apply ends_void. unfold ExportState. repeat ends_step.
  - apply ends_void. unfold CreateSnapshot. ends_step. ends_step; [done|]. ends_step. ends_step.
    destruct (env_save env); [|done].
    destruct W as [W1 W2 W3]. split; simpl; [done|done|].
    intros j st [[<- <-]|[_ Hj]]%lookup_insert_Some; [|eauto].
    apply wf_json_state. by eapply wf_export.
  - unfold RestoreSnapshot. do 2 ends_step. destruct (d_snaps (disk w) !! id) as [st|] eqn:Hst; [|done].
    apply restore_ends; [done|]. pose proof (ok_snaps _ W _ _ Hst).
    destruct (NextSeq st <? _); [by apply wf_set_NextSeq|done].
  - unfold ReplaceState. ends_step. by apply restore_ends.
  - unfold DeleteSnapshot. ends_step. ends_step; [done|]. ends_step. ends_step; [|done]. ends_step; [|done].
    destruct W as [W1 W2 W3]. split; simpl; [done|done|].
    intros j st [_ Hj]%lookup_delete_Some. eauto.
  - by apply sync_ends.
  - apply ends_void. by apply refresh_ends.
  - by apply close_ends.
Qed.

(** ** Panics *)

(** Offsets and sizes stay below the largest slice length. *)
Definition record_bounds (r : walRecord) : Prop :=
  match r_Op r with
  | OpWrite => 0 <= r_Offset r /\ r_Offset r + zlen (r_Data r) <= maxInt
  | OpTruncate => 0 <= r_Offset r <= maxInt
  | _ => True
  end.

Definition call_bounds (c : Call) : Prop :=
  match c with
  | CWrite _ off d => 0 <= off /\ off + zlen d <= maxInt
  | CTruncate _ size => 0 <= size <= maxInt
  | CRead _ off size | CReadInto _ off size => 0 <= off /\ 0 <= size /\ off + size < 2 ^ 64
  | CRefreshFinish _ latest => latest <> Panic
  | _ => True
  end.

Lemma grow_to_ok n l :
  0 <= n <= maxInt -> zlen l <= n ->
  grow_to n l = Ok (l ++ replicate (Z.to_nat (n - zlen l)) x00).
Proof.
  intros Hn Hl. unfold grow_to.
  rewrite (proj2 (Z.ltb_ge n 0)), (proj2 (Z.ltb_ge maxInt n)) by lia. simpl.
  unfold splice. simpl. rewrite drop_replicate. do 3 f_equal. unfold zlen. lia.
Qed.

(** The content after a write: the payload over the old bytes, zeros in between. *)
Definition written (off : Z) (d cur : list byte) : list byte :=
  splice off d (cur ++ replicate (Z.to_nat (off + zlen d - zlen cur)) x00).

Lemma write_bytes_ok off d cur :
  0 <= off -> off + zlen d <= maxInt -> write_bytes off d cur = Ok (written off d cur).
Proof.
  intros H0 H1. unfold write_bytes, written. pose proof (zlen_nonneg d). pose proof (zlen_nonneg cur).
  rewrite u64_small by (unfold maxInt in H1; lia).
  set (cur' := cur ++ replicate (Z.to_nat (off + zlen d - zlen cur)) x00).
  assert (Hc : (if zlen cur <? off + zlen d then grow_to (off + zlen d) cur else Ok cur) = Ok cur').
  { unfold cur'. destruct (zlen cur <? off + zlen d) eqn:E.
    - apply Z.ltb_lt in E. apply grow_to_ok; lia.
    - apply Z.ltb_ge in E. replace (Z.to_nat (off + zlen d - zlen cur)) with 0%nat by lia.
      simpl. by rewrite app_nil_r. }
  assert (Hl : off + zlen d <= zlen cur').
  { unfold cur'. autorewrite with go. lia. }
  rewrite Hc. simpl. unfold copy_at. rewrite goslice_ok by lia. simpl. f_equal. f_equal.
  apply take_ge. pose proof (zlen_subslice off (off + zlen d) cur') as Hs. unfold zlen in *. lia.
Qed.

Lemma truncate_bytes_ok size cur :
  0 <= size <= maxInt ->
  truncate_bytes size cur = Ok (take (Z.to_nat size) cur ++ replicate (Z.to_nat (size - zlen cur)) x00).
Proof.
  intros H. unfold truncate_bytes. pose proof (zlen_nonneg cur). unfold int64_of.
  rewrite (proj2 (Z.ltb_lt size _)) by (unfold maxInt in H; lia).
  destruct (size <? zlen cur) eqn:E1; [|destruct (zlen cur <? size) eqn:E2].
  - apply Z.ltb_lt in E1. rewrite goslice_ok by lia. unfold subslice. rewrite Z.sub_0_r. simpl.
    replace (Z.to_nat (size - zlen cur)) with 0%nat by lia. simpl. by rewrite app_nil_r, drop_0.
  - apply Z.ltb_lt in E2. rewrite grow_to_ok by lia. rewrite take_ge; [done|]. unfold zlen in *; lia.
  - apply Z.ltb_ge in E1, E2. replace (Z.to_nat (size - zlen cur)) with 0%nat by lia.
    simpl. rewrite app_nil_r, take_ge; [done|]. unfold zlen in *; lia.
Qed.

(** The reader of cold segments does not panic. *)
Definition cold_quiet : Prop := forall g off n, ReadSegmentRange g off n <> Panic.

Lemma cold_loop_quiet : cold_quiet -> forall segs a b xs fo rem out,
  cold_loop segs a b xs fo rem out <> Panic.
Proof.
  intros Q segs a b xs. induction xs as [|x xs IH]; intros fo rem out; simpl; [done|].
  destruct (_ || _); [apply IH|]. destruct (segs !! x_SegmentID x) as [g|]; [|done].
  pose proof (Q g (int64_of (u64 (x_Offset x + (maxUint64 a fo - fo))))
    (int64_of (u64 (minUint64 b (u64 (fo + x_Length x)) - maxUint64 a fo)))) as Hq.
  destruct (ReadSegmentRange _ _ _) as [ch|e|]; simpl; [|done|done].
  destruct (_ =? 0); [done|apply IH].
Qed.

Lemma readCold_quiet s i off n : cold_quiet -> readColdRangeLocked s i off n <> Panic.
Proof.
  intros Q. unfold readColdRangeLocked. destruct (negb cold_enabled); [done|].
  destruct (cold_of s i); [done|]. by apply cold_loop_quiet.
Qed.

Lemma file_content_quiet s i : cold_quiet -> file_content s i <> Panic.
Proof.
  intros Q. unfold file_content. destruct (is_hot s i); [done|].
  destruct (Nodes s !! i); [|done]. by apply readCold_quiet.
Qed.

Lemma content_update_quiet s i t f :
  cold_quiet -> (forall cur, f cur <> Panic) -> (content_update i t f s).1 <> Panic.
Proof.
  intros Q Hf. unfold content_update. destruct (Nodes s !! i) as [n|]; [|done].
  destruct (is_dir n); [done|]. pose proof (file_content_quiet s i Q).
  destruct (file_content s i) as [cur| |]; [|done|done]. specialize (Hf cur). by destruct (f cur).
Qed.

Lemma apply_quiet s r :
  cold_quiet -> wf s -> record_ok s r -> record_bounds r -> (apply r s).1 <> Panic.
Proof.
  intros Q W Hr Hb. unfold apply, record_ok, record_bounds in *. destruct (r_Op r).
  - by destruct (applyCreate_cases s r W Hr) as [[e ->]|(-> & _)].
  - rewrite applyWrite_eq. apply content_update_quiet; [done|]. intros cur. by rewrite write_bytes_ok by lia.
  - by destruct (applyLink_cases s r W) as [[e ->]|(n & -> & _)].
  - by destruct (applyRemoveDir_cases s r W) as [[e ->]|(i & n & -> & _)].
  - by destruct (applyRename_cases s r W) as [[e ->]|(i & n & -> & _)].
  - unfold applySetMode, bind, get. by destruct (Nodes s !! r_Inode r).
  - unfold applySetOwner, bind, get. by destruct (Nodes s !! r_Inode r).
  - rewrite applyTruncate_eq. apply content_update_quiet; [done|]. intros cur. by rewrite truncate_bytes_ok by lia.
  - by destruct (applyUnlink_cases s r W) as [[e ->]|(i & n & -> & _)].
  - done.
Qed.

Definition quiet {A} (m : Eng A) (w : World) : Prop := (m w).1 <> Panic.

Lemma quiet_guard {A B} (m : Eng A) (k : A -> Eng B) w r :
  m w = (r, w) -> r <> Panic -> (forall a, r = Ok a -> quiet (k a) w) -> quiet (bind m k) w.
Proof. unfold quiet, bind. intros -> Hp H. destruct r; simpl; auto. Qed.

Lemma quiet_seq {A B} (m : Eng A) (k : A -> Eng B) w :
  quiet m w -> (forall a w', m w = (Ok a, w') -> quiet (k a) w') -> quiet (bind m k) w.
Proof. unfold quiet, bind. destruct (m w) as [[a|e|] w'] eqn:E; simpl; auto. Qed.

Lemma quiet_void {A} (m : Eng A) w : quiet m w -> quiet (void m) w.
Proof. intros H. by apply quiet_seq. Qed.

Lemma quiet_newRecord {B} env op (k : walRecord -> Eng B) w :
  world_ok w -> headroom w ->
  (forall r w', world_ok w' -> headroom w' -> quiet (k r) w') ->
  quiet (bind (newRecord env op) k) w.
Proof.
  intros W H Hk. eapply quiet_seq; [done|]. unfold newRecord. intros r w' [= <- <-].
  apply Hk; [|done]. apply ok_set_core; [done|]. apply wf_set_NextSeq, W.
Qed.

Lemma log_apply_quiet env r w :
  cold_quiet -> world_ok w -> record_ok (core (eng w)) r -> record_bounds r -> quiet (log_apply env r) w.
Proof.
  intros Q W Hr Hb. apply quiet_seq.
  - unfold quiet, wal_append. destruct (walHandle (eng w)); try done. by destruct (env_append env) as [|[]].
  - intros [] w' E. assert (Hc : core (eng w') = core (eng w)).
    { unfold wal_append in E. destruct (walHandle (eng w)); simplify_eq.
      by destruct (env_append env) as [|[]]; simplify_eq. }
    apply quiet_seq; [|done]. unfold quiet, run_core.
    pose proof (apply_quiet (core (eng w')) r Q) as Hq. rewrite Hc in *.
    destruct (apply r (core (eng w))) as [x s']. apply Hq; [apply W|done|done].
Qed.

Lemma persist_quiet env w : quiet (persistCurrentStateLocked env) w.
Proof. unfold quiet, persistCurrentStateLocked. by destruct (env_save env). Qed.

Lemma reset_quiet env w : quiet (wal_reset env) w.
Proof. unfold quiet, wal_reset. by destruct (walHandle (eng w)), (env_reset env). Qed.

Ltac quiet_step :=
  lazymatch goal with
  | |- quiet (bind checkOpen _) _ =>
      eapply quiet_guard; [apply checkOpen_eq | by destruct (closed _) | intros ? _]
  | |- quiet (bind get _) _ => eapply quiet_guard; [reflexivity | done | intros ? [= <-]]
  | |- quiet (bind (gets _) _) _ => eapply quiet_guard; [reflexivity | done | intros ? [= <-]]
  | |- quiet (bind (run_core (ensureDirLocked _)) _) _ =>
      eapply quiet_guard; [apply run_core_guard, ensureDir_wf, ok_core; assumption | by repeat case_match | intros ? _]
  | |- quiet (bind (run_core (lookupLocked _ _)) _) _ =>
      eapply quiet_guard; [apply run_core_guard, lookup_wf, ok_core; assumption | by repeat case_match | intros ? Hlk]
  | |- quiet (bind (run_core (fileNodeLocked _)) _) _ =>
      eapply quiet_guard; [apply run_core_guard, fileNode_eq | by repeat case_match | intros ? _]
  | |- quiet (bind (newRecord _ _) _) _ =>
      apply quiet_newRecord; [assumption | assumption | intros ? ? ? ?]
  | |- quiet (bind (log_apply _ _) _) _ =>
      eapply quiet_seq; [apply log_apply_quiet; [assumption|assumption| |] | intros ? ? _]
  | |- quiet (log_apply _ _) _ => apply log_apply_quiet; [assumption|assumption| |]
  | |- quiet (bind (persistCurrentStateLocked _) _) _ => eapply quiet_seq; [apply persist_quiet | intros ? ? _]
  | |- quiet (bind (wal_reset _) _) _ => eapply quiet_seq; [apply reset_quiet | intros ? ? _]
  | |- quiet (bind (modify _) _) _ => eapply quiet_seq; [done | intros ? ? _]
  | |- quiet (bind (replaceStateLocked _) _) _ => eapply quiet_seq; [done | intros ? ? _]
  | |- quiet (if ?b then _ else _) _ => destruct b
  | |- quiet (match ?x with _ => _ end) _ => destruct x eqn:?
  | |- quiet _ _ => done
  end.

Lemma create_quiet env p n t m tgt w :
  cold_quiet -> world_ok w -> headroom w -> quiet (create env p n t m tgt) w.
Proof.
  intros Q W H. unfold create. repeat quiet_step; [|done].
  unfold record_ok; simpl. pose proof (wf_next _ (ok_core _ H0)). destruct H1. lia.
Qed.

Lemma read_quiet s node i off n :
  cold_quiet -> 0 <= off -> 0 <= n -> off + n < 2 ^ 64 -> readFileLocked node i off n s <> Panic.
Proof.
  intros Q H0 H1 H2. unfold readFileLocked. destruct (n_Size node <=? off); [done|].
  destruct (is_hot s i); [|by apply readCold_quiet].
  destruct (zlen (data_of s i) <=? off) eqn:E; [done|]. apply Z.leb_gt in E.
  rewrite u64_small by lia. destruct (zlen (data_of s i) <? off + n) eqn:E2.
  - by rewrite goslice_ok by lia.
  - apply Z.ltb_ge in E2. by rewrite goslice_ok by lia.
Qed.

Lemma readInto_quiet s node i off n :
  cold_quiet -> 0 <= off -> 0 <= n -> off + n < 2 ^ 64 -> readFileIntoLocked node i off n s <> Panic.
Proof.
  intros Q H0 H1 H2. unfold readFileIntoLocked. destruct (_ || _); [done|].
  destruct (is_hot s i).
  - destruct (zlen (data_of s i) <=? off) eqn:E; [done|]. apply Z.leb_gt in E.
    rewrite u64_small by lia. destruct (zlen (data_of s i) <? off + n) eqn:E2.
    + by rewrite goslice_ok by lia.
    + apply Z.ltb_ge in E2. by rewrite goslice_ok by lia.
  - pose proof (readCold_quiet s i off n Q). by destruct (readColdRangeLocked s i off n).
Qed.

Lemma export_quiet s : cold_quiet -> exportStateLocked s <> Panic.
Proof.
  intros Q. unfold exportStateLocked. destruct (decide _); [done|].
  assert (Hl : forall js acc, export_loop s js acc <> Panic).
  { induction js as [|j js IH]; intros acc; simpl; [done|]. destruct (Nodes s !! j); [|done].
    pose proof (readCold_quiet s j 0 (n_Size n0) Q). by destruct (readColdRangeLocked s j 0 (n_Size n0)); simpl. }
  specialize (Hl (map_to_list (ColdFiles s)).*1 (Data s)). by destruct (export_loop _ _ _).
Qed.


Lemma exec_quiet env c w :
  cold_quiet -> world_ok w -> headroom w -> call_ok c -> call_bounds c -> (exec env c w).1 <> Panic.
Proof.
  intros Q W H Hc Hb. change (quiet (exec env c) w). destruct c; simpl in *.
  - apply quiet_void. unfold Lookup. repeat quiet_step.
  - apply quiet_void. unfold GetAttr. repeat quiet_step.
  - apply quiet_void. unfold ReadDir. repeat quiet_step.
  - by apply quiet_void, create_quiet.
  - by apply quiet_void, create_quiet.
  - apply quiet_void. unfold Symlink. quiet_step; [done|by apply create_quiet].
  - apply quiet_void. unfold Link. repeat quiet_step; [|done]. unfold record_ok; simpl.
    destruct H1 as [_ H1]. eauto.
  - apply quiet_void. unfold Write. repeat quiet_step; done.
  - apply quiet_void. unfold Read. do 3 quiet_step. destruct Hb as (? & ? & ?). by apply read_quiet.
  - apply quiet_void. unfold ReadInto. do 3 quiet_step. destruct Hb as (? & ? & ?). by apply readInto_quiet.
  - unfold Rename. repeat quiet_step; done.
  - unfold Unlink, UnlinkWithInode. apply quiet_void. quiet_step. quiet_step. quiet_step.
    assert (Hs : is_Some (Nodes (core (eng w)) !! a0)).
    { repeat case_match; simplify_eq. by destruct (wf_entry _ (ok_core _ W) _ _ _ H2). }
    destruct Hs as [n Hn]. rewrite Hn. repeat quiet_step; done.
  - unfold Forget. by quiet_step.
  - unfold RemoveDir. repeat quiet_step; done.
  - unfold SetMode. repeat quiet_step; done.
  - unfold SetOwner. repeat quiet_step; done.
  - unfold Truncate. repeat quiet_step; done.
  - unfold Fsync. quiet_step. unfold quiet, wal_sync. by destruct (walHandle (eng w)), (env_sync env).
  - apply quiet_void. unfold ExportState. do 2 quiet_step. by apply export_quiet.
  - apply quiet_void. unfold CreateSnapshot. quiet_step. quiet_step; [done|]. quiet_step.
    eapply quiet_guard; [reflexivity|by apply export_quiet|intros ? _]. by destruct (env_save env).
  - unfold RestoreSnapshot. repeat quiet_step.
  - unfold ReplaceState. repeat quiet_step.
  - unfold DeleteSnapshot. repeat quiet_step.
  - unfold SyncMaterialize_finish. quiet_step. quiet_step; [|by repeat quiet_step].
    eapply quiet_seq; [by destruct (mf_State m)|intros ? ? _]. repeat quiet_step.
  - apply quiet_void. unfold RefreshMaterialized_finish. destruct latest as [[st m]|e|]; [|by quiet_step|done].
    repeat quiet_step.
  - unfold Close. quiet_step. quiet_step; [done|]. quiet_step. quiet_step. quiet_step.
    unfold quiet, wal_close. by destruct (walHandle _), (env_close env).
Qed.

(** ** Runs of the engine *)

Inductive step : World -> World -> Prop :=
| step_call env c w : headroom w -> call_ok c -> step w (exec env c w).2.

Lemma steps_ok w w' : rtc step w w' -> world_ok w -> world_ok w'.
Proof. induction 1 as [|w1 w2 w3 [env c w Hh Hc] _ IH]; [done|]. intros W. by apply IH, exec_ok. Qed.

End calls.

Lemma wf_initialState now : wf (initialState now).
Proof.
  unfold initialState.
  assert (Hf : flat {[RootInode := ∅]} = ∅).
  { apply map_eq. intros [p n]. rewrite lookup_flat, lookup_empty. unfold dir_of.
    destruct (decide (p = RootInode)) as [->|]; [by rewrite lookup_singleton_eq|].
    by rewrite lookup_singleton_ne by congruence. }
  split; simpl.
  - done.
  - eexists. by rewrite lookup_singleton_eq.
  - intros i n [<- <-]%lookup_singleton_Some. unfold refs; simpl. rewrite Hf.
    repeat split; vm_compute; congruence.
  - intros i. destruct (decide (i = RootInode)) as [->|].
    + rewrite !lookup_singleton_eq. split; eauto.
    + rewrite !lookup_singleton_ne by congruence. split; [by intros []|naive_solver].
  - intros p n i. rewrite <- lookup_flat, Hf, lookup_empty. done.
  - intros i. rewrite lookup_empty. by intros [].
  - intros i. rewrite lookup_empty. by intros [].
Qed.

Lemma Open_fresh_ok `{CR : ColdReader} env volID walPath w :
  Open env volID walPath None (mkDisk [] None ∅) = Ok w -> world_ok w.
Proof.
  unfold Open. destruct (decide (volID = "")); [done|]. destruct (decide (walPath = "")) as [|Hp]; [done|].
  simpl. unfold loadCurrentState. rewrite decide_False by done. simpl. intros [= <-].
  split; simpl; [apply wf_collect, wf_initialState|done|].
  intros id st. by rewrite lookup_empty.
Qed.

(** ** The invariant as a test *)

Definition wfb (s : SnapshotState) : bool :=
  bool_decide (RootInode < NextInode s < 2 ^ 64) &&
  default false (is_dir <$> Nodes s !! RootInode) &&
  bool_decide (map_Forall (fun i n =>
      n_Inode n = i /\ 0 < i < NextInode s /\ 0 <= n_Nlink n < 2 ^ 32 /\ refs s i <= n_Nlink n /\
      (is_dir n = true -> n_Nlink n = 1 /\ is_Some (Children s !! i))) (Nodes s)) &&
  bool_decide (map_Forall (fun i _ => default false (is_dir <$> Nodes s !! i) = true) (Children s)) &&
  bool_decide (map_Forall (fun _ i => i <> RootInode /\ is_Some (Nodes s !! i)) (flat (Children s))) &&
  bool_decide (map_Forall (fun i _ => 0 < i < NextInode s) (Data s)) &&
  bool_decide (map_Forall (fun i _ => 0 < i < NextInode s) (ColdFiles s)).

Lemma is_dir_default (s : SnapshotState) i :
  default false (is_dir <$> Nodes s !! i) = true -> exists n, Nodes s !! i = Some n /\ is_dir n = true.
Proof. destruct (Nodes s !! i); simpl; [eauto|done]. Qed.

Lemma wfb_wf s : wfb s = true -> wf s.
Proof.
  unfold wfb. rewrite !andb_true_iff, !bool_decide_eq_true.
  intros ((((((H1 & H2) & H3) & H4) & H5) & H6) & H7). split; [done|by apply is_dir_default| | | | |].
  - intros i n Hn. destruct (H3 _ _ Hn) as (? & ? & ? & ? & Hd).
    split_and!; try done; try lia. intros Hdir. by apply Hd.
  - intros i. split; [intros [m Hm]; by apply is_dir_default, (H4 _ _ Hm)|].
    intros (n & Hn & Hd). by apply (H3 _ _ Hn).
  - intros p name i Hi. rewrite <- lookup_flat in Hi. by apply (H5 _ _ Hi).
  - intros i [x Hx]. by apply (H6 _ _ Hx).
  - intros i [x Hx]. by apply (H7 _ _ Hx).
Qed.

(** ** Claims *)

(** C2: every world that any run of calls reaches from a new volume is well formed,
    in memory and in the saved states: the root is a directory, directories and only
    directories have entry tables, every entry names an existing node, and no node
    has more entries than its link count, whatever calls, failures and I/O faults
    the run contains. *)
Theorem engine_invariant `{CR : ColdReader} env volID walPath w0 w
    (Hopen : Open env volID walPath None (mkDisk [] None ∅) = Ok w0)
    (Hrun : rtc step w0 w) :
  world_ok w.
Proof. exact (steps_ok _ _ Hrun (Open_fresh_ok _ _ _ _ Hopen)). Qed.


(** ** Instances at a new volume *)

(** An engine without a materializer. *)
Definition no_cold : ColdReader := {| cold_enabled := false; ReadSegmentRange := fun _ _ _ => Err ErrNotFound |}.

(** An environment in which nothing fails, at time [t]. *)
Definition calm (t : Z) : Env := mkEnv t t AppendOk true ResetOk true true.

Lemma headroom_dec w :
  NextInode (core (eng w)) < 2 ^ 64 - 1 ->
  bool_decide (map_Forall (fun _ n => n_Nlink n < 2 ^ 32 - 1) (Nodes (core (eng w)))) = true -> headroom w.
Proof. intros H1 H2%bool_decide_eq_true. by split. Qed.

(** A volume with a directory [a] and two files, [f] with two bytes and [g] empty. *)
Definition sample_node (i : Z) (t : FileType) (size : Z) : Node := mkNode i t 493 0 0 1 size "" 7 7 7.
Definition sample_state : SnapshotState :=
  mkState 5 5
    (list_to_map [(1, sample_node 1 TypeDirectory 0); (2, sample_node 2 TypeDirectory 0);
                  (3, sample_node 3 TypeFile 2); (4, sample_node 4 TypeFile 0)])
    (list_to_map [(1, list_to_map [("a", 2); ("f", 3); ("g", 4)]); (2, ∅)])
    {[3 := [x61; x62]]} ∅ ∅.
Definition sample : World :=
  mkWorld (mkEngine "vol" HOpen false sample_state 0 0 0 false 0) (mkDisk [] (Some sample_state) ∅).

Lemma sample_ok : world_ok sample.
Proof.
  assert (W : wf sample_state) by (apply wfb_wf; vm_compute; reflexivity).
  split; [done|by intros ? [= <-]|]. intros id st H. simpl in H. by apply lookup_empty_Some in H.
Qed.

Lemma sample_headroom : headroom sample.
Proof. apply headroom_dec; vm_compute; reflexivity. Qed.

Lemma engine_invariant_witness :
  exists w0, Open (CR := no_cold) (calm 7) "vol" "wal" None (mkDisk [] None ∅) = Ok w0 /\
    world_ok (exec (CR := no_cold) (calm 8) (CMkdir 1 "a" 493) w0).2.
Proof.
  eexists. split; [vm_compute; reflexivity|].
  eapply (engine_invariant (CR := no_cold) (calm 7) "vol" "wal"); [vm_compute; reflexivity|].
  eapply rtc_once, step_call; [|exact I]. apply headroom_dec; vm_compute; reflexivity.
Defined.

