(* ===== verification/S0fsFiles.v ===== *)
(** * s0fs: what the calls do to files and directories

    The byte-level meaning of [Write], [Truncate] and [Read] against a pointwise
    specification, the atomicity of failing calls, the listing of [ReadDir], and what
    [Rename] does to an entry it replaces. *)

From stdpp Require Import base gmap strings list fin_maps numbers sorting.
From Stdlib Require Import Strings.Byte.
From S2P Require Import Prelude GoStd S0fsTypes S0fsCore S0fsEngine S0fsInv S0fsSafety.

Local Open Scope Z_scope.

(** ** The specification of file contents *)

(** Byte [k] of a file after [payload] was written at [off] over [old]. *)
Definition spec_write (off : Z) (payload old : list byte) (k : nat) : option byte :=
  let k' := Z.of_nat k in
  if decide (off <= k' < off + zlen payload) then payload !! Z.to_nat (k' - off)
  else if decide (k' < zlen old) then old !! k
  else if decide (k' < off) then Some x00
  else None.

(** Byte [k] of a file after it was truncated to [size]. *)
Definition spec_truncate (size : Z) (old : list byte) (k : nat) : option byte :=
  if decide (Z.of_nat k < size) then Some (default x00 (old !! k)) else None.

Lemma lookup_splice_new (a : Z) (d l : list byte) (i : nat) :
  0 <= a -> a + zlen d <= zlen l -> a <= Z.of_nat i < a + zlen d ->
  splice a d l !! i = d !! Z.to_nat (Z.of_nat i - a).
Proof.
  unfold splice, zlen. intros ? ? Hi.
  assert (Ht : length (take (Z.to_nat a) l) = Z.to_nat a) by (rewrite length_take; lia).
  rewrite lookup_app_r by lia. rewrite lookup_app_l by lia. f_equal. lia.
Qed.

Lemma lookup_pad (l : list byte) n (k : nat) :
  (l ++ replicate n x00) !! k =
    if decide (Z.of_nat k < zlen l) then l !! k
    else if decide (Z.of_nat k < zlen l + Z.of_nat n) then Some x00 else None.
Proof.
  unfold zlen. destruct (decide _) as [H|H]; [apply lookup_app_l; lia|].
  rewrite lookup_app_r by lia. destruct (decide _).
  - apply lookup_replicate. split; [done|lia].
  - apply lookup_replicate_None. lia.
Qed.

Lemma written_spec off payload old k :
  0 <= off -> written off payload old !! k = spec_write off payload old k.
Proof.
  intros Ho. unfold written, spec_write. pose proof (zlen_nonneg payload). pose proof (zlen_nonneg old).
  assert (Hl : off + zlen payload <= zlen (old ++ replicate (Z.to_nat (off + zlen payload - zlen old)) x00)).
  { autorewrite with go. lia. }
  destruct (decide (off <= Z.of_nat k < off + zlen payload)) as [H1|H1].
  - by apply lookup_splice_new.
  - rewrite lookup_splice_old by done. rewrite lookup_pad. destruct (decide (Z.of_nat k < zlen old)); [done|].
    destruct (decide _), (decide _); try done; lia.
Qed.

Lemma truncated_spec size (old : list byte) k :
  0 <= size ->
  (take (Z.to_nat size) old ++ replicate (Z.to_nat (size - zlen old)) x00) !! k = spec_truncate size old k.
Proof.
  intros Hs. unfold spec_truncate. rewrite lookup_pad.
  assert (Ht : zlen (take (Z.to_nat size) old) = Z.min size (zlen old)).
  { unfold zlen. rewrite length_take. lia. }
  rewrite Ht. pose proof (zlen_nonneg old). destruct (decide (Z.of_nat k < size)).
  - destruct (decide _) as [H1|H1].
    + rewrite lookup_take_lt by lia. unfold zlen in *.
      destruct (lookup_lt_is_Some_2 old k) as [x Hx]; [lia|]. by rewrite Hx.
    + rewrite decide_True by lia. rewrite lookup_ge_None_2; [done|]. unfold zlen in *. lia.
  - rewrite !decide_False by lia. done.
Qed.

Section files.
Context `{CR : ColdReader}.

(** ** Contents after an update *)

Lemma file_content_other i new n cur s j :
  j <> i -> file_content (file_state i new n (warm i cur s)) j = file_content s j.
Proof.
  intros Hj. unfold file_state, warm. destruct (is_hot s i);
    unfold file_content, is_hot, readColdRangeLocked, data_of, cold_of; simpl;
    rewrite ?lookup_insert_ne, ?lookup_delete_ne by congruence; done.
Qed.

(** What [content_update] gives when the new content is empty only if the old one was. *)
Lemma content_update_spec i t f s s' :
  content_update i t f s = (Ok tt, s') ->
  exists n old new, Nodes s !! i = Some n /\ is_dir n = false /\ file_content s i = Ok old /\ f old = Ok new /\
    s' = file_state i new (touch_size new t n) (warm i old s).
Proof.
  unfold content_update. destruct (Nodes s !! i) as [n|] eqn:Hn; [|done].
  destruct (is_dir n) eqn:Hd; [done|]. destruct (file_content s i) as [old| |]; [|done..].
  destruct (f old) as [new| |] eqn:Hf; [|done..]. intros [= <-]. by exists n, old, new.
Qed.

Lemma warm_cold_empty i old s :
  file_content s i = Ok old -> old = [] \/ data_of s i = [] \/ cold_of s i = [] ->
  cold_of (warm i old s) i = [].
Proof.
  unfold warm, file_content. destruct (is_hot s i) eqn:Hh.
  - intros [= Hd] H. assert (Hor : data_of s i = [] \/ cold_of s i = []) by naive_solver.
    destruct Hor as [Hd0|]; [|done]. unfold is_hot in Hh. rewrite Hd0 in Hh. simpl in Hh.
    by apply Z.eqb_eq, zlen_nil_iff in Hh.
  - intros _ _. unfold cold_of. simpl. by rewrite lookup_delete_eq.
Qed.

Lemma file_state_hot i old new n s :
  (new = [] -> cold_of (warm i old s) i = []) ->
  is_hot (file_state i new n (warm i old s)) i = true /\
  data_of (file_state i new n (warm i old s)) i = new.
Proof.
  intros Hne.
  assert (Hd : data_of (file_state i new n (warm i old s)) i = new).
  { unfold data_of, file_state. simpl. by rewrite lookup_insert_eq. }
  split; [|done]. unfold is_hot. rewrite Hd. apply orb_true_iff.
  destruct (zlen new =? 0) eqn:E.
  - apply Z.eqb_eq, zlen_nil_iff in E. right. apply Z.eqb_eq, zlen_nil_iff. exact (Hne E).
  - left. apply Z.eqb_neq in E. pose proof (zlen_nonneg new). apply Z.ltb_lt. lia.
Qed.

(** Reading a file with inline content. *)
Lemma read_hot n i s o k :
  is_hot s i = true -> n_Size n = zlen (data_of s i) -> 0 <= o -> 0 <= k -> o + k < 2 ^ 64 ->
  readFileLocked n i o k s = Ok (subslice o (Z.min (o + k) (zlen (data_of s i))) (data_of s i)).
Proof.
  intros Hh Hn Ho Hk Hb. unfold readFileLocked. rewrite Hn, Hh.
  destruct (zlen (data_of s i) <=? o) eqn:E.
  - apply Z.leb_le in E. by rewrite subslice_empty by lia.
  - apply Z.leb_gt in E. rewrite u64_small by lia.
    destruct (zlen (data_of s i) <? o + k) eqn:E2; [apply Z.ltb_lt in E2 | apply Z.ltb_ge in E2];
      rewrite goslice_ok by lia; do 2 f_equal; lia.
Qed.

Lemma Read_eq i o k w n :
  closed (eng w) = false -> Nodes (core (eng w)) !! i = Some n -> is_dir n = false ->
  Read i o k w = (readFileLocked n i o k (core (eng w)), w).
Proof.
  intros Hc Hn Hd. unfold Read, bind, checkOpen. rewrite Hc.
  rewrite (run_core_guard _ _ _ (fileNode_eq _ _)), Hn, Hd. done.
Qed.

(** What a successful logged call did. *)
Lemma log_apply_inv env r w u w' :
  log_apply env r w = (Ok u, w') ->
  exists s', apply r (core (eng w)) = (Ok tt, s') /\ core (eng w') = s' /\ closed (eng w') = closed (eng w).
Proof.
  unfold log_apply, bind. destruct (wal_append env r w) as [[[]| |] w1] eqn:Ha; [|done..].
  assert (Hw : core (eng w1) = core (eng w) /\ closed (eng w1) = closed (eng w)).
  { unfold wal_append in Ha. by destruct (walHandle (eng w)), (env_append env) as [|[]]; simplify_eq/=. }
  destruct Hw as [Hc Hcl]. unfold run_core. rewrite Hc.
  destruct (apply r (core (eng w))) as [[[]| |] s'] eqn:E; [|done..]. intros [= <- <-].
  exists s'. by split_and!.
Qed.

(** ** Failing calls *)

Lemma write_bytes_no_err off d cur e : write_bytes off d cur <> Err e.
Proof.
  unfold write_bytes, copy_at, grow_to, goslice. by repeat (case_match; simplify_eq/=).
Qed.

Lemma truncate_bytes_no_err size cur e : truncate_bytes size cur <> Err e.
Proof. unfold truncate_bytes, grow_to, goslice. repeat case_match; done. Qed.

Lemma content_update_err i t f s e s' :
  (forall cur e, f cur <> Err e) -> content_update i t f s = (Err e, s') -> s' = s.
Proof.
  intros Hf. unfold content_update. destruct (Nodes s !! i) as [n|]; [|congruence].
  destruct (is_dir n); [congruence|]. destruct (file_content s i) as [cur| |]; [|congruence|done].
  destruct (f cur) eqn:E; [done| |done]. by destruct (Hf _ _ E).
Qed.

Lemma apply_err r s e s' : wf s -> record_ok s r -> apply r s = (Err e, s') -> s' = s.
Proof.
  intros W Hr Ha. unfold apply, record_ok in *. destruct (r_Op r).
  - destruct (applyCreate_cases s r W Hr) as [[e' He]|(He & _)]; congruence.
  - rewrite applyWrite_eq in Ha. eapply content_update_err; [apply write_bytes_no_err|done].
  - destruct (applyLink_cases s r W) as [[e' He]|(n & He & _)]; congruence.
  - destruct (applyRemoveDir_cases s r W) as [[e' He]|(i & n & He & _)]; congruence.
  - destruct (applyRename_cases s r W) as [[e' He]|(i & n & He & _)]; congruence.
  - unfold applySetMode, bind, get in Ha. by destruct (Nodes s !! r_Inode r); unfold throw, put_node, modify in Ha; simplify_eq/=.
  - unfold applySetOwner, bind, get in Ha. by destruct (Nodes s !! r_Inode r); unfold throw, put_node, modify in Ha; simplify_eq/=.
  - rewrite applyTruncate_eq in Ha. eapply content_update_err; [apply truncate_bytes_no_err|done].
  - destruct (applyUnlink_cases s r W) as [[e' He]|(i & n & He & _)]; congruence.
  - unfold throw in Ha. by simplify_eq/=.
Qed.

(** Nothing but the sequence number changed. *)
Definition same_core (w w' : World) : Prop :=
  core (eng w') = core (eng w) \/
  core (eng w') = set_NextSeq (u64 (NextSeq (core (eng w)) + 1)) (core (eng w)).

Definition atomic {A} (m : Eng A) (w0 w : World) : Prop :=
  forall e w', m w = (Err e, w') -> same_core w0 w'.

Lemma atomic_guard {A B} (m : Eng A) (k : A -> Eng B) w r :
  m w = (r, w) -> (forall a, r = Ok a -> atomic (k a) w w) -> atomic (bind m k) w w.
Proof.
  unfold atomic, bind. intros -> H e w'. destruct r; [by apply H| |done]. intros [= <- <-]. by left.
Qed.

Lemma atomic_same {A} (m : Eng A) w r : m w = (r, w) -> atomic m w w.
Proof. intros E e w'. rewrite E. intros [= _ <-]. by left. Qed.

Lemma atomic_ok {A} (m : Eng A) w0 w : (forall e, (m w).1 <> Err e) -> atomic m w0 w.
Proof. intros H e w' E. destruct (H e). by rewrite E. Qed.

Lemma atomic_void {A} (m : Eng A) w : atomic m w w -> atomic (void m) w w.
Proof.
  unfold atomic, void, bind. intros H e w'. destruct (m w) as [[a|e'|] w1]; [done| |done].
  intros [= <- <-]. by eapply H.
Qed.

Lemma atomic_newRecord {B} env op (k : walRecord -> Eng B) w :
  world_ok w -> headroom w ->
  (forall r w', world_ok w' -> headroom w' ->
     core (eng w') = set_NextSeq (u64 (NextSeq (core (eng w)) + 1)) (core (eng w)) -> atomic (k r) w w') ->
  atomic (bind (newRecord env op) k) w w.
Proof.
  intros [W1 W2 W3] H Hk e w'. unfold bind, newRecord. apply Hk; try done. split; simpl; [|done..].
  by apply wf_set_NextSeq.
Qed.

Lemma atomic_log env r w0 w :
  world_ok w -> record_ok (core (eng w)) r -> same_core w0 w -> atomic (log_apply env r) w0 w.
Proof.
  intros W Hr Hs e w'. unfold log_apply, bind.
  assert (Hw : core (eng (wal_append env r w).2) = core (eng w)).
  { unfold wal_append. by destruct (walHandle (eng w)), (env_append env) as [|[]]. }
  destruct (wal_append env r w) as [[[]| |] w1]; simpl in Hw; [| |done].
  - unfold run_core. rewrite Hw. destruct (apply r (core (eng w))) as [[[]| |] s'] eqn:Ha; [done| |done].
    intros [= <- <-]. apply apply_err in Ha as ->; [done|apply W|done].
  - intros [= <- <-]. unfold same_core. by rewrite Hw.
Qed.

Lemma atomic_seq {A B} (m : Eng A) (k : A -> Eng B) w0 w :
  atomic m w0 w -> (forall a w', atomic (k a) w0 w') -> atomic (bind m k) w0 w.
Proof.
  unfold atomic, bind. intros H Hk e w'. destruct (m w) as [[a|e'|] w1] eqn:E; [apply Hk| |done].
  intros [= <- <-]. by eapply H.
Qed.

Lemma atomic_gets {A B} (f : World -> A) (k : A -> Eng B) w0 w :
  atomic (k (f w)) w0 w -> atomic (bind (gets f) k) w0 w.
Proof. done. Qed.

Ltac atomic_step :=
  lazymatch goal with
  | |- atomic (bind checkOpen _) _ _ => eapply atomic_guard; [apply checkOpen_eq | intros ? _]
  | |- atomic (bind get _) _ _ => eapply atomic_guard; [reflexivity | intros ? [= <-]]
  | |- atomic (bind (gets _) _) _ _ => apply atomic_gets
  | |- atomic (bind (run_core (ensureDirLocked _)) _) _ _ =>
      eapply atomic_guard; [apply run_core_guard, ensureDir_wf, ok_core; assumption | intros ? _]
  | |- atomic (bind (run_core (lookupLocked _ _)) _) _ _ =>
      eapply atomic_guard; [apply run_core_guard, lookup_wf, ok_core; assumption | intros ? _]
  | |- atomic (bind (run_core (fileNodeLocked _)) _) _ _ =>
      eapply atomic_guard; [apply run_core_guard, fileNode_eq | intros ? _]
  | |- atomic (bind (newRecord _ _) _) _ _ =>
      apply atomic_newRecord; [assumption | assumption | intros ? ? ? ? ?]
  | |- atomic (bind (log_apply _ _) _) _ _ =>
      eapply atomic_seq; [apply atomic_log; [assumption | try done | by right] | intros; by apply atomic_ok]
  | |- atomic (log_apply _ _) _ _ => apply atomic_log; [assumption | try done | by right]
  | |- atomic (bind (lift_res _) _) _ _ => eapply atomic_guard; [reflexivity | intros ? ?]
  | |- atomic (if ?b then _ else _) _ _ => destruct b
  | |- atomic (match ?x with _ => _ end) _ _ => destruct x eqn:?
  | |- atomic _ _ _ => first [by apply atomic_ok | eapply atomic_same; reflexivity]
  end.

Lemma create_atomic env p n t m tgt w :
  world_ok w -> headroom w -> atomic (create env p n t m tgt) w w.
Proof.
  intros W H. unfold create. repeat atomic_step. unfold record_ok; simpl. destruct H1. lia.
Qed.

(** ** Claims *)


Lemma log_apply_ret env r w : log_apply env r w = bind (log_apply env r) (fun _ => ret tt) w.
Proof. unfold bind. by destruct (log_apply env r w) as [[[]| |] ?]. Qed.

(** What a successful [Write] or [Truncate] did: its record, applied to the numbered state. *)
Lemma content_call_inv env r {A} (v : A) w w' op (K : walRecord -> Eng A) x :
  bind (newRecord env op) K w = (Ok x, w') ->
  (forall r0, newRecord env op w = (Ok r0, numbered w) ->
     K r0 (numbered w) = bind (log_apply env r) (fun _ => ret v) (numbered w)) ->
  x = v /\ closed (eng w') = closed (eng w) /\ apply r (core (eng (numbered w))) = (Ok tt, core (eng w')).
Proof.
  intros E0 HK. revert E0. unfold bind at 1, newRecord. fold (numbered w). erewrite HK by done. unfold bind.
  destruct (log_apply env r _) as [[[]| |] w1] eqn:E; [|done..]. intros [= <- <-].
  apply log_apply_inv in E as (s' & Ha & <- & Hc). done.
Qed.

Lemma updated_file s i t new n old w' :
  core (eng w') = file_state i new (touch_size new t n) (warm i old s) ->
  closed (eng w') = false -> is_dir n = false -> (new = [] -> cold_of (warm i old s) i = []) ->
  (forall o k, 0 <= o -> 0 <= k -> o + k < 2 ^ 64 ->
     Read i o k w' = (Ok (subslice o (Z.min (o + k) (zlen new)) new), w')) /\
  (forall j, j <> i -> file_content (core (eng w')) j = file_content s j).
Proof.
  intros Hs Hcl Hd Hne. destruct (file_state_hot i old new (touch_size new t n) s Hne) as [Hh Hdata].
  split.
  - intros o k Ho Hk Hb. rewrite (Read_eq _ _ _ _ (touch_size new t n)); [|done| |done].
    + rewrite Hs, read_hot by (try done; by rewrite Hdata). by rewrite Hdata.
    + rewrite Hs. unfold file_state. simpl. apply lookup_insert_eq.
  - intros j Hj. rewrite Hs. by apply file_content_other.
Qed.

(** C27: a successful [Write] has the effect of the specification.  Every later [Read]
    of the file returns the bytes [spec_write] gives: the payload where it was
    written, the old bytes elsewhere, zeros between the old end and the offset, cut at
    the new end; the content of no other file changes.  The file may have been in
    memory or in a segment. *)
Theorem write_read env i off payload w n w'
    (Hoff : 0 <= off) (Hend : off + zlen payload <= maxInt)
    (Hw : Write env i off payload w = (Ok n, w')) :
  n = zlen payload /\
  exists old new, file_content (core (eng w)) i = Ok old /\
    (forall k, new !! k = spec_write off payload old k) /\
    (forall o k, 0 <= o -> 0 <= k -> o + k < 2 ^ 64 ->
       Read i o k w' = (Ok (subslice o (Z.min (o + k) (zlen new)) new), w')) /\
    (forall j, j <> i -> file_content (core (eng w')) j = file_content (core (eng w)) j).
Proof.
  unfold Write, bind at 1 2, checkOpen in Hw. destruct (closed (eng w)) eqn:Hcl; [done|].
  rewrite (run_core_guard _ _ _ (fileNode_eq _ _)) in Hw.
  destruct (Nodes (core (eng w)) !! i) as [n0|] eqn:Hn; [|done]. destruct (is_dir n0) eqn:Hd; [done|].
  eapply content_call_inv in Hw as (-> & Hcl' & Ha); [|intros r0 [= <-]; reflexivity].
  split; [done|]. unfold apply in Ha. simpl in Ha. rewrite applyWrite_eq in Ha.
  apply content_update_spec in Ha as (n1 & old & new & Hn1 & Hd1 & Hold & Hnew & Hs). simpl in *.
  rewrite write_bytes_ok in Hnew by done. injection Hnew as <-. exists old, (written off payload old).
  split; [exact Hold|]. split; [intros k; by apply written_spec|].
  eapply (updated_file (core (eng (numbered w))) i _ _ n1 old); [exact Hs|by rewrite Hcl', Hcl|done|].
  intros E. apply warm_cold_empty; [done|]. left. apply zlen_nil_iff. unfold written in E. apply (f_equal zlen) in E.
  pose proof (zlen_nonneg payload). rewrite zlen_splice in E by (autorewrite with go; lia).
  autorewrite with go in E. unfold zlen in *. simpl in E. lia.
Qed.

(** A successful [Truncate] has the effect of the specification: every later
    [Read] sees the old bytes up to the new size, then zeros up to it, and nothing
    beyond; no other file changes.  (The file keeps no payload in memory beside one in
    a segment, as in every state the engine builds.) *)
Theorem truncate_read env i size w w'
    (Hsize : 0 <= size <= maxInt)
    (Hone : data_of (core (eng w)) i = [] \/ cold_of (core (eng w)) i = [])
    (Hw : Truncate env i size w = (Ok tt, w')) :
  exists old new, file_content (core (eng w)) i = Ok old /\
    (forall k, new !! k = spec_truncate size old k) /\
    (forall o k, 0 <= o -> 0 <= k -> o + k < 2 ^ 64 ->
       Read i o k w' = (Ok (subslice o (Z.min (o + k) (zlen new)) new), w')) /\
    (forall j, j <> i -> file_content (core (eng w')) j = file_content (core (eng w)) j).
Proof.
  unfold Truncate, bind at 1 2, checkOpen in Hw. destruct (closed (eng w)) eqn:Hcl; [done|].
  rewrite (run_core_guard _ _ _ (fileNode_eq _ _)) in Hw.
  destruct (Nodes (core (eng w)) !! i) as [n0|] eqn:Hn; [|done]. destruct (is_dir n0) eqn:Hd; [done|].
  eapply content_call_inv in Hw as (_ & Hcl' & Ha); [|intros r0 [= <-]; apply log_apply_ret].
  unfold apply in Ha. simpl in Ha. rewrite applyTruncate_eq in Ha.
  apply content_update_spec in Ha as (n1 & old & new & Hn1 & Hd1 & Hold & Hnew & Hs). simpl in *.
  rewrite truncate_bytes_ok in Hnew by done. injection Hnew as <-. eexists old, _.
  split; [exact Hold|]. split; [intros k; apply truncated_spec; lia|].
  eapply (updated_file (core (eng (numbered w))) i _ _ n1 old); [exact Hs|by rewrite Hcl', Hcl|done|].
  intros _. apply warm_cold_empty; [exact Hold|]. by right.
Qed.

(** ** Listing *)

#[local] Instance entry_le_total : Total entry_le.
Proof. intros a b. apply String.le_total. Qed.
#[local] Instance entry_le_trans : Transitive entry_le.
Proof. intros a b c. unfold entry_le. by etrans. Qed.

Lemma elem_of_ReadDir_entries s inode e :
  e ∈ ReadDir_entries s inode <->
  dir_of (Children s) inode !! de_Name e = Some (de_Inode e) /\
  exists node, Nodes s !! de_Inode e = Some node /\ de_Type e = n_Type node.
Proof.
  unfold ReadDir_entries. rewrite merge_sort_Permutation, list_elem_of_omap. split.
  - intros ([name i] & Hin%elem_of_map_to_list & Hf). simpl in Hf.
    destruct (Nodes s !! i) as [n|] eqn:En; simplify_eq/=. eauto.
  - intros [Hin (n & Hn & Ht)]. exists (de_Name e, de_Inode e).
    split; [by apply elem_of_map_to_list|]. simpl. rewrite Hn. simpl. destruct e. by simplify_eq/=.
Qed.

Lemma ReadDir_names_NoDup s inode : NoDup (de_Name <$> ReadDir_entries s inode).
Proof.
  unfold ReadDir_entries. rewrite merge_sort_Permutation.
  pose proof (NoDup_fst_map_to_list (dir_of (Children s) inode)) as Hnd. revert Hnd.
  induction (map_to_list (dir_of (Children s) inode)) as [|[name i] l IH]; intros Hnd; [constructor|].
  apply NoDup_cons in Hnd as [Hni Hnd]. simpl. specialize (IH Hnd).
  destruct (Nodes s !! i) as [n|]; simpl; [|done]. apply NoDup_cons. split; [|done].
  intros (e & He & Hin)%list_elem_of_fmap. apply Hni.
  apply list_elem_of_omap in Hin as ([name' i'] & Hin & Hf). simpl in Hf.
  destruct (Nodes s !! i'); simplify_eq/=. apply list_elem_of_fmap. by exists (name', i').
Qed.

(** [ReadDir] lists a directory completely and in order: each entry of the
    directory once, with the type of its node, sorted by name. *)
Theorem readdir_spec inode w es w'
    (Hw : world_ok w) (Hok : ReadDir inode w = (Ok es, w')) :
  w' = w /\ StronglySorted (fun a b => String.le (de_Name a) (de_Name b)) es /\ NoDup (de_Name <$> es) /\
  (forall e, e ∈ es -> exists node, Nodes (core (eng w)) !! de_Inode e = Some node /\ de_Type e = n_Type node) /\
  (forall name i, dir_of (Children (core (eng w))) inode !! name = Some i <->
     exists e, e ∈ es /\ de_Name e = name /\ de_Inode e = i).
Proof.
  unfold ReadDir, bind, checkOpen in Hok. destruct (closed (eng w)); [done|].
  rewrite (run_core_guard _ _ _ (ensureDir_wf _ _ (ok_core _ Hw))) in Hok.
  destruct (match Nodes _ !! inode with Some _ => _ | None => _ end); [|done..]. injection Hok as <- <-.
  split; [done|]. split; [apply (StronglySorted_merge_sort entry_le)|]. split; [apply ReadDir_names_NoDup|].
  split; [intros e He; by apply elem_of_ReadDir_entries in He as [_ ?]|]. intros name i. split.
  - intros Hi. destruct (wf_entry _ (ok_core _ Hw) _ _ _ Hi) as [_ [n Hn]].
    exists (mkDirEntry name i (n_Type n)). split; [|done]. apply elem_of_ReadDir_entries. simpl. eauto.
  - intros (e & He & <- & <-). by apply elem_of_ReadDir_entries in He as [? _].
Qed.

End files.

(** ** Instances *)


Lemma write_read_witness :
  exists old new, file_content (CR := no_cold) sample_state 3 = Ok old /\
    new !! 4%nat = spec_write 4 [x63] old 4 /\
    Read (CR := no_cold) 3 0 10 (Write (CR := no_cold) (calm 8) 3 4 [x63] sample).2 =
      (Ok (subslice 0 (Z.min 10 (zlen new)) new), (Write (CR := no_cold) (calm 8) 3 4 [x63] sample).2).
Proof.
  destruct (write_read (CR := no_cold) (calm 8) 3 4 [x63] sample 1
              (Write (CR := no_cold) (calm 8) 3 4 [x63] sample).2) as (_ & old & new & Ho & Hn & Hr & _);
    [lia|vm_compute; discriminate|vm_compute; reflexivity|].
  exists old, new. split; [exact Ho|]. split; [apply Hn|]. apply (Hr 0 10); lia.
Defined.

Lemma truncate_read_witness :
  exists old new, file_content (CR := no_cold) sample_state 3 = Ok old /\
    new !! 1%nat = spec_truncate 1 old 1 /\
    Read (CR := no_cold) 3 0 10 (Truncate (CR := no_cold) (calm 8) 3 1 sample).2 =
      (Ok (subslice 0 (Z.min 10 (zlen new)) new), (Truncate (CR := no_cold) (calm 8) 3 1 sample).2).
Proof.
  destruct (truncate_read (CR := no_cold) (calm 8) 3 1 sample
              (Truncate (CR := no_cold) (calm 8) 3 1 sample).2) as (old & new & Ho & Hn & Hr & _);
    [unfold maxInt; lia|right; vm_compute; reflexivity|vm_compute; reflexivity|].
  exists old, new. split; [exact Ho|]. split; [apply Hn|]. apply (Hr 0 10); lia.
Defined.

Lemma readdir_spec_witness :
  NoDup (de_Name <$> [mkDirEntry "a" 2 TypeDirectory; mkDirEntry "f" 3 TypeFile; mkDirEntry "g" 4 TypeFile]).
Proof.
  apply (readdir_spec 1 sample _ sample sample_ok). vm_compute. reflexivity.
Defined.
