(* ===== verification/S0fsPath.v ===== *)
(** * s0fs: the path of an inode

    [pathLocked] searches the directory tree breadth first.  The search is proved
    sound (the path it returns leads from the root to the inode), complete (it finds
    a path whenever there is one) and terminating (the fuel of the model is never
    used up).  With it: what [Rename] does when it moves a directory into itself. *)

From stdpp Require Import base gmap strings list fin_maps numbers sorting.
From Stdlib Require Import Strings.Byte.
From S2P Require Import Prelude GoStd S0fsTypes S0fsCore S0fsEngine S0fsInv S0fsSafety S0fsFiles.

Local Open Scope Z_scope.

(** ** Walking down the tree *)

Fixpoint walk (s : SnapshotState) (i : Z) (names : list string) : option Z :=
  match names with
  | [] => Some i
  | n :: ns => match dir_of (Children s) i !! n with Some j => walk s j ns | None => None end
  end.

(** The path string of a list of names. *)
Definition render (names : list string) : string := fold_left join_path names "/".

Lemma walk_snoc s i ns n : walk s i (ns ++ [n]) = j ← walk s i ns; dir_of (Children s) j !! n.
Proof.
  revert i. induction ns as [|n0 ns IH]; intros i; simpl; [by destruct (_ !! n)|].
  destruct (dir_of (Children s) i !! n0); [apply IH|done].
Qed.

Lemma render_snoc ns n : render (ns ++ [n]) = join_path (render ns) n.
Proof. unfold render. by rewrite fold_left_app. Qed.

Lemma elem_of_sorted_names ch n : n ∈ sorted_names ch <-> is_Some (ch !! n).
Proof.
  unfold sorted_names. rewrite merge_sort_Permutation, list_elem_of_fmap. split.
  - intros ([k v] & -> & Hk%elem_of_map_to_list). eauto.
  - intros [v Hv]. exists (n, v). split; [done|]. by apply elem_of_map_to_list.
Qed.

(** ** Soundness *)

(** Every queued directory is reached by the names of its path. *)
Definition queue_ok (s : SnapshotState) (q : list (Z * string)) : Prop :=
  Forall (fun ip => exists ns, walk s RootInode ns = Some ip.1 /\ ip.2 = render ns) q.

Lemma path_scan_sound s t d ns names seen q :
  walk s RootInode ns = Some d -> queue_ok s q ->
  (forall n, n ∈ names -> is_Some (dir_of (Children s) d !! n)) ->
  match path_scan s t (render ns) (dir_of (Children s) d) names seen q with
  | inl p => exists ns', walk s RootInode ns' = Some t /\ p = render ns'
  | inr (_, q') => queue_ok s q'
  end.
Proof.
  intros Hd. revert seen q. induction names as [|n names IH]; intros seen q Hq Hn; simpl; [done|].
  destruct (Hn n) as [c Hc]; [set_solver|]. rewrite Hc. simpl.
  assert (Hw : walk s RootInode (ns ++ [n]) = Some c) by (by rewrite walk_snoc, Hd).
  destruct (c =? t) eqn:Et.
  - apply Z.eqb_eq in Et as ->. exists (ns ++ [n]). by rewrite render_snoc.
  - destruct (decide (c ∈ seen)); [apply IH; [done|set_solver]|]. apply IH; [|set_solver].
    destruct (Nodes s !! c) as [nd|]; [|done]. destruct (is_dir nd); [|done].
    apply Forall_app. split; [done|]. apply Forall_singleton. exists (ns ++ [n]). by rewrite render_snoc.
Qed.

Lemma path_loop_sound fuel s t seen q p :
  queue_ok s q -> path_loop fuel s t seen q = Some (Some p) ->
  exists ns, walk s RootInode ns = Some t /\ p = render ns.
Proof.
  revert seen q. induction fuel as [|fuel IH]; intros seen q Hq; simpl; [done|].
  destruct q as [|[d cp] q]; [done|]. apply Forall_cons in Hq as [(ns & Hd & Hcp) Hq]. simpl in *. subst cp.
  pose proof (path_scan_sound s t d ns (sorted_names (dir_of (Children s) d)) seen q Hd Hq) as Hs.
  destruct (path_scan _ _ _ _ _ _ _) as [p'|[seen' q']].
  - intros [= ->]. apply Hs. intros n. apply elem_of_sorted_names.
  - apply IH. apply Hs. intros n. apply elem_of_sorted_names.
Qed.

(** ** Termination and completeness *)

(** What one scan does to the visited set and the queue. *)
Lemma path_scan_inr s t cp ch names seen q seen' q' :
  path_scan s t cp ch names seen q = inr (seen', q') ->
  exists new, q' = q ++ new /\ seen ⊆ seen' /\
    (forall n, n ∈ names -> default 0 (ch !! n) ∈ seen' /\ default 0 (ch !! n) <> t) /\
    (forall c, c ∈ seen' -> c ∈ seen \/ c ∈ new.*1 \/ ~ is_directory s c) /\
    NoDup new.*1 /\ (forall c, c ∈ new.*1 -> c ∈ seen' /\ (c ∉ seen) /\ c ∈ dom (Nodes s)).
Proof.
  revert seen q. induction names as [|n names IH]; intros seen q; simpl.
  - intros [= <- <-]. exists []. rewrite app_nil_r. split_and!; [done|done| |by left|constructor|]; intros ? Hx; by apply not_elem_of_nil in Hx.
  - set (c := default 0 (ch !! n)). destruct (c =? t) eqn:Et; [done|]. apply Z.eqb_neq in Et.
    destruct (decide (c ∈ seen)) as [Hc|Hc].
    + intros (new & -> & Hsub & Hn & Hs & Hnd & Hnew)%IH. exists new. split_and!; try done.
      intros n' [->|Hn']%elem_of_cons; [|by apply Hn]. split; [by apply Hsub|done].
    + set (q1 := match Nodes s !! c with Some nd => _ | None => q end).
      intros (new & -> & Hsub & Hn & Hs & Hnd & Hnew)%IH.
      assert (Hq1 : (q1 = q /\ ~ is_directory s c) \/
                    (q1 = q ++ [(c, join_path cp n)] /\ c ∈ dom (Nodes s))).
      { unfold q1, is_directory. destruct (Nodes s !! c) as [nd|] eqn:E; [destruct (is_dir nd) eqn:Ed|].
        - right. split; [done|]. apply elem_of_dom. eauto.
        - left. split; [done|]. intros (d & Hd & Hdd). congruence.
        - left. split; [done|]. by intros (d & Hd & _). }
      assert (Hc' : c ∈ seen') by (apply Hsub; set_solver).
      assert (Hin : forall n', n' ∈ n :: names -> default 0 (ch !! n') ∈ seen' /\ default 0 (ch !! n') <> t).
      { intros n' [->|Hn']%elem_of_cons; [done|by apply Hn]. }
      destruct Hq1 as [[-> Hnd']|[-> Hdom]].
      * exists new. split_and!; [done|set_solver|done| |done|].
        -- intros x Hx. destruct (Hs x Hx) as [Hx'|[?|?]]; [|set_solver..].
           apply elem_of_union in Hx' as [->%elem_of_singleton|]; [by right; right|by left].
        -- intros x Hx. destruct (Hnew x Hx) as (? & ? & ?). set_solver.
      * exists ((c, join_path cp n) :: new). rewrite <- app_assoc. split_and!; [done|set_solver|done| | |].
        -- intros x Hx. rewrite fmap_cons. simpl. destruct (Hs x Hx) as [Hx'|[?|?]]; set_solver.
        -- rewrite fmap_cons. simpl. apply NoDup_cons. split; [|done].
           intros Hx. destruct (Hnew c Hx) as (_ & ? & _). set_solver.
        -- intros x. rewrite fmap_cons. simpl. intros [->|Hx]%elem_of_cons; [done|].
           destruct (Hnew x Hx) as (? & ? & ?). set_solver.
Qed.

Lemma path_measure s (seen seen' : gset Z) (new : list (Z * string)) :
  seen ⊆ seen' -> NoDup new.*1 ->
  (forall c, c ∈ new.*1 -> c ∈ seen' /\ (c ∉ seen) /\ c ∈ dom (Nodes s)) ->
  (length new + size (dom (Nodes s) ∖ seen') <= size (dom (Nodes s) ∖ seen))%nat.
Proof.
  intros Hsub Hnd Hnew.
  assert (Hd : list_to_set (C := gset Z) new.*1 ## dom (Nodes s) ∖ seen').
  { intros x Hx. apply elem_of_list_to_set in Hx. destruct (Hnew x Hx). set_solver. }
  rewrite <- (length_fmap fst new), <- (size_list_to_set (C := gset Z) new.*1) by done.
  rewrite <- size_union by done. apply subseteq_size. intros x.
  rewrite elem_of_union, elem_of_list_to_set. intros [Hx|Hx]; [|set_solver].
  destruct (Hnew x Hx) as (? & ? & ?). set_solver.
Qed.

Lemma path_loop_total fuel s t seen q :
  (length q + size (dom (Nodes s) ∖ seen) < fuel)%nat -> is_Some (path_loop fuel s t seen q).
Proof.
  revert seen q. induction fuel as [|fuel IH]; intros seen q Hf; [lia|]. simpl.
  destruct q as [|[d cp] q]; [eauto|].
  destruct (path_scan _ _ _ _ _ _ _) as [p|[seen' q']] eqn:E; [eauto|].
  apply path_scan_inr in E as (new & -> & Hsub & _ & _ & Hnd & Hnew).
  apply IH. rewrite length_app. pose proof (path_measure s seen seen' new Hsub Hnd Hnew).
  simpl in Hf. lia.
Qed.

(** The children of [d] have been visited and are not the target. *)
Definition expanded (s : SnapshotState) (t : Z) (seen : gset Z) (d : Z) : Prop :=
  forall n c, dir_of (Children s) d !! n = Some c -> c ∈ seen /\ c <> t.

Lemma not_dir_expanded s t seen d : wf s -> ~ is_directory s d -> expanded s t seen d.
Proof.
  intros W Hd n c Hc. destruct Hd. unfold dir_of in Hc.
  destruct (Children s !! d) eqn:E; simpl in Hc; [|by apply lookup_empty_Some in Hc].
  apply (wf_dirs _ W). eauto.
Qed.

Lemma path_loop_none fuel s t seen q :
  wf s -> RootInode ∈ seen -> (forall d, d ∈ seen -> d ∈ q.*1 \/ expanded s t seen d) ->
  path_loop fuel s t seen q = Some None ->
  exists seen', RootInode ∈ seen' /\ forall d, d ∈ seen' -> expanded s t seen' d.
Proof.
  intros W. revert seen q. induction fuel as [|fuel IH]; intros seen q Hr Hinv; simpl; [done|].
  destruct q as [|[d cp] q].
  { intros _. exists seen. split; [done|]. intros d Hd. destruct (Hinv d Hd) as [H|]; [|done].
    by apply not_elem_of_nil in H. }
  destruct (path_scan _ _ _ _ _ _ _) as [p|[seen' q']] eqn:E; [done|].
  apply path_scan_inr in E as (new & -> & Hsub & Hn & Hs & _ & _).
  apply IH; [by apply Hsub|]. intros x Hx. rewrite fmap_app.
  assert (Hmono : forall y, expanded s t seen y -> expanded s t seen' y).
  { intros y Hy n c Hc. destruct (Hy n c Hc). split; [by apply Hsub|done]. }
  destruct (Hs x Hx) as [Hx'|[Hx'|Hx']]; [|left; set_solver|right; by apply not_dir_expanded].
  destruct (Hinv x Hx') as [Hq|Hq]; [|right; by apply Hmono].
  rewrite fmap_cons in Hq. apply elem_of_cons in Hq as [->|Hq]; [|left; set_solver].
  right. intros n c Hc. simpl in Hc. specialize (Hn n). rewrite Hc in Hn. apply Hn.
  apply elem_of_sorted_names. eauto.
Qed.

Lemma walk_stays s t seen ns i j :
  (forall d, d ∈ seen -> expanded s t seen d) -> i ∈ seen -> i <> t -> walk s i ns = Some j -> j <> t.
Proof.
  intros Hc. revert i. induction ns as [|n ns IH]; intros i Hi Ht; simpl; [congruence|].
  destruct (dir_of (Children s) i !! n) as [c|] eqn:E; [|done].
  destruct (Hc i Hi n c E). by apply IH.
Qed.

Lemma pathLocked_loop s t :
  t <> RootInode -> is_Some (Nodes s !! t) ->
  exists r, path_loop (path_fuel s) s t {[RootInode]} [(RootInode, "/")] = Some r /\ pathLocked s t = r.
Proof.
  intros Ht [n Hn]. unfold pathLocked. rewrite (proj2 (Z.eqb_neq _ _) Ht), Hn.
  destruct (path_loop_total (path_fuel s) s t {[RootInode]} [(RootInode, "/")]) as [r Hr].
  - unfold path_fuel. simpl. rewrite <- (size_dom (D := gset Z) (Nodes s)).
    pose proof (subseteq_size (dom (Nodes s) ∖ {[RootInode]}) (dom (Nodes s))) as H.
    assert (dom (Nodes s) ∖ {[RootInode]} ⊆ dom (Nodes s)) by set_solver. specialize (H H0). lia.
  - exists r. split; [done|]. by rewrite Hr.
Qed.

Lemma pathLocked_sound s t p :
  pathLocked s t = Some p -> exists ns, walk s RootInode ns = Some t /\ p = render ns.
Proof.
  unfold pathLocked. destruct (t =? RootInode) eqn:E.
  - apply Z.eqb_eq in E as ->. intros [= <-]. by exists [].
  - apply Z.eqb_neq in E. destruct (Nodes s !! t) as [n|] eqn:Hn; [|done].
    destruct (path_loop _ _ _ _ _) as [[p'|]|] eqn:El; simpl; try done. intros [= <-].
    eapply path_loop_sound; [|exact El]. apply Forall_singleton. by exists [].
Qed.

Lemma walk_node s ns t :
  wf s -> walk s RootInode ns = Some t -> is_Some (Nodes s !! t).
Proof.
  intros W. destruct ns as [|n ns _] using rev_ind; simpl.
  - intros [= <-]. destruct (wf_root _ W) as (n & -> & _). eauto.
  - rewrite walk_snoc. destruct (walk s RootInode ns); simpl; [|done]. intros H.
    by apply (wf_entry _ W _ _ _ H).
Qed.

Lemma pathLocked_complete s t ns :
  wf s -> walk s RootInode ns = Some t -> is_Some (pathLocked s t).
Proof.
  intros W Hw. destruct (decide (t = RootInode)) as [->|Ht]; [by eexists|].
  destruct (pathLocked_loop s t Ht (walk_node _ _ _ W Hw)) as ([p|] & Hl & ->); [eauto|].
  assert (Hinv : forall d, d ∈ ({[RootInode]} : gset Z) ->
            d ∈ [(RootInode, "/")].*1 \/ expanded s t {[RootInode]} d).
  { intros d ->%elem_of_singleton. left. simpl. set_solver. }
  destruct (path_loop_none _ _ _ _ _ W (elem_of_singleton_2 _ _ eq_refl) Hinv Hl) as (seen & Hr & Hc).
  by destruct (walk_stays _ _ _ _ _ _ Hc Hr (not_eq_sym Ht) Hw).
Qed.

(** ** Claims *)

(** [Path] finds a path exactly when there is one.  On an open, well-formed engine
    it returns, for every inode that some list of names leads to from the root, the
    path string of such a list, and nothing for any other inode; the search always
    ends. *)
Theorem path_spec w i
    (Hw : world_ok w) (Hopen : closed (eng w) = false) :
  (forall p, Path w i = Some p ->
     exists names, walk (core (eng w)) RootInode names = Some i /\ p = render names) /\
  ((exists names, walk (core (eng w)) RootInode names = Some i) -> is_Some (Path w i)) /\
  (i <> RootInode -> is_Some (Nodes (core (eng w)) !! i) ->
     is_Some (path_loop (path_fuel (core (eng w))) (core (eng w)) i {[RootInode]} [(RootInode, "/")])).
Proof.
  unfold Path. rewrite Hopen. split; [|split].
  - intros p. apply pathLocked_sound.
  - intros [ns Hn]. by eapply pathLocked_complete; [apply Hw|].
  - intros Hi Hn. destruct (pathLocked_loop _ _ Hi Hn) as (r & -> & _). eauto.
Qed.

(** ** Renaming *)

Lemma flat_lookup s p n : flat (Children s) !! (p, n) = dir_of (Children s) p !! n.
Proof. apply lookup_flat. Qed.

(** A directory has one entry. *)
Lemma dir_one_entry s c p n p' n' :
  wf s -> is_directory s c -> dir_of (Children s) p !! n = Some c ->
  dir_of (Children s) p' !! n' = Some c -> (p, n) = (p', n').
Proof.
  intros W (d & Hd & Hdd) H1 H2. rewrite <- lookup_flat in H1, H2.
  destruct (decide ((p, n) = (p', n'))) as [|Hne]; [done|]. exfalso.
  destruct (wf_node _ W _ _ Hd) as (_ & _ & _ & Hr & Hl). specialize (Hl Hdd). unfold refs in Hr.
  rewrite (entry_count_delete _ _ _ c H1), decide_True in Hr by done.
  rewrite <- (lookup_delete_ne (flat (Children s)) (p, n)) in H2 by done.
  apply entry_count_pos in H2. lia.
Qed.

Lemma flat_rename s p n p' n' i nd :
  is_directory s p' -> wf s ->
  flat (Children (rename_state p n p' n' i nd s)) = <[(p', n') := i]> (delete (p, n) (flat (Children s))).
Proof.
  intros (d & Hd & Hdd) W. unfold rename_state. simpl. rewrite <- flat_del.
  assert (Hs : is_Some (alter (delete n) p (Children s) !! p')).
  { destruct (decide (p' = p)) as [->|].
    - rewrite lookup_alter_eq. rewrite (wf_dir_table _ _ _ W Hd Hdd). by eexists.
    - rewrite lookup_alter_ne by congruence. rewrite (wf_dir_table _ _ _ W Hd Hdd). by eexists. }
  destruct Hs as [m Hm]. unfold dir_of at 1. rewrite Hm. by apply flat_put.
Qed.

Lemma guard_ok_inv {A B} (m : Eng A) (k : A -> Eng B) w r x w' :
  m w = (r, w) -> bind m k w = (Ok x, w') -> exists a, r = Ok a /\ k a w = (Ok x, w').
Proof. unfold bind. intros ->. destruct r; [eauto|done..]. Qed.

(** What a successful [Rename] did. *)
Lemma Rename_inv `{CR : ColdReader} env p n p' n' w w' :
  world_ok w -> Rename env p n p' n' w = (Ok tt, w') ->
  closed (eng w') = false /\
  exists i nd, dir_of (Children (core (eng w))) p !! n = Some i /\ Nodes (core (eng w)) !! i = Some nd /\
    is_directory (core (eng w)) p' /\ Nodes (core (eng w')) !! i = Some (node_set_Ctime (env_now env) nd) /\
    (forall j, j <> i -> Nodes (core (eng w')) !! j = Nodes (core (eng w)) !! j) /\
    flat (Children (core (eng w'))) = <[(p', n') := i]> (delete (p, n) (flat (Children (core (eng w))))).
Proof.
  intros W Hr. unfold Rename, bind at 1, checkOpen in Hr. destruct (closed (eng w)) eqn:Hcl; [done|].
  destruct (decide _); [done|].
  apply (guard_ok_inv _ _ _ _ _ _ (run_core_guard _ _ _ (lookup_wf _ _ _ (ok_core _ W)))) in Hr as (i0 & _ & Hr).
  apply (guard_ok_inv _ _ _ _ _ _ (run_core_guard _ _ _ (ensureDir_wf _ _ (ok_core _ W)))) in Hr as (u & _ & Hr).
  eapply content_call_inv in Hr as (_ & Hcl' & Ha); [|intros r0 [= <-]; apply log_apply_ret].
  split; [by rewrite Hcl'|]. unfold apply in Ha; simpl in Ha.
  assert (W1 : wf (core (eng (numbered w)))) by (apply wf_set_NextSeq, W).
  destruct (applyRename_cases _ (mkRecord (NextSeq (core (eng w))) OpRename 0 p n p' n' TypeUnset 0 0 [] ""
     (env_now env)) W1) as [[e He]|(i & nd & He & Hi & Hn & _ & Hd')]; simpl in *; [congruence|].
  assert (Hcore : core (eng w') = rename_state p n p' n' i (node_set_Ctime (env_now env) nd)
                    (core (eng (numbered w)))) by (simpl in *; congruence).
  exists i, nd. split_and!; [done|done|done| | |].
  - rewrite Hcore. apply lookup_insert_eq.
  - intros j Hj. rewrite Hcore. simpl. by rewrite lookup_insert_ne by congruence.
  - rewrite Hcore. by rewrite flat_rename.
Qed.

Lemma walk_keeps s (P : Z -> Prop) ns i j :
  (forall x n c, P x -> dir_of (Children s) x !! n = Some c -> P c) -> P i -> walk s i ns = Some j -> P j.
Proof.
  intros HP. revert i. induction ns as [|n ns IH]; intros i Hi; simpl; [congruence|].
  destruct (dir_of (Children s) i !! n) as [c|] eqn:E; [|done]. eauto.
Qed.

Lemma entry_is_directory s p n i : wf s -> dir_of (Children s) p !! n = Some i -> is_directory s p.
Proof.
  intros W H. apply (wf_dirs _ W). unfold dir_of in H.
  destruct (Children s !! p); [eauto|]. simpl in H. by apply lookup_empty_Some in H.
Qed.

(** The directories below [i] are unreachable once the entry of [i] has moved below [i]. *)
Lemma detached s s' p n p' n' i inside :
  wf s -> is_directory s i -> is_directory s p' -> dir_of (Children s) p !! n = Some i ->
  walk s i inside = Some p' ->
  flat (Children s') = <[(p', n') := i]> (delete (p, n) (flat (Children s))) ->
  forall ns, walk s' RootInode ns <> Some i.
Proof.
  intros W Hi Hp' Hp Hin Hfl ns Hw.
  set (below := fun x => is_directory s x /\ exists l, walk s i l = Some x).
  assert (Hb : ~ below i); [|apply Hb; split; [done|by exists []]].
  apply (walk_keeps s' (fun x => ~ below x) ns RootInode i); [| |done].
  - intros x m c Hx Hc [Hcd [l Hl]]. apply Hx. rewrite <- lookup_flat, Hfl in Hc.
    apply lookup_insert_Some in Hc as [[[= <- <-] <-]|[Hne Hc]].
    + split; [done|by exists inside].
    + apply lookup_delete_Some in Hc as [Hne' Hc]. rewrite lookup_flat in Hc.
      destruct l as [|k l _] using rev_ind.
      * injection Hl as ->. by destruct Hne'; eapply dir_one_entry.
      * rewrite walk_snoc in Hl. destruct (walk s i l) as [y|] eqn:Hy; simpl in Hl; [|done].
        pose proof (dir_one_entry _ _ _ _ _ _ W Hcd Hc Hl) as [= -> ->].
        split; [by eapply entry_is_directory|eauto].
  - intros [_ [l Hl]]. destruct l as [|k l _] using rev_ind.
    + injection Hl as ->. by apply (wf_entry _ W) in Hp as [? _].
    + rewrite walk_snoc in Hl. destruct (walk s i l) as [y|]; simpl in Hl; [|done].
      by apply (wf_entry _ W) in Hl as [? _].
Qed.

(** [Rename] does not refuse to move a directory into itself or into one of its
    subdirectories.  It succeeds, and afterwards no path leads to the directory: it
    and everything below it still exist but cannot be reached any more. *)
Theorem rename_into_subtree_detaches `{CR : ColdReader} env p n p' n' w w' i inside
    (Hw : world_ok w) (Hentry : dir_of (Children (core (eng w))) p !! n = Some i)
    (Hdir : is_directory (core (eng w)) i)
    (Hinside : walk (core (eng w)) i inside = Some p')
    (Hok : Rename env p n p' n' w = (Ok tt, w')) :
  is_Some (Nodes (core (eng w')) !! i) /\ Path w' i = None /\
  forall names, walk (core (eng w')) RootInode names <> Some i.
Proof.
  destruct (Rename_inv _ _ _ _ _ _ _ Hw Hok) as (Hcl & i' & nd & Hi' & Hn & Hd' & Hnew & _ & Hfl).
  assert (i' = i) as -> by congruence.
  assert (Hno : forall names, walk (core (eng w')) RootInode names <> Some i).
  { eapply detached; [apply Hw|exact Hdir|exact Hd'|exact Hentry|exact Hinside|exact Hfl]. }
  split; [eauto|]. split; [|done]. unfold Path. rewrite Hcl.
  destruct (pathLocked _ i) eqn:E; [|done]. apply pathLocked_sound in E as (ns & Hns & _).
  by destruct (Hno ns).
Qed.

(** [Rename] onto an existing name drops the entry of the file that was there but
    not its link: the file keeps its link count, which now exceeds the number of its
    names, so that it is never freed. *)
Theorem rename_overwrite_leaks `{CR : ColdReader} env p n p' n' w w' i j nj
    (Hw : world_ok w) (Hentry : dir_of (Children (core (eng w))) p !! n = Some i)
    (Htarget : dir_of (Children (core (eng w))) p' !! n' = Some j) (Hij : j <> i)
    (Hnode : Nodes (core (eng w)) !! j = Some nj)
    (Hok : Rename env p n p' n' w = (Ok tt, w')) :
  Nodes (core (eng w')) !! j = Some nj /\ refs (core (eng w')) j = refs (core (eng w)) j - 1 /\
  refs (core (eng w')) j < n_Nlink nj.
Proof.
  destruct (Rename_inv _ _ _ _ _ _ _ Hw Hok) as (_ & i' & nd & Hi' & _ & _ & _ & Hoth & Hfl).
  assert (i' = i) as -> by congruence. rewrite <- lookup_flat in Hentry, Htarget.
  assert (Hr : refs (core (eng w')) j = refs (core (eng w)) j - 1).
  { assert (Hne : (p, n) <> (p', n')) by congruence.
    unfold refs. rewrite Hfl.
    assert (Ht : delete (p, n) (flat (Children (core (eng w)))) !! (p', n') = Some j)
      by (by rewrite lookup_delete_ne).
    rewrite <- insert_delete_eq, entry_count_insert_new by apply lookup_delete_eq.
    rewrite decide_False by congruence.
    rewrite (entry_count_delete (flat (Children (core (eng w)))) (p, n) i j Hentry), decide_False by congruence.
    rewrite (entry_count_delete _ (p', n') j j Ht), decide_True by done. lia. }
  split; [by rewrite Hoth|]. split; [done|].
  destruct (wf_node _ (ok_core _ Hw) _ _ Hnode) as (_ & _ & _ & ? & _). lia.
Qed.

(** ** Instances *)

Lemma path_spec_witness : is_Some (Path sample 3) /\ Path sample 3 = Some "/f".
Proof.
  split; [|vm_compute; reflexivity].
  apply (path_spec sample 3 sample_ok eq_refl). exists ["f"]. vm_compute. reflexivity.
Defined.

Lemma rename_into_subtree_detaches_witness :
  Path (Rename (CR := no_cold) (calm 8) 1 "a" 2 "b" sample).2 2 = None.
Proof.
  apply (rename_into_subtree_detaches (CR := no_cold) (calm 8) 1 "a" 2 "b" sample _ 2 [] sample_ok);
    [vm_compute; reflexivity| |vm_compute; reflexivity|vm_compute; reflexivity].
  eexists. split; vm_compute; reflexivity.
Defined.

Lemma rename_overwrite_leaks_witness :
  refs (core (eng (Rename (CR := no_cold) (calm 8) 1 "f" 1 "g" sample).2)) 4 < 1.
Proof.
  apply (rename_overwrite_leaks (CR := no_cold) (calm 8) 1 "f" 1 "g" sample _ 3 4 (sample_node 4 TypeFile 0) sample_ok);
    [vm_compute; reflexivity|vm_compute; reflexivity|discriminate|vm_compute; reflexivity|vm_compute; reflexivity].
Defined.
