(* ===== verification/S0fsSnapshot.v ===== *)
(** * s0fs: detached snapshot states (snapshot.go)

    The read operations of a [SnapshotState] outside an engine, [LoadSnapshot] and
    [PrepareForkState], with the theorems on snapshots: what [CreateSnapshot] saves
    is what [RestoreSnapshot] brings back, and what a fork shares with its source. *)

From stdpp Require Import base gmap strings list fin_maps numbers sorting.
From Stdlib Require Import Strings.Byte.
From S2P Require Import Prelude GoStd S0fsTypes S0fsCore S0fsEngine S0fsInv S0fsSafety S0fsFiles.

Local Open Scope Z_scope.

(** ** Reading a detached state *)

(** A nil state is [None]; a directory without a table has the nil map. *)
Definition SnapshotState_Lookup (s : option SnapshotState) (parent : Z) (name : string) : gores Node :=
  match s with
  | None => Err ErrNotFound
  | Some s =>
      match Children s !! parent with
      | None => Err ErrNotDir
      | Some children =>
          match children !! name with
          | None => Err ErrNotFound
          | Some inode => match Nodes s !! inode with Some node => Ok node | None => Err ErrNotFound end
          end
      end
  end.

Definition SnapshotState_GetAttr (s : option SnapshotState) (inode : Z) : gores Node :=
  match s with
  | None => Err ErrNotFound
  | Some s => match Nodes s !! inode with Some node => Ok node | None => Err ErrNotFound end
  end.

Definition SnapshotState_ReadDir (s : option SnapshotState) (inode : Z) : gores (list DirEntry) :=
  match s with
  | None => Err ErrNotFound
  | Some s =>
      match Nodes s !! inode with
      | None => Err ErrNotFound
      | Some node => if negb (is_dir node) then Err ErrNotDir else Ok (ReadDir_entries s inode)
      end
  end.

Definition SnapshotState_Read (s : option SnapshotState) (inode offset size : Z) : gores (list byte) :=
  match s with
  | None => Err ErrNotFound
  | Some s =>
      match Nodes s !! inode with
      | None => Err ErrNotFound
      | Some node =>
          if is_dir node then Err ErrIsDir else
          let payload := data_of s inode in
          if (zlen payload =? 0) && (0 <? zlen (cold_of s inode)) then Err ErrInvalidInput else
          if zlen payload <=? offset then Ok [] else
          let end_ := u64 (offset + size) in
          let end_ := if zlen payload <? end_ then zlen payload else end_ in
          goslice offset end_ payload
      end
  end.

Definition LoadSnapshot (walPath snapshotID : string) (d : Disk) : gores SnapshotState :=
  if decide (walPath = "") then Err ErrInvalidInput else
  match d_snaps d !! snapshotID with Some st => Ok st | None => Err ErrSnapshotNotFound end.

(** ** Forks *)

Definition set_VolumeID (v : string) (g : Segment) : Segment :=
  mkSegment (sg_ID g) v (sg_Key g) (sg_Length g) (sg_SHA256 g) (sg_Encryption g).

(** [if strings.TrimSpace(segment.VolumeID) == "" { segment.VolumeID = v }] *)
Definition own_segment (v : string) (g : Segment) : Segment :=
  if decide (TrimSpace (sg_VolumeID g) = "") then set_VolumeID v g else g.

(** The loop over the extents of one file; the segments are shared by pointer. *)
Fixpoint fork_extents (v : string) (extents : list FileExtent) (segs : gmap string Segment)
    : gores (gmap string Segment) :=
  match extents with
  | [] => Ok segs
  | x :: rest =>
      match segs !! x_SegmentID x with
      | None => Err ErrInvalidInput
      | Some g => fork_extents v rest (<[x_SegmentID x := own_segment v g]> segs)
      end
  end.

(** The loop over the cold files, in some order: the files kept and the segments. *)
Fixpoint fork_files (v : string) (nodes : gmap Z Node) (files : list (Z * list FileExtent))
    (cold : gmap Z (list FileExtent)) (segs : gmap string Segment)
    : gores (gmap Z (list FileExtent) * gmap string Segment) :=
  match files with
  | [] => Ok (cold, segs)
  | (i, extents) :: rest =>
      match nodes !! i with
      | None => fork_files v nodes rest (delete i cold) segs
      | Some _ =>
          let? segs' := fork_extents v extents segs in
          fork_files v nodes rest cold segs'
      end
  end.

Definition PrepareForkState (state : option SnapshotState) (sourceVolumeID : string)
    : gores SnapshotState :=
  let v := TrimSpace sourceVolumeID in
  if decide (v = "") then Err ErrInvalidInput else
  match state with
  | None => Err ErrInvalidInput
  | Some s =>
      if decide (map_Forall (fun _ payload => payload = []) (Data s)) then
        let? cs := fork_files v (Nodes s) (map_to_list (ColdFiles s)) (ColdFiles s) (Segments s) in
        Ok (mkState (NextSeq s) (NextInode s) (Nodes s) (Children s) ∅ cs.1 cs.2)
      else Err ErrInvalidInput
  end.

(** ** What a fork keeps *)

Lemma own_segment_idem v g : own_segment v (own_segment v g) = own_segment v g.
Proof.
  unfold own_segment. destruct (decide (TrimSpace (sg_VolumeID g) = "")) as [|Hg].
  - destruct g. simpl. by destruct (decide _).
  - by rewrite decide_False.
Qed.

(** Segments that were given an owner or left alone. *)
Definition owned (v : string) (segs segs' : gmap string Segment) : Prop :=
  forall id, match segs !! id with
             | None => segs' !! id = None
             | Some g => segs' !! id = Some g \/ segs' !! id = Some (own_segment v g)
             end.

Lemma owned_refl v segs : owned v segs segs.
Proof. intros id. destruct (segs !! id); auto. Qed.

Lemma owned_step v segs0 segs id g :
  owned v segs0 segs -> segs !! id = Some g ->
  owned v segs0 (<[id := own_segment v g]> segs) /\
  exists g0, segs0 !! id = Some g0 /\ own_segment v g = own_segment v g0.
Proof.
  intros H Hg. pose proof (H id) as Hid. rewrite Hg in Hid.
  destruct (segs0 !! id) as [g0|] eqn:E0; [|done].
  assert (Hown : own_segment v g = own_segment v g0).
  { destruct Hid as [[= <-]|[= ->]]; [done|apply own_segment_idem]. }
  split; [|eauto]. intros id'. destruct (decide (id' = id)) as [->|].
  - rewrite E0, lookup_insert_eq, Hown. by right.
  - rewrite lookup_insert_ne by congruence. apply H.
Qed.

Lemma fork_extents_spec v segs0 xs segs segs' :
  owned v segs0 segs -> fork_extents v xs segs = Ok segs' ->
  owned v segs0 segs' /\
  (forall id g, segs0 !! id = Some g -> segs !! id = Some (own_segment v g) ->
     segs' !! id = Some (own_segment v g)) /\
  (forall x, x ∈ xs -> exists g, segs0 !! x_SegmentID x = Some g /\
     segs' !! x_SegmentID x = Some (own_segment v g)).
Proof.
  revert segs. induction xs as [|x xs IH]; intros segs Ho; simpl.
  - intros [= <-]. split; [done|]. split; [done|]. intros x Hx. by apply not_elem_of_nil in Hx.
  - destruct (segs !! x_SegmentID x) as [g|] eqn:Hg; [|done]. intros Hf.
    destruct (owned_step v segs0 segs _ _ Ho Hg) as [Ho' (g0 & Hg0 & Heq)].
    destruct (IH _ Ho' Hf) as (H1 & H2 & H3). split; [done|]. split.
    + intros id g' Hg' Hs. apply H2; [done|]. destruct (decide (id = x_SegmentID x)) as [->|].
      * rewrite lookup_insert_eq, Heq. congruence.
      * by rewrite lookup_insert_ne by congruence.
    + intros y [->|Hy]%elem_of_cons; [|by apply H3]. exists g0. split; [done|].
      apply H2; [done|]. by rewrite lookup_insert_eq, Heq.
Qed.

Lemma fork_files_spec v nodes segs0 fs cold segs cold' segs' :
  owned v segs0 segs -> fork_files v nodes fs cold segs = Ok (cold', segs') ->
  owned v segs0 segs' /\
  (forall id g, segs0 !! id = Some g -> segs !! id = Some (own_segment v g) ->
     segs' !! id = Some (own_segment v g)) /\
  (forall i, cold' !! i = if decide (i ∈ fs.*1 /\ nodes !! i = None) then None else cold !! i) /\
  (forall i xs x, (i, xs) ∈ fs -> is_Some (nodes !! i) -> x ∈ xs ->
     exists g, segs0 !! x_SegmentID x = Some g /\ segs' !! x_SegmentID x = Some (own_segment v g)).
Proof.
  revert cold segs. induction fs as [|[i xs] fs IH]; intros cold segs Ho; cbn [fork_files].
  - intros [= <- <-]. split_and!; [done|done| |].
    + intros i. rewrite decide_False; [done|]. intros [H _]. by apply not_elem_of_nil in H.
    + intros ? ? ? H. by apply not_elem_of_nil in H.
  - destruct (nodes !! i) as [n|] eqn:Hn.
    + destruct (fork_extents v xs segs) as [segs1| |] eqn:Hx; simpl; [|done..]. intros Hf.
      destruct (fork_extents_spec v segs0 xs segs segs1 Ho Hx) as (Ho1 & Hk1 & Hx1).
      destruct (IH _ _ Ho1 Hf) as (H1 & H2 & H3 & H4). split_and!; [done|by eauto| |].
      * intros j. rewrite H3. apply decide_ext. simpl. rewrite elem_of_cons. split; [tauto|].
        intros [[->|?] ?]; [congruence|tauto].
      * intros j ys y [[= -> ->]|Hj]%elem_of_cons Hs Hy; [|by eapply H4].
        destruct (Hx1 y Hy) as (g & Hg & Hg1). exists g. eauto.
    + intros Hf. destruct (IH _ _ Ho Hf) as (H1 & H2 & H3 & H4). split_and!; [done|done| |].
      * intros j. rewrite H3. destruct (decide (j = i)) as [->|Hj].
        -- rewrite (decide_True (P := i ∈ ((i, xs) :: fs).*1 /\ nodes !! i = None)) by (split; [constructor|done]).
           rewrite lookup_delete_eq. by destruct (decide _).
        -- rewrite lookup_delete_ne by congruence. apply decide_ext. simpl. rewrite elem_of_cons. tauto.
      * intros j ys y [[= -> ->]|Hj]%elem_of_cons Hs Hy; [by rewrite Hn in Hs; destruct Hs|by eapply H4].
Qed.

(** ** What a snapshot keeps *)

Section snapshots.
Context `{CR : ColdReader}.

Lemma export_loop_lookup s js acc d :
  export_loop s js acc = Ok d ->
  forall i, match Nodes s !! i with
            | Some n => if decide (i ∈ js) then exists p, readColdRangeLocked s i 0 (n_Size n) = Ok p /\ d !! i = Some p
                        else d !! i = acc !! i
            | None => d !! i = acc !! i
            end.
Proof.
  revert acc. induction js as [|j js IH]; intros acc; simpl.
  - intros [= <-] i. by destruct (Nodes s !! i).
  - destruct (Nodes s !! j) as [nj|] eqn:Hj.
    + destruct (readColdRangeLocked s j 0 (n_Size nj)) as [p| |] eqn:Hp; simpl; [|done..].
      intros Hd i. specialize (IH _ Hd i). destruct (decide (i = j)) as [->|Hij].
      * rewrite Hj in IH |- *. rewrite decide_True by constructor.
        destruct (decide (j ∈ js)); [done|]. rewrite lookup_insert_eq in IH. eauto.
      * rewrite lookup_insert_ne in IH by congruence. destruct (Nodes s !! i); [|done].
        destruct (decide (i ∈ js)).
        -- rewrite decide_True by (by constructor). done.
        -- rewrite decide_False; [done|]. by intros [?|?]%elem_of_cons.
    + intros Hd i. specialize (IH _ Hd i). destruct (Nodes s !! i) eqn:Hi; [|done].
      assert (i <> j) by congruence. destruct (decide (i ∈ js)).
      * rewrite decide_True by (by constructor). done.
      * rewrite decide_False; [done|]. by intros [?|?]%elem_of_cons.
Qed.

(** No file has both an inline payload and a list of extents. *)
Definition one_store (s : SnapshotState) : Prop :=
  forall i, data_of s i = [] \/ ColdFiles s !! i = None.

(** The exported state has the content of every file inline. *)
Lemma export_content s s' i n :
  one_store s -> exportStateLocked s = Ok s' -> Nodes s !! i = Some n ->
  Nodes s' = Nodes s /\ Children s' = Children s /\ NextInode s' = NextInode s /\ ColdFiles s' = ∅ /\
  file_content s i = Ok (data_of s' i).
Proof.
  intros H1. unfold exportStateLocked. destruct (decide (ColdFiles s = ∅)) as [Hc|Hc].
  - intros [= <-] Hn. split_and!; try done. unfold file_content, is_hot, cold_of. rewrite Hc, lookup_empty.
    simpl. by rewrite orb_true_r.
  - destruct (export_loop _ _ _) as [d| |] eqn:Hd; simpl; [|done..]. intros [= <-] Hn. split_and!; try done.
    pose proof (export_loop_lookup _ _ _ _ Hd i) as Hl. rewrite Hn in Hl. unfold data_of. simpl.
    unfold file_content, is_hot. rewrite Hn. specialize (H1 i).
    destruct (ColdFiles s !! i) as [xs|] eqn:Hx.
    + rewrite decide_True in Hl.
      2: { apply list_elem_of_fmap. exists (i, xs). split; [done|]. by apply elem_of_map_to_list. }
      destruct Hl as (p & Hp & ->). destruct H1 as [Hd0|]; [|done]. rewrite Hd0. simpl.
      unfold cold_of at 1. rewrite Hx. simpl. destruct (zlen xs =? 0) eqn:E; [|done].
      apply Z.eqb_eq, zlen_nil_iff in E as ->. unfold readColdRangeLocked in Hp.
      destruct (negb cold_enabled); [done|]. unfold cold_of in Hp. rewrite Hx in Hp. simpl in Hp. congruence.
    + rewrite decide_False in Hl.
      2: { intros ([j ys] & -> & Hj%elem_of_map_to_list)%list_elem_of_fmap. simpl in Hx. congruence. }
      unfold cold_of. rewrite Hx. simpl. rewrite orb_true_r. unfold data_of. by rewrite Hl.
Qed.

End snapshots.

(** ** Claims *)

(** A fork shares the tree and the cold data of its source and nothing else.  When
    [PrepareForkState] succeeds, the source has no inline data; nodes, directories
    and counters are those of the source; a cold file is kept exactly when its inode
    exists; and every segment such a file uses is in the fork, with the owner it had
    or, if it had none, the source volume. *)
Theorem fork_spec s src f
    (Hok : PrepareForkState (Some s) src = Ok f) :
  (forall i, data_of s i = []) /\
  (NextSeq f, NextInode f, Nodes f, Children f, Data f) = (NextSeq s, NextInode s, Nodes s, Children s, ∅) /\
  (forall i, ColdFiles f !! i = match Nodes s !! i with Some _ => ColdFiles s !! i | None => None end) /\
  (forall i xs x, ColdFiles f !! i = Some xs -> x ∈ xs ->
     exists g, Segments s !! x_SegmentID x = Some g /\
       Segments f !! x_SegmentID x = Some (own_segment (TrimSpace src) g)) /\
  (forall id g, Segments f !! id = Some g ->
     exists g0, Segments s !! id = Some g0 /\ (g = g0 \/ g = own_segment (TrimSpace src) g0)).
Proof.
  unfold PrepareForkState in Hok. destruct (decide (TrimSpace src = "")) as [|Hsrc]; [done|].
  destruct (decide _) as [Hd|]; [|done].
  destruct (fork_files _ _ _ _ _) as [[cold segs]| |] eqn:Hf; simpl in Hok; [|done..]. injection Hok as <-.
  destruct (fork_files_spec _ _ _ _ _ _ _ _ (owned_refl _ _) Hf) as (H1 & _ & H3 & H4). simpl.
  assert (Hc : forall i, cold !! i = match Nodes s !! i with Some _ => ColdFiles s !! i | None => None end).
  { intros i. rewrite H3. destruct (Nodes s !! i) as [n|] eqn:Hn; [by rewrite decide_False by naive_solver|].
    destruct (decide _) as [|Hno]; [done|]. apply eq_None_not_Some. intros [xs Hxs]. apply Hno. split; [|done].
    apply list_elem_of_fmap. exists (i, xs). split; [done|]. by apply elem_of_map_to_list. }
  split_and!; [|done|exact Hc| |].
  - intros i. unfold data_of. destruct (Data s !! i) as [p|] eqn:E; simpl; [by apply (Hd _ _ E)|done].
  - intros i xs x Hi Hx. rewrite Hc in Hi. destruct (Nodes s !! i) as [n|] eqn:Hn; [|done].
    apply (H4 i xs x); [by apply elem_of_map_to_list|eauto|done].
  - intros id g Hg. specialize (H1 id). destruct (Segments s !! id) as [g0|]; [|congruence].
    exists g0. split; [done|]. naive_solver.
Qed.

Lemma CreateSnapshot_inv `{CR : ColdReader} env id w st w' :
  CreateSnapshot env id w = (Ok st, w') ->
  exportStateLocked (core (eng w)) = Ok st /\ d_snaps (disk w') !! id = Some (json_state st).
Proof.
  unfold CreateSnapshot, bind, checkOpen, get. destruct (closed (eng w)); [done|].
  destruct (decide (id = "")); [done|]. unfold lift_res.
  destruct (exportStateLocked (core (eng w))) as [st'| |]; [|done..].
  destruct (env_save env); [|done]. intros [= <- <-]. split; [done|]. simpl. by rewrite lookup_insert_eq.
Qed.

Lemma RestoreSnapshot_inv env id w w' :
  RestoreSnapshot env id w = (Ok tt, w') ->
  exists st, d_snaps (disk w) !! id = Some st /\
    (wf st -> exists q, q = Z.max (NextSeq st) (Z.max (u64 (NextSeq (core (eng w)) + 1))
                                                (u64 (lastCommittedManifest (eng w) + 2))) /\
      (0 < q -> core (eng w') = collectUnlinkedLocked (set_NextSeq q st))).
Proof.
  unfold RestoreSnapshot, bind at 1 2, checkOpen, get. destruct (closed (eng w)); [done|].
  destruct (d_snaps (disk w) !! id) as [st|]; [|done]. intros H. exists st. split; [done|]. intros W.
  eexists. split; [done|]. intros Hq. revert H.
  set (m := if _ <? _ then u64 (lastCommittedManifest (eng w) + 2) else _).
  assert (Hm : m = Z.max (u64 (NextSeq (core (eng w)) + 1)) (u64 (lastCommittedManifest (eng w) + 2))).
  { unfold m. destruct (_ <? _) eqn:E; [apply Z.ltb_lt in E | apply Z.ltb_ge in E]; lia. }
  set (st1 := if NextSeq st <? m then set_NextSeq m st else st).
  assert (Hst1 : st1 = set_NextSeq (Z.max (NextSeq st) m) st).
  { unfold st1. destruct (NextSeq st <? m) eqn:E; [apply Z.ltb_lt in E | apply Z.ltb_ge in E].
    - by rewrite Z.max_r by lia.
    - rewrite Z.max_l by lia. by destruct st. }
  rewrite <- Hm in Hq |- *. rewrite Hst1. clearbody m st1.
  unfold bind, replaceStateLocked, modify, persistCurrentStateLocked, wal_reset. simpl.
  pose proof (wf_next _ W) as [Hn _]. rewrite (proj2 (Z.leb_gt _ _)) by done.
  rewrite (proj2 (Z.eqb_neq _ 0)) by lia.
  destruct (env_save env); [|done]. simpl.
  destruct (walHandle (eng w)), (env_reset env); try done; intros [= <-]; by destruct st.
Qed.

Lemma unlinked_nodes s s' i : Nodes s = Nodes s' -> unlinked s i <-> unlinked s' i.
Proof. intros E. unfold unlinked. by rewrite E. Qed.

(** A snapshot restores what it saved.  After [RestoreSnapshot] of a snapshot that
    [CreateSnapshot] saved - whatever happened to the volume in between - the engine
    has the tree of the moment of the snapshot (without unlinked files) and every file
    in it has the content it had then, also when it was in segments; and the next
    sequence number is beyond the one the engine had, so that records and manifests
    written later are newer than all before. *)
Theorem snapshot_restore `{CR : ColdReader} env id w st w1 w2 env' w3
    (Hw : world_ok w) (Hone : one_store (core (eng w)))
    (Hcreate : CreateSnapshot env id w = (Ok st, w1)) (Hjson : json_state st = st)
    (Hkept : d_snaps (disk w2) !! id = d_snaps (disk w1) !! id)
    (Hseq : 0 <= NextSeq (core (eng w2)) < 2 ^ 64 - 1)
    (Hrestore : RestoreSnapshot env' id w2 = (Ok tt, w3)) :
  Nodes (core (eng w3)) = Nodes (collectUnlinkedLocked (core (eng w))) /\
  Children (core (eng w3)) = Children (collectUnlinkedLocked (core (eng w))) /\
  NextInode (core (eng w3)) = NextInode (core (eng w)) /\
  (forall i, is_Some (Nodes (core (eng w3)) !! i) ->
     file_content (core (eng w3)) i = file_content (core (eng w)) i) /\
  NextSeq (core (eng w2)) < NextSeq (core (eng w3)).
Proof.
  apply CreateSnapshot_inv in Hcreate as [Hexp Hsnap].
  apply RestoreSnapshot_inv in Hrestore as (st' & Hst' & Hr). rewrite Hkept, Hsnap, Hjson in Hst'.
  injection Hst' as <-. destruct (Hr (wf_export _ _ (ok_core _ Hw) Hexp)) as (q & -> & Hcore).
  rewrite u64_small in Hcore by lia. rewrite Hcore by lia. clear Hcore Hr.
  destruct (wf_root _ (ok_core _ Hw)) as (nr & Hnr & _).
  destruct (export_content _ _ _ _ Hone Hexp Hnr) as (HN & HC & HI & HX & _).
  assert (Hf : forall V (m : gmap Z V) q, filter (fun kv => ~ unlinked (set_NextSeq q st) kv.1) m =
                 filter (fun kv => ~ unlinked (core (eng w)) kv.1) m).
  { intros V m q. apply map_filter_ext. intros i x _. simpl. by rewrite (unlinked_nodes _ (core (eng w))). }
  split_and!; simpl; rewrite ?HN, ?HC; [apply Hf|apply Hf|done| |lia].
  intros i [n Hn]. apply map_lookup_filter_Some in Hn as [Hn Hu]. simpl in Hn, Hu.
  destruct (export_content _ _ _ _ Hone Hexp Hn) as (_ & _ & _ & _ & ->).
  unfold file_content, is_hot, cold_of. simpl. rewrite HX, map_filter_empty, lookup_empty. simpl.
  rewrite orb_true_r. unfold data_of. simpl. do 2 f_equal.
  destruct (Data st !! i) as [p|] eqn:Hp.
  - by apply map_lookup_filter_Some.
  - apply map_lookup_filter_None. by left.
Qed.

(** ** Instances *)

(** A materialized file [f] in segment [seg]. *)
Definition forked_state : SnapshotState :=
  mkState 5 5 (Nodes sample_state) (Children sample_state) ∅ {[3 := [mkExtent "seg" 0 2]]}
    {["seg" := mkSegment "seg" "" "segments/seg.bin" 2 [] None]}.

Lemma fork_spec_witness :
  exists f, PrepareForkState (Some forked_state) " vol " = Ok f /\
    Segments f !! "seg" = Some (mkSegment "seg" "vol" "segments/seg.bin" 2 [] None) /\
    forall i, data_of forked_state i = [].
Proof.
  eexists. split; [vm_compute; reflexivity|]. split; [vm_compute; reflexivity|].
  eapply (fork_spec forked_state " vol "). vm_compute. reflexivity.
Defined.

Lemma snapshot_restore_witness :
  let w1 := (CreateSnapshot (CR := no_cold) (calm 8) "s" sample).2 in
  let w3 := (RestoreSnapshot (calm 9) "s" w1).2 in
  Nodes (core (eng w3)) = Nodes (collectUnlinkedLocked (core (eng sample))).
Proof.
  eapply (snapshot_restore (CR := no_cold) (calm 8) "s" sample (set_Segments ∅ sample_state) _ _ (calm 9)).
  - exact sample_ok.
  - intros i. right. apply lookup_empty.
  - vm_compute. reflexivity.
  - vm_compute. reflexivity.
  - reflexivity.
  - vm_compute. split; congruence.
  - vm_compute. reflexivity.
Defined.
