(* ===== verification/S0fsRecovery.v ===== *)
(** * s0fs: recovery from the write-ahead log

    [sim rep cur] relates the state [rep] that replaying the log gives with the
    state [cur] in memory: they agree up to files that have no link left and that
    the running engine has already forgotten ([Forget] is not logged).  The file
    proves that every logged operation keeps the two in step, so that reopening the
    files of a crashed engine gives back the file system the engine had. *)

From stdpp Require Import base gmap strings list fin_maps numbers sorting.
From Stdlib Require Import Strings.Byte.
From S2P Require Import Prelude GoStd S0fsTypes S0fsCore S0fsEngine S0fsInv S0fsSafety.

Local Open Scope Z_scope.

(** ** A map without some keys *)

Definition minus {V} (F : gset Z) (m : gmap Z V) : gmap Z V := filter (fun kv => kv.1 ∉ F) m.

Section minus.
Context {V : Type}.
Implicit Types (m : gmap Z V) (F : gset Z).

Lemma lookup_minus F m i : minus F m !! i = if decide (i ∈ F) then None else m !! i.
Proof.
  unfold minus. destruct (decide (i ∈ F)) as [H|H].
  - apply map_lookup_filter_None. right. intros x _ Hx. by apply Hx.
  - destruct (m !! i) as [x|] eqn:E; [by apply map_lookup_filter_Some|].
    apply map_lookup_filter_None. by left.
Qed.
Lemma lookup_minus_Some F m i x : minus F m !! i = Some x <-> (~ i ∈ F) /\ m !! i = Some x.
Proof. rewrite lookup_minus. destruct (decide (i ∈ F)); naive_solver. Qed.
Lemma minus_insert F m i x : i ∉ F -> minus F (<[i := x]> m) = <[i := x]> (minus F m).
Proof. intros. unfold minus. by apply map_filter_insert_True. Qed.
Lemma minus_delete F m i : minus F (delete i m) = delete i (minus F m).
Proof. apply map_filter_delete. Qed.
Lemma minus_minus F G m : minus G (minus F m) = minus (G ∪ F) m.
Proof. apply map_eq. intros i. rewrite !lookup_minus.
  destruct (decide (i ∈ G)), (decide (i ∈ F)), (decide (i ∈ G ∪ F)); try done; exfalso; set_solver.
Qed.
Lemma minus_singleton i m : minus {[i]} m = delete i m.
Proof.
  apply map_eq. intros j. rewrite lookup_minus. destruct (decide (j = i)) as [->|].
  - rewrite decide_True by set_solver. by rewrite lookup_delete_eq.
  - rewrite decide_False by set_solver. by rewrite lookup_delete_ne by congruence.
Qed.
End minus.

(** ** The simulation *)

Record sim (rep cur : SnapshotState) : Prop := {
  sim_seq : NextSeq rep <= NextSeq cur;
  sim_inode : NextInode cur = NextInode rep;
  sim_children : Children cur = Children rep;
  sim_segments : Segments cur = Segments rep;
  sim_files : exists F : gset Z, (forall i, i ∈ F -> unlinked rep i) /\
      Nodes cur = minus F (Nodes rep) /\ Data cur = minus F (Data rep) /\
      minus F (ColdFiles cur) = minus F (ColdFiles rep)
}.

Lemma sim_refl s : sim s s.
Proof. split; try done. exists ∅. split; [set_solver|]. split_and!; apply map_eq; intros i; by rewrite ?lookup_minus, ?decide_False by set_solver. Qed.

Lemma sim_node rep cur i n : sim rep cur -> Nodes cur !! i = Some n -> Nodes rep !! i = Some n.
Proof. intros [_ _ _ _ (F & _ & HN & _)]. rewrite HN, lookup_minus_Some. naive_solver. Qed.

Lemma sim_directory rep cur p : sim rep cur -> is_directory cur p -> is_directory rep p.
Proof. intros S (d & Hd & ?). exists d. split; [by eapply sim_node|done]. Qed.

(** ** The conditions under which a record succeeds *)

Section ok.
Context `{CR : ColdReader}.

Lemma applyCreate_ok s r :
  wf s -> NextInode s <= r_Inode r < 2 ^ 64 - 1 -> r_Name r <> "" ->
  is_directory s (r_Parent r) -> dir_of (Children s) (r_Parent r) !! r_Name r = None ->
  applyCreate r s = (Ok tt, add_node (r_Parent r) (r_Name r) (created_node r) s).
Proof.
  intros W Hi Hnm (d & Hd & Hdd) Hfree.
  destruct (applyCreate_cases s r W Hi) as [[e He]|[He _]]; [|done]. exfalso. revert He.
  pose proof (wf_next _ W). destruct (wf_node _ W _ _ Hd) as (_ & ? & _). unfold RootInode in *.
  unfold applyCreate. rewrite (proj2 (Z.eqb_neq _ 0)), (proj2 (Z.eqb_neq (r_Parent r) 0)) by lia.
  rewrite bool_decide_eq_false_2 by done. simpl. unfold bind at 1. rewrite ensureDir_wf by done.
  rewrite Hd, Hdd. unfold bind at 1, get. rewrite Hfree. unfold bind, put_child, put_node, modify, ret.
  repeat case_match; simplify_eq/=; try done; by destruct (Children _ !! _).
Qed.

Lemma applyLink_ok s r n :
  wf s -> Nodes s !! r_Inode r = Some n -> is_dir n = false -> r_NewName r <> "" ->
  is_directory s (r_NewParent r) -> dir_of (Children s) (r_NewParent r) !! r_NewName r = None ->
  applyLink r s = (Ok tt, link_state (r_NewParent r) (r_NewName r) (r_Inode r)
       (node_set_Ctime (r_TimeUnix r) (node_set_Nlink (u32 (n_Nlink n + 1)) n)) s).
Proof.
  intros W Hn Hnd Hnm (d & Hd & Hdd) Hfree.
  destruct (applyLink_cases s r W) as [[e He]|(n' & He & Hn' & _)];
    [|by assert (n' = n) as -> by congruence].
  exfalso. revert He.
  destruct (wf_node _ W _ _ Hd) as (_ & ? & _). destruct (wf_node _ W _ _ Hn) as (_ & ? & _).
  unfold applyLink. rewrite (proj2 (Z.eqb_neq _ 0)), (proj2 (Z.eqb_neq (r_NewParent r) 0)) by lia.
  rewrite bool_decide_eq_false_2 by done. simpl. unfold bind at 1, get. rewrite Hn, Hnd.
  unfold bind at 1. rewrite ensureDir_wf, Hd, Hdd by done. unfold bind, put_child, put_node, modify.
  rewrite Hfree. rewrite (wf_dir_table _ _ _ W Hd Hdd). done.
Qed.

Lemma applyRename_ok s r i n :
  wf s -> dir_of (Children s) (r_Parent r) !! r_Name r = Some i -> Nodes s !! i = Some n ->
  is_directory s (r_Parent r) -> is_directory s (r_NewParent r) ->
  applyRename r s =
    (Ok tt, rename_state (r_Parent r) (r_Name r) (r_NewParent r) (r_NewName r) i
              (node_set_Ctime (r_TimeUnix r) n) s).
Proof.
  intros W Hi Hn (d & Hd & Hdd) (d' & Hd' & Hdd').
  destruct (applyRename_cases s r W) as [[e He]|(i' & n' & He & Hi' & Hn' & _)].
  - exfalso. revert He. unfold applyRename, bind. rewrite lookup_wf by done. rewrite Hd, Hdd, Hi.
    rewrite ensureDir_wf, Hd', Hdd' by done. unfold del_child, modify, put_child, get. simpl.
    destruct (alter _ _ _ !! _); [|done]. simpl. by rewrite Hn.
  - assert (i' = i) as -> by congruence. by assert (n' = n) as -> by congruence.
Qed.

Lemma applyRemoveDir_ok s r i n :
  wf s -> dir_of (Children s) (r_Parent r) !! r_Name r = Some i -> Nodes s !! i = Some n ->
  is_directory s (r_Parent r) -> is_dir n = true -> dir_of (Children s) i = ∅ ->
  applyRemoveDir r s = (Ok tt, rmdir_state (r_Parent r) (r_Name r) i s).
Proof.
  intros W Hi Hn (d & Hd & Hdd) Hnd Hemp. unfold applyRemoveDir, bind. rewrite lookup_wf by done.
  rewrite Hd, Hdd, Hi. unfold get. rewrite Hn, Hnd. simpl. by rewrite decide_False by (intros ?; done).
Qed.

Lemma applyUnlink_ok s r i n :
  wf s -> dir_of (Children s) (r_Parent r) !! r_Name r = Some i -> Nodes s !! i = Some n ->
  is_directory s (r_Parent r) -> is_dir n = false ->
  applyUnlink r s =
    (Ok tt, unlink_state (r_Parent r) (r_Name r) i (unlink_node (r_TimeUnix r) n) s).
Proof.
  intros W Hi Hn (d & Hd & Hdd) Hnd.
  destruct (applyUnlink_cases s r W) as [[e He]|(i' & n' & He & Hi' & Hn' & _)].
  - exfalso. revert He. unfold applyUnlink, bind. rewrite lookup_wf by done. rewrite Hd, Hdd, Hi.
    unfold get. rewrite Hn, Hnd. unfold del_child, modify. by destruct (0 <? n_Nlink n).
  - assert (i' = i) as -> by congruence. by assert (n' = n) as -> by congruence.
Qed.

End ok.

(** ** Replaying a record keeps the simulation *)

(** A forgotten inode is named by no entry. *)
Lemma forgotten_no_entry rep i p name :
  wf rep -> dir_of (Children rep) p !! name = Some i -> ~ unlinked rep i.
Proof. intros W H Hu. by apply (unlinked_no_entry rep i p name W Hu). Qed.

Lemma unlinked_put rep i n (F : gset Z) ch j :
  i ∉ F -> (forall k, k ∈ F -> unlinked rep k) -> j ∈ F ->
  unlinked (set_Nodes (<[i := n]> (Nodes rep)) (set_Children ch rep)) j.
Proof.
  intros Hi HF Hj. destruct (HF _ Hj) as (? & m & Hm & ?). split; [done|]. exists m. simpl.
  split; [|done]. rewrite lookup_insert_ne; [done|]. intros ->. done.
Qed.

Section simulation.
Context `{CR : ColdReader}.

(** Both sides change node [i] and the entry tables in the same way. *)
Lemma sim_put rep cur i n ch :
  sim rep cur -> is_Some (Nodes cur !! i) ->
  sim (set_Nodes (<[i := n]> (Nodes rep)) (set_Children ch rep))
      (set_Nodes (<[i := n]> (Nodes cur)) (set_Children ch cur)).
Proof.
  intros [H1 H2 H3 H4 (F & HF & HN & HD & HC)] [m Hm].
  assert (Hi : i ∉ F) by (rewrite HN, lookup_minus_Some in Hm; naive_solver).
  split; simpl; try done. exists F. split_and!; try done.
  - intros j Hj. by eapply unlinked_put.
  - rewrite HN. by rewrite minus_insert.
Qed.

Lemma file_content_sim rep cur i :
  sim rep cur -> is_Some (Nodes cur !! i) ->
  file_content cur i = file_content rep i /\ is_hot cur i = is_hot rep i /\
  data_of cur i = data_of rep i.
Proof.
  intros [H1 H2 H3 H4 (F & HF & HN & HD & HC)] [m Hm].
  assert (Hi : i ∉ F) by (rewrite HN, lookup_minus_Some in Hm; naive_solver).
  assert (Hm' : Nodes rep !! i = Some m) by (rewrite HN, lookup_minus_Some in Hm; naive_solver).
  assert (Hd : data_of cur i = data_of rep i).
  { unfold data_of. rewrite HD, lookup_minus. by rewrite decide_False. }
  assert (Hc : cold_of cur i = cold_of rep i).
  { unfold cold_of. assert (E : minus F (ColdFiles cur) !! i = minus F (ColdFiles rep) !! i) by (by rewrite HC).
    rewrite !lookup_minus, !decide_False in E by done. by rewrite E. }
  assert (Hh : is_hot cur i = is_hot rep i) by (unfold is_hot; by rewrite Hd, Hc).
  split; [|done]. unfold file_content. rewrite Hh, Hd, Hm, Hm'.
  unfold readColdRangeLocked. by rewrite Hc, H4.
Qed.

Lemma sim_warm rep cur i d :
  sim rep cur -> is_Some (Nodes cur !! i) -> sim (warm i d rep) (warm i d cur).
Proof.
  intros S Hn. destruct (file_content_sim _ _ i S Hn) as (_ & Hh & _). unfold warm. rewrite Hh.
  destruct (is_hot rep i); [done|].
  destruct S as [H1 H2 H3 H4 (F & HF & HN & HD & HC)]. destruct Hn as [m Hm].
  assert (Hi : i ∉ F) by (rewrite HN, lookup_minus_Some in Hm; naive_solver).
  split; simpl; try done. exists F. split_and!; try done.
  - rewrite HD. by rewrite minus_insert.
  - rewrite !minus_delete. by rewrite HC.
Qed.

Lemma sim_file_state rep cur i d n :
  sim rep cur -> is_Some (Nodes cur !! i) -> sim (file_state i d n rep) (file_state i d n cur).
Proof.
  intros [H1 H2 H3 H4 (F & HF & HN & HD & HC)] [m Hm].
  assert (Hi : i ∉ F) by (rewrite HN, lookup_minus_Some in Hm; naive_solver).
  unfold file_state. split; simpl; try done. exists F. split_and!; try done.
  - intros j Hj. destruct (HF _ Hj) as (? & k & Hk & ?). split; [done|]. exists k. simpl.
    split; [|done]. rewrite lookup_insert_ne; [done|]. intros ->. done.
  - rewrite HN. by rewrite minus_insert.
  - rewrite HD. by rewrite minus_insert.
Qed.

Lemma sim_content_update rep cur i t f cur' :
  sim rep cur -> content_update i t f cur = (Ok tt, cur') ->
  exists rep', content_update i t f rep = (Ok tt, rep') /\ sim rep' cur'.
Proof.
  intros S. unfold content_update. destruct (Nodes cur !! i) as [n|] eqn:Hn; [|done].
  rewrite (sim_node _ _ _ _ S Hn). destruct (is_dir n); [done|].
  destruct (file_content_sim _ _ i S) as (Hc & _ & _); [eauto|]. rewrite Hc.
  destruct (file_content rep i) as [c| |]; [|done..]. destruct (f c) as [new| |]; [|done..].
  intros [= <-]. eexists. split; [done|]. apply sim_file_state; [apply sim_warm|rewrite warm_Nodes]; eauto.
Qed.

Lemma sim_add_node rep cur p name n :
  wf rep -> sim rep cur -> NextInode rep <= n_Inode n ->
  sim (add_node p name n rep) (add_node p name n cur).
Proof.
  intros W [H1 H2 H3 H4 (F & HF & HN & HD & HC)] Hi. unfold add_node. rewrite H3.
  assert (Hf : n_Inode n ∉ F).
  { intros (_ & m & Hm & _)%HF. destruct (wf_fresh rep (n_Inode n) W Hi) as [? _]. congruence. }
  split; simpl; try done. exists F. split_and!; try done.
  - intros j Hj. destruct (HF _ Hj) as (? & k & Hk & ?). split; [done|]. exists k. simpl.
    split; [|done]. rewrite lookup_insert_ne; [done|]. intros <-. done.
  - rewrite HN. by rewrite minus_insert.
Qed.

Lemma sim_rmdir rep cur p name i n :
  wf rep -> sim rep cur -> dir_of (Children rep) p !! name = Some i -> Nodes rep !! i = Some n ->
  sim (rmdir_state p name i rep) (rmdir_state p name i cur).
Proof.
  intros W [H1 H2 H3 H4 (F & HF & HN & HD & HC)] Hi Hn. unfold rmdir_state. rewrite H3.
  split; simpl; try done. exists F. split_and!; try done.
  - intros j Hj. pose proof (HF _ Hj) as (? & k & Hk & ?). split; [done|]. exists k. simpl.
    split; [|done]. rewrite lookup_delete_ne; [done|].
    intros ->. by apply (forgotten_no_entry rep j p name W Hi), HF.
  - rewrite HN. by rewrite minus_delete.
Qed.

Lemma sim_apply rep cur r cur' :
  wf rep -> wf cur -> sim rep cur -> record_ok cur r -> apply r cur = (Ok tt, cur') ->
  exists rep', apply r rep = (Ok tt, rep') /\ sim rep' cur'.
Proof.
  intros Wr Wc S Hr Ha. pose proof (sim_children _ _ S) as Hch. pose proof (sim_inode _ _ S) as Hni.
  unfold apply, record_ok in *. destruct (r_Op r).
  - destruct (applyCreate_cases cur r Wc Hr) as [[e He]|(He & Hd & Hf & Hnm)]; [congruence|].
    rewrite He in Ha. injection Ha as <-. eexists. split.
    + apply applyCreate_ok; [done|lia|done|by eapply sim_directory|by rewrite <- Hch].
    + apply sim_add_node; [done|done|simpl; lia].
  - rewrite applyWrite_eq in *. by apply (sim_content_update rep cur).
  - destruct (applyLink_cases cur r Wc) as [[e He]|(n & He & Hn & Hnd & Hd & Hf & Hnm)]; [congruence|].
    rewrite He in Ha. injection Ha as <-. eexists. split.
    + apply applyLink_ok; eauto using sim_node, sim_directory. by rewrite <- Hch.
    + unfold link_state. rewrite Hch. by apply sim_put; eauto.
  - destruct (applyRemoveDir_cases cur r Wc) as [[e He]|(i & n & He & Hi & Hn & Hnd & Hemp & Hd)]; [congruence|].
    rewrite He in Ha. injection Ha as <-. rewrite Hch in Hi, Hemp. eexists. split.
    + by eapply applyRemoveDir_ok; eauto using sim_node, sim_directory.
    + by eapply sim_rmdir; eauto using sim_node.
  - destruct (applyRename_cases cur r Wc) as [[e He]|(i & n & He & Hi & Hn & Hd & Hd')]; [congruence|].
    rewrite He in Ha. injection Ha as <-. rewrite Hch in Hi. eexists. split.
    + by eapply applyRename_ok; eauto using sim_node, sim_directory.
    + unfold rename_state. rewrite Hch. by apply sim_put; eauto.
  - unfold applySetMode, bind, get in *. destruct (Nodes cur !! r_Inode r) as [n|] eqn:Hn; [|done].
    rewrite (sim_node _ _ _ _ S Hn). injection Ha as <-. eexists. split; [done|].
    pose proof (sim_put rep cur (r_Inode r) (node_set_Ctime (r_TimeUnix r) (node_set_Mode (r_Mode r) n))
                  (Children rep) S) as Hp. rewrite <- Hch in Hp at 2.
    destruct rep, cur. apply Hp. eauto.
  - unfold applySetOwner, bind, get in *. destruct (Nodes cur !! r_Inode r) as [n|] eqn:Hn; [|done].
    rewrite (sim_node _ _ _ _ S Hn). injection Ha as <-. eexists. split; [done|].
    pose proof (sim_put rep cur (r_Inode r)
                  (node_set_Ctime (r_TimeUnix r) (node_set_Owner (r_Mode r) (u32 (r_Offset r)) n))
                  (Children rep) S) as Hp. rewrite <- Hch in Hp at 2.
    destruct rep, cur. apply Hp. eauto.
  - rewrite applyTruncate_eq in *. by apply (sim_content_update rep cur).
  - destruct (applyUnlink_cases cur r Wc) as [[e He]|(i & n & He & Hi & Hn & Hnd & Hd)]; [congruence|].
    rewrite He in Ha. injection Ha as <-. rewrite Hch in Hi. eexists. split.
    + by eapply applyUnlink_ok; eauto using sim_node, sim_directory.
    + unfold unlink_state. rewrite Hch. by apply sim_put; eauto.
  - done.
Qed.

End simulation.

(** ** The log of a running engine *)

Lemma readWAL_snoc ls rs r :
  readWAL ls = Ok rs -> readWAL (wal_push (Line r) ls) = Ok (rs ++ [r]) /\ last ls <> Some Torn.
Proof.
  intros H.
  assert (Hl : last ls <> Some Torn).
  { revert rs H. induction ls as [|[r'|] ls IH]; intros rs H; [done| |done]. simpl in H.
    destruct (readWAL ls) as [rs'| |]; [|done..]. specialize (IH _ eq_refl). by destruct ls. }
  split; [|done]. unfold wal_push. assert (HP : readWAL (ls ++ [Line r]) = Ok (rs ++ [r])).
  { revert rs H Hl. clear. induction ls as [|[r'|] ls IH]; intros rs H Hl; simpl in *; [by simplify_eq| |done].
    destruct (readWAL ls) as [rs'| |]; [|done..]. simplify_eq/=. rewrite (IH rs'); [done|done|]. by destruct ls. }
  destruct (last ls) as [[]|] eqn:E; done.
Qed.

Lemma wal_push_length l ls : last ls <> Some Torn -> wal_push l ls <> ls.
Proof.
  intros H E. unfold wal_push in E. assert (Hl : length (ls ++ [l]) = length ls).
  { destruct (last ls) as [[]|]; [by rewrite E|done|by rewrite E]. }
  rewrite length_app in Hl. simpl in Hl. lia.
Qed.

Section durable.
Context `{CR : ColdReader}.

Lemma replay_snoc rs r s rep rep' :
  replay rs s = (Ok tt, rep) -> replay_one r rep = (Ok tt, rep') -> replay (rs ++ [r]) s = (Ok tt, rep').
Proof.
  revert s. induction rs as [|r0 rs IH]; intros s; simpl.
  - intros [= <-] H. unfold bind. by rewrite H.
  - unfold bind. destruct (replay_one r0 s) as [[[]| |] s1]; [|done..]. apply IH.
Qed.

(** Entry operations name no inode in their record. *)
Definition record_shape (r : walRecord) : Prop :=
  match r_Op r with
  | OpRename | OpUnlink | OpRmdir => r_Inode r = 0
  | _ => True
  end.

Lemma content_update_bounds i t f s s' :
  wf s -> content_update i t f s = (Ok tt, s') -> NextSeq s' = NextSeq s /\ i < NextInode s'.
Proof.
  intros W. unfold content_update. destruct (Nodes s !! i) as [n|] eqn:Hn; [|done].
  destruct (wf_node _ W _ _ Hn) as (_ & ? & _).
  destruct (is_dir n); [done|]. destruct (file_content s i) as [c| |]; [|done..].
  destruct (f c); [|done..]. intros [= <-]. unfold file_state, warm. destruct (is_hot s i); simpl; lia.
Qed.

Lemma apply_counters s r s' :
  wf s -> record_ok s r -> record_shape r -> apply r s = (Ok tt, s') ->
  NextSeq s' = NextSeq s /\ r_Inode r < NextInode s'.
Proof.
  intros W Hr Hs Ha. pose proof (wf_next _ W) as Hnx. unfold RootInode in Hnx.
  unfold apply, record_ok, record_shape in *. destruct (r_Op r).
  - destruct (applyCreate_cases s r W Hr) as [[e He]|(He & _)]; [congruence|].
    rewrite He in Ha. injection Ha as <-. simpl. rewrite u64_small by lia. lia.
  - rewrite applyWrite_eq in Ha. by apply content_update_bounds in Ha.
  - destruct (applyLink_cases s r W) as [[e He]|(n & He & Hn & _)]; [congruence|].
    rewrite He in Ha. injection Ha as <-. simpl. destruct (wf_node _ W _ _ Hn) as (_ & ? & _). lia.
  - destruct (applyRemoveDir_cases s r W) as [[e He]|(i & n & He & _)]; [congruence|].
    rewrite He in Ha. injection Ha as <-. simpl. lia.
  - destruct (applyRename_cases s r W) as [[e He]|(i & n & He & _)]; [congruence|].
    rewrite He in Ha. injection Ha as <-. simpl. lia.
  - unfold applySetMode, bind, get in Ha. destruct (Nodes s !! r_Inode r) as [n|] eqn:Hn; [|done].
    injection Ha as <-. simpl. destruct (wf_node _ W _ _ Hn) as (_ & ? & _). lia.
  - unfold applySetOwner, bind, get in Ha. destruct (Nodes s !! r_Inode r) as [n|] eqn:Hn; [|done].
    injection Ha as <-. simpl. destruct (wf_node _ W _ _ Hn) as (_ & ? & _). lia.
  - rewrite applyTruncate_eq in Ha. by apply content_update_bounds in Ha.
  - destruct (applyUnlink_cases s r W) as [[e He]|(i & n & He & _)]; [congruence|].
    rewrite He in Ha. injection Ha as <-. simpl. lia.
  - done.
Qed.

(** The state [Open] starts from: the saved head, or a new volume made at time [t]. *)
Definition base (t : Z) (d : Disk) : SnapshotState := default (initialState t) (d_head d).

(** The log on the disk replays, from the saved state, to the state in memory. *)
Definition logs (t : Z) (w : World) : Prop :=
  exists rs rep, readWAL (d_wal (disk w)) = Ok rs /\ replay rs (base t (disk w)) = (Ok tt, rep) /\
    wf rep /\ sim rep (core (eng w)).

Definition durable (t : Z) (w : World) : Prop := world_ok w /\ logs t w.

Definition seq_room (w : World) : Prop := 0 <= NextSeq (core (eng w)) < 2 ^ 64 - 1.

Lemma sim_seq_up rep cur q : sim rep cur -> NextSeq cur <= q -> sim rep (set_NextSeq q cur).
Proof. intros [? ? ? ? HF] ?. split; try done; simpl. lia. Qed.

(** A record that was appended and applied. *)
Lemma log_one h rep rs r cur cur' :
  replay rs h = (Ok tt, rep) -> wf rep -> wf cur -> sim rep cur ->
  0 <= NextSeq cur < 2 ^ 64 - 1 -> r_Seq r = NextSeq cur -> record_ok cur r -> record_shape r ->
  apply r (set_NextSeq (u64 (NextSeq cur + 1)) cur) = (Ok tt, cur') ->
  exists rep', replay (rs ++ [r]) h = (Ok tt, rep') /\ wf rep' /\ sim rep' cur'.
Proof.
  intros Hrep Wr Wc S Hq Hseq Hr Hs Ha. rewrite u64_small in Ha by lia.
  set (cur1 := set_NextSeq (NextSeq cur + 1) cur) in *.
  assert (W1 : wf cur1) by (by apply wf_set_NextSeq).
  assert (S1 : sim rep cur1) by (apply sim_seq_up; [done|lia]).
  assert (Hr1 : record_ok cur1 r) by done.
  destruct (sim_apply rep cur1 r cur' Wr W1 S1 Hr1 Ha) as (rep1 & Ha1 & S2).
  assert (Hrr : record_ok rep r).
  { unfold record_ok, apply in *. destruct (r_Op r); try done.
    - by rewrite (sim_inode _ _ S) in Hr.
    - destruct (applyLink_cases cur1 r W1) as [[e He]|(n & He & Hn & _)]; [congruence|].
      intros n' Hn'. rewrite (sim_node _ _ _ _ S1 Hn) in Hn'. injection Hn' as <-. by apply Hr. }
  assert (W2 : wf rep1) by (pose proof (apply_wf rep r Wr Hrr) as H; by rewrite Ha1 in H).
  destruct (apply_counters rep r rep1 Wr Hrr Hs Ha1) as [Hc1 Hc2].
  destruct (apply_counters cur1 r cur' W1 Hr1 Hs Ha) as [Hc3 _].
  pose proof (sim_seq _ _ S). exists (set_NextSeq (NextSeq cur + 1) rep1). split_and!.
  - eapply replay_snoc; [done|]. unfold replay_one. rewrite Ha1, Hseq.
    cbv zeta. rewrite (proj2 (Z.leb_le (NextSeq rep1) (NextSeq cur))) by lia. rewrite u64_small by lia.
    by rewrite (proj2 (Z.leb_gt _ _)) by (simpl; lia).
  - by apply wf_set_NextSeq.
  - destruct S2 as [? ? ? ? HF]. split; try done; simpl. rewrite Hc3. simpl. lia.
Qed.

(** ** Symbolic execution *)

(** Outcomes after which the log is what it was or has the whole record. *)
Definition kept {A} (x : gores A) (w w' : World) : Prop :=
  match x with
  | Ok _ => True
  | Err _ => d_wal (disk w') = d_wal (disk w)
  | Panic => False
  end.

Definition dur {A} (t : Z) (m : Eng A) (w : World) : Prop :=
  forall x w', m w = (x, w') -> kept x w w' -> logs t w'.

Lemma dur_guard {A B} t (m : Eng A) (k : A -> Eng B) w r :
  m w = (r, w) -> logs t w -> (forall a, r = Ok a -> dur t (k a) w) -> dur t (bind m k) w.
Proof.
  unfold dur, bind. intros -> L H x w'. destruct r; [by apply H|..]; by intros [= <- <-].
Qed.

Lemma dur_same {A} t (m : Eng A) w r : m w = (r, w) -> logs t w -> dur t m w.
Proof. intros E L x w'. rewrite E. by intros [= <- <-]. Qed.

Lemma dur_void {A} t (m : Eng A) w : dur t m w -> dur t (void m) w.
Proof.
  unfold dur, void, bind. intros H x w'. destruct (m w) as [[a|e|] w1]; intros [= <- <-] Hk;
    by eapply H.
Qed.

Lemma logs_numbered t w : seq_room w -> logs t w -> logs t (numbered w).
Proof.
  intros Hq (rs & rep & ? & ? & ? & S). exists rs, rep. split_and!; try done. simpl.
  unfold seq_room in Hq. rewrite u64_small by lia. apply sim_seq_up; [done|lia].
Qed.

Lemma log_apply_logs t env r w :
  durable t w -> seq_room w -> r_Seq r = NextSeq (core (eng w)) -> record_utf8 r ->
  record_ok (core (eng w)) r -> record_shape r -> dur t (log_apply env r) (numbered w).
Proof.
  intros [W L] Hq Hseq Hu Hr Hs x w'. unfold log_apply, bind, wal_append.
  pose proof (logs_numbered t w Hq L) as L1. destruct L as (rs & rep & Hrs & Hrep & Wr & S).
  destruct (readWAL_snoc _ _ r Hrs) as [Hpush Htorn].
  assert (Hne := fun l => wal_push_length l _ Htorn).
  destruct (walHandle (eng (numbered w))); [by intros [= <- <-]| |by intros [= <- <-]].
  destruct (env_append env) as [|[]]; [|intros [= <- <-] Hk; by destruct (Hne _ Hk)|by intros [= <- <-]].
  unfold run_core. simpl. rewrite json_record_id by done.
  destruct (apply r _) as [[[]|e|] s'] eqn:Ha; simpl.
  - intros [= <- <-] _.
    destruct (log_one _ _ _ _ _ _ Hrep Wr (ok_core _ W) S Hq Hseq Hr Hs Ha) as (rep' & ? & ? & ?).
    by exists (rs ++ [r]), rep'.
  - intros [= <- <-] Hk. by destruct (Hne _ Hk).
  - by intros [= <- <-] [].
Qed.

Lemma dur_log {A} t env op (K : walRecord -> Eng A) r (k : unit -> Eng A) w :
  durable t w -> seq_room w ->
  (forall r0, newRecord env op w = (Ok r0, numbered w) ->
     K r0 (numbered w) = bind (log_apply env r) k (numbered w)) ->
  r_Seq r = NextSeq (core (eng w)) -> record_utf8 r -> record_ok (core (eng w)) r -> record_shape r ->
  (forall a w', exists v, k a w' = (Ok v, w')) ->
  dur t (bind (newRecord env op) K) w.
Proof.
  intros D Hq HK Hseq Hu Hr Hs Hk x w' E Hx.
  pose proof (log_apply_logs t env r w D Hq Hseq Hu Hr Hs) as HL. unfold bind, newRecord in E.
  change (set_eng _ w) with (numbered w) in E. rewrite HK in E by done. unfold bind in E.
  destruct (log_apply env r (numbered w)) as [[a|e|] w1] eqn:El.
  - destruct (Hk a w1) as [v Hv]. rewrite Hv in E. injection E as <- <-. by eapply HL.
  - injection E as <- <-. by eapply HL.
  - by injection E as <- <-.
Qed.

Lemma dur_log_last t env op (K : walRecord -> Eng unit) r w :
  durable t w -> seq_room w ->
  (forall r0, newRecord env op w = (Ok r0, numbered w) ->
     K r0 (numbered w) = log_apply env r (numbered w)) ->
  r_Seq r = NextSeq (core (eng w)) -> record_utf8 r -> record_ok (core (eng w)) r -> record_shape r ->
  dur t (bind (newRecord env op) K) w.
Proof.
  intros D Hq HK ? ? ? ?. apply (dur_log t env op K r ret); try done; [|intros; by eexists].
  intros r0 Hr0. rewrite (HK r0 Hr0). unfold bind.
  by destruct (log_apply env r (numbered w)) as [[[]| |] ?].
Qed.

Lemma sim_forget rep cur i : wf cur -> sim rep cur -> i <> RootInode -> sim rep (forget_state i cur).
Proof.
  intros Wc S Hi. unfold forget_state. destruct (Nodes cur !! i) as [n|] eqn:Hn; [|done].
  destruct (n_Nlink n =? 0) eqn:HL; [|done]. apply Z.eqb_eq in HL.
  assert (Hu : unlinked cur i) by (split; [done|by exists n]).
  assert (Hch : delete i (Children cur) = Children cur).
  { apply delete_id. by apply unlinked_no_table. }
  pose proof (sim_node _ _ _ _ S Hn) as Hnr. destruct S as [? ? ? ? (F & HF & HN & HD & HC)].
  split; simpl; try done; [congruence|]. exists ({[i]} ∪ F). split_and!.
  - intros j [->%elem_of_singleton|Hj]%elem_of_union; [|by apply HF]. split; [done|by exists n].
  - by rewrite HN, <- minus_minus, minus_singleton.
  - by rewrite HD, <- minus_minus, minus_singleton.
  - rewrite <- (minus_minus F {[i]} (ColdFiles cur)), HC. by rewrite minus_minus.
Qed.

Lemma forget_root s : wf s -> forget_state RootInode s = s.
Proof.
  intros W. unfold forget_state. destruct (wf_root _ W) as (n & Hn & Hd). rewrite Hn.
  destruct (wf_node _ W _ _ Hn) as (_ & _ & _ & _ & H1). specialize (H1 Hd).
  destruct (n_Nlink n =? 0) eqn:E; [|done]. apply Z.eqb_eq in E. lia.
Qed.

(** ** The calls of a session *)

(** The strings of a call that go to the log are ones JSON keeps. *)
Definition call_utf8 (c : Call) : Prop :=
  match c with
  | CMkdir _ n _ | CCreateFile _ n _ | CLink _ _ n | CUnlink _ n | CRemoveDir _ n => utf8_ok n
  | CSymlink _ n t _ => utf8_ok n /\ utf8_ok t
  | CRename _ n _ n' => utf8_ok n /\ utf8_ok n'
  | _ => True
  end.

(** The calls that save the whole state and empty the log. *)
Definition checkpoint (c : Call) : bool :=
  match c with
  | CRestoreSnapshot _ | CReplaceState _ | CSyncFinish _ _ _ | CRefreshFinish _ _ | CClose => true
  | _ => false
  end.

Lemma utf8_empty : utf8_ok "".
Proof. by vm_compute. Qed.

Local Hint Resolve utf8_empty : core.

Ltac dur_hyp := match goal with H : durable _ _ |- _ => by apply H end.

Ltac dur_step :=
  lazymatch goal with
  | |- dur _ (bind checkOpen _) _ => eapply dur_guard; [apply checkOpen_eq | dur_hyp | intros ? _]
  | |- dur _ (bind get _) _ => eapply dur_guard; [reflexivity | dur_hyp | intros ? [= <-]]
  | |- dur _ (bind (run_core (ensureDirLocked _)) _) _ =>
      eapply dur_guard; [apply run_core_guard, ensureDir_wf, ok_core; dur_hyp | dur_hyp | intros ? _]
  | |- dur _ (bind (run_core (lookupLocked _ _)) _) _ =>
      eapply dur_guard; [apply run_core_guard, lookup_wf, ok_core; dur_hyp | dur_hyp | intros ? _]
  | |- dur _ (bind (run_core (fileNodeLocked _)) _) _ =>
      eapply dur_guard; [apply run_core_guard, fileNode_eq | dur_hyp | intros ? _]
  | |- dur _ (bind (lift_res _) _) _ => eapply dur_guard; [reflexivity | dur_hyp | intros ? ?]
  | |- dur _ (bind (newRecord _ _) (fun _ => bind (log_apply _ _) _)) _ =>
      eapply dur_log; [done | done | intros ? [= <-]; reflexivity | done | done || (split_and!; by simpl) | try done
        | done | intros; by eexists]
  | |- dur _ (bind (newRecord _ _) (fun _ => log_apply _ _)) _ =>
      eapply dur_log_last; [done | done | intros ? [= <-]; reflexivity | done | split_and!; by simpl | try done | done]
  | |- dur _ (if ?b then _ else _) _ => destruct b
  | |- dur _ (match ?x with _ => _ end) _ => destruct x eqn:?
  | |- dur _ _ _ => eapply dur_same; [reflexivity | dur_hyp]
  end.

Lemma create_logs t env p n ty m tgt w :
  durable t w -> seq_room w -> headroom w -> utf8_ok n -> utf8_ok tgt ->
  dur t (create env p n ty m tgt) w.
Proof.
  intros D Hq Hh Hn Ht. unfold create. do 5 dur_step; try dur_step.
  eapply dur_log; [done | done | intros ? [= <-]; unfold bind at 1, gets at 1; reflexivity | done
    | split_and!; by simpl | | done | intros; by eexists].
  unfold record_ok; simpl. destruct Hh. lia.
Qed.

Lemma logs_snaps t w f : logs t w -> logs t (set_disk (fun d => set_snaps (f d) d) w).
Proof. done. Qed.

Lemma exec_logs t env c w :
  durable t w -> headroom w -> seq_room w -> call_utf8 c -> checkpoint c = false ->
  dur t (exec env c) w.
Proof.
  intros D Hh Hq Hu Hc. destruct c; simpl in Hu, Hc; try done; simpl exec.
  - apply dur_void. unfold Lookup. by repeat dur_step.
  - apply dur_void. unfold GetAttr. by repeat dur_step.
  - apply dur_void. unfold ReadDir. by repeat dur_step.
  - by apply dur_void, create_logs.
  - by apply dur_void, create_logs.
  - apply dur_void. unfold Symlink. destruct Hu. dur_step; [dur_step|by apply create_logs].
  - apply dur_void. unfold Link. repeat dur_step. intros n' Hn'. by eapply Hh.
  - apply dur_void. unfold Write. by repeat dur_step.
  - apply dur_void. unfold Read. by repeat dur_step.
  - apply dur_void. unfold ReadInto. by repeat dur_step.
  - unfold Rename. destruct Hu. by repeat dur_step.
  - unfold Unlink, UnlinkWithInode. apply dur_void. by repeat dur_step.
  - unfold Forget. dur_step. intros x w' [= <- <-] _. destruct D as [W (rs & rep & ? & ? & ? & S)].
    exists rs, rep. split_and!; try done. simpl. destruct (decide (inode = RootInode)) as [->|].
    + by rewrite forget_root by apply W.
    + apply sim_forget; [apply W|done..].
  - unfold RemoveDir. by repeat dur_step.
  - unfold SetMode. by repeat dur_step.
  - unfold SetOwner. by repeat dur_step.
  - unfold Truncate. by repeat dur_step.
  - unfold Fsync. dur_step. intros x w'. unfold wal_sync.
    destruct (walHandle (eng w)), (env_sync env); intros [= <- <-] _; by apply D.
  - apply dur_void. unfold ExportState. by repeat dur_step.
  - apply dur_void. unfold CreateSnapshot. do 5 (try dur_step); try dur_step.
    intros x w' [= <- <-] _. by apply logs_snaps, D.
  - unfold DeleteSnapshot. do 5 (try dur_step); try dur_step.
    intros x w' [= <- <-] _. by apply logs_snaps, D.
Qed.

(** ** Checkpoints *)

Definition saved (w : World) : Prop :=
  d_wal (disk w) = [] /\ d_head (disk w) = Some (json_state (core (eng w))).

Lemma persist_reset {A} env (k : unit -> Eng A) w x w' :
  bind (persistCurrentStateLocked env) (fun _ => bind (wal_reset env) k) w = (Ok x, w') ->
  exists w1, k tt w1 = (Ok x, w') /\ saved w1 /\ core (eng w1) = core (eng w).
Proof.
  unfold bind, persistCurrentStateLocked. destruct (env_save env); [|done]. unfold wal_reset. simpl.
  destruct (walHandle (eng w)), (env_reset env); try done; intros H; eexists; by split_and!.
Qed.

Lemma saved_logs t w : world_ok w -> saved w -> json_state (core (eng w)) = core (eng w) -> logs t w.
Proof.
  intros W [Hw Hh] Hj. exists [], (core (eng w)). rewrite Hw. unfold base. rewrite Hh. simpl.
  rewrite Hj. split_and!; [done..|apply W|apply sim_refl].
Qed.

Lemma replace_saved env st w u w' :
  bind (replaceStateLocked st) (fun _ => bind (persistCurrentStateLocked env)
    (fun _ => bind (wal_reset env) (fun _ => markDirtyLocked env))) w = (Ok u, w') -> saved w'.
Proof.
  unfold bind at 1. simpl. intros H. apply persist_reset in H as (w1 & [= <- <-] & ? & ?). done.
Qed.

Lemma checkpoint_logs t env c w u w' :
  durable t w -> world_ok w' -> checkpoint c = true -> exec env c w = (Ok u, w') ->
  json_state (core (eng w')) = core (eng w') -> logs t w'.
Proof.
  intros D W' Hc E Hj. pose proof (saved_logs t w' W') as Hs. destruct c; try done; simpl in E.
  - unfold RestoreSnapshot, bind at 1 2, checkOpen, get in E. destruct (closed (eng w)); [done|].
    simpl in E. destruct (d_snaps (disk w) !! id); [|done]. apply replace_saved in E. auto.
  - unfold ReplaceState, bind at 1, checkOpen in E. destruct (closed (eng w)); [done|].
    apply replace_saved in E. auto.
  - unfold SyncMaterialize_finish, bind at 1, get in E. destruct (_ && _).
    + unfold bind at 1 in E. destruct (mf_State m); simpl in E.
      * apply persist_reset in E as (w1 & [= <- <-] & ? & ?). auto.
      * apply persist_reset in E as (w1 & [= <- <-] & ? & ?). auto.
    + destruct (_ <? _); injection E as <- <-; apply D.
  - unfold void, bind at 1, RefreshMaterialized_finish in E. destruct latest as [[st m]|e|].
    + destruct (_ <=? _); [injection E as <- <-; apply D|].
      destruct (bind checkOpen _ w) as [x w1] eqn:E1.
      unfold bind at 1 2, checkOpen, get in E1. destruct (closed (eng w)); [by injection E1 as <- <-|].
      destruct (_ || _); [injection E1 as <- <-; injection E as <- <-; apply D|].
      destruct x as [b| |]; [|done..]. injection E as <- <-. unfold bind at 1 in E1; simpl in E1.
      apply persist_reset in E1 as (w2 & [= <- <-] & ? & ?). auto.
    + destruct (errors_Is _ _); [|done]. injection E as <- <-. apply D.
    + done.
  - unfold Close, bind at 1, get in E. destruct (closed (eng w)); [injection E as <- <-; apply D|].
    apply persist_reset in E as (w1 & E & [? ?] & ?). unfold bind, wal_close, modify in E. simpl in E.
    destruct (walHandle (eng w1)), (env_close env); try done; injection E as <- <-; (apply Hs; [by split|done]).
Qed.

(** ** Opening *)

(** What the object store holds does not replace the local files. *)
Definition local_wins (latest : option (gores (SnapshotState * Manifest))) (d : Disk) : Prop :=
  match d_head d, latest with
  | Some h, Some (Ok (st, _)) => NextSeq st <= NextSeq h
  | _, Some Panic => False
  | None, Some (Ok _) => False
  | None, Some (Err e) => e = ErrMaterializedManifestNotFound
  | _, _ => True
  end.

Lemma Open_base t env volID walPath latest d rs :
  volID <> "" -> walPath <> "" -> local_wins latest d -> (d_head d = None -> env_now env = t) ->
  readWAL (d_wal d) = Ok rs ->
  exists m, Open env volID walPath latest d = open_with env volID (base t d) rs m d.
Proof.
  intros Hv Hp Hl Ht Hrs. unfold Open, loadCurrentState. rewrite !decide_False by done.
  rewrite Hrs. simpl. unfold base, local_wins, choose_state in *. destruct (d_head d) as [h|]; simpl in *.
  - destruct latest as [[[st m]|e|]|]; simpl; eauto; [|done].
    destruct (0 <? length rs)%nat; [eauto|]. rewrite (proj2 (Z.ltb_ge _ _)) by done. eauto.
  - rewrite Ht by done. destruct latest as [[[st m]|e|]|]; simpl in *; try done; eauto.
    subst e. by eexists.
Qed.

Lemma Open_local t env volID walPath latest d rs rep :
  volID <> "" -> walPath <> "" -> local_wins latest d -> (d_head d = None -> env_now env = t) ->
  readWAL (d_wal d) = Ok rs -> replay rs (base t d) = (Ok tt, rep) ->
  exists w, Open env volID walPath latest d = Ok w /\ core (eng w) = collectUnlinkedLocked rep /\
    disk w = d.
Proof.
  intros Hv Hp Hl Ht Hrs Hrep.
  destruct (Open_base t env volID walPath latest d rs Hv Hp Hl Ht Hrs) as [m ->].
  unfold open_with. rewrite Hrep. eexists. by split_and!.
Qed.

End durable.

(** ** What recovery gives back *)

(** The same file system: equal up to the next sequence number and to extent lists
    that no file uses. *)
Definition same_files (a b : SnapshotState) : Prop :=
  NextInode a = NextInode b /\ Nodes a = Nodes b /\ Children a = Children b /\ Data a = Data b /\
  Segments a = Segments b /\ (forall i, is_Some (Nodes a !! i) -> ColdFiles a !! i = ColdFiles b !! i).

Lemma collect_lookup {V} s (m : gmap Z V) i :
  filter (fun kv => ~ unlinked s kv.1) m !! i = if decide (unlinked s i) then None else m !! i.
Proof.
  destruct (decide (unlinked s i)) as [H|H].
  - apply map_lookup_filter_None. right. intros x _ Hx. by apply Hx.
  - destruct (m !! i) as [x|] eqn:E; [by apply map_lookup_filter_Some|].
    apply map_lookup_filter_None. by left.
Qed.

Lemma minus_lookup_eq {V} F (m m' : gmap Z V) i : minus F m = minus F m' -> i ∉ F -> m !! i = m' !! i.
Proof.
  intros H Hi. assert (E : minus F m !! i = minus F m' !! i) by (by rewrite H).
  by rewrite !lookup_minus, !decide_False in E by done.
Qed.

Lemma collect_sim s : wf s -> sim s (collectUnlinkedLocked s).
Proof.
  intros W. set (F := filter (unlinked s) (dom (Nodes s))).
  assert (HF : forall i, i ∈ F <-> unlinked s i).
  { intros i. unfold F. rewrite elem_of_filter, elem_of_dom. unfold unlinked. naive_solver. }
  assert (Hm : forall V (m : gmap Z V), filter (fun kv => ~ unlinked s kv.1) m = minus F m).
  { intros V m. apply map_eq. intros i. rewrite collect_lookup, lookup_minus.
    destruct (decide (unlinked s i)), (decide (i ∈ F)) as [Hi|Hi]; try done; by rewrite HF in Hi. }
  split; try done; [by apply collect_Children|]. exists F. split_and!; simpl; rewrite ?Hm.
  - intros i. by apply HF.
  - done.
  - done.
  - rewrite minus_minus. f_equal. set_solver.
Qed.

Lemma sim_same rep cur :
  wf rep -> wf cur -> sim rep cur ->
  same_files (collectUnlinkedLocked cur) (collectUnlinkedLocked rep).
Proof.
  intros Wr Wc [_ HI HCh HS (F & HF & HN & HD & HC)].
  assert (Hu : forall i, i ∉ F -> unlinked cur i <-> unlinked rep i).
  { intros i Hi. unfold unlinked. by rewrite HN, lookup_minus, decide_False. }
  assert (Hm : forall V (m m' : gmap Z V), m = minus F m' ->
     filter (fun kv => ~ unlinked cur kv.1) m = filter (fun kv => ~ unlinked rep kv.1) m').
  { intros V m m' ->. apply map_eq. intros i. rewrite !collect_lookup, lookup_minus.
    destruct (decide (i ∈ F)) as [Hi|Hi].
    - rewrite (decide_True _ _ (HF i Hi)). by destruct (decide (unlinked cur i)).
    - specialize (Hu i Hi). by destruct (decide (unlinked cur i)), (decide (unlinked rep i)); try tauto. }
  split_and!; [done|by apply Hm| |by apply Hm|done|].
  - by rewrite !collect_Children.
  - intros i [n Hn]. revert Hn. simpl. rewrite !collect_lookup.
    destruct (decide (unlinked cur i)) as [|Hnu]; [done|]. intros Hn.
    assert (Hi : i ∉ F) by (rewrite HN, lookup_minus_Some in Hn; naive_solver).
    rewrite decide_False by (by rewrite <- Hu). by apply (minus_lookup_eq F).
Qed.

Section session.
Context `{CR : ColdReader}.

Lemma Open_durable t env volID walPath latest w :
  durable t w -> volID <> "" -> walPath <> "" -> local_wins latest (disk w) ->
  (d_head (disk w) = None -> env_now env = t) ->
  exists w', Open env volID walPath latest (disk w) = Ok w' /\ durable t w' /\
    same_files (collectUnlinkedLocked (core (eng w))) (core (eng w')).
Proof.
  intros [W (rs & rep & Hrs & Hrep & Wr & S)] Hv Hp Hl Ht.
  destruct (Open_local t env volID walPath latest _ _ _ Hv Hp Hl Ht Hrs Hrep) as (w' & HO & Hc & Hd).
  exists w'. split; [done|]. split; [|rewrite Hc; apply sim_same; [done|apply W|done]].
  split; [split|].
  - rewrite Hc. by apply wf_collect.
  - rewrite Hd. apply W.
  - rewrite Hd. apply W.
  - exists rs, rep. rewrite Hd, Hc. split_and!; try done. by apply collect_sim.
Qed.

(** The outcomes a session goes on after: a success, or an error that left the log
    as it was (for a checkpoint, left everything as it was).  A checkpoint is of a
    state JSON keeps. *)
Definition clean (c : Call) (x : gores unit) (w w' : World) : Prop :=
  match x with
  | Ok _ => checkpoint c = true -> json_state (core (eng w')) = core (eng w')
  | Err _ => if checkpoint c then w' = w else d_wal (disk w') = d_wal (disk w)
  | Panic => False
  end.

(** The events of a session of a volume made at [t]: calls, and crashes followed by
    [Open] on the files as they are. *)
Inductive event (t : Z) (w : World) : World -> Prop :=
| event_call env c x w' :
    headroom w -> seq_room w -> call_ok c -> call_utf8 c ->
    exec env c w = (x, w') -> clean c x w w' -> event t w w'
| event_crash env volID walPath latest w' :
    volID <> "" -> walPath <> "" -> local_wins latest (disk w) ->
    (d_head (disk w) = None -> env_now env = t) ->
    Open env volID walPath latest (disk w) = Ok w' -> event t w w'.

Lemma event_durable t w w' : event t w w' -> durable t w -> durable t w'.
Proof.
  intros [env c x w2 Hh Hq Hc Hu E Hx|env v p l w2 Hv Hp Hl Ht HO] D.
  - assert (W2 : world_ok w2).
    { pose proof (exec_ok env c w (proj1 D) Hh Hc) as H. by rewrite E in H. }
    split; [done|]. destruct (checkpoint c) eqn:Hck.
    + destruct x as [[]|e|]; simpl in Hx; [|rewrite Hck in Hx; subst; apply D|done].
      eapply checkpoint_logs; eauto.
    + eapply exec_logs; eauto. unfold kept. destruct x; [done| |done]. simpl in Hx. by rewrite Hck in Hx.
  - destruct (Open_durable t env v p l w D Hv Hp Hl Ht) as (w3 & HO' & D' & _). congruence.
Qed.

Lemma session_durable t w w' : rtc (event t) w w' -> durable t w -> durable t w'.
Proof. induction 1; eauto using event_durable. Qed.

Lemma new_durable env volID walPath w :
  Open env volID walPath None (mkDisk [] None ∅) = Ok w -> durable (env_now env) w.
Proof.
  intros HO. split; [by eapply Open_fresh_ok|].
  unfold Open in HO. destruct (decide (volID = "")); [done|]. destruct (decide (walPath = "")) as [|Hp]; [done|].
  unfold loadCurrentState in HO. rewrite decide_False in HO by done. simpl in HO. injection HO as <-.
  exists [], (initialState (env_now env)). split_and!; [done|done|apply wf_initialState|].
  apply collect_sim, wf_initialState.
Qed.


End session.

