(* ===== verification/S0fsFaults.v ===== *)
(** * s0fs: what the log does not survive

    [S0fsRecovery] shows that a log that is whole and in step with the saved head
    opens again.  This file proves what happens at the three places where the engine
    leaves the two out of step: a crash between saving the state and emptying the
    log, an operation that fails after its record was appended, and a torn append.
    It also has the exact round trip of [Close] and [Open] and the reuse of numbers. *)

From stdpp Require Import base gmap strings list fin_maps numbers sorting.
From Stdlib Require Import Strings.Byte.
From S2P Require Import Prelude GoStd S0fsTypes S0fsCore S0fsEngine S0fsInv S0fsSafety S0fsRecovery.

Local Open Scope Z_scope.

Section faults.
Context `{CR : ColdReader}.

(** [Open] up to the replay, on a disk with a saved head. *)
Lemma Open_head env volID walPath latest d h r rs :
  volID <> "" -> walPath <> "" -> d_head d = Some h -> latest <> Some Panic ->
  readWAL (d_wal d) = Ok (r :: rs) ->
  exists m, Open env volID walPath latest d = open_with env volID h (r :: rs) m d.
Proof.
  intros Hv Hp Hh Hl Hr. unfold Open, loadCurrentState. rewrite !decide_False, Hr, Hh by done.
  unfold choose_state. destruct latest as [[[st m]|e|]|]; simpl; eauto. done.
Qed.

(** The record of a creation finds its name taken by its own first run. *)
Lemma replay_create_again h r rs :
  wf h -> r_Op r = OpCreate -> r_Inode r <> 0 -> r_Parent r <> 0 -> r_Name r <> "" ->
  is_Some (dir_of (Children h) (r_Parent r) !! r_Name r) ->
  (replay (r :: rs) h).1 = Err (ErrReplay (r_Seq r) ErrExists).
Proof.
  intros W Hop Hi Hp Hn [j Hj]. simpl. unfold bind, replay_one, apply. rewrite Hop. unfold applyCreate.
  rewrite (proj2 (Z.eqb_neq _ 0) Hi), (proj2 (Z.eqb_neq _ 0) Hp), bool_decide_eq_false_2 by done. simpl.
  unfold bind. rewrite ensureDir_wf by done. assert (Ht : is_Some (Children h !! r_Parent r)).
  { unfold dir_of in Hj. destruct (Children h !! r_Parent r); [done|]. simpl in Hj. by apply lookup_empty_Some in Hj. }
  apply (wf_dirs _ W) in Ht as (d & -> & ->). unfold get. by rewrite Hj.
Qed.

(** A record that fails on the state in memory fails when it is replayed. *)
Lemma content_update_fails rep cur i t f e cur' n :
  sim rep cur -> Nodes cur !! i = Some n -> content_update i t f cur = (Err e, cur') ->
  (content_update i t f rep).1 = Err e.
Proof.
  intros S Hn. unfold content_update. rewrite Hn, (sim_node _ _ _ _ S Hn).
  destruct (is_dir n); [by intros [= <- <-]|].
  destruct (file_content_sim _ _ i S) as (-> & _ & _); [eauto|].
  destruct (file_content rep i) as [c| |]; [|by intros [= <- <-]|done].
  destruct (f c); [done|by intros [= <- <-]|done].
Qed.

Lemma replay_snoc_fails rs r s rep e :
  replay rs s = (Ok tt, rep) -> (apply r rep).1 = Err e ->
  (replay (rs ++ [r]) s).1 = Err (ErrReplay (r_Seq r) e).
Proof.
  revert s. induction rs as [|r0 rs IH]; intros s; simpl.
  - intros [= <-] H. unfold bind, replay_one. by destruct (apply r s) as [[| |] ?]; simplify_eq/=.
  - unfold bind. destruct (replay_one r0 s) as [[[]| |] s1]; [|done..]. apply IH.
Qed.

Lemma open_with_fails env volID st rs m d e :
  (replay rs st).1 = Err e -> open_with env volID st rs m d = Err e.
Proof. unfold open_with. destruct (replay rs st) as [[| |] ?]; simpl; congruence. Qed.

(** ** Claims *)

(** [Close] followed by [Open] is exact: when [Close] of an open engine succeeds,
    the log is empty and [Open] gives the closed engine's state, passed through JSON
    and without unlinked files, sequence number included. *)
Theorem close_open_roundtrip env w w' env' volID walPath latest
    (Hopen : closed (eng w) = false) (Hclose : Close env w = (Ok tt, w'))
    (Hid : volID <> "") (Hpath : walPath <> "") (Hlatest : local_wins latest (disk w')) :
  exists w2, Open env' volID walPath latest (disk w') = Ok w2 /\ disk w2 = disk w' /\
    d_wal (disk w') = [] /\
    core (eng w2) = collectUnlinkedLocked (json_state (core (eng w))).
Proof.
  unfold Close, bind at 1, get in Hclose. rewrite Hopen in Hclose.
  apply persist_reset in Hclose as (w1 & E & [Hwal Hhead] & Hcore). unfold bind, wal_close, modify in E.
  assert (Hd : disk w' = disk w1).
  { simpl in E. destruct (walHandle (eng w1)), (env_close env); try done; by injection E as <-. }
  rewrite Hd in *. rewrite Hcore in Hhead.
  destruct (Open_local 0 env' volID walPath latest (disk w1) [] (json_state (core (eng w))))
    as (w2 & ? & ? & ?); [done|done|done| | | |].
  - by rewrite Hhead.
  - by rewrite Hwal.
  - unfold base. by rewrite Hhead.
  - exists w2. by rewrite Hwal.
Qed.

(** a crash after [persistCurrentStateLocked] and before [wal.reset], the two
    steps of every checkpoint, makes the volume unopenable when the log starts with a
    creation whose name is still in use: [Open] replays the creation on a state that
    already has it and fails with [ErrExists]. *)
Theorem checkpoint_crash_fails env w r rs env' volID walPath latest
    (Hw : world_ok w) (Hsave : env_save env = true)
    (Hwal : readWAL (d_wal (disk w)) = Ok (r :: rs)) (Hop : r_Op r = OpCreate)
    (Hino : r_Inode r <> 0) (Hpar : r_Parent r <> 0) (Hname : r_Name r <> "")
    (Hused : is_Some (dir_of (Children (json_state (core (eng w)))) (r_Parent r) !! r_Name r))
    (Hid : volID <> "") (Hpath : walPath <> "") (Hlatest : latest <> Some Panic) :
  Open env' volID walPath latest (disk (persistCurrentStateLocked env w).2) =
    Err (ErrReplay (r_Seq r) ErrExists).
Proof.
  unfold persistCurrentStateLocked. rewrite Hsave. simpl.
  edestruct (Open_head env' volID walPath latest) as [m ->]; [done..| |].
  - simpl. exact Hwal.
  - apply open_with_fails, replay_create_again; try done. apply wf_json_state, Hw.
Qed.

(** A [Write] that fails after its record reached the log (the old content of a
    cold file cannot be read) leaves a record that fails in the same way at every
    [Open], so the volume no longer opens. *)
Theorem failed_write_poisons t env w inode off payload e w' env' volID walPath latest
    (Hw : durable t w) (Hseq : seq_room w) (Happend : env_append env = AppendOk)
    (Hfail : Write env inode off payload w = (Err e, w'))
    (Hlogged : d_wal (disk w') <> d_wal (disk w))
    (Hid : volID <> "") (Hpath : walPath <> "") (Hlatest : local_wins latest (disk w'))
    (Hnow : d_head (disk w') = None -> env_now env' = t) :
  Open env' volID walPath latest (disk w') = Err (ErrReplay (NextSeq (core (eng w))) e).
Proof.
  destruct Hw as [W (rs & rep & Hrs & Hrep & Wr & S)].
  unfold Write, bind at 1 2, checkOpen in Hfail. destruct (closed (eng w)); [by simplify_eq/=|].
  rewrite (run_core_guard _ _ _ (fileNode_eq _ _)) in Hfail.
  destruct (Nodes (core (eng w)) !! inode) as [n|] eqn:Hn; [|by simplify_eq/=].
  destruct (is_dir n); [by simplify_eq/=|].
  set (r := mkRecord (NextSeq (core (eng w))) OpWrite inode 0 "" 0 "" TypeUnset 0 off payload "" (env_now env)).
  unfold log_apply, bind, newRecord, wal_append in Hfail. simpl in Hfail. fold r in Hfail.
  change (json_record r) with r in Hfail.
  destruct (walHandle (eng w)); [by simplify_eq/=| |by simplify_eq/=]. rewrite Happend in Hfail.
  unfold bind, run_core in Hfail. simpl in Hfail.
  destruct (apply r _) as [[u|e'|] s'] eqn:Ha; simplify_eq/=.
  destruct (Open_base t env' volID walPath latest _ (rs ++ [r]) Hid Hpath Hlatest Hnow) as [m ->].
  { by apply readWAL_snoc. }
  apply open_with_fails. apply (replay_snoc_fails rs r _ rep); [done|].
  unfold apply in *. simpl in Ha |- *. rewrite applyWrite_eq in Ha |- *.
  eapply (content_update_fails _ (set_NextSeq _ (core (eng w)))); [|exact Hn|exact Ha].
  apply sim_seq_up; [done|]. unfold seq_room in Hseq. rewrite u64_small; lia.
Qed.

(** A torn append (a record cut short by a crash or a full disk) makes [Open]
    fail, whatever complete records precede it. *)
Theorem torn_append_fails env d volID walPath latest :
  In Torn (d_wal d) -> volID <> "" -> walPath <> "" ->
  Open env volID walPath latest d = Err ErrDecode.
Proof.
  intros Ht Hv Hp. unfold Open. rewrite !decide_False by done.
  assert (H : readWAL (d_wal d) = Err ErrDecode).
  { induction (d_wal d) as [|[r|] ls IH]; simpl in *; [done| |done].
    destruct Ht as [|Ht]; [done|]. by rewrite IH. }
  by rewrite H.
Qed.

End faults.

(** ** Instances *)

(** A directory [a] in an open engine of a new volume, and its log. *)
Definition demo_record : walRecord := mkRecord 1 OpCreate 2 1 "a" 0 "" TypeDirectory 493 0 [] "" 8.
Definition demo_world : World :=
  mkWorld (mkEngine "vol" HOpen false ((apply (CR := no_cold) demo_record (set_NextSeq 2 (initialState 7))).2)
             1 0 0 true 8)
    (mkDisk [Line demo_record] None ∅).

Lemma demo_world_ok : world_ok demo_world.
Proof. split; [apply wfb_wf; vm_compute; reflexivity|done|]. intros id st H. simpl in H. by apply lookup_empty_Some in H. Qed.

Lemma close_open_roundtrip_witness :
  exists w2, Open (CR := no_cold) (calm 9) "vol" "wal" None (disk (Close (calm 8) demo_world).2) = Ok w2 /\
    core (eng w2) = core (eng demo_world).
Proof.
  edestruct (close_open_roundtrip (CR := no_cold) (calm 8) demo_world (Close (calm 8) demo_world).2
               (calm 9) "vol" "wal" None) as (w2 & H & _ & _ & Hc);
    [reflexivity|vm_compute; reflexivity|done|done|exact I|].
  exists w2. split; [exact H|]. rewrite Hc. vm_compute. reflexivity.
Defined.

Lemma checkpoint_crash_fails_witness :
  Open (CR := no_cold) (calm 9) "vol" "wal" None (disk (persistCurrentStateLocked (calm 8) demo_world).2) =
    Err (ErrReplay 1 ErrExists).
Proof.
  apply (checkpoint_crash_fails (CR := no_cold) (calm 8) demo_world demo_record []);
    [exact demo_world_ok|reflexivity|reflexivity|reflexivity|discriminate|discriminate|discriminate
    |vm_compute; by eexists|discriminate|discriminate|discriminate].
Defined.

(** A saved volume with one file whose bytes are in a segment. *)
Definition cold_state : SnapshotState :=
  mkState 5 3 (<[2 := mkNode 2 TypeFile 420 0 0 1 4 "" 1 1 1]> (Nodes (initialState 7)))
    {[RootInode := {["f" := 2]}]} ∅ {[2 := [mkExtent "seg" 0 4]]} ∅.
Definition cold_world : World :=
  mkWorld (mkEngine "vol" HOpen false cold_state 0 0 0 false 0) (mkDisk [] (Some cold_state) ∅).

Lemma failed_write_poisons_witness :
  exists e, Open (CR := no_cold) (calm 9) "vol" "wal" None
    (disk (Write (CR := no_cold) (calm 8) 2 0 [x61] cold_world).2) = Err (ErrReplay 5 e).
Proof.
  assert (W : wf cold_state) by (apply wfb_wf; vm_compute; reflexivity).
  eexists. eapply (failed_write_poisons (CR := no_cold) 0 (calm 8) cold_world 2 0 [x61]).
  - split; [split; [done|by intros ? [= <-]|]|].
    + intros id st H. simpl in H. by apply lookup_empty_Some in H.
    + exists [], cold_state. split_and!; [done|done|done|apply sim_refl].
  - vm_compute. split; congruence.
  - done.
  - vm_compute. reflexivity.
  - done.
  - done.
  - done.
  - exact I.
  - done.
Defined.

Lemma torn_append_fails_witness :
  Open (CR := no_cold) (calm 9) "vol" "wal" None (mkDisk [Line demo_record; Torn] None ∅) = Err ErrDecode.
Proof. apply (torn_append_fails (CR := no_cold)); [simpl; tauto|done|done]. Defined.
