(* ===== verification/S0fsCrypto.v ===== *)
(** * s0fs: encryption of state blobs and segments (crypto.go)

    The ciphers (crypto/aes, crypto/cipher, x/crypto), the key encryptor and
    encoding/json are interfaces of the model: [Ciphers], [KeyEncryptor] and [Json]
    give their operations, [aead_ok], [keys_ok] and [JsonLaws] what the code relies
    on.  The random bytes an encryption draws are its arguments.

    Theorems: blobs and segments decrypt to what was encrypted, for every range a
    reader can ask for; no two chunks of a segment use the same nonce; an encrypted
    blob is never returned undecrypted. *)

From stdpp Require Import base gmap strings list fin_maps numbers pretty.
From Stdlib Require Import Strings.Byte.
From S2P Require Import Prelude GoStd S0fsTypes.

Local Open Scope Z_scope.

(** ** Interfaces *)

(** cipher.AEAD *)
Record AEAD := mkAEAD {
  NonceSize : Z;
  Overhead : Z;
  Seal : list byte -> list byte -> list byte -> list byte;
  OpenAead : list byte -> list byte -> list byte -> option (list byte)
}.

(** aes.NewCipher with cipher.NewGCM, and chacha20poly1305.New *)
Class Ciphers := {
  new_aes_gcm : list byte -> gores AEAD;
  new_chacha20poly1305 : list byte -> gores AEAD
}.

(** objectstore.Encryptor *)
Record KeyEncryptor := mkKeyEncryptor {
  ke_Encrypt : list byte -> gores (list byte);
  ke_Decrypt : list byte -> gores (list byte)
}.

Record EncryptionConfig := mkEncryption {
  ec_Enabled : bool;
  ec_Algorithm : string;
  ec_KeyEncryptor : option KeyEncryptor;
  ec_SegmentChunkSize : Z
}.

Record encryptedBlob := mkBlob {
  eb_Marker : string;
  eb_Version : Z;
  eb_Algorithm : string;
  eb_WrappedKey : list byte;
  eb_Nonce : list byte;
  eb_Ciphertext : list byte
}.

(** json.Marshal and json.Unmarshal at the types the package stores. *)
Class Json := {
  marshal_blob : encryptedBlob -> list byte;
  unmarshal_blob : list byte -> option encryptedBlob;
  marshal_manifest : Manifest -> list byte;
  unmarshal_manifest : list byte -> option Manifest
}.

(** The random bytes of one encryption: a 32-byte data key and the bytes of a nonce. *)
Record Random := mkRandom { rnd_key : list byte; rnd_nonce : list byte }.

Definition EncryptionAlgoAES256GCMRSA : string := "aes256gcm-rsa".
Definition EncryptionAlgoCHACHA20RSA : string := "chacha20-rsa".
Definition encryptedBlobMarker : string := "s0fs.encrypted.v1".
Definition segmentEncryptionVersion : Z := 1.
Definition defaultEncryptionChunkSize : Z := 2 ^ 20.

Definition bytes_of (s : string) : list byte := String.list_byte_of_string s.

(** ** Configuration *)

(** A nil configuration is [None]. *)
Definition enabled (c : option EncryptionConfig) : option KeyEncryptor :=
  match c with
  | Some c => if ec_Enabled c then ec_KeyEncryptor c else None
  | None => None
  end.

Definition normalizedAlgorithm (c : option EncryptionConfig) : string :=
  match c with
  | Some c => if decide (TrimSpace (ec_Algorithm c) = "") then EncryptionAlgoAES256GCMRSA
              else TrimSpace (ec_Algorithm c)
  | None => EncryptionAlgoAES256GCMRSA
  end.

Definition chunkSize (c : option EncryptionConfig) : Z :=
  match c with
  | Some c => if ec_SegmentChunkSize c =? 0 then defaultEncryptionChunkSize else ec_SegmentChunkSize c
  | None => defaultEncryptionChunkSize
  end.

Definition newAEADForAlgorithm `{Ciphers} (algorithm : string) (key : list byte) : gores AEAD :=
  let algorithm := TrimSpace algorithm in
  let algorithm := if decide (algorithm = "") then EncryptionAlgoAES256GCMRSA else algorithm in
  if decide (algorithm = EncryptionAlgoAES256GCMRSA) then new_aes_gcm key
  else if decide (algorithm = EncryptionAlgoCHACHA20RSA) then new_chacha20poly1305 key
  else Err (ErrIO "unsupported s0fs encryption algorithm").

Definition newAEAD `{Ciphers} (c : option EncryptionConfig) (key : list byte) : gores AEAD :=
  newAEADForAlgorithm (normalizedAlgorithm c) key.

(** ** Nonces and additional data *)

Definition byte_of (x : Z) : byte := default x00 (Byte.of_N (Z.to_N (x mod 256))).

(** binary.BigEndian.PutUint64 *)
Definition be64 (x : Z) : list byte :=
  [byte_of (x / 2 ^ 56); byte_of (x / 2 ^ 48); byte_of (x / 2 ^ 40); byte_of (x / 2 ^ 32);
   byte_of (x / 2 ^ 24); byte_of (x / 2 ^ 16); byte_of (x / 2 ^ 8); byte_of x].

(** A nonce size below 8 makes the slice expression panic; no cipher has one. *)
Definition segmentChunkNonce (nonceSize : Z) (prefix : list byte) (chunkIndex : Z) : list byte :=
  let nonce := splice 0 (take (Z.to_nat nonceSize) prefix) (replicate (Z.to_nat nonceSize) x00) in
  splice (nonceSize - 8) (be64 chunkIndex) nonce.

Definition newline : string := String (Ascii.ascii_of_nat 10) "".

Definition segmentChunkAAD (volumeID segmentID key : string) (chunkIndex plainLen : Z)
    (algorithm : string) : list byte :=
  bytes_of ("s0fs-segment-v1" +:+ newline +:+ "volume=" +:+ volumeID +:+ newline +:+ "segment=" +:+ segmentID
    +:+ newline +:+ "key=" +:+ key +:+ newline +:+ "chunk=" +:+ pretty chunkIndex +:+ newline
    +:+ "plain_len=" +:+ pretty plainLen +:+ newline +:+ "algorithm=" +:+ algorithm).

Definition stateBlobAAD (volumeID role : string) : list byte :=
  bytes_of ("s0fs-state-v1" +:+ newline +:+ "volume=" +:+ volumeID +:+ newline +:+ "role=" +:+ role).

Definition walRecordAAD (volumeID : string) : list byte :=
  bytes_of ("s0fs-wal-v1" +:+ newline +:+ "volume=" +:+ volumeID).

Section crypto.
Context `{C : Ciphers} `{J : Json}.

(** ** Blobs *)

Definition encryptBlob (c : option EncryptionConfig) (rnd : Random) (plaintext aad : list byte)
    : gores (list byte) :=
  match enabled c with
  | None => Ok plaintext
  | Some ke =>
      let? wrappedKey := ke_Encrypt ke (rnd_key rnd) in
      let? aead := newAEAD c (rnd_key rnd) in
      let nonce := take (Z.to_nat (NonceSize aead)) (rnd_nonce rnd) in
      Ok (marshal_blob (mkBlob encryptedBlobMarker 1 (normalizedAlgorithm c) wrappedKey nonce
                          (Seal aead nonce plaintext aad)))
  end.

(** The payload and whether it was encrypted; an error has [encrypted = true]. *)
Definition decryptBlobIfEncrypted (c : option EncryptionConfig) (payload aad : list byte)
    : gores (list byte * bool) :=
  match unmarshal_blob payload with
  | None => Ok (payload, false)
  | Some blob =>
      if negb (bool_decide (eb_Marker blob = encryptedBlobMarker)) then Ok (payload, false) else
      match enabled c with
      | None => Err ErrInvalidInput
      | Some ke =>
          if negb (eb_Version blob =? 1) then Err ErrInvalidInput else
          let? key := ke_Decrypt ke (eb_WrappedKey blob) in
          let? aead := newAEADForAlgorithm (eb_Algorithm blob) key in
          match OpenAead aead (eb_Nonce blob) (eb_Ciphertext blob) aad with
          | Some plaintext => Ok (plaintext, true)
          | None => Err (ErrIO "decrypt encrypted blob")
          end
      end
  end.

(** ** Segments *)

(** materializedSegment of materializer.go *)
Record materializedSegment := mkMaterialized {
  ms_ID : string;
  ms_VolumeID : string;
  ms_Key : string;
  ms_Payload : list byte;
  ms_SHA256 : list byte;
  ms_Encryption : option SegmentEncryption
}.

(** The loop over the chunks, from chunk [idx] at byte [offset]. *)
Fixpoint encrypt_loop (fuel : nat) (seal : Z -> list byte -> list byte) (cs : Z) (payload : list byte)
    (idx offset : Z) (out : list byte) : gores (list byte) :=
  if offset <? zlen payload then
    match fuel with
    | O => Panic
    | S fuel' =>
        let end_ := u64 (offset + cs) in
        let end_ := if zlen payload <? end_ then zlen payload else end_ in
        let? chunk := goslice offset end_ payload in
        encrypt_loop fuel' seal cs payload (u64 (idx + 1)) (u64 (offset + cs)) (out ++ seal idx chunk)
    end
  else Ok out.

Definition seal_chunk (aead : AEAD) (prefix : list byte) (volumeID segmentID key algorithm : string)
    (idx : Z) (chunk : list byte) : list byte :=
  Seal aead (segmentChunkNonce (NonceSize aead) prefix idx) chunk
    (segmentChunkAAD volumeID segmentID key idx (zlen chunk) algorithm).

(** [None] in the second place is the nil metadata of an unencrypted segment. *)
Definition encryptSegment (c : option EncryptionConfig) (rnd : Random) (volumeID : string)
    (segment : option materializedSegment) : gores (list byte * option SegmentEncryption) :=
  match segment with
  | None => Ok ([], None)
  | Some sg =>
      match enabled c with
      | None => Ok (ms_Payload sg, None)
      | Some ke =>
          if zlen (ms_Payload sg) =? 0 then Ok (ms_Payload sg, None) else
          let? wrappedKey := ke_Encrypt ke (rnd_key rnd) in
          let? aead := newAEAD c (rnd_key rnd) in
          let noncePrefix := take (Z.to_nat (NonceSize aead - 8)) (rnd_nonce rnd) in
          let cs := chunkSize c in
          let? out := encrypt_loop (length (ms_Payload sg))
                        (seal_chunk aead noncePrefix volumeID (ms_ID sg) (ms_Key sg) (normalizedAlgorithm c))
                        cs (ms_Payload sg) 0 0 [] in
          Ok (out, Some (mkSegEnc segmentEncryptionVersion (normalizedAlgorithm c) cs
                           (zlen (ms_Payload sg)) (zlen out) wrappedKey noncePrefix))
      end
  end.

(** One round of the loop of [decryptSegmentRange]. *)
Definition decrypt_chunk (aead : AEAD) (get : string -> Z -> Z -> gores (list byte)) (volumeID : string)
    (segment : Segment) (enc : SegmentEncryption) (plaintextSize off end_ chunkIndex : Z)
    : gores (list byte) :=
  let plainStart := u64 (chunkIndex * se_ChunkSize enc) in
  let plainLen := se_ChunkSize enc in
  let plainLen := if plaintextSize <? u64 (plainStart + plainLen) then u64 (plaintextSize - plainStart)
                  else plainLen in
  let cipherOffset := int64_of (u64 (chunkIndex * u64 (se_ChunkSize enc + Overhead aead))) in
  let cipherLen := int64_of (u64 (plainLen + Overhead aead)) in
  let? ciphertext := get (sg_Key segment) cipherOffset cipherLen in
  let nonce := segmentChunkNonce (NonceSize aead) (se_NoncePrefix enc) chunkIndex in
  let aad := segmentChunkAAD volumeID (sg_ID segment) (sg_Key segment) chunkIndex plainLen (se_Algorithm enc) in
  match OpenAead aead nonce ciphertext aad with
  | None => Err (ErrIO "decrypt segment chunk")
  | Some chunk =>
      let chunkFrom := if plainStart <? off then u64 (off - plainStart) else 0 in
      let chunkTo := if end_ <? u64 (plainStart + plainLen) then u64 (end_ - plainStart) else plainLen in
      goslice chunkFrom chunkTo chunk
  end.

Fixpoint decrypt_loop (round : Z -> gores (list byte)) (chunks : list Z) (out : list byte)
    : gores (list byte) :=
  match chunks with
  | [] => Ok out
  | i :: rest => let? chunk := round i in decrypt_loop round rest (out ++ chunk)
  end.

(** [get] is the object store's [Get] with the reader read to its end. *)
Definition decryptSegmentRange (c : option EncryptionConfig) (get : string -> Z -> Z -> gores (list byte))
    (volumeID : string) (segment : Segment) (off limit : Z) : gores (list byte) :=
  match sg_Encryption segment, enabled c with
  | None, _ | _, None => Err ErrInvalidInput
  | Some enc, Some ke =>
      if negb (se_Version enc =? segmentEncryptionVersion) then Err ErrInvalidInput else
      if se_ChunkSize enc =? 0 then Err ErrInvalidInput else
      if off <? 0 then Err ErrInvalidInput else
      let plaintextSize := if se_PlaintextSize enc =? 0 then sg_Length segment else se_PlaintextSize enc in
      if (plaintextSize <=? off) || (limit =? 0) then Ok [] else
      let end_ := if (0 <=? limit) && (u64 (off + limit) <? plaintextSize) then u64 (off + limit)
                  else plaintextSize in
      let? key := ke_Decrypt ke (se_WrappedKey enc) in
      let? aead := newAEADForAlgorithm (se_Algorithm enc) key in
      let startChunk := off / se_ChunkSize enc in
      let endChunk := (end_ - 1) / se_ChunkSize enc in
      decrypt_loop (decrypt_chunk aead get volumeID segment enc plaintextSize off end_)
        (seqZ startChunk (endChunk - startChunk + 1)) []
  end.

End crypto.

(** ** What the code relies on *)

Record aead_ok (a : AEAD) : Prop := {
  ao_nonce : 8 <= NonceSize a < 2 ^ 32;
  ao_overhead : 0 <= Overhead a < 2 ^ 32;
  ao_len : forall n p ad, zlen (Seal a n p ad) = zlen p + Overhead a;
  ao_open : forall n p ad, zlen n = NonceSize a -> OpenAead a n (Seal a n p ad) ad = Some p
}.

Class CipherLaws `{Ciphers} : Prop := {
  cl_aes : forall k a, new_aes_gcm k = Ok a -> aead_ok a;
  cl_chacha : forall k a, new_chacha20poly1305 k = Ok a -> aead_ok a
}.

Definition keys_ok (ke : KeyEncryptor) : Prop :=
  forall k wrapped, ke_Encrypt ke k = Ok wrapped -> ke_Decrypt ke wrapped = Ok k.

(** A decoded blob is the encoded one; a document without the marker's key decodes to
    a blob without the marker, if at all. *)
Class JsonLaws `{Json} : Prop := {
  jl_blob : forall b, utf8_ok (eb_Marker b) -> utf8_ok (eb_Algorithm b) -> unmarshal_blob (marshal_blob b) = Some b;
  jl_manifest : forall m, unmarshal_manifest (marshal_manifest m) = Some (json_manifest m);
  jl_other : forall m b, unmarshal_blob (marshal_manifest m) = Some b -> eb_Marker b <> encryptedBlobMarker
}.

Lemma newAEAD_ok `{CipherLaws} alg key a : newAEADForAlgorithm alg key = Ok a -> aead_ok a.
Proof.
  unfold newAEADForAlgorithm. repeat case_decide; try done; first [apply cl_aes | apply cl_chacha].
Qed.

(** ** Chunks of a sealed payload *)

Section chunks.
Context (cs : Z) (payload : list byte) (f : Z -> list byte -> list byte).
Hypothesis (Hcs : 0 < cs <= 2 ^ 62) (Hlen : zlen payload <= 2 ^ 62).

Definition chunk_end (i : Z) : Z := Z.min ((i + 1) * cs) (zlen payload).
Definition chunk (i : Z) : list byte := subslice (i * cs) (chunk_end i) payload.
Definition sealed (i n : Z) : list byte := concat ((fun j => f j (chunk j)) <$> seqZ i n).

Lemma sealed_cons i n : 0 < n -> sealed i n = f i (chunk i) ++ sealed (i + 1) (n - 1).
Proof. intros Hn. unfold sealed. rewrite seqZ_cons by lia. rewrite fmap_cons. simpl. do 4 f_equal; lia. Qed.

Lemma encrypt_loop_sealed (n : nat) fuel i out :
  (n <= fuel)%nat -> 0 <= i -> zlen payload <= (i + Z.of_nat n) * cs ->
  ((0 < n)%nat -> (i + Z.of_nat n - 1) * cs < zlen payload) ->
  encrypt_loop fuel f cs payload i (i * cs) out = Ok (out ++ sealed i (Z.of_nat n)).
Proof.
  revert fuel i out. induction n as [|n IH]; intros fuel i out Hf Hi Hle Hlt.
  - destruct fuel; simpl; rewrite (proj2 (Z.ltb_ge _ _)) by lia; by rewrite app_nil_r.
  - destruct fuel as [|fuel]; [lia|]. specialize (Hlt ltac:(lia)).
    assert (Hin : i * cs < zlen payload) by nia. simpl. rewrite (proj2 (Z.ltb_lt _ _)) by done.
    rewrite u64_small by nia.
    assert (Hend : (if zlen payload <? i * cs + cs then zlen payload else i * cs + cs) = chunk_end i).
    { unfold chunk_end. destruct (_ <? _) eqn:E; [apply Z.ltb_lt in E|apply Z.ltb_ge in E]; lia. }
    rewrite Hend. rewrite goslice_ok by (unfold chunk_end; nia). simpl.
    assert (i < 2 ^ 63) by nia. rewrite u64_small by lia.
    replace (i * cs + cs) with ((i + 1) * cs) by lia. rewrite IH; [|lia|lia|lia|].
    + rewrite (sealed_cons i) by lia. rewrite <- app_assoc. do 3 f_equal. f_equal. lia.
    + intros. lia.
Qed.

(** All chunks before the last are full. *)
Lemma zlen_chunk i : 0 <= i -> i * cs < zlen payload -> zlen (chunk i) = chunk_end i - i * cs.
Proof. intros. unfold chunk. apply zlen_subslice; unfold chunk_end; nia. Qed.

Lemma sealed_at ov i0 n k :
  (forall j p, zlen (f j p) = zlen p + ov) -> 0 <= ov -> 0 <= i0 -> 0 <= k < n ->
  (i0 + n - 1) * cs < zlen payload ->
  let a := k * (cs + ov) in
  subslice a (a + zlen (f (i0 + k) (chunk (i0 + k)))) (sealed i0 n) = f (i0 + k) (chunk (i0 + k)).
Proof.
  intros Hf Hov Hi0 Hk Hn. assert (H0 : 0 <= k) by lia. revert i0 n Hi0 Hk Hn. pattern k.
  apply natlike_ind; [| |done].
  - intros i0 n Hi0 Hk Hn. cbv zeta. rewrite Z.mul_0_l, Z.add_0_l, Z.add_0_r. rewrite sealed_cons by lia.
    rewrite subslice_app_l by lia. apply subslice_all.
  - clear k H0. intros k Hk0 IH i0 n Hi0 Hk Hn. cbv zeta. rewrite sealed_cons by lia.
    assert (Hfull : zlen (f i0 (chunk i0)) = cs + ov).
    { rewrite Hf, zlen_chunk by nia. unfold chunk_end. nia. }
    replace (i0 + Z.succ k) with ((i0 + 1) + k) by lia.
    rewrite subslice_app_r by (rewrite Hfull; nia). rewrite Hfull.
    specialize (IH (i0 + 1) (n - 1) ltac:(lia) ltac:(lia) ltac:(lia)). cbv zeta in IH.
    etrans; [|exact IH]. f_equal; lia.
Qed.

End chunks.

Lemma zlen_segmentChunkNonce ns prefix i : 8 <= ns -> zlen (segmentChunkNonce ns prefix i) = ns.
Proof.
  intros H. unfold segmentChunkNonce.
  assert (Hr : zlen (replicate (Z.to_nat ns) x00) = ns) by (autorewrite with go; lia).
  assert (Ht : zlen (take (Z.to_nat ns) prefix) <= ns) by (unfold zlen; rewrite length_take; lia).
  assert (Hs : zlen (splice 0 (take (Z.to_nat ns) prefix) (replicate (Z.to_nat ns) x00)) = ns)
    by (rewrite zlen_splice; lia).
  rewrite zlen_splice; [done|lia|]. change (zlen (be64 i)) with 8. lia.
Qed.

Section decrypt.
Context (aead : AEAD) (Ha : aead_ok aead) (cs : Z) (payload : list byte).
Context (prefix : list byte) (volumeID : string) (sg : Segment) (enc : SegmentEncryption) (n : Z).
Hypothesis (Hcs : 0 < cs <= 2 ^ 62) (Hlen : zlen payload <= 2 ^ 62).
Hypothesis (Hn : (n - 1) * cs < zlen payload <= n * cs).
Hypothesis (Henc_cs : se_ChunkSize enc = cs) (Henc_prefix : se_NoncePrefix enc = prefix).

Let f := seal_chunk aead prefix volumeID (sg_ID sg) (sg_Key sg) (se_Algorithm enc).
Let cipher := sealed cs payload f 0 n.
Context (get : string -> Z -> Z -> gores (list byte)).
Hypothesis (Hcipher : zlen cipher <= maxInt).
Hypothesis (Hget : forall o l, 0 <= o -> 0 <= l -> o + l <= zlen cipher ->
  get (sg_Key sg) o l = Ok (subslice o (o + l) cipher)).

Lemma decrypt_chunk_ok off end_ i :
  0 <= i < n -> 0 <= off < (i + 1) * cs -> i * cs < end_ <= zlen payload -> off < end_ ->
  decrypt_chunk aead get volumeID sg enc (zlen payload) off end_ i =
    Ok (subslice (Z.max off (i * cs)) (Z.min end_ ((i + 1) * cs)) payload).
Proof.
  intros Hi Hoff Hend Hoe. pose proof (ao_nonce _ Ha) as Hns. pose proof (ao_overhead _ Ha) as Hov.
  assert (Hf : forall j p, zlen (f j p) = zlen p + Overhead aead) by (intros; apply (ao_len _ Ha)).
  assert (Hi1 : i * cs < zlen payload) by lia.
  pose proof (zlen_chunk cs payload Hcs Hlen i ltac:(lia) Hi1) as Hcl.
  pose proof (sealed_at cs payload f Hcs Hlen (Overhead aead) 0 n i Hf ltac:(lia) ltac:(lia) Hi ltac:(lia)) as Hs.
  cbv zeta in Hs. rewrite Z.add_0_l in Hs. fold cipher in Hs.
  assert (Hce : chunk_end cs payload i - i * cs = Z.min cs (zlen payload - i * cs)) by (unfold chunk_end; lia).
  rewrite Hf in Hs. rewrite Hcl, Hce in Hs. set (pl := Z.min cs (zlen payload - i * cs)) in *.
  assert (Hpl : 0 < pl <= 2 ^ 62) by lia.
  assert (Hin : i * (cs + Overhead aead) + (pl + Overhead aead) <= zlen cipher).
  { apply (zlen_subslice_le (i * (cs + Overhead aead))); [nia|lia|]. rewrite Hs, Hf, Hcl, Hce. lia. }
  unfold decrypt_chunk. rewrite Henc_cs, Henc_prefix. unfold maxInt in Hcipher.
  rewrite (u64_small (i * cs)), (u64_small (i * cs + cs)) by nia.
  assert (Hif : (if zlen payload <? i * cs + cs then u64 (zlen payload - i * cs) else cs) = pl).
  { unfold pl. destruct (_ <? _) eqn:E; [apply Z.ltb_lt in E|apply Z.ltb_ge in E]; rewrite ?u64_small by lia; lia. }
  rewrite Hif. rewrite (u64_small (cs + _)) by lia. rewrite (u64_small (i * _)), (u64_small (pl + _)) by nia.
  rewrite !int64_of_small by (unfold maxInt; nia). rewrite Hget by (nia || lia). rewrite Hs. simpl.
  unfold f, seal_chunk. rewrite Hcl, Hce. fold pl.
  rewrite (ao_open _ Ha) by (apply zlen_segmentChunkNonce; lia).
  rewrite (u64_small (i * cs + pl)) by nia.
  assert (Hfrom : (if i * cs <? off then u64 (off - i * cs) else 0) = Z.max off (i * cs) - i * cs).
  { destruct (i * cs <? off) eqn:E; [apply Z.ltb_lt in E|apply Z.ltb_ge in E]; rewrite ?u64_small by lia; lia. }
  assert (Hto : (if end_ <? i * cs + pl then u64 (end_ - i * cs) else pl) = Z.min end_ ((i + 1) * cs) - i * cs).
  { replace ((i + 1) * cs) with (i * cs + cs) by lia.
    assert (pl = Z.min cs (zlen payload - i * cs)) by done.
    destruct (end_ <? i * cs + pl) eqn:E; [apply Z.ltb_lt in E|apply Z.ltb_ge in E];
      rewrite ?u64_small by lia; lia. }
  rewrite Hfrom, Hto. replace ((i + 1) * cs) with (i * cs + cs) in * by lia.
  assert (pl = Z.min cs (zlen payload - i * cs)) by done.
  rewrite goslice_ok by lia. unfold chunk. rewrite subslice_subslice by (lia || nia). do 2 f_equal; lia.
Qed.

Lemma decrypt_loop_ok off end_ (k : nat) i out :
  0 <= off < end_ -> end_ <= zlen payload -> off / cs <= i -> i + Z.of_nat k = (end_ - 1) / cs + 1 ->
  decrypt_loop (decrypt_chunk aead get volumeID sg enc (zlen payload) off end_) (seqZ i (Z.of_nat k)) out =
    Ok (out ++ subslice (Z.max off (i * cs)) end_ payload).
Proof.
  intros Hoff Hend. revert i out. induction k as [|k IH]; intros i out Hi Hk.
  - simpl. rewrite subslice_empty; [by rewrite app_nil_r|].
    pose proof (Z.div_mod (end_ - 1) cs). pose proof (Z.mod_pos_bound (end_ - 1) cs). nia.
  - rewrite Nat2Z.inj_succ, seqZ_cons by lia. cbn [decrypt_loop].
    assert (Hi0 : 0 <= i) by (pose proof (Z.div_pos off cs); lia).
    assert (Hlo : off < (i + 1) * cs).
    { pose proof (Z.div_mod off cs). pose proof (Z.mod_pos_bound off cs). nia. }
    assert (Hhi : i * cs < end_).
    { pose proof (Z.div_mod (end_ - 1) cs). pose proof (Z.mod_pos_bound (end_ - 1) cs). nia. }
    rewrite decrypt_chunk_ok by (lia || nia). cbn [rbind].
    replace (Z.pred (Z.succ (Z.of_nat k))) with (Z.of_nat k) by lia.
    rewrite (IH (Z.succ i)) by lia. rewrite <- app_assoc. do 2 f_equal.
    replace (Z.succ i) with (i + 1) by lia. destruct (decide (end_ <= (i + 1) * cs)).
    + rewrite (subslice_empty (Z.max off ((i + 1) * cs))), app_nil_r by lia. f_equal. lia.
    + rewrite Z.min_r, (Z.max_r off ((i + 1) * cs)) by lia. apply subslice_app; nia.
Qed.

End decrypt.

(** The bytes a reader of [payload] gets for an offset and a limit; a negative limit
    is no limit. *)
Definition range_of (payload : list byte) (off limit : Z) : list byte :=
  subslice off (if limit <? 0 then zlen payload else Z.min (off + limit) (zlen payload)) payload.

(** ** Nonces *)

Definition byte_val (b : byte) : Z := Z.of_N (Byte.to_N b).

Lemma byte_val_of x : byte_val (byte_of x) = x mod 256.
Proof.
  unfold byte_val, byte_of. pose proof (Z.mod_pos_bound x 256).
  destruct (Byte.of_N (Z.to_N (x mod 256))) as [b|] eqn:E; simpl.
  - apply Byte.to_of_N in E. rewrite E. lia.
  - apply Byte.of_N_None_iff in E. lia.
Qed.

Lemma be64_inj x y : 0 <= x < 2 ^ 64 -> 0 <= y < 2 ^ 64 -> be64 x = be64 y -> x = y.
Proof.
  intros Hx Hy E. unfold be64 in E. injection E as E7 E6 E5 E4 E3 E2 E1 E0.
  repeat match goal with H : byte_of _ = byte_of _ |- _ => apply (f_equal byte_val) in H; rewrite !byte_val_of in H end.
  Z.to_euclidean_division_equations. lia.
Qed.

(** ** Claims *)

(** no two chunks of a segment are sealed with the same nonce, whatever the random
    prefix is: under one data key a nonce is never reused. *)
Theorem segment_nonces_distinct nonceSize prefix i j
    (Hns : 8 <= nonceSize) (Hi : 0 <= i < 2 ^ 64) (Hj : 0 <= j < 2 ^ 64)
    (Hsame : segmentChunkNonce nonceSize prefix i = segmentChunkNonce nonceSize prefix j) :
  i = j.
Proof.
  apply be64_inj; [done|done|]. unfold segmentChunkNonce in Hsame.
  set (base := splice 0 _ _) in Hsame.
  assert (Hb : zlen base = nonceSize).
  { unfold base. assert (Hr : zlen (replicate (Z.to_nat nonceSize) x00) = nonceSize) by (autorewrite with go; lia).
    rewrite zlen_splice; [done|lia|]. rewrite Hr. unfold zlen. rewrite length_take. lia. }
  rewrite <- (subslice_splice_new (nonceSize - 8) (be64 i) base) by (change (zlen (be64 i)) with 8; lia).
  rewrite <- (subslice_splice_new (nonceSize - 8) (be64 j) base) by (change (zlen (be64 j)) with 8; lia).
  by rewrite Hsame.
Qed.

Lemma encryptSegment_inv `{Ciphers} c rnd vol sg out enc :
  encryptSegment c rnd vol (Some sg) = Ok (out, Some enc) ->
  exists ke wrapped aead, enabled c = Some ke /\ zlen (ms_Payload sg) <> 0 /\
    ke_Encrypt ke (rnd_key rnd) = Ok wrapped /\ newAEAD c (rnd_key rnd) = Ok aead /\
    let prefix := take (Z.to_nat (NonceSize aead - 8)) (rnd_nonce rnd) in
    encrypt_loop (length (ms_Payload sg))
      (seal_chunk aead prefix vol (ms_ID sg) (ms_Key sg) (normalizedAlgorithm c))
      (chunkSize c) (ms_Payload sg) 0 0 [] = Ok out /\
    enc = mkSegEnc segmentEncryptionVersion (normalizedAlgorithm c) (chunkSize c)
            (zlen (ms_Payload sg)) (zlen out) wrapped prefix.
Proof.
  unfold encryptSegment. destruct (enabled c) as [ke|]; [|done].
  destruct (zlen (ms_Payload sg) =? 0) eqn:E; [done|]. apply Z.eqb_neq in E.
  destruct (ke_Encrypt ke _) as [wrapped| |] eqn:Ew; cbn [rbind]; [|done..].
  destruct (newAEAD c _) as [aead| |] eqn:Ea; cbn [rbind]; [|done..].
  destruct (encrypt_loop _ _ _ _ _ _ _) as [o| |] eqn:El; cbn [rbind]; [|done..].
  intros [= -> <-]. exists ke, wrapped, aead. by split_and!.
Qed.

(** Decrypting a range of an encrypted segment. *)
Lemma decrypt_encrypt_segment `{CL : CipherLaws} c rnd vol sg out enc get off limit sha
    (Hkeys : forall ke, enabled c = Some ke -> keys_ok ke)
    (Hcs : 0 < chunkSize c <= 2 ^ 62) (Hlen : zlen (ms_Payload sg) <= 2 ^ 62)
    (Henc : encryptSegment c rnd vol (Some sg) = Ok (out, Some enc)) (Hout : zlen out <= maxInt)
    (Hget : forall o l, 0 <= o -> 0 <= l -> o + l <= zlen out ->
       get (ms_Key sg) o l = Ok (subslice o (o + l) out))
    (Hoff : 0 <= off) (Hlimit : off + limit < 2 ^ 64) :
  decryptSegmentRange c get vol
    (mkSegment (ms_ID sg) (ms_VolumeID sg) (ms_Key sg) (zlen (ms_Payload sg)) sha (Some enc)) off limit
  = Ok (range_of (ms_Payload sg) off limit).
Proof.
  apply encryptSegment_inv in Henc as (ke & wrapped & aead & Hke & Hne & Hw & Ha & Hloop & ->).
  set (p := ms_Payload sg) in *. set (cs := chunkSize c) in *. pose proof (zlen_nonneg p).
  pose proof (newAEAD_ok _ _ _ Ha) as Hao.
  set (n := (zlen p - 1) / cs + 1).
  assert (Hn : (n - 1) * cs < zlen p <= n * cs).
  { unfold n. pose proof (Z.div_mod (zlen p - 1) cs). pose proof (Z.mod_pos_bound (zlen p - 1) cs). nia. }
  assert (Hn1 : 1 <= n <= zlen p) by (split; [unfold n; pose proof (Z.div_pos (zlen p - 1) cs); lia|nia]).
  rewrite (encrypt_loop_sealed cs p _ Hcs Hlen (Z.to_nat n) _ 0 []) in Hloop
    by (unfold zlen in *; lia || nia). injection Hloop as Hloop. rewrite Z2Nat.id in Hloop by lia.
  unfold decryptSegmentRange. cbn [sg_Encryption se_Version se_ChunkSize se_PlaintextSize se_WrappedKey se_Algorithm].
  rewrite Hke. rewrite Z.eqb_refl. cbn [negb]. rewrite (proj2 (Z.eqb_neq cs 0)) by lia.
  rewrite (proj2 (Z.ltb_ge off 0)) by lia. rewrite (proj2 (Z.eqb_neq (zlen p) 0)) by done.
  unfold range_of. destruct (zlen p <=? off) eqn:E1.
  { apply Z.leb_le in E1. rewrite subslice_empty; [done|]. destruct (limit <? 0); lia. }
  apply Z.leb_gt in E1. cbn [orb]. destruct (limit =? 0) eqn:E2.
  { apply Z.eqb_eq in E2 as ->. rewrite subslice_empty; [done|]. rewrite (proj2 (Z.ltb_ge 0 0)); lia. }
  apply Z.eqb_neq in E2. rewrite (Hkeys _ Hke _ _ Hw). cbn [rbind]. unfold newAEAD in Ha. rewrite Ha. cbn [rbind].
  set (e := if (0 <=? limit) && _ then _ else _).
  assert (He : e = if limit <? 0 then zlen p else Z.min (off + limit) (zlen p)).
  { unfold e. destruct (limit <? 0) eqn:El; [apply Z.ltb_lt in El|apply Z.ltb_ge in El].
    - by rewrite (proj2 (Z.leb_gt 0 limit)) by lia.
    - rewrite (proj2 (Z.leb_le 0 limit)), u64_small by lia. simpl.
      destruct (off + limit <? zlen p) eqn:Em; [apply Z.ltb_lt in Em|apply Z.ltb_ge in Em]; lia. }
  assert (Hoe : off < e <= zlen p) by (rewrite He; destruct (limit <? 0) eqn:El;
    [apply Z.ltb_lt in El|apply Z.ltb_ge in El]; lia).
  rewrite <- He. clearbody e. pose proof (Z.div_le_mono off (e - 1) cs).
  replace ((e - 1) / cs - off / cs + 1) with (Z.of_nat (Z.to_nat ((e - 1) / cs - off / cs + 1))) by lia.
  set (prefix := take _ (rnd_nonce rnd)) in *.
  set (en := mkSegEnc _ _ _ _ _ _ _). set (sgm := mkSegment _ _ _ _ _ _).
  rewrite (decrypt_loop_ok aead Hao cs p prefix vol sgm en n Hcs Hlen Hn eq_refl eq_refl get);
    [|simpl; simpl in Hloop; by rewrite Hloop|simpl; simpl in Hloop; by rewrite Hloop|lia|lia|lia|lia].
  f_equal. simpl. f_equal. pose proof (Z.mul_div_le off cs ltac:(lia)). lia.
Qed.

(** C35: an encrypted segment reads back.  For every offset and limit, decrypting the
    range out of a store that holds what [encryptSegment] returned gives exactly the
    bytes of the plaintext in that range: chunk boundaries, the short last chunk and
    ranges beyond the end included. *)
Theorem segment_roundtrip `{CL : CipherLaws} c rnd vol sg out enc get off limit sha
    (Hkeys : forall ke, enabled c = Some ke -> keys_ok ke)
    (Hcs : 0 < chunkSize c <= 2 ^ 62) (Hlen : zlen (ms_Payload sg) <= 2 ^ 62)
    (Henc : encryptSegment c rnd vol (Some sg) = Ok (out, Some enc)) (Hout : zlen out <= maxInt)
    (Hget : forall o l, 0 <= o -> 0 <= l -> o + l <= zlen out ->
       get (ms_Key sg) o l = Ok (subslice o (o + l) out))
    (Hoff : 0 <= off) (Hlimit : off + limit < 2 ^ 64) :
  decryptSegmentRange c get vol
    (mkSegment (ms_ID sg) (ms_VolumeID sg) (ms_Key sg) (zlen (ms_Payload sg)) sha (Some enc)) off limit
  = Ok (range_of (ms_Payload sg) off limit).
Proof. by eapply decrypt_encrypt_segment. Qed.

(** Decrypting an encrypted blob. *)
Lemma decrypt_encrypt_blob `{CL : CipherLaws} `{JL : JsonLaws} c rnd plaintext aad payload
    (Hkeys : forall ke, enabled c = Some ke -> keys_ok ke) (Hon : is_Some (enabled c))
    (Halg : utf8_ok (normalizedAlgorithm c))
    (Hnonce : forall a, newAEAD c (rnd_key rnd) = Ok a -> NonceSize a <= zlen (rnd_nonce rnd))
    (Hok : encryptBlob c rnd plaintext aad = Ok payload) :
  decryptBlobIfEncrypted c payload aad = Ok (plaintext, true) /\
  forall c', enabled c' = None -> decryptBlobIfEncrypted c' payload aad = Err ErrInvalidInput.
Proof.
  unfold encryptBlob in Hok. destruct Hon as [ke Hke]. rewrite Hke in Hok.
  destruct (ke_Encrypt ke _) as [wrapped| |] eqn:Hw; cbn [rbind] in Hok; [|done..].
  destruct (newAEAD c _) as [aead| |] eqn:Ha; cbn [rbind] in Hok; [|done..]. injection Hok as <-.
  specialize (Hnonce _ eq_refl). pose proof (newAEAD_ok _ _ _ Ha) as Hao. pose proof (ao_nonce _ Hao).
  unfold decryptBlobIfEncrypted. rewrite jl_blob by (done || by vm_compute). cbn [eb_Marker].
  rewrite bool_decide_eq_true_2 by done. cbn [negb]. split; [|by intros c' ->].
  rewrite Hke. cbn [eb_Version eb_WrappedKey eb_Algorithm eb_Nonce eb_Ciphertext]. rewrite Z.eqb_refl. cbn [negb].
  rewrite (Hkeys _ Hke _ _ Hw). cbn [rbind]. unfold newAEAD in Ha. rewrite Ha. cbn [rbind].
  rewrite (ao_open _ Hao); [done|]. unfold zlen in *. rewrite length_take. lia.
Qed.

(** an encrypted blob (saved state, log record, manifest) opens with the same
    additional data, and only with a configuration that has the key: without one it
    is an error, never the stored bytes. *)
Theorem blob_roundtrip `{CL : CipherLaws} `{JL : JsonLaws} c rnd plaintext aad payload
    (Hkeys : forall ke, enabled c = Some ke -> keys_ok ke) (Hon : is_Some (enabled c))
    (Halg : utf8_ok (normalizedAlgorithm c))
    (Hnonce : forall a, newAEAD c (rnd_key rnd) = Ok a -> NonceSize a <= zlen (rnd_nonce rnd))
    (Hok : encryptBlob c rnd plaintext aad = Ok payload) :
  decryptBlobIfEncrypted c payload aad = Ok (plaintext, true) /\
  forall c', enabled c' = None -> decryptBlobIfEncrypted c' payload aad = Err ErrInvalidInput.
Proof. by eapply decrypt_encrypt_blob. Qed.

(** ** Instances *)

(** A cipher that only adds a tag of zeros, and a key encryptor that adds a byte. *)
Definition tag_cipher : AEAD :=
  mkAEAD 12 16 (fun _ p _ => p ++ replicate 16 x00) (fun _ c _ => Some (take (length c - 16) c)).

#[export] Instance tag_ciphers : Ciphers :=
  {| new_aes_gcm := fun _ => Ok tag_cipher; new_chacha20poly1305 := fun _ => Ok tag_cipher |}.

Lemma tag_cipher_ok : aead_ok tag_cipher.
Proof.
  split; simpl; [lia|lia| |].
  - intros. unfold zlen. rewrite length_app. simpl. lia.
  - intros n p ad _. f_equal. rewrite length_app. simpl.
    replace (length p + 16 - 16)%nat with (length p) by lia. apply take_app_length.
Qed.

#[export] Instance tag_laws : CipherLaws.
Proof. split; intros k a [= <-]; apply tag_cipher_ok. Qed.

Definition byte_key : KeyEncryptor :=
  mkKeyEncryptor (fun k => Ok (x01 :: k)) (fun w => match w with _ :: k => Ok k | [] => Err ErrInvalidInput end).

Lemma byte_key_ok : keys_ok byte_key.
Proof. intros k w [= <-]. done. Qed.

(** A concrete encoding of documents, self-delimiting and linear in their size. *)
Class Codec (A : Type) := {
  enc : A -> list byte;
  dec : list byte -> option (A * list byte);
  dec_enc : forall a l, dec (enc a ++ l) = Some (a, l)
}.

Definition codec_iso {A B} `{Codec B} (f : A -> B) (g : B -> A) (Hgf : forall a, g (f a) = a) : Codec A.
Proof.
  refine {| enc a := enc (f a); dec l := '(b, r) ← dec l; Some (g b, r) |}.
  intros a l. rewrite dec_enc. simpl. by rewrite Hgf.
Defined.

#[export] Instance byte_codec : Codec byte.
Proof.
  refine {| enc b := [b]; dec l := match l with b :: r => Some (b, r) | [] => None end |}. done.
Defined.

Fixpoint enc_pos (p : positive) : list byte :=
  match p with
  | xI p => x31 :: enc_pos p
  | xO p => x30 :: enc_pos p
  | xH => [x2e]
  end.
Fixpoint dec_pos (l : list byte) : option (positive * list byte) :=
  match l with
  | x31 :: l => '(p, r) ← dec_pos l; Some (xI p, r)
  | x30 :: l => '(p, r) ← dec_pos l; Some (xO p, r)
  | x2e :: l => Some (xH, l)
  | _ => None
  end.

#[export] Instance pos_codec : Codec positive.
Proof.
  refine {| enc := enc_pos; dec := dec_pos |}.
  intros p l. induction p as [p IH|p IH|]; simpl; [by rewrite IH..|done].
Defined.
#[export] Instance Z_codec : Codec Z.
Proof.
  apply (codec_iso (fun z => match z with Z0 => xH | Zpos p => xO p | Zneg p => xI p end)
    (fun p => match p with xH => Z0 | xO p => Zpos p | xI p => Zneg p end)). by intros [].
Defined.
#[export] Instance nat_codec : Codec nat := codec_iso Z.of_nat Z.to_nat Nat2Z.id.

#[export] Instance prod_codec {A B} `{Codec A, Codec B} : Codec (A * B).
Proof.
  refine {| enc ab := enc ab.1 ++ enc ab.2; dec l := '(a, r) ← dec l; '(b, r) ← dec r; Some (a, b, r) |}.
  intros [a b] l. simpl. rewrite <- app_assoc, dec_enc. simpl. by rewrite dec_enc.
Defined.
#[export] Instance option_codec {A} `{Codec A} : Codec (option A).
Proof.
  refine {| enc o := match o with Some a => x31 :: enc a | None => [x30] end;
            dec l := match l with x31 :: l => '(a, r) ← dec l; Some (Some a, r) | _ :: l => Some (None, l) | [] => None end |}.
  intros [a|] l; simpl; [by rewrite dec_enc|done].
Defined.

Fixpoint dec_n {A} `{Codec A} (n : nat) (l : list byte) : option (list A * list byte) :=
  match n with
  | O => Some ([], l)
  | S n => '(a, r) ← dec l; '(t, r) ← dec_n n r; Some (a :: t, r)
  end.

Lemma dec_n_enc {A} `{Codec A} (xs : list A) l : dec_n (length xs) (concat (map enc xs) ++ l) = Some (xs, l).
Proof.
  induction xs as [|x xs IH]; simpl; [done|]. rewrite <- app_assoc, dec_enc. simpl. by rewrite IH.
Qed.

#[export] Instance list_codec {A} `{Codec A} : Codec (list A).
Proof.
  refine {| enc xs := enc (length xs) ++ concat (map enc xs); dec l := '(n, r) ← dec l; dec_n n r |}.
  intros xs l. rewrite <- app_assoc, dec_enc. apply dec_n_enc.
Defined.
#[export] Instance string_codec : Codec string :=
  codec_iso String.list_byte_of_string String.string_of_list_byte String.string_of_list_byte_of_string.
#[export] Instance gmap_codec {K A} `{Countable K, Codec K, Codec A} : Codec (gmap K A) :=
  codec_iso map_to_list list_to_map (fun m => list_to_map_to_list m).

#[export] Instance encryptedBlob_codec : Codec encryptedBlob.
Proof.
  apply (codec_iso (fun b => (eb_Marker b, eb_Version b, eb_Algorithm b, eb_WrappedKey b, eb_Nonce b, eb_Ciphertext b))
    (fun '(a, b, c, d, e, f) => mkBlob a b c d e f)). by intros [].
Defined.
#[export] Instance FileType_codec : Codec FileType.
Proof.
  apply (codec_iso (fun t => match t with TypeDirectory => 0 | TypeFile => 1 | TypeSymlink => 2 | TypeUnset => 3 end)
    (fun z => if z =? 0 then TypeDirectory else if z =? 1 then TypeFile else if z =? 2 then TypeSymlink else TypeUnset)).
  by intros [].
Defined.
#[export] Instance Node_codec : Codec Node.
Proof.
  apply (codec_iso (fun n => (n_Inode n, n_Type n, n_Mode n, n_UID n, n_GID n, n_Nlink n, n_Size n, n_Target n,
      n_Atime n, n_Mtime n, n_Ctime n))
    (fun '(a, b, c, d, e, f, g, h, i, j, k) => mkNode a b c d e f g h i j k)). by intros [].
Defined.
#[export] Instance FileExtent_codec : Codec FileExtent.
Proof.
  apply (codec_iso (fun x => (x_SegmentID x, x_Offset x, x_Length x)) (fun '(a, b, c) => mkExtent a b c)). by intros [].
Defined.
#[export] Instance SegmentEncryption_codec : Codec SegmentEncryption.
Proof.
  apply (codec_iso (fun s => (se_Version s, se_Algorithm s, se_ChunkSize s, se_PlaintextSize s, se_CiphertextSize s,
      se_WrappedKey s, se_NoncePrefix s)) (fun '(a, b, c, d, e, f, g) => mkSegEnc a b c d e f g)). by intros [].
Defined.
#[export] Instance Segment_codec : Codec Segment.
Proof.
  apply (codec_iso (fun s => (sg_ID s, sg_VolumeID s, sg_Key s, sg_Length s, sg_SHA256 s, sg_Encryption s))
    (fun '(a, b, c, d, e, f) => mkSegment a b c d e f)). by intros [].
Defined.
#[export] Instance SnapshotState_codec : Codec SnapshotState.
Proof.
  apply (codec_iso (fun s => (NextSeq s, NextInode s, Nodes s, Children s, Data s, ColdFiles s, Segments s))
    (fun '(a, b, c, d, e, f, g) => mkState a b c d e f g)). by intros [].
Defined.
#[export] Instance Manifest_codec : Codec Manifest.
Proof.
  apply (codec_iso (fun m => (mf_Version m, mf_VolumeID m, mf_ManifestSeq m, mf_CheckpointSeq m, mf_CreatedAt m, mf_State m))
    (fun '(a, b, c, d, e, f) => mkManifest a b c d e f)). by intros [].
Defined.

#[export] Instance codec_json : Json :=
  {| marshal_blob := fun b => x42 :: enc b;
     unmarshal_blob := fun l => match l with x42 :: l => fst <$> dec l | _ => None end;
     marshal_manifest := fun m => x4d :: enc (json_manifest m);
     unmarshal_manifest := fun l => match l with x4d :: l => fst <$> dec l | _ => None end |}.

#[export] Instance codec_json_laws : JsonLaws.
Proof.
  split; cbn [unmarshal_blob unmarshal_manifest marshal_blob marshal_manifest codec_json].
  - intros b _ _. by rewrite <- (app_nil_r (enc b)), dec_enc.
  - intros m. by rewrite <- (app_nil_r (enc _)), dec_enc.
  - done.
Qed.

(** Encryption with two-byte chunks. *)
Definition small_chunks : option EncryptionConfig := Some (mkEncryption true "" (Some byte_key) 2).
Definition some_random : Random := mkRandom (replicate 32 x07) (replicate 24 x09).
Definition five_bytes : materializedSegment :=
  mkMaterialized "seg" "vol" "segments/seg.bin" [x61; x62; x63; x64; x65] [] None.

Lemma segment_nonces_distinct_witness : 3 = 3.
Proof. apply (segment_nonces_distinct 12 [x09; x09; x09; x09]); [lia|lia|lia|reflexivity]. Defined.

Lemma segment_roundtrip_witness :
  exists out enc, encryptSegment small_chunks some_random "vol" (Some five_bytes) = Ok (out, Some enc) /\
    decryptSegmentRange small_chunks (fun _ o l => Ok (subslice o (o + l) out)) "vol"
      (mkSegment "seg" "vol" "segments/seg.bin" 5 [] (Some enc)) 1 3 = Ok [x62; x63; x64].
Proof.
  eexists _, _. split; [vm_compute; reflexivity|].
  change [x62; x63; x64] with (range_of (ms_Payload five_bytes) 1 3).
  eapply (segment_roundtrip small_chunks some_random "vol" five_bytes).
  - intros ke [= <-]. exact byte_key_ok.
  - vm_compute. split; [reflexivity|discriminate].
  - vm_compute. discriminate.
  - vm_compute. reflexivity.
  - vm_compute. discriminate.
  - reflexivity.
  - lia.
  - lia.
Defined.

Lemma blob_roundtrip_witness :
  exists payload, encryptBlob small_chunks some_random [x61; x62] (walRecordAAD "vol") = Ok payload /\
    decryptBlobIfEncrypted small_chunks payload (walRecordAAD "vol") = Ok ([x61; x62], true).
Proof.
  eexists. split; [vm_compute; reflexivity|].
  eapply (blob_roundtrip small_chunks some_random [x61; x62] (walRecordAAD "vol")).
  - intros ke [= <-]. exact byte_key_ok.
  - eexists. reflexivity.
  - vm_compute. reflexivity.
  - intros a [= <-]. vm_compute. discriminate.
  - vm_compute. reflexivity.
Defined.
