(* ===== verification/ObjectStore.v ===== *)
(** * Object storage (storage-proxy/pkg/objectstore)

    The [Store] interface, the in-memory store and the store that puts a prefix
    before every key.  [StoreLaws] is what clients of the interface rely on; both
    stores are instances.  The S3, OSS and GCS clients are not modelled: they are
    calls into their SDKs. *)

From stdpp Require Import base gmap strings list fin_maps numbers sorting.
From Stdlib Require Import Strings.Byte Ascii.
From S2P Require Import Prelude GoStd S0fsTypes S0fsCrypto.

Local Open Scope Z_scope.

Record Info := mkInfo { in_Key : string; in_Size : Z }.

(** [Get] is the reader read to its end; [List] has its page, whether there is more,
    and the token of the next page. *)
Class Store (S : Type) := {
  st_Get : string -> Z -> Z -> S -> gores (list byte);
  st_Put : string -> list byte -> S -> gores unit * S;
  st_Delete : string -> S -> gores unit * S;
  st_Head : string -> S -> gores Info;
  st_List : string -> string -> string -> string -> Z -> S -> gores (list Info * bool * string)
}.

(** What a client relies on: [st_key] says which object a key names, [Put] makes the
    object what was put and touches no other. *)
Class StoreLaws (S : Type) `{Store S} := {
  st_key : string -> string;
  sl_get_put : forall k v s s' o l, st_Put k v s = (Ok tt, s') -> 0 <= o ->
    (0 <= l -> Z.min o (zlen v) + l <= maxInt) -> st_Get k o l s' = Ok (range_of v o l);
  sl_head_put : forall k v s s', st_Put k v s = (Ok tt, s') -> exists i, st_Head k s' = Ok i;
  sl_frame : forall k v s r s' k', st_Put k v s = (r, s') -> st_key k' <> st_key k ->
    (forall o l, st_Get k' o l s' = st_Get k' o l s) /\ st_Head k' s' = st_Head k' s
}.

Definition slash : ascii := "/"%char.

(** ** The in-memory store *)

Record memoryStore := mkMemory { objects : gmap string (list byte) }.

(** [payload[off:end]] with both ends clipped, as [memoryStore.Get] and
    [cloneByteRange] of the materializer compute them. *)
Definition cloneByteRange (payload : list byte) (off limit : Z) : gores (list byte) :=
  let off := if zlen payload <? off then zlen payload else off in
  let end_ := zlen payload in
  let end_ := if (0 <=? limit) && (add64 off limit <? end_) then add64 off limit else end_ in
  goslice off end_ payload.

Definition memory_Get (key : string) (off limit : Z) (s : memoryStore) : gores (list byte) :=
  match objects s !! TrimLeft key slash with
  | None => Err (ErrIO "object not found")
  | Some payload => cloneByteRange payload off limit
  end.

Definition memory_Put (key : string) (payload : list byte) (s : memoryStore) : gores unit * memoryStore :=
  (Ok tt, mkMemory (<[TrimLeft key slash := payload]> (objects s))).

Definition memory_Delete (key : string) (s : memoryStore) : gores unit * memoryStore :=
  (Ok tt, mkMemory (delete (TrimLeft key slash) (objects s))).

Definition memory_Head (key : string) (s : memoryStore) : gores Info :=
  if decide (TrimSpace key = "") then Ok (mkInfo "" 0) else
  match objects s !! TrimLeft key slash with
  | None => Err (ErrIO "object not found")
  | Some payload => Ok (mkInfo (TrimLeft key slash) (zlen payload))
  end.

(** The inner loop of [slicesSort]: the value sinks below the larger ones before it,
    which are kept last first. *)
Fixpoint sink (x : string) (before : list string) : list string :=
  match before with
  | [] => [x]
  | y :: rest => if String.ltb x y then y :: sink x rest else x :: before
  end.

(** Insertion sort, [before] holding the values already placed, last first. *)
Fixpoint sort_loop (before values : list string) : list string :=
  match values with
  | [] => before
  | x :: rest => sort_loop (sink x before) rest
  end.

Definition slicesSort (values : list string) : list string := rev (sort_loop [] values).

Definition memory_List (prefix startAfter token delimiter : string) (limit : Z) (s : memoryStore)
    : gores (list Info * bool * string) :=
  let prefix := TrimLeft prefix slash in
  let startAfter := TrimLeft startAfter slash in
  let keys := slicesSort (filter (fun k => HasPrefix k prefix && String.ltb startAfter k)
                            (fst <$> map_to_list (objects s))) in
  let cut := (0 <? limit) && (limit <? zlen keys) in
  let max := if cut then Z.to_nat limit else length keys in
  let page := take max keys in
  Ok ((fun k => mkInfo k (zlen (default [] (objects s !! k)))) <$> page, cut,
      if cut then default "" (last page) else "").

#[export] Instance memory_store : Store memoryStore :=
  {| st_Get := memory_Get; st_Put := memory_Put; st_Delete := memory_Delete;
     st_Head := memory_Head; st_List := memory_List |}.

(** ** A store with a prefix *)

(** The prefix is fixed when the store is made. *)
Record prefixedStore (S : Type) (prefix : string) := mkPrefixed { ps_store : S }.
Arguments mkPrefixed {S} _ _.
Arguments ps_store {S prefix} _.

Definition prefixed (p key : string) : string :=
  let key := TrimLeft (TrimSpace key) slash in
  if decide (key = "") then TrimRight p slash else p +:+ key.

Section prefixed.
Context {S : Type} `{ST : Store S} (p : string).

Definition with_store (r : gores unit * S) : gores unit * prefixedStore S p := (r.1, mkPrefixed p r.2).

Definition prefixed_Get (key : string) (off limit : Z) (s : prefixedStore S p) : gores (list byte) :=
  st_Get (prefixed p key) off limit (ps_store s).

Definition prefixed_Put (key : string) (payload : list byte) (s : prefixedStore S p) :=
  with_store (st_Put (prefixed p key) payload (ps_store s)).

Definition prefixed_Delete (key : string) (s : prefixedStore S p) :=
  with_store (st_Delete (prefixed p key) (ps_store s)).

Definition prefixed_Head (key : string) (s : prefixedStore S p) : gores Info :=
  let? i := st_Head (prefixed p key) (ps_store s) in
  Ok (mkInfo (TrimPrefix (in_Key i) p) (in_Size i)).

Definition prefixed_List (prefix startAfter token delimiter : string) (limit : Z) (s : prefixedStore S p)
    : gores (list Info * bool * string) :=
  let? r := st_List (prefixed p prefix) (prefixed p startAfter) token delimiter limit (ps_store s) in
  let '(objs, hasMore, nextToken) := r in
  Ok ((fun i => mkInfo (TrimPrefix (in_Key i) p) (in_Size i)) <$> objs, hasMore, nextToken).

#[export] Instance prefixed_store : Store (prefixedStore S p) :=
  {| st_Get := prefixed_Get; st_Put := prefixed_Put; st_Delete := prefixed_Delete;
     st_Head := prefixed_Head; st_List := prefixed_List |}.

End prefixed.

(** The prefix [Prefix(store, prefix)] uses; without one the store itself is returned. *)
Definition Prefix (prefix : string) : option string :=
  let prefix := Trim (TrimSpace prefix) slash in
  if decide (prefix = "") then None else Some (prefix +:+ "/").

(** ** The laws *)

Lemma cloneByteRange_ok payload off limit :
  0 <= off -> (0 <= limit -> Z.min off (zlen payload) + limit <= maxInt) ->
  cloneByteRange payload off limit = Ok (range_of payload off limit).
Proof.
  intros Ho Hl. unfold cloneByteRange, range_of. pose proof (zlen_nonneg payload).
  destruct (zlen payload <? off) eqn:E; [apply Z.ltb_lt in E|apply Z.ltb_ge in E].
  - rewrite (subslice_empty off) by (destruct (limit <? 0); lia).
    assert (He : (if (0 <=? limit) && (add64 (zlen payload) limit <? zlen payload)
                  then add64 (zlen payload) limit else zlen payload) = zlen payload).
    { destruct (0 <=? limit) eqn:El; [apply Z.leb_le in El|done]. rewrite add64_small by lia. simpl.
      by rewrite (proj2 (Z.ltb_ge _ _)) by lia. }
    rewrite He, goslice_ok by lia. by rewrite subslice_empty by lia.
  - destruct (limit <? 0) eqn:El; [apply Z.ltb_lt in El|apply Z.ltb_ge in El].
    + rewrite (proj2 (Z.leb_gt 0 limit)) by lia. simpl. by rewrite goslice_ok by lia.
    + rewrite (proj2 (Z.leb_le 0 limit)), add64_small by lia. simpl.
      destruct (off + limit <? zlen payload) eqn:Em; [apply Z.ltb_lt in Em|apply Z.ltb_ge in Em];
        rewrite goslice_ok by lia; do 2 f_equal; lia.
Qed.

#[export] Instance memory_laws : StoreLaws memoryStore.
Proof.
  refine {| st_key := fun k => TrimLeft k slash |}.
  - intros k v s s' o l [= <-] Ho Hl. simpl. unfold memory_Get. simpl. rewrite lookup_insert_eq.
    by apply cloneByteRange_ok.
  - intros k v s s' [= <-]. simpl. unfold memory_Head. destruct (decide _); [eauto|]. simpl.
    rewrite lookup_insert_eq. eauto.
  - intros k v s r s' k' [= <- <-] Hk. simpl. unfold memory_Get, memory_Head. simpl.
    rewrite lookup_insert_ne by congruence. done.
Defined.

#[export] Instance prefixed_laws {S} `{StoreLaws S} p : StoreLaws (prefixedStore S p).
Proof.
  refine {| st_key := fun k => st_key (prefixed p k) |}.
  - intros k v s s' o l E Ho Hl. simpl in *. unfold prefixed_Put, with_store in E. injection E as E <-.
    unfold prefixed_Get. simpl. eapply sl_get_put; [|done..]. rewrite <- E. apply surjective_pairing.
  - intros k v s s' E. simpl in *. unfold prefixed_Put, with_store in E. injection E as E <-.
    unfold prefixed_Head. simpl. edestruct (sl_head_put (prefixed p k) v (ps_store s)) as [i ->].
    + rewrite <- E. apply surjective_pairing.
    + simpl. eauto.
  - intros k v s r s' k' E Hk. simpl in *. unfold prefixed_Put, with_store in E. injection E as _ <-.
    unfold prefixed_Get, prefixed_Head. simpl.
    edestruct (sl_frame (prefixed p k) v (ps_store s)) as [H1 H2]; [apply surjective_pairing|exact Hk|].
    split; [done|]. by rewrite H2.
Defined.

(** ** Listing *)

Lemma ltb_lt a b : String.ltb a b = true <-> String.le a b /\ a <> b.
Proof.
  unfold String.le, String.ltb, String.leb. rewrite Is_true_true.
  assert (He : String.compare a b = Eq <-> a = b).
  { split; [apply String.compare_eq_iff|intros ->]. destruct (String.compare b b) eqn:E; [done|..];
      pose proof (String.compare_antisym b b) as Ha; rewrite E in Ha; done. }
  destruct (String.compare a b) eqn:E.
  - split; [done|]. intros [_ Hn]. by destruct Hn; apply He.
  - split; [|done]. intros _. split; [done|]. intros Hab. by apply He in Hab.
  - split; [done|]. by intros [? _].
Qed.

Lemma ltb_ge a b : String.ltb a b = false <-> String.le b a.
Proof.
  unfold String.le, String.ltb, String.leb. rewrite Is_true_true, (String.compare_antisym a b).
  destruct (String.compare b a); simpl; split; done.
Qed.

Lemma sink_Permutation x l : sink x l ≡ₚ x :: l.
Proof. induction l as [|y l IH]; simpl; [done|]. destruct (String.ltb x y); [|done]. rewrite IH. by constructor. Qed.

Lemma sort_loop_Permutation before values : sort_loop before values ≡ₚ before ++ values.
Proof.
  revert before. induction values as [|x values IH]; intros before; simpl; [by rewrite app_nil_r|].
  rewrite IH, sink_Permutation. apply Permutation_middle.
Qed.

Lemma slicesSort_Permutation l : slicesSort l ≡ₚ l.
Proof. unfold slicesSort. rewrite <- Permutation_rev. by rewrite sort_loop_Permutation. Qed.

Lemma sink_sorted x l : StronglySorted (flip String.le) l -> StronglySorted (flip String.le) (sink x l).
Proof.
  induction 1 as [|y l Hl IH Hy]; simpl; [by repeat constructor|].
  destruct (String.ltb x y) eqn:E.
  - constructor; [done|]. rewrite sink_Permutation. constructor; [|done]. by apply ltb_lt in E as [? _].
  - apply ltb_ge in E. constructor; [by constructor|]. constructor; [done|].
    eapply Forall_impl; [done|]. intros z Hz. unfold flip in *. by etrans.
Qed.

Lemma slicesSort_sorted l : StronglySorted String.le (slicesSort l).
Proof.
  unfold slicesSort.
  assert (H : forall before values, StronglySorted (flip String.le) before ->
                StronglySorted (flip String.le) (sort_loop before values)).
  { intros before values. revert before. induction values as [|x values IH]; intros before Hb; simpl; [done|].
    by apply IH, sink_sorted. }
  pose proof (H [] l (SSorted_nil _)) as Hs. clear H. induction Hs as [|y r _ IH Hy]; simpl; [constructor|].
  apply StronglySorted_app_2; [|done|by repeat constructor].
  intros a b Ha ->%list_elem_of_singleton. rewrite <- Permutation_rev in Ha. rewrite Forall_forall in Hy. by apply Hy.
Qed.

(** Keys are stored without leading slashes. *)
Definition memory_ok (s : memoryStore) : Prop :=
  forall k, is_Some (objects s !! k) -> TrimLeft k slash = k.

Lemma TrimLeft_idem s c : TrimLeft (TrimLeft s c) c = TrimLeft s c.
Proof.
  induction s as [|a s IH]; simpl; [done|]. destruct (decide (a = c)); [done|]. simpl.
  by rewrite decide_False.
Qed.

Lemma memory_Put_ok k v s : memory_ok s -> memory_ok (memory_Put k v s).2.
Proof.
  intros H j [x Hj]. simpl in Hj. apply lookup_insert_Some in Hj as [[<- _]|[_ Hj]]; [apply TrimLeft_idem|].
  apply H. eauto.
Qed.

(** The keys under a prefix after a given one, in order. *)
Definition keys_after (prefix start : string) (s : memoryStore) : list string :=
  slicesSort (filter (fun k => HasPrefix k prefix && String.ltb start k) (fst <$> map_to_list (objects s))).

Lemma elem_of_keys_after prefix start s k :
  k ∈ keys_after prefix start s <->
  is_Some (objects s !! k) /\ HasPrefix k prefix = true /\ String.le start k /\ start <> k.
Proof.
  unfold keys_after. rewrite slicesSort_Permutation, list_elem_of_filter, Is_true_true, andb_true_iff, ltb_lt.
  rewrite list_elem_of_fmap. split.
  - intros ((? & ? & ?) & [k' v] & -> & Hk%elem_of_map_to_list). split_and!; eauto.
  - intros ([v Hv] & ? & ? & ?). split; [done|]. exists (k, v). split; [done|]. by apply elem_of_map_to_list.
Qed.

Lemma keys_after_NoDup prefix start s : NoDup (keys_after prefix start s).
Proof.
  unfold keys_after. rewrite slicesSort_Permutation. apply NoDup_filter, NoDup_fst_map_to_list.
Qed.

Lemma keys_after_split prefix start s l1 x l2 :
  keys_after prefix start s = l1 ++ x :: l2 -> l2 = keys_after prefix x s.
Proof.
  intros E. pose proof (slicesSort_sorted
    (filter (fun k => HasPrefix k prefix && String.ltb start k) (fst <$> map_to_list (objects s)))) as Hs.
  fold (keys_after prefix start s) in Hs. rewrite E in Hs.
  pose proof (keys_after_NoDup prefix start s) as Hnd. rewrite E in Hnd.
  apply NoDup_app in Hnd as (_ & _ & [Hx Hnd]%NoDup_cons).
  apply StronglySorted_app in Hs as (Hcross & _ & [Hfx Hs2]%StronglySorted_cons).
  apply (StronglySorted_unique String.le); [done|apply slicesSort_sorted|].
  apply NoDup_Permutation; [done|apply keys_after_NoDup|]. intros k.
  fold (keys_after prefix x s). rewrite elem_of_keys_after. rewrite Forall_forall in Hfx.
  assert (Hk : k ∈ l1 ++ x :: l2 <-> k ∈ keys_after prefix start s) by (by rewrite E).
  rewrite elem_of_keys_after, elem_of_app, elem_of_cons in Hk. split.
  - intros Hk2. destruct (proj1 Hk) as (? & ? & ? & ?); [tauto|]. split_and!; try done; [by apply Hfx|].
    intros ->. done.
  - intros (H1 & H2 & H3 & H4).
    assert (Hxk : x ∈ keys_after prefix start s) by (rewrite E; set_solver).
    apply elem_of_keys_after in Hxk as (_ & _ & Hsx & Hne).
    destruct (proj2 Hk) as [Hl1|[->|?]]; [|exfalso|done|done].
    + split_and!; try done; [by etrans|]. intros ->. apply Hne. by apply (anti_symm String.le).
    + exfalso. apply H4. apply (anti_symm String.le); [done|]. apply Hcross; [done|]. constructor.
Qed.

(** ** Claims *)

(** listing in pages is complete.  A page of [List] with the page that starts at
    its token is the whole listing: every object with the prefix once, in the order
    of the keys, however large the pages are. *)
Theorem memory_list_pages s prefix start tok delim limit page more next
    (Hs : memory_ok s)
    (Hlist : memory_List prefix start tok delim limit s = Ok (page, more, next)) :
  StronglySorted String.le (in_Key <$> page) /\ NoDup (in_Key <$> page) /\
  keys_after (TrimLeft prefix slash) (TrimLeft start slash) s =
    (in_Key <$> page) ++ (if more then keys_after (TrimLeft prefix slash) (TrimLeft next slash) s else []).
Proof.
  unfold memory_List in Hlist. fold (keys_after (TrimLeft prefix slash) (TrimLeft start slash) s) in Hlist.
  pose proof (slicesSort_sorted (filter (fun k => HasPrefix k (TrimLeft prefix slash) &&
    String.ltb (TrimLeft start slash) k) (fst <$> map_to_list (objects s)))) as Hsort.
  fold (keys_after (TrimLeft prefix slash) (TrimLeft start slash) s) in Hsort.
  pose proof (keys_after_NoDup (TrimLeft prefix slash) (TrimLeft start slash) s) as Hnd.
  assert (Hin : forall k, k ∈ keys_after (TrimLeft prefix slash) (TrimLeft start slash) s -> TrimLeft k slash = k).
  { intros k Hk. apply elem_of_keys_after in Hk as [Hk _]. by apply Hs. }
  pose proof (fun l => keys_after_split (TrimLeft prefix slash) (TrimLeft start slash) s l) as Hsplit.
  set (K := keys_after _ _ _) in *. injection Hlist as <- <- <-. rewrite <- list_fmap_compose.
  assert (Hid : forall n, (in_Key ∘ (fun k => mkInfo k (zlen (default [] (objects s !! k))))) <$> take n K = take n K).
  { intros n. rewrite <- (list_fmap_id (take n K)) at 2. by apply list_fmap_ext. }
  rewrite Hid. destruct ((0 <? limit) && (limit <? zlen K)) eqn:E.
  - apply andb_true_iff in E as [E1%Z.ltb_lt E2%Z.ltb_lt]. set (n := Z.to_nat limit).
    assert (Hn : (0 < n < length K)%nat) by (unfold n, zlen in *; lia).
    pose proof (take_drop n K) as Htd.
    split; [by eapply StronglySorted_app_1_l; rewrite Htd|]. split; [assert (Hnd' : NoDup (take n K ++ drop n K)) by (by rewrite Htd); by apply NoDup_app in Hnd' as [? _]|].
    destruct (take n K) as [|y t _] using rev_ind; [|].
    + exfalso. apply (f_equal length) in Htd. rewrite length_app, length_drop in Htd. simpl in Htd. lia.
    + rewrite last_snoc. simpl. rewrite <- app_assoc in Htd. simpl in Htd.
      assert (Hy : y ∈ K) by (rewrite <- Htd; set_solver). rewrite (Hin y Hy).
      rewrite <- (Hsplit t y (drop n K) (eq_sym Htd)). rewrite <- app_assoc. simpl. done.
  - rewrite firstn_all. by rewrite app_nil_r.
Qed.

(** A prefixed store does not confine [List] with an empty prefix: the trailing
    slash of the store's prefix is cut off, so that the objects of every other prefix
    that starts with the same letters are listed too, under their full keys. *)
Theorem prefixed_list_leaks p s k v
    (Hkey : objects s !! k = Some v)
    (Hsame : HasPrefix k (TrimRight p slash) = true) (Hother : HasPrefix k p = false)
    (Hplain : TrimLeft (TrimRight p slash) slash = TrimRight p slash)
    (Hafter : String.ltb (TrimRight p slash) k = true) :
  exists page, prefixed_List p "" "" "" "" 0 (mkPrefixed p s) = Ok (page, false, "") /\ mkInfo k (zlen v) ∈ page.
Proof.
  unfold prefixed_List, prefixed. simpl. eexists. split; [done|].
  rewrite Hplain. rewrite firstn_all. fold (keys_after (TrimRight p slash) (TrimRight p slash) s).
  apply list_elem_of_fmap. exists (mkInfo k (zlen v)). split.
  - simpl. unfold TrimPrefix. unfold HasPrefix in Hother. by destruct (TrimPrefixOpt p k).
  - apply list_elem_of_fmap. exists k. rewrite Hkey. split; [done|]. apply elem_of_keys_after.
    apply ltb_lt in Hafter as [? ?]. split_and!; eauto.
Qed.

(** ** Instances *)

Definition three_objects : memoryStore :=
  mkMemory (list_to_map [("t/vol/a", [x61]); ("t/vol2/b", [x62]); ("t/vol/c", [x63])]).

Lemma memory_list_pages_witness :
  keys_after "t/vol/" "" three_objects = ["t/vol/a"] ++ keys_after "t/vol/" "t/vol/a" three_objects.
Proof.
  apply (memory_list_pages three_objects "t/vol/" "" "" "" 1 [mkInfo "t/vol/a" 1] true "t/vol/a");
    [|vm_compute; reflexivity].
  assert (H : map_Forall (fun k _ => TrimLeft k slash = k) (objects three_objects))
    by (apply (bool_decide_unpack _); vm_compute; exact I).
  intros k [v Hv]. exact (H k v Hv).
Defined.

Lemma prefixed_list_leaks_witness :
  exists page, prefixed_List "t/vol/" "" "" "" "" 0 (mkPrefixed "t/vol/" three_objects) = Ok (page, false, "") /\
    mkInfo "t/vol2/b" 1 ∈ page.
Proof.
  apply (prefixed_list_leaks "t/vol/" three_objects "t/vol2/b" [x62]); vm_compute; reflexivity.
Defined.
