(* ===== verification/S0fsMaterializer.v ===== *)
(** * s0fs: materialization to object storage (materializer.go, head_store.go)

    [Materialize] writes the inline data of a state into one segment, the metadata
    into a manifest, and commits the manifest by compare-and-swap on the head of the
    volume; [LoadLatestManifest] follows the head; [ReadSegmentRange] reads file data
    back, through a cache of whole segments.  The object store and the head store are
    used through their interfaces, ciphers and JSON through those of [S0fsCrypto], and
    SHA-256 is a parameter. *)

From stdpp Require Import base gmap strings list fin_maps numbers sorting.
From Stdlib Require Import Strings.Byte Ascii.
From S2P Require Import Prelude GoStd S0fsTypes S0fsCore S0fsEngine S0fsInv S0fsSafety S0fsFiles.
From S2P Require Import S0fsSnapshot S0fsCrypto ObjectStore.

Local Open Scope Z_scope.

(** ** The segment cache *)

Record segmentCache := mkCache {
  sc_maxBytes : Z;
  sc_size : Z;
  sc_entries : gmap string (list byte);
  sc_order : list string
}.

Definition defaultSegmentCacheMaxBytes : Z := 64 * 2 ^ 20.

Definition newSegmentCache (maxBytes : Z) : segmentCache :=
  mkCache (if maxBytes <=? 0 then defaultSegmentCacheMaxBytes else maxBytes) 0 ∅ [].

Definition cache_get (key : string) (c : segmentCache) : option (list byte) :=
  if decide (key = "") then None else sc_entries c !! key.

(** The eviction loop, oldest key first. *)
Fixpoint evict (max size : Z) (entries : gmap string (list byte)) (order : list string)
    : Z * gmap string (list byte) * list string :=
  if max <? size then
    match order with
    | [] => (size, entries, order)
    | k :: order' =>
        match entries !! k with
        | Some p => evict max (size - zlen p) (delete k entries) order'
        | None => evict max size entries order'
        end
    end
  else (size, entries, order).

Definition cache_put (key : string) (payload : list byte) (c : segmentCache) : segmentCache :=
  if decide (key = "") then c else
  if sc_maxBytes c <? zlen payload then c else
  let '(size, order) :=
    match sc_entries c !! key with
    | Some old => (sc_size c - zlen old, sc_order c)
    | None => (sc_size c, sc_order c ++ [key])
    end in
  let '(size, entries, order) :=
    evict (sc_maxBytes c) (size + zlen payload) (<[key := payload]> (sc_entries c)) order in
  mkCache (sc_maxBytes c) size entries order.

Definition nul : string := String (ascii_of_nat 0) "".
Definition segmentCacheKey (volumeID key : string) : string := volumeID +:+ nul +:+ key.

(** ** Keys *)

Definition manifestLatestKey : string := "manifests/latest.json".
Definition manifestKey (seq : Z) : string := "manifests/" +:+ pad20 seq +:+ ".json".
Definition segmentIDOf (seq : Z) : string := pad20 seq +:+ "-0".
Definition segmentKeyOf (id : string) : string := "segments/" +:+ id +:+ ".bin".

Definition checkpointSequence (s : SnapshotState) : Z := if NextSeq s =? 0 then 0 else NextSeq s - 1.

Definition defaultSegmentVolumeIDs (v : string) (s : SnapshotState) : SnapshotState :=
  set_Segments (own_segment v <$> Segments s) s.

(** ** Building a segment and a manifest *)

Class Sha256 := { sha256 : list byte -> list byte }.

(** The payloads of the inodes one after the other, with the extent of each. *)
Fixpoint build_loop (segmentID : string) (data : gmap Z (list byte)) (inodes : list Z) (buf : list byte)
    (files : gmap Z (list FileExtent)) : list byte * gmap Z (list FileExtent) :=
  match inodes with
  | [] => (buf, files)
  | i :: rest =>
      let payload := default [] (data !! i) in
      build_loop segmentID data rest (buf ++ payload)
        (<[i := [mkExtent segmentID (zlen buf) (zlen payload)]]> files)
  end.

(** The files whose data goes into the segment. *)
Definition hot_file (s : SnapshotState) (i : Z) (payload : list byte) : bool :=
  negb (zlen payload =? 0) &&
  match Nodes s !! i with Some n => negb (is_dir n) | None => false end.

Definition buildSegment `{Sha256} (seq : Z) (volumeID : string) (s : SnapshotState)
    : materializedSegment * gmap Z (list FileExtent) :=
  let id := segmentIDOf seq in
  let inodes := merge_sort Z.le (filter (fun i => hot_file s i (data_of s i)) (fst <$> map_to_list (Data s))) in
  let '(buf, files) := build_loop id (Data s) inodes [] ∅ in
  (mkMaterialized id volumeID (segmentKeyOf id) buf (sha256 buf) None, files).

(** The retained cold files, in some order, with their segments. *)
Fixpoint retain_extents (segs : gmap string Segment) (xs : list FileExtent) (acc : gmap string Segment)
    : gores (gmap string Segment) :=
  match xs with
  | [] => Ok acc
  | x :: rest =>
      match segs !! x_SegmentID x with
      | None => Err ErrInvalidInput
      | Some g => retain_extents segs rest (<[x_SegmentID x := g]> acc)
      end
  end.

Fixpoint retain_files (s : SnapshotState) (fs : list (Z * list FileExtent))
    (cold : gmap Z (list FileExtent)) (segs : gmap string Segment)
    : gores (gmap Z (list FileExtent) * gmap string Segment) :=
  match fs with
  | [] => Ok (cold, segs)
  | (i, xs) :: rest =>
      match Data s !! i, Nodes s !! i with
      | None, Some _ =>
          let? segs' := retain_extents (Segments s) xs segs in
          retain_files s rest (<[i := xs]> cold) segs'
      | _, _ => retain_files s rest cold segs
      end
  end.

Definition buildManifestState (s : SnapshotState) (segment : materializedSegment)
    (hotFiles : gmap Z (list FileExtent)) : gores SnapshotState :=
  let? cs := retain_files s (map_to_list (ColdFiles s)) ∅ ∅ in
  let cold := filter (fun kv => is_Some (Nodes s !! kv.1)) hotFiles ∪ cs.1 in
  let segs :=
    if 0 <? zlen (ms_Payload segment) then
      <[ms_ID segment := mkSegment (ms_ID segment) (ms_VolumeID segment) (ms_Key segment)
          (zlen (ms_Payload segment)) (ms_SHA256 segment) (ms_Encryption segment)]> cs.2
    else cs.2 in
  Ok (mkState (NextSeq s) (NextInode s) (Nodes s) (Children s) ∅ cold segs).

(** ** The materializer *)

(** head_store.go *)
Class HeadStore (H : Type) := {
  hs_Load : string -> H -> gores CommittedHead;
  hs_CAS : string -> Z -> CommittedHead -> H -> gores unit * H
}.

(** The store of another volume, as its [Get]. *)
Definition Resolver : Type := string -> gores (option (string -> Z -> Z -> gores (list byte))).

Record Materializer := mkMaterializer {
  mt_enabled : bool;
  mt_volumeID : string;
  mt_resolver : option Resolver;
  mt_heads : bool;
  mt_encryption : option EncryptionConfig;
  mt_cacheMaxBytes : Z
}.

Record MatWorld (S H : Type) := mkMatWorld { mw_store : S; mw_heads : H; mw_cache : segmentCache }.
Arguments mkMatWorld {S H} _ _ _.
Arguments mw_store {S H} _.
Arguments mw_heads {S H} _.
Arguments mw_cache {S H} _.

(** What one call of [Materialize] draws from outside. *)
Record MatEnv := mkMatEnv { me_now : Z; me_segment : Random; me_manifest : Random; me_latest : Random }.

Section materializer.
Context {St Hd : Type} `{STO : Store St} `{HDS : HeadStore Hd} `{C : Ciphers} `{J : Json} `{SH : Sha256}.

Abbreviation Mat := (ST error (MatWorld St Hd)).

Definition set_store (f : St -> gores unit * St) : Mat unit := fun w =>
  let '(r, s) := f (mw_store w) in (r, mkMatWorld s (mw_heads w) (mw_cache w)).
Definition set_heads (f : Hd -> gores unit * Hd) : Mat unit := fun w =>
  let '(r, h) := f (mw_heads w) in (r, mkMatWorld (mw_store w) h (mw_cache w)).
Definition set_cache (f : segmentCache -> segmentCache) : Mat unit :=
  modify (fun w => mkMatWorld (mw_store w) (mw_heads w) (f (mw_cache w))).

Definition putBytes (key : string) (payload : list byte) : Mat unit := set_store (st_Put key payload).

Definition putJSON (m : Materializer) (rnd : Random) (key : string) (value : Manifest) : Mat unit :=
  let* payload := lift_res (encryptBlob (mt_encryption m) rnd (marshal_manifest value)
                              (stateBlobAAD (mt_volumeID m) ("object:" +:+ key))) in
  putBytes key payload.

Definition getJSON (m : Materializer) (key : string) : Mat Manifest :=
  let* w := get in
  let* payload := lift_res (st_Get key 0 (-1) (mw_store w)) in
  let* plain := lift_res (decryptBlobIfEncrypted (mt_encryption m) payload
                            (stateBlobAAD (mt_volumeID m) ("object:" +:+ key))) in
  match unmarshal_manifest plain.1 with
  | Some v => ret v
  | None => throw ErrDecode
  end.

Definition set_Encryption (e : option SegmentEncryption) (g : materializedSegment) : materializedSegment :=
  mkMaterialized (ms_ID g) (ms_VolumeID g) (ms_Key g) (ms_Payload g) (ms_SHA256 g) e.

(** The manifest that [Materialize] writes, with the segment and its stored bytes. *)
Definition prepare (m : Materializer) (env : MatEnv) (state : SnapshotState) (expectedManifestSeq : Z)
    : gores (Manifest * materializedSegment * list byte) :=
  let inline := defaultSegmentVolumeIDs (mt_volumeID m) state in
  let nextSeq := checkpointSequence inline in
  if nextSeq =? 0 then Err ErrInvalidInput else
  if nextSeq <=? expectedManifestSeq then Err ErrCommittedHeadConflict else
  let '(segment, fileExtents) := buildSegment nextSeq (mt_volumeID m) inline in
  let? stored := encryptSegment (mt_encryption m) (me_segment env) (mt_volumeID m) (Some segment) in
  let segment := set_Encryption stored.2 segment in
  let? manifestState := buildManifestState inline segment fileExtents in
  Ok (mkManifest 1 (mt_volumeID m) nextSeq (checkpointSequence inline) (me_now env) (Some manifestState),
      segment, stored.1).

Definition head_of (m : Materializer) (manifest : Manifest) : CommittedHead :=
  mkHead (mt_volumeID m) (mf_ManifestSeq manifest) (mf_CheckpointSeq manifest)
    (manifestKey (mf_ManifestSeq manifest)) (mf_CreatedAt manifest).

(** [Ok None] is the nil manifest of a disabled materializer. *)
Definition Materialize (m : Materializer) (env : MatEnv) (state : option SnapshotState)
    (expectedManifestSeq : Z) : Mat (option Manifest) :=
  if negb (mt_enabled m) then ret None else
  if decide (mt_volumeID m = "") then throw ErrInvalidInput else
  match state with
  | None => throw ErrInvalidInput
  | Some state =>
      let* p := lift_res (prepare m env state expectedManifestSeq) in
      let '(manifest, segment, stored) := p in
      do* (if 0 <? zlen (ms_Payload segment) then
             do* putBytes (ms_Key segment) stored in
             set_cache (cache_put (segmentCacheKey (ms_VolumeID segment) (ms_Key segment)) (ms_Payload segment))
           else ret tt) in
      do* putJSON m (me_manifest env) (manifestKey (mf_ManifestSeq manifest)) manifest in
      do* (if mt_heads m then
             set_heads (hs_CAS (mt_volumeID m) expectedManifestSeq (head_of m manifest))
           else putJSON m (me_latest env) manifestLatestKey manifest) in
      ret (Some manifest)
  end.

(** ** Loading *)

Definition loadManifestByKey (m : Materializer) (key : string) : Mat Manifest :=
  if decide (TrimSpace key = "") then throw ErrMaterializedManifestNotFound else
  let* manifest := getJSON m key in
  match mf_State manifest with
  | None => throw (ErrIO "materialized manifest has no state")
  | Some st =>
      let source := if decide (TrimSpace (mf_VolumeID manifest) = "") then mt_volumeID m
                    else mf_VolumeID manifest in
      ret (mkManifest (mf_Version manifest) (mf_VolumeID manifest) (mf_ManifestSeq manifest)
             (mf_CheckpointSeq manifest) (mf_CreatedAt manifest) (Some (defaultSegmentVolumeIDs source st)))
  end.

Definition loadLegacyLatestManifest (m : Materializer) : Mat Manifest :=
  let* w := get in
  match st_Head manifestLatestKey (mw_store w) with
  | Ok _ => loadManifestByKey m manifestLatestKey
  | Err _ => throw ErrMaterializedManifestNotFound
  | Panic => panic
  end.

(** A conflict means that another process has committed a head meanwhile, and the
    call starts over; the fuel bounds the number of times it does. *)
Fixpoint LoadLatestManifest (fuel : nat) (m : Materializer) : Mat Manifest :=
  if negb (mt_enabled m) then throw ErrMaterializedManifestNotFound else
  if negb (mt_heads m) then loadLegacyLatestManifest m else
  let* w := get in
  match hs_Load (mt_volumeID m) (mw_heads w) with
  | Ok head => loadManifestByKey m (h_ManifestKey head)
  | Panic => panic
  | Err e =>
      if negb (errors_Is e ErrCommittedHeadNotFound) then throw e else
      let* manifest := loadLegacyLatestManifest m in
      let* w := get in
      match hs_CAS (mt_volumeID m) 0 (head_of m manifest) (mw_heads w) with
      | (Ok _, h) => do* modify (fun w => mkMatWorld (mw_store w) h (mw_cache w)) in ret manifest
      | (Err e, h) =>
          do* modify (fun w => mkMatWorld (mw_store w) h (mw_cache w)) in
          if errors_Is e ErrCommittedHeadConflict then
            match fuel with
            | O => panic
            | S fuel' => LoadLatestManifest fuel' m
            end
          else throw e
      | (Panic, h) => panic
      end
  end.

(** The state of a manifest may be nil in principle; [loadManifestByKey] rejects that. *)
Definition LoadLatestState (fuel : nat) (m : Materializer) : Mat (option SnapshotState * Manifest) :=
  let* manifest := LoadLatestManifest fuel m in
  ret (mf_State manifest, manifest).

(** ** Reading segments *)

Definition storeForSegment (m : Materializer) (g : Segment) (w : MatWorld St Hd)
    : gores (string * (string -> Z -> Z -> gores (list byte))) :=
  let own := fun k o l => st_Get k o l (mw_store w) in
  let volumeID := TrimSpace (sg_VolumeID g) in
  let volumeID := if decide (volumeID = "") then mt_volumeID m else volumeID in
  if decide (volumeID = "" \/ volumeID = mt_volumeID m) then Ok (mt_volumeID m, own) else
  match mt_resolver m with
  | None => Err ErrInvalidInput
  | Some resolve =>
      let? store := resolve volumeID in
      match store with
      | None => Err ErrInvalidInput
      | Some g => Ok (volumeID, g)
      end
  end.

(** The bytes of a segment range from the store, past the cache. *)
Definition fetch (m : Materializer) (volumeID : string) (getter : string -> Z -> Z -> gores (list byte))
    (g : Segment) (off limit : Z) : gores (list byte) :=
  match sg_Encryption g with
  | Some _ => decryptSegmentRange (mt_encryption m) getter volumeID g off limit
  | None => getter (sg_Key g) off limit
  end.

Definition ReadSegmentRange (m : Materializer) (segment : option Segment) (off limit : Z) : Mat (list byte) :=
  if negb (mt_enabled m) then throw ErrInvalidInput else
  match segment with
  | None => throw ErrInvalidInput
  | Some g =>
      if decide (sg_Key g = "") then throw ErrInvalidInput else
      if limit =? 0 then ret [] else
      if off <? 0 then throw ErrInvalidInput else
      let* w := get in
      let* vs := lift_res (storeForSegment m g w) in
      let '(volumeID, getter) := vs in
      let cacheKey := segmentCacheKey volumeID (sg_Key g) in
      if (0 <? sg_Length g) && (int64_of (sg_Length g) <=? mt_cacheMaxBytes m) then
        match cache_get cacheKey (mw_cache w) with
        | Some payload => lift_res (cloneByteRange payload off limit)
        | None =>
            let* payload := lift_res (fetch m volumeID getter g 0 (int64_of (sg_Length g))) in
            do* set_cache (cache_put cacheKey payload) in
            lift_res (cloneByteRange payload off limit)
        end
      else lift_res (fetch m volumeID getter g off limit)
  end.

End materializer.
