(* ===== verification/S0fsCache.v ===== *)
(** * s0fs: the segment cache and the head store

    The accounting and the bound of the segment cache of materializer.go, and the
    head store in the database (storage-proxy/pkg/db/repository_s0fs_head.go) with
    the contract that head_store.go states for it. *)

From stdpp Require Import base gmap strings list fin_maps numbers sorting.
From Stdlib Require Import Strings.Byte Ascii.
From S2P Require Import Prelude GoStd S0fsTypes S0fsCrypto ObjectStore S0fsMaterializer.

Local Open Scope Z_scope.

(** ** The cache *)

Definition total (m : gmap string (list byte)) : Z := map_fold (fun _ p a => zlen p + a) 0 m.

Lemma total_insert m k p : m !! k = None -> total (<[k := p]> m) = zlen p + total m.
Proof. intros H. unfold total. rewrite map_fold_insert_L; [done| |done]. intros. lia. Qed.

Lemma total_delete m k p : m !! k = Some p -> total m = zlen p + total (delete k m).
Proof.
  intros H. rewrite <- (insert_delete_id m k p H) at 1. apply total_insert, lookup_delete_eq.
Qed.

Lemma total_replace m k p : total (<[k := p]> m) = zlen p + total (delete k m).
Proof. rewrite <- insert_delete_eq. apply total_insert, lookup_delete_eq. Qed.

Record cache_ok (c : segmentCache) : Prop := {
  co_max : 0 < sc_maxBytes c;
  co_size : sc_size c = total (sc_entries c);
  co_nodup : NoDup (sc_order c);
  co_order : forall k, k ∈ sc_order c <-> is_Some (sc_entries c !! k);
  co_bound : sc_size c <= sc_maxBytes c
}.

Lemma evict_spec max order size entries size' entries' order' :
  0 < max -> size = total entries -> NoDup order -> (forall k, k ∈ order <-> is_Some (entries !! k)) ->
  evict max size entries order = (size', entries', order') ->
  size' = total entries' /\ NoDup order' /\ (forall k, k ∈ order' <-> is_Some (entries' !! k)) /\
  size' <= max /\ entries' ⊆ entries.
Proof.
  intros Hmax. revert size entries. induction order as [|k order IH]; intros size entries Hs Hnd Ho; simpl.
  - assert (He : entries = ∅).
    { apply map_empty. intros i. apply eq_None_not_Some. rewrite <- Ho. apply not_elem_of_nil. }
    subst. unfold total. rewrite map_fold_empty. rewrite (proj2 (Z.ltb_ge max 0)) by lia.
    intros [= <- <- <-]. split_and!; [done|constructor|done|lia|done].
  - destruct (max <? size) eqn:E.
    + destruct (proj1 (Ho k)) as [p Hp]; [constructor|]. rewrite Hp. intros Hev.
      apply NoDup_cons in Hnd as [Hk Hnd].
      destruct (IH (size - zlen p) (delete k entries)) as (H1 & H2 & H3 & H4 & H5); try done.
      * rewrite Hs, (total_delete _ _ _ Hp). lia.
      * intros j. destruct (decide (j = k)) as [->|Hj].
        -- rewrite lookup_delete_eq. split; [done|by intros []].
        -- rewrite lookup_delete_ne by congruence. rewrite <- Ho, elem_of_cons. naive_solver.
      * split_and!; try done. etrans; [done|]. apply delete_subseteq.
    + apply Z.ltb_ge in E. intros [= <- <- <-]. by split_and!.
Qed.

Lemma cache_put_inv k p c :
  cache_ok c ->
  cache_ok (cache_put k p c) /\ sc_maxBytes (cache_put k p c) = sc_maxBytes c /\
  sc_entries (cache_put k p c) ⊆ <[k := p]> (sc_entries c) \/ cache_put k p c = c.
Proof.
  intros [Hmax Hs Hnd Ho Hb]. unfold cache_put. destruct (decide (k = "")); [by right|].
  destruct (sc_maxBytes c <? zlen p); [by right|]. left.
  destruct (sc_entries c !! k) as [old|] eqn:Hk.
  - destruct (evict _ _ _ _) as [[size' entries'] order'] eqn:He.
    assert (Hsize : sc_size c - zlen old + zlen p = total (<[k := p]> (sc_entries c))).
    { rewrite Hs, (total_delete _ _ _ Hk), total_replace. lia. }
    assert (Hord : forall j, j ∈ sc_order c <-> is_Some (<[k := p]> (sc_entries c) !! j)).
    { intros j. rewrite Ho. destruct (decide (j = k)) as [->|].
      - rewrite lookup_insert_eq, Hk. split; eauto.
      - by rewrite lookup_insert_ne by congruence. }
    destruct (evict_spec _ _ _ _ _ _ _ Hmax Hsize Hnd Hord He) as (H1 & H2 & H3 & H4 & H5).
    split; [by split|done].
  - destruct (evict _ _ _ _) as [[size' entries'] order'] eqn:He.
    assert (Hk' : k ∉ sc_order c) by (rewrite Ho, Hk; by intros []).
    assert (Hsize : sc_size c + zlen p = total (<[k := p]> (sc_entries c))).
    { rewrite Hs, total_insert by done. lia. }
    assert (Hnd' : NoDup (sc_order c ++ [k])).
    { apply NoDup_app. split; [done|]. split; [set_solver|apply NoDup_singleton]. }
    assert (Hord : forall j, j ∈ sc_order c ++ [k] <-> is_Some (<[k := p]> (sc_entries c) !! j)).
    { intros j. rewrite elem_of_app, Ho, list_elem_of_singleton. destruct (decide (j = k)) as [->|].
      - rewrite lookup_insert_eq. split; eauto.
      - rewrite lookup_insert_ne by congruence. naive_solver. }
    destruct (evict_spec _ _ _ _ _ _ _ Hmax Hsize Hnd' Hord He) as (H1 & H2 & H3 & H4 & H5).
    split; [by split|done].
Qed.

(** the segment cache keeps its books and its bound.  From a new cache on, after any
    sequence of puts its size counter is the number of cached bytes, its eviction
    queue holds each cached key once, the bytes never exceed the bound, and a hit
    returns a payload that was put under the key. *)
Theorem segment_cache_bounded max ops :
  let c := fold_left (fun c kp => cache_put kp.1 kp.2 c) ops (newSegmentCache max) in
  sc_size c = total (sc_entries c) /\ NoDup (sc_order c) /\
  (forall k, k ∈ sc_order c <-> is_Some (sc_entries c !! k)) /\ sc_size c <= sc_maxBytes c /\
  (forall k q, cache_get k c = Some q -> (k, q) ∈ ops).
Proof.
  intros c. assert (H : cache_ok c /\ forall k q, sc_entries c !! k = Some q -> (k, q) ∈ ops).
  { unfold c. clear c. induction ops as [|[k p] ops IH] using rev_ind; simpl.
    - split; [|intros k q Hk; simpl in Hk; by apply lookup_empty_Some in Hk]. split; simpl.
      + unfold defaultSegmentCacheMaxBytes. destruct (max <=? 0) eqn:E; [lia|]. apply Z.leb_gt in E. lia.
      + unfold total. by rewrite map_fold_empty.
      + constructor.
      + intros k. rewrite lookup_empty. split; [by intros ?%not_elem_of_nil|by intros []].
      + unfold defaultSegmentCacheMaxBytes. destruct (max <=? 0) eqn:E; [lia|]. apply Z.leb_gt in E. lia.
    - rewrite fold_left_app. simpl. destruct IH as [IH1 IH2].
      destruct (cache_put_inv k p _ IH1) as [(H1 & _ & H3)| ->]; [|set_solver]. split; [done|].
      intros j q Hj. eapply lookup_weaken in Hj; [|exact H3].
      apply lookup_insert_Some in Hj as [[<- <-]|[_ Hj]]; [set_solver|]. apply elem_of_app. left. by apply IH2. }
  destruct H as [[? ? ? ? ?] Hq]. split_and!; try done. intros k q. unfold cache_get.
  destruct (decide (k = "")); [done|]. apply Hq.
Qed.

(** ** The head store *)

(** The table sandbox_volume_s0fs_heads, one row per volume id. *)
Abbreviation heads_table := (gmap string CommittedHead).

(** The sentinel errors of package db. *)
Definition db_ErrNotFound : error := ErrIO "db: not found".
Definition db_ErrConflict : error := ErrIO "db: conflict".

(** A sequence number is stored as a signed 64-bit column; a negative one cannot be
    scanned back into a uint64. *)
Definition getS0FSCommittedHead (volumeID : string) (t : heads_table) : gores CommittedHead :=
  match t !! volumeID with
  | None => Err db_ErrNotFound
  | Some h =>
      if (h_ManifestSeq h <? 0) || (h_CheckpointSeq h <? 0) then Err (ErrIO "get s0fs committed head") else Ok h
  end.

(** time.Time{}.IsZero *)
Definition zero_time : Z := -62135596800 * 10 ^ 9.

Definition head_row (now : Z) (volumeID : string) (head : CommittedHead) : CommittedHead :=
  mkHead volumeID (int64_of (h_ManifestSeq head)) (int64_of (h_CheckpointSeq head)) (h_ManifestKey head)
    (if h_UpdatedAt head =? zero_time then now else h_UpdatedAt head).

Definition CompareAndSwapS0FSCommittedHead (now : Z) (volumeID : string) (expectedManifestSeq : Z)
    (head : option CommittedHead) (t : heads_table) : gores unit * heads_table :=
  match head with
  | None => (Err (ErrIO "head is required"), t)
  | Some head =>
      if decide (TrimSpace volumeID = "") then (Err (ErrIO "volume id is required"), t) else
      let v := if decide (h_VolumeID head = "") then volumeID else h_VolumeID head in
      if decide (v <> volumeID) then (Err (ErrIO "volume id mismatch"), t) else
      if h_ManifestSeq head =? 0 then (Err (ErrIO "manifest sequence must be non-zero"), t) else
      if decide (h_ManifestKey head = "") then (Err (ErrIO "manifest key is required"), t) else
      match getS0FSCommittedHead volumeID t with
      | Err e =>
          if decide (e = db_ErrNotFound) then
            if negb (expectedManifestSeq =? 0) then (Err db_ErrConflict, t)
            else (Ok tt, <[volumeID := head_row now volumeID head]> t)
          else (Err e, t)
      | Panic => (Panic, t)
      | Ok existing =>
          if negb (h_ManifestSeq existing =? expectedManifestSeq) then (Err db_ErrConflict, t) else
          if h_ManifestSeq head <=? h_ManifestSeq existing then (Err db_ErrConflict, t)
          else (Ok tt, <[volumeID := head_row now volumeID head]> t)
      end
  end.

(** The adapter [S0FSHeadStore] maps the errors of the repository. *)
Definition LoadCommittedHead (volumeID : string) (t : heads_table) : gores CommittedHead :=
  match getS0FSCommittedHead volumeID t with
  | Err e => if decide (e = db_ErrNotFound) then Err ErrCommittedHeadNotFound else Err e
  | r => r
  end.

Definition CompareAndSwapCommittedHead (now : Z) (volumeID : string) (expectedManifestSeq : Z)
    (head : CommittedHead) (t : heads_table) : gores unit * heads_table :=
  match CompareAndSwapS0FSCommittedHead now volumeID expectedManifestSeq (Some head) t with
  | (Err e, t') => (Err (if decide (e = db_ErrConflict) then ErrCommittedHeadConflict else e), t')
  | r => r
  end.

(** The clock is only read for a head without a time. *)
#[export] Instance db_heads : HeadStore heads_table :=
  {| hs_Load := LoadCommittedHead; hs_CAS := CompareAndSwapCommittedHead 0 |}.

(** What the comment of [HeadStore] asks for. *)
Record head_valid (v : string) (h : CommittedHead) : Prop := {
  hv_volume : TrimSpace v <> "" /\ h_VolumeID h = v;
  hv_seq : 0 < h_ManifestSeq h <= maxInt;
  hv_checkpoint : 0 <= h_CheckpointSeq h <= maxInt;
  hv_key : h_ManifestKey h <> ""
}.

Class HeadLaws (Hd : Type) `{HeadStore Hd} : Prop := {
  hl_ok : forall v e h s s', head_valid v h -> hs_CAS v e h s = (Ok tt, s') ->
    exists h', hs_Load v s' = Ok h' /\ h_ManifestSeq h' = h_ManifestSeq h /\ h_ManifestKey h' = h_ManifestKey h;
  hl_err : forall v e h s x s', hs_CAS v e h s = (Err x, s') -> s' = s;
  hl_insert : forall v h s, head_valid v h -> hs_Load v s = Err ErrCommittedHeadNotFound ->
    (hs_CAS v 0 h s).1 = Ok tt;
  hl_advance : forall v h h0 s, head_valid v h -> hs_Load v s = Ok h0 -> h_ManifestSeq h0 < h_ManifestSeq h ->
    (hs_CAS v (h_ManifestSeq h0) h s).1 = Ok tt;
  hl_conflict : forall v e h h0 s, head_valid v h -> hs_Load v s = Ok h0 ->
    h_ManifestSeq h0 <> e \/ h_ManifestSeq h <= h_ManifestSeq h0 ->
    (hs_CAS v e h s).1 = Err ErrCommittedHeadConflict
}.

(** The guards of the swap hold for a valid head. *)
Lemma cas_valid now v e h t :
  head_valid v h ->
  CompareAndSwapCommittedHead now v e h t =
    match LoadCommittedHead v t with
    | Ok h0 => if (h_ManifestSeq h0 =? e) && (h_ManifestSeq h0 <? h_ManifestSeq h)
               then (Ok tt, <[v := head_row now v h]> t) else (Err ErrCommittedHeadConflict, t)
    | Err x => if decide (x = ErrCommittedHeadNotFound) then
                 if e =? 0 then (Ok tt, <[v := head_row now v h]> t) else (Err ErrCommittedHeadConflict, t)
               else (Err x, t)
    | Panic => (Panic, t)
    end.
Proof.
  intros [[H1 H2] H3 H4 H5]. unfold CompareAndSwapCommittedHead, CompareAndSwapS0FSCommittedHead.
  rewrite (decide_False (P := TrimSpace v = "")) by done.
  assert (Hv : (if decide (h_VolumeID h = "") then v else h_VolumeID h) = v) by (by destruct (decide _)).
  rewrite Hv. rewrite (decide_False (P := v <> v)) by (intros Hn; by apply Hn).
  rewrite (proj2 (Z.eqb_neq (h_ManifestSeq h) 0)) by lia. rewrite (decide_False (P := h_ManifestKey h = "")) by done.
  unfold LoadCommittedHead, getS0FSCommittedHead. destruct (t !! v) as [h0|].
  - destruct (_ || _); [done|]. destruct (h_ManifestSeq h0 =? e); simpl; [|done].
    rewrite Z.leb_antisym. by destruct (h_ManifestSeq h0 <? h_ManifestSeq h).
  - simpl. by destruct (e =? 0).
Qed.

#[export] Instance db_heads_laws : HeadLaws heads_table.
Proof.
  assert (Hload : forall v h t, head_valid v h -> LoadCommittedHead v (<[v := head_row 0 v h]> t) = Ok (head_row 0 v h)).
  { intros v h t [_ H3 H4 _]. unfold LoadCommittedHead, getS0FSCommittedHead. rewrite lookup_insert_eq. simpl.
    rewrite !int64_of_small by lia. rewrite !(proj2 (Z.ltb_ge _ 0)) by lia. done. }
  split; simpl.
  - intros v e h s s' Hv. rewrite cas_valid by done. pose proof (hv_seq _ _ Hv). intros E.
    assert (s' = <[v := head_row 0 v h]> s) as ->.
    { destruct (LoadCommittedHead v s); [destruct (_ && _)|destruct (decide _); [destruct (e =? 0)|]|]; by simplify_eq. }
    eexists. split; [by apply Hload|]. simpl. by rewrite int64_of_small by lia.
  - intros v e h s x s'. unfold CompareAndSwapCommittedHead, CompareAndSwapS0FSCommittedHead.
    repeat case_match; intros; simplify_eq/=; try done.
  - intros v h s Hv Hl. by rewrite cas_valid, Hl by done.
  - intros v h h0 s Hv Hl Hlt. rewrite cas_valid, Hl by done. rewrite Z.eqb_refl, (proj2 (Z.ltb_lt _ _)) by done. done.
  - intros v e h h0 s Hv Hl Hc. rewrite cas_valid, Hl by done.
    destruct (h_ManifestSeq h0 =? e) eqn:E; [|done]. apply Z.eqb_eq in E.
    by rewrite (proj2 (Z.ltb_ge _ _)) by lia.
Qed.

(** The committed head advances by compare-and-swap.  Of two writers that expect
    the same head only the first succeeds, the second gets a conflict and changes
    nothing; a head that succeeded is the one loaded, and it is beyond the head it
    replaced. *)
Theorem head_cas_exclusive now now' v e h1 h2 t t1
    (Hv1 : head_valid v h1) (Hv2 : head_valid v h2) (He : 0 <= e < h_ManifestSeq h1)
    (Hfirst : CompareAndSwapCommittedHead now v e h1 t = (Ok tt, t1)) :
  CompareAndSwapCommittedHead now' v e h2 t1 = (Err ErrCommittedHeadConflict, t1) /\
  (exists h, LoadCommittedHead v t1 = Ok h /\ h_ManifestSeq h = h_ManifestSeq h1 /\
     h_ManifestKey h = h_ManifestKey h1) /\
  (forall h0, LoadCommittedHead v t = Ok h0 -> h_ManifestSeq h0 = e) /\
  (forall v', v' <> v -> LoadCommittedHead v' t1 = LoadCommittedHead v' t).
Proof.
  rewrite cas_valid in Hfirst by done. pose proof (hv_seq _ _ Hv1). pose proof (hv_checkpoint _ _ Hv1).
  assert (Ht1 : t1 = <[v := head_row now v h1]> t /\ forall h0, LoadCommittedHead v t = Ok h0 -> h_ManifestSeq h0 = e).
  { destruct (LoadCommittedHead v t) as [h0|x|].
    - destruct (h_ManifestSeq h0 =? e) eqn:E; [|done]. apply Z.eqb_eq in E.
      destruct (_ <? _); [|done]. simpl in Hfirst. injection Hfirst as <-. split; [done|]. by intros ? [= <-].
    - destruct (decide _); [|done]. destruct (e =? 0); [|done]. by injection Hfirst as <-.
    - done. }
  destruct Ht1 as [-> Hold].
  assert (Hload : LoadCommittedHead v (<[v := head_row now v h1]> t) = Ok (head_row now v h1)).
  { unfold LoadCommittedHead, getS0FSCommittedHead. rewrite lookup_insert_eq. simpl.
    rewrite !int64_of_small by lia. by rewrite !(proj2 (Z.ltb_ge _ 0)) by lia. }
  split_and!; [|eexists; split; [exact Hload|] | exact Hold |].
  - rewrite cas_valid, Hload by done. simpl. rewrite int64_of_small by lia.
    by rewrite (proj2 (Z.eqb_neq (h_ManifestSeq h1) e)) by lia.
  - simpl. by rewrite int64_of_small by lia.
  - intros v' Hv'. unfold LoadCommittedHead, getS0FSCommittedHead. by rewrite lookup_insert_ne by congruence.
Qed.

Definition head_one : CommittedHead := mkHead "vol" 1 1 "manifests/1" 5.
Definition head_two : CommittedHead := mkHead "vol" 2 2 "manifests/2" 6.

Lemma head_valid_bool v h :
  bool_decide (TrimSpace v <> "" /\ h_VolumeID h = v) && (0 <? h_ManifestSeq h) && (h_ManifestSeq h <=? maxInt) &&
  (0 <=? h_CheckpointSeq h) && (h_CheckpointSeq h <=? maxInt) && bool_decide (h_ManifestKey h <> "") = true ->
  head_valid v h.
Proof.
  rewrite !andb_true_iff, !bool_decide_eq_true, !Z.leb_le, Z.ltb_lt. intros (((((? & ?) & ?) & ?) & ?) & ?).
  by split.
Qed.

Lemma head_cas_exclusive_witness :
  CompareAndSwapCommittedHead 0 "vol" 0 head_two (<["vol" := head_one]> ∅) =
    (Err ErrCommittedHeadConflict, <["vol" := head_one]> ∅).
Proof.
  apply (head_cas_exclusive 0 0 "vol" 0 head_one head_two ∅).
  - apply head_valid_bool. vm_compute. reflexivity.
  - apply head_valid_bool. vm_compute. reflexivity.
  - vm_compute. split; [discriminate|reflexivity].
  - vm_compute. reflexivity.
Defined.
