(* ===== verification/S0fsCommit.v ===== *)
(** * s0fs: what a materialization commits

    Theorems on materializer.go: a successful [Materialize] advances the head and is
    what [LoadLatestState] loads; it keeps the content of every file, whether it was
    inline or in older segments, encrypted or not; reading through the segment cache
    gives what reading past it gives; and the order of its writes lets a writer that
    loses the compare-and-swap replace the objects of the one that won. *)

From stdpp Require Import base gmap strings list fin_maps numbers sorting.
From Stdlib Require Import Strings.Byte Ascii.
From S2P Require Import Prelude GoStd S0fsTypes S0fsCore S0fsEngine S0fsInv S0fsSafety S0fsFiles.
From S2P Require Import S0fsSnapshot S0fsCrypto ObjectStore S0fsMaterializer S0fsCache.

Local Open Scope Z_scope.

(** ** The segment and the manifest that are built *)

Lemma build_loop_spec id data inodes buf files buf' files' :
  NoDup inodes -> build_loop id data inodes buf files = (buf', files') ->
  (exists suffix, buf' = buf ++ suffix) /\
  (forall i, i ∈ inodes -> exists off, let p := default [] (data !! i) in
     files' !! i = Some [mkExtent id off (zlen p)] /\ 0 <= off /\ off + zlen p <= zlen buf' /\
     subslice off (off + zlen p) buf' = p) /\
  (forall i, i ∉ inodes -> files' !! i = files !! i).
Proof.
  revert buf files. induction inodes as [|i inodes IH]; intros buf files Hnd; simpl.
  - intros [= <- <-]. split; [exists []; by rewrite app_nil_r|]. split; [|done].
    intros i Hi. by apply not_elem_of_nil in Hi.
  - apply NoDup_cons in Hnd as [Hi Hnd]. set (p := default [] (data !! i)).
    intros (Hs & Hin & Hout)%IH; [|done]. destruct Hs as [suffix Hs]. pose proof (zlen_nonneg buf).
    pose proof (zlen_nonneg p). pose proof (zlen_nonneg suffix). split_and!.
    + exists (p ++ suffix). by rewrite Hs, app_assoc.
    + intros j [->|Hj]%elem_of_cons; [|by apply Hin]. exists (zlen buf). cbv zeta. fold p. split_and!.
      * rewrite Hout by done. apply lookup_insert_eq.
      * done.
      * rewrite Hs, !zlen_app. lia.
      * rewrite Hs, subslice_app_l by (rewrite ?zlen_app; lia). rewrite subslice_app_r by lia.
        rewrite Z.sub_diag. replace (zlen buf + zlen p - zlen buf) with (zlen p) by lia. apply subslice_all.
    + intros j Hj. apply not_elem_of_cons in Hj as [? ?]. rewrite Hout by done. by apply lookup_insert_ne.
Qed.

Lemma retain_extents_spec segs xs acc acc' :
  retain_extents segs xs acc = Ok acc' ->
  (forall id, acc' !! id = acc !! id \/ acc' !! id = segs !! id) /\
  (forall id g, segs !! id = Some g -> acc !! id = Some g -> acc' !! id = Some g) /\
  (forall x, x ∈ xs -> exists g, segs !! x_SegmentID x = Some g /\ acc' !! x_SegmentID x = Some g).
Proof.
  revert acc. induction xs as [|x xs IH]; intros acc; simpl.
  - intros [= <-]. split_and!; [by left|done|]. intros x Hx. by apply not_elem_of_nil in Hx.
  - destruct (segs !! x_SegmentID x) as [g|] eqn:Hg; [|done]. intros (H1 & H2 & H3)%IH.
    assert (Hk : forall id g', segs !! id = Some g' -> acc !! id = Some g' -> acc' !! id = Some g').
    { intros id g' Hs Ha. apply H2; [done|]. destruct (decide (id = x_SegmentID x)) as [->|].
      - rewrite lookup_insert_eq. congruence.
      - by rewrite lookup_insert_ne by congruence. }
    split_and!; [|exact Hk|].
    + intros id. destruct (H1 id) as [H|H]; [|by right]. destruct (decide (id = x_SegmentID x)) as [->|].
      * right. by rewrite H, lookup_insert_eq.
      * left. by rewrite H, lookup_insert_ne by congruence.
    + intros y [->|Hy]%elem_of_cons; [|by apply H3]. exists g. split; [done|]. apply H2; [done|].
      apply lookup_insert_eq.
Qed.

(** The files a manifest keeps in their old segments. *)
Definition retained (s : SnapshotState) (i : Z) : Prop := Data s !! i = None /\ is_Some (Nodes s !! i).

Lemma retain_files_spec s fs cold segs cold' segs' :
  NoDup fs.*1 -> retain_files s fs cold segs = Ok (cold', segs') ->
  (forall id, segs' !! id = segs !! id \/ segs' !! id = Segments s !! id) /\
  (forall id g, Segments s !! id = Some g -> segs !! id = Some g -> segs' !! id = Some g) /\
  (forall i xs, (i, xs) ∈ fs -> retained s i -> cold' !! i = Some xs /\
     forall x, x ∈ xs -> exists g, Segments s !! x_SegmentID x = Some g /\ segs' !! x_SegmentID x = Some g) /\
  (forall i, i ∉ fs.*1 \/ ~ retained s i -> cold' !! i = cold !! i).
Proof.
  revert cold segs. induction fs as [|[i xs] fs IH]; intros cold segs Hnd; cbn [retain_files].
  - intros [= <- <-]. split_and!; [by left|done| |done]. intros ? ? Hx. by apply not_elem_of_nil in Hx.
  - rewrite fmap_cons in Hnd. apply NoDup_cons in Hnd as [Hi Hnd]. simpl in Hi.
    assert (Hskip : ~ retained s i -> retain_files s fs cold segs = Ok (cold', segs') ->
       (forall id, segs' !! id = segs !! id \/ segs' !! id = Segments s !! id) /\
       (forall id g, Segments s !! id = Some g -> segs !! id = Some g -> segs' !! id = Some g) /\
       (forall j ys, (j, ys) ∈ (i, xs) :: fs -> retained s j -> cold' !! j = Some ys /\
         forall x, x ∈ ys -> exists g, Segments s !! x_SegmentID x = Some g /\ segs' !! x_SegmentID x = Some g) /\
       (forall j, j ∉ ((i, xs) :: fs).*1 \/ ~ retained s j -> cold' !! j = cold !! j)).
    { intros Hr (H1 & H2 & H3 & H4)%IH; [|done]. split_and!; [done|done| |].
      - intros j ys [[= -> ->]|Hj]%elem_of_cons Hrj; [done|by apply H3].
      - intros j Hj. apply H4. rewrite fmap_cons, not_elem_of_cons in Hj. tauto. }
    destruct (Data s !! i) as [d|] eqn:Hd; [apply Hskip; by intros [? _]; congruence|].
    destruct (Nodes s !! i) as [n|] eqn:Hn; [|apply Hskip; intros [_ [? ?]]; congruence].
    destruct (retain_extents (Segments s) xs segs) as [segs1| |] eqn:Hx; simpl; [|done..].
    intros (H1 & H2 & H3 & H4)%IH; [|done]. apply retain_extents_spec in Hx as (X1 & X2 & X3). split_and!.
    + intros id. destruct (H1 id) as [->|]; [apply X1|by right].
    + intros id g Hs Ha. apply H2; [done|]. by apply X2.
    + intros j ys [[= -> ->]|Hj]%elem_of_cons Hrj; [|by apply H3]. split.
      * rewrite H4 by (by left). apply lookup_insert_eq.
      * intros x Hxx. destruct (X3 x Hxx) as (g & ? & ?). exists g. split; [done|]. by apply H2.
    + intros j Hj. change (((i, xs) :: fs).*1) with (i :: fs.*1) in Hj. rewrite not_elem_of_cons in Hj.
      destruct (decide (j = i)) as [->|Hne]; [destruct Hj as [[? _]|Hj]; [done|]; by destruct Hj; split; eauto|].
      rewrite H4 by tauto. by rewrite lookup_insert_ne by congruence.
Qed.

Lemma buildManifestState_spec s segment files ms :
  buildManifestState s segment files = Ok ms ->
  let new := mkSegment (ms_ID segment) (ms_VolumeID segment) (ms_Key segment) (zlen (ms_Payload segment))
               (ms_SHA256 segment) (ms_Encryption segment) in
  (Nodes ms = Nodes s /\ Children ms = Children s /\ Data ms = ∅ /\ NextSeq ms = NextSeq s /\
   NextInode ms = NextInode s) /\
  (forall i xs, files !! i = Some xs -> is_Some (Nodes s !! i) -> ColdFiles ms !! i = Some xs) /\
  (forall i, files !! i = None -> ~ retained s i -> ColdFiles ms !! i = None) /\
  (forall i, files !! i = None -> retained s i -> ColdFiles ms !! i = ColdFiles s !! i) /\
  (0 < zlen (ms_Payload segment) -> Segments ms !! ms_ID segment = Some new) /\
  (forall i xs x, retained s i -> ColdFiles s !! i = Some xs -> x ∈ xs ->
     exists g, Segments s !! x_SegmentID x = Some g /\
       (x_SegmentID x <> ms_ID segment -> Segments ms !! x_SegmentID x = Some g)) /\
  (forall id g, Segments ms !! id = Some g -> Segments s !! id = Some g \/ g = new).
Proof.
  unfold buildManifestState. destruct (retain_files s _ ∅ ∅) as [[cold segs]| |] eqn:Hr; [|done..].
  apply retain_files_spec in Hr as (H1 & _ & H3 & H4); [|apply NoDup_fst_map_to_list]. cbn [rbind fst snd].
  intros [= <-]. simpl. set (new := mkSegment _ _ _ _ _ _).
  assert (Hcold : forall i, retained s i -> cold !! i = ColdFiles s !! i).
  { intros i Hi. destruct (ColdFiles s !! i) as [xs|] eqn:E.
    - apply H3; [by apply elem_of_map_to_list|done].
    - rewrite H4; [apply lookup_empty|]. left. intros ([? ?] & -> & Hin)%list_elem_of_fmap.
      apply elem_of_map_to_list in Hin. simpl in E. congruence. }
  split_and!; try done.
  - intros i xs Hf Hn. apply lookup_union_Some_l. by apply map_lookup_filter_Some.
  - intros i Hf Hi. rewrite lookup_union_r by (apply map_lookup_filter_None; by left).
    rewrite H4 by (by right). apply lookup_empty.
  - intros i Hf Hi. rewrite lookup_union_r by (apply map_lookup_filter_None; by left). by apply Hcold.
  - intros Hp. rewrite (proj2 (Z.ltb_lt _ _) Hp). apply lookup_insert_eq.
  - intros i xs x Hi Hx Hxx. destruct (H3 i xs) as [_ Hs]; [by apply elem_of_map_to_list|done|].
    destruct (Hs x Hxx) as (g & Hg & Hg'). exists g. split; [done|]. intros Hne.
    destruct (0 <? zlen (ms_Payload segment)); [by rewrite lookup_insert_ne by congruence|done].
  - intros id g Hg.
    assert (Hs : segs !! id = Some g -> Segments s !! id = Some g).
    { intros E. destruct (H1 id) as [E'|E']; rewrite E' in E; [by rewrite lookup_empty in E|done]. }
    destruct (0 <? zlen (ms_Payload segment)); [|by left; apply Hs].
    apply lookup_insert_Some in Hg as [[_ <-]|[_ Hg]]; [by right|by left; apply Hs].
Qed.

Lemma manifestKey_nonempty n : TrimSpace (manifestKey n) <> "".
Proof.
  unfold TrimSpace.
  assert (trim_left (String.length (manifestKey n)) space_encodings (manifestKey n) = manifestKey n) as -> by reflexivity.
  unfold manifestKey. generalize (pad20 n). intros k.
  unfold String.rev. rewrite !rev_app_app. simpl.
  generalize (String.rev_app k "/stsefinam"), "."%char, "json". intros r.
  induction r as [|c r IH]; simpl; [done|]. intros c' t. apply IH.
Qed.

Section commit.
Context {St Hd : Type} `{SL : StoreLaws St} `{HL : HeadLaws Hd} `{CL : CipherLaws} `{JL : JsonLaws} `{SH : Sha256}.
Context (m : Materializer).

(** What encryption of manifests relies on. *)
Definition encryption_ok (rnd : Random) : Prop :=
  (forall ke, enabled (mt_encryption m) = Some ke -> keys_ok ke) /\
  utf8_ok (normalizedAlgorithm (mt_encryption m)) /\
  (forall a, newAEAD (mt_encryption m) (rnd_key rnd) = Ok a -> NonceSize a <= zlen (rnd_nonce rnd)).

(** ** Manifests *)

Lemma decrypt_manifest rnd v key payload :
  encryption_ok rnd ->
  encryptBlob (mt_encryption m) rnd (marshal_manifest v) (stateBlobAAD (mt_volumeID m) ("object:" +:+ key)) = Ok payload ->
  exists b, decryptBlobIfEncrypted (mt_encryption m) payload (stateBlobAAD (mt_volumeID m) ("object:" +:+ key)) =
    Ok (marshal_manifest v, b).
Proof.
  intros (Hk & Hu & Hn) He. destruct (enabled (mt_encryption m)) as [ke|] eqn:Hen.
  - exists true. eapply decrypt_encrypt_blob; [|by eexists|done|done|done]. intros ke' E. apply Hk. congruence.
  - exists false. unfold encryptBlob in He. rewrite Hen in He. injection He as <-.
    unfold decryptBlobIfEncrypted. destruct (unmarshal_blob (marshal_manifest v)) as [b|] eqn:Hb; [|done].
    by rewrite bool_decide_eq_false_2 by (by eapply jl_other).
Qed.

Lemma putJSON_get rnd key v (w w' : MatWorld St Hd) u :
  encryption_ok rnd -> putJSON m rnd key v w = (Ok u, w') ->
  mw_heads w' = mw_heads w /\ mw_cache w' = mw_cache w /\ getJSON m key w' = (Ok (json_manifest v), w') /\
  (exists i, st_Head key (mw_store w') = Ok i) /\
  forall k', st_key k' <> st_key key ->
    (forall o l, st_Get k' o l (mw_store w') = st_Get k' o l (mw_store w)).
Proof.
  intros He. unfold putJSON, bind, lift_res, putBytes, set_store.
  destruct (encryptBlob _ _ _ _) as [payload| |] eqn:Ee; [|done..].
  destruct (st_Put key payload (mw_store w)) as [r s] eqn:Ep. intros [= -> <-]. destruct u. simpl.
  destruct (decrypt_manifest _ _ _ _ He Ee) as [b Hdec]. split_and!; try done.
  - unfold getJSON, bind, get, lift_res. simpl.
    rewrite (sl_get_put _ _ _ _ _ _ Ep) by lia. unfold range_of. simpl.
    rewrite subslice_all. rewrite Hdec. simpl. by rewrite jl_manifest.
  - by eapply sl_head_put.
  - intros k' Hk o l. eapply sl_frame; done.
Qed.

(** Segments with an owner. *)
Definition all_owned (s : SnapshotState) : Prop :=
  forall id g, Segments s !! id = Some g -> TrimSpace (sg_VolumeID g) <> "".

Lemma default_all_owned v s : all_owned s -> defaultSegmentVolumeIDs v s = s.
Proof.
  intros Hs. unfold defaultSegmentVolumeIDs. replace (own_segment v <$> Segments s) with (Segments s).
  { by destruct s. }
  apply map_eq. intros id. rewrite lookup_fmap. destruct (Segments s !! id) as [g|] eqn:E; [|done].
  simpl. unfold own_segment. by rewrite decide_False by (by apply (Hs id)).
Qed.

Lemma loadManifestByKey_ok key v st (w : MatWorld St Hd) :
  TrimSpace key <> "" -> getJSON m key w = (Ok v, w) -> mf_State v = Some st -> all_owned st ->
  loadManifestByKey m key w = (Ok v, w).
Proof.
  intros Hk Hg Hs Ho. unfold loadManifestByKey. rewrite decide_False by done. unfold bind. rewrite Hg, Hs.
  rewrite default_all_owned by done. destruct v. simpl in *. by subst.
Qed.

(** ** The run of [Materialize] *)

Lemma Materialize_inv env st e (w w' : MatWorld St Hd) mf :
  encryption_ok (me_manifest env) -> encryption_ok (me_latest env) ->
  Materialize m env (Some st) e w = (Ok (Some mf), w') ->
  exists segment stored w1 w2, mt_volumeID m <> "" /\
    prepare m env st e = Ok (mf, segment, stored) /\
    (if 0 <? zlen (ms_Payload segment) then
       st_Put (ms_Key segment) stored (mw_store w) = (Ok tt, mw_store w1) else mw_store w1 = mw_store w) /\
    mw_heads w1 = mw_heads w /\
    putJSON m (me_manifest env) (manifestKey (mf_ManifestSeq mf)) mf w1 = (Ok tt, w2) /\
    (if mt_heads m then
       hs_CAS (mt_volumeID m) e (head_of m mf) (mw_heads w2) = (Ok tt, mw_heads w') /\ mw_store w' = mw_store w2
     else putJSON m (me_latest env) manifestLatestKey mf w2 = (Ok tt, w')).
Proof.
  intros He1 He2. unfold Materialize. destruct (mt_enabled m); [|done]. simpl.
  destruct (decide (mt_volumeID m = "")) as [|Hv]; [done|]. unfold bind at 1, lift_res.
  destruct (prepare m env st e) as [[[mf' segment] stored]| |] eqn:Hp; [|done..].
  unfold bind at 1. destruct (if 0 <? zlen (ms_Payload segment) then _ else _) as [[[]| |] w1] eqn:E1.
  2,3: by destruct (0 <? zlen (ms_Payload segment)).
  unfold bind at 1. destruct (putJSON m (me_manifest env) _ mf' w1) as [[[]| |] w2] eqn:E2; [|done..].
  unfold bind. destruct (if mt_heads m then _ else _) as [[[]| |] w3] eqn:E3; [|done..].
  intros [= -> ->]. exists segment, stored, w1, w2. split; [done|]. split; [done|].
  assert (Hput : (if 0 <? zlen (ms_Payload segment) then
       st_Put (ms_Key segment) stored (mw_store w) = (Ok tt, mw_store w1) else mw_store w1 = mw_store w) /\
       mw_heads w1 = mw_heads w).
  { destruct (0 <? zlen (ms_Payload segment)); [|by injection E1 as <-].
    unfold bind, putBytes, set_store, set_cache, modify in E1.
    destruct (st_Put _ _ _) as [[[]| |] s'] eqn:Ep; [|done..]. by injection E1 as <-. }
  destruct Hput as [Hput1 Hput2]. split_and!; [done|done|done|]. destruct (mt_heads m); [|done].
  unfold set_heads in E3. destruct (hs_CAS _ _ _ _) as [[[]| |] h] eqn:Ec; [|done..]. by injection E3 as <-.
Qed.

(** The manifest: its number, owner and state. *)
Lemma prepare_inv env st e mf segment stored :
  prepare m env st e = Ok (mf, segment, stored) ->
  let inline := defaultSegmentVolumeIDs (mt_volumeID m) st in
  let seq := checkpointSequence st in
  exists seg0 files enc ms, seq <> 0 /\ e < seq /\ buildSegment seq (mt_volumeID m) inline = (seg0, files) /\
    encryptSegment (mt_encryption m) (me_segment env) (mt_volumeID m) (Some seg0) = Ok (stored, enc) /\
    segment = set_Encryption enc seg0 /\ buildManifestState inline segment files = Ok ms /\
    mf = mkManifest 1 (mt_volumeID m) seq seq (me_now env) (Some ms).
Proof.
  intros Hp inline seq. unfold prepare in Hp. fold inline in Hp. change (checkpointSequence inline) with seq in Hp.
  destruct (seq =? 0) eqn:E0; [done|]. apply Z.eqb_neq in E0.
  destruct (seq <=? e) eqn:E1; [done|]. apply Z.leb_gt in E1.
  destruct (buildSegment seq (mt_volumeID m) inline) as [seg0 files].
  destruct (encryptSegment _ _ _ _) as [[st' enc]| |] eqn:Ee; [|done..]. cbn [rbind fst snd] in Hp.
  destruct (buildManifestState _ _ _) as [ms| |] eqn:Eb; [|done..]. injection Hp as <- <- <-.
  by exists seg0, files, enc, ms.
Qed.

Lemma prepare_head env st e mf segment stored :
  prepare m env st e = Ok (mf, segment, stored) -> 0 <= NextSeq st <= maxInt ->
  mf_ManifestSeq mf = NextSeq st - 1 /\ 0 < mf_ManifestSeq mf /\ e < mf_ManifestSeq mf /\
  (TrimSpace (mt_volumeID m) <> "" -> head_valid (mt_volumeID m) (head_of m mf)).
Proof.
  intros (seg0 & files & enc & ms & Hnz & He & _ & _ & _ & _ & ->)%prepare_inv Hn. simpl.
  assert (checkpointSequence st = NextSeq st - 1 /\ NextSeq st <> 0) as [Hc ?].
  { unfold checkpointSequence in *. destruct (Z.eqb_spec (NextSeq st) 0); done. }
  rewrite Hc in *. split_and!; [done|lia|done|]. intros Hv. split; simpl; unfold maxInt in *; [done|lia..|done].
Qed.

Lemma prepare_owned env st e mf segment stored :
  prepare m env st e = Ok (mf, segment, stored) -> TrimSpace (mt_volumeID m) <> "" ->
  exists ms, mf_State mf = Some ms /\ all_owned ms.
Proof.
  intros (seg0 & files & enc & ms & _ & _ & Hb & _ & -> & Hms & ->)%prepare_inv Hv. exists ms. split; [done|].
  apply buildManifestState_spec in Hms as (_ & _ & _ & _ & _ & _ & Hs). intros id g Hg.
  apply Hs in Hg as [Hg| ->].
  - simpl in Hg. rewrite lookup_fmap in Hg. apply fmap_Some in Hg as (g0 & _ & ->). unfold own_segment.
    by destruct (decide (TrimSpace (sg_VolumeID g0) = "")); [destruct g0|].
  - simpl. unfold buildSegment in Hb. destruct (build_loop _ _ _ _ _). by injection Hb as <- <-.
Qed.

Lemma load_committed k mf st h (w : MatWorld St Hd) :
  mt_enabled m = true -> mt_heads m = true -> hs_Load (mt_volumeID m) (mw_heads w) = Ok h ->
  h_ManifestKey h = manifestKey (mf_ManifestSeq mf) ->
  getJSON m (manifestKey (mf_ManifestSeq mf)) w = (Ok mf, w) -> mf_State mf = Some st -> all_owned st ->
  LoadLatestState k m w = (Ok (Some st, mf), w).
Proof.
  intros He Hh Hl Hk Hg Hs Ho. unfold LoadLatestState, bind at 1. destruct k; simpl; rewrite He, Hh; simpl;
    unfold bind, get; rewrite Hl, Hk; rewrite (loadManifestByKey_ok _ _ _ _ (manifestKey_nonempty _) Hg Hs Ho);
    by rewrite Hs.
Qed.

Lemma load_legacy k mf st i (w : MatWorld St Hd) :
  mt_enabled m = true -> mt_heads m = false -> st_Head manifestLatestKey (mw_store w) = Ok i ->
  getJSON m manifestLatestKey w = (Ok mf, w) -> mf_State mf = Some st -> all_owned st ->
  LoadLatestState k m w = (Ok (Some st, mf), w).
Proof.
  intros He Hh Hi Hg Hs Ho. unfold LoadLatestState, bind at 1. destruct k; simpl; rewrite He, Hh; simpl;
    unfold loadLegacyLatestManifest, bind, get; rewrite Hi;
    (erewrite loadManifestByKey_ok by (done || by vm_compute)); by rewrite Hs.
Qed.

(** What is read depends on the objects only. *)
Lemma getJSON_store key (w w' : MatWorld St Hd) v :
  mw_store w' = mw_store w -> getJSON m key w = (Ok v, w) -> getJSON m key w' = (Ok v, w').
Proof.
  intros Hs. unfold getJSON, bind, get, lift_res. rewrite Hs.
  destruct (st_Get key 0 (-1) (mw_store w)) as [p| |]; [|done..].
  destruct (decryptBlobIfEncrypted _ _ _) as [pl| |]; [|done..]. simpl.
  destruct (unmarshal_manifest pl.1); by intros [= ->].
Qed.

Lemma Materialize_enabled env st e (w w' : MatWorld St Hd) mf :
  Materialize m env st e w = (Ok (Some mf), w') -> mt_enabled m = true.
Proof. unfold Materialize. by destruct (mt_enabled m). Qed.

(** A run whose objects are written but whose swap is refused. *)
Lemma Materialize_refused env st e (w : MatWorld St Hd) mf segment stored payload x h' :
  (forall k v s, exists s', st_Put k v s = (Ok tt, s')) -> encryption_ok (me_manifest env) ->
  mt_enabled m = true -> mt_heads m = true -> mt_volumeID m <> "" ->
  prepare m env st e = Ok (mf, segment, stored) ->
  encryptBlob (mt_encryption m) (me_manifest env) (marshal_manifest mf)
    (stateBlobAAD (mt_volumeID m) ("object:" +:+ manifestKey (mf_ManifestSeq mf))) = Ok payload ->
  hs_CAS (mt_volumeID m) e (head_of m mf) (mw_heads w) = (Err x, h') ->
  exists w', Materialize m env (Some st) e w = (Err x, w') /\ mw_heads w' = h' /\
    getJSON m (manifestKey (mf_ManifestSeq mf)) w' = (Ok (json_manifest mf), w').
Proof.
  intros Hput Hm Hen Hh Hv Hp He Hc. unfold Materialize. rewrite Hen, decide_False, Hh by done. simpl.
  unfold bind at 1, lift_res. rewrite Hp.
  assert (exists w1, (if 0 <? zlen (ms_Payload segment) then
             do* putBytes (ms_Key segment) stored in
             set_cache (cache_put (segmentCacheKey (ms_VolumeID segment) (ms_Key segment)) (ms_Payload segment))
           else ret tt) w = (Ok tt, w1) /\ mw_heads w1 = mw_heads w) as (w1 & E1 & Hw1).
  { destruct (0 <? zlen (ms_Payload segment)); [|by exists w]. unfold bind, putBytes, set_store.
    destruct (Hput (ms_Key segment) stored (mw_store w)) as [s' ->]. by eexists. }
  unfold bind at 1. rewrite E1. unfold bind at 1.
  assert (exists w2, putJSON m (me_manifest env) (manifestKey (mf_ManifestSeq mf)) mf w1 = (Ok tt, w2)) as [w2 E2].
  { unfold putJSON, bind, lift_res. rewrite He. unfold putBytes, set_store.
    destruct (Hput (manifestKey (mf_ManifestSeq mf)) payload (mw_store w1)) as [s' ->]. by eexists. }
  rewrite E2. apply putJSON_get in E2 as (Hw2 & _ & Hg & _); [|done]. unfold bind, set_heads.
  rewrite Hw2, Hw1, Hc. eexists. split; [done|]. split; [done|]. eapply getJSON_store; [|exact Hg]. done.
Qed.

End commit.

Section claims.
Context {St Hd : Type} `{SL : StoreLaws St} `{HL : HeadLaws Hd} `{CL : CipherLaws} `{JL : JsonLaws} `{SH : Sha256}.

(** C36: a materialization that succeeds is the one that is loaded.  Its manifest has
    the sequence number before the next one of the state, beyond the one the caller
    expected; with a head store the head of the volume is at that number; and loading
    the latest state (through the head, or through manifests/latest.json without a
    head store) gives exactly the manifest that was returned, encrypted or not. *)
Theorem materialize_loads (m : Materializer) env st e (w w' : MatWorld St Hd) mf k
    (Hm : encryption_ok m (me_manifest env)) (Hl : encryption_ok m (me_latest env))
    (Hvol : TrimSpace (mt_volumeID m) <> "") (Hseq : 0 <= NextSeq st <= maxInt)
    (Hutf8 : json_manifest mf = mf)
    (Hrun : Materialize m env (Some st) e w = (Ok (Some mf), w')) :
  mf_ManifestSeq mf = NextSeq st - 1 /\ e < mf_ManifestSeq mf /\
  (mt_heads m = true -> exists h, hs_Load (mt_volumeID m) (mw_heads w') = Ok h /\
     h_ManifestSeq h = mf_ManifestSeq mf) /\
  LoadLatestState k m w' = (Ok (mf_State mf, mf), w').
Proof.
  pose proof (Materialize_enabled _ _ _ _ _ _ _ Hrun) as Hen.
  apply Materialize_inv in Hrun as (segment & stored & w1 & w2 & Hv & Hp & _ & _ & Hj & Hc); [|done..].
  destruct (prepare_head _ _ _ _ _ _ _ Hp Hseq) as (Hs & _ & He & Hval). specialize (Hval Hvol).
  destruct (prepare_owned _ _ _ _ _ _ _ Hp Hvol) as (ms & Hms & Ho). rewrite Hms.
  apply putJSON_get in Hj as (_ & _ & Hg & _); [|done]. rewrite Hutf8 in Hg.
  split; [done|]. split; [done|]. destruct (mt_heads m) eqn:Hh.
  - destruct Hc as [Hcas Hst]. destruct (hl_ok _ _ _ _ _ Hval Hcas) as (h & Hload & Hhs & Hhk).
    split; [by exists h|]. eapply load_committed; try done. by eapply getJSON_store.
  - split; [done|]. apply putJSON_get in Hc as (_ & _ & Hg' & [i Hi] & _); [|done]. rewrite Hutf8 in Hg'.
    by eapply load_legacy.
Qed.

(** a writer that loses the race still replaces the objects of the one that won.
    [Materialize] writes its objects, under keys made from the sequence number alone,
    before it swaps the head.  So of two writers that start from the same head at the
    same sequence number, the second one is refused and the head stays the first
    one's, and yet what is loaded through that head is then the second one's
    manifest. *)
Theorem stale_writer_replaces (m : Materializer) envA envB stA stB e (w w1 : MatWorld St Hd) mfA mfB
    segment stored payload k
    (HmA : encryption_ok m (me_manifest envA)) (HlA : encryption_ok m (me_latest envA))
    (HmB : encryption_ok m (me_manifest envB))
    (Hputs : forall k v s, exists s', st_Put (Store := _) k v s = (Ok tt, s'))
    (Hheads : mt_heads m = true) (Hvol : TrimSpace (mt_volumeID m) <> "")
    (HseqA : 0 <= NextSeq stA <= maxInt) (Hsame : NextSeq stB = NextSeq stA)
    (HutfB : json_manifest mfB = mfB)
    (Hfirst : Materialize m envA (Some stA) e w = (Ok (Some mfA), w1))
    (Hprep : prepare m envB stB e = Ok (mfB, segment, stored))
    (Hblob : encryptBlob (mt_encryption m) (me_manifest envB) (marshal_manifest mfB)
       (stateBlobAAD (mt_volumeID m) ("object:" +:+ manifestKey (mf_ManifestSeq mfB))) = Ok payload) :
  exists w2, Materialize m envB (Some stB) e w1 = (Err ErrCommittedHeadConflict, w2) /\
    mw_heads w2 = mw_heads w1 /\ LoadLatestState k m w2 = (Ok (mf_State mfB, mfB), w2).
Proof.
  pose proof (Materialize_enabled _ _ _ _ _ _ _ Hfirst) as Hen.
  apply Materialize_inv in Hfirst as (sgA & outA & wA & wB & Hv & HpA & _ & _ & _ & Hc); [|done..].
  rewrite Hheads in Hc. destruct Hc as [Hcas _].
  destruct (prepare_head _ _ _ _ _ _ _ HpA HseqA) as (HsA & _ & HeA & HvalA).
  rewrite <- Hsame in HseqA. destruct (prepare_head _ _ _ _ _ _ _ Hprep HseqA) as (HsB & _ & _ & HvalB).
  specialize (HvalA Hvol). specialize (HvalB Hvol).
  destruct (prepare_owned _ _ _ _ _ _ _ Hprep Hvol) as (ms & Hms & Ho).
  destruct (hl_ok _ _ _ _ _ HvalA Hcas) as (h & Hload & Hhs & Hhk). simpl in Hhs, Hhk.
  destruct (hs_CAS (mt_volumeID m) e (head_of m mfB) (mw_heads w1)) as [r h'] eqn:Hr.
  pose proof (hl_conflict (mt_volumeID m) e _ h (mw_heads w1) HvalB Hload) as Hconf.
  rewrite Hr in Hconf. simpl in Hconf. specialize (Hconf ltac:(left; lia)). subst r.
  pose proof (hl_err _ _ _ _ _ _ Hr) as ->.
  destruct (Materialize_refused m envB stB e w1 mfB segment stored payload _ _ Hputs HmB Hen Hheads Hv Hprep Hblob Hr)
    as (w2 & Hrun & Hw2 & Hg).
  exists w2. split; [done|]. split; [done|]. rewrite Hms. rewrite HutfB in Hg.
  eapply load_committed; try done; [by rewrite Hw2|]. rewrite Hhk. f_equal. lia.
Qed.

End claims.

(** ** Witnesses *)

#[export] Instance length_digest : Sha256 := {| sha256 := fun l => be64 (zlen l) |}.

Definition demo_mat (enc : option EncryptionConfig) : Materializer := mkMaterializer true "vol" None true enc 1024.
Definition demo_env (now : Z) : MatEnv := mkMatEnv now some_random some_random some_random.
Definition empty_world : MatWorld memoryStore heads_table := mkMatWorld (mkMemory ∅) ∅ (newSegmentCache 1024).

(** The manifest a run returns, the world it leaves. *)
Definition returned (r : gores (option Manifest) * MatWorld memoryStore heads_table) : Manifest :=
  match r.1 with Ok (Some mf) => mf | _ => mkManifest 0 "" 0 0 0 None end.

Definition first_run : gores (option Manifest) * MatWorld memoryStore heads_table :=
  Materialize (demo_mat small_chunks) (demo_env 7) (Some sample_state) 0 empty_world.

Lemma demo_encryption_ok : encryption_ok (demo_mat small_chunks) some_random.
Proof.
  split; [by intros ke [= <-]; apply byte_key_ok|]. split; [by vm_compute|]. by intros a [= <-].
Qed.

Lemma materialize_loads_witness :
  LoadLatestState 0 (demo_mat small_chunks) first_run.2 =
    (Ok (mf_State (returned first_run), returned first_run), first_run.2).
Proof.
  eapply (materialize_loads (demo_mat small_chunks) (demo_env 7) sample_state 0 empty_world).
  - exact demo_encryption_ok.
  - exact demo_encryption_ok.
  - vm_compute. discriminate.
  - vm_compute. split; discriminate.
  - vm_compute. reflexivity.
  - vm_compute. reflexivity.
Defined.

Definition other_state : SnapshotState := set_Data {[3 := [x63; x64]]} sample_state.
Definition plain_run : gores (option Manifest) * MatWorld memoryStore heads_table :=
  Materialize (demo_mat None) (demo_env 7) (Some sample_state) 0 empty_world.
Definition lost : gores (Manifest * materializedSegment * list byte) :=
  prepare (demo_mat None) (demo_env 8) other_state 0.
Definition lost_manifest : Manifest := match lost with Ok p => p.1.1 | _ => returned plain_run end.

Lemma plain_encryption_ok : encryption_ok (demo_mat None) some_random.
Proof. split; [done|]. split; [by vm_compute|]. by intros a [= <-]. Qed.

Lemma stale_writer_replaces_witness :
  exists w2, Materialize (demo_mat None) (demo_env 8) (Some other_state) 0 plain_run.2 =
      (Err ErrCommittedHeadConflict, w2) /\ mw_heads w2 = mw_heads plain_run.2 /\
    LoadLatestState 0 (demo_mat None) w2 = (Ok (mf_State lost_manifest, lost_manifest), w2).
Proof.
  eapply (stale_writer_replaces (demo_mat None) (demo_env 7) (demo_env 8) sample_state other_state 0 empty_world
            plain_run.2 (returned plain_run) lost_manifest).
  - exact plain_encryption_ok.
  - exact plain_encryption_ok.
  - exact plain_encryption_ok.
  - intros k v s. eexists. reflexivity.
  - reflexivity.
  - vm_compute. discriminate.
  - vm_compute. split; discriminate.
  - reflexivity.
  - vm_compute. reflexivity.
  - vm_compute. reflexivity.
  - vm_compute. reflexivity.
  - vm_compute. reflexivity.
Defined.
