(* ===== verification/S0fsContent.v ===== *)
(** * s0fs: file contents in object storage

    Theorems on the read path of materializer.go.  Reading through the segment cache
    gives what reading past it gives, as long as no object under a cached key is
    replaced; and a materialization keeps the content of every file, inline before it
    or in older segments, of this volume or of another one, encrypted or not. *)

From stdpp Require Import base gmap strings list fin_maps numbers sorting.
From Stdlib Require Import Strings.Byte Ascii.
From S2P Require Import Prelude GoStd S0fsTypes S0fsCore S0fsEngine S0fsInv S0fsSafety S0fsFiles.
From S2P Require Import S0fsSnapshot S0fsCrypto ObjectStore S0fsMaterializer S0fsCache S0fsCommit.

Local Open Scope Z_scope.

(** ** The cache is transparent *)

Lemma evict_sub max order size entries : (evict max size entries order).1.2 ⊆ entries.
Proof.
  revert size entries. induction order as [|k order IH]; intros size entries; simpl.
  - by destruct (max <? size).
  - destruct (max <? size); [|done]. destruct (entries !! k) as [p|]; [|apply IH].
    etrans; [apply IH|]. apply delete_subseteq.
Qed.

Lemma cache_get_put k k' p q c :
  cache_get k (cache_put k' p c) = Some q -> (k = k' /\ q = p) \/ cache_get k c = Some q.
Proof.
  unfold cache_get, cache_put. destruct (decide (k = "")); [done|]. destruct (decide (k' = "")); [by right|].
  destruct (sc_maxBytes c <? zlen p); [by right|].
  destruct (match sc_entries c !! k' with Some _ => _ | None => _ end) as [size order].
  pose proof (evict_sub (sc_maxBytes c) order (size + zlen p) (<[k' := p]> (sc_entries c))) as Hs.
  destruct (evict _ _ _ _) as [[size' entries'] order']. simpl in *. intros Hq.
  eapply lookup_weaken in Hq; [|exact Hs]. apply lookup_insert_Some in Hq as [[-> ->]|[_ Hq]]; [by left|by right].
Qed.

(** ** The extents that are written *)

Lemma cold_loop_ext (R R' : ColdReader) segs segs' a b xs fo rem out :
  (forall x, x ∈ xs -> exists g g', segs !! x_SegmentID x = Some g /\ segs' !! x_SegmentID x = Some g' /\
     forall o l, S0fsCore.ReadSegmentRange (ColdReader := R') g' o l = S0fsCore.ReadSegmentRange (ColdReader := R) g o l) ->
  cold_loop (CR := R') segs' a b xs fo rem out = cold_loop (CR := R) segs a b xs fo rem out.
Proof.
  revert fo rem out. induction xs as [|x xs IH]; intros fo rem out Hx; simpl; [done|].
  destruct (Hx x) as (g & g' & -> & -> & Hr); [constructor|].
  assert (IH' := fun fo rem out => IH fo rem out (fun y Hy => Hx y (list_elem_of_further _ _ _ Hy))).
  destruct (_ || _); [apply IH'|]. rewrite Hr.
  destruct (S0fsCore.ReadSegmentRange _ _ _) as [chunk| |]; [|done..]. simpl.
  destruct (_ =? 0); [done|apply IH'].
Qed.

Lemma cold_loop_one (R : ColdReader) segs id off n g p :
  segs !! id = Some g -> 0 <= off <= 2 ^ 62 -> 0 < n <= 2 ^ 62 -> zlen p = n ->
  S0fsCore.ReadSegmentRange g off n = Ok p ->
  cold_loop segs 0 (u64 (0 + n)) [mkExtent id off n] 0 n [] = Ok p.
Proof.
  intros Hs Ho Hn Hp Hr. cbn [cold_loop x_Length x_Offset x_SegmentID]. rewrite Z.add_0_l, Hs.
  rewrite !(u64_small n) by lia.
  rewrite !(proj2 (Z.leb_gt n 0)) by lia. cbn [orb]. unfold maxUint64, minUint64. rewrite !Z.ltb_irrefl.
  rewrite !Z.sub_0_r, Z.add_0_r, (u64_small off), (u64_small n) by lia.
  rewrite !int64_of_small by (unfold maxInt; lia). rewrite Hr. simpl. rewrite Hp, Z.sub_diag. done.
Qed.

Lemma buildSegment_spec `{Sha256} seq vol s seg files :
  buildSegment seq vol s = (seg, files) ->
  ms_ID seg = segmentIDOf seq /\ ms_VolumeID seg = vol /\ ms_Key seg = segmentKeyOf (segmentIDOf seq) /\
  (forall i p, Data s !! i = Some p -> hot_file s i p = true -> exists off,
     files !! i = Some [mkExtent (ms_ID seg) off (zlen p)] /\ 0 <= off /\ off + zlen p <= zlen (ms_Payload seg) /\
     subslice off (off + zlen p) (ms_Payload seg) = p) /\
  (forall i, (forall p, Data s !! i = Some p -> hot_file s i p = false) -> files !! i = None).
Proof.
  unfold buildSegment. set (inodes := merge_sort _ _). destruct (build_loop _ _ _ _ _) as [buf files'] eqn:Hb.
  intros [= <- <-]. simpl. apply build_loop_spec in Hb as (_ & Hin & Hout).
  2: { unfold inodes. rewrite merge_sort_Permutation. apply NoDup_filter, NoDup_fst_map_to_list. }
  assert (Hmem : forall i, i ∈ inodes <-> exists p, Data s !! i = Some p /\ hot_file s i p = true).
  { intros i. unfold inodes. rewrite merge_sort_Permutation, list_elem_of_filter, list_elem_of_fmap. split.
    - intros [Hh ([i' p] & -> & Hi)]. apply elem_of_map_to_list in Hi. exists p. split; [done|].
      simpl in Hh. unfold data_of in Hh. rewrite Hi in Hh. by apply Is_true_true.
    - intros (p & Hp & Hh). split; [|exists (i, p); split; [done|by apply elem_of_map_to_list]].
      unfold data_of. rewrite Hp. by apply Is_true_true. }
  split_and!; try done.
  - intros i p Hp Hh. destruct (Hin i) as (off & Hf & H0 & Hle & Hsub); [apply Hmem; eauto|].
    rewrite Hp in *. simpl in *. by exists off.
  - intros i Hi. rewrite Hout; [apply lookup_empty|]. rewrite Hmem. intros (p & Hp & Hh).
    rewrite (Hi p Hp) in Hh. done.
Qed.

Section content.
Context {St Hd : Type} `{SL : StoreLaws St} `{HL : HeadLaws Hd} `{CL : CipherLaws} `{JL : JsonLaws} `{SH : Sha256}.
Context (m : Materializer).

(** The same objects and an empty cache. *)
Definition past (w : MatWorld St Hd) : MatWorld St Hd :=
  mkMatWorld (mw_store w) (mw_heads w) (newSegmentCache 0).

(** What the cache is to hold for a segment, and under which key. *)
Definition whole (w : MatWorld St Hd) (g : Segment) : gores (string * gores (list byte)) :=
  let? vs := storeForSegment m g w in
  Ok (segmentCacheKey vs.1 (sg_Key g), fetch m vs.1 vs.2 g 0 (int64_of (sg_Length g))).

(** Every hit is for the bytes of the object, for the segments in use. *)
Definition coherent (used : Segment -> Prop) (w : MatWorld St Hd) : Prop :=
  forall g k r p, used g -> whole w g = Ok (k, r) -> cache_get k (mw_cache w) = Some p -> r = Ok p.

(** Two segments in use under one cache key hold the same bytes. *)
Definition one_object (used : Segment -> Prop) (w : MatWorld St Hd) : Prop :=
  forall g g' k r r', used g -> used g' -> whole w g = Ok (k, r) -> whole w g' = Ok (k, r') -> r = r'.

Lemma cache_get_new k n : cache_get k (newSegmentCache n) = None.
Proof. unfold cache_get. destruct (decide _); [done|]. apply lookup_empty. Qed.

(** Reading through the segment cache is reading the objects.  As long as every
    cached payload is that of its object, a range read of a segment in use returns
    what it returns with an empty cache, hit or miss, errors included, changes neither
    the objects nor the heads, and leaves every cached payload that of its object. *)
Theorem cache_transparent used (w : MatWorld St Hd) g off limit
    (Hone : one_object used w) (Hcoh : coherent used w) (Hg : used g) :
  let '(r, w') := ReadSegmentRange m (Some g) off limit w in
  r = (ReadSegmentRange m (Some g) off limit (past w)).1 /\ coherent used w' /\ past w' = past w.
Proof.
  unfold ReadSegmentRange.
  destruct (mt_enabled m); [|by split_and!]. simpl. destruct (decide (sg_Key g = "")); [by split_and!|].
  destruct (limit =? 0); [by split_and!|]. destruct (off <? 0); [by split_and!|].
  unfold bind, get, lift_res.
  change (storeForSegment m g (past w)) with (storeForSegment m g w).
  destruct (storeForSegment m g w) as [[vol getter]| |] eqn:Hs; [|by split_and!..].
  destruct (_ && _); [|by split_and!]. set (k := segmentCacheKey vol (sg_Key g)).
  simpl. rewrite cache_get_new.
  assert (Hw : whole w g = Ok (k, fetch m vol getter g 0 (int64_of (sg_Length g)))).
  { unfold whole. by rewrite Hs. }
  destruct (cache_get k (mw_cache w)) as [p|] eqn:Hk.
  - rewrite (Hcoh _ _ _ _ Hg Hw Hk). simpl. by split_and!.
  - destruct (fetch m vol getter g 0 _) as [p| |] eqn:Hf; [|by split_and!..].
    unfold set_cache, modify. simpl. split; [done|]. split; [|done].
    intros g' k' r' p' Hg' Hw' Hp'. simpl in Hp'. change (whole w g' = Ok (k', r')) in Hw'.
    apply cache_get_put in Hp' as [[-> ->]|Hp']; [|by eapply Hcoh].
    by rewrite <- (Hone _ _ _ _ _ Hg Hg' Hw Hw').
Qed.

(** ** Reads that a materialization does not disturb *)

(** The engine's view of the materializer, past the cache. *)
Definition reader (w : MatWorld St Hd) : ColdReader := {|
  cold_enabled := mt_enabled m;
  S0fsCore.ReadSegmentRange g off limit := (ReadSegmentRange m (Some g) off limit (past w)).1
|}.

Lemma decrypt_loop_ext f f' chunks out :
  (forall i, f i = f' i) -> decrypt_loop f chunks out = decrypt_loop f' chunks out.
Proof.
  intros Hf. revert out. induction chunks as [|i chunks IH]; intros out; simpl; [done|].
  rewrite Hf. destruct (f' i); [apply IH|done..].
Qed.

Lemma fetch_ext vol get get' g g' off limit :
  sg_ID g' = sg_ID g -> sg_Key g' = sg_Key g -> sg_Length g' = sg_Length g -> sg_Encryption g' = sg_Encryption g ->
  (forall o l, get' (sg_Key g) o l = get (sg_Key g) o l) ->
  fetch m vol get' g' off limit = fetch m vol get g off limit.
Proof.
  intros Hi Hk Hl He Hget. unfold fetch, decryptSegmentRange. rewrite He, Hk, Hl, Hget.
  destruct (sg_Encryption g) as [enc|]; [|done]. destruct (enabled (mt_encryption m)) as [ke|]; [|done].
  destruct (negb _); [done|]. destruct (se_ChunkSize enc =? 0); [done|]. destruct (off <? 0); [done|].
  cbv zeta. destruct (_ || _); [done|]. destruct (ke_Decrypt ke _) as [key| |]; [|done..]. simpl.
  destruct (newAEADForAlgorithm _ key) as [aead| |]; [|done..]. simpl. apply decrypt_loop_ext. intros i.
  unfold decrypt_chunk. by rewrite Hk, Hi, Hget.
Qed.

Lemma own_segment_fields v g :
  sg_ID (own_segment v g) = sg_ID g /\ sg_Key (own_segment v g) = sg_Key g /\
  sg_Length (own_segment v g) = sg_Length g /\ sg_Encryption (own_segment v g) = sg_Encryption g.
Proof. unfold own_segment. by destruct (decide _). Qed.

Lemma storeForSegment_own (w w' : MatWorld St Hd) g :
  TrimSpace (mt_volumeID m) = mt_volumeID m ->
  match storeForSegment m g w with
  | Ok (vol, get) =>
      exists get', storeForSegment m (own_segment (mt_volumeID m) g) w' = Ok (vol, get') /\
        (get' = get \/ get = (fun k o l => st_Get k o l (mw_store w)) /\ get' = fun k o l => st_Get k o l (mw_store w'))
  | r => storeForSegment m (own_segment (mt_volumeID m) g) w' = r
  end.
Proof.
  intros Hv. unfold storeForSegment, own_segment.
  destruct (decide (TrimSpace (sg_VolumeID g) = "")) as [E|E].
  - rewrite decide_True by (by right). simpl. rewrite Hv, decide_True; [by eauto 6|]. right. by destruct (decide (mt_volumeID m = "")) as [->|].
  - rewrite !(decide_False (P := TrimSpace (sg_VolumeID g) = "")) by done. destruct (decide (_ \/ _)); [by eauto 6|].
    destruct (mt_resolver m) as [res|]; [|done]. destruct (res _) as [[get|]| |]; simpl; by eauto.
Qed.

Lemma read_same w w' g off limit :
  TrimSpace (mt_volumeID m) = mt_volumeID m ->
  (forall o l, st_Get (sg_Key g) o l (mw_store w') = st_Get (sg_Key g) o l (mw_store w)) ->
  S0fsCore.ReadSegmentRange (ColdReader := reader w') (own_segment (mt_volumeID m) g) off limit =
  S0fsCore.ReadSegmentRange (ColdReader := reader w) g off limit.
Proof.
  intros Hv Hget. simpl. destruct (own_segment_fields (mt_volumeID m) g) as (Hi & Hk & Hl & He).
  unfold ReadSegmentRange. destruct (mt_enabled m); [|done]. simpl. rewrite Hk.
  destruct (decide (sg_Key g = "")); [done|]. destruct (limit =? 0); [done|]. destruct (off <? 0); [done|].
  unfold bind, get, lift_res. pose proof (storeForSegment_own (past w) (past w') g Hv) as Hs.
  destruct (storeForSegment m g (past w)) as [[vol get]| |]; [|by rewrite Hs..].
  destruct Hs as (get' & -> & Hg'). rewrite Hl.
  assert (Hf : forall o l, fetch m vol get' (own_segment (mt_volumeID m) g) o l = fetch m vol get g o l).
  { intros o l. apply fetch_ext; try done. by destruct Hg' as [->|[-> ->]]. }
  rewrite !Hf. destruct (_ && _); [|done]. simpl. rewrite !cache_get_new.
  by destruct (fetch m vol get g 0 _).
Qed.

(** ** Reads of the segment that was written *)

Lemma range_of_in payload off limit :
  0 <= off -> 0 <= limit -> off + limit <= zlen payload ->
  range_of payload off limit = subslice off (off + limit) payload.
Proof.
  intros. unfold range_of. rewrite (proj2 (Z.ltb_ge limit 0)) by lia. by rewrite Z.min_l by lia.
Qed.

(** Sizes that fit in memory, and a usable key and chunk size. *)
Record segment_fits (seg : materializedSegment) (stored : list byte) : Prop := {
  sf_keys : forall ke, enabled (mt_encryption m) = Some ke -> keys_ok ke;
  sf_chunk : 0 < chunkSize (mt_encryption m) <= 2 ^ 62;
  sf_payload : zlen (ms_Payload seg) <= 2 ^ 62;
  sf_stored : zlen stored <= maxInt
}.

Definition holds (w : MatWorld St Hd) (key : string) (v : list byte) : Prop :=
  forall o l, 0 <= o -> (0 <= l -> Z.min o (zlen v) + l <= maxInt) -> st_Get key o l (mw_store w) = Ok (range_of v o l).

Definition segment_of (seg : materializedSegment) (enc : option SegmentEncryption) : Segment :=
  mkSegment (ms_ID seg) (ms_VolumeID seg) (ms_Key seg) (zlen (ms_Payload seg)) (ms_SHA256 seg) enc.

Lemma fetch_new w rnd vol seg stored enc off limit :
  segment_fits seg stored -> encryptSegment (mt_encryption m) rnd vol (Some seg) = Ok (stored, enc) ->
  holds w (ms_Key seg) stored -> 0 <= off -> 0 <= limit -> off + limit <= zlen (ms_Payload seg) ->
  fetch m vol (fun k o l => st_Get k o l (mw_store w)) (segment_of seg enc) off limit =
    Ok (subslice off (off + limit) (ms_Payload seg)).
Proof.
  intros [Hk Hc Hp Hst] He Hh Ho Hl Hol. unfold fetch. simpl. destruct enc as [enc|].
  - rewrite <- range_of_in by done. eapply decrypt_encrypt_segment; try done; [|lia].
    intros o l Ho' Hl' Hol'. rewrite Hh by lia. by rewrite range_of_in by lia.
  - assert (stored = ms_Payload seg) as ->.
    { unfold encryptSegment in He. destruct (enabled _) as [ke|]; [|by injection He as <-].
      destruct (zlen (ms_Payload seg) =? 0); [by injection He as <-|].
      destruct (ke_Encrypt ke _) as [wk| |]; [|done..]. cbn [rbind] in He.
      destruct (newAEAD _ _) as [a| |]; [|done..]. cbn [rbind] in He.
      by destruct (encrypt_loop _ _ _ _ _ _ _) as [o| |]. }
    rewrite Hh by (unfold maxInt; lia). by rewrite range_of_in by lia.
Qed.

Lemma read_new w rnd seg stored enc off limit :
  mt_enabled m = true -> TrimSpace (mt_volumeID m) = mt_volumeID m -> ms_VolumeID seg = mt_volumeID m ->
  ms_Key seg <> "" -> segment_fits seg stored ->
  encryptSegment (mt_encryption m) rnd (mt_volumeID m) (Some seg) = Ok (stored, enc) ->
  holds w (ms_Key seg) stored -> 0 <= off -> 0 < limit -> off + limit <= zlen (ms_Payload seg) ->
  S0fsCore.ReadSegmentRange (ColdReader := reader w) (segment_of seg enc) off limit =
    Ok (subslice off (off + limit) (ms_Payload seg)).
Proof.
  intros Hen Hv Hsv Hkey Hfits He Hh Ho Hl Hol. pose proof (sf_payload _ _ Hfits). simpl. unfold ReadSegmentRange.
  rewrite Hen. simpl. rewrite decide_False by done. rewrite (proj2 (Z.eqb_neq limit 0)), (proj2 (Z.ltb_ge off 0)) by lia.
  unfold bind, get, lift_res.
  assert (storeForSegment m (segment_of seg enc) (past w) =
    Ok (mt_volumeID m, fun k o l => st_Get k o l (mw_store w))) as ->.
  { unfold storeForSegment. simpl. rewrite Hsv, Hv. rewrite decide_True; [done|].
    right. by destruct (decide (mt_volumeID m = "")). }
  simpl. rewrite cache_get_new, int64_of_small by (unfold maxInt; pose proof (zlen_nonneg (ms_Payload seg)); lia).
  rewrite !(fetch_new w rnd _ _ stored) by (done || lia).
  destruct (_ && _); [|done]. rewrite Z.add_0_l, subslice_all. unfold set_cache, modify. simpl.
  rewrite cloneByteRange_ok by (unfold maxInt; lia). by rewrite range_of_in by lia.
Qed.

(** ** What a materialization leaves in the store *)

Definition written_keys (seq : Z) : list string := [segmentKeyOf (segmentIDOf seq); manifestKey seq; manifestLatestKey].

(** The store tells apart the object of a segment and those of manifests. *)
Definition keys_apart (seq : Z) : Prop :=
  st_key (segmentKeyOf (segmentIDOf seq)) <> st_key (manifestKey seq) /\
  st_key (segmentKeyOf (segmentIDOf seq)) <> st_key manifestLatestKey.

Definition apart (key : string) (seq : Z) : Prop :=
  forall k, k ∈ written_keys seq -> st_key key <> st_key k.

Lemma apart_all key seq :
  apart key seq -> st_key key <> st_key (segmentKeyOf (segmentIDOf seq)) /\ st_key key <> st_key (manifestKey seq) /\
    st_key key <> st_key manifestLatestKey.
Proof. intros Ha. split_and!; apply Ha; unfold written_keys; set_solver. Qed.

Lemma Materialize_store env st e (w w' : MatWorld St Hd) mf :
  encryption_ok m (me_manifest env) -> encryption_ok m (me_latest env) ->
  Materialize m env (Some st) e w = (Ok (Some mf), w') ->
  exists segment stored, prepare m env st e = Ok (mf, segment, stored) /\
    (forall key o l, apart key (checkpointSequence st) -> st_Get key o l (mw_store w') = st_Get key o l (mw_store w)) /\
    (keys_apart (checkpointSequence st) -> 0 < zlen (ms_Payload segment) -> holds w' (ms_Key segment) stored).
Proof.
  intros He1 He2 Hrun.
  apply Materialize_inv in Hrun as (segment & stored & w1 & w2 & _ & Hp & Hput & _ & Hj & Hc); [|done..].
  exists segment, stored. split; [done|].
  apply prepare_inv in Hp as (seg0 & files & enc & ms & _ & _ & Hb & _ & -> & _ & ->). simpl in *.
  apply buildSegment_spec in Hb as (_ & _ & Hkey & _). rewrite Hkey in *. set (seq := checkpointSequence st) in *.
  apply putJSON_get in Hj as (_ & _ & _ & _ & Hf1); [|done].
  assert (Hlast : forall k o l, st_key k <> st_key manifestLatestKey ->
     st_Get k o l (mw_store w') = st_Get k o l (mw_store w2)).
  { intros k o l Hk. destruct (mt_heads m); [destruct Hc as [_ ->]; done|].
    apply putJSON_get in Hc as (_ & _ & _ & _ & Hf2); [|done]. by apply Hf2. }
  split.
  - intros key o l (H1' & H2' & H3')%apart_all. rewrite Hlast, Hf1 by done.
    destruct (0 <? zlen (ms_Payload seg0)); [|by rewrite Hput].
    by destruct (sl_frame _ _ _ _ _ key Hput) as [-> _].
  - intros [Ha1 Ha2] Hpos o l Ho Hl. rewrite Hlast, Hf1 by done.
    rewrite (proj2 (Z.ltb_lt _ _) Hpos) in Hput. by rewrite (sl_get_put _ _ _ _ _ _ Hput).
Qed.

(** A file of the state that is materialized: inline or in segments, not both, and as
    long as its node says. *)
Definition file_stored (s : SnapshotState) (i : Z) (n : Node) : Prop :=
  (Data s !! i = None \/ ColdFiles s !! i = None) /\ (forall p, Data s !! i = Some p -> n_Size n = zlen p).

(** A file that stays in its segments. *)
Lemma content_retained (w w' : MatWorld St Hd) s s' i :
  TrimSpace (mt_volumeID m) = mt_volumeID m -> Nodes s' = Nodes s -> Data s !! i = None -> Data s' !! i = None ->
  ColdFiles s' !! i = ColdFiles s !! i ->
  (forall xs x, ColdFiles s !! i = Some xs -> x ∈ xs -> exists g, Segments s !! x_SegmentID x = Some g /\
     Segments s' !! x_SegmentID x = Some (own_segment (mt_volumeID m) g) /\
     forall o l, st_Get (sg_Key g) o l (mw_store w') = st_Get (sg_Key g) o l (mw_store w)) ->
  file_content (CR := reader w') s' i = file_content (CR := reader w) s i.
Proof.
  intros Hv Hn HD HD' Hc Hx. unfold file_content, is_hot, readColdRangeLocked, data_of, cold_of.
  rewrite Hn, HD, HD', Hc. destruct (ColdFiles s !! i) as [xs|]; [|done].
  cbn [from_option id cold_enabled reader]. destruct (_ || _); [done|]. destruct (Nodes s !! i) as [n|]; [|done].
  destruct (mt_enabled m); [|done]. cbn [negb]. destruct xs as [|x xs]; [done|]. apply cold_loop_ext. intros y Hy.
  destruct (Hx _ y eq_refl Hy) as (g & Hg & Hg' & Hget). exists g, (own_segment (mt_volumeID m) g).
  split; [done|]. split; [done|]. intros o l. by apply read_same.
Qed.

(** A file that moves into the new segment. *)
Lemma content_moved (w w' : MatWorld St Hd) rnd s s' i n p off seg stored enc :
  mt_enabled m = true -> TrimSpace (mt_volumeID m) = mt_volumeID m -> ms_VolumeID seg = mt_volumeID m ->
  ms_Key seg <> "" -> segment_fits seg stored ->
  encryptSegment (mt_encryption m) rnd (mt_volumeID m) (Some seg) = Ok (stored, enc) -> holds w' (ms_Key seg) stored ->
  Nodes s' !! i = Some n -> n_Size n = zlen p -> 0 < zlen p -> Data s !! i = Some p -> Data s' !! i = None ->
  ColdFiles s' !! i = Some [mkExtent (ms_ID seg) off (zlen p)] ->
  Segments s' !! ms_ID seg = Some (segment_of seg enc) ->
  0 <= off -> off + zlen p <= zlen (ms_Payload seg) -> subslice off (off + zlen p) (ms_Payload seg) = p ->
  file_content (CR := reader w') s' i = file_content (CR := reader w) s i.
Proof.
  intros Hen Hv Hsv Hk Hfits He Hh Hn Hsize Hp HD HD' Hc Hs Ho Hle Hsub. pose proof (sf_payload _ _ Hfits).
  unfold file_content, is_hot, readColdRangeLocked, data_of, cold_of. rewrite Hn, HD, HD', Hc, Hsize.
  cbn [from_option id cold_enabled reader]. rewrite (proj2 (Z.ltb_lt 0 (zlen p))) by done. rewrite Hen. cbn [orb negb].
  apply (cold_loop_one (reader w') _ _ _ _ (segment_of seg enc)); [done|lia|lia|done|].
  rewrite (read_new w' rnd seg stored enc) by done. by rewrite Hsub.
Qed.

End content.

Section content_claim.
Context {St Hd : Type} `{SL : StoreLaws St} `{HL : HeadLaws Hd} `{CL : CipherLaws} `{JL : JsonLaws} `{SH : Sha256}.

(** C3: a materialization keeps the content of every file.  The manifest it returns has
    the nodes and the directories of the state and no inline data, and every regular
    file reads from the objects then in the store as it read before, whether its
    bytes were inline or in older segments, of this volume or of one it was forked
    from, encrypted or not; a read that failed before fails in the same way. *)
Theorem materialize_preserves_content (m : Materializer) env st e (w w' : MatWorld St Hd) mf
    (Hm : encryption_ok m (me_manifest env)) (Hl : encryption_ok m (me_latest env))
    (Hvol : TrimSpace (mt_volumeID m) = mt_volumeID m)
    (Hkeys : keys_apart (checkpointSequence st))
    (Hold : forall id g, Segments st !! id = Some g ->
       id <> segmentIDOf (checkpointSequence st) /\ apart (sg_Key g) (checkpointSequence st))
    (Hfits : forall mf seg stored, prepare m env st e = Ok (mf, seg, stored) -> segment_fits m seg stored)
    (Hrun : Materialize m env (Some st) e w = (Ok (Some mf), w')) :
  exists ms, mf_State mf = Some ms /\ Nodes ms = Nodes st /\ Children ms = Children st /\ Data ms = ∅ /\
    NextInode ms = NextInode st /\
    forall i n, Nodes st !! i = Some n -> is_dir n = false -> file_stored st i n ->
      file_content (CR := reader m w') ms i = file_content (CR := reader m w) st i.
Proof.
  pose proof (Materialize_enabled _ _ _ _ _ _ _ Hrun) as Hen.
  apply Materialize_store in Hrun as (segment & stored & Hp & Hframe & Hholds); [|done..].
  specialize (Hfits _ _ _ Hp).
  apply prepare_inv in Hp as (seg0 & files & enc & ms & _ & _ & Hb & He & -> & Hms & ->).
  exists ms. simpl.
  apply buildManifestState_spec in Hms as ((HN & HC & HD & _ & HI) & Hhot & Hgone & Hret & Hnew & Hsegs & _).
  apply buildSegment_spec in Hb as (Hid & Hsv & Hkey & Hin & Hout). simpl in *.
  split_and!; try done. intros i n Hn Hdir [Hone Hsize].
  destruct (Data st !! i) as [p|] eqn:Hdata.
  - destruct (hot_file (defaultSegmentVolumeIDs (mt_volumeID m) st) i p) eqn:Hh.
    + destruct (Hin i p Hdata Hh) as (off & Hf & Ho & Hle & Hsub).
      assert (0 < zlen p).
      { apply andb_true_iff in Hh as [Hh _]. apply negb_true_iff, Z.eqb_neq in Hh. pose proof (zlen_nonneg p). lia. }
      assert (Hpay : 0 < zlen (ms_Payload seg0)) by lia.
      apply (content_moved m w w' (me_segment env) _ _ i n p off seg0 stored enc); try done;
        [by rewrite Hkey|by destruct Hfits|by apply Hholds|by rewrite HN|by apply Hsize| | |].
      * by rewrite HD, lookup_empty.
      * apply Hhot; [done|by rewrite Hn].
      * by apply Hnew.
    + assert (p = []) as ->.
      { unfold hot_file in Hh. simpl in Hh. rewrite Hn, Hdir in Hh. simpl in Hh. rewrite andb_true_r in Hh.
        apply negb_false_iff, Z.eqb_eq in Hh. by apply zlen_nil_iff. }
      destruct Hone as [|Hcold]; [done|].
      unfold file_content, is_hot, data_of, cold_of. rewrite HD, lookup_empty, Hdata, Hcold, Hgone; [done| |].
      * apply Hout. intros p' Hp'. congruence.
      * intros [? _]. simpl in *. congruence.
  - eapply content_retained; try done; [by rewrite HD, lookup_empty| |].
    + apply Hret; [|done]. apply Hout. intros p' Hp'. simpl in *. congruence.
    + intros xs x Hxs Hx. destruct (Hsegs i xs x) as (g & Hg & Hg'); [done..|].
      rewrite lookup_fmap in Hg. apply fmap_Some in Hg as (g0 & Hg0 & ->). destruct (Hold _ _ Hg0) as [Hne Hap].
      exists g0. split; [done|]. split; [apply Hg'; congruence|]. intros o l. by apply Hframe.
Qed.

End content_claim.

(** ** Witnesses *)

Lemma demo_keys_apart : keys_apart (St := memoryStore) 4.
Proof. split; vm_compute; discriminate. Qed.

(** After the run the inline file is in an encrypted segment of two-byte chunks. *)
Lemma materialize_preserves_content_witness :
  exists ms, mf_State (returned first_run) = Some ms /\
    file_content (CR := reader (demo_mat small_chunks) first_run.2) ms 3 = Ok [x61; x62].
Proof.
  destruct (materialize_preserves_content (demo_mat small_chunks) (demo_env 7) sample_state 0 empty_world first_run.2
      (returned first_run)) as (ms & Hms & _ & _ & _ & _ & Hall).
  - exact demo_encryption_ok.
  - exact demo_encryption_ok.
  - vm_compute. reflexivity.
  - exact demo_keys_apart.
  - intros id g Hg. change (Segments sample_state) with (∅ : gmap string Segment) in Hg.
    apply lookup_empty_Some in Hg. destruct Hg.
  - intros mf seg stored Hp. vm_compute in Hp. injection Hp as <- <- <-.
    split; [by intros ke [= <-]; apply byte_key_ok| | |]; vm_compute; [split; [reflexivity|discriminate]|discriminate..].
  - vm_compute. reflexivity.
  - exists ms. split; [exact Hms|]. rewrite (Hall 3 (sample_node 3 TypeFile 2)).
    + vm_compute. reflexivity.
    + reflexivity.
    + reflexivity.
    + split; [right; reflexivity|]. intros p Hp. vm_compute in Hp. injection Hp as <-. reflexivity.
Defined.

(** The segment the run has just written. *)
Definition run_segment : Segment :=
  match mf_State (returned first_run) with
  | Some s => default (mkSegment "" "" "" 0 [] None) (Segments s !! segmentIDOf 4)
  | None => mkSegment "" "" "" 0 [] None
  end.

Lemma cache_transparent_witness :
  let '(r, w') := ReadSegmentRange (demo_mat small_chunks) (Some run_segment) 1 1 first_run.2 in
  r = (ReadSegmentRange (demo_mat small_chunks) (Some run_segment) 1 1 (past first_run.2)).1 /\
  coherent (demo_mat small_chunks) (fun g => g = run_segment) w' /\ past w' = past first_run.2.
Proof.
  apply (cache_transparent (demo_mat small_chunks) (fun g => g = run_segment) first_run.2 run_segment 1 1).
  - intros g g' k r r' -> -> E1 E2. rewrite E1 in E2. injection E2 as <-. reflexivity.
  - intros g k r p -> Hw Hp. vm_compute in Hw. injection Hw as <- <-. vm_compute in Hp.
    injection Hp as <-. reflexivity.
  - reflexivity.
Defined.
