(* ===== verification/Policy.v ===== *)
(** * netd: network policies

    netd/pkg/policy: the compiler from the policy of a sandbox (compiler.go) and of the
    platform (platform.go) to matchers, and the evaluation of an egress flow against
    them (eval.go).  The string types of the API (modes, actions, protocols) stay
    strings, since the compiler's switches decide which of them are legal. *)

From stdpp Require Import base gmap strings list fin_maps numbers.
From Stdlib Require Import Ascii.
From S2P Require Import Prelude GoStd GoNet.

Local Open Scope Z_scope.

(** ** The API types (manager/pkg/apis/sandbox0/v1alpha1) *)

Definition NetworkModeAllowAll : string := "allow-all".
Definition NetworkModeBlockAll : string := "block-all".
Definition TrafficRuleActionAllow : string := "allow".
Definition TrafficRuleActionDeny : string := "deny".

Record PortSpec := mkPortSpec { ps_Port : Z; ps_Protocol : string; ps_EndPort : option Z }.

Record TrafficRule := mkTrafficRule {
  tr_Name : string; tr_Action : string; tr_CIDRs : list string; tr_Domains : list string;
  tr_Ports : list PortSpec; tr_AppProtocols : list string
}.

Record EgressCredentialRule := mkCredentialRule {
  cr_Name : string; cr_CredentialRef : string; cr_Rollout : string; cr_Protocol : string;
  cr_TLSMode : string; cr_FailurePolicy : string; cr_Domains : list string; cr_Ports : list PortSpec
}.

Record NetworkEgressPolicy := mkEgressPolicy {
  ne_AllowedCIDRs : list string; ne_AllowedDomains : list string; ne_DeniedCIDRs : list string;
  ne_DeniedDomains : list string; ne_AllowedPorts : list PortSpec; ne_DeniedPorts : list PortSpec;
  ne_TrafficRules : list TrafficRule; ne_CredentialRules : list EgressCredentialRule
}.

Record NetworkPolicySpec := mkPolicySpec {
  sp_SandboxID : string; sp_TeamID : string; sp_Mode : string; sp_Egress : option NetworkEgressPolicy
}.

(** ** Compiled policies *)

Inductive DomainMatchType := DomainMatchExact | DomainMatchSuffix.
Record DomainRule := mkDomainRule { dr_Pattern : string; dr_Type : DomainMatchType }.
Record PortRange := mkPortRange { pr_Protocol : string; pr_Start : Z; pr_End : Z }.

Record CompiledTrafficRule := mkCompiledRule {
  ct_Name : string; ct_Action : string; ct_CIDRs : list IPNet; ct_Ports : list PortRange;
  ct_Domains : list DomainRule; ct_AppProtocols : list string
}.

Record CompiledEgressAuthRule := mkAuthRule {
  ar_Name : string; ar_AuthRef : string; ar_Rollout : string; ar_Protocol : string; ar_TLSMode : string;
  ar_FailurePolicy : string; ar_Domains : list DomainRule; ar_Ports : list PortRange
}.

Record CompiledRuleSet := mkRuleSet {
  rs_AllowedCIDRs : list IPNet; rs_DeniedCIDRs : list IPNet; rs_AllowedPorts : list PortRange;
  rs_DeniedPorts : list PortRange; rs_AllowedDomains : list DomainRule; rs_DeniedDomains : list DomainRule;
  rs_TrafficRules : list CompiledTrafficRule; rs_AuthRules : list CompiledEgressAuthRule
}.
Definition empty_rules : CompiledRuleSet := mkRuleSet [] [] [] [] [] [] [] [].

Record PlatformPolicy := mkPlatform {
  pp_AllowedCIDRs : list IPNet; pp_DeniedCIDRs : list IPNet; pp_AllowedDomains : list DomainRule;
  pp_DeniedDomains : list DomainRule; pp_SandboxPodIPs : gset string; pp_SourcePodIP : string
}.

Record CompiledPolicy := mkCompiled {
  cp_SandboxID : string; cp_TeamID : string; cp_Mode : string; cp_Egress : CompiledRuleSet;
  cp_Platform : option PlatformPolicy
}.

Inductive policy_error :=
  | ErrCIDR (value : string) | ErrPort (port : Z) | ErrEndPort (port : Z) | ErrPortProtocol (p : string)
  | ErrWildcard (value : string) | ErrCredentialRef | ErrRollout (v : string) | ErrAuthProtocol (v : string)
  | ErrTLSMode (v : string) | ErrFailurePolicy (v : string) | ErrAction (v : string) | ErrNoMatcher (name : string)
  | ErrAppProtocol (v : string) | ErrMode (v : string) | ErrMixedRules | ErrIn (what : string) (e : policy_error).

Abbreviation pres := (res policy_error).

(** [if err != nil { return nil, fmt.Errorf("...: %w", err) }] *)
Definition wrap {A} (what : string) (r : pres A) : pres A :=
  match r with Err e => Err (ErrIn what e) | _ => r end.

Section compiler.
Context `{UC : UnicodeCase}.

(** ** compiler.go *)

Definition fold_string (s : string) : string := ToLower (TrimSpace s).

Fixpoint parseCIDRs (values : list string) : pres (list IPNet) :=
  match values with
  | [] => Ok []
  | v :: rest =>
      let v := TrimSpace v in
      if decide (v = "") then parseCIDRs rest else
      match ParseCIDR v with
      | None => Err (ErrCIDR v)
      | Some (_, n) => let? out := parseCIDRs rest in Ok (n :: out)
      end
  end.

Definition parsePort (p : PortSpec) : pres PortRange :=
  if (ps_Port p <=? 0) || (65535 <? ps_Port p) then Err (ErrPort (ps_Port p)) else
  let? end_ := match ps_EndPort p with
               | None => Ok (ps_Port p)
               | Some e => if (e <? ps_Port p) || (65535 <? e) then Err (ErrEndPort e) else Ok e
               end in
  let proto := fold_string (ps_Protocol p) in
  let proto := if decide (proto = "") then "tcp" else proto in
  if decide (proto <> "tcp" /\ proto <> "udp") then Err (ErrPortProtocol (ps_Protocol p)) else
  Ok (mkPortRange proto (ps_Port p) end_).

Fixpoint parsePorts (values : list PortSpec) : pres (list PortRange) :=
  match values with
  | [] => Ok []
  | p :: rest => let? r := parsePort p in let? out := parsePorts rest in Ok (r :: out)
  end.

Fixpoint parseDomains (values : list string) : pres (list DomainRule) :=
  match values with
  | [] => Ok []
  | v :: rest =>
      let v := fold_string v in
      if decide (v = "") then parseDomains rest else
      if HasPrefix v "*." then
        let suffix := TrimPrefix v "*." in
        if decide (suffix = "") then Err (ErrWildcard v) else
        let? out := parseDomains rest in Ok (mkDomainRule suffix DomainMatchSuffix :: out)
      else let? out := parseDomains rest in Ok (mkDomainRule v DomainMatchExact :: out)
  end.

Definition guard_in (v : string) (legal : list string) (e : policy_error) : pres unit :=
  if decide (v ∈ legal) then Ok tt else Err e.

Definition compileEgressAuthRule (v : EgressCredentialRule) : pres CompiledEgressAuthRule :=
  let authRef := TrimSpace (cr_CredentialRef v) in
  if decide (authRef = "") then Err ErrCredentialRef else
  let? domains := wrap "parse auth rule domains" (parseDomains (cr_Domains v)) in
  let? ports := wrap "parse auth rule ports" (parsePorts (cr_Ports v)) in
  let? _ := guard_in (cr_Rollout v) [""; "enabled"; "disabled"] (ErrRollout (cr_Rollout v)) in
  let? _ := guard_in (cr_Protocol v) [""; "http"; "https"; "grpc"; "tls"; "ssh"; "socks5"; "mqtt"; "redis"]
              (ErrAuthProtocol (cr_Protocol v)) in
  let? _ := guard_in (cr_TLSMode v) [""; "passthrough"; "terminate-reoriginate"] (ErrTLSMode (cr_TLSMode v)) in
  let? _ := guard_in (cr_FailurePolicy v) [""; "fail-closed"; "fail-open"] (ErrFailurePolicy (cr_FailurePolicy v)) in
  Ok (mkAuthRule (TrimSpace (cr_Name v)) authRef (cr_Rollout v) (cr_Protocol v) (cr_TLSMode v)
        (cr_FailurePolicy v) domains ports).

Fixpoint compileEgressAuthRules (values : list EgressCredentialRule) : pres (list CompiledEgressAuthRule) :=
  match values with
  | [] => Ok []
  | v :: rest =>
      let? r := compileEgressAuthRule v in let? out := compileEgressAuthRules rest in Ok (r :: out)
  end.

Fixpoint normalizeTrafficRuleAppProtocols (values : list string) : list string :=
  match values with
  | [] => []
  | v :: rest =>
      let proto := fold_string v in
      if decide (proto = "") then normalizeTrafficRuleAppProtocols rest
      else proto :: normalizeTrafficRuleAppProtocols rest
  end.

Definition app_protocols : list string :=
  ["http"; "tls"; "ssh"; "socks5"; "mqtt"; "redis"; "amqp"; "dns"; "mongodb"; "udp"].

Fixpoint validateTrafficRuleAppProtocols (values : list string) : pres unit :=
  match values with
  | [] => Ok tt
  | v :: rest => if decide (v ∈ app_protocols) then validateTrafficRuleAppProtocols rest else Err (ErrAppProtocol v)
  end.

Definition is_nil {A} (l : list A) : bool := match l with [] => true | _ => false end.

Definition compileTrafficRule (v : TrafficRule) : pres CompiledTrafficRule :=
  let? cidrs := wrap "parse traffic rule cidrs" (parseCIDRs (tr_CIDRs v)) in
  let? ports := wrap "parse traffic rule ports" (parsePorts (tr_Ports v)) in
  let? domains := wrap "parse traffic rule domains" (parseDomains (tr_Domains v)) in
  let protos := normalizeTrafficRuleAppProtocols (tr_AppProtocols v) in
  let? _ := guard_in (tr_Action v) [TrafficRuleActionAllow; TrafficRuleActionDeny] (ErrAction (tr_Action v)) in
  if is_nil cidrs && is_nil ports && is_nil domains && is_nil protos then Err (ErrNoMatcher (tr_Name v)) else
  let? _ := wrap "app protocols" (validateTrafficRuleAppProtocols protos) in
  Ok (mkCompiledRule (TrimSpace (tr_Name v)) (tr_Action v) cidrs ports domains protos).

Fixpoint compileTrafficRules (values : list TrafficRule) : pres (list CompiledTrafficRule) :=
  match values with
  | [] => Ok []
  | v :: rest => let? r := compileTrafficRule v in let? out := compileTrafficRules rest in Ok (r :: out)
  end.

Definition compileLegacyAllowRules (cidrs : list string) (ports : list PortSpec) (domains : list string)
    : pres (list CompiledTrafficRule) :=
  if is_nil cidrs && is_nil ports && is_nil domains then Ok [] else
  let? compiledCIDRs := parseCIDRs cidrs in
  let? compiledPorts := parsePorts ports in
  let? compiledDomains := parseDomains domains in
  Ok [mkCompiledRule "legacy-allow" TrafficRuleActionAllow compiledCIDRs compiledPorts compiledDomains []].

Definition compileLegacyDenyRules (cidrs : list string) (ports : list PortSpec) (domains : list string)
    : pres (list CompiledTrafficRule) :=
  let? r1 := if is_nil cidrs then Ok [] else
    let? cs := parseCIDRs cidrs in Ok [mkCompiledRule "legacy-deny-cidrs" TrafficRuleActionDeny cs [] [] []] in
  let? r2 := if is_nil ports then Ok [] else
    let? ps := parsePorts ports in Ok [mkCompiledRule "legacy-deny-ports" TrafficRuleActionDeny [] ps [] []] in
  let? r3 := if is_nil domains then Ok [] else
    let? ds := parseDomains domains in Ok [mkCompiledRule "legacy-deny-domains" TrafficRuleActionDeny [] [] ds []] in
  Ok (r1 ++ r2 ++ r3).

Definition compileLegacyTrafficRules (mode : string) (e : NetworkEgressPolicy) : pres (list CompiledTrafficRule) :=
  if decide (mode = "" \/ mode = NetworkModeAllowAll) then
    compileLegacyDenyRules (ne_DeniedCIDRs e) (ne_DeniedPorts e) (ne_DeniedDomains e)
  else if decide (mode = NetworkModeBlockAll) then
    compileLegacyAllowRules (ne_AllowedCIDRs e) (ne_AllowedPorts e) (ne_AllowedDomains e)
  else Err (ErrMode mode).

Definition hasLegacyTrafficLists (e : NetworkEgressPolicy) : bool :=
  negb (is_nil (ne_AllowedCIDRs e)) || negb (is_nil (ne_AllowedDomains e)) || negb (is_nil (ne_DeniedCIDRs e)) ||
  negb (is_nil (ne_DeniedDomains e)) || negb (is_nil (ne_AllowedPorts e)) || negb (is_nil (ne_DeniedPorts e)).

Definition CompileNetworkPolicy (spec : option NetworkPolicySpec) : pres CompiledPolicy :=
  match spec with
  | None => Ok (mkCompiled "" "" NetworkModeAllowAll empty_rules None)
  | Some spec =>
      let mode := if decide (sp_Mode spec = "") then NetworkModeAllowAll else sp_Mode spec in
      let? egress :=
        match sp_Egress spec with
        | None => Ok empty_rules
        | Some e =>
            if negb (is_nil (ne_TrafficRules e)) && hasLegacyTrafficLists e then Err ErrMixedRules else
            let? rules := wrap "compile egress traffic rules" (compileTrafficRules (ne_TrafficRules e)) in
            let? rules := if is_nil rules then wrap "compile legacy egress rules" (compileLegacyTrafficRules mode e)
                          else Ok rules in
            let? auth := wrap "compile egress auth rules" (compileEgressAuthRules (ne_CredentialRules e)) in
            Ok (mkRuleSet [] [] [] [] [] [] rules auth)
        end in
      Ok (mkCompiled (sp_SandboxID spec) (sp_TeamID spec) mode egress None)
  end.

(** ** platform.go *)

Definition BuildPlatformPolicy (allowedCIDRs deniedCIDRs allowedDomains deniedDomains : list string)
    : pres PlatformPolicy :=
  let? ac := wrap "parse platform allowed cidrs" (parseCIDRs allowedCIDRs) in
  let? dc := wrap "parse platform denied cidrs" (parseCIDRs deniedCIDRs) in
  let? ad := wrap "parse platform allowed domains" (parseDomains allowedDomains) in
  let? dd := wrap "parse platform denied domains" (parseDomains deniedDomains) in
  Ok (mkPlatform ac dc ad dd ∅ "").

End compiler.
