(* ===== verification/PolicyEval.v ===== *)
(** * netd: evaluation of egress flows

    netd/pkg/policy/eval.go, and the decision that the proxy takes on a classified
    flow (netd/pkg/proxy/decision.go). *)

From stdpp Require Import base gmap strings list fin_maps numbers.
From Stdlib Require Import Ascii.
From S2P Require Import Prelude GoStd GoNet Policy.

Local Open Scope Z_scope.

(** [int32(x)] *)
Definition int32_of (x : Z) : Z := (x + 2 ^ 31) mod 2 ^ 32 - 2 ^ 31.

(** ** Matchers *)

Fixpoint matchCIDR_loop (ip : IP) (nets : list IPNet) : bool :=
  match nets with
  | [] => false
  | n :: rest => if Contains n ip then true else matchCIDR_loop ip rest
  end.
Definition matchCIDR (ip : IP) (nets : list IPNet) : bool :=
  if is_nil ip then false else matchCIDR_loop ip nets.

Fixpoint matchPort (port : Z) (protocol : string) (ranges : list PortRange) : bool :=
  match ranges with
  | [] => false
  | r :: rest =>
      if decide (pr_Protocol r <> "" /\ pr_Protocol r <> protocol) then matchPort port protocol rest else
      if (pr_Start r <=? int32_of port) && (int32_of port <=? pr_End r) then true
      else matchPort port protocol rest
  end.

Fixpoint matchDomain (host : string) (rules : list DomainRule) : bool :=
  match rules with
  | [] => false
  | r :: rest =>
      let hit := match dr_Type r with
                 | DomainMatchExact => bool_decide (host = dr_Pattern r)
                 | DomainMatchSuffix => bool_decide (host = dr_Pattern r) || HasSuffix host ("." +:+ dr_Pattern r)
                 end in
      if hit then true else matchDomain host rest
  end.

Fixpoint matchString (value : string) (rules : list string) : bool :=
  match rules with
  | [] => false
  | r :: rest => if decide (value = r) then true else matchString value rest
  end.

Definition isOtherSandboxPod (platform : PlatformPolicy) (destIP : IP) : bool :=
  if is_nil destIP || bool_decide (pp_SandboxPodIPs platform = ∅) then false else
  let dest := IP_String destIP in
  if decide (dest = "") then false else
  if decide (dest = pp_SourcePodIP platform) then false else
  bool_decide (dest ∈ pp_SandboxPodIPs platform).

Definition matchEgressAuthProtocol (ruleProtocol transport classifiedProtocol : string) : bool :=
  if decide (ruleProtocol = "") then true else
  let over_tcp p := bool_decide (transport = "tcp") && bool_decide (classifiedProtocol = p) in
  if decide (ruleProtocol = "http") then over_tcp "http" else
  if decide (ruleProtocol = "https") then over_tcp "tls" else
  if decide (ruleProtocol = "grpc") then
    bool_decide (transport = "tcp") && (bool_decide (classifiedProtocol = "grpc") || bool_decide (classifiedProtocol = "tls"))
  else
  if decide (ruleProtocol = "tls") then over_tcp "tls" else
  if decide (ruleProtocol = "ssh") then over_tcp "ssh" else
  if decide (ruleProtocol = "socks5") then over_tcp "socks5" else
  if decide (ruleProtocol = "mqtt") then over_tcp "mqtt" else
  if decide (ruleProtocol = "redis") then over_tcp "redis" else false.

Section eval.
Context `{UC : UnicodeCase}.

Definition matchTrafficRule (rule : CompiledTrafficRule) (destIP : IP) (destPort : Z)
    (transport host appProtocol : string) : bool :=
  if negb (is_nil (ct_CIDRs rule)) && negb (matchCIDR destIP (ct_CIDRs rule)) then false else
  if negb (is_nil (ct_Ports rule)) && negb (matchPort destPort transport (ct_Ports rule)) then false else
  if negb (is_nil (ct_Domains rule)) &&
     (bool_decide (fold_string host = "") || negb (matchDomain (fold_string host) (ct_Domains rule))) then false else
  if negb (is_nil (ct_AppProtocols rule)) &&
     (bool_decide (appProtocol = "") || negb (matchString appProtocol (ct_AppProtocols rule))) then false else
  true.

Fixpoint evaluateTrafficRules (rules : list CompiledTrafficRule) (mode : string) (destIP : IP) (destPort : Z)
    (transport host appProtocol : string) : bool :=
  match rules with
  | [] => bool_decide (mode = NetworkModeAllowAll)
  | rule :: rest =>
      if negb (matchTrafficRule rule destIP destPort transport host appProtocol)
      then evaluateTrafficRules rest mode destIP destPort transport host appProtocol
      else bool_decide (ct_Action rule = TrafficRuleActionAllow)
  end.

Definition hasExplicitL4AllowList (p : CompiledPolicy) : bool :=
  if negb (is_nil (rs_TrafficRules (cp_Egress p))) then true else
  negb (is_nil (rs_AllowedCIDRs (cp_Egress p))) || negb (is_nil (rs_AllowedPorts (cp_Egress p))).

Definition hasExplicitDomainAllowList (p : CompiledPolicy) : bool :=
  match cp_Platform p with Some pl => negb (is_nil (pp_AllowedDomains pl)) | None => false end ||
  existsb (fun r => bool_decide (ct_Action r = TrafficRuleActionAllow) && negb (is_nil (ct_Domains r)))
    (rs_TrafficRules (cp_Egress p)) ||
  negb (is_nil (rs_AllowedDomains (cp_Egress p))).

(** What the platform decides on an address, if it does. *)
Definition platform_l4 (p : CompiledPolicy) (destIP : IP) : option bool :=
  match cp_Platform p with
  | None => None
  | Some pl =>
      if isOtherSandboxPod pl destIP then Some false else
      if matchCIDR destIP (pp_DeniedCIDRs pl) then Some false else
      if matchCIDR destIP (pp_AllowedCIDRs pl) then Some true else None
  end.

Definition allowEgressDestination (policy : option CompiledPolicy) (destIP : IP) (destPort : Z)
    (transport host appProtocol : string) : bool :=
  match policy with
  | None => true
  | Some p =>
      let transport := fold_string transport in
      let transport := if decide (transport = "") then "tcp" else transport in
      let appProtocol := fold_string appProtocol in
      match platform_l4 p destIP with
      | Some b => b
      | None =>
          let e := cp_Egress p in
          if negb (is_nil (rs_TrafficRules e)) then
            evaluateTrafficRules (rs_TrafficRules e) (cp_Mode p) destIP destPort transport host appProtocol
          else if decide (cp_Mode p = NetworkModeAllowAll) then
            if matchCIDR destIP (rs_DeniedCIDRs e) then false else
            if matchPort destPort transport (rs_DeniedPorts e) then false else true
          else if decide (cp_Mode p = NetworkModeBlockAll) then
            if negb (hasExplicitL4AllowList p) then
              negb (bool_decide (host = "")) && hasExplicitDomainAllowList p
            else if negb (is_nil (rs_AllowedCIDRs e)) && negb (matchCIDR destIP (rs_AllowedCIDRs e)) then false
            else if negb (is_nil (rs_AllowedPorts e)) && negb (matchPort destPort transport (rs_AllowedPorts e)) then false
            else true
          else false
      end
  end.

Definition AllowEgressL4 (policy : option CompiledPolicy) (destIP : IP) (destPort : Z) (protocol : string) : bool :=
  allowEgressDestination policy destIP destPort protocol "" "".

Definition AllowEgressDestination (policy : option CompiledPolicy) (destIP : IP) (destPort : Z)
    (transport host appProtocol : string) : bool :=
  allowEgressDestination policy destIP destPort transport host appProtocol.

(** [true] is pass-through, [false] is deny. *)
Definition UnknownFallbackAction (policy : option CompiledPolicy) : bool :=
  match policy with
  | None => true
  | Some p => negb (bool_decide (cp_Mode p = NetworkModeBlockAll))
  end.

Definition AllowUnknownEgressFallback (policy : option CompiledPolicy) (destIP : IP) (host : string) : bool :=
  match policy with
  | None => true
  | Some p =>
      let host := fold_string host in
      let fallback := UnknownFallbackAction policy in
      match cp_Platform p with
      | None => fallback
      | Some pl =>
          if isOtherSandboxPod pl destIP then false else
          if matchCIDR destIP (pp_DeniedCIDRs pl) then false else
          if negb (bool_decide (host = "")) && matchDomain host (pp_DeniedDomains pl) then false else
          if matchCIDR destIP (pp_AllowedCIDRs pl) then true else
          if negb (bool_decide (host = "")) && matchDomain host (pp_AllowedDomains pl) then true else fallback
      end
  end.

Definition AllowEgressDomain (policy : option CompiledPolicy) (host : string) : bool :=
  match policy with
  | None => true
  | Some p =>
      let host := fold_string host in
      if decide (host = "") then false else
      let user :=
        if negb (is_nil (rs_TrafficRules (cp_Egress p))) then true else
        if decide (cp_Mode p = NetworkModeAllowAll) then negb (matchDomain host (rs_DeniedDomains (cp_Egress p))) else
        if decide (cp_Mode p = NetworkModeBlockAll) then
          if is_nil (rs_AllowedDomains (cp_Egress p)) then false
          else matchDomain host (rs_AllowedDomains (cp_Egress p))
        else false in
      match cp_Platform p with
      | None => user
      | Some pl =>
          if matchDomain host (pp_DeniedDomains pl) then false else
          if matchDomain host (pp_AllowedDomains pl) then true else user
      end
  end.

Definition HasDomainRules (policy : option CompiledPolicy) : bool :=
  match policy with
  | None => false
  | Some p =>
      match cp_Platform p with
      | Some pl => negb (is_nil (pp_AllowedDomains pl)) || negb (is_nil (pp_DeniedDomains pl))
      | None => false
      end ||
      existsb (fun r => negb (is_nil (ct_Domains r))) (rs_TrafficRules (cp_Egress p)) ||
      negb (is_nil (rs_AllowedDomains (cp_Egress p))) || negb (is_nil (rs_DeniedDomains (cp_Egress p)))
  end.

Definition HasTrafficRuleAppProtocol (policy : option CompiledPolicy) (protocol : string) : bool :=
  match policy with
  | None => false
  | Some p =>
      let protocol := fold_string protocol in
      if decide (protocol = "") then false else
      existsb (fun r => matchString protocol (ct_AppProtocols r)) (rs_TrafficRules (cp_Egress p))
  end.

Definition auth_rule_matches (rule : CompiledEgressAuthRule) (transport protocol : string) (destPort : Z)
    (host : string) : bool :=
  if decide (ar_Rollout rule = "disabled") then false else
  if negb (matchEgressAuthProtocol (ar_Protocol rule) transport protocol) then false else
  if negb (is_nil (ar_Ports rule)) && negb (matchPort destPort transport (ar_Ports rule)) then false else
  if negb (is_nil (ar_Domains rule)) && (bool_decide (host = "") || negb (matchDomain host (ar_Domains rule)))
  then false else true.

Fixpoint auth_loop (rules : list CompiledEgressAuthRule) (transport protocol : string) (destPort : Z)
    (host : string) : option CompiledEgressAuthRule :=
  match rules with
  | [] => None
  | rule :: rest =>
      if auth_rule_matches rule transport protocol destPort host then Some rule
      else auth_loop rest transport protocol destPort host
  end.

Definition MatchEgressAuthRule (policy : option CompiledPolicy) (transport protocol : string) (destPort : Z)
    (host : string) : option CompiledEgressAuthRule :=
  match policy with
  | None => None
  | Some p => auth_loop (rs_AuthRules (cp_Egress p)) (fold_string transport) (fold_string protocol) destPort (fold_string host)
  end.

(** ** decision.go *)

Inductive decisionAction := decisionActionDeny | decisionActionPassThrough | decisionActionUseAdapter.

Record trafficClassification := mkClassification {
  tc_Transport : string; tc_Protocol : string; tc_DestIP : IP; tc_DestPort : Z; tc_Host : string;
  tc_UnknownReason : string; tc_Verification : string
}.

Record trafficDecision := mkDecision {
  td_Action : decisionAction; td_Transport : string; td_Protocol : string; td_Reason : string;
  td_ClassifierResult : string; td_NeedsAdapter : bool; td_NeedsEgressAuth : bool;
  td_MatchedAuthRule : option CompiledEgressAuthRule
}.

Definition classifyKnownTraffic (transport protocol : string) (destIP : IP) (destPort : Z) (host : string)
    : trafficClassification := mkClassification transport protocol destIP destPort host "" "".

Definition classifyUnknownTraffic (transport protocol : string) (destIP : IP) (destPort : Z) (reason : string)
    : trafficClassification := mkClassification transport protocol destIP destPort "" reason "".

Definition decideTraffic (compiled : option CompiledPolicy) (c : trafficClassification) : trafficDecision :=
  let known := bool_decide (tc_UnknownReason c = "") in
  let decision action reason := mkDecision action (tc_Transport c) (tc_Protocol c) reason
    (if known then "known" else "unknown") false false None in
  let protoForPolicy := if decide (tc_Transport c = "") then "tcp" else tc_Transport c in
  let allowL4 :=
    if negb (is_nil (tc_DestIP c)) && (0 <? tc_DestPort c) then
      if known then
        AllowEgressDestination compiled (tc_DestIP c) (tc_DestPort c) protoForPolicy (tc_Host c) (tc_Protocol c)
      else AllowEgressL4 compiled (tc_DestIP c) (tc_DestPort c) protoForPolicy
    else true in
  if negb allowL4 then decision decisionActionDeny "l4_denied" else
  if negb known then
    if AllowUnknownEgressFallback compiled (tc_DestIP c) (tc_Host c)
    then decision decisionActionPassThrough (tc_UnknownReason c)
    else decision decisionActionDeny (tc_UnknownReason c)
  else if negb (bool_decide (tc_Host c = "")) && HasDomainRules compiled && negb (AllowEgressDomain compiled (tc_Host c))
  then decision decisionActionDeny "l7_denied"
  else if decide (tc_Verification c <> "") then
    let block := match compiled with
                 | Some p => bool_decide (cp_Mode p = NetworkModeBlockAll) && HasDomainRules compiled
                 | None => false
                 end in
    decision (if block then decisionActionDeny else decisionActionPassThrough) (tc_Verification c)
  else
    let rule := MatchEgressAuthRule compiled (tc_Transport c) (tc_Protocol c) (tc_DestPort c) (tc_Host c) in
    mkDecision decisionActionUseAdapter (tc_Transport c) (tc_Protocol c) "allowed" "known" true
      (match rule with Some _ => true | None => false end) rule.

End eval.
