(* ===== verification/PolicySpec.v ===== *)
(** * netd: what a network policy means

    A specification of policies on their source text (addresses in prefixes, ports in
    ranges, hosts under domains, the first rule that matches decides) and the proof
    that compiling and evaluating implements it, with and without the deprecated
    allow and deny lists; and what the platform's part of a policy guarantees whatever
    the user's part says. *)

From stdpp Require Import base gmap strings list fin_maps numbers.
From Stdlib Require Import Ascii.
From S2P Require Import Prelude GoStd GoNet Policy PolicyEval.

Local Open Scope Z_scope.

Lemma is_nil_true {A} (l : list A) : is_nil l = true <-> l = [].
Proof. by destruct l. Qed.

Lemma unless_iff (b rest : bool) (P Q : Prop) :
  (b = false <-> P) -> (rest = true <-> Q) -> (if b then false else rest) = true <-> P /\ Q.
Proof. intros HP HQ. rewrite <- HP, <- HQ. destruct b; intuition congruence. Qed.

Lemma when_given {A} (l : list A) (c : bool) (G M : Prop) :
  (l <> [] <-> G) -> (c = false <-> M) -> negb (is_nil l) && c = false <-> (G -> M).
Proof. intros HG HM. rewrite <- HG, <- HM. destruct l; simpl; intuition congruence. Qed.

Section spec.
Context `{UC : UnicodeCase}.

(** ** Source-level meaning *)

(** Some entry is not blank. *)
Definition given (values : list string) : Prop := exists v, v ∈ values /\ TrimSpace v <> "".
Definition given_folded (values : list string) : Prop := exists v, v ∈ values /\ fold_string v <> "".

Definition cidr_spec (values : list string) (ip : IP) : Prop :=
  ip <> [] /\ exists v a n, v ∈ values /\ TrimSpace v <> "" /\ ParseCIDR (TrimSpace v) = Some (a, n) /\ Contains n ip = true.

(** An exact name, or "*." and a suffix, which stands for the suffix and all under it. *)
Definition domain_spec (values : list string) (host : string) : Prop :=
  exists v, v ∈ values /\ fold_string v <> "" /\
    ((forall s, fold_string v <> "*." +:+ s) /\ host = fold_string v \/
     exists s, fold_string v = "*." +:+ s /\ (host = s \/ exists l, host = l +:+ "." +:+ s)).

Definition port_protocol (p : PortSpec) : string :=
  if decide (fold_string (ps_Protocol p) = "") then "tcp" else fold_string (ps_Protocol p).
Definition port_spec (values : list PortSpec) (port : Z) (transport : string) : Prop :=
  exists p, p ∈ values /\ port_protocol p = transport /\
    ps_Port p <= int32_of port <= default (ps_Port p) (ps_EndPort p).

Definition proto_spec (values : list string) (proto : string) : Prop := exists v, v ∈ values /\ proto = fold_string v.

(** ** The parsers are correct *)

Lemma parseCIDRs_spec values nets :
  parseCIDRs values = Ok nets ->
  (nets <> [] <-> given values) /\ forall ip, matchCIDR ip nets = true <-> cidr_spec values ip.
Proof.
  revert nets. induction values as [|v values IH]; intros nets; simpl.
  - intros [= <-]. split.
    + split; [done|]. by intros (v & ?%not_elem_of_nil & _).
    + intros ip. unfold matchCIDR. destruct ip; simpl; (split; [done|]); intros [_ (v & a & n & ?%not_elem_of_nil & _)]; done.
  - destruct (decide (TrimSpace v = "")) as [Hv|Hv].
    + intros [H1 H2]%IH. split.
      * rewrite H1. unfold given. set_solver.
      * intros ip. rewrite H2. unfold cidr_spec. set_solver.
    + destruct (ParseCIDR (TrimSpace v)) as [[a n]|] eqn:Hp; [|done].
      destruct (parseCIDRs values) as [out| |] eqn:Ho; simpl; [|done..]. intros [= <-].
      destruct (IH _ eq_refl) as [H1 H2]. split.
      * split; [|done]. intros _. exists v. split; [constructor|done].
      * intros ip. specialize (H2 ip). unfold matchCIDR in *. unfold cidr_spec in *.
        destruct ip as [|b ip]; simpl in *; [by split; [|intros [? _]]|]. destruct (Contains n (b :: ip)) eqn:Hc.
        -- split; [|done]. intros _. split; [done|]. exists v, a, n. split; [constructor|done].
        -- rewrite H2. split.
           ++ intros [? (v' & a' & n' & ? & ?)]. split; [done|]. exists v', a', n'. split; [by constructor|done].
           ++ intros [? (v' & a' & n' & [->|?]%elem_of_cons & ? & ? & ?)]; [congruence|]. split; [done|]. by exists v', a', n'.
Qed.

Lemma parsePort_spec p r :
  parsePort p = Ok r ->
  (1 <= pr_Start r <= pr_End r /\ pr_End r <= 65535 /\ (pr_Protocol r = "tcp" \/ pr_Protocol r = "udp")) /\
  pr_Protocol r = port_protocol p /\ pr_Start r = ps_Port p /\ pr_End r = default (ps_Port p) (ps_EndPort p).
Proof.
  unfold parsePort. fold (port_protocol p). destruct ((ps_Port p <=? 0) || (65535 <? ps_Port p)) eqn:E1; [done|].
  apply orb_false_iff in E1 as [?%Z.leb_gt ?%Z.ltb_ge].
  assert (Hend : forall e, (match ps_EndPort p with
     | Some e => if (e <? ps_Port p) || (65535 <? e) then Err (ErrEndPort e) else Ok e
     | None => Ok (ps_Port p) end : pres Z) = Ok e -> ps_Port p <= e <= 65535 /\ e = default (ps_Port p) (ps_EndPort p)).
  { intros e. destruct (ps_EndPort p) as [e'|]; simpl; [|intros [= <-]; lia].
    destruct ((e' <? ps_Port p) || (65535 <? e')) eqn:E; [done|]. intros [= <-].
    apply orb_false_iff in E as [?%Z.ltb_ge ?%Z.ltb_ge]. lia. }
  destruct (match ps_EndPort p with Some _ => _ | None => _ end) as [e| |]; simpl; [|done..].
  destruct (Hend e eq_refl) as [? ->].
  destruct (decide (port_protocol p <> "tcp" /\ port_protocol p <> "udp")) as [|Hp]; [done|].
  intros [= <-]. simpl. split; [|done]. split; [lia|]. split; [lia|].
  destruct (decide (port_protocol p = "tcp")); [by left|]. right.
  destruct (decide (port_protocol p = "udp")); [done|]. by destruct Hp.
Qed.

Lemma parsePorts_spec values ranges :
  parsePorts values = Ok ranges ->
  (ranges <> [] <-> values <> []) /\
  (forall r, r ∈ ranges -> 1 <= pr_Start r <= pr_End r /\ pr_End r <= 65535 /\ (pr_Protocol r = "tcp" \/ pr_Protocol r = "udp")) /\
  forall port transport, matchPort port transport ranges = true <-> port_spec values port transport.
Proof.
  revert ranges. induction values as [|p values IH]; intros ranges; simpl.
  - intros [= <-]. split_and!; [done|by intros r ?%not_elem_of_nil|]. intros port t. simpl. split; [done|].
    by intros (p & ?%not_elem_of_nil & _).
  - destruct (parsePort p) as [r| |] eqn:Hp; simpl; [|done..].
    destruct (parsePorts values) as [out| |] eqn:Ho; simpl; [|done..]. intros [= <-].
    destruct (IH _ eq_refl) as (_ & H2 & H3). apply parsePort_spec in Hp as (Hr & Hpr & Hs & He).
    split_and!; [done|by intros r' [->|?]%elem_of_cons; auto|]. intros port t. simpl. rewrite Hpr, Hs, He.
    assert (Hne : port_protocol p <> "") by (rewrite <- Hpr; destruct Hr as (_ & _ & [->| ->]); done).
    unfold port_spec. setoid_rewrite elem_of_cons.
    destruct (decide (port_protocol p <> "" /\ port_protocol p <> t)) as [[_ Hd]|Hd].
    + rewrite H3. unfold port_spec. naive_solver.
    + assert (port_protocol p = t) as <- by (destruct (decide (port_protocol p = t)); [done|by destruct Hd]).
      destruct ((ps_Port p <=? int32_of port) && (int32_of port <=? default (ps_Port p) (ps_EndPort p))) eqn:E.
      * apply andb_true_iff in E as [?%Z.leb_le ?%Z.leb_le]. split; [|done]. intros _. exists p. auto.
      * rewrite H3. unfold port_spec. apply andb_false_iff in E. rewrite !Z.leb_gt in E. split; [naive_solver|].
        intros (q & [->|Hq] & ? & ?); [lia|]. by exists q.
Qed.

Lemma parseDomains_spec values rules :
  parseDomains values = Ok rules ->
  (rules <> [] <-> given_folded values) /\
  forall host, matchDomain host rules = true <-> domain_spec values host.
Proof.
  revert rules. induction values as [|v values IH]; intros rules; simpl.
  - intros [= <-]. split; [|intros host; simpl]; (split; [done|]); by intros (v & ?%not_elem_of_nil & _).
  - destruct (decide (fold_string v = "")) as [Hv|Hv].
    + intros [H1 H2]%IH. split.
      * rewrite H1. unfold given_folded. set_solver.
      * intros host. rewrite H2. unfold domain_spec. split; intros (v' & Hin & Hne & Hm); exists v'.
        -- split; [by constructor|done].
        -- apply elem_of_cons in Hin as [->|Hin]; [done|by split].
    + assert (Hcons : forall out, parseDomains values = Ok out -> forall (hit : string -> Prop) (b : string -> bool),
        (forall host, b host = true <-> hit host) ->
        (forall host, hit host <-> (forall s, fold_string v <> "*." +:+ s) /\ host = fold_string v \/
           exists s, fold_string v = "*." +:+ s /\ (host = s \/ exists l, host = l +:+ "." +:+ s)) ->
        given_folded (v :: values) /\
        forall host, (if b host then true else matchDomain host out) = true <-> domain_spec (v :: values) host).
      { intros out Ho hit b Hb Hh. split; [exists v; split; [constructor|done]|]. intros host.
        destruct (IH _ Ho) as [_ H2]. unfold domain_spec. destruct (b host) eqn:Eb.
        - split; [|done]. intros _. exists v. split; [constructor|]. split; [done|]. apply Hh. by apply Hb.
        - rewrite H2. split.
          + intros (v' & ? & ?). exists v'. split; [by constructor|done].
          + intros (v' & [->|Hin]%elem_of_cons & Hne & Hm); [|by exists v'].
            apply Hh, Hb in Hm. congruence. }
      unfold HasPrefix, TrimPrefix. destruct (TrimPrefixOpt "*." (fold_string v)) as [s|] eqn:Ep.
      * apply TrimPrefixOpt_spec in Ep. destruct (decide (s = "")); [done|].
        destruct (parseDomains values) as [out| |] eqn:Ho; simpl; [|done..]. intros [= <-].
        destruct (Hcons out eq_refl (fun host => host = s \/ exists l, host = l +:+ ("." +:+ s))
           (fun host => bool_decide (host = s) || HasSuffix host ("." +:+ s))) as [H1 H2].
        { intros host. by rewrite orb_true_iff, bool_decide_eq_true, HasSuffix_spec. }
        { intros host. split; [intros ?; right; by exists s|]. intros [[Hn _]|(s' & Hs' & Hm)]; [by destruct (Hn s)|].
          apply TrimPrefixOpt_spec in Hs', Ep. assert (s' = s) as -> by congruence. done. }
        split; [done|exact H2].
      * destruct (parseDomains values) as [out| |] eqn:Ho; simpl; [|done..]. intros [= <-].
        assert (Hns : forall s, fold_string v <> "*." +:+ s) by (intros s Hs%TrimPrefixOpt_spec; congruence).
        destruct (Hcons out eq_refl (fun host => host = fold_string v) (fun host => bool_decide (host = fold_string v)))
          as [H1 H2].
        { intros host. by rewrite bool_decide_eq_true. }
        { intros host. split; [by left|]. intros [[_ ?]|(s & Hs & _)]; [done|by destruct (Hns s)]. }
        split; [done|exact H2].
Qed.

Lemma normalize_spec values :
  (normalizeTrafficRuleAppProtocols values <> [] <-> given_folded values) /\
  forall proto, proto <> "" -> matchString proto (normalizeTrafficRuleAppProtocols values) = true <-> proto_spec values proto.
Proof.
  induction values as [|v values [IH1 IH2]]; simpl.
  - split; [|intros proto _]; (split; [done|]); by intros (v & ?%not_elem_of_nil & _).
  - destruct (decide (fold_string v = "")) as [Hv|Hv].
    + split; [rewrite IH1; unfold given_folded; set_solver|]. intros proto Hp. rewrite IH2 by done.
      unfold proto_spec. set_solver.
    + split; [split; [|done]; intros _; exists v; split; [constructor|done]|]. intros proto Hp. simpl.
      specialize (IH2 proto Hp). destruct (decide (proto = fold_string v)) as [->|Hne].
      * split; [|done]. intros _. exists v. split; [constructor|done].
      * rewrite IH2. unfold proto_spec. set_solver.
Qed.

(** ** Rules *)

(** A rule matches a flow when each of its non-blank matchers does. *)
Record rule_matches (cidrs : list string) (ports : list PortSpec) (domains protos : list string)
    (ip : IP) (port : Z) (transport host app : string) : Prop := {
  rm_cidrs : given cidrs -> cidr_spec cidrs ip;
  rm_ports : ports <> [] -> port_spec ports port transport;
  rm_domains : given_folded domains -> fold_string host <> "" /\ domain_spec domains (fold_string host);
  rm_protos : given_folded protos -> app <> "" /\ proto_spec protos app
}.

Lemma matchTrafficRule_spec name action cidrs ports domains protos nets ranges rules ip port transport host app :
  parseCIDRs cidrs = Ok nets -> parsePorts ports = Ok ranges -> parseDomains domains = Ok rules ->
  matchTrafficRule (mkCompiledRule name action nets ranges rules (normalizeTrafficRuleAppProtocols protos))
    ip port transport host app = true <->
  rule_matches cidrs ports domains protos ip port transport host app.
Proof.
  intros [C1 C2]%parseCIDRs_spec (P1 & _ & P2)%parsePorts_spec [D1 D2]%parseDomains_spec.
  destruct (normalize_spec protos) as [N1 N2]. unfold matchTrafficRule. simpl.
  pose proof @unless_iff as Hstep. pose proof @when_given as Hg.
  rewrite (Hstep _ _ (given cidrs -> cidr_spec cidrs ip) _ (Hg _ _ _ _ _ C1 (iff_trans (negb_false_iff _) (C2 ip))) (iff_refl _)).
  rewrite (Hstep _ _ (ports <> [] -> port_spec ports port transport) _
    (Hg _ _ _ _ _ P1 (iff_trans (negb_false_iff _) (P2 port transport))) (iff_refl _)).
  assert (HD : bool_decide (fold_string host = "") || negb (matchDomain (fold_string host) rules) = false <->
    fold_string host <> "" /\ domain_spec domains (fold_string host)).
  { by rewrite orb_false_iff, bool_decide_eq_false, negb_false_iff, D2. }
  assert (HN : bool_decide (app = "") || negb (matchString app (normalizeTrafficRuleAppProtocols protos)) = false <->
    app <> "" /\ proto_spec protos app).
  { rewrite orb_false_iff, bool_decide_eq_false, negb_false_iff. split; intros [Hne Hm]; (split; [done|]); by apply N2. }
  rewrite (Hstep _ _ _ _ (Hg _ _ _ _ _ D1 HD) (iff_refl _)).
  rewrite (Hstep _ true _ True (Hg _ _ _ _ _ N1 HN)) by done.
  split; [intros (? & ? & ? & ? & _); by split|]. intros []. by split_and!.
Qed.

Definition rule_hits (r : TrafficRule) (ip : IP) (port : Z) (transport host app : string) : Prop :=
  rule_matches (tr_CIDRs r) (tr_Ports r) (tr_Domains r) (tr_AppProtocols r) ip port transport host app.

Lemma wrap_ok {A} what (r : pres A) a : wrap what r = Ok a -> r = Ok a.
Proof. by destruct r. Qed.

Lemma compileTrafficRules_spec rules out :
  compileTrafficRules rules = Ok out ->
  Forall2 (fun r c => ct_Action c = tr_Action r /\ forall ip port transport host app,
    matchTrafficRule c ip port transport host app = true <-> rule_hits r ip port transport host app) rules out.
Proof.
  revert out. induction rules as [|r rules IH]; intros out; simpl; [by intros [= <-]|].
  destruct (compileTrafficRule r) as [c| |] eqn:Hc; simpl; [|done..].
  destruct (compileTrafficRules rules) as [out'| |]; simpl; [|done..]. intros [= <-].
  constructor; [|by apply IH]. unfold compileTrafficRule in Hc.
  destruct (wrap _ (parseCIDRs _)) as [nets| |] eqn:H1; simpl in Hc; [|done..].
  destruct (wrap _ (parsePorts _)) as [ranges| |] eqn:H2; simpl in Hc; [|done..].
  destruct (wrap _ (parseDomains _)) as [ds| |] eqn:H3; simpl in Hc; [|done..].
  destruct (guard_in _ _ _) as [[]| |]; simpl in Hc; [|done..].
  destruct (_ && is_nil (normalizeTrafficRuleAppProtocols _)); [done|].
  destruct (wrap _ (validateTrafficRuleAppProtocols _)) as [[]| |]; simpl in Hc; [|done..].
  injection Hc as <-. split; [done|]. intros. by apply matchTrafficRule_spec; eapply wrap_ok.
Qed.

(** The transport a flow is evaluated with. *)
Definition flow_transport (t : string) : string := if decide (fold_string t = "") then "tcp" else fold_string t.

Definition spec_mode (spec : NetworkPolicySpec) : string :=
  if decide (sp_Mode spec = "") then NetworkModeAllowAll else sp_Mode spec.

(** What a compiled policy holds. *)
Lemma Compile_inv spec e p :
  CompileNetworkPolicy (Some spec) = Ok p -> sp_Egress spec = Some e ->
  cp_Platform p = None /\ cp_Mode p = spec_mode spec /\ exists rules auth,
    cp_Egress p = mkRuleSet [] [] [] [] [] [] rules auth /\ compileEgressAuthRules (ne_CredentialRules e) = Ok auth /\
    if is_nil (ne_TrafficRules e) then compileLegacyTrafficRules (spec_mode spec) e = Ok rules
    else compileTrafficRules (ne_TrafficRules e) = Ok rules /\ hasLegacyTrafficLists e = false.
Proof.
  intros Hc He. unfold CompileNetworkPolicy in Hc. fold (spec_mode spec) in Hc. rewrite He in Hc.
  destruct (negb (is_nil (ne_TrafficRules e)) && hasLegacyTrafficLists e) eqn:Hmix; [done|].
  destruct (wrap _ (compileTrafficRules _)) as [rules| |] eqn:H1; simpl in Hc; [|done..]. apply wrap_ok in H1.
  destruct (if is_nil rules then _ else _) as [rules'| |] eqn:H2; simpl in Hc; [|done..].
  destruct (wrap _ (compileEgressAuthRules _)) as [auth| |] eqn:H3; simpl in Hc; [|done..]. apply wrap_ok in H3.
  injection Hc as <-. simpl. split; [done|]. split; [done|]. exists rules', auth. split; [done|]. split; [done|].
  destruct (ne_TrafficRules e) as [|r rs] eqn:Hr; simpl in *.
  - injection H1 as <-. simpl in H2. by apply wrap_ok in H2.
  - pose proof (compileTrafficRules_spec (r :: rs) rules H1) as HF. inversion HF; subst. simpl in H2. by injection H2 as <-.
Qed.

Lemma evaluate_first pre c post mode ip port transport host app :
  (forall q, q ∈ pre -> matchTrafficRule q ip port transport host app = false) ->
  matchTrafficRule c ip port transport host app = true ->
  evaluateTrafficRules (pre ++ c :: post) mode ip port transport host app = bool_decide (ct_Action c = TrafficRuleActionAllow).
Proof.
  induction pre as [|q pre IH]; intros Hpre Hc; simpl; [by rewrite Hc|].
  rewrite (Hpre q) by constructor. simpl. apply IH; [|done]. intros q' Hq'. apply Hpre. by constructor.
Qed.

Lemma evaluate_none rules mode ip port transport host app :
  (forall q, q ∈ rules -> matchTrafficRule q ip port transport host app = false) ->
  evaluateTrafficRules rules mode ip port transport host app = bool_decide (mode = NetworkModeAllowAll).
Proof.
  induction rules as [|q rules IH]; intros Hr; simpl; [done|].
  rewrite (Hr q) by constructor. simpl. apply IH. intros q' Hq'. apply Hr. by constructor.
Qed.

(** C11: traffic rules mean what they say.  For a policy that compiles and has traffic
    rules, a flow to an address is allowed exactly when the first of the rules, in the
    order of the policy, whose non-blank matchers (addresses in prefixes, port ranges
    with their protocol, host names and wildcards, application protocols) all match
    the flow is an allow rule; when none matches, exactly in allow-all mode. *)
Theorem traffic_rules_first_match spec e p ip port transport host app
    (Hc : CompileNetworkPolicy (Some spec) = Ok p) (He : sp_Egress spec = Some e) (Hr : ne_TrafficRules e <> []) :
  let hits q := rule_hits q ip port (flow_transport transport) host (fold_string app) in
  let allowed := AllowEgressDestination (Some p) ip port transport host app in
  (forall pre r post, ne_TrafficRules e = pre ++ r :: post -> (forall q, q ∈ pre -> ~ hits q) -> hits r ->
     allowed = bool_decide (tr_Action r = TrafficRuleActionAllow)) /\
  ((forall q, q ∈ ne_TrafficRules e -> ~ hits q) -> allowed = bool_decide (spec_mode spec = NetworkModeAllowAll)).
Proof.
  intros hits allowed. destruct (Compile_inv _ _ _ Hc He) as (Hpl & Hm & rules & auth & Hrs & _ & Hrules).
  destruct (ne_TrafficRules e) as [|r0 rs] eqn:Hne; [done|]. destruct Hrules as [Hcr _].
  apply compileTrafficRules_spec in Hcr as HF.
  assert (Hall : allowed = evaluateTrafficRules rules (spec_mode spec) ip port (flow_transport transport) host (fold_string app)).
  { unfold allowed, AllowEgressDestination, allowEgressDestination, platform_l4. rewrite Hpl, Hrs, Hm. simpl.
    by inversion HF; subst. }
  assert (Hfalse : forall q c, (forall ip port transport host app,
      matchTrafficRule c ip port transport host app = true <-> rule_hits q ip port transport host app) -> ~ hits q ->
      matchTrafficRule c ip port (flow_transport transport) host (fold_string app) = false).
  { intros q c Hm' Hn. apply not_true_is_false. by rewrite Hm'. }
  rewrite Hall. split.
  - intros pre r post Heq Hpre Hhit. rewrite Heq in HF.
    apply Forall2_app_inv_l in HF as (pre' & rest & HF1 & HF2 & ->). inversion HF2 as [|? c ? post' [Ha Hmc] _]; subst.
    rewrite evaluate_first; [by rewrite Ha| |by apply Hmc]. intros q (i & Hi)%list_elem_of_lookup_1.
    destruct (Forall2_lookup_r _ _ _ _ _ HF1 Hi) as (q0 & Hq0 & _ & Hmq). eapply Hfalse; [exact Hmq|].
    apply Hpre. by eapply list_elem_of_lookup_2.
  - intros Hnone. apply evaluate_none. intros q (i & Hi)%list_elem_of_lookup_1.
    destruct (Forall2_lookup_r _ _ _ _ _ HF Hi) as (q0 & Hq0 & _ & Hmq). eapply Hfalse; [exact Hmq|].
    apply Hnone. by eapply list_elem_of_lookup_2.
Qed.

(** ** The deprecated lists *)

Lemma only_matcher {A} (l : list A) (b : bool) :
  (if negb (is_nil l) && b then false else true) = false <-> l <> [] /\ b = true.
Proof. destruct l, b; simpl; intuition congruence. Qed.

Lemma deny_cidrs cidrs r ip port transport host app :
  (if is_nil cidrs then Ok [] else
     let? cs := parseCIDRs cidrs in Ok [mkCompiledRule "legacy-deny-cidrs" TrafficRuleActionDeny cs [] [] []]) = Ok r ->
  let P := cidrs = [] \/ given cidrs /\ ~ cidr_spec cidrs ip in
  r = [] /\ P \/ exists c, r = [c] /\ ct_Action c = TrafficRuleActionDeny /\
    (matchTrafficRule c ip port transport host app = false <-> P).
Proof.
  destruct (is_nil cidrs) eqn:En; [apply is_nil_true in En as ->; intros [= <-]; left; by split; [|left]|].
  assert (cidrs <> []) by (by intros ->). destruct (parseCIDRs cidrs) as [nets| |] eqn:Hp; simpl; [|done..].
  intros [= <-]. right. eexists. split; [done|]. split; [done|].
  apply parseCIDRs_spec in Hp as [H1 H2]. rewrite <- H1, <- H2. clear H1 H2. unfold matchTrafficRule. simpl.
  rewrite only_matcher, negb_true_iff, not_true_iff_false. tauto.
Qed.

Lemma deny_ports ports r ip port transport host app :
  (if is_nil ports then Ok [] else
     let? ps := parsePorts ports in Ok [mkCompiledRule "legacy-deny-ports" TrafficRuleActionDeny [] ps [] []]) = Ok r ->
  let P := ports = [] \/ ~ port_spec ports port transport in
  r = [] /\ P \/ exists c, r = [c] /\ ct_Action c = TrafficRuleActionDeny /\
    (matchTrafficRule c ip port transport host app = false <-> P).
Proof.
  destruct (is_nil ports) eqn:En; [apply is_nil_true in En as ->; intros [= <-]; left; by split; [|left]|].
  assert (ports <> []) by (by intros ->). destruct (parsePorts ports) as [ranges| |] eqn:Hp; simpl; [|done..].
  intros [= <-]. right. eexists. split; [done|]. split; [done|].
  apply parsePorts_spec in Hp as (H1 & _ & H2). rewrite <- H2. unfold matchTrafficRule. simpl.
  rewrite only_matcher, negb_true_iff, not_true_iff_false, H1. tauto.
Qed.

Lemma deny_domains domains r ip port transport host app :
  (if is_nil domains then Ok [] else
     let? ds := parseDomains domains in Ok [mkCompiledRule "legacy-deny-domains" TrafficRuleActionDeny [] [] ds []]) = Ok r ->
  let P := domains = [] \/ given_folded domains /\ ~ (fold_string host <> "" /\ domain_spec domains (fold_string host)) in
  r = [] /\ P \/ exists c, r = [c] /\ ct_Action c = TrafficRuleActionDeny /\
    (matchTrafficRule c ip port transport host app = false <-> P).
Proof.
  destruct (is_nil domains) eqn:En; [apply is_nil_true in En as ->; intros [= <-]; left; by split; [|left]|].
  assert (domains <> []) by (by intros ->). destruct (parseDomains domains) as [ds| |] eqn:Hp; simpl; [|done..].
  intros [= <-]. right. eexists. split; [done|]. split; [done|].
  apply parseDomains_spec in Hp as [H1 H2]. rewrite <- H1, <- H2. clear H1 H2. unfold matchTrafficRule. simpl.
  rewrite only_matcher, orb_true_iff, negb_true_iff, bool_decide_eq_true, <- not_true_iff_false.
  destruct (decide (fold_string host = "")); tauto.
Qed.

Lemma legacy_deny_spec cidrs ports domains rules mode ip port transport host app :
  compileLegacyDenyRules cidrs ports domains = Ok rules ->
  evaluateTrafficRules rules mode ip port transport host app = true <->
  mode = NetworkModeAllowAll /\
  (cidrs = [] \/ given cidrs /\ ~ cidr_spec cidrs ip) /\
  (ports = [] \/ ~ port_spec ports port transport) /\
  (domains = [] \/ given_folded domains /\ ~ (fold_string host <> "" /\ domain_spec domains (fold_string host))).
Proof.
  unfold compileLegacyDenyRules.
  destruct (if is_nil cidrs then _ else _) as [r1| |] eqn:E1; simpl; [|done..].
  destruct (if is_nil ports then _ else _) as [r2| |] eqn:E2; simpl; [|done..].
  destruct (if is_nil domains then _ else _) as [r3| |] eqn:E3; simpl; [|done..]. intros [= <-].
  assert (Hstep : forall (r rest : list CompiledTrafficRule) (P : Prop),
    (r = [] /\ P \/ exists c, r = [c] /\ ct_Action c = TrafficRuleActionDeny /\
       (matchTrafficRule c ip port transport host app = false <-> P)) ->
    evaluateTrafficRules (r ++ rest) mode ip port transport host app = true <->
    P /\ evaluateTrafficRules rest mode ip port transport host app = true).
  { intros r rest P [[-> HP]|(c & -> & Ha & HP)]; simpl; [tauto|]. rewrite Ha, <- HP.
    destruct (matchTrafficRule c ip port transport host app); simpl; intuition congruence. }
  rewrite (Hstep r1 _ (cidrs = [] \/ given cidrs /\ ~ cidr_spec cidrs ip)), (Hstep r2 _ (ports = [] \/ ~ port_spec ports port transport)).
  - rewrite <- (app_nil_r r3), (Hstep r3 [] (domains = [] \/
      given_folded domains /\ ~ (fold_string host <> "" /\ domain_spec domains (fold_string host)))).
    + simpl. rewrite bool_decide_eq_true. tauto.
    + by eapply deny_domains.
  - by eapply deny_ports.
  - by eapply deny_cidrs.
Qed.

Lemma legacy_allow_spec cidrs ports domains rules mode ip port transport host app :
  compileLegacyAllowRules cidrs ports domains = Ok rules -> ~ (cidrs = [] /\ ports = [] /\ domains = []) ->
  mode <> NetworkModeAllowAll ->
  rules <> [] /\
  (evaluateTrafficRules rules mode ip port transport host app = true <->
   rule_matches cidrs ports domains [] ip port transport host app).
Proof.
  unfold compileLegacyAllowRules. intros Hc Hne Hmode.
  destruct (is_nil cidrs && is_nil ports && is_nil domains) eqn:En.
  { rewrite !andb_true_iff, !is_nil_true in En. tauto. }
  destruct (parseCIDRs cidrs) as [nets| |] eqn:H1; simpl in Hc; [|done..].
  destruct (parsePorts ports) as [ranges| |] eqn:H2; simpl in Hc; [|done..].
  destruct (parseDomains domains) as [ds| |] eqn:H3; simpl in Hc; [|done..]. injection Hc as <-. split; [done|].
  rewrite <- (matchTrafficRule_spec "legacy-allow" TrafficRuleActionAllow cidrs ports domains [] nets ranges ds) by done.
  simpl. destruct (matchTrafficRule _ ip port transport host app); simpl; [done|].
  rewrite bool_decide_eq_true. intuition congruence.
Qed.

(** The deprecated lists mean what the API says of them, blank entries apart.  In
    allow-all mode a flow is allowed exactly when no denied prefix, no denied port and
    no denied domain matches it; in block-all mode exactly when some list is not
    empty and each list that has a non-blank entry matches it.  A list with nothing
    but blank entries denies everything in the first case, and constrains nothing in
    the second. *)
Theorem legacy_lists_spec spec e p ip port transport host app
    (Hc : CompileNetworkPolicy (Some spec) = Ok p) (He : sp_Egress spec = Some e) (Hr : ne_TrafficRules e = []) :
  let allowed := AllowEgressDestination (Some p) ip port transport host app = true in
  let t := flow_transport transport in
  (spec_mode spec = NetworkModeAllowAll /\
   (allowed <-> (ne_DeniedCIDRs e = [] \/ given (ne_DeniedCIDRs e) /\ ~ cidr_spec (ne_DeniedCIDRs e) ip) /\
      (ne_DeniedPorts e = [] \/ ~ port_spec (ne_DeniedPorts e) port t) /\
      (ne_DeniedDomains e = [] \/ given_folded (ne_DeniedDomains e) /\
         ~ (fold_string host <> "" /\ domain_spec (ne_DeniedDomains e) (fold_string host))))) \/
  (spec_mode spec = NetworkModeBlockAll /\
   (allowed <-> ~ (ne_AllowedCIDRs e = [] /\ ne_AllowedPorts e = [] /\ ne_AllowedDomains e = []) /\
      rule_matches (ne_AllowedCIDRs e) (ne_AllowedPorts e) (ne_AllowedDomains e) [] ip port t host (fold_string app))).
Proof.
  intros allowed t. destruct (Compile_inv _ _ _ Hc He) as (Hpl & Hm & rules & auth & Hrs & _ & Hrules).
  rewrite Hr in Hrules. simpl in Hrules. unfold compileLegacyTrafficRules in Hrules.
  unfold allowed, AllowEgressDestination, allowEgressDestination, platform_l4. rewrite Hpl, Hrs, Hm. simpl.
  fold (flow_transport transport). fold t.
  destruct (decide (spec_mode spec = "" \/ spec_mode spec = NetworkModeAllowAll)) as [Hall|Hall].
  - left. assert (Hmode : spec_mode spec = NetworkModeAllowAll).
    { destruct Hall as [E|]; [|done]. unfold spec_mode in E |- *. by destruct (decide (sp_Mode spec = "")). }
    split; [done|]. rewrite Hmode in *.
    pose proof (legacy_deny_spec _ _ _ _ NetworkModeAllowAll ip port t host (fold_string app) Hrules) as Hspec.
    destruct rules as [|r rules]; cbn [is_nil negb]; [|rewrite Hspec; split; [by intros [_ ?]|by intros ?; split]].
    assert (matchCIDR ip [] = false) as -> by (by destruct ip). split; [|done]. intros _. by apply Hspec.
  - destruct (decide (spec_mode spec = NetworkModeBlockAll)) as [Hmode|]; [|done]. right. split; [done|].
    rewrite Hmode in *.
    destruct (is_nil (ne_AllowedCIDRs e) && is_nil (ne_AllowedPorts e) && is_nil (ne_AllowedDomains e)) eqn:En.
    + unfold compileLegacyAllowRules in Hrules. rewrite En in Hrules. injection Hrules as <-. simpl.
      rewrite !andb_true_iff, !is_nil_true in En. unfold hasExplicitL4AllowList, hasExplicitDomainAllowList.
      rewrite Hpl, Hrs. simpl. rewrite andb_false_r. split; [done|].
      intros [Hn _]. destruct Hn. by destruct En as [[? ?] ?].
    + assert (Hne : ~ (ne_AllowedCIDRs e = [] /\ ne_AllowedPorts e = [] /\ ne_AllowedDomains e = [])).
      { rewrite <- !is_nil_true, <- !andb_true_iff, andb_assoc. by rewrite En. }
      destruct (legacy_allow_spec _ _ _ _ NetworkModeBlockAll ip port t host (fold_string app) Hrules Hne) as [Hn Hspec]; [done|].
      destruct rules as [|r rules]; [done|]. cbn [is_nil negb]. rewrite Hspec. split; [done|by intros [_ ?]].
Qed.

(** A blank entry in a deprecated allow list opens a block-all policy.  When every
    allowed prefix and domain is blank, at least one is there, and no port is given,
    the policy compiles to one allow rule without matchers, and every flow to every
    address is allowed, while traffic rules without matchers are rejected. *)
Theorem blank_allow_entry_opens spec e
    (He : sp_Egress spec = Some e) (Hmode : sp_Mode spec = NetworkModeBlockAll)
    (Hr : ne_TrafficRules e = []) (Hcr : ne_CredentialRules e = [])
    (Hblank : forall v, v ∈ ne_AllowedCIDRs e -> TrimSpace v = "")
    (Hblank' : forall v, v ∈ ne_AllowedDomains e -> fold_string v = "")
    (Hports : ne_AllowedPorts e = []) (Hsome : ne_AllowedCIDRs e <> [] \/ ne_AllowedDomains e <> []) :
  exists p, CompileNetworkPolicy (Some spec) = Ok p /\
    forall ip port transport host app, AllowEgressDestination (Some p) ip port transport host app = true.
Proof.
  assert (Hc : forall vs, (forall v, v ∈ vs -> TrimSpace v = "") -> parseCIDRs vs = Ok []).
  { induction vs as [|v vs IH]; intros Hb; simpl; [done|]. rewrite decide_True by (apply Hb; constructor).
    apply IH. intros v' Hv'. apply Hb. by constructor. }
  assert (Hd : forall vs, (forall v, v ∈ vs -> fold_string v = "") -> parseDomains vs = Ok []).
  { induction vs as [|v vs IH]; intros Hb; simpl; [done|]. rewrite decide_True by (apply Hb; constructor).
    apply IH. intros v' Hv'. apply Hb. by constructor. }
  eexists. split.
  - unfold CompileNetworkPolicy. rewrite He, Hmode, Hr, Hcr. simpl.
    unfold compileLegacyTrafficRules. simpl. unfold compileLegacyAllowRules. rewrite Hports, (Hc _ Hblank), (Hd _ Hblank').
    destruct (ne_AllowedCIDRs e), (ne_AllowedDomains e); simpl; [|done..]. by destruct Hsome.
  - done.
Qed.

(** ** What the platform guarantees *)

Lemma denied_by_platform p pl c
    (Hpl : cp_Platform p = Some pl)
    (Hdenied : isOtherSandboxPod pl (tc_DestIP c) = true \/ matchCIDR (tc_DestIP c) (pp_DeniedCIDRs pl) = true \/
       (tc_UnknownReason c = "" /\ fold_string (tc_Host c) <> "" /\ tc_Host c <> "" /\
        matchDomain (fold_string (tc_Host c)) (pp_DeniedDomains pl) = true))
    (Hport : tc_UnknownReason c = "" -> 0 < tc_DestPort c) :
  td_Action (decideTraffic (Some p) c) = decisionActionDeny.
Proof.
  unfold decideTraffic. set (t := if decide (tc_Transport c = "") then _ else _).
  assert (Hip : forall (b : bool), isOtherSandboxPod pl (tc_DestIP c) = true \/ matchCIDR (tc_DestIP c) (pp_DeniedCIDRs pl) = true ->
    is_nil (tc_DestIP c) = false /\ platform_l4 p (tc_DestIP c) = Some false).
  { intros _ Hor. unfold platform_l4. rewrite Hpl. split.
    - unfold isOtherSandboxPod, matchCIDR in Hor. destruct (tc_DestIP c); [by destruct Hor|done].
    - destruct (isOtherSandboxPod _ _); [done|]. destruct Hor as [|Hor]; [done|]. by rewrite Hor. }
  destruct Hdenied as [Hd|[Hd|Hd]].
  3: { destruct Hd as (Hu & Hh & Hne & Hd). rewrite Hu. rewrite bool_decide_eq_true_2 by done. cbn [negb].
       destruct (negb _); [done|]. rewrite bool_decide_eq_false_2 by done. cbn [negb andb].
       assert (HasDomainRules (Some p) = true) as ->.
       { unfold HasDomainRules. rewrite Hpl. destruct (pp_DeniedDomains pl); [done|]. simpl. by rewrite orb_true_r. }
       unfold AllowEgressDomain. rewrite Hpl, decide_False, Hd by done. done. }
  all: destruct (Hip true) as [Hnil Hl4]; [by auto|]; rewrite Hnil; cbn [negb andb];
    unfold AllowEgressDestination, AllowEgressL4, allowEgressDestination; rewrite Hl4;
    destruct (bool_decide_reflect (tc_UnknownReason c = "")) as [Hu|Hu];
    [by rewrite (proj2 (Z.ltb_lt 0 _)) by (by apply Hport)|];
    destruct (0 <? tc_DestPort c); [done|]; cbn [negb]; unfold AllowUnknownEgressFallback; rewrite Hpl;
    destruct (isOtherSandboxPod pl (tc_DestIP c)); [done|]; first [done|by rewrite Hd].
Qed.

(** the user's policy cannot override the platform's.  A flow from a sandbox to
    the pod of another sandbox, or into a prefix the platform denies, is denied
    whatever the user's rules are, classified or not; and a classified flow to a host
    under a domain that the platform denies is denied. *)
Theorem platform_denies p pl c
    (Hpl : cp_Platform p = Some pl)
    (Hdenied : isOtherSandboxPod pl (tc_DestIP c) = true \/ matchCIDR (tc_DestIP c) (pp_DeniedCIDRs pl) = true \/
       (tc_UnknownReason c = "" /\ fold_string (tc_Host c) <> "" /\ tc_Host c <> "" /\
        matchDomain (fold_string (tc_Host c)) (pp_DeniedDomains pl) = true))
    (Hport : tc_UnknownReason c = "" -> 0 < tc_DestPort c) :
  td_Action (decideTraffic (Some p) c) = decisionActionDeny.
Proof. by eapply denied_by_platform. Qed.

(** A policy as the store hands it out, with the platform's part. *)
Definition with_platform (pl : PlatformPolicy) (p : CompiledPolicy) : CompiledPolicy :=
  mkCompiled (cp_SandboxID p) (cp_TeamID p) (cp_Mode p) (cp_Egress p) (Some pl).

(** block-all without rules is closed.  Under a block-all policy without egress
    rules a flow to an address is never let through (neither to an adapter nor passed
    through), unless the platform allows its address, or it is classified and the
    platform allows its host. *)
Theorem block_all_closed spec p pl c
    (Hc : CompileNetworkPolicy (Some spec) = Ok p) (Hmode : sp_Mode spec = NetworkModeBlockAll)
    (He : sp_Egress spec = None) (Hip : tc_DestIP c <> []) (Hport : 0 < tc_DestPort c)
    (Hact : td_Action (decideTraffic (Some (with_platform pl p)) c) <> decisionActionDeny) :
  matchCIDR (tc_DestIP c) (pp_AllowedCIDRs pl) = true \/
  (tc_UnknownReason c = "" /\ matchDomain (fold_string (tc_Host c)) (pp_AllowedDomains pl) = true).
Proof.
  assert (p = mkCompiled (sp_SandboxID spec) (sp_TeamID spec) NetworkModeBlockAll empty_rules None) as ->.
  { unfold CompileNetworkPolicy in Hc. rewrite He, Hmode in Hc. simpl in Hc. by injection Hc as <-. }
  destruct (matchCIDR (tc_DestIP c) (pp_AllowedCIDRs pl)) eqn:Ha; [by left|]. right.
  set (p' := with_platform pl _) in *.
  assert (Hl4 : forall t host app, allowEgressDestination (Some p') (tc_DestIP c) (tc_DestPort c) t host app = true ->
     host <> "" /\ is_nil (pp_AllowedDomains pl) = false).
  { intros t host app. unfold allowEgressDestination, platform_l4. simpl. rewrite Ha.
    destruct (isOtherSandboxPod _ _); [done|]. destruct (matchCIDR _ (pp_DeniedCIDRs pl)); [done|].
    unfold hasExplicitDomainAllowList. simpl. rewrite andb_true_iff, negb_true_iff, bool_decide_eq_false, !orb_false_r.
    intros [? ?]. split; [done|]. by apply negb_true_iff. }
  unfold decideTraffic in Hact. destruct (is_nil (tc_DestIP c)) eqn:En; [by apply is_nil_true in En|].
  rewrite (proj2 (Z.ltb_lt 0 _)) in Hact by done. cbn [negb andb] in Hact.
  destruct (bool_decide_reflect (tc_UnknownReason c = "")) as [Hu|Hu].
  - split; [done|]. destruct (AllowEgressDestination _ _ _ _ _ _) eqn:E4; [|done].
    apply Hl4 in E4 as [Hhost Hdom]. cbn [negb] in Hact. rewrite (bool_decide_eq_false_2 (tc_Host c = "")) in Hact by done.
    assert (HasDomainRules (Some p') = true) as Hd by (unfold HasDomainRules; simpl; by rewrite Hdom).
    rewrite Hd in Hact. cbn [negb andb] in Hact. destruct (AllowEgressDomain (Some p') (tc_Host c)) eqn:Ed; [|done].
    unfold AllowEgressDomain in Ed. simpl in Ed. destruct (decide (fold_string (tc_Host c) = "")); [done|].
    destruct (matchDomain _ (pp_DeniedDomains pl)); [done|]. by destruct (matchDomain _ (pp_AllowedDomains pl)).
  - unfold AllowEgressL4 in Hact. destruct (allowEgressDestination _ _ _ _ "" "") eqn:E4; [|done].
    by apply Hl4 in E4 as [? _].
Qed.

(** An entry of a list of IPv4 prefixes. *)
Definition v4_entry (v : string) (a : IP) (n : Z) : Prop :=
  exists addr mask, cut slash_char (TrimSpace v) = Some (addr, mask) /\ parseIPv4 addr = Some a /\
    ParseAddr addr = Some a /\ dtoi mask = Some n.

(** prefixes match by their leading bits.  When a list of IPv4 prefixes compiles,
    an IPv4 address (as 4 bytes or mapped into 16) matches it exactly when for some
    entry a/n the address and a, as 32-bit numbers, agree on the first n bits. *)
Theorem cidr_prefix_match values nets ip
    (Hc : parseCIDRs values = Ok nets)
    (Hv4 : forall v, v ∈ values -> TrimSpace v <> "" -> exists a n, v4_entry v a n)
    (Hip : To4 ip <> []) (Hb : bytes_ok ip) :
  matchCIDR ip nets = true <->
  exists v a n, v ∈ values /\ TrimSpace v <> "" /\ v4_entry v a n /\
    number (To4 ip) / 2 ^ (32 - n) = number a / 2 ^ (32 - n).
Proof.
  assert (Hall : forall v a net, v ∈ values -> TrimSpace v <> "" -> ParseCIDR (TrimSpace v) = Some (a, net) ->
    Contains net ip = true <-> exists a n, v4_entry v a n /\ number (To4 ip) / 2 ^ (32 - n) = number a / 2 ^ (32 - n)).
  { intros v a net Hv Hne Hp. destruct (Hv4 v Hv Hne) as (a0 & n & addr & mask & H1 & H2 & H3 & H4).
    destruct (Contains_v4 _ _ _ _ _ _ _ _ H1 H2 H3 H4 Hp Hip Hb) as [_ Hiff]. rewrite Hiff. split.
    - intros Heq. exists a0, n. split; [by exists addr, mask|done].
    - intros (a1 & n1 & (addr1 & mask1 & ? & ? & ? & ?) & Heq). simplify_eq. done. }
  assert (Hparse : forall v, v ∈ values -> TrimSpace v <> "" -> exists a net, ParseCIDR (TrimSpace v) = Some (a, net)).
  { clear Hall Hv4. revert nets Hc. induction values as [|v vs IH]; intros nets Hc v' Hv' Hne; [by apply not_elem_of_nil in Hv'|].
    cbn [parseCIDRs] in Hc. apply elem_of_cons in Hv' as [->|Hv'].
    - rewrite decide_False in Hc by done. destruct (ParseCIDR (TrimSpace v)) as [[a net]|]; [eauto|done].
    - destruct (decide (TrimSpace v = "")); [by eapply IH|]. destruct (ParseCIDR (TrimSpace v)) as [[a net]|]; [|done].
      destruct (parseCIDRs vs) as [out| |] eqn:Ho; [|done..]. by eapply IH. }
  destruct (parseCIDRs_spec _ _ Hc) as [_ Hm]. rewrite Hm. unfold cidr_spec. split.
  - intros [_ (v & a & net & Hv & Hne & Hp & Hcon)]. apply (Hall v a net Hv Hne Hp) in Hcon as (a0 & n & He & Heq).
    by exists v, a0, n.
  - intros (v & a & n & Hv & Hne & He & Heq). split; [by intros ->|].
    destruct (Hparse v Hv Hne) as (a' & net & Hp). exists v, a', net. split_and!; try done.
    apply (Hall v a' net Hv Hne Hp). by exists a, n.
Qed.

End spec.

(** ** Witnesses *)

#[export] Instance no_unicode : UnicodeCase := {| unicode_lower := fun s => s |}.

Definition demo_rules : list TrafficRule :=
  [mkTrafficRule "web" "allow" ["10.0.0.0/8"] [] [mkPortSpec 443 "TCP" None] [];
   mkTrafficRule "rest" "deny" [] ["*.Example.com"] [] []].
Definition demo_egress : NetworkEgressPolicy := mkEgressPolicy [] [] [] [] [] [] demo_rules [].
Definition demo_spec : NetworkPolicySpec := mkPolicySpec "sb" "team" "" (Some demo_egress).
Definition compiled_of (spec : NetworkPolicySpec) : CompiledPolicy :=
  match CompileNetworkPolicy (Some spec) with Ok p => p | _ => mkCompiled "" "" "" empty_rules None end.

(** The second rule decides on api.example.com, in a network that allows by default. *)
Lemma traffic_rules_first_match_witness :
  AllowEgressDestination (Some (compiled_of demo_spec)) [10; 1; 2; 3] 80 "tcp" "API.example.com" "http" = false.
Proof.
  assert (Hno : ~ rule_hits (mkTrafficRule "web" "allow" ["10.0.0.0/8"] [] [mkPortSpec 443 "TCP" None] [])
    [10; 1; 2; 3] 80 (flow_transport "tcp") "API.example.com" (fold_string "http")).
  { intros [_ H _ _]. destruct H as (p & Hp & _ & Hr); [discriminate|].
    apply list_elem_of_singleton in Hp as ->. vm_compute in Hr. destruct Hr as [Hr _]. by apply Hr. }
  destruct (traffic_rules_first_match demo_spec demo_egress (compiled_of demo_spec) [10; 1; 2; 3] 80 "tcp"
    "API.example.com" "http") as [H _]; [vm_compute; reflexivity|reflexivity|discriminate|].
  rewrite (H [mkTrafficRule "web" "allow" ["10.0.0.0/8"] [] [mkPortSpec 443 "TCP" None] []]
    (mkTrafficRule "rest" "deny" [] ["*.Example.com"] [] []) []); [vm_compute; reflexivity|reflexivity| |].
  - intros q ->%list_elem_of_singleton. exact Hno.
  - split.
    + intros (v & Hv & _). by apply not_elem_of_nil in Hv.
    + done.
    + intros _. split; [vm_compute; discriminate|]. exists "*.Example.com". split; [constructor|].
      split; [vm_compute; discriminate|]. right. exists "example.com". split; [vm_compute; reflexivity|].
      right. exists "api". vm_compute. reflexivity.
    + intros (v & Hv & _). by apply not_elem_of_nil in Hv.
Defined.

Definition legacy_egress : NetworkEgressPolicy := mkEgressPolicy [] [] [] ["evil.com"] [] [mkPortSpec 22 "" None] [] [].
Definition legacy_spec : NetworkPolicySpec := mkPolicySpec "sb" "team" "allow-all" (Some legacy_egress).

Lemma legacy_lists_spec_witness :
  AllowEgressDestination (Some (compiled_of legacy_spec)) [10; 1; 2; 3] 22 "tcp" "" "" = false.
Proof.
  apply not_true_is_false.
  destruct (legacy_lists_spec legacy_spec legacy_egress (compiled_of legacy_spec) [10; 1; 2; 3] 22 "tcp" "" "")
    as [[_ ->]|[H _]]; [vm_compute; reflexivity|reflexivity|reflexivity| |vm_compute in H; discriminate H].
  intros (_ & Hp & _). destruct Hp as [Hp|Hp]; [discriminate Hp|]. apply Hp.
  exists (mkPortSpec 22 "" None). split; [constructor|]. split; [vm_compute; reflexivity|]. vm_compute. split; discriminate.
Defined.

Definition blank_egress : NetworkEgressPolicy := mkEgressPolicy [] [" "] [] [] [] [] [] [].
Definition blank_spec : NetworkPolicySpec := mkPolicySpec "sb" "team" "block-all" (Some blank_egress).

Lemma blank_allow_entry_opens_witness :
  exists p, CompileNetworkPolicy (Some blank_spec) = Ok p /\
    forall ip port transport host app, AllowEgressDestination (Some p) ip port transport host app = true.
Proof.
  apply (blank_allow_entry_opens blank_spec blank_egress); [reflexivity|reflexivity|reflexivity|reflexivity| | |reflexivity|].
  - intros v Hv. by apply not_elem_of_nil in Hv.
  - intros v ->%list_elem_of_singleton. vm_compute. reflexivity.
  - right. discriminate.
Defined.

Definition net_of (s : string) : IPNet := match ParseCIDR s with Some (_, n) => n | None => mkIPNet [] [] end.
Definition demo_platform : PlatformPolicy :=
  mkPlatform [net_of "10.96.0.10/32"] [net_of "169.254.0.0/16"] [mkDomainRule "manager" DomainMatchExact] []
    {["10.0.0.3"]} "10.0.0.2".
Definition open_policy : CompiledPolicy := mkCompiled "sb" "team" "allow-all" empty_rules (Some demo_platform).

Lemma platform_denies_witness :
  td_Action (decideTraffic (Some open_policy) (classifyKnownTraffic "tcp" "http" [169; 254; 1; 1] 80 "")) = decisionActionDeny.
Proof.
  apply (platform_denies open_policy demo_platform (classifyKnownTraffic "tcp" "http" [169; 254; 1; 1] 80 "")).
  - reflexivity.
  - right. left. vm_compute. reflexivity.
  - intros _. reflexivity.
Defined.

Definition closed_spec : NetworkPolicySpec := mkPolicySpec "sb" "team" "block-all" None.

Lemma block_all_closed_witness :
  matchCIDR [10; 96; 0; 10] (pp_AllowedCIDRs demo_platform) = true \/
  ("" = "" /\ matchDomain (fold_string "") (pp_AllowedDomains demo_platform) = true).
Proof.
  apply (block_all_closed closed_spec (compiled_of closed_spec) demo_platform
    (classifyKnownTraffic "udp" "dns" [10; 96; 0; 10] 53 "")).
  - vm_compute. reflexivity.
  - reflexivity.
  - reflexivity.
  - discriminate.
  - reflexivity.
  - vm_compute. discriminate.
Defined.

Lemma cidr_prefix_match_witness : matchCIDR [10; 9; 8; 7] [net_of "10.8.0.0/13"] = true.
Proof.
  assert (He : v4_entry " 10.8.0.0/13 " [10; 8; 0; 0] 13).
  { exists "10.8.0.0", "13". repeat split; vm_compute; reflexivity. }
  apply (cidr_prefix_match [" 10.8.0.0/13 "; ""] [net_of "10.8.0.0/13"] [10; 9; 8; 7]).
  - vm_compute. reflexivity.
  - intros v [->|Hv]%elem_of_cons Hne; [by exists [10; 8; 0; 0], 13|].
    apply list_elem_of_singleton in Hv as ->. exfalso. apply Hne. vm_compute. reflexivity.
  - vm_compute. discriminate.
  - repeat constructor; discriminate.
  - exists " 10.8.0.0/13 ", [10; 8; 0; 0], 13. split; [constructor|]. split; [vm_compute; discriminate|].
    split; [exact He|]. vm_compute. reflexivity.
Defined.
