(* ===== verification/PolicyStore.v ===== *)
(** * netd: the policy store and the platform policy

    netd/pkg/policy/store.go keeps the compiled policy of every sandbox by name and by
    pod address; netd/pkg/daemon/platform_policy.go follows sandboxes, services and
    endpoints and derives the platform's part, which the store adds to each policy it
    hands out.  The entries that both maps of the store share are never changed after
    they are made, so they are values here.  [rebuild] takes its locks twice, so it is
    two steps: [rebuild_inputs] under the first, [rebuild_commit] under the second. *)

From stdpp Require Import base gmap strings list fin_maps numbers sorting.
From Stdlib Require Import Ascii.
From S2P Require Import Prelude GoStd GoNet Policy PolicyEval PolicySpec.

Local Open Scope Z_scope.

(** ** watcher *)

Record SandboxInfo := mkSandboxInfo {
  si_Namespace : string; si_Name : string; si_PodIP : string; si_NetworkPolicy : string; si_NetworkPolicyHash : string
}.
Record ServiceInfo := mkServiceInfo {
  sv_Namespace : string; sv_Name : string; sv_ClusterIP : string; sv_Labels : gmap string string
}.
Record EndpointsInfo := mkEndpointsInfo { ei_Namespace : string; ei_Name : string; ei_Addresses : list string }.

Definition object_key (namespace name : string) : string := namespace +:+ "/" +:+ name.

(** ** store.go *)

Record policyEntry := mkEntry { pe_compiled : CompiledPolicy; pe_policyHash : string; pe_podIP : string }.

Record PStore := mkStore {
  ps_byIP : gmap string policyEntry; ps_byKey : gmap string policyEntry; ps_platform : option PlatformPolicy
}.
Definition NewStore : PStore := mkStore ∅ ∅ None.

(** [json.Unmarshal] into a policy. *)
Class SpecJson := { unmarshal_spec : string -> option NetworkPolicySpec }.

Definition clonePlatformPolicy (pl : option PlatformPolicy) (sourcePodIP : string) : option PlatformPolicy :=
  match pl with
  | None => None
  | Some pl => Some (mkPlatform (pp_AllowedCIDRs pl) (pp_DeniedCIDRs pl) (pp_AllowedDomains pl) (pp_DeniedDomains pl)
                       (pp_SandboxPodIPs pl) sourcePodIP)
  end.

Definition GetByIP (podIP : string) (s : PStore) : option CompiledPolicy :=
  match ps_byIP s !! podIP with
  | None => None
  | Some e =>
      let c := pe_compiled e in
      Some (mkCompiled (cp_SandboxID c) (cp_TeamID c) (cp_Mode c) (cp_Egress c)
              (clonePlatformPolicy (ps_platform s) podIP))
  end.

Definition DeleteByKey (namespace name : string) (s : PStore) : PStore :=
  let key := object_key namespace name in
  let byIP := match ps_byKey s !! key with
              | Some e => if decide (pe_podIP e = "") then ps_byIP s else delete (pe_podIP e) (ps_byIP s)
              | None => ps_byIP s
              end in
  mkStore byIP (delete key (ps_byKey s)) (ps_platform s).

Definition SetPlatformPolicy (pl : PlatformPolicy) (s : PStore) : PStore :=
  mkStore (ps_byIP s) (ps_byKey s) (Some pl).

Definition AllowedPlatformCIDRs (s : PStore) : list string :=
  match ps_platform s with
  | None => []
  | Some pl => IPNet_String <$> pp_AllowedCIDRs pl
  end.

Section store.
Context `{UC : UnicodeCase} `{SJ : SpecJson}.

(** policy_annotations.go; the outer [None] is an error. *)
Definition ParseNetworkPolicyFromAnnotation (a : string) : option (option NetworkPolicySpec) :=
  if decide (a = "") then Some None else
  match unmarshal_spec a with
  | Some spec => Some (Some spec)
  | None => None
  end.

(** The policy of a sandbox, if its annotation parses and compiles. *)
Definition sandbox_policy (info : SandboxInfo) : option CompiledPolicy :=
  match ParseNetworkPolicyFromAnnotation (si_NetworkPolicy info) with
  | None => None
  | Some spec => match CompileNetworkPolicy spec with Ok c => Some c | _ => None end
  end.

(** The result is whether the policy has changed, and the hash before. *)
Definition UpsertFromSandbox (info : option SandboxInfo) (s : PStore) : (bool * string) * PStore :=
  match info with
  | None => ((false, ""), s)
  | Some info =>
      if decide (si_PodIP info = "") then ((false, ""), s) else
      match sandbox_policy info with
      | None => ((false, ""), s)
      | Some compiled =>
          let key := object_key (si_Namespace info) (si_Name info) in
          let '(changed, prevHash, byIP) :=
            match ps_byKey s !! key with
            | None => (false, "", ps_byIP s)
            | Some old =>
                (negb (bool_decide (pe_policyHash old = si_NetworkPolicyHash info)), pe_policyHash old,
                 if decide (pe_podIP old <> "" /\ pe_podIP old <> si_PodIP info)
                 then delete (pe_podIP old) (ps_byIP s) else ps_byIP s)
            end in
          let entry := mkEntry compiled (si_NetworkPolicyHash info) (si_PodIP info) in
          ((changed, prevHash),
           mkStore (<[si_PodIP info := entry]> byIP) (<[key := entry]> (ps_byKey s)) (ps_platform s))
      end
  end.

End store.

(** ** platform_policy.go *)

Record NetdConfig := mkNetdConfig {
  nc_PlatformAllowedCIDRs : list string; nc_PlatformDeniedCIDRs : list string;
  nc_PlatformAllowedDomains : list string; nc_PlatformDeniedDomains : list string
}.

Record platformPolicyState := mkPlatformState {
  pst_cfg : option NetdConfig;
  pst_store : PStore;
  pst_sandboxes : gmap string SandboxInfo;
  pst_services : gmap string ServiceInfo;
  pst_endpoints : gmap string EndpointsInfo;
  pst_lastHash : string
}.

Definition platformServiceNames : list string := ["cluster-gateway"; "manager"; "storage-proxy"].
Definition clusterDNSServiceNames : list string := ["kube-dns"; "coredns"].

Definition isClusterDNSService (info : ServiceInfo) : bool :=
  bool_decide (sv_Namespace info = "kube-system") && bool_decide (sv_Name info ∈ clusterDNSServiceNames).

Definition isPlatformService (info : ServiceInfo) : bool :=
  if isClusterDNSService info then true else
  if decide (default "" (sv_Labels info !! "app.kubernetes.io/managed-by") <> "sandbox0infra-operator") then false else
  let name := default "" (sv_Labels info !! "app.kubernetes.io/name") in
  existsb (fun p => bool_decide (name = p) || HasSuffix name ("-" +:+ p)) platformServiceNames.

Definition platformServiceDomains (info : ServiceInfo) : list string :=
  let name := TrimSpace (sv_Name info) in
  let namespace := TrimSpace (sv_Namespace info) in
  if decide (name = "" \/ namespace = "") then [] else
  [name; name +:+ "." +:+ namespace; name +:+ "." +:+ namespace +:+ ".svc";
   name +:+ "." +:+ namespace +:+ ".svc.cluster.local"].

(** One entry of [normalizeCIDRInputs]; [None] is an entry that is skipped. *)
Definition normalizeCIDR (value : string) : option string :=
  let value := TrimSpace value in
  if decide (value = "") then None else
  if negb (contains_char slash_char value) then
    match ParseIP value with
    | Some ip => Some (IP_String ip +:+ "/32")
    | None => None
    end
  else match ParseCIDR value with
       | Some (_, n) => Some (IPNet_String n)
       | None => None
       end.

(** The values not seen before, in order. *)
Fixpoint dedup (seen values : list string) : list string :=
  match values with
  | [] => []
  | v :: rest => if decide (v ∈ seen) then dedup seen rest else v :: dedup (v :: seen) rest
  end.

Definition normalizeCIDRInputs (values : list string) : list string := dedup [] (omap normalizeCIDR values).

Section platform.
Context `{UC : UnicodeCase}.

Definition normalizeDomain (value : string) : option string :=
  let value := fold_string value in if decide (value = "") then None else Some value.
Definition normalizeDomainInputs (values : list string) : list string := dedup [] (omap normalizeDomain values).

(** What a service contributes. *)
Definition service_cidrs (endpoints : gmap string EndpointsInfo) (key : string) (svc : ServiceInfo) : list string :=
  (if decide (sv_ClusterIP svc <> "" /\ ToLower (sv_ClusterIP svc) <> "none") then [sv_ClusterIP svc] else []) ++
  match endpoints !! key with Some ep => ei_Addresses ep | None => [] end.

Definition sortStrings (l : list string) : list string := merge_sort String.le l.

(** The inputs of a platform policy. *)
Record platform_inputs := mkInputs {
  pi_podIPs : gset string; pi_services : list string; pi_allowedCIDRs : list string; pi_deniedCIDRs : list string;
  pi_allowedDomains : list string; pi_deniedDomains : list string
}.

(** The first part of [rebuild]: the snapshot of the maps, and what follows from it. *)
Definition rebuild_inputs (s : platformPolicyState) : platform_inputs :=
  let podIPs : gset string :=
    list_to_set (filter (fun ip => ip <> "") ((fun kv => TrimSpace (si_PodIP kv.2)) <$> map_to_list (pst_sandboxes s))) in
  let matched := filter (fun kv => isPlatformService kv.2) (map_to_list (pst_services s)) in
  let allowedCIDRs := mjoin ((fun kv => service_cidrs (pst_endpoints s) kv.1 kv.2) <$> matched) in
  let allowedDomains := mjoin ((fun kv => platformServiceDomains kv.2) <$> matched) in
  let cfg := default (mkNetdConfig [] [] [] []) (pst_cfg s) in
  mkInputs podIPs (sortStrings matched.*1)
    (sortStrings (normalizeCIDRInputs (allowedCIDRs ++ nc_PlatformAllowedCIDRs cfg)))
    (sortStrings (normalizeCIDRInputs (nc_PlatformDeniedCIDRs cfg)))
    (sortStrings (normalizeDomainInputs (allowedDomains ++ nc_PlatformAllowedDomains cfg)))
    (sortStrings (normalizeDomainInputs (nc_PlatformDeniedDomains cfg))).

(** The digest of [hashPlatformPolicyInputs], and the bytes it is fed. *)
Class Digest := { digest : string -> string }.
Definition nul_byte : string := String (ascii_of_nat 0) "".
Definition one_byte : string := String (ascii_of_nat 1) "".
Fixpoint feed_values (values : list string) (rest : string) : string :=
  match values with
  | [] => one_byte +:+ rest
  | v :: values' => v +:+ nul_byte +:+ feed_values values' rest
  end.
Fixpoint hash_feed (parts : list (list string)) : string :=
  match parts with
  | [] => ""
  | values :: parts' => feed_values values (hash_feed parts')
  end.
Definition hashPlatformPolicyInputs `{Digest} (parts : list (list string)) : string := digest (hash_feed parts).

Definition input_parts (i : platform_inputs) : list (list string) :=
  [sortStrings (elements (pi_podIPs i)); pi_services i; pi_allowedCIDRs i; pi_deniedCIDRs i; pi_allowedDomains i;
   pi_deniedDomains i].

Definition build_platform (i : platform_inputs) : pres PlatformPolicy :=
  let? pl := BuildPlatformPolicy (pi_allowedCIDRs i) (pi_deniedCIDRs i) (pi_allowedDomains i) (pi_deniedDomains i) in
  Ok (mkPlatform (pp_AllowedCIDRs pl) (pp_DeniedCIDRs pl) (pp_AllowedDomains pl) (pp_DeniedDomains pl)
        (pi_podIPs i) (pp_SourcePodIP pl)).

(** The second part of [rebuild]. *)
Definition rebuild_commit `{Digest} (i : platform_inputs) (s : platformPolicyState) : platformPolicyState :=
  let nextHash := hashPlatformPolicyInputs (input_parts i) in
  if decide (pst_lastHash s = nextHash) then s else
  let store := match build_platform i with
               | Ok pl => SetPlatformPolicy pl (pst_store s)
               | _ => pst_store s
               end in
  mkPlatformState (pst_cfg s) store (pst_sandboxes s) (pst_services s) (pst_endpoints s) nextHash.

Definition rebuild `{Digest} (s : platformPolicyState) : platformPolicyState := rebuild_commit (rebuild_inputs s) s.

Definition newPlatformPolicyState `{Digest} (cfg : option NetdConfig) (store : PStore) : platformPolicyState :=
  rebuild (mkPlatformState cfg store ∅ ∅ ∅ "").

(** The handlers, up to the call of [rebuild]. *)
Definition set_sandboxes (f : gmap string SandboxInfo -> gmap string SandboxInfo) (s : platformPolicyState) :=
  mkPlatformState (pst_cfg s) (pst_store s) (f (pst_sandboxes s)) (pst_services s) (pst_endpoints s) (pst_lastHash s).
Definition set_services (f : gmap string ServiceInfo -> gmap string ServiceInfo) (s : platformPolicyState) :=
  mkPlatformState (pst_cfg s) (pst_store s) (pst_sandboxes s) (f (pst_services s)) (pst_endpoints s) (pst_lastHash s).
Definition set_endpoints (f : gmap string EndpointsInfo -> gmap string EndpointsInfo) (s : platformPolicyState) :=
  mkPlatformState (pst_cfg s) (pst_store s) (pst_sandboxes s) (pst_services s) (f (pst_endpoints s)) (pst_lastHash s).

Definition sandbox_key (i : SandboxInfo) : string := object_key (si_Namespace i) (si_Name i).
Definition service_key (i : ServiceInfo) : string := object_key (sv_Namespace i) (sv_Name i).
Definition endpoints_key (i : EndpointsInfo) : string := object_key (ei_Namespace i) (ei_Name i).

Definition OnSandboxUpsert `{Digest} (info : SandboxInfo) (s : platformPolicyState) : platformPolicyState :=
  rebuild (set_sandboxes <[sandbox_key info := info]> s).
Definition OnSandboxDelete `{Digest} (info : SandboxInfo) (s : platformPolicyState) : platformPolicyState :=
  rebuild (set_sandboxes (delete (sandbox_key info)) s).
Definition OnServiceUpsert `{Digest} (info : ServiceInfo) (s : platformPolicyState) : platformPolicyState :=
  rebuild (set_services <[service_key info := info]> s).
Definition OnServiceDelete `{Digest} (info : ServiceInfo) (s : platformPolicyState) : platformPolicyState :=
  rebuild (set_services (delete (service_key info)) s).
Definition OnEndpointsUpsert `{Digest} (info : EndpointsInfo) (s : platformPolicyState) : platformPolicyState :=
  rebuild (set_endpoints <[endpoints_key info := info]> s).
Definition OnEndpointsDelete `{Digest} (info : EndpointsInfo) (s : platformPolicyState) : platformPolicyState :=
  rebuild (set_endpoints (delete (endpoints_key info)) s).

End platform.
