(* ===== verification/PolicyGuard.v ===== *)
(** * netd: what the policy store guarantees

    The store hands out, for the address of every sandbox, the policy last compiled for
    it, as long as no two sandboxes hold one address; the platform's part follows the
    watched objects; and together they keep sandboxes apart.  Then the behaviours that
    fall outside of these conditions: addresses that are reused, policies that do not
    parse, rebuilds that overlap, and IPv6 addresses of services. *)

From stdpp Require Import base gmap strings list fin_maps numbers sorting relations.
From Stdlib Require Import Ascii.
From S2P Require Import Prelude GoStd GoNet Policy PolicyEval PolicySpec PolicyStore.

Local Open Scope Z_scope.

Section guard.
Context `{UC : UnicodeCase} `{SJ : SpecJson}.

(** ** The two maps of the store *)

Definition handed_out (s : PStore) (e : policyEntry) : CompiledPolicy :=
  let c := pe_compiled e in
  mkCompiled (cp_SandboxID c) (cp_TeamID c) (cp_Mode c) (cp_Egress c) (clonePlatformPolicy (ps_platform s) (pe_podIP e)).

(** No other sandbox holds the address. *)
Definition address_free (info : SandboxInfo) (s : PStore) : Prop :=
  forall k e, ps_byKey s !! k = Some e -> k <> sandbox_key info -> pe_podIP e <> si_PodIP info.

Inductive store_step : PStore -> PStore -> Prop :=
  | step_upsert info s : address_free info s -> store_step s (UpsertFromSandbox (Some info) s).2
  | step_delete ns name s : store_step s (DeleteByKey ns name s)
  | step_platform pl s : store_step s (SetPlatformPolicy pl s).

Record index_ok (s : PStore) : Prop := {
  io_ip : forall ip e, ps_byIP s !! ip = Some e -> pe_podIP e = ip /\ exists k, ps_byKey s !! k = Some e;
  io_key : forall k e, ps_byKey s !! k = Some e -> pe_podIP e <> "" /\ ps_byIP s !! pe_podIP e = Some e;
  io_one : forall k k' e e', ps_byKey s !! k = Some e -> ps_byKey s !! k' = Some e' -> pe_podIP e = pe_podIP e' -> k = k'
}.

(** The map by address once the sandbox has left its old one. *)
Lemma without_old info s : index_ok s -> si_PodIP info <> "" ->
  let byIP := (match ps_byKey s !! sandbox_key info with
    | None => (false, "", ps_byIP s)
    | Some old => (negb (bool_decide (pe_policyHash old = si_NetworkPolicyHash info)), pe_policyHash old,
         if decide (pe_podIP old <> "" /\ pe_podIP old <> si_PodIP info)
         then delete (pe_podIP old) (ps_byIP s) else ps_byIP s)
    end).2 in
  (forall ip e, byIP !! ip = Some e -> ip <> si_PodIP info ->
     pe_podIP e = ip /\ exists k, k <> sandbox_key info /\ ps_byKey s !! k = Some e) /\
  (forall k e, k <> sandbox_key info -> ps_byKey s !! k = Some e -> byIP !! pe_podIP e = Some e).
Proof.
  intros [Hip Hkey Hone] Hne. simpl. set (key := sandbox_key info).
  destruct (ps_byKey s !! key) as [old|] eqn:Hold; simpl; split.
  - intros ip e Hl Hneq. destruct (Hkey _ _ Hold) as [Hn Ho].
    destruct (decide (pe_podIP old <> "" /\ pe_podIP old <> si_PodIP info)) as [_|Hd].
    + apply lookup_delete_Some in Hl as [Hne' Hl]. destruct (Hip _ _ Hl) as [Hp [k Hk]]. split; [done|].
      exists k. split; [|done]. intros ->. congruence.
    + destruct (Hip _ _ Hl) as [Hp [k Hk]]. split; [done|]. exists k. split; [|done]. intros ->.
      assert (pe_podIP old = si_PodIP info) by (destruct (decide (pe_podIP old = si_PodIP info)); tauto). congruence.
  - intros k e Hk He. destruct (Hkey _ _ He) as [_ Hl]. destruct (decide (_ /\ _)); [|done].
    rewrite lookup_delete_ne; [done|]. intros Heq. apply Hk. by eapply Hone.
  - intros ip e Hl _. destruct (Hip _ _ Hl) as [Hp [k Hk]]. split; [done|]. exists k. split; [congruence|done].
  - intros k e Hk He. by apply Hkey in He as [_ ?].
Qed.

Lemma upsert_index info s : index_ok s -> address_free info s -> index_ok (UpsertFromSandbox (Some info) s).2.
Proof.
  intros Hok Hfree. unfold UpsertFromSandbox. destruct (decide (si_PodIP info = "")) as [|Hne]; [done|].
  destruct (sandbox_policy info) as [c|]; [|done]. fold (sandbox_key info).
  destruct (without_old info s Hok Hne) as [H1 H2]. set (key := sandbox_key info) in *.
  destruct (match ps_byKey s !! key with Some _ => _ | None => _ end) as [[changed prev] byIP]. simpl in H1, H2 |- *.
  destruct Hok as [_ Hkey Hone]. split; simpl.
  - intros ip e Hl. apply lookup_insert_Some in Hl as [[<- <-]|[Hneq Hl]].
    + split; [done|]. exists key. apply lookup_insert_eq.
    + destruct (H1 _ _ Hl) as [Hp (k & Hk & Hke)]; [done|]. split; [done|]. exists k. by rewrite lookup_insert_ne.
  - intros k e Hl. apply lookup_insert_Some in Hl as [[<- <-]|[Hneq Hl]].
    + split; [done|]. apply lookup_insert_eq.
    + destruct (Hkey _ _ Hl) as [Hn _]. split; [done|]. rewrite lookup_insert_ne by (symmetry; by apply (Hfree k)). by apply (H2 k).
  - intros k k' e e' Hk Hk' Heq. apply lookup_insert_Some in Hk as [[<- <-]|[? Hk]];
      apply lookup_insert_Some in Hk' as [[<- <-]|[? Hk']]; simpl in *; [done| | |by eapply Hone].
    + by destruct (Hfree _ _ Hk').
    + by destruct (Hfree _ _ Hk).
Qed.

Lemma delete_index ns name s : index_ok s -> index_ok (DeleteByKey ns name s).
Proof.
  intros [Hip Hkey Hone]. unfold DeleteByKey. set (key := object_key ns name). split; simpl.
  - intros ip e Hl. assert (Hb : ps_byIP s !! ip = Some e).
    { destruct (ps_byKey s !! key); [|done]. destruct (decide _); [done|]. by apply lookup_delete_Some in Hl as [_ ?]. }
    destruct (Hip _ _ Hb) as [Hp [k Hk]]. split; [done|]. exists k. apply lookup_delete_Some. split; [|done].
    intros <-. rewrite Hk in Hl. destruct (Hkey _ _ Hk) as [Hn _]. rewrite decide_False in Hl by done.
    apply lookup_delete_Some in Hl as [? _]. congruence.
  - intros k e Hl. apply lookup_delete_Some in Hl as [Hne Hl]. destruct (Hkey _ _ Hl) as [Hn Hb]. split; [done|].
    destruct (ps_byKey s !! key) as [old|] eqn:Ho; [|done]. destruct (decide _); [done|].
    rewrite lookup_delete_ne; [done|]. intros Heq. apply Hne. by eapply Hone.
  - intros k k' e e' [_ Hk]%lookup_delete_Some [_ Hk']%lookup_delete_Some. by eapply Hone.
Qed.

Lemma steps_index s : rtc store_step NewStore s -> index_ok s.
Proof.
  intros Hr. assert (H : forall s0, rtc store_step s0 s -> index_ok s0 -> index_ok s).
  { clear. intros s0 Hr. induction Hr as [|a b c Hab _ IH]; [done|]. intros Hok. apply IH. destruct Hab.
    - by apply upsert_index.
    - by apply delete_index.
    - by destruct Hok. }
  apply (H NewStore); [done|]. split; simpl.
  - intros ip e E. by apply lookup_empty_Some in E.
  - intros k e E. by apply lookup_empty_Some in E.
  - intros k k' e e' E. by apply lookup_empty_Some in E.
Qed.

(** The policy of an address is the policy of its sandbox.  After any sequence of
    updates, deletions and platform changes in which no sandbox takes an address that
    another one holds, every sandbox in the store gets the policy stored for it (with
    the current platform part) under its address, no address has a policy without a
    sandbox that holds it, and no two sandboxes share one; and an update with a policy
    that compiles stores that policy. *)
Theorem store_follows_sandboxes s (Hr : rtc store_step NewStore s) :
  (forall k e, ps_byKey s !! k = Some e -> GetByIP (pe_podIP e) s = Some (handed_out s e)) /\
  (forall ip p, GetByIP ip s = Some p -> exists k e, ps_byKey s !! k = Some e /\ pe_podIP e = ip /\ p = handed_out s e) /\
  (forall k k' e e', ps_byKey s !! k = Some e -> ps_byKey s !! k' = Some e' -> pe_podIP e = pe_podIP e' -> k = k') /\
  (forall info c, si_PodIP info <> "" -> sandbox_policy info = Some c ->
     ps_byKey (UpsertFromSandbox (Some info) s).2 !! sandbox_key info =
       Some (mkEntry c (si_NetworkPolicyHash info) (si_PodIP info))).
Proof.
  apply steps_index in Hr as [Hip Hkey Hone]. split_and!; [| |done|].
  - intros k e Hk. destruct (Hkey _ _ Hk) as [_ Hb]. unfold GetByIP. by rewrite Hb.
  - intros ip p. unfold GetByIP. destruct (ps_byIP s !! ip) as [e|] eqn:Hb; [|done]. intros [= <-].
    destruct (Hip _ _ Hb) as [<- [k Hk]]. by exists k, e.
  - intros info c Hne Hc. unfold UpsertFromSandbox. rewrite decide_False, Hc by done. fold (sandbox_key info).
    destruct (match ps_byKey s !! sandbox_key info with Some _ => _ | None => _ end) as [[? ?] ?]. simpl.
    apply lookup_insert_eq.
Qed.

(** Without a policy nothing is denied. *)
Lemma no_policy_allows c : td_Action (decideTraffic None c) <> decisionActionDeny.
Proof.
  unfold decideTraffic, AllowEgressDestination, AllowEgressL4, allowEgressDestination.
  destruct (if negb (is_nil (tc_DestIP c)) && (0 <? tc_DestPort c) then _ else _) eqn:E.
  2: { by destruct (negb _ && _), (bool_decide _). }
  simpl. destruct (negb (bool_decide (tc_UnknownReason c = ""))); [done|].
  rewrite andb_false_r. simpl. by destruct (decide (tc_Verification c <> "")).
Qed.

(** a sandbox that gets the address of one that is deleted later loses its policy.
    When a second sandbox is stored under the address of a first one, and the first
    one is deleted after that, the second one is still in the store, but its address
    has no policy any more, so that nothing it sends is denied. *)
Theorem reused_address_loses_policy s a b ca cb
    (Ha : sandbox_policy a = Some ca) (Hb : sandbox_policy b = Some cb)
    (Hip : si_PodIP a <> "") (Hsame : si_PodIP b = si_PodIP a) (Hkeys : sandbox_key a <> sandbox_key b)
    (Hnew : ps_byKey s !! sandbox_key b = None) :
  let s' := DeleteByKey (si_Namespace a) (si_Name a) (UpsertFromSandbox (Some b) (UpsertFromSandbox (Some a) s).2).2 in
  ps_byKey s' !! sandbox_key b = Some (mkEntry cb (si_NetworkPolicyHash b) (si_PodIP b)) /\
  GetByIP (si_PodIP b) s' = None /\
  forall c, td_Action (decideTraffic (GetByIP (si_PodIP b) s') c) <> decisionActionDeny.
Proof.
  assert (H : exists byIP, (UpsertFromSandbox (Some a) s).2 =
    mkStore byIP (<[sandbox_key a := mkEntry ca (si_NetworkPolicyHash a) (si_PodIP a)]> (ps_byKey s)) (ps_platform s)).
  { unfold UpsertFromSandbox. rewrite decide_False, Ha by done. fold (sandbox_key a).
    destruct (match ps_byKey s !! sandbox_key a with Some _ => _ | None => _ end) as [[? ?] ?]. by eexists. }
  destruct H as [byIP ->]. unfold UpsertFromSandbox at 1. rewrite Hsame, decide_False, Hb by done. fold (sandbox_key b). simpl.
  rewrite lookup_insert_ne, Hnew by done. simpl. unfold DeleteByKey. fold (sandbox_key a). simpl.
  rewrite (lookup_insert_ne _ (sandbox_key b) (sandbox_key a)), lookup_insert_eq by done. simpl.
  rewrite decide_False by done.
  assert (Hnone : GetByIP (si_PodIP a) (mkStore (delete (si_PodIP a)
     (<[si_PodIP a := mkEntry cb (si_NetworkPolicyHash b) (si_PodIP a)]> byIP))
     (delete (sandbox_key a) (<[sandbox_key b := mkEntry cb (si_NetworkPolicyHash b) (si_PodIP a)]>
        (<[sandbox_key a := mkEntry ca (si_NetworkPolicyHash a) (si_PodIP a)]> (ps_byKey s)))) (ps_platform s)) = None).
  { unfold GetByIP. simpl. by rewrite lookup_delete_eq. }
  rewrite Hnone. split_and!; [|done|apply no_policy_allows].
  rewrite lookup_delete_ne by done. apply lookup_insert_eq.
Qed.

(** A policy that does not parse or compile restricts nothing.  The update of a
    sandbox with such a policy leaves the store as it was; a sandbox that is new has
    no policy then, and nothing it sends is denied. *)
Theorem invalid_policy_restricts_nothing s info
    (Hbad : sandbox_policy info = None) (Hnew : ps_byIP s !! si_PodIP info = None) :
  (UpsertFromSandbox (Some info) s).2 = s /\
  forall c, td_Action (decideTraffic (GetByIP (si_PodIP info) (UpsertFromSandbox (Some info) s).2) c) <> decisionActionDeny.
Proof.
  assert (Hs : (UpsertFromSandbox (Some info) s).2 = s).
  { unfold UpsertFromSandbox. destruct (decide _); [done|]. by rewrite Hbad. }
  rewrite Hs. split; [done|]. unfold GetByIP. rewrite Hnew. apply no_policy_allows.
Qed.

End guard.

(** ** The platform's part *)

(** What the code relies on of the digest. *)
Class DigestLaws `{Digest} : Prop := {
  dl_inj : forall a b, digest a = digest b -> a = b;
  dl_nonempty : forall a, digest a <> ""
}.

(** Names and addresses without the two bytes that the digest uses as separators. *)
Definition clean_string (s : string) : Prop := str_forallb (fun a => (1 <? code a)%nat) s = true.
Definition clean_parts (parts : list (list string)) : Prop := Forall (Forall clean_string) parts.

Lemma feed_value_inj v v' r r' :
  clean_string v -> clean_string v' -> v +:+ nul_byte +:+ r = v' +:+ nul_byte +:+ r' -> v = v' /\ r = r'.
Proof.
  unfold clean_string. revert v'. induction v as [|a v IH]; intros [|b v']; cbn [str_forallb].
  - intros _ _ E. change (String (ascii_of_nat 0) r = String (ascii_of_nat 0) r') in E. by injection E as <-.
  - intros _ [Hb _]%andb_prop E. change (String (ascii_of_nat 0) r = String b (v' +:+ nul_byte +:+ r')) in E.
    injection E as <- _. done.
  - intros [Ha _]%andb_prop _ E. change (String a (v +:+ nul_byte +:+ r) = String (ascii_of_nat 0) r') in E.
    injection E as -> _. done.
  - intros [_ Hv]%andb_prop [_ Hv']%andb_prop E.
    change (String a (v +:+ nul_byte +:+ r) = String b (v' +:+ nul_byte +:+ r')) in E. injection E as <- E.
    destruct (IH v' Hv Hv' E) as [-> ->]. done.
Qed.

Lemma feed_end v r r' : clean_string v -> v +:+ nul_byte +:+ r <> one_byte +:+ r'.
Proof.
  destruct v as [|a v]; intros Hv E.
  - change (String (ascii_of_nat 0) r = String (ascii_of_nat 1) r') in E. discriminate E.
  - change (String a (v +:+ nul_byte +:+ r) = String (ascii_of_nat 1) r') in E. injection E as -> _. done.
Qed.

Lemma feed_values_inj vs vs' r r' :
  Forall clean_string vs -> Forall clean_string vs' -> feed_values vs r = feed_values vs' r' -> vs = vs' /\ r = r'.
Proof.
  intros Hv. revert vs'. induction Hv as [|v vs Hv Hvs IH]; intros vs' Hv'; destruct Hv' as [|v' vs' Hv' Hvs'];
    cbn [feed_values]; intros E.
  - change (String (ascii_of_nat 1) r = String (ascii_of_nat 1) r') in E. by injection E as <-.
  - by destruct (feed_end v' _ _ Hv' (eq_sym E)).
  - by destruct (feed_end v _ _ Hv E).
  - apply feed_value_inj in E as [-> E]; [|done..]. by destruct (IH _ Hvs' E) as [-> ->].
Qed.

Lemma hash_feed_inj ps ps' :
  length ps = length ps' -> clean_parts ps -> clean_parts ps' -> hash_feed ps = hash_feed ps' -> ps = ps'.
Proof.
  intros Hlen Hp. revert ps' Hlen. induction Hp as [|p ps Hp Hps IH]; intros [|p' ps'] Hlen Hp'; [done..|].
  inversion Hp' as [|? ? Hc' Hps']; subst. injection Hlen as Hlen. cbn [hash_feed].
  intros [-> E]%feed_values_inj; [|done..]. by rewrite (IH ps').
Qed.

Section platform_guard.
Context `{UC : UnicodeCase} `{SJ : SpecJson} `{DG : Digest} `{DL : !DigestLaws}.

Definition clean_inputs (i : platform_inputs) : Prop := clean_parts (input_parts i).

Lemma inputs_from_parts i j : input_parts i = input_parts j -> i = j.
Proof.
  destruct i as [a1 a2 a3 a4 a5 a6], j as [b1 b2 b3 b4 b5 b6]. unfold input_parts. simpl. intros [= E -> -> -> -> ->].
  f_equal. apply set_eq. intros x. rewrite <- !elem_of_elements.
  rewrite <- (merge_sort_Permutation String.le (elements a1)), <- (merge_sort_Permutation String.le (elements b1)).
  unfold sortStrings in E. by rewrite E.
Qed.

Lemma hash_inputs_inj i j :
  clean_inputs i -> clean_inputs j ->
  hashPlatformPolicyInputs (input_parts i) = hashPlatformPolicyInputs (input_parts j) -> i = j.
Proof. intros Hi Hj E%dl_inj%hash_feed_inj; [by apply inputs_from_parts|done..]. Qed.

Definition set_store (f : PStore -> PStore) (s : platformPolicyState) : platformPolicyState :=
  mkPlatformState (pst_cfg s) (f (pst_store s)) (pst_sandboxes s) (pst_services s) (pst_endpoints s) (pst_lastHash s).

(** The changes that the watcher reports, one at a time, and the updates of the
    policies of sandboxes in the same store. *)
Inductive platform_step : platformPolicyState -> platformPolicyState -> Prop :=
  | ps_sandbox_upsert info s : platform_step s (OnSandboxUpsert info s)
  | ps_sandbox_delete info s : platform_step s (OnSandboxDelete info s)
  | ps_service_upsert info s : platform_step s (OnServiceUpsert info s)
  | ps_service_delete info s : platform_step s (OnServiceDelete info s)
  | ps_endpoints_upsert info s : platform_step s (OnEndpointsUpsert info s)
  | ps_endpoints_delete info s : platform_step s (OnEndpointsDelete info s)
  | ps_policy_upsert info s : platform_step s (set_store (fun st => (UpsertFromSandbox info st).2) s)
  | ps_policy_delete ns name s : platform_step s (set_store (DeleteByKey ns name) s).

(** A step into a state whose names and addresses have no separators. *)
Definition clean_step (s s' : platformPolicyState) : Prop := platform_step s s' /\ clean_inputs (rebuild_inputs s').

(** The store has the platform policy of the inputs whose digest was taken last. *)
Definition tracks (s : platformPolicyState) (i : platform_inputs) : Prop :=
  pst_lastHash s = hashPlatformPolicyInputs (input_parts i) /\ clean_inputs i /\
  forall pl, build_platform i = Ok pl -> ps_platform (pst_store s) = Some pl.

Lemma rebuild_tracks s i :
  clean_inputs (rebuild_inputs s) -> tracks s i \/ pst_lastHash s = "" -> tracks (rebuild s) (rebuild_inputs s).
Proof.
  intros Hc Ht. unfold rebuild, rebuild_commit.
  destruct (decide (pst_lastHash s = hashPlatformPolicyInputs (input_parts (rebuild_inputs s)))) as [E|E].
  - destruct Ht as [(Hh & Hi & Hb)|Hh].
    + rewrite Hh in E. apply hash_inputs_inj in E; [|done..]. by subst i.
    + rewrite Hh in E. by destruct (dl_nonempty (hash_feed (input_parts (rebuild_inputs s)))).
  - split; [done|]. split; [done|]. intros pl Hpl. simpl. by rewrite Hpl.
Qed.

Lemma rebuild_same_inputs s : rebuild_inputs (rebuild s) = rebuild_inputs s.
Proof. unfold rebuild, rebuild_commit. by destruct (decide _). Qed.

Lemma upsert_platform info s : ps_platform (UpsertFromSandbox info s).2 = ps_platform s.
Proof.
  unfold UpsertFromSandbox. destruct info as [info|]; [|done]. destruct (decide _); [done|].
  destruct (sandbox_policy info); [|done]. by destruct (match ps_byKey s !! _ with Some _ => _ | None => _ end) as [[? ?] ?].
Qed.

Lemma step_tracks s s' :
  clean_step s s' -> tracks s (rebuild_inputs s) -> tracks s' (rebuild_inputs s').
Proof.
  intros [Hs Hc] Ht.
  assert (Hre : forall s1, pst_lastHash s1 = pst_lastHash s -> pst_store s1 = pst_store s ->
     clean_inputs (rebuild_inputs (rebuild s1)) -> tracks (rebuild s1) (rebuild_inputs (rebuild s1))).
  { intros s1 Hh Hst Hc1. rewrite rebuild_same_inputs in *. apply (rebuild_tracks s1 (rebuild_inputs s)); [done|].
    left. destruct Ht as (Ht1 & Ht2 & Ht3). split; [congruence|]. split; [done|]. by rewrite Hst. }
  destruct Hs; try (by apply Hre); (destruct Ht as (Ht1 & Ht2 & Ht3); split; [done|]; split; [done|]); simpl.
  - intros pl. rewrite upsert_platform. apply Ht3.
  - exact Ht3.
Qed.

Lemma reach_tracks cfg store s :
  clean_inputs (rebuild_inputs (newPlatformPolicyState cfg store)) ->
  rtc clean_step (newPlatformPolicyState cfg store) s -> tracks s (rebuild_inputs s).
Proof.
  intros Hc Hr. assert (H0 : tracks (newPlatformPolicyState cfg store) (rebuild_inputs (newPlatformPolicyState cfg store))).
  { unfold newPlatformPolicyState in *. set (s0 := mkPlatformState _ _ _ _ _ _) in *. rewrite rebuild_same_inputs in *.
    apply (rebuild_tracks s0 (rebuild_inputs s0)); [done|by right]. }
  revert H0. clear Hc. revert Hr. generalize (newPlatformPolicyState cfg store). intros s0 Hr.
  induction Hr as [|a b c Hab _ IH]; [done|]. intros Ha. apply IH. by eapply step_tracks.
Qed.

(** The platform policy is current.  After any sequence of changes of sandboxes,
    services and endpoints, handled one at a time, and of updates of policies, the
    platform policy in the store is the one built from the objects that are then
    known, if they build one, even though a rebuild whose inputs have the digest of
    the last one is skipped. *)
Theorem platform_policy_current cfg store s pl
    (Hc : clean_inputs (rebuild_inputs (newPlatformPolicyState cfg store)))
    (Hr : rtc clean_step (newPlatformPolicyState cfg store) s)
    (Hb : build_platform (rebuild_inputs s) = Ok pl) :
  ps_platform (pst_store s) = Some pl.
Proof. by apply (reach_tracks _ _ _ Hc Hr). Qed.

Lemma build_pod_ips i pl : build_platform i = Ok pl -> pp_SandboxPodIPs pl = pi_podIPs i.
Proof. unfold build_platform. destruct (BuildPlatformPolicy _ _ _ _); simpl; [|done..]. by intros [= <-]. Qed.

Lemma pod_ip_listed s k info :
  pst_sandboxes s !! k = Some info -> TrimSpace (si_PodIP info) <> "" -> TrimSpace (si_PodIP info) ∈ pi_podIPs (rebuild_inputs s).
Proof.
  intros Hk Hne. unfold rebuild_inputs. simpl. apply elem_of_list_to_set, list_elem_of_filter. split; [done|].
  apply list_elem_of_fmap. exists (k, info). split; [done|]. by apply elem_of_map_to_list.
Qed.


Lemma commit_installs i s pl :
  pst_lastHash s <> hashPlatformPolicyInputs (input_parts i) -> build_platform i = Ok pl ->
  ps_platform (pst_store (rebuild_commit i s)) = Some pl /\
  pst_lastHash (rebuild_commit i s) = hashPlatformPolicyInputs (input_parts i) /\
  pst_sandboxes (rebuild_commit i s) = pst_sandboxes s.
Proof. intros Hh Hb. unfold rebuild_commit. rewrite decide_False by done. simpl. by rewrite Hb. Qed.

(** overlapping rebuilds can install an old platform policy.  [rebuild] takes its
    snapshot under one lock and installs the result later: when a rebuild that saw the
    objects before a sandbox was added is the last one to install, the platform policy
    that stays in the store does not list that sandbox, although it is known. *)
Theorem overlapping_rebuilds_stale s info pl pl'
    (Ht : tracks s (rebuild_inputs s))
    (Hnew : TrimSpace (si_PodIP info) ∉ pi_podIPs (rebuild_inputs s)) (Hne : TrimSpace (si_PodIP info) <> "")
    (Hb : build_platform (rebuild_inputs s) = Ok pl)
    (Hb' : build_platform (rebuild_inputs (set_sandboxes <[sandbox_key info := info]> s)) = Ok pl')
    (Hc' : clean_inputs (rebuild_inputs (set_sandboxes <[sandbox_key info := info]> s))) :
  let s1 := set_sandboxes <[sandbox_key info := info]> s in
  let s2 := rebuild_commit (rebuild_inputs s) (rebuild_commit (rebuild_inputs s1) s1) in
  pst_sandboxes s2 !! sandbox_key info = Some info /\ ps_platform (pst_store s2) = Some pl /\
  TrimSpace (si_PodIP info) ∉ pp_SandboxPodIPs pl.
Proof.
  intros s1 s2. assert (Hin : TrimSpace (si_PodIP info) ∈ pi_podIPs (rebuild_inputs s1)).
  { apply (pod_ip_listed _ (sandbox_key info)); [apply lookup_insert_eq|done]. }
  assert (Hd : rebuild_inputs s1 <> rebuild_inputs s) by (intros E; by rewrite E in Hin).
  destruct Ht as (Hh & Hc & _).
  assert (Hh1 : hashPlatformPolicyInputs (input_parts (rebuild_inputs s)) <> hashPlatformPolicyInputs (input_parts (rebuild_inputs s1))).
  { intros E%hash_inputs_inj; [|done..]. congruence. }
  destruct (commit_installs (rebuild_inputs s1) s1 pl') as (_ & H1 & H2); [by simpl; rewrite Hh|done|].
  destruct (commit_installs (rebuild_inputs s) (rebuild_commit (rebuild_inputs s1) s1) pl) as (H3 & _ & H4);
    [by rewrite H1|done|].
  unfold s2. rewrite H3, H4, H2. split_and!; [apply lookup_insert_eq|done|]. by rewrite (build_pod_ips _ _ Hb).
Qed.

End platform_guard.

Definition service_net : IPNet := mkIPNet ([253; 0; 0; 16] ++ replicate 12 0) (replicate 4 255 ++ replicate 12 0).

Lemma service_net_contains rest : length rest = 12%nat -> Contains service_net ([253; 0; 0; 16] ++ rest) = true.
Proof.
  intros Hlen. do 12 (destruct rest as [|? rest]; [done|]). destruct rest; [|done].
  unfold Contains. set (ip := _ ++ _).
  assert (To4 ip = []) as -> by (unfold To4, ip; rewrite (bool_decide_eq_false_2 (take _ _ = _)) by done; done).
  rewrite decide_True by done.
  assert (networkNumberAndMask service_net = Some (in_IP service_net, in_Mask service_net)) as -> by (vm_compute; reflexivity).
  apply andb_true_iff. split; [done|]. apply bool_decide_eq_true_2. unfold ip, and_bytes. simpl. by rewrite !Z.land_0_r.
Qed.

(** The address of an IPv6 service opens a whole /32.  An address without a prefix
    length is given the length 32, which is one address in IPv4 only: a platform
    policy with the service address fd00:10::1 allows every address that starts with
    fd00:0010, under every user policy. *)
Theorem ipv6_service_opens_prefix `{UnicodeCase} (rest : list Z) (Hlen : length rest = 12%nat) :
  exists pl, BuildPlatformPolicy (normalizeCIDRInputs ["fd00:10::1"]) [] [] [] = Ok pl /\
    forall p port transport host app, cp_Platform p = Some pl ->
      AllowEgressDestination (Some p) ([253; 0; 0; 16] ++ rest) port transport host app = true.
Proof.
  exists (mkPlatform [service_net] [] [] [] ∅ ""). split; [vm_compute; reflexivity|].
  intros p port transport host app Hp.
  unfold AllowEgressDestination, allowEgressDestination, platform_l4, isOtherSandboxPod, matchCIDR. rewrite Hp.
  cbn [pp_SandboxPodIPs pp_DeniedCIDRs pp_AllowedCIDRs is_nil List.app orb matchCIDR_loop].
  pose proof (service_net_contains rest Hlen) as Hn. cbn [List.app] in Hn. rewrite bool_decide_eq_true_2, Hn by done. done.
Qed.

(** ** Witnesses *)

#[export] Instance two_policies : SpecJson :=
  {| unmarshal_spec := fun s => if decide (s = "open") then Some legacy_spec
                                else if decide (s = "closed") then Some closed_spec else None |}.
#[export] Instance plain_digest : Digest := {| digest := fun s => "h" +:+ s |}.
#[export] Instance plain_digest_laws : DigestLaws.
Proof.
  split; [|done]. intros a b E. change (String "h" a = String "h" b) in E. by injection E.
Qed.

Definition sandbox_a : SandboxInfo := mkSandboxInfo "ns" "a" "10.0.0.2" "open" "h1".
Definition sandbox_b : SandboxInfo := mkSandboxInfo "ns" "b" "10.0.0.3" "closed" "h2".
Definition sandbox_c : SandboxInfo := mkSandboxInfo "ns" "c" "10.0.0.2" "closed" "h3".
Definition sandbox_bad : SandboxInfo := mkSandboxInfo "ns" "d" "10.0.0.4" "{" "h4".

Definition store_a : PStore := (UpsertFromSandbox (Some sandbox_a) NewStore).2.

Definition entry_a : policyEntry := mkEntry (compiled_of legacy_spec) "h1" "10.0.0.2".

Lemma store_follows_sandboxes_witness :
  exists e, ps_byKey store_a !! "ns/a" = Some e /\ GetByIP "10.0.0.2" store_a = Some (handed_out store_a e).
Proof.
  assert (He : ps_byKey store_a !! "ns/a" = Some entry_a) by (vm_compute; reflexivity).
  exists entry_a. split; [exact He|].
  assert (Hr : rtc store_step NewStore store_a).
  { apply rtc_once. apply (step_upsert sandbox_a NewStore). intros k e E. destruct (lookup_empty_Some k e E). }
  destruct (store_follows_sandboxes store_a Hr) as [H _]. exact (H "ns/a" entry_a He).
Defined.

Lemma reused_address_loses_policy_witness :
  GetByIP "10.0.0.2" (DeleteByKey "ns" "a" (UpsertFromSandbox (Some sandbox_c) store_a).2) = None.
Proof.
  apply (reused_address_loses_policy NewStore sandbox_a sandbox_c (compiled_of legacy_spec) (compiled_of closed_spec)).
  - vm_compute. reflexivity.
  - vm_compute. reflexivity.
  - discriminate.
  - reflexivity.
  - vm_compute. discriminate.
  - reflexivity.
Defined.

Lemma invalid_policy_restricts_nothing_witness : (UpsertFromSandbox (Some sandbox_bad) store_a).2 = store_a.
Proof.
  apply (invalid_policy_restricts_nothing store_a sandbox_bad).
  - vm_compute. reflexivity.
  - vm_compute. reflexivity.
Defined.

Definition demo_config : option NetdConfig := Some (mkNetdConfig ["10.96.0.0/16"] [] ["*.svc"] []).
Definition fresh_state : platformPolicyState := newPlatformPolicyState demo_config store_a.
Definition with_b : platformPolicyState := OnSandboxUpsert sandbox_b fresh_state.

Lemma clean_dec i : forallb (fun vs => forallb (str_forallb (fun a => (1 <? code a)%nat)) vs) (input_parts i) = true -> clean_inputs i.
Proof.
  intros H. unfold clean_inputs, clean_parts. rewrite forallb_forall in H. apply Forall_forall. intros vs Hvs.
  apply Forall_forall. intros v Hv. apply list_elem_of_In in Hvs, Hv. specialize (H vs Hvs).
  rewrite forallb_forall in H. exact (H v Hv).
Qed.

Lemma fresh_clean : clean_inputs (rebuild_inputs fresh_state).
Proof. apply clean_dec. vm_compute. reflexivity. Qed.
Lemma with_b_step : rtc clean_step fresh_state with_b.
Proof.
  apply rtc_once. split; [apply ps_sandbox_upsert|]. apply clean_dec. vm_compute. reflexivity.
Qed.

Definition built (s : platformPolicyState) : PlatformPolicy :=
  match build_platform (rebuild_inputs s) with Ok pl => pl | _ => demo_platform end.

Lemma platform_policy_current_witness : ps_platform (pst_store with_b) = Some (built with_b).
Proof.
  apply (platform_policy_current demo_config store_a with_b (built with_b)).
  - exact fresh_clean.
  - exact with_b_step.
  - vm_compute. reflexivity.
Defined.

Definition a_policy : CompiledPolicy :=
  match GetByIP "10.0.0.2" (pst_store with_b) with Some p => p | None => open_policy end.


Lemma overlapping_rebuilds_stale_witness :
  let s1 := set_sandboxes <[sandbox_key sandbox_b := sandbox_b]> fresh_state in
  let s2 := rebuild_commit (rebuild_inputs fresh_state) (rebuild_commit (rebuild_inputs s1) s1) in
  pst_sandboxes s2 !! "ns/b" = Some sandbox_b /\ ps_platform (pst_store s2) = Some (built fresh_state) /\
  TrimSpace (si_PodIP sandbox_b) ∉ pp_SandboxPodIPs (built fresh_state).
Proof.
  apply (overlapping_rebuilds_stale fresh_state sandbox_b (built fresh_state) (built with_b)).
  - apply (reach_tracks demo_config store_a); [exact fresh_clean|apply rtc_refl].
  - vm_compute. intros H. inversion H.
  - vm_compute. discriminate.
  - vm_compute. reflexivity.
  - vm_compute. reflexivity.
  - apply clean_dec. vm_compute. reflexivity.
Defined.

Lemma ipv6_service_opens_prefix_witness :
  exists pl, BuildPlatformPolicy (normalizeCIDRInputs ["fd00:10::1"]) [] [] [] = Ok pl /\
    forall p port transport host app, cp_Platform p = Some pl ->
      AllowEgressDestination (Some p) ([253; 0; 0; 16] ++ replicate 12 9) port transport host app = true.
Proof. apply (ipv6_service_opens_prefix (replicate 12 9)). reflexivity. Defined.
