(* ===== verification/Volume.v ===== *)
(** * storage-proxy: mounted volumes, their handles and their sessions (storage-proxy/pkg/volume)

    access_mode.go, backend.go, root_posix_identity.go and manager.go.  A
    [VolumeContext] is what a mount keeps in memory: the engine with its files and
    the tables of open handles.  The [Manager] keeps the mounted volumes, the mount
    sessions, the shared direct sessions of the HTTP file API and the trackers of
    invalidations.

    The storage backends and the registrar of mounts are interfaces of the code and
    classes here.  [m.mu] is not modelled: every critical section is one step.
    [AcquireDirectVolumeFileMount] and the cleanups release the lock in between and
    are therefore several steps, which other steps may come between.  The errors are
    the texts that [fmt.Errorf] makes, because callers look into the text. *)

From stdpp Require Import base gmap strings list fin_maps numbers sorting.
From Stdlib Require Import Strings.Byte Strings.Ascii.
From S2P Require Import Prelude GoStd S0fsTypes S0fsCore S0fsEngine.

Local Open Scope Z_scope.

(** ** access_mode.go *)

Definition AccessModeRWO : string := "RWO".
Definition AccessModeROX : string := "ROX".
Definition AccessModeRWX : string := "RWX".

Definition OwnerKindStorageProxy : string := "storage-proxy".
Definition OwnerKindCtld : string := "ctld".

Record MountOptions := mkMountOptions {
  mo_AccessMode : string;
  mo_OwnerKind : string;
  mo_OwnerPort : Z;
  mo_NodeName : string;
  mo_PodNamespace : string
}.

Definition IsValidAccessMode (value : string) : bool :=
  bool_decide (value = AccessModeRWO) || bool_decide (value = AccessModeROX) || bool_decide (value = AccessModeRWX).

Definition ParseAccessMode `{UnicodeUpper} (value : string) : option string :=
  let normalized := ToUpper (TrimSpace value) in
  if IsValidAccessMode normalized then Some normalized else None.

Definition NormalizeAccessMode `{UnicodeUpper} (value : string) : string :=
  match ParseAccessMode value with
  | Some parsed => parsed
  | None => AccessModeRWO
  end.

Definition NormalizeOwnerKind (value : string) : string :=
  let v := TrimSpace value in
  if decide (v = OwnerKindCtld) then OwnerKindCtld else
  if decide (v = OwnerKindStorageProxy) then OwnerKindStorageProxy else "".

(** What [json.Unmarshal] makes of the raw message: nothing for a nil or empty one,
    an error, or the decoded options. *)
Definition DecodeMountOptions `{UnicodeUpper} (raw : option (option MountOptions)) : MountOptions :=
  match raw with
  | None | Some None => mkMountOptions "" "" 0 "" ""
  | Some (Some opts) =>
      mkMountOptions (NormalizeAccessMode (mo_AccessMode opts)) (NormalizeOwnerKind (mo_OwnerKind opts))
        (mo_OwnerPort opts) (mo_NodeName opts) (mo_PodNamespace opts)
  end.

(** ** VolumeContext *)

Definition BackendS0FS : string := "s0fs".
Definition DefaultBackendType : string := BackendS0FS.

(** The fields under [handleMu]. *)
Record Handles := mkHandles {
  nextHandleID : Z;
  fileHandles : gmap Z Z;
  dirHandleIDs : gmap Z Z;
  openFileCount : gmap Z Z;
  unlinkedFiles : gset Z
}.

Definition no_handles : Handles := mkHandles 0 ∅ ∅ ∅ ∅.

Record VolumeContext := mkVolume {
  vc_VolumeID : string;
  vc_TeamID : string;
  vc_Backend : string;
  vc_S0FS : option World;
  vc_Access : string;
  vc_MountedAt : Z;
  vc_RootInode : Z;
  vc_RootPath : string;
  vc_CacheDir : string;
  vc_handles : Handles
}.

Definition set_S0FS w v := mkVolume (vc_VolumeID v) (vc_TeamID v) (vc_Backend v) w (vc_Access v) (vc_MountedAt v) (vc_RootInode v) (vc_RootPath v) (vc_CacheDir v) (vc_handles v).
Definition set_RootInode i v := mkVolume (vc_VolumeID v) (vc_TeamID v) (vc_Backend v) (vc_S0FS v) (vc_Access v) (vc_MountedAt v) i (vc_RootPath v) (vc_CacheDir v) (vc_handles v).
Definition set_handles h v := mkVolume (vc_VolumeID v) (vc_TeamID v) (vc_Backend v) (vc_S0FS v) (vc_Access v) (vc_MountedAt v) (vc_RootInode v) (vc_RootPath v) (vc_CacheDir v) h.

(** ** root_posix_identity.go *)

(** An error text: a constant, or the text of an engine error after a prefix. *)
Inductive message := Text (s : string) | Cause (prefix : string) (e : error).

(** An engine call on a volume, its error turned into [wrap] of it; a nil engine is
    a nil dereference. *)
Definition on_engine {E A} (wrap : error -> E) (m : Eng A) : ST E VolumeContext A := fun v =>
  match vc_S0FS v with
  | None => (Panic, v)
  | Some w =>
      let '(r, w') := m w in
      (match r with Ok a => Ok a | Err e => Err (wrap e) | Panic => Panic end, set_S0FS (Some w') v)
  end.

Definition EnsureLazyRootPosixIdentity `{ColdReader} (env : Env) (uid gid : Z) : ST message VolumeContext unit :=
  let* v := get in
  match vc_S0FS v with
  | None => throw (Text "volume context is nil")
  | Some _ =>
      if (uid =? 0) && (gid =? 0) then ret tt else
      let rootInode := if vc_RootInode v =? 0 then 1 else vc_RootInode v in
      let* attr := on_engine (Cause "get root attr: ") (GetAttr rootInode) in
      if (n_UID attr =? uid) && (n_GID attr =? gid) then ret tt else
      if negb (n_UID attr =? 0) || negb (n_GID attr =? 0) then ret tt else
      on_engine (Cause "set root posix identity: ") (SetOwner env rootInode uid gid)
  end.

(** ** backend.go: the handle tables *)

(** [m[k]] of a map to int: the zero value when absent. *)
Definition count_of (m : gmap Z Z) (k : Z) : Z := default 0 (m !! k).

Definition IsS0FS (v : VolumeContext) : bool :=
  bool_decide (vc_Backend v = BackendS0FS) && bool_decide (is_Some (vc_S0FS v)).

Definition OpenFileHandle (inode : Z) (h : Handles) : Z * Handles :=
  let id := u64 (nextHandleID h + 1) in
  (id, mkHandles id (<[id := inode]> (fileHandles h)) (dirHandleIDs h)
         (<[inode := count_of (openFileCount h) inode + 1]> (openFileCount h)) (unlinkedFiles h)).

Definition OpenDirHandle (inode : Z) (h : Handles) : Z * Handles :=
  let id := u64 (nextHandleID h + 1) in
  (id, mkHandles id (fileHandles h) (<[id := inode]> (dirHandleIDs h)) (openFileCount h) (unlinkedFiles h)).

(** [if openFileCount[inode] > 1 { openFileCount[inode]-- } else { delete }] *)
Definition drop_count (inode : Z) (m : gmap Z Z) : gmap Z Z :=
  if 1 <? count_of m inode then <[inode := count_of m inode - 1]> m else delete inode m.

(** The inode a handle stands for; 0 when there is none. *)
Definition handle_inode (h : Handles) (handleID : Z) : Z := default 0 (fileHandles h !! handleID).

Definition ReleaseHandle (handleID : Z) (h : Handles) : (Z * Z * bool) * Handles :=
  let inode := handle_inode h handleID in
  let ok := bool_decide (is_Some (fileHandles h !! handleID)) in
  let counts := if ok then drop_count inode (openFileCount h) else openFileCount h in
  ((inode, count_of counts inode, ok),
   mkHandles (nextHandleID h) (delete handleID (fileHandles h)) (delete handleID (dirHandleIDs h)) counts
     (unlinkedFiles h)).

Definition MarkUnlinkedFileIfOpen (inode : Z) (h : Handles) : bool * Handles :=
  if count_of (openFileCount h) inode =? 0 then (false, h) else
  (true, mkHandles (nextHandleID h) (fileHandles h) (dirHandleIDs h) (openFileCount h) ({[inode]} ∪ unlinkedFiles h)).

Definition FileOpenCount (inode : Z) (h : Handles) : Z := count_of (openFileCount h) inode.

Definition ReleaseFileHandle (handleID : Z) (h : Handles) : (Z * Z * bool * bool) * Handles :=
  let inode := handle_inode h handleID in
  let ok := bool_decide (is_Some (fileHandles h !! handleID)) in
  let counts := if ok then drop_count inode (openFileCount h) else openFileCount h in
  let remaining := count_of counts inode in
  let unlinked := bool_decide (inode ∈ unlinkedFiles h) in
  ((inode, remaining, unlinked, ok),
   mkHandles (nextHandleID h) (delete handleID (fileHandles h)) (dirHandleIDs h) counts
     (if unlinked && (remaining =? 0) then unlinkedFiles h ∖ {[inode]} else unlinkedFiles h)).

Definition HandleInode (handleID : Z) (h : Handles) : option Z := fileHandles h !! handleID.

(** ** Sessions, leases and trackers *)

Inductive MountSessionScope := ScopeUnknown | ScopeDirect.

#[export] Instance MountSessionScope_eq_dec : EqDecision MountSessionScope.
Proof. solve_decision. Defined.

Record MountSession := mkSession {
  ms_ID : string;
  ms_TeamID : string;
  ms_CreatedAt : Z;
  ms_Scope : MountSessionScope
}.

Definition set_Scope sc s := mkSession (ms_ID s) (ms_TeamID s) (ms_CreatedAt s) sc.

(** [it_done]: the channel [done] is closed. *)
Record invalidateTracker := mkTracker {
  it_pending : gset string;
  it_done : bool;
  it_err : option string
}.

Record directMountLease := mkLease {
  dl_SessionID : string;
  dl_InFlight : Z;
  dl_LastUsed : Z
}.

Record BackendMountRequest := mkMountRequest {
  mr_S3Prefix : string;
  mr_VolumeID : string;
  mr_TeamID : string;
  mr_AccessMode : string;
  mr_MountedAt : Z
}.

(** The interface [Backend], for backends of type [B] that act on the world [X]. *)
Class Backend (B X : Type) := {
  be_MountVolume : B -> BackendMountRequest -> ST string X VolumeContext;
  be_UnmountVolume : B -> VolumeContext -> ST string X unit
}.

(** The interface [MountRegistrar]; [reg_present] tells whether one is set. *)
Class MountRegistrar (X : Type) := {
  reg_present : bool;
  RegisterMount : string -> MountOptions -> ST string X unit;
  UnregisterMount : string -> ST string X unit
}.

Record Manager (B : Type) := mkManager {
  mg_volumes : gmap string VolumeContext;
  mg_mountSessions : gmap string (gmap string MountSession);
  mg_directMounts : gmap string directMountLease;
  mg_invalidates : gmap string (gmap string invalidateTracker);
  mg_backends : gmap string (option B);
  mg_defaultBackend : string
}.
Arguments mkManager {B}.
Arguments mg_volumes {B}.
Arguments mg_mountSessions {B}.
Arguments mg_directMounts {B}.
Arguments mg_invalidates {B}.
Arguments mg_backends {B}.
Arguments mg_defaultBackend {B}.

Section setters.
Context {B : Type}.
Implicit Types m : Manager B.
Definition set_volumes x m := mkManager x (mg_mountSessions m) (mg_directMounts m) (mg_invalidates m) (mg_backends m) (mg_defaultBackend m).
Definition set_sessions x m := mkManager (mg_volumes m) x (mg_directMounts m) (mg_invalidates m) (mg_backends m) (mg_defaultBackend m).
Definition set_direct x m := mkManager (mg_volumes m) (mg_mountSessions m) x (mg_invalidates m) (mg_backends m) (mg_defaultBackend m).
Definition set_invalidates x m := mkManager (mg_volumes m) (mg_mountSessions m) (mg_directMounts m) x (mg_backends m) (mg_defaultBackend m).

(** [m.mountSessions[volumeID]], which is nil when absent. *)
Definition sessions_of m (volumeID : string) : gmap string MountSession := default ∅ (mg_mountSessions m !! volumeID).
Definition trackers_of m (volumeID : string) : gmap string invalidateTracker := default ∅ (mg_invalidates m !! volumeID).
Definition add_session volumeID (s : MountSession) m : Manager B :=
  set_sessions (<[volumeID := <[ms_ID s := s]> (sessions_of m volumeID)]> (mg_mountSessions m)) m.
End setters.

Definition NewManagerWithBackends {B} (backends : gmap string (option B)) (defaultBackend : string) : Manager B :=
  mkManager ∅ ∅ ∅ ∅ backends defaultBackend.

(** [%q] of a string without quotes and control characters. *)
Definition quoted (s : string) : string := String (ascii_of_nat 34) (s +:+ String (ascii_of_nat 34) "").

Section manager.
Context {B X : Type} `{UP : UnicodeUpper} `{BK : Backend B X} `{RG : MountRegistrar X}.

Abbreviation Mgr := (ST string (Manager B * X)).

Definition ext {A} (m : ST string X A) : Mgr A := fun s =>
  let '(r, x) := m s.2 in (r, (s.1, x)).
Definition mgr_modify (f : Manager B -> Manager B) : Mgr unit := modify (fun s => (f s.1, s.2)).
Definition mgr_get : Mgr (Manager B) := gets fst.

(** The outcome of a call whose error is only logged. *)
Definition attempt {A} (m : Mgr A) : Mgr (res string A) := fun s =>
  match m s with
  | (Panic, s') => (Panic, s')
  | (r, s') => (Ok r, s')
  end.

Definition void_attempt {A} (m : Mgr A) : Mgr unit := let* _ := attempt m in ret tt.

Definition selectBackend (m : Manager B) : res string B :=
  match mg_backends m !! mg_defaultBackend m with
  | Some (Some backend) => Ok backend
  | _ =>
      match map_to_list (mg_backends m) with
      | [(_, Some backend)] => Ok backend
      | _ => Err ("storage backend " +:+ quoted (mg_defaultBackend m) +:+ " is not configured")
      end
  end.

(** [sessionID] and [now] are what [uuid.New] and [time.Now] return. *)
Definition MountVolume (sessionID : string) (now : Z) (s3Prefix volumeID teamID accessMode : string)
    : Mgr (string * Z) :=
  let accessMode := NormalizeAccessMode accessMode in
  if decide (teamID = "") then throw "missing team id for volume mount" else
  let* m := mgr_get in
  match mg_volumes m !! volumeID with
  | Some existing =>
      if decide (vc_TeamID existing <> "" /\ vc_TeamID existing <> teamID) then
        throw ("volume " +:+ volumeID +:+ " already mounted by another team") else
      if decide (vc_Access existing <> accessMode) then
        throw ("volume " +:+ volumeID +:+ " already mounted with access_mode=" +:+ vc_Access existing) else
      do* mgr_modify (add_session volumeID (mkSession sessionID teamID now ScopeUnknown)) in
      ret (sessionID, now)
  | None =>
      do* (if reg_present then ext (RegisterMount volumeID (mkMountOptions accessMode "" 0 "" "")) else ret tt) in
      let undo := if reg_present then attempt (ext (UnregisterMount volumeID)) else ret (Ok tt) in
      match selectBackend m with
      | Panic => panic
      | Err err => do* undo in throw err
      | Ok backend =>
          let* mounted := attempt (ext (be_MountVolume backend
                            (mkMountRequest s3Prefix volumeID teamID accessMode now))) in
          match mounted with
          | Panic => panic
          | Err err => do* undo in throw err
          | Ok volCtx =>
              do* mgr_modify (fun m => add_session volumeID (mkSession sessionID teamID now ScopeUnknown)
                                         (set_volumes (<[volumeID := volCtx]> (mg_volumes m)) m)) in
              ret (sessionID, now)
          end
      end
  end.

(** Closes [done] unless it is closed already. *)
Definition settle (t : invalidateTracker) : invalidateTracker :=
  if bool_decide (is_Some (it_err t)) || bool_decide (it_pending t = ∅)
  then mkTracker (it_pending t) true (it_err t) else t.

Definition drop_pending (sessionID : string) (t : invalidateTracker) : invalidateTracker :=
  if decide (sessionID ∈ it_pending t)
  then settle (mkTracker (it_pending t ∖ {[sessionID]}) (it_done t) (it_err t)) else t.

Definition clearSessionFromInvalidatesLocked (volumeID sessionID : string) (m : Manager B) : Manager B :=
  match mg_invalidates m !! volumeID with
  | None => m
  | Some trackers => set_invalidates (<[volumeID := drop_pending sessionID <$> trackers]> (mg_invalidates m)) m
  end.

Definition session_missing (volumeID sessionID : string) : string :=
  "mount session " +:+ sessionID +:+ " not found for volume " +:+ volumeID.

(** The table entry of a session goes, with the lease and the acks that wait for it. *)
Definition end_session (volumeID sessionID : string) (m : Manager B) : Manager B :=
  let m := set_sessions (<[volumeID := delete sessionID (sessions_of m volumeID)]> (mg_mountSessions m)) m in
  let m := match mg_directMounts m !! volumeID with
           | Some lease => if decide (dl_SessionID lease = sessionID)
                           then set_direct (delete volumeID (mg_directMounts m)) m else m
           | None => m
           end in
  clearSessionFromInvalidatesLocked volumeID sessionID m.

Definition UnmountVolume (volumeID sessionID : string) : Mgr unit :=
  let* m := mgr_get in
  match mg_volumes m !! volumeID with
  | None => throw ("volume " +:+ volumeID +:+ " not mounted")
  | Some volCtx =>
      if decide (sessionID = "") then throw "missing mount session id" else
      match mg_mountSessions m !! volumeID with
      | None => throw (session_missing volumeID sessionID)
      | Some sessions =>
          match sessions !! sessionID with
          | None => throw (session_missing volumeID sessionID)
          | Some _ =>
              do* mgr_modify (end_session volumeID sessionID) in
              if decide (delete sessionID sessions <> ∅) then ret tt else
              do* mgr_modify (fun m => set_sessions (delete volumeID (mg_mountSessions m)) m) in
              let* _ := (if reg_present then attempt (ext (UnregisterMount volumeID)) else ret (Ok tt)) in
              let* _ := match selectBackend m with
                        | Ok backend => attempt (ext (be_UnmountVolume backend volCtx))
                        | _ => ret (Ok tt)
                        end in
              mgr_modify (fun m => set_volumes (delete volumeID (mg_volumes m))
                                     (set_direct (delete volumeID (mg_directMounts m)) m))
          end
      end
  end.

Definition GetVolume (volumeID : string) : Mgr VolumeContext :=
  let* m := mgr_get in
  match mg_volumes m !! volumeID with
  | None => throw ("volume " +:+ volumeID +:+ " not mounted")
  | Some volCtx => ret volCtx
  end.

Definition BeginInvalidate (volumeID invalidateID : string) : Mgr Z :=
  if decide (invalidateID = "") then throw "missing invalidate id" else
  let* m := mgr_get in
  let sessions := sessions_of m volumeID in
  if decide (sessions = ∅) then ret 0 else
  match trackers_of m volumeID !! invalidateID with
  | Some _ => throw ("invalidate " +:+ invalidateID +:+ " already registered")
  | None =>
      let pending := dom (filter (fun kv => ms_Scope kv.2 <> ScopeDirect) sessions) in
      do* mgr_modify (set_invalidates
            (<[volumeID := <[invalidateID := mkTracker pending false None]> (trackers_of m volumeID)]> (mg_invalidates m))) in
      ret (Z.of_nat (size pending))
  end.

Definition tracker_at (m : Manager B) (volumeID invalidateID : string) : option invalidateTracker :=
  trackers_of m volumeID !! invalidateID.

(** [delete(m.invalidates[volumeID], invalidateID)], and the inner map with it when it is empty. *)
Definition drop_tracker (volumeID invalidateID : string) (m : Manager B) : Manager B :=
  let rest := delete invalidateID (trackers_of m volumeID) in
  set_invalidates (if decide (rest = ∅) then delete volumeID (mg_invalidates m)
                   else <[volumeID := rest]> (mg_invalidates m)) m.

(** A wait that has not ended yet is [None]; [expired] is the error of a context
    that is done, when the [select] takes that branch. *)
Definition WaitForInvalidate (expired : option string) (volumeID invalidateID : string)
    : Mgr (option (option string)) :=
  let* m := mgr_get in
  match tracker_at m volumeID invalidateID with
  | None => ret (Some None)
  | Some tracker =>
      match expired with
      | Some err => ret (Some (Some err))
      | None =>
          if it_done tracker then
            do* mgr_modify (drop_tracker volumeID invalidateID) in ret (Some (it_err tracker))
          else ret None
      end
  end.

(** The new state of a tracker that has the session in [pending]. *)
Definition ack (sessionID : string) (success : bool) (errorMessage : string) (t : invalidateTracker)
    : invalidateTracker :=
  let message := if decide (errorMessage = "") then "remount failed" else errorMessage in
  let err := match it_err t with
             | None => if success then None else Some message
             | Some e => Some e
             end in
  settle (mkTracker (it_pending t ∖ {[sessionID]}) (it_done t) err).

Definition AckInvalidate (volumeID sessionID invalidateID : string) (success : bool) (errorMessage : string)
    : Mgr unit :=
  let* m := mgr_get in
  match tracker_at m volumeID invalidateID with
  | None => ret tt
  | Some tracker =>
      if decide (sessionID ∈ it_pending tracker) then
        mgr_modify (set_invalidates
          (<[volumeID := <[invalidateID := ack sessionID success errorMessage tracker]> (trackers_of m volumeID)]>
             (mg_invalidates m)))
      else ret tt
  end.

Definition UpdateVolumeRoot (volumeID : string) (rootInode : Z) : Mgr unit :=
  let* m := mgr_get in
  match mg_volumes m !! volumeID with
  | None => throw ("volume " +:+ volumeID +:+ " not mounted")
  | Some volCtx => mgr_modify (set_volumes (<[volumeID := set_RootInode rootInode volCtx]> (mg_volumes m)))
  end.

Definition ListVolumes (m : Manager B) : list string := (map_to_list (mg_volumes m)).*1.
Definition ListMountSessions (m : Manager B) (volumeID : string) : list string :=
  (map_to_list (sessions_of m volumeID)).*1.

(** *** Direct sessions *)

(** The session of the lease of a volume, if both are there. *)
Definition leased (m : Manager B) (volumeID : string) : option (directMountLease * MountSession) :=
  lease ← mg_directMounts m !! volumeID;
  session ← sessions_of m volumeID !! dl_SessionID lease;
  Some (lease, session).

(** [session.Scope = Direct; lease.InFlight++; lease.LastUsed = now] *)
Definition join_lease (now : Z) (volumeID : string) (lease : directMountLease) (session : MountSession)
    (m : Manager B) : Manager B :=
  set_direct (<[volumeID := mkLease (dl_SessionID lease) (dl_InFlight lease + 1) now]> (mg_directMounts m))
    (set_sessions (<[volumeID := <[dl_SessionID lease := set_Scope ScopeDirect session]> (sessions_of m volumeID)]>
       (mg_mountSessions m)) m).

(** The first critical section of [AcquireDirectVolumeFileMount]: the session of a
    lease that could be joined. *)
Definition acquire_begin (now : Z) (volumeID : string) : Mgr (option string) :=
  let* m := mgr_get in
  match leased m volumeID with
  | Some (lease, session) =>
      do* mgr_modify (join_lease now volumeID lease session) in ret (Some (dl_SessionID lease))
  | None => do* mgr_modify (set_direct (delete volumeID (mg_directMounts m))) in ret None
  end.

(** The second one, with the session that [mountFn] made: the session to use, and
    the one made that is to be unmounted again. *)
Definition acquire_finish (now : Z) (volumeID sessionID : string) : Mgr (string * option string) :=
  let* m := mgr_get in
  match leased m volumeID with
  | Some (lease, session) =>
      do* mgr_modify (join_lease now volumeID lease session) in
      ret (dl_SessionID lease, Some sessionID)
  | None =>
      do* match sessions_of m volumeID !! sessionID with
          | Some session =>
              mgr_modify (set_sessions (<[volumeID := <[sessionID := set_Scope ScopeDirect session]>
                                                        (sessions_of m volumeID)]> (mg_mountSessions m)))
          | None => ret tt
          end in
      do* mgr_modify (fun m => set_direct (<[volumeID := mkLease sessionID 1 now]> (mg_directMounts m)) m) in
      ret (sessionID, None)
  end.

(** The whole call when nothing comes between its steps; the result is the session
    whose release function is returned. *)
Definition AcquireDirectVolumeFileMount (now : Z) (volumeID : string) (mountFn : option (Mgr string)) : Mgr string :=
  if decide (volumeID = "") then throw "missing volume id" else
  match mountFn with
  | None => throw "missing direct mount function"
  | Some mountFn =>
      let* joined := acquire_begin now volumeID in
      match joined with
      | Some sessionID => ret sessionID
      | None =>
          let* sessionID := mountFn in
          let* '(used, redundant) := acquire_finish now volumeID sessionID in
          do* match redundant with
              | Some r => void_attempt (UnmountVolume volumeID r)
              | None => ret tt
              end in
          ret used
      end
  end.

Definition releaseDirectVolumeFileMount (now : Z) (volumeID sessionID : string) : Mgr unit :=
  let* m := mgr_get in
  match mg_directMounts m !! volumeID with
  | None => ret tt
  | Some lease =>
      if decide (dl_SessionID lease <> sessionID) then ret tt else
      mgr_modify (set_direct (<[volumeID := mkLease sessionID
                    (if 0 <? dl_InFlight lease then dl_InFlight lease - 1 else dl_InFlight lease) now]>
                    (mg_directMounts m)))
  end.

(** The critical section of [CleanupIdleDirectVolumeFileMount]: the session to unmount. *)
Definition cleanup_begin (volumeID : string) : Mgr (option string) :=
  let* m := mgr_get in
  match mg_directMounts m !! volumeID with
  | None => ret None
  | Some lease =>
      if 0 <? dl_InFlight lease then ret None else
      do* mgr_modify (set_direct (delete volumeID (mg_directMounts m))) in ret (Some (dl_SessionID lease))
  end.

Definition CleanupIdleDirectVolumeFileMount (volumeID : string) : Mgr bool :=
  if decide (volumeID = "") then throw "missing volume id" else
  let* session := cleanup_begin volumeID in
  match session with
  | None => ret false
  | Some sessionID => do* UnmountVolume volumeID sessionID in ret true
  end.

(** A lease that [CleanupIdleDirectVolumeFileMounts] leaves alone. *)
Definition lease_busy (cutoff : Z) (lease : directMountLease) : bool :=
  (0 <? dl_InFlight lease) || (cutoff <? dl_LastUsed lease).

Definition idle_begin (cutoff : Z) : Mgr (list (string * string)) :=
  let* m := mgr_get in
  do* mgr_modify (set_direct (filter (fun kv => lease_busy cutoff kv.2 = true) (mg_directMounts m))) in
  ret ((fun kv => (kv.1, dl_SessionID kv.2)) <$>
         map_to_list (filter (fun kv => lease_busy cutoff kv.2 = false) (mg_directMounts m))).

Fixpoint unmount_all (candidates : list (string * string)) : Mgr (list string) :=
  match candidates with
  | [] => ret []
  | (volumeID, sessionID) :: rest =>
      let* r := attempt (UnmountVolume volumeID sessionID) in
      let* errs := unmount_all rest in
      ret (match r with Err e => e :: errs | _ => errs end)
  end.

Definition CleanupIdleDirectVolumeFileMounts (now idleTTL : Z) : Mgr (list string) :=
  if idleTTL <=? 0 then ret [] else
  let* candidates := idle_begin (now - idleTTL) in
  unmount_all candidates.

End manager.
