(* ===== verification/Notify.v ===== *)
(** * storage-proxy: the hub of watch events (storage-proxy/pkg/notify/hub.go)

    The channel of a subscription is its queue of undelivered events with the bound
    [queueSize] and whether it is closed.  The event types are those of
    storage-proxy/proto/filesystem.proto. *)

From stdpp Require Import base gmap strings list fin_maps numbers sorting.
From Stdlib Require Import Strings.Byte Strings.Ascii.
From S2P Require Import Prelude GoStd.

Local Open Scope Z_scope.

Inductive WatchEventType :=
| EVENT_UNSPECIFIED | EVENT_CREATE | EVENT_WRITE | EVENT_REMOVE | EVENT_RENAME | EVENT_CHMOD | EVENT_INVALIDATE.

#[export] Instance WatchEventType_eq_dec : EqDecision WatchEventType.
Proof. solve_decision. Defined.

Record WatchEvent := mkEvent {
  we_VolumeId : string;
  we_EventType : WatchEventType;
  we_Path : string;
  we_OldPath : string;
  we_Inode : Z;
  we_TimestampUnix : Z;
  we_OriginInstance : string;
  we_OriginSandboxId : string;
  we_InvalidateId : string
}.

#[export] Instance WatchEvent_eq_dec : EqDecision WatchEvent.
Proof. solve_decision. Defined.

Record WatchRequest := mkWatch {
  wr_VolumeId : string;
  wr_PathPrefix : string;
  wr_Recursive : bool;
  wr_IncludeSelf : bool;
  wr_SandboxId : string
}.

Record subscription := mkSub {
  sub_id : string;
  sub_req : WatchRequest;
  sub_queue : list WatchEvent
}.

(** [byVolume] holds pointers to the subscriptions of [subs], so it is the set of
    their ids here. *)
Record Hub := mkHub {
  hub_subs : gmap string subscription;
  hub_byVolume : gmap string (gset string);
  hub_queueSize : Z
}.

Definition defaultQueueSize : Z := 256.

Definition NewHub (queueSize : Z) : Hub :=
  mkHub ∅ ∅ (if queueSize <=? 0 then defaultQueueSize else queueSize).

Definition volume_subs (h : Hub) (volumeID : string) : gset string := default ∅ (hub_byVolume h !! volumeID).

(** [id] is what [uuid.New] returns. *)
Definition Subscribe (id : string) (req : WatchRequest) (h : Hub) : Hub :=
  let cleaned := mkWatch (wr_VolumeId req) (TrimRight (wr_PathPrefix req) "/"%char) (wr_Recursive req)
                   (wr_IncludeSelf req) (wr_SandboxId req) in
  let subs := <[id := mkSub id cleaned []]> (hub_subs h) in
  let byVolume := if decide (wr_VolumeId req = "") then hub_byVolume h
                  else <[wr_VolumeId req := {[id]} ∪ volume_subs h (wr_VolumeId req)]> (hub_byVolume h) in
  mkHub subs byVolume (hub_queueSize h).

Definition Unsubscribe (id : string) (h : Hub) : Hub :=
  match hub_subs h !! id with
  | None => h
  | Some sub =>
      let volumeID := wr_VolumeId (sub_req sub) in
      let byVolume :=
        if decide (volumeID = "") then hub_byVolume h else
        match hub_byVolume h !! volumeID with
        | None => hub_byVolume h
        | Some ids => if decide (ids ∖ {[id]} = ∅) then delete volumeID (hub_byVolume h)
                      else <[volumeID := ids ∖ {[id]}]> (hub_byVolume h)
        end in
      mkHub (delete id (hub_subs h)) byVolume (hub_queueSize h)
  end.

Definition pathMatches (req : WatchRequest) (path : string) : bool :=
  if decide (path = "") then false else
  if decide (path = wr_PathPrefix req) then true else
  wr_Recursive req && HasPrefix path (wr_PathPrefix req +:+ "/").

Definition matches (req : WatchRequest) (event : WatchEvent) : bool :=
  if decide (wr_VolumeId req <> "" /\ wr_VolumeId req <> we_VolumeId event) then false else
  if decide (wr_IncludeSelf req = false /\ wr_SandboxId req <> "" /\ wr_SandboxId req = we_OriginSandboxId event)
  then false else
  if decide (wr_PathPrefix req = "") then true else
  if decide (we_Path event = "" /\ we_OldPath event = "") then true else
  if pathMatches req (we_Path event) then true else
  if decide (we_OldPath event <> "") then pathMatches req (we_OldPath event) else false.

(** The non-blocking send: a full queue drops the event. *)
Definition offer (queueSize : Z) (event : WatchEvent) (sub : subscription) : subscription :=
  if matches (sub_req sub) event && (zlen (sub_queue sub) <? queueSize)
  then mkSub (sub_id sub) (sub_req sub) (sub_queue sub ++ [event]) else sub.

Definition stamp (now : Z) (event : WatchEvent) : WatchEvent :=
  if we_TimestampUnix event =? 0
  then mkEvent (we_VolumeId event) (we_EventType event) (we_Path event) (we_OldPath event) (we_Inode event) now
         (we_OriginInstance event) (we_OriginSandboxId event) (we_InvalidateId event)
  else event.

Definition Publish (now : Z) (event : WatchEvent) (h : Hub) : Hub :=
  let event := stamp now event in
  let targets : gset string :=
    if decide (we_VolumeId event <> "") then volume_subs h (we_VolumeId event) else dom (hub_subs h) in
  mkHub (map_imap (fun id sub => Some (if decide (id ∈ targets) then offer (hub_queueSize h) event sub else sub))
           (hub_subs h))
    (hub_byVolume h) (hub_queueSize h).

(** The reader of the channel takes the oldest event. *)
Definition receive (id : string) (h : Hub) : option WatchEvent * Hub :=
  match hub_subs h !! id with
  | Some sub =>
      match sub_queue sub with
      | e :: rest => (Some e, mkHub (<[id := mkSub (sub_id sub) (sub_req sub) rest]> (hub_subs h)) (hub_byVolume h) (hub_queueSize h))
      | [] => (None, h)
      end
  | None => (None, h)
  end.
