(* ===== verification/Naming.v ===== *)
(** * Names shared by the services (pkg/naming)

    paths.go: the prefixes of volumes in the object store and the paths of volumes
    and snapshots in the file system. *)

From stdpp Require Import base gmap strings list fin_maps numbers.
From Stdlib Require Import Strings.Byte Strings.Ascii.
From S2P Require Import Prelude GoStd.

Local Open Scope Z_scope.

Definition validatePathID (kind id : string) : res string unit :=
  if decide (id = "") then Err (kind +:+ " is empty") else
  if Contains_str id "/" then Err (kind +:+ " contains invalid '/'") else Ok tt.

Definition S3VolumePrefix (teamID volumeID : string) : res string string :=
  let? _ := validatePathID "teamID" teamID in
  let? _ := validatePathID "volumeID" volumeID in
  Ok ("sandboxvolumes/" +:+ teamID +:+ "/" +:+ volumeID).

Definition FilesystemVolumePath (volumeID : string) : res string string :=
  let? _ := validatePathID "volumeID" volumeID in
  Ok ("/volumes/" +:+ volumeID).

Definition FilesystemSnapshotParentPath (volumeID : string) : res string string :=
  let? _ := validatePathID "volumeID" volumeID in
  Ok ("/snapshots/" +:+ volumeID).

Definition FilesystemSnapshotPath (volumeID snapshotID : string) : res string string :=
  let? _ := validatePathID "volumeID" volumeID in
  let? _ := validatePathID "snapshotID" snapshotID in
  Ok ("/snapshots/" +:+ volumeID +:+ "/" +:+ snapshotID).
