(* ===== verification/FsServer.v ===== *)
(** * storage-proxy: the file system server (storage-proxy/pkg/fsserver/server.go)

    Every handler of [FileSystemServer], over the volume manager, the engine of each
    mounted volume, the tables of handles, the marks of unflushed writes, the router
    of primaries (router/volume_router.go), the errors of fserror/error.go and the
    hub of events.

    A request carries the claims of its token, the clock and the I/O outcomes of the
    engine calls it makes, in their order.  A request is one step.  What a handler
    does with a volume is a [Body] on the parts of the server it can reach from
    there; [run_body] runs it on the context that the manager's table points to.
    The response types are those of storage-proxy/proto/filesystem.proto. *)

From stdpp Require Import base gmap strings list fin_maps numbers sorting.
From Stdlib Require Import Strings.Byte Strings.Ascii.
From S2P Require Import Prelude GoStd GoNet S0fsTypes S0fsCore S0fsEngine Volume Notify Naming.

Local Open Scope Z_scope.

(** ** fserror *)

Inductive Code :=
| OK | Canceled | Unknown | InvalidArgument | DeadlineExceeded | NotFound | AlreadyExists | PermissionDenied
| ResourceExhausted | FailedPrecondition | Aborted | OutOfRange | Unimplemented | Internal | Unavailable
| DataLoss | Unauthenticated.

#[export] Instance Code_eq_dec : EqDecision Code.
Proof. solve_decision. Defined.

Record PrimaryRedirect := mkRedirect {
  rd_VolumeId : string;
  rd_PrimaryNodeId : string;
  rd_PrimaryAddr : string;
  rd_Epoch : Z
}.

(** An error of the package fserror, or one of another package. *)
Inductive srv_error :=
| FsError (code : Code) (msg : message) (redirect : option PrimaryRedirect)
| OtherError (text : string).

Definition New (code : Code) (text : string) : srv_error := FsError code (Text text) None.

Definition WithRedirect (err : srv_error) (redirect : PrimaryRedirect) : srv_error :=
  match err with
  | FsError code msg _ => FsError code msg (Some redirect)
  | OtherError text => FsError Internal (Text text) (Some redirect)
  end.

Definition CodeOf (err : option srv_error) : Code :=
  match err with
  | None => OK
  | Some (FsError code _ _) => code
  | Some (OtherError _) => Internal
  end.

Definition mapS0FSError (err : error) : srv_error :=
  let code :=
    if errors_Is err ErrNotFound then NotFound else
    if errors_Is err ErrExists then AlreadyExists else
    if errors_Is err ErrNotEmpty || errors_Is err ErrIsDir then FailedPrecondition else
    if errors_Is err ErrInvalidInput || errors_Is err ErrNotDir then InvalidArgument else
    if errors_Is err ErrClosed then FailedPrecondition else Internal in
  FsError code (Cause "" err) None.

(** ** router/volume_router.go *)

Record Route := mkRoute {
  rt_VolumeID : string;
  rt_PrimaryNodeID : string;
  rt_PrimaryAddr : string;
  rt_Epoch : Z;
  rt_LocalPrimary : bool
}.

Definition SetRoute (route : Route) (routes : gmap string Route) : bool * gmap string Route :=
  if decide (rt_VolumeID route = "") then (false, routes) else
  let route := if decide (rt_PrimaryAddr route = "")
               then mkRoute (rt_VolumeID route) (rt_PrimaryNodeID route) (rt_PrimaryAddr route) (rt_Epoch route) true
               else route in
  match routes !! rt_VolumeID route with
  | Some current =>
      if rt_Epoch route <? rt_Epoch current then (false, routes)
      else (true, <[rt_VolumeID route := route]> routes)
  | None => (true, <[rt_VolumeID route := route]> routes)
  end.

Definition DeleteRoute (volumeID : string) (routes : gmap string Route) : gmap string Route :=
  if decide (volumeID = "") then routes else delete volumeID routes.

Definition GetRoute (volumeID : string) (routes : gmap string Route) : option Route :=
  if decide (volumeID = "") then None else routes !! volumeID.

Definition Resolve (volumeID : string) (routes : gmap string Route) : Route :=
  match GetRoute volumeID routes with
  | Some route => route
  | None => mkRoute volumeID "" "" 0 true
  end.

Definition IsLocalPrimary (volumeID : string) (routes : gmap string Route) : bool :=
  rt_LocalPrimary (Resolve volumeID routes).

(** ** What the server is given *)

(** The claims of internalauth that the server reads. *)
Record Claims := mkClaims {
  cl_TeamID : string;
  cl_SandboxID : string;
  cl_IsSystem : bool
}.

Definition IsSystemToken (c : Claims) : bool := cl_IsSystem c.

Record SandboxVolume := mkSandboxVolume {
  sbv_TeamID : string;
  sbv_AccessMode : string
}.

(** The sentinel [db.ErrNotFound], an error that wraps it, and any other one. *)
Inductive db_error := DbNotFound | DbWrapsNotFound | DbOther.

(** [VolumeRepository]; of an owner only [OwnerSandboxID] is read. *)
Record VolumeRepository := mkRepo {
  GetSandboxVolume : string -> res db_error SandboxVolume;
  GetSandboxVolumeOwner : string -> res db_error string
}.

(** [mutationBarrier.WithShared] of the volume fails before it runs its function
    when [cf_barrier] has an error for it. *)
Record Config := mkConfig {
  cf_repo : option VolumeRepository;
  cf_barrier : option (string -> option string)
}.

(** The context of a request: the claims, the clock in seconds, and the I/O outcomes
    of its engine calls. *)
Record Ctx := mkCtx {
  cx_claims : option Claims;
  cx_now : Z;
  cx_env : nat -> Env
}.

Record PosixActor := mkActor { ac_Uid : Z; ac_Gids : list Z }.

(** ** The state *)

Record dirtyWriteHandle := mkDirtyWrite { dw_volumeID : string; dw_inode : Z }.

Record Sess := mkSess {
  ss_vol : VolumeContext;
  ss_hub : option Hub;
  ss_dirty : gmap string dirtyWriteHandle
}.

Abbreviation Body := (ST srv_error Sess).

Record Server (B X : Type) := mkServer {
  sv_mgr : Manager B * X;
  sv_hub : option Hub;
  sv_dirty : gmap string dirtyWriteHandle;
  sv_routes : gmap string Route
}.
Arguments mkServer {B X}.
Arguments sv_mgr {B X}.
Arguments sv_hub {B X}.
Arguments sv_dirty {B X}.
Arguments sv_routes {B X}.

Definition on_vol {A} (m : ST srv_error VolumeContext A) : Body A := fun s =>
  let '(r, v) := m (ss_vol s) in (r, mkSess v (ss_hub s) (ss_dirty s)).

(** A call of the handle tables. *)
Definition on_handles {A} (f : Handles -> A * Handles) : Body A := fun s =>
  let '(a, h) := f (vc_handles (ss_vol s)) in
  (Ok a, mkSess (set_handles h (ss_vol s)) (ss_hub s) (ss_dirty s)).

(** An engine call whose error goes through [mapS0FSError]. *)
Definition s0fs {A} (m : Eng A) : Body A := on_vol (on_engine mapS0FSError m).

(** An engine call whose error is dropped. *)
Definition s0fs_ignore {A} (m : Eng A) : Body unit := fun s =>
  match s0fs m s with
  | (Panic, s') => (Panic, s')
  | (_, s') => (Ok tt, s')
  end.

(** An engine call whose error becomes [Internal]. *)
Definition s0fs_internal {A} (m : Eng A) : Body A :=
  on_vol (on_engine (fun e => FsError Internal (Cause "" e) None) m).

(** ** Helpers *)

Definition dirtyWriteKey (volumeID : string) (handleID : Z) : string :=
  volumeID +:+ "|" +:+ show_dec handleID.

Definition markDirtyWrite (volumeID : string) (inode handleID : Z) : Body unit :=
  modify (fun s => mkSess (ss_vol s) (ss_hub s)
                     (<[dirtyWriteKey volumeID handleID := mkDirtyWrite volumeID inode]> (ss_dirty s))).

Definition peekDirtyWrite (volumeID : string) (handleID : Z) : Body (option dirtyWriteHandle) :=
  gets (fun s => ss_dirty s !! dirtyWriteKey volumeID handleID).

Definition clearDirtyWrite (volumeID : string) (handleID : Z) : Body unit :=
  modify (fun s => mkSess (ss_vol s) (ss_hub s) (delete (dirtyWriteKey volumeID handleID) (ss_dirty s))).

Definition isS0FSVolume (v : VolumeContext) : bool := IsS0FS v.

Definition unsupportedVolumeBackend (v : VolumeContext) : srv_error :=
  let backend := TrimSpace (vc_Backend v) in
  let backend := if decide (backend = "") then "unknown" else backend in
  New FailedPrecondition ("storage backend " +:+ backend +:+ " is not supported").

Definition volumeRootInode (v : VolumeContext) : Z :=
  if vc_RootInode v =? 0 then RootInode else vc_RootInode v.

Definition resolveInodePath (v : VolumeContext) (inode : Z) : string :=
  if isS0FSVolume v then
    match vc_S0FS v with Some w => default "" (S0fsEngine.Path w inode) | None => "" end
  else "".

Definition resolveChildPath (v : VolumeContext) (parent : Z) (name : string) : string :=
  if isS0FSVolume v then
    match vc_S0FS v with Some w => default "" (S0fsEngine.ChildPath w parent name) | None => "" end
  else "".

Definition publishEvent (ctx : Ctx) (event : WatchEvent) : Body unit :=
  let event :=
    match cx_claims ctx with
    | Some claims =>
        if decide (we_OriginSandboxId event = "")
        then mkEvent (we_VolumeId event) (we_EventType event) (we_Path event) (we_OldPath event) (we_Inode event)
               (we_TimestampUnix event) (we_OriginInstance event) (cl_SandboxID claims) (we_InvalidateId event)
        else event
    | None => event
    end in
  let event := stamp (cx_now ctx) event in
  modify (fun s => mkSess (ss_vol s) (Publish (cx_now ctx) event <$> ss_hub s) (ss_dirty s)).

Definition simple_event (volumeID : string) (typ : WatchEventType) (path : string) (inode : Z) : WatchEvent :=
  mkEvent volumeID typ path "" inode 0 "" "" "".

(** The event of a change at [path]: [typ], or an invalidation when the path is not known. *)
Definition path_event (volumeID : string) (typ : WatchEventType) (path : string) (inode : Z) : WatchEvent :=
  simple_event volumeID (if decide (path = "") then EVENT_INVALIDATE else typ) path inode.

Record AttrResponse := mkAttr {
  at_Ino : Z; at_Mode : Z; at_Nlink : Z; at_Uid : Z; at_Gid : Z; at_Rdev : Z; at_Size : Z; at_Blocks : Z;
  at_AtimeSec : Z; at_AtimeNsec : Z; at_MtimeSec : Z; at_MtimeNsec : Z; at_CtimeSec : Z; at_CtimeNsec : Z
}.

Definition empty_attr : AttrResponse := mkAttr 0 0 0 0 0 0 0 0 0 0 0 0 0 0.

Definition S_IFDIR : Z := 16384.
Definition S_IFLNK : Z := 40960.
Definition S_IFREG : Z := 32768.

Definition s0fsAttr (node : option Node) : AttrResponse :=
  match node with
  | None => empty_attr
  | Some n =>
      let mode := Z.land (n_Mode n) 4095 in
      let mode := match n_Type n with
                  | TypeDirectory => Z.lor mode S_IFDIR
                  | TypeSymlink => Z.lor mode S_IFLNK
                  | _ => Z.lor mode S_IFREG
                  end in
      let size := match n_Type n with TypeSymlink => Z.of_nat (String.length (n_Target n)) | _ => n_Size n end in
      mkAttr (n_Inode n) mode (n_Nlink n) (n_UID n) (n_GID n) 0 size (u64 (size + 511) / 512)
        (n_Atime n / 1000000000) (n_Atime n mod 1000000000)
        (n_Mtime n / 1000000000) (n_Mtime n mod 1000000000)
        (n_Ctime n / 1000000000) (n_Ctime n mod 1000000000)
  end.

Record NodeResponse := mkNodeResponse {
  nr_Inode : Z; nr_Generation : Z; nr_Attr : option AttrResponse; nr_HandleId : Z
}.

Definition s0fsNodeResponse (node : option Node) (handleID : Z) : NodeResponse :=
  match node with
  | None => mkNodeResponse 0 0 None 0
  | Some n => mkNodeResponse (n_Inode n) 0 (Some (s0fsAttr (Some n))) handleID
  end.

Definition s0fsTypeNumber (typ : FileType) : Z :=
  match typ with TypeDirectory => 2 | TypeSymlink => 3 | _ => 1 end.

(** The flags of open(2) on Linux. *)
Definition O_WRONLY : Z := 1.
Definition O_RDWR : Z := 2.
Definition O_ACCMODE : Z := 3.
Definition O_TRUNC : Z := 512.
Definition O_APPEND : Z := 1024.

Definition s0fsAccessExists : Z := 0.
Definition s0fsAccessExecute : Z := 1.
Definition s0fsAccessWrite : Z := 2.
Definition s0fsAccessRead : Z := 4.

Definition has_bit (x mask : Z) : bool := negb (Z.land x mask =? 0).

Definition s0fsOpenAccessMask (flags : Z) : Z :=
  let mode := Z.land flags O_ACCMODE in
  let mask := if mode =? O_WRONLY then s0fsAccessWrite else
              if mode =? O_RDWR then Z.lor s0fsAccessRead s0fsAccessWrite else s0fsAccessRead in
  if has_bit flags (Z.lor O_TRUNC O_APPEND) then Z.lor mask s0fsAccessWrite else mask.

Fixpoint containsGID (gids : list Z) (gid : Z) : bool :=
  match gids with
  | [] => false
  | candidate :: rest => if candidate =? gid then true else containsGID rest gid
  end.

Definition checkS0FSAccess (node : Node) (actor : option PosixActor) (mask : Z) : res srv_error unit :=
  match actor with
  | None => Ok tt
  | Some a =>
      if (ac_Uid a =? 0) || (mask =? s0fsAccessExists) then Ok tt else
      let perm :=
        if ac_Uid a =? n_UID node then Z.land (Z.shiftr (n_Mode node) 6) 7 else
        if containsGID (ac_Gids a) (n_GID node) then Z.land (Z.shiftr (n_Mode node) 3) 7
        else Z.land (n_Mode node) 7 in
      if has_bit mask s0fsAccessRead && (Z.land perm 4 =? 0) then Err (New PermissionDenied "read permission denied") else
      if has_bit mask s0fsAccessWrite && (Z.land perm 2 =? 0) then Err (New PermissionDenied "write permission denied") else
      if has_bit mask s0fsAccessExecute && (Z.land perm 1 =? 0) then Err (New PermissionDenied "execute permission denied")
      else Ok tt
  end.

(** ** The bodies of the handlers, on the context of an s0fs volume *)

Section bodies.
Context `{CR : ColdReader}.

Definition ensureLazyRootPosixIdentity (env : Env) (actor : option PosixActor) (inode : Z) : Body unit :=
  let* s := get in
  match actor with
  | Some (mkActor uid (gid :: _)) =>
      if inode =? volumeRootInode (ss_vol s) then
        on_vol (fun v => match EnsureLazyRootPosixIdentity env uid gid v with
                         | (Ok u, v') => (Ok u, v')
                         | (Err m, v') => (Err (FsError Internal m None), v')
                         | (Panic, v') => (Panic, v')
                         end)
      else ret tt
  | _ => ret tt
  end.

Definition syncS0FSHandle (env : Env) (inode : Z) : Body unit :=
  let* s := get in
  match vc_S0FS (ss_vol s) with
  | None => ret tt
  | Some _ => if inode =? 0 then ret tt else s0fs (S0fsEngine.Fsync env)
  end.

Definition GetAttr_body (inode : Z) : Body AttrResponse :=
  let* node := s0fs (S0fsEngine.GetAttr inode) in ret (s0fsAttr (Some node)).

Definition Lookup_body (parent : Z) (name : string) : Body NodeResponse :=
  let* node := s0fs (S0fsEngine.Lookup parent name) in ret (s0fsNodeResponse node 0).

Definition openS0FS (ctx : Ctx) (volumeID : string) (inode flags : Z) (actor : option PosixActor) : Body Z :=
  let* node := s0fs (S0fsEngine.GetAttr inode) in
  if is_dir node then throw (New FailedPrecondition "inode is a directory") else
  do* lift_res (checkS0FSAccess node actor (s0fsOpenAccessMask flags)) in
  do* (if has_bit flags O_TRUNC then
         do* s0fs (S0fsEngine.Truncate (cx_env ctx 0%nat) inode 0) in
         let* s := get in
         publishEvent ctx (path_event volumeID EVENT_WRITE (resolveInodePath (ss_vol s) inode) inode)
       else ret tt) in
  on_handles (OpenFileHandle (n_Inode node)).

(** The data and the flag [Eof] of a read. *)
Definition Read_body (inode offset size : Z) : Body (list byte * bool) :=
  let* data := s0fs (S0fsEngine.Read inode (u64 offset) (u64 size)) in
  ret (data, zlen data <? size).

Definition Write_body (ctx : Ctx) (volumeID : string) (inode offset : Z) (data : list byte) (handleID : Z) : Body Z :=
  let* _ := s0fs (S0fsEngine.Write (cx_env ctx 0%nat) inode (u64 offset) data) in
  do* markDirtyWrite volumeID inode handleID in
  let* s := get in
  do* publishEvent ctx (path_event volumeID EVENT_WRITE (resolveInodePath (ss_vol s) inode) inode) in
  ret (zlen data).

(** What Create, Mkdir and Symlink share: claim the root, create, give the node to
    the actor, publish. *)
Definition create_body (ctx : Ctx) (volumeID : string) (parent : Z) (name : string) (actor : option PosixActor)
    (make : Env -> Eng (option Node)) : Body Node :=
  do* ensureLazyRootPosixIdentity (cx_env ctx 0%nat) actor parent in
  let* s := get in
  let path := resolveChildPath (ss_vol s) parent name in
  let* made := s0fs (make (cx_env ctx 1%nat)) in
  match made with
  | None => panic
  | Some node =>
      let* node := match actor with
                   | Some (mkActor uid (gid :: _)) =>
                       do* s0fs_internal (S0fsEngine.SetOwner (cx_env ctx 2%nat) (n_Inode node) uid gid) in
                       s0fs (S0fsEngine.GetAttr (n_Inode node))
                   | _ => ret node
                   end in
      let* s := get in
      let path := if decide (path = "") then resolveInodePath (ss_vol s) (n_Inode node) else path in
      do* publishEvent ctx (path_event volumeID EVENT_CREATE path (n_Inode node)) in
      ret node
  end.

Definition Create_body ctx volumeID parent name mode actor : Body NodeResponse :=
  let* node := create_body ctx volumeID parent name actor (fun env => S0fsEngine.CreateFile env parent name mode) in
  let* handle := on_handles (OpenFileHandle (n_Inode node)) in
  ret (s0fsNodeResponse (Some node) handle).

Definition Mkdir_body ctx volumeID parent name mode actor : Body NodeResponse :=
  let* node := create_body ctx volumeID parent name actor (fun env => S0fsEngine.Mkdir env parent name mode) in
  ret (s0fsNodeResponse (Some node) 0).

Definition Symlink_body ctx volumeID parent name target actor : Body NodeResponse :=
  let* node := create_body ctx volumeID parent name actor (fun env => S0fsEngine.Symlink env parent name target 511) in
  ret (s0fsNodeResponse (Some node) 0).

Definition Unlink_body (ctx : Ctx) (volumeID : string) (parent : Z) (name : string) : Body unit :=
  let* s := get in
  let path := resolveChildPath (ss_vol s) parent name in
  let* inode := s0fs (S0fsEngine.UnlinkWithInode (cx_env ctx 0%nat) parent name) in
  let* marked := on_handles (MarkUnlinkedFileIfOpen inode) in
  do* (if marked then ret tt else s0fs_ignore (S0fsEngine.Forget inode)) in
  publishEvent ctx (path_event volumeID EVENT_REMOVE path inode).

Record DirEntryResponse := mkDirEntryResponse {
  dr_Inode : Z; dr_Offset : Z; dr_Name : string; dr_Type : Z; dr_Attr : option AttrResponse
}.

(** The entries from position [pos] on. *)
Fixpoint list_entries (plus : bool) (pos : Z) (entries : list DirEntry) : Body (list DirEntryResponse) :=
  match entries with
  | [] => ret []
  | entry :: rest =>
      let* attr := (if plus then let* node := s0fs (S0fsEngine.GetAttr (de_Inode entry)) in ret (Some (s0fsAttr (Some node)))
                    else ret None) in
      let* items := list_entries plus (pos + 1) rest in
      ret (mkDirEntryResponse (de_Inode entry) (u64 (pos + 1)) (de_Name entry) (s0fsTypeNumber (de_Type entry)) attr :: items)
  end.

Definition ReadDir_body (inode offset : Z) (plus : bool) : Body (list DirEntryResponse) :=
  let* entries := s0fs (S0fsEngine.ReadDir inode) in
  let start := if offset <? 0 then 0 else offset in
  let start := if zlen entries <? start then zlen entries else start in
  list_entries plus start (drop (Z.to_nat start) entries).

Definition OpenDir_body (inode : Z) : Body Z :=
  let* _ := s0fs (S0fsEngine.GetAttr inode) in on_handles (OpenDirHandle inode).

Definition ReleaseDir_body (handleID : Z) : Body unit :=
  let* _ := on_handles (ReleaseHandle handleID) in ret tt.

Definition Rename_body (ctx : Ctx) (volumeID : string) (oldParent : Z) (oldName : string) (newParent : Z) (newName : string)
    : Body unit :=
  let* s := get in
  let oldPath := resolveChildPath (ss_vol s) oldParent oldName in
  let newPath := resolveChildPath (ss_vol s) newParent newName in
  do* s0fs (S0fsEngine.Rename (cx_env ctx 0%nat) oldParent oldName newParent newName) in
  publishEvent ctx
    (mkEvent volumeID (if decide (oldPath = "" /\ newPath = "") then EVENT_INVALIDATE else EVENT_RENAME)
       newPath oldPath 0 0 "" "" "").

Definition SetAttrMode : Z := 1.
Definition SetAttrUID : Z := 2.
Definition SetAttrGID : Z := 4.
Definition SetAttrSize : Z := 8.

Definition SetAttr_body (ctx : Ctx) (volumeID : string) (inode valid : Z) (attr : option AttrResponse) : Body AttrResponse :=
  let attr := default empty_attr attr in
  let* s := get in
  let path := resolveInodePath (ss_vol s) inode in
  do* (if has_bit valid SetAttrMode
       then s0fs (S0fsEngine.SetMode (cx_env ctx 0%nat) inode (Z.land (at_Mode attr) 4095)) else ret tt) in
  do* (if has_bit valid (Z.lor SetAttrUID SetAttrGID) then
         let* current := s0fs (S0fsEngine.GetAttr inode) in
         let uid := if has_bit valid SetAttrUID then at_Uid attr else n_UID current in
         let gid := if has_bit valid SetAttrGID then at_Gid attr else n_GID current in
         s0fs (S0fsEngine.SetOwner (cx_env ctx 1%nat) inode uid gid)
       else ret tt) in
  do* (if has_bit valid SetAttrSize
       then s0fs (S0fsEngine.Truncate (cx_env ctx 2%nat) inode (at_Size attr)) else ret tt) in
  let* updated := s0fs (S0fsEngine.GetAttr inode) in
  let eventType := if decide (path = "") then EVENT_INVALIDATE else
                   if has_bit valid SetAttrMode then EVENT_CHMOD else EVENT_WRITE in
  do* publishEvent ctx (simple_event volumeID eventType path inode) in
  ret (s0fsAttr (Some updated)).

Definition Flush_body (ctx : Ctx) (volumeID : string) (handleID : Z) : Body unit :=
  let* dirty := peekDirtyWrite volumeID handleID in
  match dirty with
  | Some d => do* syncS0FSHandle (cx_env ctx 0%nat) (dw_inode d) in clearDirtyWrite volumeID handleID
  | None => ret tt
  end.

Definition Fsync_body (ctx : Ctx) (volumeID : string) (handleID : Z) : Body unit :=
  let* opened := on_handles (fun h => (HandleInode handleID h, h)) in
  let* dirty := peekDirtyWrite volumeID handleID in
  match (match dirty with Some d => Some (dw_inode d) | None => opened end) with
  | None => ret tt
  | Some inode =>
      if inode =? 0 then ret tt else
      do* syncS0FSHandle (cx_env ctx 0%nat) inode in clearDirtyWrite volumeID handleID
  end.

(** [syncErr], kept while the handle is released. *)
Definition keep_err {A} (m : Body A) : Body (option srv_error) := fun s =>
  match m s with
  | (Ok _, s') => (Ok None, s')
  | (Err e, s') => (Ok (Some e), s')
  | (Panic, s') => (Panic, s')
  end.

Definition Release_body (ctx : Ctx) (volumeID : string) (handleID : Z) : Body unit :=
  let* dirty := peekDirtyWrite volumeID handleID in
  let* syncErr := match dirty with
                  | Some d => keep_err (syncS0FSHandle (cx_env ctx 0%nat) (dw_inode d))
                  | None => ret None
                  end in
  let* '(inode, remaining, unlinked, ok) := on_handles (ReleaseFileHandle handleID) in
  do* (if ok && (remaining =? 0) && unlinked then s0fs_ignore (S0fsEngine.Forget inode) else ret tt) in
  do* clearDirtyWrite volumeID handleID in
  match syncErr with Some e => throw e | None => ret tt end.

Definition Rmdir_body (ctx : Ctx) (volumeID : string) (parent : Z) (name : string) : Body unit :=
  let* s := get in
  let path := resolveChildPath (ss_vol s) parent name in
  do* s0fs (S0fsEngine.RemoveDir (cx_env ctx 0%nat) parent name) in
  publishEvent ctx (path_event volumeID EVENT_REMOVE path 0).

Definition Readlink_body (inode : Z) : Body string :=
  let* node := s0fs (S0fsEngine.GetAttr inode) in
  match n_Type node with
  | TypeSymlink => ret (n_Target node)
  | _ => throw (New FailedPrecondition "inode is not a symbolic link")
  end.

Definition Link_body (ctx : Ctx) (volumeID : string) (inode newParent : Z) (newName : string) : Body NodeResponse :=
  let* s := get in
  let path := resolveChildPath (ss_vol s) newParent newName in
  let* made := s0fs (S0fsEngine.Link (cx_env ctx 0%nat) inode newParent newName) in
  match made with
  | None => panic
  | Some node =>
      do* publishEvent ctx (path_event volumeID EVENT_CREATE path (n_Inode node)) in
      ret (s0fsNodeResponse (Some node) 0)
  end.

(** The actor of an access request: the one given, else the uid and gids of the request. *)
Definition accessActor (actor : option PosixActor) (uid : Z) (gids : list Z) : PosixActor :=
  default (mkActor uid gids) actor.

Definition Access_body (inode mask uid : Z) (gids : list Z) (actor : option PosixActor) : Body unit :=
  let* node := s0fs (S0fsEngine.GetAttr inode) in
  lift_res (checkS0FSAccess node (Some (accessActor actor uid gids)) mask).

End bodies.

(** ** The server *)

Section server.
Context {B X : Type} `{UP : UnicodeUpper} `{CR : ColdReader} `{BK : Backend B X} `{RG : MountRegistrar X}.
Context (cfg : Config).

Abbreviation Srv := (ST srv_error (Server B X)).

Definition set_mgr (m : Manager B * X) (s : Server B X) : Server B X := mkServer m (sv_hub s) (sv_dirty s) (sv_routes s).

(** A call of the volume manager, its error turned into [wrap] of its text. *)
Definition on_mgr {A} (wrap : string -> srv_error) (m : ST string (Manager B * X) A) : Srv A := fun s =>
  let '(r, g) := m (sv_mgr s) in
  (match r with Ok a => Ok a | Err e => Err (wrap e) | Panic => Panic end, set_mgr g s).

(** [fn(ctx, volCtx)], where [volCtx] is the entry of the manager's table. *)
Definition run_body {A} (volumeID : string) (volCtx : VolumeContext) (body : Body A) : Srv A := fun s =>
  let '(r, b) := body (mkSess volCtx (sv_hub s) (sv_dirty s)) in
  (r, mkServer (set_volumes (<[volumeID := ss_vol b]> (mg_volumes (sv_mgr s).1)) (sv_mgr s).1, (sv_mgr s).2)
        (ss_hub b) (ss_dirty b) (sv_routes s)).

Definition requireLocalPrimary (volumeID : string) : Srv unit :=
  let* s := get in
  let route := Resolve volumeID (sv_routes s) in
  if rt_LocalPrimary route then ret tt else
  throw (WithRedirect (New FailedPrecondition "volume primary is remote")
           (mkRedirect volumeID (rt_PrimaryNodeID route) (rt_PrimaryAddr route) (rt_Epoch route))).

Definition authorizeVolumeMount (ctx : Ctx) (volumeID : string) : res srv_error SandboxVolume :=
  match cx_claims ctx with
  | None => Err (New Unauthenticated "team id not found in context")
  | Some claims =>
      if decide (cl_TeamID claims = "") then Err (New Unauthenticated "team id not found in context") else
      match cf_repo cfg with
      | None => Err (New FailedPrecondition "volume authorization unavailable")
      | Some repo =>
          match GetSandboxVolume repo volumeID with
          | Panic => Panic
          | Err DbNotFound => Err (New NotFound "sandbox volume not found")
          | Err _ => Err (New Internal "failed to load sandbox volume")
          | Ok vol =>
              if decide (sbv_TeamID vol <> cl_TeamID claims) then Err (New PermissionDenied "access denied to volume") else
              match GetSandboxVolumeOwner repo volumeID with
              | Panic => Panic
              | Err DbOther => Err (New Internal "failed to load sandbox volume owner")
              | Err _ => Ok vol
              | Ok owner =>
                  if negb (IsSystemToken claims) && negb (bool_decide (cl_SandboxID claims = owner))
                  then Err (New PermissionDenied "access denied to system volume") else Ok vol
              end
          end
      end
  end.

Definition getAuthorizedMountedVolume (ctx : Ctx) (volumeID : string) : Srv VolumeContext :=
  match cx_claims ctx with
  | None => throw (New Unauthenticated "missing auth claims")
  | Some claims =>
      let* volCtx := on_mgr (New NotFound) (GetVolume volumeID) in
      if IsSystemToken claims then ret volCtx else
      if decide (cl_TeamID claims = "") then throw (New Unauthenticated "team id not found in context") else
      let* ownerTeamID :=
        (if decide (vc_TeamID volCtx = "") then
           match cf_repo cfg with
           | None => ret ""
           | Some repo =>
               match GetSandboxVolume repo volumeID with
               | Panic => panic
               | Err DbNotFound => throw (New NotFound "sandbox volume not found")
               | Err _ => throw (New Internal "failed to load sandbox volume")
               | Ok vol => ret (sbv_TeamID vol)
               end
           end
         else ret (vc_TeamID volCtx)) in
      if decide (ownerTeamID = "") then throw (New FailedPrecondition "volume authorization unavailable") else
      if decide (ownerTeamID <> cl_TeamID claims) then throw (New PermissionDenied "access denied to volume")
      else ret volCtx
  end.

(** The guard that the handlers put before their work on the engine. *)
Definition on_s0fs {A} (volumeID : string) (volCtx : VolumeContext) (body : Body A) : Srv A :=
  if isS0FSVolume volCtx then run_body volumeID volCtx body else throw (unsupportedVolumeBackend volCtx).

(** A handler that does not change the volume. *)
Definition reading {A} (ctx : Ctx) (volumeID : string) (body : Body A) : Srv A :=
  let* volCtx := getAuthorizedMountedVolume ctx volumeID in on_s0fs volumeID volCtx body.

Definition withAuthorizedVolumeMutation {A} (ctx : Ctx) (volumeID : string) (fn : VolumeContext -> Srv A) : Srv A :=
  let run :=
    do* requireLocalPrimary volumeID in
    let* volCtx := getAuthorizedMountedVolume ctx volumeID in
    fn volCtx in
  match cf_barrier cfg with
  | None => run
  | Some barrier =>
      match barrier volumeID with
      | Some err => throw (OtherError err)
      | None => run
      end
  end.

Definition mutating {A} (ctx : Ctx) (volumeID : string) (body : Body A) : Srv A :=
  withAuthorizedVolumeMutation ctx volumeID (fun volCtx => on_s0fs volumeID volCtx body).

(** *** Mounting *)

Definition MountVolume (ctx : Ctx) (sessionID volumeID : string) : Srv (string * Z * string) :=
  match cx_claims ctx with
  | None => throw (New Unauthenticated "team id not found in context")
  | Some claims =>
      if decide (cl_TeamID claims = "") then throw (New Unauthenticated "team id not found in context") else
      let* vol := lift_res (authorizeVolumeMount ctx volumeID) in
      do* requireLocalPrimary volumeID in
      let accessMode := NormalizeAccessMode (sbv_AccessMode vol) in
      match S3VolumePrefix (cl_TeamID claims) volumeID with
      | Panic => panic
      | Err text => throw (New InvalidArgument text)
      | Ok prefix =>
          let* '(session, mountedAt) :=
            on_mgr (fun text => if Contains_str text "another team" then New PermissionDenied text else New Internal text)
              (Volume.MountVolume sessionID (cx_now ctx) prefix volumeID (cl_TeamID claims) accessMode) in
          ret (volumeID, mountedAt, session)
      end
  end.

Definition UnmountVolume (ctx : Ctx) (volumeID mountSessionID : string) : Srv unit :=
  if decide (mountSessionID = "") then throw (New InvalidArgument "mount_session_id is required") else
  let* _ := getAuthorizedMountedVolume ctx volumeID in
  on_mgr (fun text => if Contains_str text "not mounted" || Contains_str text "not found"
                      then New NotFound text else New Internal text)
    (Volume.UnmountVolume volumeID mountSessionID).

Definition AckInvalidate (ctx : Ctx) (volumeID mountSessionID invalidateID : string) (success : bool)
    (errorMessage : string) : Srv unit :=
  if decide (volumeID = "" \/ mountSessionID = "" \/ invalidateID = "") then
    throw (New InvalidArgument "volume_id, mount_session_id and invalidate_id are required") else
  let* _ := getAuthorizedMountedVolume ctx volumeID in
  on_mgr (New Internal) (Volume.AckInvalidate volumeID mountSessionID invalidateID success errorMessage).

(** *** Files and directories *)

Definition GetAttr ctx volumeID inode := reading ctx volumeID (GetAttr_body inode).
Definition Lookup ctx volumeID parent name := reading ctx volumeID (Lookup_body parent name).

Definition Open (ctx : Ctx) (volumeID : string) (inode flags : Z) (actor : option PosixActor) : Srv Z :=
  let* volCtx := getAuthorizedMountedVolume ctx volumeID in
  if isS0FSVolume volCtx then
    if has_bit flags O_TRUNC
    then withAuthorizedVolumeMutation ctx volumeID
           (fun volCtx => run_body volumeID volCtx (openS0FS ctx volumeID inode flags actor))
    else run_body volumeID volCtx (openS0FS ctx volumeID inode flags actor)
  else throw (unsupportedVolumeBackend volCtx).

Definition Read ctx volumeID inode offset size := reading ctx volumeID (Read_body inode offset size).
Definition Write ctx volumeID inode offset data handleID := mutating ctx volumeID (Write_body ctx volumeID inode offset data handleID).
Definition Create ctx volumeID parent name mode actor := mutating ctx volumeID (Create_body ctx volumeID parent name mode actor).
Definition Mkdir ctx volumeID parent name mode actor := mutating ctx volumeID (Mkdir_body ctx volumeID parent name mode actor).
Definition Unlink ctx volumeID parent name := mutating ctx volumeID (Unlink_body ctx volumeID parent name).
Definition ReadDir ctx volumeID inode offset plus := reading ctx volumeID (ReadDir_body inode offset plus).
Definition OpenDir ctx volumeID inode := reading ctx volumeID (OpenDir_body inode).
Definition ReleaseDir ctx volumeID handleID := reading ctx volumeID (ReleaseDir_body handleID).
Definition Rename ctx volumeID oldParent oldName newParent newName := mutating ctx volumeID (Rename_body ctx volumeID oldParent oldName newParent newName).
Definition SetAttr ctx volumeID inode valid attr := mutating ctx volumeID (SetAttr_body ctx volumeID inode valid attr).
Definition Flush ctx volumeID handleID := reading ctx volumeID (Flush_body ctx volumeID handleID).
Definition Fsync ctx volumeID handleID := reading ctx volumeID (Fsync_body ctx volumeID handleID).
Definition Release ctx volumeID handleID := reading ctx volumeID (Release_body ctx volumeID handleID).
Definition Rmdir ctx volumeID parent name := mutating ctx volumeID (Rmdir_body ctx volumeID parent name).
Definition Symlink ctx volumeID parent name target actor := mutating ctx volumeID (Symlink_body ctx volumeID parent name target actor).
Definition Readlink ctx volumeID inode := reading ctx volumeID (Readlink_body inode).
Definition Link ctx volumeID inode newParent newName := mutating ctx volumeID (Link_body ctx volumeID inode newParent newName).
Definition Access ctx volumeID inode mask uid gids actor := reading ctx volumeID (Access_body inode mask uid gids actor).

(** Blocks, Bfree, Bavail, Files, Ffree, Bsize, Namelen, Frsize. *)
Definition StatFs ctx volumeID : Srv (list Z) :=
  reading ctx volumeID (ret [262144; 131072; 131072; 1048576; 1048576; 4096; 255; 4096]).

(** The calls that s0fs does not implement, by the guard they have. *)
Definition Mknod ctx volumeID : Srv unit := mutating ctx volumeID (throw (New Unimplemented "mknod is not implemented for s0fs")).
Definition Fallocate ctx volumeID : Srv unit := mutating ctx volumeID (throw (New Unimplemented "fallocate is not implemented for s0fs")).
Definition CopyFileRange ctx volumeID : Srv unit := mutating ctx volumeID (throw (New Unimplemented "copy_file_range is not implemented for s0fs")).
Definition SetXattr ctx volumeID : Srv unit := mutating ctx volumeID (throw (New Unimplemented "xattr is not implemented for s0fs")).
Definition RemoveXattr ctx volumeID : Srv unit := mutating ctx volumeID (throw (New Unimplemented "xattr is not implemented for s0fs")).
Definition GetXattr ctx volumeID : Srv unit := reading ctx volumeID (throw (New Unimplemented "xattr is not implemented for s0fs")).
Definition ListXattr ctx volumeID : Srv unit := reading ctx volumeID (throw (New Unimplemented "xattr is not implemented for s0fs")).
Definition Flock ctx volumeID : Srv unit := reading ctx volumeID (throw (New Unimplemented "flock is not implemented for s0fs")).
Definition Ioctl ctx volumeID : Srv unit := reading ctx volumeID (throw (New Unimplemented "ioctl is not implemented for s0fs")).

(** [has_lock] tells whether the request has a lock. *)
Definition GetLk ctx volumeID (has_lock : bool) : Srv unit :=
  let* volCtx := getAuthorizedMountedVolume ctx volumeID in
  if isS0FSVolume volCtx then throw (New Unimplemented "locks are not implemented for s0fs") else
  if negb has_lock then throw (New InvalidArgument "lock is required") else throw (unsupportedVolumeBackend volCtx).
Definition SetLk ctx volumeID (has_lock : bool) : Srv unit :=
  let* volCtx := getAuthorizedMountedVolume ctx volumeID in
  if isS0FSVolume volCtx then throw (New Unimplemented "locks are not implemented for s0fs") else
  if negb has_lock then throw (New InvalidArgument "lock is required") else throw (unsupportedVolumeBackend volCtx).

End server.
