(* ===== verification/NotifySpec.v ===== *)
(** * Delivery of watch events

    What a watcher receives of the events that are published, over all runs of the
    hub: nothing but matching events, in the order of publication, each at most
    once; all of them while the queue has room; never an event of another volume. *)

From stdpp Require Import base gmap strings list fin_maps numbers sorting.
From Stdlib Require Import Strings.Byte Strings.Ascii.
From S2P Require Import Prelude GoStd Notify.

Local Open Scope Z_scope.

(** ** Runs of the hub *)

Inductive hub_op :=
| HSubscribe (id : string) (req : WatchRequest)
| HUnsubscribe (id : string)
| HPublish (now : Z) (event : WatchEvent)
| HReceive (id : string).

Definition hub_step (op : hub_op) (h : Hub) : Hub :=
  match op with
  | HSubscribe id req => Subscribe id req h
  | HUnsubscribe id => Unsubscribe id h
  | HPublish now event => Publish now event h
  | HReceive id => (receive id h).2
  end.

Definition hub_run (ops : list hub_op) (h : Hub) : Hub := foldl (fun h op => hub_step op h) h ops.

(** The request as the hub keeps it. *)
Definition cleaned (req : WatchRequest) : WatchRequest :=
  mkWatch (wr_VolumeId req) (TrimRight (wr_PathPrefix req) "/"%char) (wr_Recursive req) (wr_IncludeSelf req) (wr_SandboxId req).

(** The matching events that a run publishes, with their time stamps. *)
Fixpoint matching (req : WatchRequest) (ops : list hub_op) : list WatchEvent :=
  match ops with
  | [] => []
  | HPublish now event :: rest =>
      (if matches req (stamp now event) then [stamp now event] else []) ++ matching req rest
  | _ :: rest => matching req rest
  end.

(** What the reader of a subscription takes from its channel in a run. *)
Fixpoint received (id : string) (ops : list hub_op) (h : Hub) : list WatchEvent :=
  match ops with
  | [] => []
  | op :: rest =>
      match op with
      | HReceive id' => if decide (id' = id) then option_list (receive id h).1 else []
      | _ => []
      end ++ received id rest (hub_step op h)
  end.

Definition queue_of (id : string) (h : Hub) : list WatchEvent := from_option sub_queue [] (hub_subs h !! id).

(** Whenever a matching event is published there is room in the queue. *)
Fixpoint keeps_up (id : string) (req : WatchRequest) (ops : list hub_op) (h : Hub) : Prop :=
  match ops with
  | [] => True
  | op :: rest =>
      match op with
      | HPublish now event => matches req (stamp now event) = true -> zlen (queue_of id h) < hub_queueSize h
      | _ => True
      end /\ keeps_up id req rest (hub_step op h)
  end.

(** The run neither ends the subscription nor makes another one with its id. *)
Definition leaves (id : string) (op : hub_op) : Prop :=
  match op with
  | HSubscribe id' _ => id' <> id
  | HUnsubscribe id' => id' <> id
  | _ => True
  end.

(** ** The tables of the hub *)

(** The table by volume lists exactly the subscriptions to the volume. *)
Record hub_ok (h : Hub) : Prop := {
  hub_listed : forall id sub, hub_subs h !! id = Some sub ->
    sub_id sub = id /\ (wr_VolumeId (sub_req sub) <> "" -> id ∈ volume_subs h (wr_VolumeId (sub_req sub)));
  hub_table : forall v id, id ∈ volume_subs h v ->
    exists sub, hub_subs h !! id = Some sub /\ wr_VolumeId (sub_req sub) = v /\ v <> "";
  hub_bound : forall id sub, hub_subs h !! id = Some sub -> zlen (sub_queue sub) <= hub_queueSize h;
  hub_positive : 0 < hub_queueSize h
}.

Lemma offer_req n e sub : sub_req (offer n e sub) = sub_req sub.
Proof. unfold offer. by destruct (_ && _). Qed.
Lemma offer_id n e sub : sub_id (offer n e sub) = sub_id sub.
Proof. unfold offer. by destruct (_ && _). Qed.
Lemma offer_bound n e sub : zlen (sub_queue sub) <= n -> zlen (sub_queue (offer n e sub)) <= n.
Proof.
  unfold offer. destruct (matches _ _); simpl; [|done].
  destruct (Z.ltb_spec (zlen (sub_queue sub)) n); simpl; [|done]. unfold zlen in *. rewrite length_app. simpl. lia.
Qed.

Definition targets (e : WatchEvent) (h : Hub) : gset string :=
  if decide (we_VolumeId e <> "") then volume_subs h (we_VolumeId e) else dom (hub_subs h).

Lemma Publish_lookup now event h id :
  hub_subs (Publish now event h) !! id =
    (fun sub => if decide (id ∈ targets (stamp now event) h) then offer (hub_queueSize h) (stamp now event) sub else sub)
      <$> hub_subs h !! id.
Proof. unfold Publish; simpl. rewrite map_lookup_imap. by destruct (hub_subs h !! id). Qed.

(** Every subscription to a volume is offered the event: those that are not targets do not match. *)
Lemma Publish_offers now event h id sub :
  hub_ok h -> hub_subs h !! id = Some sub -> wr_VolumeId (sub_req sub) <> "" ->
  hub_subs (Publish now event h) !! id = Some (offer (hub_queueSize h) (stamp now event) sub).
Proof.
  intros W E H0. rewrite Publish_lookup, E. simpl. f_equal.
  destruct (decide (id ∈ _)) as [|Hn]; [done|]. unfold targets in Hn.
  destruct (decide (we_VolumeId _ <> "")) as [Hv|Hv].
  - destruct (hub_listed _ W _ _ E) as [_ Hl]. unfold offer, matches.
    rewrite decide_True; [done|]. split; [done|]. intros Heq. apply Hn. rewrite <- Heq. auto.
  - destruct Hn. by apply elem_of_dom_2 in E.
Qed.

Lemma volume_subs_insert h v ids u q s :
  volume_subs (mkHub s (<[v := ids]> (hub_byVolume h)) q) u = if decide (u = v) then ids else volume_subs h u.
Proof.
  unfold volume_subs; simpl. destruct (decide (u = v)) as [->|Hn].
  - by rewrite lookup_insert_eq.
  - by rewrite lookup_insert_ne by congruence.
Qed.

Lemma hub_ok_subscribe id req h : hub_subs h !! id = None -> hub_ok h -> hub_ok (Subscribe id req h).
Proof.
  intros Hid [H1 H2 H3 H4]. unfold Subscribe.
  assert (Hmono : forall u, volume_subs h u ⊆ volume_subs (Subscribe id req h) u).
  { intros u. unfold Subscribe. destruct (decide (wr_VolumeId req = "")); [done|].
    rewrite volume_subs_insert. destruct (decide (u = _)); [subst; set_solver|done]. }
  unfold Subscribe in Hmono. split; simpl; [| | |done].
  - intros id' sub [[<- <-]|[Hne Hl]]%lookup_insert_Some; simpl.
    + split; [done|]. intros Hv. rewrite decide_False by done. rewrite volume_subs_insert, decide_True by done. set_solver.
    + destruct (H1 _ _ Hl) as [? Hin]. split; [done|]. intros Hv. apply Hmono; auto.
  - intros v id'. destruct (decide (wr_VolumeId req = "")) as [He|He].
    + intros (sub & Hl & ?)%H2. exists sub. rewrite lookup_insert_ne by congruence. done.
    + rewrite volume_subs_insert. destruct (decide (v = wr_VolumeId req)) as [->|Hn].
      * intros [->%elem_of_singleton|(sub & Hl & ?)%H2]%elem_of_union.
        -- rewrite lookup_insert_eq. eauto.
        -- exists sub. rewrite lookup_insert_ne by congruence. done.
      * intros (sub & Hl & ?)%H2. exists sub. rewrite lookup_insert_ne by congruence. done.
  - intros id' sub [[<- <-]|[Hne Hl]]%lookup_insert_Some; simpl; [unfold zlen; simpl; lia|eauto].
Qed.

Lemma volume_subs_unsubscribe id sub h v :
  hub_subs h !! id = Some sub -> hub_ok h -> volume_subs (Unsubscribe id h) v = volume_subs h v ∖ {[id]}.
Proof.
  intros E W. unfold Unsubscribe. rewrite E.
  assert (Hother : forall v, v <> wr_VolumeId (sub_req sub) -> volume_subs h v ∖ {[id]} = volume_subs h v).
  { intros u Hu. apply leibniz_equiv. intros x. rewrite elem_of_difference, elem_of_singleton. split; [naive_solver|].
    intros Hx. split; [done|]. intros ->. destruct (hub_table _ W _ _ Hx) as (sub' & Hs & ? & ?). congruence. }
  destruct (decide (wr_VolumeId (sub_req sub) = "")) as [He|He].
  - symmetry. change (volume_subs h v ∖ {[id]} = volume_subs h v). destruct (decide (v = "")) as [->|]; [|apply Hother; congruence].
    apply leibniz_equiv. intros x. split; [set_solver|]. intros Hx. by destruct (hub_table _ W _ _ Hx) as (? & ? & ? & ?).
  - destruct (hub_byVolume h !! wr_VolumeId (sub_req sub)) as [ids|] eqn:Hv.
    + assert (Hids : volume_subs h (wr_VolumeId (sub_req sub)) = ids) by (unfold volume_subs; by rewrite Hv).
      destruct (decide (ids ∖ {[id]} = ∅)) as [Hz|Hz].
      * destruct (decide (v = wr_VolumeId (sub_req sub))) as [->|Hn].
        -- rewrite Hids, Hz. unfold volume_subs. simpl. by rewrite lookup_delete_eq.
        -- rewrite Hother by done. unfold volume_subs. simpl. by rewrite lookup_delete_ne by congruence.
      * rewrite volume_subs_insert. destruct (decide (v = _)) as [->|Hn]; [by rewrite Hids|by rewrite Hother].
    + assert (Hids : volume_subs h (wr_VolumeId (sub_req sub)) = ∅) by (unfold volume_subs; by rewrite Hv).
      change (volume_subs h v = volume_subs h v ∖ {[id]}).
      destruct (decide (v = wr_VolumeId (sub_req sub))) as [->|]; [rewrite Hids; set_solver|by rewrite Hother].
Qed.

Lemma hub_ok_unsubscribe id h : hub_ok h -> hub_ok (Unsubscribe id h).
Proof.
  intros W. destruct (hub_subs h !! id) as [sub|] eqn:E; [|unfold Unsubscribe; by rewrite E].
  pose proof (fun v => volume_subs_unsubscribe id sub h v E W) as HV.
  assert (HS : hub_subs (Unsubscribe id h) = delete id (hub_subs h)) by (unfold Unsubscribe; by rewrite E).
  assert (HQ : hub_queueSize (Unsubscribe id h) = hub_queueSize h) by (unfold Unsubscribe; by rewrite E).
  destruct W as [H1 H2 H3 H4]. split.
  - intros id' s. rewrite HS. intros [Hne Hl]%lookup_delete_Some. destruct (H1 _ _ Hl) as [? Hin]. split; [done|].
    intros Hv. rewrite HV. set_solver.
  - intros v id'. rewrite HV, HS. intros [(s & Hl & ?)%H2 Hne]%elem_of_difference. exists s.
    rewrite lookup_delete_ne by set_solver. done.
  - intros id' s. rewrite HS, HQ. intros [_ Hl]%lookup_delete_Some. eauto.
  - by rewrite HQ.
Qed.

Lemma hub_ok_publish now e h : hub_ok h -> hub_ok (Publish now e h).
Proof.
  intros [H1 H2 H3 H4]. split; [| | |done].
  - intros id sub. rewrite Publish_lookup. intros (sub0 & Hl & ->)%fmap_Some. destruct (H1 _ _ Hl) as [? ?].
    destruct (decide _); rewrite ?offer_id, ?offer_req; auto.
  - intros v id (sub & Hl & Hv & ?)%H2. rewrite Publish_lookup, Hl. simpl. eexists. split; [done|].
    destruct (decide _); rewrite ?offer_req; auto.
  - intros id sub. rewrite Publish_lookup. intros (sub0 & Hl & ->)%fmap_Some.
    destruct (decide _); [apply offer_bound|]; eauto.
Qed.

Lemma hub_ok_receive id h : hub_ok h -> hub_ok (receive id h).2.
Proof.
  intros W. unfold receive. destruct (hub_subs h !! id) as [sub|] eqn:E; [|done].
  destruct (sub_queue sub) as [|e q] eqn:Eq; [done|]. destruct W as [H1 H2 H3 H4]. split; simpl; [| | |done].
  - intros id' s [[<- <-]|[_ Hl]]%lookup_insert_Some; [apply (H1 _ _ E)|apply (H1 _ _ Hl)].
  - intros v id' (s & Hl & ?)%H2. destruct (decide (id' = id)) as [->|].
    + rewrite lookup_insert_eq. eexists. split; [done|]. simpl. congruence.
    + rewrite lookup_insert_ne by congruence. eauto.
  - intros id' s [[<- <-]|[_ Hl]]%lookup_insert_Some; simpl; [|eauto].
    specialize (H3 _ _ E). rewrite Eq, zlen_cons in H3. lia.
Qed.

(** ** One step, seen from one subscription *)

Definition fresh_op (op : hub_op) (h : Hub) : Prop :=
  match op with HSubscribe id _ => hub_subs h !! id = None | _ => True end.

Lemma hub_ok_step op h : hub_ok h -> fresh_op op h -> hub_ok (hub_step op h).
Proof.
  intros W Hf. destruct op; simpl.
  - by apply hub_ok_subscribe.
  - by apply hub_ok_unsubscribe.
  - by apply hub_ok_publish.
  - by apply hub_ok_receive.
Qed.

(** What the step appends to the queue and takes from it. *)
Definition taken (id : string) (op : hub_op) (h : Hub) : list WatchEvent :=
  match op with HReceive id' => if decide (id' = id) then option_list (receive id h).1 else [] | _ => [] end.

Definition offered (req : WatchRequest) (op : hub_op) : list WatchEvent :=
  match op with
  | HPublish now event => if matches req (stamp now event) then [stamp now event] else []
  | _ => []
  end.

Lemma hub_step_sub id sub op h :
  hub_ok h -> hub_subs h !! id = Some sub -> wr_VolumeId (sub_req sub) <> "" -> leaves id op ->
  exists q, hub_subs (hub_step op h) !! id = Some (mkSub id (sub_req sub) q) /\
    (taken id op h ++ q = sub_queue sub ++ offered (sub_req sub) op \/
     taken id op h ++ q = sub_queue sub /\ hub_queueSize h <= zlen (sub_queue sub) /\ offered (sub_req sub) op <> []).
Proof.
  intros W E Hv L. destruct (hub_listed _ W _ _ E) as [Hid _]. destruct sub as [i req q0]. simpl in *. subst i.
  destruct op as [id' r|id'|now e|id']; cbn [hub_step taken offered leaves] in *.
  - exists q0. unfold Subscribe; simpl. rewrite lookup_insert_ne by congruence. rewrite app_nil_r. auto.
  - exists q0. rewrite app_nil_r. split; [|by left]. unfold Unsubscribe. destruct (hub_subs h !! id') as [s|] eqn:Es; [|done].
    simpl. by rewrite lookup_delete_ne by congruence.
  - rewrite (Publish_offers _ _ _ _ _ W E Hv). unfold offer. cbn [sub_req sub_queue sub_id]. destruct (matches req _); simpl.
    + destruct (Z.ltb_spec (zlen q0) (hub_queueSize h)); eexists; (split; [done|]); simpl; [by left|]. right. done.
    + exists q0. rewrite app_nil_r. auto.
  - rewrite app_nil_r. unfold receive. destruct (decide (id' = id)) as [->|Hn].
    + rewrite E. simpl. destruct q0 as [|e q0]; simpl; [exists []; auto|]. exists q0. rewrite lookup_insert_eq. auto.
    + exists q0. split; [|by left]. destruct (hub_subs h !! id') as [s|]; [|done]. destruct (sub_queue s); [done|].
      simpl. by rewrite lookup_insert_ne by congruence.
Qed.

Lemma hub_step_size op h : hub_queueSize (hub_step op h) = hub_queueSize h.
Proof.
  destruct op; simpl; [done| |done|].
  - unfold Unsubscribe. by destruct (hub_subs h !! id).
  - unfold receive. destruct (hub_subs h !! id) as [s|]; [|done]. by destruct (sub_queue s).
Qed.

(** Ids are those of [uuid.New]: a new subscription does not have the id of one that exists. *)
Fixpoint fresh_ids (ops : list hub_op) (h : Hub) : Prop :=
  match ops with
  | [] => True
  | op :: rest => fresh_op op h /\ fresh_ids rest (hub_step op h)
  end.

Lemma received_cons id op ops h : received id (op :: ops) h = taken id op h ++ received id ops (hub_step op h).
Proof. done. Qed.

Lemma matching_cons req op ops : matching req (op :: ops) = offered req op ++ matching req ops.
Proof. by destruct op. Qed.

(** From any state in which the subscription exists. *)
Lemma delivery id ops h sub :
  hub_ok h -> fresh_ids ops h -> hub_subs h !! id = Some sub -> wr_VolumeId (sub_req sub) <> "" -> Forall (leaves id) ops ->
  let h' := hub_run ops h in
  (received id ops h ++ queue_of id h') `sublist_of` (sub_queue sub ++ matching (sub_req sub) ops) /\
  zlen (queue_of id h') <= hub_queueSize h /\
  (keeps_up id (sub_req sub) ops h -> received id ops h ++ queue_of id h' = sub_queue sub ++ matching (sub_req sub) ops).
Proof.
  revert h sub. induction ops as [|op ops IH]; intros h sub W F E Hv L.
  - simpl. unfold queue_of. rewrite E. simpl. rewrite app_nil_r. split; [done|]. split; [|done]. apply (hub_bound _ W _ _ E).
  - inversion L as [|? ? L1 L2]; subst. destruct F as [F1 F2].
    destruct (hub_step_sub _ _ _ _ W E Hv L1) as (q & E' & Hq).
    specialize (IH _ _ (hub_ok_step _ _ W F1) F2 E' Hv L2). rewrite hub_step_size in IH. simpl in IH.
    destruct IH as (IH1 & IH2 & IH3). rewrite received_cons, matching_cons.
    change (hub_run (op :: ops) h) with (hub_run ops (hub_step op h)). split; [|split; [done|]].
    + rewrite <- app_assoc. destruct Hq as [Hq|(Hq & _ & _)].
      * rewrite (app_assoc (sub_queue sub)), <- Hq, <- app_assoc. by apply sublist_app.
      * rewrite <- Hq, <- (app_assoc _ q). apply sublist_app; [done|]. etrans; [exact IH1|].
        apply sublist_app; [done|]. by apply sublist_inserts_l.
    + intros [K1 K2]. rewrite <- app_assoc, (IH3 K2), app_assoc. destruct Hq as [Hq|(Hq & Hfull & Hoff)].
      * rewrite Hq. by rewrite <- app_assoc.
      * exfalso. destruct op as [| |now e|]; simpl in *; try done. destruct (matches _ _); [|done].
        specialize (K1 eq_refl). unfold queue_of in K1. rewrite E in K1. simpl in K1. lia.
Qed.

(** ** The property *)

(** A watcher of a volume gets what happens there.  In any run of the hub after
    the subscription, what its reader receives, followed by what is still queued, is
    a subsequence of the published events that match the watch, so each comes at
    most once, in order, and none of another volume; as long as the reader keeps the
    queue from filling up none is lost; and the queue never exceeds its bound. *)
Theorem watch_delivery id req ops h
    (W : hub_ok h) (New : hub_subs h !! id = None) (V : wr_VolumeId req <> "")
    (F : fresh_ids ops (Subscribe id req h)) (L : Forall (leaves id) ops) :
  let h0 := Subscribe id req h in
  let got := received id ops h0 ++ queue_of id (hub_run ops h0) in
  got `sublist_of` matching (cleaned req) ops /\
  Forall (fun e => we_VolumeId e = wr_VolumeId req) got /\
  zlen (queue_of id (hub_run ops h0)) <= hub_queueSize h /\
  (keeps_up id (cleaned req) ops h0 -> got = matching (cleaned req) ops).
Proof.
  intros h0 got.
  destruct (delivery id ops h0 (mkSub id (cleaned req) [])) as (D1 & D2 & D3); try done.
  - by apply hub_ok_subscribe.
  - unfold h0, Subscribe. simpl. by rewrite lookup_insert_eq.
  - simpl in *. split; [done|]. split; [|done].
    rewrite Forall_forall. intros e He. eapply elem_of_submseteq in He; [|by apply sublist_submseteq].
    revert e He. rewrite <- Forall_forall. clear -V. induction ops as [|op ops IH]; [constructor|].
    rewrite matching_cons. apply Forall_app. split; [|done]. destruct op as [| |now e|]; simpl; try constructor.
    destruct (matches _ _) eqn:M; [|constructor]. constructor; [|constructor].
    unfold matches in M. simpl in M. destruct (decide _) as [|Hn] in M; [done|]. destruct (decide (wr_VolumeId req = we_VolumeId (stamp now e))); [done|tauto].
Qed.

(** A watch without a volume is told to match every volume, but it is only looked at
    for events without a volume: it never gets an event of one. *)
Lemma unscoped_watch_misses now e h id sub :
  hub_ok h -> hub_subs h !! id = Some sub -> wr_VolumeId (sub_req sub) = "" -> we_VolumeId e <> "" ->
  queue_of id (Publish now e h) = sub_queue sub.
Proof.
  intros W E Hv He. unfold queue_of. rewrite Publish_lookup, E. simpl.
  rewrite decide_False; [done|]. unfold targets.
  assert (Hs : we_VolumeId (stamp now e) = we_VolumeId e) by (unfold stamp; by destruct (_ =? _)).
  rewrite Hs, decide_True by done. intros (s & Hl & ? & ?)%(hub_table _ W). congruence.
Qed.

(** A watch that is not recursive matches its own path only: not the entries of the
    directory it names. *)
Lemma plain_watch_misses_children req e :
  wr_Recursive req = false -> wr_PathPrefix req <> "" ->
  we_Path e <> "" -> we_Path e <> wr_PathPrefix req -> we_OldPath e = "" -> matches req e = false.
Proof.
  intros Hr Hp He Hne Ho. unfold matches, pathMatches. rewrite Ho, Hr.
  destruct (decide _); [done|]. destruct (decide _); [done|]. rewrite (decide_False (P := wr_PathPrefix req = "")) by done.
  rewrite decide_False by naive_solver. rewrite (decide_False (P := we_Path e = "")) by done.
  rewrite (decide_False (P := we_Path e = _)) by done. simpl. by repeat case_decide.
Qed.

Definition demo_watch : WatchRequest := mkWatch "vol" "/src/" true false "sb".
Definition demo_event (path origin : string) : WatchEvent := mkEvent "vol" EVENT_WRITE path "" 7 0 "" origin "".

Lemma watch_delivery_witness :
  received "w" [HPublish 5 (demo_event "/src/a" "other"); HPublish 6 (demo_event "/src/b" "sb");
                HPublish 7 (demo_event "/srcs" "other"); HReceive "w"] (Subscribe "w" demo_watch (NewHub 1)) =
  [stamp 5 (demo_event "/src/a" "other")].
Proof.
  destruct (watch_delivery "w" demo_watch
    [HPublish 5 (demo_event "/src/a" "other"); HPublish 6 (demo_event "/src/b" "sb");
     HPublish 7 (demo_event "/srcs" "other"); HReceive "w"] (NewHub 1)) as (_ & _ & _ & H).
  - split; [| | |by vm_compute].
    + intros id sub. unfold NewHub; simpl. by rewrite lookup_empty.
    + intros v id. change (volume_subs (NewHub 1) v) with (∅ : gset string). by intros ?%elem_of_empty.
    + intros id sub. unfold NewHub; simpl. by rewrite lookup_empty.
  - done.
  - done.
  - by repeat split.
  - repeat constructor.
  - rewrite <- app_nil_r. etrans; [|apply H]; [by vm_compute|].
    repeat split; intros M; vm_compute in M; first [discriminate M | vm_compute; reflexivity].
Defined.
