(* ===== verification/VolumeSpec.v ===== *)
(** * The sessions of mounted volumes

    The manager's tables over all interleavings of its critical sections: client
    mounts and unmounts, the shared direct sessions that requests of the HTTP file
    API join and release, and the cleanups that unmount idle ones. *)

From stdpp Require Import base gmap strings list fin_maps numbers sorting.
From Stdlib Require Import Strings.Byte Strings.Ascii.
From S2P Require Import Prelude GoStd S0fsTypes S0fsCore S0fsEngine Volume.

Local Open Scope Z_scope.

(** What the manager relies on of a backend: the context it returns is that of the request. *)
Class BackendLaws (B X : Type) `{Backend B X} : Prop := {
  be_mount_request : forall b req x vc x', be_MountVolume b req x = (Ok vc, x') ->
    vc_VolumeID vc = mr_VolumeID req /\ vc_TeamID vc = mr_TeamID req /\ vc_Access vc = mr_AccessMode req
}.

Section sessions.
Context {B X : Type} `{UP : UnicodeUpper} `{BK : Backend B X} `{RG : MountRegistrar X} `{!BackendLaws B X}.
Implicit Types (m : Manager B) (x : X) (v s u : string).

(** ** What each step does to the tables *)

Lemma mgr_modify_eq (f : Manager B -> Manager B) m x : mgr_modify f (m, x) = (Ok tt, (f m, x)).
Proof. done. Qed.

(** A call that only touches the outer world: it panics or leaves the manager as it is. *)
Definition outer {A} (c : ST string (Manager B * X) A) : Prop := forall m x,
  (exists g, c (m, x) = (Panic, g)) \/ (exists y x1, c (m, x) = (Ok y, (m, x1))).

Lemma outer_attempt {A} (c : ST string X A) : outer (attempt (ext c)).
Proof. intros m x. unfold attempt, ext. simpl. destruct (c x) as [[a|e|] x']; eauto. Qed.

Lemma outer_ret {A} (a : A) : outer (ret a).
Proof. intros m x. right. by exists a, x. Qed.

Lemma outer_bind {A D} (c : ST string (Manager B * X) A) (k : A -> ST string (Manager B * X) D) m x r m' x' :
  outer c -> bind c k (m, x) = (r, (m', x')) -> r <> Panic -> exists y x1, k y (m, x1) = (r, (m', x')).
Proof.
  intros Hc. unfold bind. destruct (Hc m x) as [[g ->]|(y & x1 & ->)]; [|eauto]. by intros [= <- _].
Qed.

Definition table_after v s m u : gmap string MountSession :=
  if decide (u = v) then delete s (sessions_of m v) else sessions_of m u.

Lemma sessions_insert v t m u :
  sessions_of (set_sessions (<[v := t]> (mg_mountSessions m)) m) u = if decide (u = v) then t else sessions_of m u.
Proof.
  unfold sessions_of; simpl. destruct (decide (u = v)) as [->|Hn]; [by rewrite lookup_insert_eq|by rewrite lookup_insert_ne].
Qed.

Lemma clear_tables v s m :
  mg_volumes (clearSessionFromInvalidatesLocked v s m) = mg_volumes m /\
  mg_mountSessions (clearSessionFromInvalidatesLocked v s m) = mg_mountSessions m /\
  mg_directMounts (clearSessionFromInvalidatesLocked v s m) = mg_directMounts m.
Proof. unfold clearSessionFromInvalidatesLocked. by destruct (mg_invalidates m !! v). Qed.

Lemma end_session_trackers v s m u :
  trackers_of (end_session v s m) u = if decide (u = v) then drop_pending s <$> trackers_of m v else trackers_of m u.
Proof.
  unfold end_session.
  assert (H : forall k : Manager B, mg_invalidates k = mg_invalidates m ->
    trackers_of (clearSessionFromInvalidatesLocked v s k) u = if decide (u = v) then drop_pending s <$> trackers_of m v else trackers_of m u).
  { intros k Hk. unfold clearSessionFromInvalidatesLocked, trackers_of. rewrite Hk. destruct (mg_invalidates m !! v) as [t|] eqn:E; simpl.
    - destruct (decide (u = v)) as [->|]; [by rewrite lookup_insert_eq|by rewrite lookup_insert_ne by congruence].
    - rewrite Hk. destruct (decide (u = v)) as [->|]; [|done]. rewrite E. simpl. by rewrite fmap_empty. }
  apply H. cbn [mg_directMounts set_sessions]. destruct (mg_directMounts m !! v) as [l|]; [|done]. destruct (decide (dl_SessionID l = s)); reflexivity.
Qed.

Lemma end_session_tables v s m :
  mg_volumes (end_session v s m) = mg_volumes m /\
  mg_mountSessions (end_session v s m) = <[v := delete s (sessions_of m v)]> (mg_mountSessions m) /\
  mg_directMounts (end_session v s m) =
    (if decide (dl_SessionID <$> mg_directMounts m !! v = Some s) then delete v (mg_directMounts m) else mg_directMounts m).
Proof.
  unfold end_session.
  match goal with |- context [clearSessionFromInvalidatesLocked v s ?k] => destruct (clear_tables v s k) as (-> & -> & ->) end.
  cbn [mg_directMounts set_sessions]. destruct (mg_directMounts m !! v) as [l|] eqn:E; cbn [fmap option_fmap option_map].
  - destruct (decide (dl_SessionID l = s)) as [->|Hn]; [by rewrite decide_True|by rewrite decide_False by congruence].
  - by rewrite decide_False.
Qed.

(** An unmount fails and changes nothing, or ends the session, and the volume with
    its last session. *)
Lemma UnmountVolume_spec v s m x r m' x' :
  Volume.UnmountVolume v s (m, x) = (r, (m', x')) -> r <> Panic ->
  (m' = m /\ x' = x /\ exists e, r = Err e) \/
  (r = Ok tt /\ is_Some (mg_volumes m !! v) /\ is_Some (sessions_of m v !! s) /\
   (forall u, sessions_of m' u = table_after v s m u) /\
   mg_volumes m' = (if decide (delete s (sessions_of m v) = ∅) then delete v (mg_volumes m) else mg_volumes m) /\
   mg_directMounts m' =
     (if decide (delete s (sessions_of m v) = ∅ \/ dl_SessionID <$> mg_directMounts m !! v = Some s)
      then delete v (mg_directMounts m) else mg_directMounts m) /\
   (forall u, trackers_of m' u = if decide (u = v) then drop_pending s <$> trackers_of m v else trackers_of m u)).
Proof.
  unfold Volume.UnmountVolume. unfold bind at 1. unfold mgr_get, gets. cbn [fst].
  destruct (mg_volumes m !! v) as [vc|] eqn:Ev; [|intros [= <- <- <-] _; left; eauto].
  destruct (decide (s = "")); [intros [= <- <- <-] _; left; eauto|].
  destruct (mg_mountSessions m !! v) as [t|] eqn:Et; [|intros [= <- <- <-] _; left; eauto].
  destruct (t !! s) as [se|] eqn:Es; [|intros [= <- <- <-] _; left; eauto].
  assert (Ht : sessions_of m v = t) by (unfold sessions_of; by rewrite Et).
  rewrite Ht. destruct (end_session_tables v s m) as (T1 & T2 & T3). rewrite Ht in T2.
  unfold bind at 1. rewrite mgr_modify_eq. destruct (decide (delete s t <> ∅)) as [Hne|He].
  - intros [= <- <- <-] _. right. split; [done|]. split; [done|]. split; [done|]. split; [|split].
    + intros u. unfold table_after. rewrite Ht. unfold sessions_of. rewrite T2.
      destruct (decide (u = v)) as [->|]; [by rewrite lookup_insert_eq|by rewrite lookup_insert_ne].
    + by rewrite decide_False.
    + split; [|intros u; apply end_session_trackers].
      rewrite T3. destruct (decide (_ <$> _ = _)); [by rewrite decide_True by auto|]. rewrite decide_False; [done|tauto].
  - apply dec_stable in He. intros H Hp.
    unfold bind at 1 in H. rewrite mgr_modify_eq in H.
    apply outer_bind in H as (_ & x1 & H); [|destruct reg_present; [apply outer_attempt|apply outer_ret]|done].
    apply outer_bind in H as (_ & x2 & H); [|destruct (selectBackend m); [apply outer_attempt|apply outer_ret..]|done].
    rewrite mgr_modify_eq in H. injection H as <- <- <-. right. split; [done|]. split; [done|]. split; [done|].
    simpl. rewrite T1, T3. split; [|split].
    + intros u. unfold table_after. rewrite Ht. unfold sessions_of. simpl. rewrite T2, He.
      destruct (decide (u = v)) as [->|]; [by rewrite lookup_delete_eq|].
      by rewrite lookup_delete_ne, lookup_insert_ne by congruence.
    + by rewrite decide_True.
    + split; [|intros u; exact (end_session_trackers v s m u)].
      rewrite (decide_True (P := delete s t = ∅ \/ _)) by auto. destruct (decide _); [by rewrite delete_delete_eq|done].
Qed.

(** A mount fails and changes nothing, or adds its session, to a volume of its team. *)
Lemma MountVolume_spec sid now pfx v team mode m x r m' x' :
  Volume.MountVolume sid now pfx v team mode (m, x) = (r, (m', x')) -> r <> Panic ->
  (m' = m /\ exists e, r = Err e) \/
  (r = Ok (sid, now) /\ team <> "" /\ (mg_directMounts m' = mg_directMounts m /\ mg_invalidates m' = mg_invalidates m) /\
   (forall u, sessions_of m' u =
      if decide (u = v) then <[sid := mkSession sid team now ScopeUnknown]> (sessions_of m v) else sessions_of m u) /\
   ((exists vc, mg_volumes m !! v = Some vc /\ (vc_TeamID vc = "" \/ vc_TeamID vc = team) /\ mg_volumes m' = mg_volumes m) \/
    (exists vc, mg_volumes m !! v = None /\ vc_TeamID vc = team /\ mg_volumes m' = <[v := vc]> (mg_volumes m)))).
Proof.
  unfold Volume.MountVolume. destruct (decide (team = "")) as [|Ht]; [intros [= <- <- <-] _; left; eauto|].
  unfold bind at 1. unfold mgr_get, gets. cbn [fst].
  destruct (mg_volumes m !! v) as [vc|] eqn:Ev.
  - destruct (decide _) as [|H1]; [intros [= <- <- <-] _; left; eauto|].
    destruct (decide _) as [|H2]; [intros [= <- <- <-] _; left; eauto|].
    unfold bind. rewrite mgr_modify_eq. intros [= <- <- <-] _. right. split; [done|]. split; [done|]. split; [done|].
    split; [intros u; apply sessions_insert|]. left. exists vc. split; [done|]. split; [|done].
    destruct (decide (vc_TeamID vc = "")); [by left|]. right. destruct (decide (vc_TeamID vc = team)); [done|tauto].
  - intros H Hp.
    assert (Hreg : (m' = m /\ exists e, r = Err e) \/ exists x1,
      match selectBackend m with
      | Panic => panic
      | Err err => do* (if reg_present then attempt (ext (UnregisterMount v)) else ret (Ok tt)) in throw err
      | Ok backend =>
          let* mounted := attempt (ext (be_MountVolume backend (mkMountRequest pfx v team (NormalizeAccessMode mode) now))) in
          match mounted with
          | Panic => panic
          | Err err => do* (if reg_present then attempt (ext (UnregisterMount v)) else ret (Ok tt)) in throw err
          | Ok volCtx =>
              do* mgr_modify (fun m => add_session v (mkSession sid team now ScopeUnknown)
                                         (set_volumes (<[v := volCtx]> (mg_volumes m)) m)) in
              ret (sid, now)
          end
      end (m, x1) = (r, (m', x'))).
    { unfold bind at 1 in H. destruct reg_present; [|right; by exists x].
      unfold ext at 1 in H. simpl in H. destruct (RegisterMount v _ x) as [[[]|e|] x1]; [right; by exists x1| |].
      - injection H as <- <- <-. left. eauto.
      - by injection H as <- _ _. }
    destruct Hreg as [?|[x1 H1]]; [by left|]. clear H.
    assert (Hundo : forall err x2, (do* (if reg_present then attempt (ext (UnregisterMount v)) else ret (Ok tt)) in
                      throw err) (m, x2) = (r, (m', x')) -> m' = m /\ exists e, r = Err e).
    { intros err x2 H. apply outer_bind in H as (_ & x3 & H); [|destruct reg_present; [apply outer_attempt|apply outer_ret]|done].
      injection H as <- <- <-. eauto. }
    destruct (selectBackend m) as [b|e|]; [|left; exact (Hundo _ _ H1)|by injection H1 as <- _ _].
    unfold bind at 1 in H1. unfold attempt at 1, ext at 1 in H1. cbn [fst snd] in H1.
    destruct (be_MountVolume b _ x1) as [[vc|e|] x2] eqn:Eb; [|left; exact (Hundo _ _ H1)|by injection H1 as <- _ _].
    unfold bind in H1. rewrite mgr_modify_eq in H1. injection H1 as <- <- <-.
    right. split; [done|]. split; [done|]. split; [done|]. split; [intros u; unfold add_session; by rewrite sessions_insert|].
    right. exists vc. split; [done|]. split; [|done]. by apply be_mount_request in Eb as (_ & ? & _).
Qed.

(** ** Runs

    [g_out] are the acquisitions of direct sessions that are not released yet,
    [g_made] the sessions that [mountFn] made for acquisitions that have not finished,
    [g_doomed] the sessions that a cleanup or a lost race is about to unmount.
    [g_used] are the ids that [uuid.New] has returned, [g_direct] the sessions made
    for the direct API, whose ids no client knows. *)

Record State := mkG {
  g_mgr : Manager B * X;
  g_out : list (string * string);
  g_made : list (string * string);
  g_doomed : list (string * string);
  g_used : gset string;
  g_direct : gset (string * string)
}.

Inductive mstep : State -> State -> Prop :=
| M_mount sid now pfx v team mode w w' r out made doomed used direct :
    sid ∉ used -> Volume.MountVolume sid now pfx v team mode w = (r, w') -> r <> Panic ->
    mstep (mkG w out made doomed used direct) (mkG w' out made doomed ({[sid]} ∪ used) direct)
| M_unmount v s w w' r out made doomed used direct :
    (v, s) ∉ direct -> Volume.UnmountVolume v s w = (r, w') -> r <> Panic ->
    mstep (mkG w out made doomed used direct) (mkG w' out made doomed used direct)
| M_acquire_join now v s w w' out made doomed used direct :
    acquire_begin now v w = (Ok (Some s), w') ->
    mstep (mkG w out made doomed used direct) (mkG w' ((v, s) :: out) made doomed used direct)
| M_acquire_miss now v w w' out made doomed used direct :
    acquire_begin now v w = (Ok None, w') ->
    mstep (mkG w out made doomed used direct) (mkG w' out made doomed used direct)
| M_acquire_mount sid now pfx v team mode w w' a out made doomed used direct :
    sid ∉ used -> Volume.MountVolume sid now pfx v team mode w = (Ok a, w') ->
    mstep (mkG w out made doomed used direct)
      (mkG w' out ((v, sid) :: made) doomed ({[sid]} ∪ used) ({[(v, sid)]} ∪ direct))
| M_acquire_finish now v sid s redundant w w' out made1 made2 doomed used direct :
    acquire_finish now v sid w = (Ok (s, redundant), w') ->
    mstep (mkG w out (made1 ++ (v, sid) :: made2) doomed used direct)
      (mkG w' ((v, s) :: out) (made1 ++ made2) (((fun r => (v, r)) <$> option_list redundant) ++ doomed) used direct)
| M_release now v s w w' out1 out2 made doomed used direct :
    releaseDirectVolumeFileMount now v s w = (Ok tt, w') ->
    mstep (mkG w (out1 ++ (v, s) :: out2) made doomed used direct) (mkG w' (out1 ++ out2) made doomed used direct)
| M_cleanup v idle w w' out made doomed used direct :
    cleanup_begin v w = (Ok idle, w') ->
    mstep (mkG w out made doomed used direct)
      (mkG w' out made (((fun r => (v, r)) <$> option_list idle) ++ doomed) used direct)
| M_idle cutoff l w w' out made doomed used direct :
    idle_begin cutoff w = (Ok l, w') ->
    mstep (mkG w out made doomed used direct) (mkG w' out made (l ++ doomed) used direct)
| M_doom v s w w' r out made doomed1 doomed2 used direct :
    Volume.UnmountVolume v s w = (r, w') -> r <> Panic ->
    mstep (mkG w out made (doomed1 ++ (v, s) :: doomed2) used direct) (mkG w' out made (doomed1 ++ doomed2) used direct)
| M_begin v i w w' r out made doomed used direct :
    BeginInvalidate v i w = (r, w') ->
    mstep (mkG w out made doomed used direct) (mkG w' out made doomed used direct)
| M_ack v s i ok msg w w' r out made doomed used direct :
    Volume.AckInvalidate v s i ok msg w = (r, w') ->
    mstep (mkG w out made doomed used direct) (mkG w' out made doomed used direct)
| M_wait e v i w w' r out made doomed used direct :
    WaitForInvalidate e v i w = (r, w') ->
    mstep (mkG w out made doomed used direct) (mkG w' out made doomed used direct)
| M_root v i w w' r out made doomed used direct :
    UpdateVolumeRoot v i w = (r, w') ->
    mstep (mkG w out made doomed used direct) (mkG w' out made doomed used direct).

(** ** The invariant *)

Definition acquisitions (out : list (string * string)) (p : string * string) : Z :=
  Z.of_nat (length (filter (fun q => q = p) out)).

(** The tables of sessions, volumes and teams agree. *)
Record tables_ok (used : gset string) (m : Manager B) : Prop := {
  tb_mounted : forall v, is_Some (mg_volumes m !! v) <-> sessions_of m v <> ∅;
  tb_team : forall v vc, mg_volumes m !! v = Some vc ->
    vc_TeamID vc <> "" /\ forall s se, sessions_of m v !! s = Some se -> ms_TeamID se = vc_TeamID vc;
  tb_used : forall v s, is_Some (sessions_of m v !! s) -> s ∈ used
}.

Record leases_ok (g : State) : Prop := {
  le_lease : forall v l, mg_directMounts (g_mgr g).1 !! v = Some l ->
    is_Some (sessions_of (g_mgr g).1 v !! dl_SessionID l) /\
    dl_InFlight l = acquisitions (g_out g) (v, dl_SessionID l) /\
    (v, dl_SessionID l) ∉ g_doomed g /\ (v, dl_SessionID l) ∉ g_made g /\ (v, dl_SessionID l) ∈ g_direct g;
  le_out : forall v s, (v, s) ∈ g_out g -> dl_SessionID <$> mg_directMounts (g_mgr g).1 !! v = Some s;
  le_made : forall v s, (v, s) ∈ g_made g ->
    is_Some (sessions_of (g_mgr g).1 v !! s) /\ (v, s) ∉ g_doomed g /\ (v, s) ∈ g_direct g;
  le_nodup : NoDup (g_made g);
  le_doomed : forall v s, (v, s) ∈ g_doomed g -> (v, s) ∈ g_direct g;
  le_used : forall v s, (v, s) ∈ g_direct g -> s ∈ g_used g
}.

Record state_ok (g : State) : Prop := {
  so_tables : tables_ok (g_used g) (g_mgr g).1;
  so_leases : leases_ok g
}.

Lemma tables_mount used sid now pfx v team mode m x r m' x' :
  Volume.MountVolume sid now pfx v team mode (m, x) = (r, (m', x')) -> r <> Panic ->
  tables_ok used m -> tables_ok ({[sid]} ∪ used) m'.
Proof.
  intros E Hp [H1 H2 H3]. destruct (MountVolume_spec _ _ _ _ _ _ _ _ _ _ _ E Hp) as [[-> _]|(_ & Ht & _ & HS & HV)].
  { split; [done|done|]. intros u s Hs. set_solver. }
  assert (Hnew : forall vc, mg_volumes m' !! v = Some vc -> vc_TeamID vc = team).
  { destruct HV as [(vc0 & Hl & Hteam & ->)|(vc0 & Hl & Hteam & ->)]; intros vc Hu.
    - destruct (H2 _ _ Hu) as [? _]. destruct Hteam; congruence.
    - rewrite lookup_insert_eq in Hu. congruence. }
  assert (Hold : forall u, u <> v -> mg_volumes m' !! u = mg_volumes m !! u).
  { intros u Hu. destruct HV as [(? & _ & _ & ->)|(? & _ & _ & ->)]; [done|]. by rewrite lookup_insert_ne by congruence. }
  assert (Hv : is_Some (mg_volumes m' !! v)).
  { destruct HV as [(? & Hl & _ & ->)|(? & _ & _ & ->)]; [eauto|]. rewrite lookup_insert_eq. eauto. }
  assert (Hteam : forall s se, sessions_of m v !! s = Some se -> ms_TeamID se = team).
  { intros s se Hs. destruct (proj2 (H1 v)) as [vc Hvc]; [intros He; by rewrite He, lookup_empty in Hs|].
    destruct (H2 _ _ Hvc) as [? Hall]. rewrite (Hall _ _ Hs).
    destruct HV as [(vc0 & Hl & [?|?] & _)|(vc0 & Hl & _ & _)]; congruence. }
  split.
  - intros u. rewrite HS. destruct (decide (u = v)) as [->|Hn]; [|by rewrite Hold].
    split; [|done]. intros _ He. by apply insert_non_empty in He.
  - intros u vc Hu. rewrite HS. destruct (decide (u = v)) as [->|Hn].
    + rewrite (Hnew _ Hu). split; [done|]. intros s se [[_ <-]|[_ Hs]]%lookup_insert_Some; [done|eauto].
    + rewrite Hold in Hu by done. eauto.
  - intros u s. rewrite HS. destruct (decide (u = v)) as [->|]; [|intros ?%H3; set_solver].
    intros [se [[<- _]|[_ Hs]]%lookup_insert_Some]; [set_solver|]. apply elem_of_union_r. eauto.
Qed.

Lemma tables_unmount used v s m x r m' x' :
  Volume.UnmountVolume v s (m, x) = (r, (m', x')) -> r <> Panic -> tables_ok used m -> tables_ok used m'.
Proof.
  intros E Hp [H1 H2 H3]. destruct (UnmountVolume_spec _ _ _ _ _ _ _ E Hp) as [[-> _]|(_ & Hm & Hs & HS & HV & _)]; [by split|].
  assert (Hsub : forall u k se, sessions_of m' u !! k = Some se -> sessions_of m u !! k = Some se).
  { intros u k se. rewrite HS. unfold table_after. destruct (decide (u = v)) as [->|]; [|done]. by intros [_ ?]%lookup_delete_Some. }
  split.
  - intros u. rewrite HS, HV. unfold table_after. destruct (decide (u = v)) as [->|Hn].
    + destruct (decide _) as [He|He]; [|by split]. rewrite lookup_delete_eq. split; [by intros []|done].
    + rewrite <- H1. destruct (decide _); [by rewrite lookup_delete_ne by congruence|done].
  - intros u vc Hu. assert (Hu' : mg_volumes m !! u = Some vc).
    { rewrite HV in Hu. destruct (decide _); [by apply lookup_delete_Some in Hu as [_ ?]|done]. }
    destruct (H2 _ _ Hu') as [? Hall]. split; [done|]. intros k se Hk%Hsub. eauto.
  - intros u k [se Hk%Hsub]. eauto.
Qed.

(** ** Counting acquisitions *)

Lemma acquisitions_cons p q out : acquisitions (q :: out) p = acquisitions out p + (if decide (q = p) then 1 else 0).
Proof. unfold acquisitions. rewrite filter_cons. destruct (decide (q = p)); simpl; lia. Qed.
Lemma acquisitions_middle p q o1 o2 : acquisitions (o1 ++ q :: o2) p = acquisitions (q :: o1 ++ o2) p.
Proof. unfold acquisitions. rewrite filter_cons, !filter_app, filter_cons, !length_app. destruct (decide (q = p)); simpl; rewrite length_app; lia. Qed.
Lemma acquisitions_pos p out : p ∈ out <-> 0 < acquisitions out p.
Proof.
  unfold acquisitions. induction out as [|q out IH]; [simpl; split; [by intros ?%elem_of_nil|lia]|].
  rewrite filter_cons, elem_of_cons. destruct (decide (q = p)) as [->|Hn]; simpl; [split; [lia|auto]|].
  rewrite <- IH. naive_solver.
Qed.

(** ** The steps keep the leases *)

(** The sessions [sessions_of m v] keeps, whatever their scope. *)
Definition keeps m m' : Prop := forall v s, is_Some (sessions_of m v !! s) -> is_Some (sessions_of m' v !! s).

(** Steps that leave the leases and the acquisitions alone. *)
Lemma leases_frame w w' out made doomed doomed' used used' direct direct' :
  leases_ok (mkG w out made doomed used direct) ->
  mg_directMounts w'.1 = mg_directMounts w.1 ->
  (forall v s, (v, s) ∈ direct -> (v, s) ∉ doomed -> is_Some (sessions_of w.1 v !! s) -> is_Some (sessions_of w'.1 v !! s)) ->
  doomed' ⊆ doomed -> used ⊆ used' -> direct ⊆ direct' ->
  (forall v s, (v, s) ∈ direct' -> s ∈ used') ->
  leases_ok (mkG w' out made doomed' used' direct').
Proof.
  intros [L1 L2 L3 L4 L5 L6] HD HS Hd Hu Hdir Hused. simpl in *. split; simpl.
  - intros v l. rewrite HD. intros Hl. destruct (L1 _ _ Hl) as (? & ? & ? & ? & ?).
    split; [auto|]. split; [done|]. split; [by intros ?%Hd|]. split; [done|]. by apply Hdir.
  - intros v s Hin. rewrite HD. auto.
  - intros v s Hin. destruct (L3 _ _ Hin) as (? & ? & ?). split; [auto|]. split; [by intros ?%Hd|]. by apply Hdir.
  - done.
  - intros v s ?%Hd. apply Hdir. auto.
  - done.
Qed.

Lemma mount_frame sid now pfx v team mode w w' r :
  Volume.MountVolume sid now pfx v team mode w = (r, w') -> r <> Panic ->
  mg_directMounts w'.1 = mg_directMounts w.1 /\ keeps w.1 w'.1 /\
  (forall a, r = Ok a -> is_Some (sessions_of w'.1 v !! sid)).
Proof.
  destruct w as [m x], w' as [m' x']. intros E Hp.
  destruct (MountVolume_spec _ _ _ _ _ _ _ _ _ _ _ E Hp) as [[-> [e ->]]|(-> & _ & [HD _] & HS & _)]; simpl.
  { split; [done|]. split; [by intros u k|done]. }
  split; [done|]. split.
  - intros u s Hs. rewrite HS. destruct (decide (u = v)) as [->|]; [|done]. by apply lookup_insert_is_Some'; right.
  - intros _ _. rewrite HS, decide_True by done. rewrite lookup_insert_eq. eauto.
Qed.

(** An unmount of a session that has no lease. *)
Lemma unmount_frame v s w w' r :
  Volume.UnmountVolume v s w = (r, w') -> r <> Panic ->
  (forall l, mg_directMounts w.1 !! v = Some l -> dl_SessionID l <> s /\ is_Some (sessions_of w.1 v !! dl_SessionID l)) ->
  mg_directMounts w'.1 = mg_directMounts w.1 /\
  (forall u k, (u, k) <> (v, s) -> is_Some (sessions_of w.1 u !! k) -> is_Some (sessions_of w'.1 u !! k)).
Proof.
  destruct w as [m x], w' as [m' x']. intros E Hp Hl. simpl in *.
  destruct (UnmountVolume_spec _ _ _ _ _ _ _ E Hp) as [[-> _]|(-> & _ & _ & HS & _ & HD & _)]; [done|]. split.
  - rewrite HD. destruct (decide _) as [Hc|]; [|done]. apply delete_id.
    destruct (mg_directMounts m !! v) as [l|] eqn:El; [|done]. destruct (Hl l eq_refl) as [Hne [se Hse]].
    destruct Hc as [He|He]; [|naive_solver]. exfalso. assert (Hx : delete s (sessions_of m v) !! dl_SessionID l = None) by by rewrite He, lookup_empty.
    rewrite lookup_delete_ne in Hx by congruence. congruence.
  - intros u k Hne Hk. rewrite HS. unfold table_after. destruct (decide (u = v)) as [->|]; [|done].
    rewrite lookup_delete_ne by congruence. done.
Qed.

Lemma leases_mount sid now pfx v team mode w w' r out made doomed used direct :
  sid ∉ used -> Volume.MountVolume sid now pfx v team mode w = (r, w') -> r <> Panic ->
  leases_ok (mkG w out made doomed used direct) -> leases_ok (mkG w' out made doomed ({[sid]} ∪ used) direct).
Proof.
  intros Hs E Hp L. destruct (mount_frame _ _ _ _ _ _ _ _ _ E Hp) as (HD & HK & _).
  eapply leases_frame; [exact L|done|by intros; apply HK|done|set_solver|done|].
  intros u k ?%(le_used _ L). simpl in *. set_solver.
Qed.

Lemma leases_made sid now pfx v team mode w w' a out made doomed used direct :
  sid ∉ used -> Volume.MountVolume sid now pfx v team mode w = (Ok a, w') ->
  leases_ok (mkG w out made doomed used direct) ->
  leases_ok (mkG w' out ((v, sid) :: made) doomed ({[sid]} ∪ used) ({[(v, sid)]} ∪ direct)).
Proof.
  intros Hs E L. destruct (mount_frame _ _ _ _ _ _ _ _ _ E ltac:(done)) as (HD & HK & HN).
  assert (Hfresh : (v, sid) ∉ direct) by (intros ?%(le_used _ L); done).
  assert (L' : leases_ok (mkG w' out made doomed ({[sid]} ∪ used) ({[(v, sid)]} ∪ direct))).
  { eapply leases_frame; [exact L|done|by intros; apply HK|done|set_solver|set_solver|].
    intros u k [Hk|Hk]%elem_of_union; [set_solver|]. apply (le_used _ L) in Hk. simpl in *. set_solver. }
  destruct L' as [L1 L2 L3 L4 L5 L6], L as [K1 K2 K3 K4 K5 K6]. simpl in *. split; simpl; try done.
  - intros u l Hl. destruct (L1 _ _ Hl) as (? & ? & ? & ? & ?). rewrite HD in Hl. destruct (K1 _ _ Hl) as (_ & _ & _ & _ & ?).
    repeat split; try done. apply not_elem_of_cons. split; [congruence|done].
  - intros u k [[= -> ->]|?]%elem_of_cons; [|auto]. split; [eauto|]. split; [by intros ?%K5|set_solver].
  - constructor; [|done]. by intros (_ & _ & ?)%K3.
Qed.

Lemma leases_unmount v s w w' r out made doomed used direct :
  (v, s) ∉ direct -> Volume.UnmountVolume v s w = (r, w') -> r <> Panic ->
  leases_ok (mkG w out made doomed used direct) -> leases_ok (mkG w' out made doomed used direct).
Proof.
  intros Hd E Hp L. destruct (unmount_frame _ _ _ _ _ E Hp) as [HD HK].
  { intros l Hl. destruct (le_lease _ L _ _ Hl) as (? & _ & _ & _ & ?). split; [by intros <-|done]. }
  eapply leases_frame; [exact L|done| |done|done|done|apply L]. intros u k ? _. apply HK. by intros [= -> ->].
Qed.

Lemma leases_doom v s w w' r out made d1 d2 used direct :
  Volume.UnmountVolume v s w = (r, w') -> r <> Panic ->
  leases_ok (mkG w out made (d1 ++ (v, s) :: d2) used direct) -> leases_ok (mkG w' out made (d1 ++ d2) used direct).
Proof.
  intros E Hp L. assert (Hin : (v, s) ∈ d1 ++ (v, s) :: d2) by set_solver.
  destruct (unmount_frame _ _ _ _ _ E Hp) as [HD HK].
  { intros l Hl. destruct (le_lease _ L _ _ Hl) as (? & _ & ? & _ & _). split; [|done]. by intros <-. }
  eapply leases_frame; [exact L|done| |set_solver|done|done|apply L]. intros u k _ ?. apply HK. by intros [= -> ->].
Qed.

Lemma leased_spec w v out made doomed used direct :
  leases_ok (mkG w out made doomed used direct) ->
  match mg_directMounts w.1 !! v with
  | Some l => exists se, leased w.1 v = Some (l, se) /\ sessions_of w.1 v !! dl_SessionID l = Some se
  | None => leased w.1 v = None
  end.
Proof.
  intros L. unfold leased. destruct (mg_directMounts w.1 !! v) as [l|] eqn:E; [|done].
  destruct (le_lease _ L _ _ E) as ([se Hse] & _). simpl in *. exists se. by rewrite Hse.
Qed.

(** Joining a lease: by [acquire_begin], or by [acquire_finish] of another session. *)
Lemma leases_join now v l se w out made doomed used direct :
  mg_directMounts w.1 !! v = Some l -> sessions_of w.1 v !! dl_SessionID l = Some se ->
  leases_ok (mkG w out made doomed used direct) ->
  leases_ok (mkG (join_lease now v l se w.1, w.2) ((v, dl_SessionID l) :: out) made doomed used direct).
Proof.
  intros El Hse [L1 L2 L3 L4 L5 L6]. simpl in *.
  assert (HS : forall u k, is_Some (sessions_of (join_lease now v l se w.1) u !! k) <-> is_Some (sessions_of w.1 u !! k)).
  { intros u k. unfold join_lease, sessions_of at 1. simpl. destruct (decide (u = v)) as [->|Hn].
    - rewrite lookup_insert_eq. simpl. rewrite lookup_insert_is_Some'. split; [intros [<-|?]; eauto|auto].
    - by rewrite lookup_insert_ne. }
  split; cbn [g_mgr g_out g_made g_doomed g_used g_direct fst]; try done.
  - intros u l'. unfold join_lease at 1. simpl. intros [[<- <-]|[Hn Hl]]%lookup_insert_Some; simpl.
    + destruct (L1 _ _ El) as (? & ? & ?). rewrite HS, acquisitions_cons, decide_True by done. split; [done|]. split; [lia|done].
    + destruct (L1 _ _ Hl) as (? & ? & ?). rewrite HS, acquisitions_cons, decide_False by congruence. rewrite Z.add_0_r. done.
  - intros u k [[= -> ->]|Hin]%elem_of_cons; unfold join_lease; simpl; [by rewrite lookup_insert_eq|].
    specialize (L2 _ _ Hin). destruct (decide (u = v)) as [->|]; [|by rewrite lookup_insert_ne by congruence].
    rewrite lookup_insert_eq. rewrite El in L2. done.
  - intros u k ?. rewrite HS. auto.
Qed.

Lemma leases_begin now v r w w' out made doomed used direct :
  acquire_begin now v w = (Ok r, w') -> leases_ok (mkG w out made doomed used direct) ->
  leases_ok (mkG w' (((fun s => (v, s)) <$> option_list r) ++ out) made doomed used direct).
Proof.
  intros E L. pose proof (leased_spec w v _ _ _ _ _ L) as HL. unfold acquire_begin in E.
  unfold bind, mgr_get, gets, mgr_modify, modify, ret in E.
  destruct (mg_directMounts w.1 !! v) as [l|] eqn:El.
  - destruct HL as (se & Hl & Hse). rewrite Hl in E. injection E as <- <-. by apply leases_join.
  - rewrite HL in E. injection E as <- <-. simpl. eapply leases_frame; [exact L| |done|done|done|done|apply L].
    simpl. by apply delete_id.
Qed.

Lemma leases_finish now v sid s redundant w w' out l1 l2 doomed used direct :
  acquire_finish now v sid w = (Ok (s, redundant), w') ->
  leases_ok (mkG w out (l1 ++ (v, sid) :: l2) doomed used direct) ->
  leases_ok (mkG w' ((v, s) :: out) (l1 ++ l2) (((fun r => (v, r)) <$> option_list redundant) ++ doomed) used direct).
Proof.
  intros E L. pose proof (leased_spec w v _ _ _ _ _ L) as HL. unfold acquire_finish in E.
  unfold bind, mgr_get, gets, mgr_modify, modify, ret in E.
  assert (Hmade : (v, sid) ∈ l1 ++ (v, sid) :: l2) by set_solver.
  destruct (le_made _ L _ _ Hmade) as ([se0 Hse0] & Hnd & Hdir). simpl in *.
  pose proof (le_nodup _ L) as Hdup. simpl in Hdup. rewrite <- Permutation_middle in Hdup. apply NoDup_cons in Hdup as [Hni Hdup].
  destruct (mg_directMounts w.1 !! v) as [l|] eqn:El.
  - destruct HL as (se & Hl & Hse). rewrite Hl in E. injection E as <- <- <-. simpl.
    pose proof (leases_join now v l se w _ _ _ _ _ El Hse L) as [L1 L2 L3 L4 L5 L6]. simpl in *.
    destruct (le_lease _ L _ _ El) as (_ & _ & _ & Hlm & _). simpl in Hlm. split; cbn [g_mgr g_out g_made g_doomed g_used g_direct fst]; try done.
    + intros u l' Hl'. destruct (L1 _ _ Hl') as (? & ? & ? & Hm & ?). split; [done|]. split; [done|].
      split; [|split; [set_solver|done]]. apply not_elem_of_cons. split; [|done]. intros [= -> Heq]. rewrite Heq in Hm. set_solver.
    + intros u k Hk. destruct (L3 u k) as (? & ? & ?); [set_solver|]. split; [done|]. split; [|done].
      apply not_elem_of_cons. split; [|done]. intros [= -> ->]. done.
    + intros u k [[= -> ->]|?]%elem_of_cons; auto.
  - rewrite HL, Hse0 in E. injection E as <- <- <-. simpl.
    assert (Hout : forall k, (v, k) ∉ out) by (intros k Hk%(le_out _ L); simpl in Hk; by rewrite El in Hk).
    set (t := <[sid := set_Scope ScopeDirect se0]> (sessions_of w.1 v)).
    assert (HS : forall u k, is_Some (sessions_of (set_direct (<[v := mkLease sid 1 now]> (mg_directMounts w.1))
        (set_sessions (<[v := t]> (mg_mountSessions w.1)) w.1)) u !! k) <-> is_Some (sessions_of w.1 u !! k)).
    { intros u k. unfold sessions_of at 1. simpl. destruct (decide (u = v)) as [->|Hn].
      - rewrite lookup_insert_eq. simpl. unfold t. rewrite lookup_insert_is_Some'. split; [intros [<-|?]; eauto|auto].
      - by rewrite lookup_insert_ne. }
    destruct L as [L1 L2 L3 L4 L5 L6]. simpl in *. split; cbn [g_mgr g_out g_made g_doomed g_used g_direct fst]; try done.
    + intros u l'. simpl. intros [[<- <-]|[Hn Hl]]%lookup_insert_Some; simpl.
      * rewrite acquisitions_cons, decide_True by done.
        assert (acquisitions out (v, sid) = 0).
        { pose proof (Hout sid) as Hz. rewrite acquisitions_pos in Hz. unfold acquisitions in *. lia. }
        split; [apply HS; eauto|]. split; [lia|]. done.
      * destruct (L1 _ _ Hl) as (? & ? & ? & Hm & ?). rewrite acquisitions_cons, decide_False, Z.add_0_r by congruence.
        split; [by apply HS|]. split; [done|]. split; [done|]. split; [set_solver|done].
    + intros u k [[= -> ->]|Hin]%elem_of_cons; simpl; [by rewrite lookup_insert_eq|].
      destruct (decide (u = v)) as [->|]; [by apply Hout in Hin|]. rewrite lookup_insert_ne by congruence. auto.
    + intros u k Hk. destruct (L3 u k) as (? & ? & ?); [set_solver|]. split; [by apply HS|done].
Qed.

Lemma leases_release now v s w w' o1 o2 made doomed used direct :
  releaseDirectVolumeFileMount now v s w = (Ok tt, w') ->
  leases_ok (mkG w (o1 ++ (v, s) :: o2) made doomed used direct) -> leases_ok (mkG w' (o1 ++ o2) made doomed used direct).
Proof.
  intros E [L1 L2 L3 L4 L5 L6]. unfold releaseDirectVolumeFileMount in E.
  unfold bind, mgr_get, gets, mgr_modify, modify, ret in E. simpl in *.
  pose proof (L2 v s ltac:(set_solver)) as Hl. destruct (mg_directMounts w.1 !! v) as [l|] eqn:El; [|done].
  injection Hl as Hl. rewrite decide_False in E by congruence. injection E as <-.
  destruct (L1 _ _ El) as (? & Hc & Hrest). rewrite Hl, acquisitions_middle, acquisitions_cons, decide_True in Hc by done.
  assert (0 <= acquisitions (o1 ++ o2) (v, s)) by (unfold acquisitions; lia).
  rewrite (proj2 (Z.ltb_lt 0 (dl_InFlight l))) by lia.
  split; cbn [g_mgr g_out g_made g_doomed g_used g_direct fst]; try done.
  - intros u l'. simpl. intros [[<- <-]|[Hn Hl']]%lookup_insert_Some; simpl.
    + rewrite <- Hl. split; [done|]. split; [rewrite Hl; lia|done].
    + destruct (L1 _ _ Hl') as (? & Hc' & ?). rewrite acquisitions_middle, acquisitions_cons, decide_False, Z.add_0_r in Hc' by congruence. done.
  - intros u k Hin. simpl. specialize (L2 u k ltac:(set_solver)). destruct (decide (u = v)) as [->|].
    + rewrite lookup_insert_eq. rewrite El in L2. simpl in *. congruence.
    + by rewrite lookup_insert_ne by congruence.
Qed.

(** Leases that are not busy are taken out of the table, their sessions are doomed. *)
Lemma leases_drop (P : string * directMountLease -> Prop) `{!forall kv, Decision (P kv)} w out made doomed used direct :
  (forall v l, mg_directMounts w.1 !! v = Some l -> ~ P (v, l) -> dl_InFlight l <= 0) ->
  leases_ok (mkG w out made doomed used direct) ->
  leases_ok (mkG (set_direct (filter P (mg_directMounts w.1)) w.1, w.2) out made
    (((fun kv => (kv.1, dl_SessionID kv.2)) <$> map_to_list (filter (fun kv => ~ P kv) (mg_directMounts w.1))) ++ doomed) used direct).
Proof.
  intros HP [L1 L2 L3 L4 L5 L6]. simpl in *.
  assert (Hd : forall v s, (v, s) ∈ ((fun kv => (kv.1, dl_SessionID kv.2)) <$>
      map_to_list (filter (fun kv => ~ P kv) (mg_directMounts w.1))) ->
      exists l, mg_directMounts w.1 !! v = Some l /\ dl_SessionID l = s /\ ~ P (v, l)).
  { intros v s ([u l] & [= -> ->] & Hin)%list_elem_of_fmap. apply elem_of_map_to_list, map_lookup_filter_Some in Hin as [? ?]. eauto. }
  split; cbn [g_mgr g_out g_made g_doomed g_used g_direct fst]; try done.
  - intros v l. simpl. intros [Hl Hp]%map_lookup_filter_Some. destruct (L1 _ _ Hl) as (? & ? & ? & ? & ?).
    split; [done|]. split; [done|]. split; [|done]. rewrite elem_of_app. intros [(l' & ? & ? & ?)%Hd|?]; [congruence|done].
  - intros v s Hin. simpl. specialize (L2 _ _ Hin). destruct (mg_directMounts w.1 !! v) as [l|] eqn:El; [|done].
    injection L2 as Hs. destruct (decide (P (v, l))) as [Hp|Hp].
    + rewrite (proj2 (map_lookup_filter_Some P _ _ _) (conj El Hp)). simpl. by f_equal.
    + exfalso. destruct (L1 _ _ El) as (_ & Hc & _). rewrite Hs in Hc. apply acquisitions_pos in Hin. specialize (HP _ _ El Hp). lia.
  - intros v s Hin. destruct (L3 _ _ Hin) as (? & ? & ?). split; [done|]. split; [|done].
    rewrite elem_of_app. intros [(l & Hl & <- & _)%Hd|?]; [|done]. destruct (L1 _ _ Hl) as (_ & _ & _ & Hm & _). done.
  - intros v s. rewrite elem_of_app. intros [(l & Hl & <- & _)%Hd|?]; [|auto]. apply (L1 _ _ Hl).
Qed.

Lemma leases_idle cutoff l w w' out made doomed used direct :
  idle_begin cutoff w = (Ok l, w') ->
  leases_ok (mkG w out made doomed used direct) -> leases_ok (mkG w' out made (l ++ doomed) used direct).
Proof.
  unfold idle_begin, bind, mgr_get, gets, mgr_modify, modify, ret. intros [= <- <-] L.
  eapply (leases_drop (fun kv => lease_busy cutoff kv.2 = true)) in L.
  - assert (Hf : filter (fun kv : string * directMountLease => lease_busy cutoff kv.2 = false) (mg_directMounts w.1) =
                 filter (fun kv => ~ lease_busy cutoff kv.2 = true) (mg_directMounts w.1)).
    { apply map_filter_ext. intros v d _. simpl. by destruct (lease_busy cutoff d). }
    rewrite Hf. exact L.
  - intros v d _ Hb. simpl in Hb. unfold lease_busy in Hb. destruct (Z.ltb_spec 0 (dl_InFlight d)); [done|lia].
Qed.

Lemma leases_cleanup v idle w w' out made doomed used direct :
  cleanup_begin v w = (Ok idle, w') ->
  leases_ok (mkG w out made doomed used direct) ->
  leases_ok (mkG w' out made (((fun r => (v, r)) <$> option_list idle) ++ doomed) used direct).
Proof.
  unfold cleanup_begin, bind, mgr_get, gets, mgr_modify, modify, ret. intros E L.
  destruct (mg_directMounts w.1 !! v) as [l|] eqn:El; [|by injection E as <- <-].
  destruct (Z.ltb_spec 0 (dl_InFlight l)) as [|Hz]; [by injection E as <- <-|]. injection E as <- <-. simpl.
  eapply (leases_drop (fun kv => kv.1 <> v)) in L.
  - assert (H1 : filter (fun kv : string * directMountLease => kv.1 <> v) (mg_directMounts w.1) = delete v (mg_directMounts w.1)).
    { apply map_eq. intros u. destruct (decide (u = v)) as [->|Hn].
      - rewrite lookup_delete_eq. apply map_lookup_filter_None. right. intros d _ H. done.
      - rewrite lookup_delete_ne by done. destruct (mg_directMounts w.1 !! u) as [d|] eqn:Eu.
        + by apply map_lookup_filter_Some.
        + apply map_lookup_filter_None. by left. }
    assert (H2 : filter (fun kv : string * directMountLease => ~ kv.1 <> v) (mg_directMounts w.1) = {[v := l]}).
    { apply map_eq. intros u. destruct (decide (u = v)) as [->|Hn].
      - rewrite lookup_singleton_eq. apply map_lookup_filter_Some. split; [done|]. simpl. tauto.
      - rewrite lookup_singleton_ne by done. apply map_lookup_filter_None. right. intros d _ H. simpl in H. tauto. }
    rewrite H1, H2, map_to_list_singleton in L. exact L.
  - intros u d Hu Hp. simpl in Hp. apply dec_stable in Hp. subst u. rewrite El in Hu. injection Hu as <-. lia.
Qed.

(** ** All steps *)

(** Same sessions, volumes and teams, whatever scopes and roots. *)
Definition same_tables m m' : Prop :=
  (forall u k, ms_TeamID <$> sessions_of m' u !! k = ms_TeamID <$> sessions_of m u !! k) /\
  (forall u, vc_TeamID <$> mg_volumes m' !! u = vc_TeamID <$> mg_volumes m !! u).

Lemma tables_same used m m' : same_tables m m' -> tables_ok used m -> tables_ok used m'.
Proof.
  intros [HS HV] [H1 H2 H3].
  assert (He : forall u, sessions_of m' u = ∅ <-> sessions_of m u = ∅).
  { intros u. rewrite !map_empty. split; intros Hn k; specialize (HS u k); specialize (Hn k);
      rewrite Hn in HS; [symmetry in HS|]; by apply fmap_None in HS. }
  split.
  - intros u. rewrite He, <- H1, <- (fmap_is_Some vc_TeamID), HV. by rewrite fmap_is_Some.
  - intros u vc Hu. specialize (HV u). rewrite Hu in HV. symmetry in HV. apply fmap_Some in HV as (vc0 & Hv0 & ->).
    destruct (H2 _ _ Hv0) as [? Hall]. split; [done|]. intros s se Hs. specialize (HS u s). rewrite Hs in HS.
    symmetry in HS. apply fmap_Some in HS as (se0 & Hs0 & ->). eauto.
  - intros u s Hs. apply (H3 u). by rewrite <- (fmap_is_Some ms_TeamID), <- HS, fmap_is_Some.
Qed.

(** Changing the scope of a session. *)
Lemma same_rescope v k se m (f : Manager B -> Manager B) :
  sessions_of m v !! k = Some se ->
  (forall m, mg_volumes (f m) = mg_volumes m /\ mg_mountSessions (f m) = mg_mountSessions m) ->
  same_tables m (f (set_sessions (<[v := <[k := set_Scope ScopeDirect se]> (sessions_of m v)]> (mg_mountSessions m)) m)).
Proof.
  intros Hk Hf. split; [|intros u; by rewrite (proj1 (Hf _))].
  intros u i. unfold sessions_of at 1. rewrite (proj2 (Hf _)). fold (sessions_of (set_sessions (<[v := <[k := set_Scope ScopeDirect se]> (sessions_of m v)]> (mg_mountSessions m)) m) u).
  rewrite sessions_insert. destruct (decide (u = v)) as [->|]; [|done]. destruct (decide (i = k)) as [->|Hn].
  - by rewrite lookup_insert_eq, Hk.
  - by rewrite lookup_insert_ne by congruence.
Qed.

Lemma leased_some m v l se : leased m v = Some (l, se) -> sessions_of m v !! dl_SessionID l = Some se.
Proof.
  unfold leased. destruct (mg_directMounts m !! v) as [l0|]; simpl; [|done].
  destruct (sessions_of m v !! dl_SessionID l0) eqn:E; simpl; [|done]. by intros [= <- <-].
Qed.

Lemma same_refl m m' : mg_volumes m' = mg_volumes m -> mg_mountSessions m' = mg_mountSessions m -> same_tables m m'.
Proof. intros H1 H2. split; [|by rewrite H1]. intros u k. unfold sessions_of. by rewrite H2. Qed.

Lemma same_begin now v r (w w' : Manager B * X) : acquire_begin now v w = (Ok r, w') -> same_tables w.1 w'.1.
Proof.
  unfold acquire_begin, bind, mgr_get, gets, mgr_modify, modify, ret. destruct (leased w.1 v) as [[l se]|] eqn:E; intros [= <- <-].
  - apply (same_rescope v _ se _ (set_direct _)); [by apply leased_some|done].
  - by apply same_refl.
Qed.

Lemma same_finish now v sid r (w w' : Manager B * X) : acquire_finish now v sid w = (Ok r, w') -> same_tables w.1 w'.1.
Proof.
  unfold acquire_finish, bind, mgr_get, gets, mgr_modify, modify, ret. destruct (leased w.1 v) as [[l se]|] eqn:E.
  - intros [= <- <-]. apply (same_rescope v _ se _ (set_direct _)); [by apply leased_some|done].
  - destruct (sessions_of w.1 v !! sid) as [se|] eqn:Es; intros [= <- <-]; [|by apply same_refl].
    apply (same_rescope v sid se _ (fun m => set_direct (<[v := mkLease sid 1 now]> (mg_directMounts m)) m)); done.
Qed.

Lemma same_root v i (w w' : Manager B * X) r : UpdateVolumeRoot v i w = (r, w') ->
  same_tables w.1 w'.1 /\ mg_mountSessions w'.1 = mg_mountSessions w.1 /\ mg_directMounts w'.1 = mg_directMounts w.1.
Proof.
  unfold UpdateVolumeRoot, bind, mgr_get, gets, mgr_modify, modify, throw. destruct (mg_volumes w.1 !! v) as [vc|] eqn:E; intros [= <- <-]; [|done].
  split; [|done]. split; [done|]. intros u. simpl. destruct (decide (u = v)) as [->|].
  - by rewrite lookup_insert_eq, E.
  - by rewrite lookup_insert_ne by congruence.
Qed.

(** Steps on the trackers touch no other table. *)
Definition trackers_only {A} (c : ST string (Manager B * X) A) : Prop := forall w,
  exists t, (c w).2 = (set_invalidates t (w.1), w.2).

Lemma manager_eta m : m = set_invalidates (mg_invalidates m) m.
Proof. by destruct m. Qed.

Lemma trackers_begin v i : trackers_only (BeginInvalidate v i).
Proof.
  intros [m x]. unfold BeginInvalidate, bind, mgr_get, gets, mgr_modify, modify, ret, throw.
  repeat case_decide; [..|case_match]; eexists; simpl; (try by rewrite <- manager_eta); done.
Qed.
Lemma trackers_ack v s i ok msg : trackers_only (Volume.AckInvalidate v s i ok msg).
Proof.
  intros [m x]. unfold Volume.AckInvalidate, bind, mgr_get, gets, mgr_modify, modify, ret.
  case_match; [case_decide|]; eexists; simpl; (try by rewrite <- manager_eta); done.
Qed.
Lemma trackers_wait e v i : trackers_only (WaitForInvalidate e v i).
Proof.
  intros [m x]. unfold WaitForInvalidate, bind, mgr_get, gets, mgr_modify, modify, ret.
  case_match; [case_match; [|case_match]|]; eexists; simpl; (try by rewrite <- manager_eta); done.
Qed.

Lemma state_frame w w' out made doomed used direct :
  same_tables w.1 w'.1 -> mg_mountSessions w'.1 = mg_mountSessions w.1 -> mg_directMounts w'.1 = mg_directMounts w.1 ->
  state_ok (mkG w out made doomed used direct) -> state_ok (mkG w' out made doomed used direct).
Proof.
  intros HT HS HD [T L]. split; [by eapply tables_same|]. eapply leases_frame; [exact L|done| |done|done|done|apply L].
  intros v s _ _. unfold sessions_of. by rewrite HS.
Qed.

Lemma state_trackers {A} (c : ST string (Manager B * X) A) w w' r out made doomed used direct :
  trackers_only c -> c w = (r, w') ->
  state_ok (mkG w out made doomed used direct) -> state_ok (mkG w' out made doomed used direct).
Proof. intros Hc E. destruct (Hc w) as [t Ht]. rewrite E in Ht. simpl in Ht. subst w'. by apply state_frame; [apply same_refl|..]. Qed.

Lemma mstep_ok g g' : mstep g g' -> state_ok g -> state_ok g'.
Proof.
  intros Hs. destruct Hs; intros S; destruct (S) as [T L]; simpl in T.
  - destruct w, w'. split; [by eapply tables_mount|by eapply leases_mount].
  - destruct w, w'. split; [by eapply tables_unmount|by eapply leases_unmount].
  - split; [eapply tables_same; [by eapply same_begin|done]|by apply (leases_begin _ _ _ _ _ _ _ _ _ _ H L)].
  - split; [eapply tables_same; [by eapply same_begin|done]|by apply (leases_begin _ _ _ _ _ _ _ _ _ _ H L)].
  - destruct w, w'. split; [by eapply tables_mount|by eapply leases_made].
  - split; [eapply tables_same; [by eapply same_finish|done]|by eapply leases_finish].
  - split; [|by eapply leases_release]. simpl. revert H. unfold releaseDirectVolumeFileMount, bind, mgr_get, gets, mgr_modify, modify, ret.
    case_match; [case_decide|]; intros [= <-]; by apply (tables_same _ w.1); [apply same_refl|].
  - split; [|by eapply leases_cleanup]. simpl. revert H. unfold cleanup_begin, bind, mgr_get, gets, mgr_modify, modify, ret.
    case_match; [case_match|]; intros [= <- <-]; by apply (tables_same _ w.1); [apply same_refl|].
  - split; [|by eapply leases_idle]. simpl. revert H. unfold idle_begin, bind, mgr_get, gets, mgr_modify, modify, ret.
    intros [= <- <-]. by apply (tables_same _ w.1); [apply same_refl|].
  - destruct w, w'. split; [by eapply tables_unmount|by eapply leases_doom].
  - by eapply state_trackers; [apply trackers_begin|..].
  - by eapply state_trackers; [apply trackers_ack|..].
  - by eapply state_trackers; [apply trackers_wait|..].
  - apply same_root in H as (? & ? & ?). by eapply state_frame.
Qed.


(** ** Invalidations *)

(** A tracker waits for sessions of its volume only, and is settled exactly when a
    participant failed or none is left; a tracker that never had a participant
    stays open. *)
Record tracker_ok (sessions : gmap string MountSession) (t : invalidateTracker) : Prop := {
  tr_live : it_pending t ⊆ dom sessions;
  tr_done : it_done t = true -> is_Some (it_err t) \/ it_pending t = ∅;
  tr_open : it_done t = false -> it_err t = None
}.

Definition trackers_ok m : Prop := forall v i t, tracker_at m v i = Some t -> tracker_ok (sessions_of m v) t.

Lemma settle_ok sessions p d e :
  p ⊆ dom sessions -> (d = true -> is_Some e \/ p = ∅) -> tracker_ok sessions (settle (mkTracker p d e)).
Proof.
  intros Hp Hd. unfold settle; simpl.
  destruct (bool_decide_reflect (is_Some e)) as [He|He]; simpl; [split; simpl; [done|auto|done]|].
  destruct (bool_decide_reflect (p = ∅)) as [Hz|Hz]; simpl; [split; simpl; [done|auto|done]|].
  split; simpl; [done|done|]. intros _. by apply eq_None_not_Some.
Qed.

Lemma drop_pending_ok s sessions t : tracker_ok sessions t -> tracker_ok (delete s sessions) (drop_pending s t).
Proof.
  intros [H1 H2 H3]. unfold drop_pending. destruct (decide (s ∈ it_pending t)) as [Hs|Hs].
  - apply settle_ok; [rewrite dom_delete_L; set_solver|]. intros [?|He]%H2; [by left|]. rewrite He in Hs. set_solver.
  - split; [rewrite dom_delete_L; set_solver|done|done].
Qed.

Lemma ack_ok s ok msg sessions t : tracker_ok sessions t -> tracker_ok sessions (ack s ok msg t).
Proof.
  intros [H1 H2 H3]. unfold ack. apply settle_ok; [set_solver|].
  intros [[e ->]|He]%H2; [left; eauto|]. right. set_solver.
Qed.

Lemma trackers_grow m m' : mg_invalidates m' = mg_invalidates m ->
  (forall v, dom (sessions_of m v) ⊆ dom (sessions_of m' v)) -> trackers_ok m -> trackers_ok m'.
Proof.
  intros Hi Hs T v i t Ht. assert (Ht' : tracker_at m v i = Some t) by (by unfold tracker_at, trackers_of in *; rewrite Hi in Ht).
  destruct (T _ _ _ Ht') as [H1 H2 H3]. split; [|done|done]. etrans; [exact H1|apply Hs].
Qed.

Lemma tracker_insert m v i t u j t' :
  tracker_at (set_invalidates (<[v := <[i := t]> (trackers_of m v)]> (mg_invalidates m)) m) u j = Some t' ->
  u = v /\ j = i /\ t' = t \/ tracker_at m u j = Some t'.
Proof.
  unfold tracker_at, trackers_of at 1. simpl. destruct (decide (u = v)) as [->|Hn].
  - rewrite lookup_insert_eq. simpl. intros [[<- <-]|[_ ?]]%lookup_insert_Some; auto.
  - rewrite lookup_insert_ne by congruence. auto.
Qed.

Lemma same_dom m m' : same_tables m m' -> forall v, dom (sessions_of m v) ⊆ dom (sessions_of m' v).
Proof.
  intros [HS _] v k. rewrite !elem_of_dom, <- !(fmap_is_Some ms_TeamID), HS. done.
Qed.

Lemma trackers_mount sid now pfx v team mode w w' r :
  Volume.MountVolume sid now pfx v team mode w = (r, w') -> r <> Panic -> trackers_ok w.1 -> trackers_ok w'.1.
Proof.
  destruct w as [m x], w' as [m' x']. intros E Hp.
  destruct (MountVolume_spec _ _ _ _ _ _ _ _ _ _ _ E Hp) as [[-> _]|(_ & _ & [_ HI] & HS & _)]; [done|].
  apply trackers_grow; [done|]. intros u. simpl. rewrite HS. destruct (decide (u = v)) as [->|]; [|done]. rewrite dom_insert_L. set_solver.
Qed.

Lemma trackers_unmount v s w w' r :
  Volume.UnmountVolume v s w = (r, w') -> r <> Panic -> trackers_ok w.1 -> trackers_ok w'.1.
Proof.
  destruct w as [m x], w' as [m' x']. intros E Hp.
  destruct (UnmountVolume_spec _ _ _ _ _ _ _ E Hp) as [[-> _]|(_ & _ & _ & HS & _ & _ & HT)]; [done|]. simpl.
  intros T u i t. unfold tracker_at. rewrite HT, HS. unfold table_after. destruct (decide (u = v)) as [->|]; [|apply T].
  rewrite lookup_fmap. intros (t0 & Ht0 & ->)%fmap_Some. apply drop_pending_ok. by apply (T v i).
Qed.

Lemma mstep_trackers g g' : mstep g g' -> trackers_ok (g_mgr g).1 -> trackers_ok (g_mgr g').1.
Proof.
  intros Hs T. destruct Hs; simpl in *.
  - by eapply trackers_mount.
  - by eapply trackers_unmount.
  - pose proof (same_begin _ _ _ _ _ H) as HT. revert H HT. unfold acquire_begin, bind, mgr_get, gets, mgr_modify, modify, ret.
    case_match; [case_match; intros [= <- <-] HT|done]. apply (trackers_grow w.1); try done; by apply same_dom.
  - pose proof (same_begin _ _ _ _ _ H) as HT. revert H HT. unfold acquire_begin, bind, mgr_get, gets, mgr_modify, modify, ret.
    case_match; [by case_match|]. intros [= <-] HT. apply (trackers_grow w.1); try done; by apply same_dom.
  - by eapply trackers_mount.
  - pose proof (same_finish _ _ _ _ _ _ H) as HT. revert H HT. unfold acquire_finish, bind, mgr_get, gets, mgr_modify, modify, ret.
    destruct (leased w.1 v) as [[l se]|]; [|destruct (sessions_of w.1 v !! sid)];
      intros [= <- <- <-] HT; apply (trackers_grow w.1); try done; by apply same_dom.
  - revert H. unfold releaseDirectVolumeFileMount, bind, mgr_get, gets, mgr_modify, modify, ret.
    case_match; [case_decide|]; intros [= <-]; by apply (trackers_grow w.1).
  - revert H. unfold cleanup_begin, bind, mgr_get, gets, mgr_modify, modify, ret.
    case_match; [case_match|]; intros [= <- <-]; by apply (trackers_grow w.1).
  - revert H. unfold idle_begin, bind, mgr_get, gets, mgr_modify, modify, ret. intros [= <- <-]. by apply (trackers_grow w.1).
  - by eapply trackers_unmount.
  - revert H. unfold BeginInvalidate, bind, mgr_get, gets, mgr_modify, modify, ret, throw.
    repeat case_decide; [by intros [= <- <-]..|]. case_match; intros [= <- <-]; [done|].
    intros u j t [(-> & -> & ->)|Ht]%tracker_insert; [|by apply (T u j)].
    split; simpl; [|done|done]. apply dom_filter_subseteq.
  - revert H. unfold Volume.AckInvalidate, bind, mgr_get, gets, mgr_modify, modify, ret.
    case_match; [case_decide|]; intros [= <- <-]; [|done..].
    intros u j t' [(-> & -> & ->)|Ht]%tracker_insert; [|by apply (T u j)]. apply ack_ok. by apply (T v i).
  - revert H. unfold WaitForInvalidate, bind, mgr_get, gets, mgr_modify, modify, ret.
    case_match; [case_match; [|case_match]|]; intros [= <- <-]; try done.
    intros u j t'. unfold drop_tracker, tracker_at, trackers_of at 1. simpl. case_decide as Hz.
    + destruct (decide (u = v)) as [->|]; [rewrite lookup_delete_eq; simpl; by rewrite lookup_empty|].
      rewrite lookup_delete_ne by congruence. apply T.
    + destruct (decide (u = v)) as [->|]; [rewrite lookup_insert_eq; simpl; intros [_ ?]%lookup_delete_Some; by apply (T v j)|].
      rewrite lookup_insert_ne by congruence. apply T.
  - pose proof (same_root _ _ _ _ _ H) as (HT & _ & _). revert H HT.
    unfold UpdateVolumeRoot, bind, mgr_get, gets, mgr_modify, modify, throw. case_match; intros [= <- <-] HT; [|done].
    apply (trackers_grow w.1); [done|by apply same_dom|done].
Qed.

Definition started (backends : gmap string (option B)) (default : string) (x : X) : State :=
  mkG (NewManagerWithBackends backends default, x) [] [] [] ∅ ∅.

Lemma started_ok backends default x : state_ok (started backends default x) /\ trackers_ok (g_mgr (started backends default x)).1.
Proof.
  split; [split|].
  - split; simpl.
    + intros v. unfold sessions_of. simpl. rewrite !lookup_empty. simpl. split; [by intros []|done].
    + intros v vc. by rewrite lookup_empty.
    + intros v s. unfold sessions_of. simpl. rewrite !lookup_empty. simpl. rewrite lookup_empty. by intros [].
  - split; simpl; [intros v l; by rewrite lookup_empty|set_solver|set_solver|constructor|set_solver|set_solver].
  - intros v i t. unfold tracker_at, trackers_of. simpl. rewrite lookup_empty. simpl. by rewrite lookup_empty.
Qed.

Lemma run_ok backends default x g : rtc mstep (started backends default x) g -> state_ok g /\ trackers_ok (g_mgr g).1.
Proof.
  intros R. assert (H : forall g0, state_ok g0 /\ trackers_ok (g_mgr g0).1 -> rtc mstep g0 g -> state_ok g /\ trackers_ok (g_mgr g).1).
  { clear R. intros g0 Hg R0. induction R0 as [|g1 g2 g3 S R0 IH]; [done|]. apply IH.
    destruct Hg. split; [by eapply mstep_ok|by eapply mstep_trackers]. }
  eapply H; [apply started_ok|exact R].
Qed.

(** Acknowledgements of sessions, one after the other. *)
Definition ack_all (v i : string) (ss : list string) (g : Manager B * X) : Manager B * X :=
  fold_left (fun g s => (Volume.AckInvalidate v s i true "" g).2) ss g.

Lemma ack_all_done v i ss (g : Manager B * X) t :
  tracker_at g.1 v i = Some t -> it_pending t <> ∅ \/ it_done t = true -> it_pending t ⊆ list_to_set ss ->
  exists t', tracker_at (ack_all v i ss g).1 v i = Some t' /\ it_done t' = true.
Proof.
  revert g t. induction ss as [|s ss IH]; intros g t Ht Hn Hs; simpl.
  - exists t. split; [done|]. destruct Hn as [Hn|]; [|done]. destruct Hn. set_solver.
  - assert (Hg : exists t1, tracker_at (Volume.AckInvalidate v s i true "" g).2.1 v i = Some t1 /\
        (it_pending t1 <> ∅ \/ it_done t1 = true) /\ it_pending t1 ⊆ list_to_set ss).
    { unfold Volume.AckInvalidate, bind, mgr_get, gets. rewrite Ht. destruct (decide (s ∈ it_pending t)) as [Hin|Hin].
      - exists (ack s true "" t). unfold mgr_modify, modify, tracker_at, trackers_of. simpl. rewrite lookup_insert_eq. simpl.
        rewrite lookup_insert_eq. split; [done|]. unfold ack, settle. simpl. split.
        + destruct (bool_decide_reflect (it_pending t ∖ {[s]} = ∅)) as [E|E]; [rewrite orb_true_r; by right|]. left.
          by destruct (bool_decide (is_Some _)).
        + assert (it_pending t ∖ {[s]} ⊆ list_to_set ss) by set_solver. by destruct (_ || _).
      - exists t. split; [done|]. split; [done|]. set_solver. }
    destruct Hg as (t1 & H1 & H2 & H3). by apply (IH _ t1).
Qed.

End sessions.

(** ** The properties *)

(** C32: a direct session is not unmounted under a running request.  Over all
    interleavings of mounts, unmounts, acquisitions, releases and cleanups, every
    acquisition that is not released yet has its session in the table of its volume,
    the volume is mounted, and the lease counts exactly the acquisitions of its
    session; a volume is mounted exactly while it has a session, and all its sessions
    are of the team that mounted it. *)
Theorem direct_sessions_safe {B X : Type} `{UP : UnicodeUpper} `{BK : Backend B X} `{RG : MountRegistrar X}
    `{!BackendLaws B X} backends default x g
    (R : rtc mstep (started backends default x) g) :
  let m := (g_mgr g).1 in
  (forall v s, (v, s) ∈ g_out g -> is_Some (sessions_of m v !! s) /\ is_Some (mg_volumes m !! v)) /\
  (forall v l, mg_directMounts m !! v = Some l -> dl_InFlight l = acquisitions (g_out g) (v, dl_SessionID l)) /\
  (forall v, is_Some (mg_volumes m !! v) <-> sessions_of m v <> ∅) /\
  (forall v vc s se, mg_volumes m !! v = Some vc -> sessions_of m v !! s = Some se -> ms_TeamID se = vc_TeamID vc).
Proof.
  destruct (run_ok _ _ _ _ R) as [[T L] _]. cbv zeta. split; [|split; [|split]].
  - intros v s Hin. pose proof (le_out _ L _ _ Hin) as Hl.
    destruct (mg_directMounts (g_mgr g).1 !! v) as [l|] eqn:El; [|done]. injection Hl as <-.
    destruct (le_lease _ L _ _ El) as (Hs & _). split; [done|]. apply (tb_mounted _ _ T). intros He.
    rewrite He, lookup_empty in Hs. by destruct Hs.
  - intros v l Hl. apply (le_lease _ L _ _ Hl).
  - apply T.
  - intros v vc s se Hv Hs. by apply (tb_team _ _ T _ _ Hv) in Hs.
Qed.


(** A backend that mounts everything, and no registrar. *)
Definition demo_context (req : BackendMountRequest) : VolumeContext :=
  mkVolume (mr_VolumeID req) (mr_TeamID req) BackendS0FS None (mr_AccessMode req) (mr_MountedAt req) 1 "/" "" no_handles.
Definition demo_backend : Backend unit unit :=
  {| be_MountVolume := fun _ req => ret (demo_context req); be_UnmountVolume := fun _ _ => ret tt |}.
Definition demo_registrar : MountRegistrar unit :=
  {| reg_present := false; RegisterMount := fun _ _ => ret tt; UnregisterMount := fun _ => ret tt |}.
Definition demo_upper : UnicodeUpper := {| unicode_upper := fun s => s |}.

Lemma demo_laws : @BackendLaws unit unit demo_backend.
Proof. split. intros b req x vc x' [= <- <-]. done. Qed.

Definition demo_state : @State unit unit := started {["s0fs" := Some tt]} "s0fs" tt.

(** The state after a client mounted the volume and a request holds its direct
    session, with an invalidation under way. *)
Definition demo_run (w : Manager unit * unit) : Manager unit * unit :=
  let w := (@Volume.MountVolume unit unit demo_upper demo_backend demo_registrar "s1" 10 "p" "vol" "team" "rwo" w).2 in
  let w := (@Volume.MountVolume unit unit demo_upper demo_backend demo_registrar "s2" 11 "p" "vol" "team" "rwo" w).2 in
  let w := (acquire_finish 12 "vol" "s2" w).2 in
  (BeginInvalidate "vol" "inv" w).2.

Definition demo_end : @State unit unit :=
  mkG (demo_run (NewManagerWithBackends {["s0fs" := Some tt]} "s0fs", tt)) [("vol", "s2")] [] [] {["s2"; "s1"]} {[("vol", "s2")]}.

Lemma demo_steps : rtc (@mstep unit unit demo_upper demo_backend demo_registrar) demo_state demo_end.
Proof.
  eapply rtc_l. { eapply (@M_mount unit unit demo_upper demo_backend demo_registrar "s1" 10 "p" "vol" "team" "rwo"); [set_solver|vm_compute; reflexivity|done]. }
  eapply rtc_l. { eapply (@M_acquire_mount unit unit demo_upper demo_backend demo_registrar "s2" 11 "p" "vol" "team" "rwo"); [set_solver|vm_compute; reflexivity]. }
  eapply rtc_l. { eapply (@M_acquire_finish unit unit demo_upper demo_backend demo_registrar 12 "vol" "s2" _ _ _ _ _ [] []); vm_compute; reflexivity. }
  eapply rtc_l. { eapply (@M_begin unit unit demo_upper demo_backend demo_registrar "vol" "inv"); vm_compute; reflexivity. }
  match goal with |- rtc _ ?a ?b => replace b with a; [apply rtc_refl|] end.
  vm_compute. reflexivity.
Qed.

Lemma direct_sessions_safe_witness :
  is_Some (mg_volumes (g_mgr demo_end).1 !! "vol").
Proof.
  destruct (@direct_sessions_safe unit unit demo_upper demo_backend demo_registrar demo_laws
    {["s0fs" := Some tt]} "s0fs" tt demo_end demo_steps) as (H & _).
  apply (H "vol" "s2"). constructor.
Defined.

Lemma demo_tracker : tracker_at (g_mgr demo_end).1 "vol" "inv" = Some (mkTracker {["s1"]} false None).
Proof. vm_compute. reflexivity. Qed.

