(* ===== verification/FsServerSpec.v ===== *)
(** * The file system server: tenants

    A request is one of the calls of the server.  A caller only reaches the volumes
    of their team, and nothing of the other volumes shows in the answers. *)

From stdpp Require Import base gmap strings list fin_maps numbers sorting.
From Stdlib Require Import Strings.Byte Strings.Ascii.
From S2P Require Import Prelude GoStd GoNet S0fsTypes S0fsCore S0fsEngine S0fsInv S0fsSafety Volume Notify Naming FsServer VolumeSpec.

Local Open Scope Z_scope.

(** ** Requests *)

Inductive Request :=
| RMount (sessionID : string)
| RUnmount (mountSessionID : string)
| RAck (mountSessionID invalidateID : string) (success : bool) (errorMessage : string)
| RGetAttr (inode : Z)
| RLookup (parent : Z) (name : string)
| ROpen (inode flags : Z) (actor : option PosixActor)
| RRead (inode offset size : Z)
| RWrite (inode offset : Z) (data : list byte) (handleID : Z)
| RCreate (parent : Z) (name : string) (mode : Z) (actor : option PosixActor)
| RMkdir (parent : Z) (name : string) (mode : Z) (actor : option PosixActor)
| RUnlink (parent : Z) (name : string)
| RReadDir (inode offset : Z) (plus : bool)
| ROpenDir (inode : Z)
| RReleaseDir (handleID : Z)
| RRename (oldParent : Z) (oldName : string) (newParent : Z) (newName : string)
| RSetAttr (inode valid : Z) (attr : option AttrResponse)
| RFlush (handleID : Z)
| RFsync (handleID : Z)
| RRelease (handleID : Z)
| RRmdir (parent : Z) (name : string)
| RSymlink (parent : Z) (name target : string) (actor : option PosixActor)
| RReadlink (inode : Z)
| RLink (inode newParent : Z) (newName : string)
| RAccess (inode mask uid : Z) (gids : list Z) (actor : option PosixActor)
| RStatFs
| RMknod | RFallocate | RCopyFileRange | RSetXattr | RRemoveXattr | RGetXattr | RListXattr | RFlock | RIoctl
| RGetLk (has_lock : bool)
| RSetLk (has_lock : bool).

Inductive Response :=
| ANone
| AMounted (volumeID : string) (mountedAt : Z) (sessionID : string)
| AAttr (a : AttrResponse)
| ANode (n : NodeResponse)
| AHandle (h : Z)
| AData (data : list byte) (eof : bool)
| AWritten (n : Z)
| AEntries (es : list DirEntryResponse)
| ATarget (target : string)
| AStat (values : list Z).

Definition answer {S A} (f : A -> Response) (m : ST srv_error S A) : ST srv_error S Response := let* a := m in ret (f a).
Definition void {S} (m : ST srv_error S unit) : ST srv_error S Response := answer (fun _ => ANone) m.

Section server.
Context {B X : Type} `{UP : UnicodeUpper} `{CR : ColdReader} `{BK : Backend B X} `{RG : MountRegistrar X}.
Context (cfg : Config).
Abbreviation Srv := (ST srv_error (Server B X)).

(** The handler of each request, for the volume it names. *)
Definition handle (ctx : Ctx) (v : string) (r : Request) : Srv Response :=
  match r with
  | RMount sid => answer (fun '(a, b, c) => AMounted a b c) (FsServer.MountVolume cfg ctx sid v)
  | RUnmount sid => void (FsServer.UnmountVolume cfg ctx v sid)
  | RAck sid i ok msg => void (FsServer.AckInvalidate cfg ctx v sid i ok msg)
  | RGetAttr i => answer AAttr (FsServer.GetAttr cfg ctx v i)
  | RLookup p n => answer ANode (FsServer.Lookup cfg ctx v p n)
  | ROpen i fl a => answer AHandle (FsServer.Open cfg ctx v i fl a)
  | RRead i o k => answer (fun '(d, e) => AData d e) (FsServer.Read cfg ctx v i o k)
  | RWrite i o d h => answer AWritten (FsServer.Write cfg ctx v i o d h)
  | RCreate p n m a => answer ANode (FsServer.Create cfg ctx v p n m a)
  | RMkdir p n m a => answer ANode (FsServer.Mkdir cfg ctx v p n m a)
  | RUnlink p n => void (FsServer.Unlink cfg ctx v p n)
  | RReadDir i o pl => answer AEntries (FsServer.ReadDir cfg ctx v i o pl)
  | ROpenDir i => answer AHandle (FsServer.OpenDir cfg ctx v i)
  | RReleaseDir h => void (FsServer.ReleaseDir cfg ctx v h)
  | RRename p n p' n' => void (FsServer.Rename cfg ctx v p n p' n')
  | RSetAttr i va a => answer AAttr (FsServer.SetAttr cfg ctx v i va a)
  | RFlush h => void (FsServer.Flush cfg ctx v h)
  | RFsync h => void (FsServer.Fsync cfg ctx v h)
  | RRelease h => void (FsServer.Release cfg ctx v h)
  | RRmdir p n => void (FsServer.Rmdir cfg ctx v p n)
  | RSymlink p n t a => answer ANode (FsServer.Symlink cfg ctx v p n t a)
  | RReadlink i => answer ATarget (FsServer.Readlink cfg ctx v i)
  | RLink i p n => answer ANode (FsServer.Link cfg ctx v i p n)
  | RAccess i m u g a => void (FsServer.Access cfg ctx v i m u g a)
  | RStatFs => answer AStat (FsServer.StatFs cfg ctx v)
  | RMknod => void (FsServer.Mknod cfg ctx v)
  | RFallocate => void (FsServer.Fallocate cfg ctx v)
  | RCopyFileRange => void (FsServer.CopyFileRange cfg ctx v)
  | RSetXattr => void (FsServer.SetXattr cfg ctx v)
  | RRemoveXattr => void (FsServer.RemoveXattr cfg ctx v)
  | RGetXattr => void (FsServer.GetXattr cfg ctx v)
  | RListXattr => void (FsServer.ListXattr cfg ctx v)
  | RFlock => void (FsServer.Flock cfg ctx v)
  | RIoctl => void (FsServer.Ioctl cfg ctx v)
  | RGetLk b => void (FsServer.GetLk cfg ctx v b)
  | RSetLk b => void (FsServer.SetLk cfg ctx v b)
  end.

(** ** What a team can see *)

(** A volume that another team has mounted. *)
Definition foreign (team : string) (vc : VolumeContext) : Prop := vc_TeamID vc <> "" /\ vc_TeamID vc <> team.

(** Two tables of volumes that differ at most in the volumes of other teams. *)
Definition vols_alike (team : string) (m1 m2 : gmap string VolumeContext) : Prop :=
  forall u, m1 !! u = m2 !! u \/
    exists vc1 vc2, m1 !! u = Some vc1 /\ m2 !! u = Some vc2 /\ foreign team vc1 /\ foreign team vc2.

Definition with_volumes (t : gmap string VolumeContext) (s : Server B X) : Server B X :=
  set_mgr (set_volumes t (sv_mgr s).1, (sv_mgr s).2) s.

Record alike (team : string) (s1 s2 : Server B X) : Prop := {
  al_vols : vols_alike team (mg_volumes (sv_mgr s1).1) (mg_volumes (sv_mgr s2).1);
  al_rest : with_volumes ∅ s1 = with_volumes ∅ s2
}.

(** The volumes of other teams, and what the manager keeps about them. *)
Record spared (team : string) (s s' : Server B X) : Prop := {
  sp_foreign : forall u vc, mg_volumes (sv_mgr s).1 !! u = Some vc -> foreign team vc ->
    mg_volumes (sv_mgr s').1 !! u = Some vc /\
    sessions_of (sv_mgr s').1 u = sessions_of (sv_mgr s).1 u /\
    mg_directMounts (sv_mgr s').1 !! u = mg_directMounts (sv_mgr s).1 !! u /\
    trackers_of (sv_mgr s').1 u = trackers_of (sv_mgr s).1 u
}.

(** A computation whose result and effect do not depend on, and do not touch, the
    volumes of other teams. *)
Definition confined (team : string) {A} (m : Srv A) : Prop := forall s1 s2,
  alike team s1 s2 ->
  (m s1).1 = (m s2).1 /\ alike team (m s1).2 (m s2).2 /\ spared team s1 (m s1).2.


(** ** Confined computations *)

Lemma server_eta (s : Server B X) : s = with_volumes (mg_volumes (sv_mgr s).1) s.
Proof. by destruct s as [[[] ?] ? ? ?]. Qed.

Lemma with_with t t' (s : Server B X) : with_volumes t (with_volumes t' s) = with_volumes t s.
Proof. done. Qed.

(** Alike servers are one server with two tables of volumes. *)
Lemma alike_inv team (s1 s2 : Server B X) :
  alike team s1 s2 -> s2 = with_volumes (mg_volumes (sv_mgr s2).1) s1.
Proof.
  intros [_ H]. rewrite (server_eta s2) at 1. rewrite <- (with_with _ ∅), <- H. done.
Qed.

Lemma alike_intro team (s : Server B X) t :
  vols_alike team (mg_volumes (sv_mgr s).1) t -> alike team s (with_volumes t s).
Proof. intros H. by split. Qed.

Lemma vols_alike_insert team t1 t2 v vc : vols_alike team t1 t2 -> vols_alike team (<[v := vc]> t1) (<[v := vc]> t2).
Proof.
  intros H u. destruct (decide (u = v)) as [->|]; [left; by rewrite !lookup_insert_eq|].
  rewrite !lookup_insert_ne by congruence. apply H.
Qed.

Lemma vols_alike_delete team t1 t2 v : vols_alike team t1 t2 -> vols_alike team (delete v t1) (delete v t2).
Proof.
  intros H u. destruct (decide (u = v)) as [->|]; [left; by rewrite !lookup_delete_eq|].
  rewrite !lookup_delete_ne by congruence. apply H.
Qed.

Lemma spared_refl team (s : Server B X) : spared team s s.
Proof. split. intros u vc Hu _. auto. Qed.

Lemma spared_trans team (s1 s2 s3 : Server B X) : spared team s1 s2 -> spared team s2 s3 -> spared team s1 s3.
Proof.
  intros [H1] [H2]. split. intros u vc Hu Hf. destruct (H1 _ _ Hu Hf) as (Hu' & E1 & E2 & E3).
  destruct (H2 _ _ Hu' Hf) as (? & -> & -> & ->). auto.
Qed.

(** A step that only changes what belongs to a volume that is not another team's. *)
Definition touches (v : string) (m m' : Manager B) : Prop := forall u, u <> v ->
  mg_volumes m' !! u = mg_volumes m !! u /\ sessions_of m' u = sessions_of m u /\
  mg_directMounts m' !! u = mg_directMounts m !! u /\ trackers_of m' u = trackers_of m u.

Lemma spared_touches team v (s s' : Server B X) :
  touches v (sv_mgr s).1 (sv_mgr s').1 ->
  (forall vc, mg_volumes (sv_mgr s).1 !! v = Some vc -> ~ foreign team vc) -> spared team s s'.
Proof.
  intros HT Hn. split. intros u vc Hu Hf. destruct (decide (u = v)) as [->|Hne]; [by destruct (Hn _ Hu)|].
  destruct (HT _ Hne) as (-> & ? & ? & ?). auto.
Qed.

Lemma confined_same team {A} (m : Srv A) : (forall s t, (m (with_volumes t s)).1 = (m s).1) -> (forall s, (m s).2 = s) -> confined team m.
Proof.
  intros H1 H2 s1 s2 Ha. rewrite !H2. split; [|split; [done|apply spared_refl]].
  rewrite (alike_inv _ _ _ Ha). by rewrite H1.
Qed.

Lemma confined_bind team {A D} (m : Srv A) (k : A -> Srv D) :
  confined team m -> (forall a, confined team (k a)) -> confined team (bind m k).
Proof.
  intros Hm Hk s1 s2 Ha. destruct (Hm _ _ Ha) as (E & Ha' & Hs). unfold bind.
  destruct (m s1) as [r1 t1], (m s2) as [r2 t2]. simpl in *. subst r2. destruct r1 as [a|e|]; simpl; try done.
  destruct (Hk a _ _ Ha') as (? & ? & ?). split; [done|]. split; [done|]. by eapply spared_trans.
Qed.

Lemma confined_ret team {A} (a : A) : confined team (ret a : Srv A).
Proof. by apply confined_same. Qed.
Lemma confined_lift team {A} (r : res srv_error A) : confined team (lift_res r : Srv A).
Proof. by apply confined_same. Qed.
Lemma confined_throw team {A} e : confined team (throw e : Srv A).
Proof. by apply confined_same. Qed.
Lemma confined_panic team {A} : confined team (panic : Srv A).
Proof. by apply confined_same. Qed.

Lemma confined_answer team {A} (f : A -> Response) (m : Srv A) : confined team m -> confined team (answer f m).
Proof. intros H. apply confined_bind; [done|]. intros a. apply confined_ret. Qed.

Lemma confined_primary team v : confined team (requireLocalPrimary v : Srv unit).
Proof.
  apply confined_same; unfold requireLocalPrimary, bind, get; intros s; [intros t; simpl|]; by destruct (rt_LocalPrimary _).
Qed.

(** ** Calls on an authorized volume *)

(** Like [confined], at a volume that is not another team's. *)
Definition confined_at (team v : string) (vc : VolumeContext) {A} (m : Srv A) : Prop := forall s t,
  mg_volumes (sv_mgr s).1 !! v = Some vc -> t !! v = Some vc -> ~ foreign team vc ->
  vols_alike team (mg_volumes (sv_mgr s).1) t ->
  (m s).1 = (m (with_volumes t s)).1 /\ alike team (m s).2 (m (with_volumes t s)).2 /\ spared team s (m s).2.

Lemma confined_at_of team v vc {A} (m : Srv A) : confined team m -> confined_at team v vc m.
Proof. intros H s t _ _ _ Ht. apply H. by apply alike_intro. Qed.

Lemma confined_run team v vc {A} (b : Body A) : confined_at team v vc (run_body v vc b).
Proof.
  intros s t Hs Ht Hn Ha. unfold run_body. simpl. destruct (b _) as [r b']. simpl. split; [done|]. split.
  - split; simpl; [by apply vols_alike_insert|]. done.
  - apply (spared_touches _ v).
    + intros u Hu. simpl. by rewrite lookup_insert_ne by congruence.
    + intros vc' Hv. rewrite Hs in Hv. by injection Hv as <-.
Qed.

Lemma confined_on_s0fs team v vc {A} (b : Body A) : confined_at team v vc (on_s0fs v vc b).
Proof. unfold on_s0fs. destruct (isS0FSVolume vc); [apply confined_run|apply confined_at_of, confined_throw]. Qed.

(** The claims of a caller of a team. *)
Definition of_team (team : string) (ctx : Ctx) : Prop :=
  exists c, cx_claims ctx = Some c /\ cl_IsSystem c = false /\ cl_TeamID c = team.

(** The team that owns a mounted volume. *)
Definition owner_team (v : string) (vc : VolumeContext) : res srv_error string :=
  if decide (vc_TeamID vc = "") then
    match cf_repo cfg with
    | None => Ok ""
    | Some repo =>
        match GetSandboxVolume repo v with
        | Panic => Panic
        | Err DbNotFound => Err (New NotFound "sandbox volume not found")
        | Err _ => Err (New Internal "failed to load sandbox volume")
        | Ok vol => Ok (sbv_TeamID vol)
        end
    end
  else Ok (vc_TeamID vc).

(** The authorization as a function of the table of volumes. *)
Definition authorize (ctx : Ctx) (v : string) (t : gmap string VolumeContext) : res srv_error VolumeContext :=
  match cx_claims ctx with
  | None => Err (New Unauthenticated "missing auth claims")
  | Some claims =>
      match t !! v with
      | None => Err (New NotFound ("volume " +:+ v +:+ " not mounted"))
      | Some vc =>
          if IsSystemToken claims then Ok vc else
          if decide (cl_TeamID claims = "") then Err (New Unauthenticated "team id not found in context") else
          let? owner := owner_team v vc in
          if decide (owner = "") then Err (New FailedPrecondition "volume authorization unavailable") else
          if decide (owner <> cl_TeamID claims) then Err (New PermissionDenied "access denied to volume") else Ok vc
      end
  end.

Lemma authorize_eq ctx v (s : Server B X) :
  getAuthorizedMountedVolume cfg ctx v s = (authorize ctx v (mg_volumes (sv_mgr s).1), s).
Proof.
  unfold getAuthorizedMountedVolume, authorize. destruct (cx_claims ctx) as [c|]; [|done].
  unfold bind, on_mgr, GetVolume, bind, mgr_get, gets. replace (set_mgr (sv_mgr s) s) with s by (by destruct s).
  destruct (mg_volumes (sv_mgr s).1 !! v) as [vc|] eqn:Ev; unfold throw, ret.
  - replace (set_mgr (sv_mgr s) s) with s by (by destruct s). destruct (IsSystemToken c); [done|].
    destruct (decide (cl_TeamID c = "")); [done|]. unfold owner_team.
    destruct (decide (vc_TeamID vc = "")); [destruct (cf_repo cfg) as [repo|]; [destruct (GetSandboxVolume repo v) as [vol|[]|]|]|]; simpl; try done;
      repeat case_decide; done.
  - by replace (set_mgr (sv_mgr s) s) with s by (by destruct s).
Qed.

(** What it lets through: the entry of the table, not of another team. *)
Lemma authorized team ctx v t vc :
  of_team team ctx -> authorize ctx v t = Ok vc -> t !! v = Some vc /\ ~ foreign team vc.
Proof.
  intros (c & Hc & Hsys & Ht). unfold authorize, IsSystemToken. rewrite Hc, Hsys, Ht.
  destruct (t !! v) as [vc'|]; [|done]. case_decide; [done|]. unfold owner_team. case_decide as He.
  - intros H0. assert (vc' = vc) as ->; [|split; [done|by intros [? _]]]. revert H0.
    destruct (cf_repo cfg) as [repo|]; [destruct (GetSandboxVolume repo v) as [vol|[]|]|]; simpl; try done; repeat case_decide; congruence.
  - simpl. rewrite decide_False by done. case_decide as Hd; [done|]. intros [= <-]. split; [done|]. by intros [_ ?].
Qed.

Lemma authorize_alike team ctx v t1 t2 :
  of_team team ctx -> vols_alike team t1 t2 -> authorize ctx v t1 = authorize ctx v t2.
Proof.
  intros (c & Hc & Hsys & Ht) Ha. unfold authorize, IsSystemToken. rewrite Hc, Hsys, Ht.
  destruct (Ha v) as [->|(vc1 & vc2 & -> & -> & [? ?] & [? ?])]; [done|]. case_decide; [done|].
  unfold owner_team. rewrite !(decide_False (P := vc_TeamID _ = "")) by done. simpl.
  rewrite !(decide_False (P := vc_TeamID _ = "")) by done. by rewrite !decide_True by done.
Qed.

Lemma confined_auth team ctx v {A} (k : VolumeContext -> Srv A) :
  of_team team ctx -> (forall vc, confined_at team v vc (k vc)) ->
  confined team (let* vc := getAuthorizedMountedVolume cfg ctx v in k vc).
Proof.
  intros Hc Hk s1 s2 Ha. pose proof (alike_inv _ _ _ Ha) as E. destruct Ha as [Ha _].
  set (t := mg_volumes (sv_mgr s2).1) in *. rewrite E. unfold bind. rewrite !authorize_eq.
  change (mg_volumes (sv_mgr (with_volumes t s1)).1) with t. rewrite <- (authorize_alike team ctx v _ t Hc Ha).
  destruct (authorize ctx v _) as [vc|e|] eqn:Ea.
  - destruct (authorized _ _ _ _ _ Hc Ea) as [H1 Hn]. rewrite (authorize_alike team ctx v _ t Hc Ha) in Ea.
    destruct (authorized _ _ _ _ _ Hc Ea) as [H2 _]. by apply Hk.
  - split; [done|]. split; [by apply alike_intro|apply spared_refl].
  - split; [done|]. split; [by apply alike_intro|apply spared_refl].
Qed.

Lemma confined_reading team ctx v {A} (b : Body A) : of_team team ctx -> confined team (reading cfg ctx v b : Srv A).
Proof. intros Hc. apply confined_auth; [done|]. intros vc. apply confined_on_s0fs. Qed.

Lemma confined_mutation team ctx v {A} (k : VolumeContext -> Srv A) :
  of_team team ctx -> (forall vc, confined_at team v vc (k vc)) -> confined team (withAuthorizedVolumeMutation cfg ctx v k).
Proof.
  intros Hc Hk. assert (H : confined team (do* requireLocalPrimary v in let* vc := getAuthorizedMountedVolume cfg ctx v in k vc)).
  { apply confined_bind; [apply confined_primary|]. intros _. by apply confined_auth. }
  unfold withAuthorizedVolumeMutation. destruct (cf_barrier cfg) as [bar|]; [|done].
  destruct (bar v); [apply confined_throw|done].
Qed.

Lemma confined_mutating team ctx v {A} (b : Body A) : of_team team ctx -> confined team (mutating cfg ctx v b : Srv A).
Proof. intros Hc. apply confined_mutation; [done|]. intros vc. apply confined_on_s0fs. Qed.

(** *** Calls of the manager *)

Abbreviation Mgr := (ST string (Manager B * X)).

(** A call that does not look at the table of volumes, and only changes the tables at [v]. *)
Definition blind (v : string) {A} (c : Mgr A) : Prop := forall m x t,
  c (set_volumes t m, x) = (let '(r, g) := c (m, x) in (r, (set_volumes t g.1, g.2))) /\
  mg_volumes (c (m, x)).2.1 = mg_volumes m /\ touches v m (c (m, x)).2.1.

Lemma touches_trans v m1 m2 m3 : touches v m1 m2 -> touches v m2 m3 -> touches v m1 m3.
Proof.
  intros H1 H2 u Hu. destruct (H1 _ Hu) as (? & ? & ? & ?), (H2 _ Hu) as (-> & -> & -> & ->). auto.
Qed.

Lemma touches_refl v (m : Manager B) : touches v m m.
Proof. intros u _. auto. Qed.

Lemma blind_bind v {A D} (c : Mgr A) (k : A -> Mgr D) : blind v c -> (forall a, blind v (k a)) -> blind v (bind c k).
Proof.
  intros Hc Hk m x t. destruct (Hc m x t) as (E & V & T). unfold bind. rewrite E.
  destruct (c (m, x)) as [[a|e|] [m1 x1]]; simpl in *; [|auto..].
  destruct (Hk a m1 x1 t) as (-> & V' & T'). split; [done|]. split; [congruence|by eapply touches_trans].
Qed.

Lemma blind_ret v {A} (a : A) : blind v (ret a : Mgr A).
Proof. intros m x t. split; [done|]. split; [done|apply touches_refl]. Qed.
Lemma blind_throw v {A} e : blind v (throw e : Mgr A).
Proof. intros m x t. split; [done|]. split; [done|apply touches_refl]. Qed.

Lemma blind_ext v {A} (c : ST string X A) : blind v (attempt (ext c)) /\ blind v (ext c).
Proof.
  split; intros m x t; unfold attempt, ext; simpl; destruct (c x) as [[a|e|] x']; simpl;
    (split; [done|]); (split; [done|apply touches_refl]).
Qed.

Lemma blind_modify v (f : Manager B -> Manager B) :
  (forall m t, f (set_volumes t m) = set_volumes t (f m)) -> (forall m, mg_volumes (f m) = mg_volumes m) ->
  (forall m, touches v m (f m)) -> blind v (mgr_modify f).
Proof. intros H1 H2 H3 m x t. unfold mgr_modify, modify. simpl. by rewrite H1. Qed.

(** Servers that differ in the table of volumes, after a call of the manager. *)
Lemma confined_mgr team v {A} wrap (c : Mgr A) (s : Server B X) t t' t1 :
  vols_alike team (mg_volumes (sv_mgr s).1) t ->
  (forall vc, mg_volumes (sv_mgr s).1 !! v = Some vc -> ~ foreign team vc) ->
  (exists r m' x', c (sv_mgr s) = (r, (set_volumes t1 m', x')) /\
     c (set_volumes t (sv_mgr s).1, (sv_mgr s).2) = (r, (set_volumes t' m', x')) /\
     vols_alike team t1 t' /\ touches v (sv_mgr s).1 (set_volumes t1 m')) ->
  (on_mgr wrap c s).1 = (on_mgr wrap c (with_volumes t s)).1 /\
  alike team (on_mgr wrap c s).2 (on_mgr wrap c (with_volumes t s)).2 /\ spared team s (on_mgr wrap c s).2.
Proof.
  intros Ha Hn (r & m' & x' & E1 & E2 & Ha' & HT). unfold on_mgr.
  change (sv_mgr (with_volumes t s)) with (set_volumes t (sv_mgr s).1, (sv_mgr s).2). rewrite E1, E2. simpl.
  split; [done|]. split; [by split|]. by apply (spared_touches _ v).
Qed.

(** A call that fails at once on both servers. *)
Lemma confined_fail team {A} wrap (c : Mgr A) (s : Server B X) t e :
  vols_alike team (mg_volumes (sv_mgr s).1) t ->
  c (sv_mgr s) = (Err e, sv_mgr s) ->
  c (set_volumes t (sv_mgr s).1, (sv_mgr s).2) = (Err e, (set_volumes t (sv_mgr s).1, (sv_mgr s).2)) ->
  (on_mgr wrap c s).1 = (on_mgr wrap c (with_volumes t s)).1 /\
  alike team (on_mgr wrap c s).2 (on_mgr wrap c (with_volumes t s)).2 /\ spared team s (on_mgr wrap c s).2.
Proof.
  intros Ha E1 E2. unfold on_mgr. change (sv_mgr (with_volumes t s)) with (set_volumes t (sv_mgr s).1, (sv_mgr s).2).
  rewrite E1, E2. simpl. replace (set_mgr (sv_mgr s) s) with s by (by destruct s). split; [done|].
  split; [exact (alike_intro _ _ _ Ha)|apply spared_refl].
Qed.

Lemma manager_vols_eta (m : Manager B) : set_volumes (mg_volumes m) m = m.
Proof. by destruct m. Qed.

Lemma blind_confined team v vc {A} wrap (c : Mgr A) : blind v c -> confined_at team v vc (on_mgr wrap c).
Proof.
  intros Hc s t Hs Ht Hn Ha. destruct (sv_mgr s) as [m x] eqn:Em. simpl in *. destruct (Hc m x t) as (E & V & T).
  destruct (c (m, x)) as [r [m' x']] eqn:Ec. simpl in *.
  eapply (confined_mgr team v wrap c s t t (mg_volumes m)); rewrite Em; simpl; [done|naive_solver|].
  exists r, m', x'. split; [rewrite <- V, manager_vols_eta; by rewrite Ec|]. split; [done|]. split; [done|].
  by rewrite <- V, manager_vols_eta.
Qed.

Lemma blind_ack v sid i ok msg : blind v (Volume.AckInvalidate v sid i ok msg).
Proof.
  intros m x t. unfold Volume.AckInvalidate, bind, mgr_get, gets, mgr_modify, modify, ret. cbn [fst].
  change (tracker_at (set_volumes t m) v i) with (tracker_at m v i).
  destruct (tracker_at m v i) as [tr|]; [destruct (decide (sid ∈ it_pending tr))|]; (split; [done|]); (split; [done|]);
    [|apply touches_refl..]. intros u Hu. unfold trackers_of. simpl. by rewrite lookup_insert_ne by congruence.
Qed.

Lemma touches_end_session v sid (m : Manager B) : touches v m (end_session v sid m).
Proof.
  intros u Hu. unfold end_session.
  set (m1 := set_sessions (<[v := delete sid (sessions_of m v)]> (mg_mountSessions m)) m).
  set (m2 := match mg_directMounts m1 !! v with Some _ => _ | None => m1 end).
  assert (T1 : touches v m m1) by (intros k Hk; unfold sessions_of; simpl; by rewrite lookup_insert_ne by congruence).
  assert (T2 : touches v m1 m2).
  { unfold m2. destruct (mg_directMounts m1 !! v) as [l|]; [|apply touches_refl]. case_decide; [|apply touches_refl].
    intros k Hk. simpl. by rewrite lookup_delete_ne by congruence. }
  assert (T3 : touches v m2 (clearSessionFromInvalidatesLocked v sid m2)).
  { unfold clearSessionFromInvalidatesLocked. destruct (mg_invalidates m2 !! v); [|apply touches_refl].
    intros k Hk. unfold trackers_of. simpl. by rewrite lookup_insert_ne by congruence. }
  apply (touches_trans v m m2); [by apply (touches_trans v m m1)|done|done].
Qed.

Lemma end_session_vols v sid t (m : Manager B) :
  end_session v sid (set_volumes t m) = set_volumes t (end_session v sid m) /\ mg_volumes (end_session v sid m) = mg_volumes m.
Proof.
  unfold end_session, clearSessionFromInvalidatesLocked. simpl. destruct (mg_directMounts m !! v) as [l|]; simpl;
    [destruct (decide (dl_SessionID l = sid)); simpl|]; by destruct (mg_invalidates m !! v).
Qed.

Lemma blind_end_session v sid : blind v (mgr_modify (end_session v sid)).
Proof.
  apply blind_modify; [intros m t; apply end_session_vols|intros m; by apply (end_session_vols v sid ∅)|intros m; apply touches_end_session].
Qed.

(** The work of an unmount of the last session, up to the removal of the volume. *)
Definition teardown (v sid : string) (vc : VolumeContext) (backend : res string B) : Mgr unit :=
  do* mgr_modify (end_session v sid) in
  do* mgr_modify (fun m => set_sessions (delete v (mg_mountSessions m)) m) in
  let* _ := (if reg_present then attempt (ext (UnregisterMount v)) else ret (Ok tt)) in
  let* _ := match backend with Ok b => attempt (ext (be_UnmountVolume b vc)) | _ => ret (Ok tt) end in
  ret tt.

Lemma blind_teardown v sid vc backend : blind v (teardown v sid vc backend).
Proof.
  apply blind_bind; [apply blind_end_session|]. intros _. apply blind_bind.
  { apply blind_modify; [done|done|]. intros m u Hu. unfold sessions_of. simpl. by rewrite lookup_delete_ne by congruence. }
  intros _. apply blind_bind; [destruct reg_present; [apply blind_ext|apply blind_ret]|].
  intros _. apply blind_bind; [destruct backend; [apply blind_ext|apply blind_ret..]|]. intros _. apply blind_ret.
Qed.

Definition remove_volume (v : string) (m : Manager B) : Manager B :=
  set_volumes (delete v (mg_volumes m)) (set_direct (delete v (mg_directMounts m)) m).

Lemma unmount_cases v sid vc m x (sessions : gmap string MountSession) :
  mg_volumes m !! v = Some vc -> sid <> "" -> mg_mountSessions m !! v = Some sessions -> is_Some (sessions !! sid) ->
  Volume.UnmountVolume v sid (m, x) =
    (if decide (delete sid sessions <> ∅) then mgr_modify (end_session v sid) (m, x)
     else bind (teardown v sid vc (selectBackend m)) (fun _ => mgr_modify (remove_volume v)) (m, x)).
Proof.
  intros Ev Hs Es [se Hse]. unfold Volume.UnmountVolume. unfold bind at 1, mgr_get, gets. cbn [fst].
  rewrite Ev, decide_False, Es, Hse by done. unfold bind at 1. unfold mgr_modify at 1, modify at 1. cbn [fst snd].
  case_decide; [done|]. unfold teardown, bind, mgr_modify, modify. cbn [fst snd].
  match goal with |- context [if reg_present then ?a else ?b] => destruct ((if reg_present then a else b) (set_sessions
    (delete v (mg_mountSessions (end_session v sid m))) (end_session v sid m), x)) as [[]] end; try done.
  destruct (selectBackend m); try done. by destruct (attempt _ _) as [[] []].
Qed.

Lemma confined_unmount team v vc sid wrap : confined_at team v vc (on_mgr wrap (Volume.UnmountVolume v sid)).
Proof.
  intros s t Hs Ht Hn Ha. destruct (sv_mgr s) as [m x] eqn:Em. simpl in *.
  destruct (decide (sid = "")) as [He|He].
  { eapply confined_fail; rewrite Em; cbn [fst snd]; [done|..]; unfold Volume.UnmountVolume, bind, mgr_get, gets; cbn [fst mg_volumes set_volumes]; rewrite ?Hs, ?Ht, decide_True by done; done. }
  destruct (mg_mountSessions m !! v) as [ss|] eqn:Es.
  2: { eapply confined_fail; rewrite Em; cbn [fst snd]; [done|..]; unfold Volume.UnmountVolume, bind, mgr_get, gets; cbn [fst mg_volumes mg_mountSessions set_volumes];
       rewrite ?Hs, ?Ht, decide_False by done; by rewrite Es. }
  destruct (ss !! sid) as [se|] eqn:Ese.
  2: { eapply confined_fail; rewrite Em; cbn [fst snd]; [done|..]; unfold Volume.UnmountVolume, bind, mgr_get, gets; cbn [fst mg_volumes mg_mountSessions set_volumes];
       rewrite ?Hs, ?Ht, decide_False by done; by rewrite Es, Ese. }
  destruct (decide (delete sid ss <> ∅)) as [Hne|Hz].
  - assert (E : forall m', mg_volumes m' !! v = Some vc -> mg_mountSessions m' = mg_mountSessions m ->
      Volume.UnmountVolume v sid (m', x) = mgr_modify (end_session v sid) (m', x)).
    { intros m' H1 H2. rewrite (unmount_cases v sid vc m' x ss) by (first [done | by rewrite H2 | by eauto]). by rewrite decide_True. }
    assert (Hs1 : on_mgr wrap (Volume.UnmountVolume v sid) s = on_mgr wrap (mgr_modify (end_session v sid)) s)
      by (unfold on_mgr; by rewrite Em, E).
    assert (Hs2 : on_mgr wrap (Volume.UnmountVolume v sid) (with_volumes t s) =
                  on_mgr wrap (mgr_modify (end_session v sid)) (with_volumes t s))
      by (unfold on_mgr, with_volumes; simpl; by rewrite Em, E).
    rewrite Hs1, Hs2. apply (blind_confined team v vc wrap _ (blind_end_session v sid)); by rewrite ?Em.
  - assert (E : forall m', mg_volumes m' !! v = Some vc -> mg_mountSessions m' = mg_mountSessions m -> selectBackend m' = selectBackend m ->
      Volume.UnmountVolume v sid (m', x) = bind (teardown v sid vc (selectBackend m)) (fun _ => mgr_modify (remove_volume v)) (m', x)).
    { intros m' H1 H2 H3. rewrite (unmount_cases v sid vc m' x ss) by (first [done | by rewrite H2 | by eauto]). by rewrite decide_False, H3. }
    destruct (blind_teardown v sid vc (selectBackend m) m x t) as (E' & V & T).
    destruct (teardown _ _ _ _ (m, x)) as [r [m' x']] eqn:Em'. simpl in *.
    destruct r as [[]|e|].
    + apply (confined_mgr team v wrap _ s t (delete v t) (delete v (mg_volumes m))); rewrite Em; simpl; [done|naive_solver|].
      exists (Ok tt), (set_direct (delete v (mg_directMounts m')) m'), x'. rewrite !E by done. unfold bind. rewrite E', Em'. simpl.
      unfold mgr_modify, modify, remove_volume. simpl. rewrite V. split; [done|]. split; [done|]. split; [by apply vols_alike_delete|].
      eapply touches_trans; [exact T|]. intros u Hu. simpl. rewrite V. by rewrite !lookup_delete_ne by congruence.
    + apply (confined_mgr team v wrap _ s t t (mg_volumes m)); rewrite Em; simpl; [done|naive_solver|].
      exists (Err e), m', x'. rewrite !E by done. unfold bind. rewrite E', Em'. simpl.
      split; [by rewrite <- V, manager_vols_eta|]. split; [done|]. split; [done|]. by rewrite <- V, manager_vols_eta.
    + apply (confined_mgr team v wrap _ s t t (mg_volumes m)); rewrite Em; simpl; [done|naive_solver|].
      exists Panic, m', x'. rewrite !E by done. unfold bind. rewrite E', Em'. simpl.
      split; [by rewrite <- V, manager_vols_eta|]. split; [done|]. split; [done|]. by rewrite <- V, manager_vols_eta.
Qed.

(** The work of a mount up to the new entry of the table. *)
Definition bring_up (v mode : string) (req : BackendMountRequest) (backend : res string B) : Mgr VolumeContext :=
  do* (if reg_present then ext (RegisterMount v (mkMountOptions mode "" 0 "" "")) else ret tt) in
  let undo := if reg_present then attempt (ext (UnregisterMount v)) else ret (Ok tt) in
  match backend with
  | Panic => panic
  | Err err => do* undo in throw err
  | Ok b =>
      let* mounted := attempt (ext (be_MountVolume b req)) in
      match mounted with
      | Panic => panic
      | Err err => do* undo in throw err
      | Ok volCtx => ret volCtx
      end
  end.

Lemma blind_bring_up v mode req backend : blind v (bring_up v mode req backend).
Proof.
  assert (Hp : forall D, blind v (panic : Mgr D)) by (intros D m x t; split; [done|split; [done|apply touches_refl]]).
  assert (Hu : forall err, blind v (do* (if reg_present then attempt (ext (UnregisterMount v)) else ret (Ok tt)) in throw err : Mgr VolumeContext)).
  { intros err. apply blind_bind; [destruct reg_present; [apply blind_ext|apply blind_ret]|]. intros _. apply blind_throw. }
  apply blind_bind; [destruct reg_present; [apply blind_ext|apply blind_ret]|]. intros _.
  destruct backend as [b|e|]; [|apply Hu|apply Hp]. apply blind_bind; [apply blind_ext|]. intros [vc|e|]; [apply blind_ret|apply Hu|apply Hp].
Qed.

Lemma mount_new sid now pfx v team mode m x : team <> "" -> mg_volumes m !! v = None ->
  Volume.MountVolume sid now pfx v team mode (m, x) =
  bind (bring_up v (NormalizeAccessMode mode) (mkMountRequest pfx v team (NormalizeAccessMode mode) now) (selectBackend m))
    (fun vc => do* mgr_modify (fun m => add_session v (mkSession sid team now ScopeUnknown) (set_volumes (<[v := vc]> (mg_volumes m)) m)) in
               ret (sid, now)) (m, x).
Proof.
  intros Ht Hv. unfold Volume.MountVolume. rewrite decide_False by done. unfold bind at 1, mgr_get, gets. cbn [fst]. rewrite Hv.
  unfold bring_up, bind, ret, throw, panic. destruct reg_present; [destruct (ext (RegisterMount v _) (m, x)) as [[[]|e|] [m1 x1]]|]; try done;
    (destruct (selectBackend m) as [b|e|]; [| |done]);
    repeat match goal with
    | |- context [attempt (ext ?c) ?g] => destruct (attempt (ext c) g) as [[[]|?|] [? ?]]; try done
    end; done.
Qed.

Lemma confined_mount team sid now pfx v mode wrap :
  team <> "" -> confined team (on_mgr wrap (Volume.MountVolume sid now pfx v team mode) : Srv (string * Z)).
Proof.
  intros Ht s1 s2 Ha. pose proof (alike_inv _ _ _ Ha) as Es2. destruct Ha as [Ha _].
  set (t := mg_volumes (sv_mgr s2).1) in *. rewrite Es2. clear Es2. destruct (sv_mgr s1) as [m x] eqn:Em. simpl in Ha.
  assert (Hown : forall vc, foreign team vc -> forall m', mg_volumes m' !! v = Some vc ->
     Volume.MountVolume sid now pfx v team mode (m', x) = (Err ("volume " +:+ v +:+ " already mounted by another team"), (m', x))).
  { intros vc [H1 H2] m' Hv. unfold Volume.MountVolume. rewrite decide_False by done. unfold bind, mgr_get, gets. cbn [fst]. rewrite Hv.
    by rewrite decide_True. }
  destruct (Ha v) as [Heq|(vc1 & vc2 & H1 & H2 & F1 & F2)]; [|eapply confined_fail; rewrite Em; cbn [fst snd]; [done|..]; eapply Hown; [exact F1|done|exact F2|done]].
  destruct (mg_volumes m !! v) as [vc|] eqn:Ev.
  - symmetry in Heq. destruct (decide (vc_TeamID vc <> "" /\ vc_TeamID vc <> team)) as [Hf|Hf];
      [eapply confined_fail; rewrite Em; cbn [fst snd]; [done|..]; by eapply (Hown vc)|].
    destruct (decide (vc_Access vc <> NormalizeAccessMode mode)) as [Hm|Hm].
    { eapply confined_fail; rewrite Em; cbn [fst snd]; [done|..]; unfold Volume.MountVolume; rewrite decide_False by done; unfold bind, mgr_get, gets; cbn [fst mg_volumes set_volumes];
        rewrite ?Ev, ?Heq; rewrite decide_False, decide_True by done; done. }
    assert (E : forall m', mg_volumes m' !! v = Some vc -> Volume.MountVolume sid now pfx v team mode (m', x) =
       (do* mgr_modify (add_session v (mkSession sid team now ScopeUnknown)) in ret (sid, now)) (m', x)).
    { intros m' Hv. unfold Volume.MountVolume. rewrite decide_False by done. unfold bind at 1, mgr_get, gets. cbn [fst]. rewrite Hv.
      by rewrite decide_False, decide_False by done. }
    set (c := do* mgr_modify (add_session v (mkSession sid team now ScopeUnknown)) in ret (sid, now) : Mgr (string * Z)) in E.
    assert (Hb : blind v c).
    { apply blind_bind; [|intros _; apply blind_ret]. apply blind_modify; [done|done|]. intros k u Hu. unfold sessions_of. simpl. by rewrite lookup_insert_ne by congruence. }
    assert (Hs1 : on_mgr wrap (Volume.MountVolume sid now pfx v team mode) s1 = on_mgr wrap c s1) by (unfold on_mgr; by rewrite Em, E).
    assert (Hs2 : on_mgr wrap (Volume.MountVolume sid now pfx v team mode) (with_volumes t s1) = on_mgr wrap c (with_volumes t s1))
      by (unfold on_mgr, with_volumes; simpl; by rewrite Em, E).
    rewrite Hs1, Hs2. apply (blind_confined team v vc wrap c Hb); by rewrite ?Em.
  - symmetry in Heq. set (b := bring_up v (NormalizeAccessMode mode) (mkMountRequest pfx v team (NormalizeAccessMode mode) now) (selectBackend m)).
    destruct (blind_bring_up v (NormalizeAccessMode mode) (mkMountRequest pfx v team (NormalizeAccessMode mode) now) (selectBackend m) m x t)
      as (E' & V & T). fold b in E', V, T.
    assert (Hnone : forall vc, mg_volumes (sv_mgr s1).1 !! v = Some vc -> ~ foreign team vc) by (rewrite Em; simpl; congruence).
    destruct (b (m, x)) as [r [m' x']] eqn:Eb. simpl in *.
    assert (E1 : Volume.MountVolume sid now pfx v team mode (m, x) = bind b (fun vc => do* mgr_modify (fun m => add_session v (mkSession sid team now ScopeUnknown)
        (set_volumes (<[v := vc]> (mg_volumes m)) m)) in ret (sid, now)) (m, x)) by (by apply mount_new).
    assert (E2 : Volume.MountVolume sid now pfx v team mode (set_volumes t m, x) = bind b (fun vc => do* mgr_modify (fun m => add_session v (mkSession sid team now ScopeUnknown)
        (set_volumes (<[v := vc]> (mg_volumes m)) m)) in ret (sid, now)) (set_volumes t m, x)) by (by apply mount_new).
    unfold bind in E1, E2. rewrite Eb in E1. rewrite E' in E2. destruct r as [vc|e|]; simpl in E1, E2.
    + apply (confined_mgr team v wrap _ s1 t (<[v := vc]> t) (<[v := vc]> (mg_volumes m))); [by rewrite Em|done|]. rewrite Em. simpl.
      rewrite E1, E2. exists (Ok (sid, now)), (add_session v (mkSession sid team now ScopeUnknown) m'), x'.
      rewrite V. split; [done|]. split; [done|]. split; [by apply vols_alike_insert|].
      eapply touches_trans; [exact T|]. intros u Hu. unfold sessions_of. simpl. rewrite V. by rewrite !lookup_insert_ne by congruence.
    + apply (confined_mgr team v wrap _ s1 t t (mg_volumes m)); [by rewrite Em|done|]. rewrite Em. simpl. rewrite E1, E2.
      exists (Err e), m', x'. split; [by rewrite <- V, manager_vols_eta|]. split; [done|]. split; [done|]. by rewrite <- V, manager_vols_eta.
    + apply (confined_mgr team v wrap _ s1 t t (mg_volumes m)); [by rewrite Em|done|]. rewrite Em. simpl. rewrite E1, E2.
      exists Panic, m', x'. split; [by rewrite <- V, manager_vols_eta|]. split; [done|]. split; [done|]. by rewrite <- V, manager_vols_eta.
Qed.

(** ** Tenant isolation *)

Lemma confined_handle_mount team ctx v sid : of_team team ctx -> confined team (FsServer.MountVolume cfg ctx sid v : Srv _).
Proof.
  intros (c & Hc & Hsys & Ht). unfold FsServer.MountVolume. rewrite Hc, Ht.
  destruct (decide (team = "")); [apply confined_throw|].
  apply confined_bind; [apply confined_lift|]. intros vol. apply confined_bind; [apply confined_primary|]. intros _.
  destruct (S3VolumePrefix team v) as [pfx|e|]; [|apply confined_throw|apply confined_panic].
  apply confined_bind; [by apply confined_mount|]. intros [sess at_]. apply confined_ret.
Qed.

Lemma confined_open team ctx v i fl a : of_team team ctx -> confined team (FsServer.Open cfg ctx v i fl a : Srv Z).
Proof.
  intros Hc. apply confined_auth; [done|]. intros vc. destruct (isS0FSVolume vc); [|apply confined_at_of, confined_throw].
  destruct (has_bit fl O_TRUNC); [|apply confined_run]. apply confined_at_of, confined_mutation; [done|]. intros vc'. apply confined_run.
Qed.

Lemma confined_lock team ctx v (b : bool) : of_team team ctx ->
  confined team (FsServer.GetLk cfg ctx v b : Srv unit) /\ confined team (FsServer.SetLk cfg ctx v b : Srv unit).
Proof.
  intros Hc. split; (apply confined_auth; [done|]); intros vc; apply confined_at_of;
    (destruct (isS0FSVolume vc); [apply confined_throw|]); destruct (negb b); apply confined_throw.
Qed.

Lemma confined_handle team ctx v r : of_team team ctx -> confined team (handle ctx v r).
Proof.
  intros Hc. destruct r; simpl; try (apply confined_answer; first [by apply confined_reading | by apply confined_mutating]).
  - apply confined_answer. by apply confined_handle_mount.
  - apply confined_answer. unfold FsServer.UnmountVolume. case_decide; [apply confined_throw|].
    apply confined_auth; [done|]. intros vc. apply confined_unmount.
  - apply confined_answer. unfold FsServer.AckInvalidate. case_decide; [apply confined_throw|].
    apply confined_auth; [done|]. intros vc. apply blind_confined, blind_ack.
  - apply confined_answer. by apply confined_open.
  - apply confined_answer. by apply confined_lock.
  - apply confined_answer. by apply confined_lock.
Qed.

End server.

(** C4: tenants are isolated.  Whatever a caller of a team requests, with a token that
    is not a system token and on whatever volume, the answer is the same whatever the
    volumes that other teams have mounted contain; those volumes, their handles, their
    sessions, leases and invalidations are left as they are; and what the caller's
    team can see afterwards again does not depend on them.  This holds for every call
    of the server, mounting and unmounting included, whatever the configuration, the
    backend and the I/O faults are. *)
Theorem tenant_isolation {B X : Type} `{UP : UnicodeUpper} `{CR : ColdReader} `{BK : Backend B X} `{RG : MountRegistrar X}
    cfg team ctx v r (s1 s2 : Server B X)
    (C : of_team team ctx) (A : alike team s1 s2) :
  (handle cfg ctx v r s1).1 = (handle cfg ctx v r s2).1 /\
  alike team (handle cfg ctx v r s1).2 (handle cfg ctx v r s2).2 /\
  spared team s1 (handle cfg ctx v r s1).2.
Proof. by apply (confined_handle cfg team ctx v r C). Qed.

(** Two teams with a volume each; [root] tells apart two states of the second one. *)
Definition demo_volume (team : string) (root : Z) (w : World) : VolumeContext :=
  mkVolume "" team BackendS0FS (Some w) AccessModeRWO 0 root "" "" no_handles.
Definition demo_server (root : Z) : Server unit unit :=
  mkServer (mkManager {["a" := demo_volume "A" 1 sample; "b" := demo_volume "B" root sample]} ∅ ∅ ∅ {["s0fs" := Some tt]} "s0fs", tt)
    (Some (NewHub 4)) ∅ ∅.
Definition demo_config : Config := mkConfig None None.
Definition demo_ctx (team : string) : Ctx := mkCtx (Some (mkClaims team "sb" false)) 9 (fun _ => calm 9).

Lemma tenant_isolation_witness :
  alike "A" (demo_server 1) (demo_server 2) /\
  (@handle unit unit demo_upper no_cold demo_backend demo_registrar demo_config (demo_ctx "A") "a" (RCreate 1 "x" 420 None) (demo_server 1)).1 =
  (@handle unit unit demo_upper no_cold demo_backend demo_registrar demo_config (demo_ctx "A") "a" (RCreate 1 "x" 420 None) (demo_server 2)).1.
Proof.
  assert (A : alike "A" (demo_server 1) (demo_server 2)).
  { split; [|reflexivity]. intros u. destruct (decide (u = "b")) as [->|Hu].
    - right. exists (demo_volume "B" 1 sample), (demo_volume "B" 2 sample). by repeat split.
    - left. unfold demo_server. cbn [sv_mgr fst mg_volumes].
      destruct (decide (u = "a")) as [->|Ha]; [by rewrite !lookup_insert_eq|].
      by rewrite !lookup_insert_ne, !lookup_singleton_ne by congruence. }
  split; [exact A|].
  apply (@tenant_isolation unit unit demo_upper no_cold demo_backend demo_registrar demo_config "A"); [|exact A].
  by eexists.
Defined.
