(* ===== verification/FsServerAccess.v ===== *)
(** * The file system server: permissions and events

    What a file may be opened for is what its mode grants the caller, and an open that
    is refused changes nothing.  A request that changes a volume and succeeds is
    published once, as an event of that volume; any other request publishes nothing. *)

From stdpp Require Import base gmap strings list fin_maps numbers sorting.
From Stdlib Require Import Strings.Byte Strings.Ascii.
From S2P Require Import Prelude GoStd GoNet S0fsTypes S0fsCore S0fsEngine S0fsInv S0fsSafety Volume Notify Naming FsServer VolumeSpec FsServerSpec.

Local Open Scope Z_scope.

(** ** Permissions *)

(** Bit [k] of the permissions that the mode gives the actor: those of the owner, of
    the group, or of the others; bit 2 is read, bit 1 write, bit 0 execute. *)
Definition may (n : Node) (a : PosixActor) (k : Z) : Prop :=
  let shift := if decide (ac_Uid a = n_UID n) then 6 else if decide (n_GID n ∈ ac_Gids a) then 3 else 0 in
  Z.testbit (n_Mode n) (shift + k) = true.

(** What the flags of open(2) ask for. *)
Definition wants_read (flags : Z) : Prop := Z.land flags O_ACCMODE <> O_WRONLY.
Definition wants_write (flags : Z) : Prop :=
  Z.land flags O_ACCMODE = O_WRONLY \/ Z.land flags O_ACCMODE = O_RDWR \/ Z.testbit flags 9 = true \/ Z.testbit flags 10 = true.

Definition permitted (n : Node) (actor : option PosixActor) (flags : Z) : Prop :=
  match actor with
  | None => True
  | Some a => ac_Uid a = 0 \/ (wants_read flags -> may n a 2) /\ (wants_write flags -> may n a 1)
  end.

Lemma land_pow2 x k : 0 <= k -> (Z.land x (2 ^ k) =? 0) = negb (Z.testbit x k).
Proof.
  intros Hk. destruct (Z.testbit x k) eqn:E; simpl.
  - apply Z.eqb_neq. intros H. assert (Hb : Z.testbit (Z.land x (2 ^ k)) k = false) by (by rewrite H, Z.testbit_0_l).
    rewrite Z.land_spec, E, Z.pow2_bits_true in Hb by done. done.
  - apply Z.eqb_eq, Z.bits_inj. intros j. rewrite Z.land_spec, Z.testbit_0_l. destruct (Z.eq_dec j k) as [->|Hn]; [by rewrite E|].
    by rewrite Z.pow2_bits_false, andb_false_r by done.
Qed.

Lemma has_bit_pow2 x k : 0 <= k -> has_bit x (2 ^ k) = Z.testbit x k.
Proof. intros Hk. unfold has_bit. by rewrite land_pow2, negb_involutive. Qed.

Lemma perm_bit mode shift k : 0 <= shift -> 0 <= k < 3 ->
  (Z.land (Z.land (Z.shiftr mode shift) 7) (2 ^ k) =? 0) = negb (Z.testbit mode (shift + k)).
Proof.
  intros Hs Hk. rewrite land_pow2 by lia. f_equal. rewrite Z.land_spec, Z.shiftr_spec by lia.
  replace 7 with (Z.ones 3) by done. rewrite Z.ones_spec_low by lia. rewrite andb_true_r. f_equal. lia.
Qed.

Lemma containsGID_spec gids g : containsGID gids g = bool_decide (g ∈ gids).
Proof.
  induction gids as [|c gids IH]; simpl; [done|].
  destruct (Z.eqb_spec c g) as [->|Hn]; [by rewrite bool_decide_eq_true_2 by constructor|].
  rewrite IH. apply bool_decide_ext. rewrite elem_of_cons. split; [by right|]. by intros [->|?].
Qed.

Lemma access_spec n a mask :
  checkS0FSAccess n (Some a) mask = Ok tt <->
  ac_Uid a = 0 \/ (Z.testbit mask 2 = true -> may n a 2) /\ (Z.testbit mask 1 = true -> may n a 1) /\ (Z.testbit mask 0 = true -> may n a 0).
Proof.
  unfold checkS0FSAccess, may. destruct (Z.eqb_spec (ac_Uid a) 0) as [|Hu]; cbn [orb]; [tauto|].
  destruct (Z.eqb_spec mask s0fsAccessExists) as [->|Hm]; [split; [|done]; intros _; right; repeat split; intros H; vm_compute in H; discriminate|].
  rewrite containsGID_spec.
  set (shift := if decide (ac_Uid a = n_UID n) then 6 else if decide (n_GID n ∈ ac_Gids a) then 3 else 0).
  assert (Hp : (if ac_Uid a =? n_UID n then Z.land (Z.shiftr (n_Mode n) 6) 7 else
        if bool_decide (n_GID n ∈ ac_Gids a) then Z.land (Z.shiftr (n_Mode n) 3) 7 else Z.land (n_Mode n) 7) =
     Z.land (Z.shiftr (n_Mode n) shift) 7).
  { unfold shift. destruct (Z.eqb_spec (ac_Uid a) (n_UID n)); [by rewrite decide_True|]. rewrite decide_False by done.
    case_bool_decide; [by rewrite decide_True|by rewrite decide_False, Z.shiftr_0_r]. }
  rewrite Hp. assert (0 <= shift) by (unfold shift; repeat case_decide; lia).
  assert (M2 : has_bit mask s0fsAccessRead = Z.testbit mask 2) by (by apply (has_bit_pow2 mask 2)).
  assert (M1 : has_bit mask s0fsAccessWrite = Z.testbit mask 1) by (by apply (has_bit_pow2 mask 1)).
  assert (M0 : has_bit mask s0fsAccessExecute = Z.testbit mask 0) by (by apply (has_bit_pow2 mask 0)).
  pose proof (perm_bit (n_Mode n) shift 2 ltac:(done) ltac:(lia)) as P2. change (2 ^ 2) with 4 in P2.
  pose proof (perm_bit (n_Mode n) shift 1 ltac:(done) ltac:(lia)) as P1. change (2 ^ 1) with 2 in P1.
  pose proof (perm_bit (n_Mode n) shift 0 ltac:(done) ltac:(lia)) as P0. change (2 ^ 0) with 1 in P0.
  rewrite M2, M1, M0, P2, P1, P0. clear -Hu. clearbody shift.
  destruct (Z.testbit mask 2), (Z.testbit mask 1), (Z.testbit mask 0), (Z.testbit (n_Mode n) (shift + 2)),
    (Z.testbit (n_Mode n) (shift + 1)), (Z.testbit (n_Mode n) (shift + 0)); cbn [andb negb];
    (split; [intros Hx; try discriminate Hx; right; (split; [|split]); intros Hy; first [reflexivity | discriminate Hy]|]);
    intros [?|(H2 & H1 & H0)]; try reflexivity; try contradiction;
    first [discriminate (H2 eq_refl) | discriminate (H1 eq_refl) | discriminate (H0 eq_refl)].
Qed.

Lemma has_bit_lor x a b : has_bit x (Z.lor a b) = has_bit x a || has_bit x b.
Proof.
  unfold has_bit. rewrite Z.land_lor_distr_r.
  destruct (Z.eqb_spec (Z.land x a) 0) as [->|Ha]; [by rewrite Z.lor_0_l|]. cbn [negb orb].
  apply negb_true_iff, Z.eqb_neq. rewrite Z.lor_eq_0_iff. tauto.
Qed.

(** The mask that [openS0FS] checks, bit by bit. *)
Lemma open_mask_spec flags :
  (Z.testbit (s0fsOpenAccessMask flags) 2 = true <-> wants_read flags) /\
  (Z.testbit (s0fsOpenAccessMask flags) 1 = true <-> wants_write flags) /\
  Z.testbit (s0fsOpenAccessMask flags) 0 = false.
Proof.
  unfold s0fsOpenAccessMask, wants_read, wants_write.
  assert (Hb : has_bit flags (Z.lor O_TRUNC O_APPEND) = Z.testbit flags 9 || Z.testbit flags 10).
  { rewrite has_bit_lor. f_equal; [by apply (has_bit_pow2 flags 9)|by apply (has_bit_pow2 flags 10)]. }
  rewrite Hb. set (m := Z.land flags O_ACCMODE). clearbody m.
  destruct (Z.eqb_spec m O_WRONLY) as [->|H1]; [|destruct (Z.eqb_spec m O_RDWR) as [->|H2]];
    destruct (Z.testbit flags 9), (Z.testbit flags 10); vm_compute Z.testbit;
    repeat split; intros; try reflexivity; try discriminate; try tauto.
Qed.

Lemma access_mask_open n actor flags :
  checkS0FSAccess n actor (s0fsOpenAccessMask flags) = Ok tt <-> permitted n actor flags.
Proof.
  destruct actor as [a|]; [|by split]. rewrite access_spec. cbn [permitted].
  destruct (open_mask_spec flags) as (-> & -> & ->). split; (intros [?|H]; [by left|right]); [tauto|].
  destruct H. by repeat split.
Qed.

Lemma access_res n actor mask : checkS0FSAccess n actor mask = Ok tt \/ exists e, checkS0FSAccess n actor mask = Err e.
Proof. unfold checkS0FSAccess. repeat case_match; eauto. Qed.

Section opening.
Context {B X : Type} `{UP : UnicodeUpper} `{CR : ColdReader} `{BK : Backend B X} `{RG : MountRegistrar X}.
Context (cfg : Config).
Implicit Types s : Server B X.

(** The volume that the server gives the caller: an s0fs volume that is in use. *)
Record serves (ctx : Ctx) (v : string) (s : Server B X) (vc : VolumeContext) (w : World) : Prop := {
  sv_auth : authorize cfg ctx v (mg_volumes (sv_mgr s).1) = Ok vc;
  sv_kind : vc_Backend vc = BackendS0FS;
  sv_world : vc_S0FS vc = Some w;
  sv_open : closed (eng w) = false
}.

Lemma serves_s0fs ctx v s vc w : serves ctx v s vc w -> isS0FSVolume vc = true.
Proof. intros [_ H1 H2 _]. unfold isS0FSVolume, IsS0FS. by rewrite H1, H2. Qed.

Lemma authorize_entry ctx v t vc : authorize cfg ctx v t = Ok vc -> t !! v = Some vc.
Proof.
  unfold authorize. destruct (cx_claims ctx) as [c|]; [|done]. destruct (t !! v) as [vc'|]; [|done].
  destruct (IsSystemToken c); [congruence|]. case_decide; [done|]. destruct (owner_team cfg v vc') as [o|e|]; simpl; [|done..].
  repeat case_decide; congruence.
Qed.

Lemma set_S0FS_id vc w : vc_S0FS vc = Some w -> set_S0FS (Some w) vc = vc.
Proof. destruct vc. simpl. by intros ->. Qed.

(** A body that leaves the volume, the hub and the marks alone leaves the server alone. *)
Lemma run_body_same {A} v vc (b : Body A) s r :
  mg_volumes (sv_mgr s).1 !! v = Some vc ->
  b (mkSess vc (sv_hub s) (sv_dirty s)) = (r, mkSess vc (sv_hub s) (sv_dirty s)) -> run_body v vc b s = (r, s).
Proof.
  intros Hv Hb. unfold run_body. rewrite Hb. simpl. rewrite insert_id by done.
  by destruct s as [[[] ?] ? ? ?].
Qed.

(** The guard of [openS0FS]: what it looks at before it touches anything. *)
Lemma openS0FS_guard ctx v i flags actor vc w hub dirty :
  vc_S0FS vc = Some w -> closed (eng w) = false ->
  (forall n, Nodes (core (eng w)) !! i = Some n -> is_dir n = false -> permitted n actor flags -> False) ->
  exists e, openS0FS ctx v i flags actor (mkSess vc hub dirty) = (Err e, mkSess vc hub dirty).
Proof.
  intros Hw Hc Hno. unfold openS0FS, s0fs, on_vol, on_engine, S0fsEngine.GetAttr, checkOpen, bind, get. simpl. rewrite Hw. rewrite Hc.
  destruct (Nodes (core (eng w)) !! i) as [n|] eqn:Hn; simpl; rewrite set_S0FS_id by done; [|by eexists].
  destruct (is_dir n) eqn:Hd; [by eexists|]. unfold lift_res. destruct (access_res n actor (s0fsOpenAccessMask flags)) as [H|[e ->]]; [|by eexists].
  apply access_mask_open in H. by destruct (Hno n).
Qed.

(** Past the guard, an open that does not truncate succeeds. *)
Lemma openS0FS_plain ctx v i flags actor vc w n hub dirty :
  vc_S0FS vc = Some w -> closed (eng w) = false -> has_bit flags O_TRUNC = false ->
  Nodes (core (eng w)) !! i = Some n -> is_dir n = false -> permitted n actor flags ->
  openS0FS ctx v i flags actor (mkSess vc hub dirty) =
    on_handles (OpenFileHandle (n_Inode n)) (mkSess vc hub dirty).
Proof.
  intros Hw Hc Ht Hn Hd Hp%access_mask_open. unfold openS0FS, s0fs, on_vol, on_engine, S0fsEngine.GetAttr, checkOpen, bind, get. simpl.
  rewrite Hw, Hc, Hn. simpl. rewrite set_S0FS_id, Hd by done. unfold lift_res. by rewrite Hp, Ht.
Qed.

Lemma Open_eq ctx v i flags actor s vc w :
  serves ctx v s vc w ->
  FsServer.Open cfg ctx v i flags actor s =
    if has_bit flags O_TRUNC
    then withAuthorizedVolumeMutation cfg ctx v (fun vc => run_body v vc (openS0FS ctx v i flags actor)) s
    else run_body v vc (openS0FS ctx v i flags actor) s.
Proof.
  intros S. unfold FsServer.Open, bind. rewrite authorize_eq, (sv_auth _ _ _ _ _ S), (serves_s0fs _ _ _ _ _ S).
  by destruct (has_bit flags O_TRUNC).
Qed.

(** What a mutation does: it is refused and changes nothing, or it runs on the volume. *)
Lemma mutation_cases {A} ctx v (k : VolumeContext -> ST srv_error (Server B X) A) s vc :
  authorize cfg ctx v (mg_volumes (sv_mgr s).1) = Ok vc ->
  (exists e, withAuthorizedVolumeMutation cfg ctx v k s = (Err e, s)) \/ withAuthorizedVolumeMutation cfg ctx v k s = k vc s.
Proof.
  intros Ha. assert (H : (exists e, (do* requireLocalPrimary v in let* vc := getAuthorizedMountedVolume cfg ctx v in k vc) s = (Err e, s)) \/
    (do* requireLocalPrimary v in let* vc := getAuthorizedMountedVolume cfg ctx v in k vc) s = k vc s).
  { unfold bind, requireLocalPrimary, get, bind. destruct (rt_LocalPrimary _); [|left; by eexists].
    cbn [ret]. rewrite authorize_eq, Ha. by right. }
  unfold withAuthorizedVolumeMutation. destruct (cf_barrier cfg) as [bar|]; [|done]. destruct (bar v); [left; by eexists|done].
Qed.

End opening.

(** C33: files open as their mode permits.  For a caller that the server lets use the
    volume: an open that does not truncate succeeds exactly when the inode is a file
    (or a link) whose mode grants what the flags ask for, to the owner, the group or
    the others, the superuser being exempt; the handle it returns stands for that
    file; and an open that the mode does not permit, truncation included, leaves the
    whole server as it is. *)
Theorem open_permission {B X : Type} `{UP : UnicodeUpper} `{CR : ColdReader} `{BK : Backend B X} `{RG : MountRegistrar X}
    cfg ctx v i flags actor (s : Server B X) vc w
    (S : serves cfg ctx v s vc w) (W : wf (core (eng w))) :
  let allowed := exists n, Nodes (core (eng w)) !! i = Some n /\ is_dir n = false /\ permitted n actor flags in
  let '(r, s') := FsServer.Open cfg ctx v i flags actor s in
  (has_bit flags O_TRUNC = false -> allowed ->
     exists h vc', r = Ok h /\ mg_volumes (sv_mgr s').1 !! v = Some vc' /\ HandleInode h (vc_handles vc') = Some i) /\
  (~ allowed -> (exists e, r = Err e) /\ s' = s).
Proof.
  intros allowed. pose proof S as [Ha Hk Hw Hc]. pose proof (authorize_entry _ _ _ _ _ Ha) as Hv. rewrite (Open_eq _ _ _ _ _ _ _ _ _ S).
  destruct (if has_bit flags O_TRUNC then _ else _) as [r s'] eqn:E. split.
  - intros Ht (n & Hn & Hd & Hp). rewrite Ht in E. unfold run_body in E.
    rewrite (openS0FS_plain ctx v i flags actor vc w n) in E by done. simpl in E. injection E as <- <-. simpl.
    eexists _, _. rewrite lookup_insert_eq. repeat split; try done. unfold HandleInode. simpl. rewrite lookup_insert_eq.
    f_equal. by apply (wf_node _ W).
  - intros Hno. destruct (openS0FS_guard ctx v i flags actor vc w (sv_hub s) (sv_dirty s)) as [e He]; [done|done| |].
    { intros n ???. apply Hno. by exists n. }
    assert (Hr : run_body v vc (openS0FS ctx v i flags actor) s = (Err e, s)) by (by apply run_body_same).
    destruct (has_bit flags O_TRUNC); [|rewrite Hr in E; injection E as <- <-; split; [by eexists|done]].
    destruct (mutation_cases cfg ctx v (fun vc => run_body v vc (openS0FS ctx v i flags actor)) s vc Ha) as [[e' Hm]|Hm];
      rewrite Hm in E; [|rewrite Hr in E]; injection E as <- <-; (split; [by eexists|done]).
Qed.

(** Inode 3 of [sample] has mode 0755 and belongs to the superuser: others may read it. *)
Lemma open_permission_witness :
  exists h s', @FsServer.Open unit unit no_cold demo_config (demo_ctx "A") "a" 3 0 (Some (mkActor 1000 [1000])) (demo_server 1) = (Ok h, s') /\
  exists vc', mg_volumes (sv_mgr s').1 !! "a" = Some vc' /\ HandleInode h (vc_handles vc') = Some 3.
Proof.
  pose proof (@open_permission unit unit demo_upper no_cold demo_backend demo_registrar demo_config (demo_ctx "A") "a" 3 0
    (Some (mkActor 1000 [1000])) (demo_server 1) (demo_volume "A" 1 sample) sample) as H.
  destruct (FsServer.Open _ _ _ _ _ _ _) as [r s']. destruct H as [H _].
  - by split.
  - exact (ok_core _ sample_ok).
  - destruct H as (h & vc' & -> & Hv & Hh); [reflexivity| |by exists h, s'; split; [|exists vc']].
    exists (sample_node 3 TypeFile 2). split; [reflexivity|]. split; [reflexivity|]. right. split; [intros _; vm_compute; reflexivity|].
    intros Hx. destruct Hx as [Hx|[Hx|[Hx|Hx]]]; vm_compute in Hx; discriminate Hx.
Defined.

(** ** Events *)

(** The event that a request announces when it succeeds. *)
Definition announces (r : Request) : option WatchEventType :=
  match r with
  | RWrite _ _ _ _ => Some EVENT_WRITE
  | ROpen _ flags _ => if has_bit flags O_TRUNC then Some EVENT_WRITE else None
  | RCreate _ _ _ _ | RMkdir _ _ _ _ | RSymlink _ _ _ _ | RLink _ _ _ => Some EVENT_CREATE
  | RUnlink _ _ | RRmdir _ _ => Some EVENT_REMOVE
  | RRename _ _ _ _ => Some EVENT_RENAME
  | RSetAttr _ valid _ => Some (if has_bit valid SetAttrMode then EVENT_CHMOD else EVENT_WRITE)
  | _ => None
  end.

Definition sandbox_of (ctx : Ctx) : string := match cx_claims ctx with Some c => cl_SandboxID c | None => "" end.

(** An event of volume [v] at the time of the request, from its sandbox, of type
    [typ], or an invalidation when no path is known. *)
Definition event_of (ctx : Ctx) (v : string) (typ : WatchEventType) (e : WatchEvent) : Prop :=
  we_VolumeId e = v /\ we_OriginSandboxId e = sandbox_of ctx /\ we_TimestampUnix e = cx_now ctx /\
  we_EventType e = (if decide (we_Path e = "" /\ we_OldPath e = "") then EVENT_INVALIDATE else typ).

Section events.
Context `{CR : ColdReader}.
Context (ctx : Ctx) (v : string).

(** A computation that publishes nothing. *)
Definition silent {A} (m : Body A) : Prop := forall s, ss_hub (m s).2 = ss_hub s.

(** One that publishes an event of type [typ] when it succeeds, and nothing otherwise. *)
Definition tells {A} (typ : WatchEventType) (m : Body A) : Prop := forall s,
  match m s with
  | (Ok _, s') => exists e, event_of ctx v typ e /\ ss_hub s' = Publish (cx_now ctx) e <$> ss_hub s
  | (_, s') => ss_hub s' = ss_hub s
  end.

Lemma silent_bind {A D} (m : Body A) (k : A -> Body D) : silent m -> (forall a, silent (k a)) -> silent (bind m k).
Proof.
  intros Hm Hk s. unfold bind. specialize (Hm s). destruct (m s) as [[a|e|] s']; simpl in *; [|done..].
  by rewrite Hk.
Qed.

Lemma silent_on_vol {A} (m : ST srv_error VolumeContext A) : silent (on_vol m).
Proof. intros s. unfold on_vol. by destruct (m (ss_vol s)). Qed.

Lemma silent_s0fs {A} (m : Eng A) : silent (s0fs m) /\ silent (s0fs_internal m).
Proof. split; apply silent_on_vol. Qed.

Lemma silent_handles {A} (f : Handles -> A * Handles) : silent (on_handles f).
Proof. intros s. unfold on_handles. by destruct (f _). Qed.

Lemma silent_ignore {A} (m : Eng A) : silent (s0fs_ignore m).
Proof.
  intros s. unfold s0fs_ignore. pose proof (silent_on_vol (on_engine mapS0FSError m) s) as H. unfold s0fs.
  by destruct (on_vol _ s) as [[]].
Qed.

Lemma silent_keep {A} (m : Body A) : silent m -> silent (keep_err m).
Proof. intros Hm s. unfold keep_err. specialize (Hm s). by destruct (m s) as [[]]. Qed.

Lemma tells_after {A D} typ (m : Body A) (k : A -> Body D) : silent m -> (forall a, tells typ (k a)) -> tells typ (bind m k).
Proof.
  intros Hm Hk s. unfold bind. specialize (Hm s). destruct (m s) as [[a|e|] s']; simpl in *; [|done..].
  specialize (Hk a s'). destruct (k a s') as [[b|e|] s'']; by rewrite <- Hm.
Qed.

(** What follows a publication does not fail and publishes nothing. *)
Lemma tells_then {A D} typ (m : Body A) (k : A -> Body D) :
  tells typ m -> (forall a s, exists d s', k a s = (Ok d, s') /\ ss_hub s' = ss_hub s) -> tells typ (bind m k).
Proof.
  intros Hm Hk s. unfold bind. specialize (Hm s). destruct (m s) as [[a|e|] s']; simpl in *; [|done..].
  destruct (Hk a s') as (d & s'' & -> & E). destruct Hm as (e & He & Hs). exists e. by rewrite E.
Qed.

Lemma tells_publish typ e :
  we_VolumeId e = v -> we_OriginSandboxId e = "" -> we_TimestampUnix e = 0 ->
  we_EventType e = (if decide (we_Path e = "" /\ we_OldPath e = "") then EVENT_INVALIDATE else typ) ->
  tells typ (publishEvent ctx e).
Proof.
  intros H1 H2 H3 H4 s. unfold publishEvent, modify, event_of, sandbox_of. destruct (cx_claims ctx) as [c|].
  - rewrite H2, (decide_True (P := "" = "")) by done. unfold stamp. cbn [we_TimestampUnix]. rewrite H3. cbn.
    eexists. split; [|reflexivity]. auto.
  - unfold stamp. rewrite H3. cbn. eexists. split; [|reflexivity]. auto.
Qed.

Lemma tells_path typ path inode : tells typ (publishEvent ctx (path_event v typ path inode)).
Proof.
  apply tells_publish; try done. simpl. destruct (decide (path = "")) as [->|H]; [by rewrite decide_True|].
  by rewrite decide_False by tauto.
Qed.

Lemma silent_ensure env actor i : silent (ensureLazyRootPosixIdentity env actor i).
Proof.
  apply silent_bind; [done|]. intros s. destruct actor as [[uid [|gid gs]]|]; try done.
  destruct (_ =? _); [apply silent_on_vol|done].
Qed.

Lemma silent_sync env i : silent (syncS0FSHandle env i).
Proof.
  apply silent_bind; [done|]. intros s. destruct (vc_S0FS _); [|done]. destruct (_ =? _); [done|apply silent_on_vol].
Qed.

Lemma silent_entries plus pos es : silent (list_entries plus pos es).
Proof.
  revert pos. induction es as [|e es IH]; intros pos; [done|]. apply silent_bind.
  - destruct plus; [|done]. apply silent_bind; [apply silent_on_vol|done].
  - intros a. apply silent_bind; [apply IH|done].
Qed.

End events.

#[local] Hint Resolve silent_on_vol silent_handles silent_ignore silent_ensure silent_sync silent_entries silent_keep : core.

(** The parts of a body in turn: what is silent, then the publication, then its answer. *)
Ltac talk :=
  lazymatch goal with
  | |- silent (bind _ _) => apply silent_bind; [|intros ?]
  | |- silent (match ?x with _ => _ end) => destruct x
  | |- silent (s0fs _) => apply silent_s0fs
  | |- silent (s0fs_internal _) => apply silent_s0fs
  | |- silent _ => first [by eauto | done]
  | |- tells _ _ _ (bind (publishEvent _ _) _) =>
      apply tells_then; [|intros ? ?; eexists _, _; split; [reflexivity|done]]
  | |- tells _ _ _ (publishEvent _ (path_event _ _ _ _)) => apply tells_path
  | |- tells _ _ _ (bind _ _) => apply tells_after; [|intros ?]
  | |- tells _ _ _ panic => intros ?; done
  | |- tells _ _ _ (match ?x with _ => _ end) => destruct x
  end.

Section bodies.
Context `{CR : ColdReader}.
Context (ctx : Ctx) (v : string).

Lemma tells_create p n actor make : tells ctx v EVENT_CREATE (create_body ctx v p n actor make).
Proof. unfold create_body. repeat talk. Qed.

Lemma tells_write i o d h : tells ctx v EVENT_WRITE (Write_body ctx v i o d h).
Proof. unfold Write_body. repeat talk. Qed.

Lemma tells_unlink p n : tells ctx v EVENT_REMOVE (Unlink_body ctx v p n).
Proof. unfold Unlink_body. repeat talk. Qed.

Lemma tells_rmdir p n : tells ctx v EVENT_REMOVE (Rmdir_body ctx v p n).
Proof. unfold Rmdir_body. repeat talk. Qed.

Lemma tells_link i p n : tells ctx v EVENT_CREATE (Link_body ctx v i p n).
Proof. unfold Link_body. repeat talk. Qed.

Lemma tells_rename p n p' n' : tells ctx v EVENT_RENAME (Rename_body ctx v p n p' n').
Proof.
  unfold Rename_body. repeat talk. apply tells_publish; try done. simpl.
  destruct (decide (_ /\ _)) as [H|H]; [rewrite decide_True by tauto|rewrite decide_False by tauto]; done.
Qed.

Lemma tells_setattr i valid attr :
  tells ctx v (if has_bit valid SetAttrMode then EVENT_CHMOD else EVENT_WRITE) (SetAttr_body ctx v i valid attr).
Proof.
  unfold SetAttr_body. repeat talk; try done. apply tells_publish; try done. simpl.
  destruct (decide (resolveInodePath _ _ = "")) as [->|H]; [by rewrite decide_True|]. rewrite decide_False by tauto. done.
Qed.

End bodies.

Section server.
Context {B X : Type} `{UP : UnicodeUpper} `{CR : ColdReader} `{BK : Backend B X} `{RG : MountRegistrar X}.
Context (cfg : Config) (ctx : Ctx) (v : string).
Abbreviation Srv := (ST srv_error (Server B X)).

Definition told {A} (typ : option WatchEventType) (m : Srv A) : Prop := forall s,
  match typ, m s with
  | Some t, (Ok _, s') => exists e, event_of ctx v t e /\ sv_hub s' = Publish (cx_now ctx) e <$> sv_hub s
  | _, (_, s') => sv_hub s' = sv_hub s
  end.

Lemma told_pure {A} typ (r : res srv_error A) : (forall a, r <> Ok a) -> told typ (fun s => (r, s)).
Proof. intros H s. destruct typ; [|done]. destruct r as [a| |]; try done. by destruct (H a). Qed.

Lemma told_answer {A} typ (f : A -> Response) (m : Srv A) : told typ m -> told typ (answer f m).
Proof. intros H s. specialize (H s). unfold answer, bind. destruct typ, (m s) as [[]]; done. Qed.

Lemma told_auth {A} typ (k : VolumeContext -> Srv A) :
  (forall vc, told typ (k vc)) -> told typ (let* vc := getAuthorizedMountedVolume cfg ctx v in k vc).
Proof.
  intros Hk s. unfold bind. rewrite authorize_eq. destruct (authorize cfg ctx v _); [apply Hk|by destruct typ..].
Qed.

Lemma told_mgr {A} wrap (m : ST string (Manager B * X) A) : told None (on_mgr wrap m).
Proof. intros s. unfold on_mgr. by destruct (m _). Qed.

Lemma told_none_bind {A D} (m : Srv A) (k : A -> Srv D) : told None m -> (forall a, told None (k a)) -> told None (bind m k).
Proof.
  intros Hm Hk s. unfold bind. specialize (Hm s). destruct (m s) as [[a|e|] s']; [|done..]. simpl in *.
  specialize (Hk a s'). by rewrite <- Hm.
Qed.

Lemma told_run {A} typ vc (b : Body A) : tells ctx v typ b -> told (Some typ) (run_body v vc b).
Proof. intros H s. unfold run_body. specialize (H (mkSess vc (sv_hub s) (sv_dirty s))). by destruct (b _) as [[]]. Qed.

Lemma told_run_silent {A} vc (b : Body A) : silent b -> told None (run_body v vc b).
Proof. intros H s. unfold run_body. specialize (H (mkSess vc (sv_hub s) (sv_dirty s))). by destruct (b _) as [[]]. Qed.

Lemma told_on_s0fs {A} typ vc (b : Body A) : (forall vc, told typ (run_body v vc b)) -> told typ (on_s0fs v vc b).
Proof. intros H. unfold on_s0fs. destruct (isS0FSVolume vc); [apply H|by apply told_pure]. Qed.

Lemma told_reading {A} (b : Body A) : silent b -> told None (reading cfg ctx v b).
Proof. intros H. apply told_auth. intros vc. apply told_on_s0fs. intros vc'. by apply told_run_silent. Qed.

Lemma told_mutation {A} typ (k : VolumeContext -> Srv A) :
  (forall vc, told typ (k vc)) -> told typ (withAuthorizedVolumeMutation cfg ctx v k).
Proof.
  intros Hk. assert (H : told typ (do* requireLocalPrimary v in let* vc := getAuthorizedMountedVolume cfg ctx v in k vc)).
  { intros s. assert (Hp : requireLocalPrimary v s = (Ok tt, s) \/ exists e, requireLocalPrimary v s = (Err e, s)).
    { unfold requireLocalPrimary, bind, get. destruct (rt_LocalPrimary _); [by left|right; by eexists]. }
    pose proof (told_auth typ k Hk s) as H. destruct typ; unfold bind at 1; by destruct Hp as [->|[e ->]]. }
  unfold withAuthorizedVolumeMutation. destruct (cf_barrier cfg) as [bar|]; [|done].
  destruct (bar v); [by apply told_pure|done].
Qed.

Lemma told_mutating {A} typ (b : Body A) : tells ctx v typ b -> told (Some typ) (mutating cfg ctx v b).
Proof. intros H. apply told_mutation. intros vc. apply told_on_s0fs. intros vc'. by apply told_run. Qed.

Lemma told_mutating_silent {A} (b : Body A) : silent b -> told None (mutating cfg ctx v b).
Proof. intros H. apply told_mutation. intros vc. apply told_on_s0fs. intros vc'. by apply told_run_silent. Qed.

Lemma told_created p n actor make (f : Node -> Body NodeResponse) :
  (forall a s, exists d s', f a s = (Ok d, s') /\ ss_hub s' = ss_hub s) ->
  told (Some EVENT_CREATE) (mutating cfg ctx v (bind (create_body ctx v p n actor make) f)).
Proof. intros Hf. apply told_mutating, tells_then; [apply tells_create|done]. Qed.

Lemma told_open i fl a : told (announces (ROpen i fl a)) (FsServer.Open cfg ctx v i fl a).
Proof.
  apply told_auth. intros vc. simpl. destruct (isS0FSVolume vc); [|by apply told_pure]. destruct (has_bit fl O_TRUNC) eqn:Ht.
  - apply told_mutation. intros vc'. apply told_run. unfold openS0FS. rewrite Ht. talk; [talk|]. talk; [by intros s|]. talk; [done|].
    apply tells_then; [repeat talk|]. intros ? s. eexists _, _. split; [reflexivity|done].
  - apply told_run_silent. unfold openS0FS. rewrite Ht. repeat talk.
Qed.

Lemma told_throw {A} e : told None (throw e : Srv A).
Proof. done. Qed.

Lemma told_mount sid : told None (FsServer.MountVolume cfg ctx sid v).
Proof.
  unfold FsServer.MountVolume. destruct (cx_claims ctx) as [c|]; [|apply told_throw]. case_decide; [apply told_throw|].
  apply told_none_bind; [by intros s|]. intros vol. apply told_none_bind.
  { intros s. unfold requireLocalPrimary, bind, get. by destruct (rt_LocalPrimary _). }
  intros _. destruct (S3VolumePrefix _ _) as [pfx|e|]; [|apply told_throw|done].
  apply told_none_bind; [apply told_mgr|]. by intros [].
Qed.

Lemma told_guarded {A} (P : Prop) `{Decision P} e (k : VolumeContext -> Srv A) :
  (forall vc, told None (k vc)) ->
  told None (if decide P then throw e else let* vc := getAuthorizedMountedVolume cfg ctx v in k vc).
Proof. intros Hk. case_decide; [apply told_throw|by apply told_auth]. Qed.

Lemma told_handle r : told (announces r) (handle cfg ctx v r).
Proof.
  destruct r; simpl; apply told_answer; try (by apply told_reading); try (by apply told_mutating_silent).
  - apply told_mount.
  - apply told_guarded. intros vc. apply told_mgr.
  - apply told_guarded. intros vc. apply told_mgr.
  - apply told_reading. unfold GetAttr_body. repeat talk.
  - apply told_reading. unfold Lookup_body. repeat talk.
  - apply told_open.
  - apply told_reading. unfold Read_body. repeat talk.
  - apply told_mutating, tells_write.
  - apply told_created. intros a s. by eexists _, _.
  - apply told_created. intros a s. by eexists _, _.
  - apply told_mutating, tells_unlink.
  - apply told_reading. unfold ReadDir_body. repeat talk.
  - apply told_reading. unfold OpenDir_body. repeat talk.
  - apply told_mutating, tells_rename.
  - apply told_mutating, tells_setattr.
  - apply told_reading. unfold Flush_body. repeat talk.
  - apply told_reading. unfold Fsync_body. repeat talk.
  - apply told_reading. unfold Release_body. repeat talk.
  - apply told_mutating, tells_rmdir.
  - apply told_created. intros a s. by eexists _, _.
  - apply told_reading. unfold Readlink_body. repeat talk.
  - apply told_mutating, tells_link.
  - apply told_reading. unfold Access_body. repeat talk.
  - apply told_auth. intros vc. destruct (isS0FSVolume vc), (negb has_lock); done.
  - apply told_auth. intros vc. destruct (isS0FSVolume vc), (negb has_lock); done.
Qed.

End server.

(** Changes are announced.  A request that changes files (a write, a truncating
    open, a creation, a removal, a rename, a change of attributes) and succeeds
    publishes exactly one event: of the volume of the request, of the type of the
    change or an invalidation when no path is known, at the time of the request and
    from the caller's sandbox.  A request that fails, or that changes no file,
    publishes nothing. *)
Theorem changes_published {B X : Type} `{UP : UnicodeUpper} `{CR : ColdReader} `{BK : Backend B X} `{RG : MountRegistrar X}
    cfg ctx v r (s : Server B X) :
  match announces r, handle cfg ctx v r s with
  | Some typ, (Ok _, s') => exists e, event_of ctx v typ e /\ sv_hub s' = Publish (cx_now ctx) e <$> sv_hub s
  | _, (_, s') => sv_hub s' = sv_hub s
  end.
Proof. apply told_handle. Qed.
