(* ===== verification/FsServerFiles.v ===== *)
(** * The file system server: open files

    A file that a handle stands for keeps existing, with its content, whatever is
    unlinked or renamed, until the last handle is released; and a file without links
    exists only as long as a handle stands for it.  The server keeps this with the
    tables of handles of the volume (backend.go) around the engine's [Forget]. *)

From stdpp Require Import base gmap strings list fin_maps numbers sorting.
From Stdlib Require Import Strings.Byte Strings.Ascii.
From S2P Require Import Prelude GoStd GoNet S0fsTypes S0fsCore S0fsEngine S0fsInv S0fsSafety S0fsFiles Volume Notify Naming FsServer VolumeSpec FsServerSpec.

Local Open Scope Z_scope.

(** ** What one record of the log does to the files *)

(** The records that change the content of a file. *)
Definition rewrites (r : walRecord) (j : Z) : Prop := (r_Op r = OpWrite \/ r_Op r = OpTruncate) /\ r_Inode r = j.

Section records.
Context `{CR : ColdReader}.
Implicit Types s : SnapshotState.

Record evolves (r : walRecord) s s' : Prop := {
  ev_wf : wf s';
  ev_old : forall j n, Nodes s !! j = Some n -> is_dir n = false ->
    exists n', Nodes s' !! j = Some n' /\ n_Type n' = n_Type n /\
      (~ rewrites r j -> n_Size n' = n_Size n /\ file_content s' j = file_content s j);
  ev_zero : forall j n', Nodes s' !! j = Some n' -> n_Nlink n' = 0 ->
    (exists n, Nodes s !! j = Some n /\ n_Nlink n = 0) \/
    (r_Op r = OpUnlink /\ dir_of (Children s) (r_Parent r) !! r_Name r = Some j);
  ev_room : r_Op r <> OpCreate -> r_Op r <> OpLink ->
    NextInode s' = NextInode s /\
    forall j n', Nodes s' !! j = Some n' -> exists n, Nodes s !! j = Some n /\ n_Nlink n' <= n_Nlink n
}.

Lemma evolves_refl r s : wf s -> evolves r s s.
Proof. intros W. split; [done| | |]; eauto. intros _ _. split; [done|]. intros j n' H. eauto with lia. Qed.

(** The content of a file is a function of its payloads and its size. *)
Lemma content_same s s' j n n' :
  Nodes s !! j = Some n -> Nodes s' !! j = Some n' -> n_Size n' = n_Size n ->
  Data s' !! j = Data s !! j -> ColdFiles s' !! j = ColdFiles s !! j -> Segments s' = Segments s ->
  file_content s' j = file_content s j.
Proof.
  intros Hn Hn' Hs Hd Hc Hg. unfold file_content, is_hot, data_of, readColdRangeLocked, cold_of.
  by rewrite Hn, Hn', Hs, Hd, Hc, Hg.
Qed.

(** A record that puts a new version of one node. *)
Lemma evolves_put r s s' i n n' :
  wf s' -> Nodes s !! i = Some n -> Nodes s' = <[i := n']> (Nodes s) ->
  n_Type n' = n_Type n -> n_Size n' = n_Size n ->
  Data s' = Data s -> ColdFiles s' = ColdFiles s -> Segments s' = Segments s -> NextInode s' = NextInode s ->
  (n_Nlink n' = 0 -> n_Nlink n = 0 \/ (r_Op r = OpUnlink /\ dir_of (Children s) (r_Parent r) !! r_Name r = Some i)) ->
  (r_Op r <> OpLink -> n_Nlink n' <= n_Nlink n) ->
  evolves r s s'.
Proof.
  intros W Hn HN Ht Hs Hd Hc Hg Hx Hz Hl. split; [done| | |].
  - intros j m Hm Hdm. destruct (decide (j = i)) as [->|Hj].
    + exists n'. rewrite HN, lookup_insert_eq. assert (m = n) as -> by congruence. split; [done|]. split; [done|]. intros _. split; [done|].
      apply (content_same s s' i n n'); try done; [by rewrite HN, lookup_insert_eq|by rewrite ?Hd, ?Hc..].
    + exists m. rewrite HN, lookup_insert_ne by done. split; [done|]. split; [done|]. intros _. split; [done|].
      apply (content_same s s' j m m); try done; [by rewrite HN, lookup_insert_ne|by rewrite ?Hd, ?Hc..].
  - intros j m. rewrite HN. destruct (decide (j = i)) as [->|Hj]; [rewrite lookup_insert_eq|rewrite lookup_insert_ne by done; eauto].
    intros [= <-] H0. destruct (Hz H0); eauto.
  - intros _ HL. split; [done|]. intros j m. rewrite HN. destruct (decide (j = i)) as [->|Hj].
    + rewrite lookup_insert_eq. intros [= <-]. eauto.
    + rewrite lookup_insert_ne by done. eauto with lia.
Qed.

Lemma evolves_content r s i t f :
  wf s -> (r_Op r = OpWrite \/ r_Op r = OpTruncate) -> r_Inode r = i -> evolves r s (content_update i t f s).2.
Proof.
  intros W Ho Hi. pose proof (wf_content_update s i t f W) as W'. unfold content_update in *.
  destruct (Nodes s !! i) as [n|] eqn:Hn; [|by apply evolves_refl]. destruct (is_dir n) eqn:Hd; [by apply evolves_refl|].
  destruct (file_content s i) as [cur|e|] eqn:Hc; [|by apply evolves_refl..].
  assert (Hw : evolves r s (warm i cur s)).
  { pose proof (wf_warm s i cur W ltac:(eauto)) as Ww. unfold warm in *. destruct (is_hot s i) eqn:Hh; [by apply evolves_refl|].
    split; [done| | |].
    - intros j m Hm Hdm. exists m. split; [done|]. split; [done|]. intros Hr. split; [done|].
      assert (j <> i) by (intros ->; by destruct Hr). apply (content_same s _ j m m); try done; simpl;
        by rewrite ?lookup_insert_ne, ?lookup_delete_ne by congruence.
    - simpl. eauto.
    - intros _ _. split; [done|]. simpl. eauto with lia. }
  destruct (f cur) as [new|e|]; simpl in *; [|done..]. split; [done| | |].
  - intros j m Hm Hdm. unfold file_state at 1. simpl. rewrite warm_Nodes. destruct (decide (j = i)) as [->|Hj].
    + rewrite lookup_insert_eq. eexists. split; [done|]. split; [simpl; congruence|]. intros Hr. by destruct Hr.
    + rewrite lookup_insert_ne by done. exists m. split; [done|]. split; [done|]. intros _. split; [done|]. by apply file_content_other.
  - intros j m. unfold file_state. simpl. rewrite warm_Nodes. destruct (decide (j = i)) as [->|Hj].
    + rewrite lookup_insert_eq. intros [= <-] H0. left. eauto.
    + rewrite lookup_insert_ne by done. eauto.
  - intros _ _. split; [unfold file_state, warm; simpl; by destruct (is_hot s i)|]. intros j m. unfold file_state. simpl. rewrite warm_Nodes.
    destruct (decide (j = i)) as [->|Hj].
    + rewrite lookup_insert_eq. intros [= <-]. exists n. split; [done|]. simpl. lia.
    + rewrite lookup_insert_ne by done. eauto with lia.
Qed.

Lemma apply_evolves s r : wf s -> record_ok s r -> evolves r s (apply r s).2.
Proof.
  intros W Hr. pose proof (apply_wf s r W Hr) as W'. unfold apply, record_ok in *. destruct (r_Op r) eqn:Ho.
  - destruct (applyCreate_cases s r W Hr) as [[e E]|(E & _)]; rewrite E in *; simpl in *; [by apply evolves_refl|].
    assert (Hf : forall j, is_Some (Nodes s !! j) -> j <> r_Inode r).
    { intros j [n Hn] ->. destruct (wf_node _ W _ _ Hn) as (_ & ? & _). lia. }
    split; [done| | |by intros ?].
    + intros j n Hn _. assert (j <> r_Inode r) by eauto. exists n. unfold add_node. simpl. rewrite lookup_insert_ne by done.
      split; [done|]. split; [done|]. intros _. split; [done|].
      apply (content_same s _ j n n); try done; unfold add_node; simpl;
        by destruct (is_dir (created_node r)); rewrite ?lookup_insert_ne by done.
    + intros j n'. unfold add_node. simpl. destruct (decide (j = r_Inode r)) as [->|Hj].
      * rewrite lookup_insert_eq. by intros [= <-].
      * rewrite lookup_insert_ne by done. eauto.
  - rewrite applyWrite_eq. apply evolves_content; auto.
  - destruct (applyLink_cases s r W) as [[e E]|(n & E & Hn & Hd & _)]; rewrite E in *; simpl in *; [by apply evolves_refl|].
    destruct (wf_node _ W _ _ Hn) as (_ & _ & ? & _). specialize (Hr _ Hn).
    eapply (evolves_put r s _ (r_Inode r) n); try done; simpl. rewrite u32_small by lia. lia.
  - destruct (applyRemoveDir_cases s r W) as [[e E]|(i & n & E & He & Hn & Hd & _)]; rewrite E in *; simpl in *; [by apply evolves_refl|].
    split; [done| | |]; simpl.
    + intros j m Hm Hdm. assert (j <> i) by congruence. exists m. rewrite lookup_delete_ne by done.
      split; [done|]. split; [done|]. intros _. split; [done|].
      apply (content_same s _ j m m); try done. simpl. by rewrite lookup_delete_ne.
    + intros j m (_ & Hm)%lookup_delete_Some. eauto.
    + intros _ _. split; [done|]. intros j m (_ & Hm)%lookup_delete_Some. eauto with lia.
  - destruct (applyRename_cases s r W) as [[e E]|(i & n & E & He & Hn & _)]; rewrite E in *; simpl in *; [by apply evolves_refl|].
    eapply (evolves_put r s _ i n); try done; simpl; auto; lia.
  - unfold applySetMode, bind, get in *. destruct (Nodes s !! r_Inode r) as [n|] eqn:Hn; [|by apply evolves_refl].
    eapply (evolves_put r s _ (r_Inode r) n); try done; simpl; auto; lia.
  - unfold applySetOwner, bind, get in *. destruct (Nodes s !! r_Inode r) as [n|] eqn:Hn; [|by apply evolves_refl].
    eapply (evolves_put r s _ (r_Inode r) n); try done; simpl; auto; lia.
  - rewrite applyTruncate_eq. apply evolves_content; auto.
  - destruct (applyUnlink_cases s r W) as [[e E]|(i & n & E & He & Hn & Hd & _)]; rewrite E in *; simpl in *; [by apply evolves_refl|].
    destruct (wf_node _ W _ _ Hn) as (_ & _ & ? & _).
    eapply (evolves_put r s _ i n); try done; unfold unlink_node; destruct (0 <? n_Nlink n); simpl; auto; lia.
  - by apply evolves_refl.
Qed.

(** The number of the next record does not matter. *)
Lemma evolves_numbered r s s' q : evolves r (set_NextSeq q s) s' -> evolves r s s'.
Proof. intros []. by split. Qed.

(** Forgetting an inode only removes it when it has no links. *)
Lemma forget_cases s i :
  (forget_state i s = s /\ forall n, Nodes s !! i = Some n -> n_Nlink n <> 0) \/
  (Nodes (forget_state i s) = delete i (Nodes s) /\
    (forall j m, j <> i -> Nodes s !! j = Some m -> file_content (forget_state i s) j = file_content s j) /\
    NextInode (forget_state i s) = NextInode s).
Proof.
  unfold forget_state. destruct (Nodes s !! i) as [n|] eqn:Hn; [|by left].
  destruct (Z.eqb_spec (n_Nlink n) 0) as [H0|]; [|left; split; [done|congruence]]. right.
  split; [done|]. split; [|done]. intros j m Hj Hm. apply (content_same s _ j m m); try done; simpl; by rewrite lookup_delete_ne.
Qed.

End records.

(** ** What a call of the engine does: it applies at most one record *)

Section calls.
Context `{CR : ColdReader}.
Implicit Types w : World.

Definition counted (w0 w : World) : Prop :=
  closed (eng w) = closed (eng w0) /\ exists q, core (eng w) = set_NextSeq q (core (eng w0)).

Definition moved (P : walRecord -> Prop) (w0 w : World) : Prop :=
  counted w0 w \/
  (closed (eng w) = closed (eng w0) /\
   exists r q, P r /\ record_ok (core (eng w0)) r /\ core (eng w) = (apply r (set_NextSeq q (core (eng w0)))).2).

Definition runs (P : walRecord -> Prop) (w0 : World) {A} (m : Eng A) w : Prop := moved P w0 (m w).2.

Lemma counted_refl w : counted w w.
Proof. split; [done|]. exists (NextSeq (core (eng w))). by destruct (core (eng w)). Qed.

Lemma counted_wf w0 w : wf (core (eng w0)) -> counted w0 w -> wf (core (eng w)).
Proof. intros W [_ [q ->]]. by apply wf_set_NextSeq. Qed.

Lemma moved_evolves P w0 w :
  wf (core (eng w0)) -> moved P w0 w ->
  closed (eng w) = closed (eng w0) /\
  ((forall r, evolves r (core (eng w0)) (core (eng w))) \/ exists r, P r /\ evolves r (core (eng w0)) (core (eng w))).
Proof.
  intros W [[Hc [q E]]|(Hc & r & q & HP & Hr & E)]; (split; [done|]); rewrite E; clear E.
  - left. intros r. apply (evolves_numbered _ _ _ q). exact (evolves_refl r (set_NextSeq q _) (wf_set_NextSeq _ q W)).
  - right. exists r. split; [done|]. apply (evolves_numbered _ _ _ q). exact (apply_evolves (set_NextSeq q (core (eng w0))) r (wf_set_NextSeq _ q W) Hr).
Qed.

Lemma runs_guard P w0 {A D} (m : Eng A) (k : A -> Eng D) w r :
  m w = (r, w) -> counted w0 w -> (forall a, r = Ok a -> runs P w0 (k a) w) -> runs P w0 (bind m k) w.
Proof. unfold runs, bind. intros -> Hc Hk. destruct r; [by apply Hk|by left..]. Qed.

Lemma runs_end P w0 {A} (m : Eng A) w r : m w = (r, w) -> counted w0 w -> runs P w0 m w.
Proof. unfold runs. intros -> Hc. by left. Qed.

Lemma runs_newRecord P w0 {D} env op (k : walRecord -> Eng D) w :
  counted w0 w ->
  (forall r w', counted w0 w' -> NextInode (core (eng w')) = NextInode (core (eng w)) -> runs P w0 (k r) w') ->
  runs P w0 (bind (newRecord env op) k) w.
Proof.
  intros [Hc [q E]] Hk. unfold runs, bind, newRecord. apply Hk; [|done]. split; [done|]. exists (u64 (q + 1)). simpl. by rewrite E.
Qed.

Lemma log_apply_moved P w0 env r w :
  counted w0 w -> P r -> record_ok (core (eng w0)) r -> moved P w0 (log_apply env r w).2.
Proof.
  intros Hn HP Hr. unfold log_apply, bind.
  assert (Ha : counted w0 (wal_append env r w).2).
  { unfold wal_append. destruct (walHandle (eng w)); try done. by destruct (env_append env) as [|[]]. }
  destruct (wal_append env r w) as [[[]|e|] w1]; simpl in Ha; [|by left..].
  destruct Ha as [Hc [q E]]. unfold run_core. rewrite E.
  destruct (apply r (set_NextSeq q (core (eng w0)))) as [res s'] eqn:Es. right.
  destruct res as [[]|e|]; simpl; (split; [done|]); exists r, q; by rewrite Es.
Qed.

(** The record, and what is computed from the state after it. *)
Lemma runs_log P w0 {A} env r (k : unit -> Eng A) w :
  counted w0 w -> P r -> record_ok (core (eng w0)) r -> (forall u w', (k u w').2 = w') ->
  runs P w0 (bind (log_apply env r) k) w.
Proof.
  intros Hn HP Hr Hk. pose proof (log_apply_moved P w0 env r w Hn HP Hr) as H. unfold runs, bind.
  destruct (log_apply env r w) as [[u|e|] w']; simpl in *; [by rewrite Hk|done..].
Qed.

Lemma runs_log_end P w0 env r w :
  counted w0 w -> P r -> record_ok (core (eng w0)) r -> runs P w0 (log_apply env r) w.
Proof. apply log_apply_moved. Qed.

End calls.

Ltac runs_step :=
  lazymatch goal with
  | |- runs _ _ (bind checkOpen _) _ => eapply runs_guard; [apply checkOpen_eq | assumption | intros ? ?]
  | |- runs _ _ (bind get _) _ => eapply runs_guard; [reflexivity | assumption | intros ? [= <-]]
  | |- runs _ _ (bind (gets _) _) _ => eapply runs_guard; [reflexivity | assumption | intros ? [= <-]]
  | |- runs _ _ (bind (run_core (ensureDirLocked _)) _) _ =>
      eapply runs_guard; [apply run_core_guard, ensureDir_wf; assumption | assumption | intros ? ?]
  | |- runs _ _ (bind (run_core (lookupLocked _ _)) _) _ =>
      eapply runs_guard; [apply run_core_guard, lookup_wf; assumption | assumption | intros ? ?]
  | |- runs _ _ (bind (run_core (fileNodeLocked _)) _) _ =>
      eapply runs_guard; [apply run_core_guard, fileNode_eq | assumption | intros ? ?]
  | |- runs _ _ (bind (newRecord _ _) _) _ => apply runs_newRecord; [assumption | intros ? ? ? ?]
  | |- runs _ _ (bind (log_apply _ _) _) _ => apply runs_log; [assumption | done | | done]
  | |- runs _ _ (log_apply _ _) _ => apply runs_log_end; [assumption | done | ]
  | |- runs _ _ (if ?b then _ else _) _ => destruct b
  | |- runs _ _ (match ?x with _ => _ end) _ => destruct x eqn:?
  | |- runs _ _ _ _ => eapply runs_end; [reflexivity | assumption]
  end.

Section operations.
Context `{CR : ColdReader}.
Implicit Types w : World.

Definition op_is (op : walOp) (r : walRecord) : Prop := r_Op r = op.
Definition op_on (op : walOp) (i : Z) (r : walRecord) : Prop := r_Op r = op /\ r_Inode r = i.

Lemma create_runs env p n t m tgt w :
  wf (core (eng w)) -> headroom w -> runs (op_is OpCreate) w (create env p n t m tgt) w.
Proof.
  intros W [H _]. pose proof (counted_refl w). unfold create. repeat runs_step. unfold record_ok. simpl.
  destruct (wf_next _ W). lia.
Qed.

Lemma Link_runs env i p n w :
  wf (core (eng w)) -> headroom w -> runs (op_is OpLink) w (S0fsEngine.Link env i p n) w.
Proof. intros W [_ H]. pose proof (counted_refl w). unfold S0fsEngine.Link. repeat runs_step. unfold record_ok. simpl. eauto. Qed.

Lemma Write_runs env i o d w : runs (op_on OpWrite i) w (S0fsEngine.Write env i o d) w.
Proof. pose proof (counted_refl w). unfold S0fsEngine.Write. by repeat runs_step. Qed.

Lemma Truncate_runs env i o w : runs (op_on OpTruncate i) w (Truncate env i o) w.
Proof. pose proof (counted_refl w). unfold Truncate. by repeat runs_step. Qed.

Lemma Rename_runs env p n p' n' w : wf (core (eng w)) -> runs (op_is OpRename) w (S0fsEngine.Rename env p n p' n') w.
Proof. intros W. pose proof (counted_refl w). unfold S0fsEngine.Rename. by repeat runs_step. Qed.

Lemma RemoveDir_runs env p n w : wf (core (eng w)) -> runs (op_is OpRmdir) w (RemoveDir env p n) w.
Proof. intros W. pose proof (counted_refl w). unfold RemoveDir. by repeat runs_step. Qed.

Lemma SetMode_runs env i m w : runs (op_is OpChmod) w (SetMode env i m) w.
Proof. pose proof (counted_refl w). unfold SetMode. by repeat runs_step. Qed.

Lemma SetOwner_runs env i u g w : runs (op_is OpChown) w (SetOwner env i u g) w.
Proof. pose proof (counted_refl w). unfold SetOwner. by repeat runs_step. Qed.

Lemma GetAttr_same i w : (S0fsEngine.GetAttr i w).2 = w.
Proof. unfold S0fsEngine.GetAttr, bind, checkOpen, get. destruct (closed (eng w)); [done|]. by destruct (Nodes _ !! i). Qed.

Lemma Lookup_same p n w : wf (core (eng w)) -> (S0fsEngine.Lookup p n w).2 = w.
Proof.
  intros W. unfold S0fsEngine.Lookup, bind. rewrite checkOpen_eq. destruct (closed (eng w)); [done|].
  rewrite (run_core_guard _ w _ (lookup_wf _ p n W)). by destruct (Nodes _ !! p) as [d|]; [destruct (is_dir d); [destruct (_ !! n)|]|].
Qed.

Lemma ReadDir_same i w : wf (core (eng w)) -> (S0fsEngine.ReadDir i w).2 = w.
Proof.
  intros W. unfold S0fsEngine.ReadDir, bind. rewrite checkOpen_eq. destruct (closed (eng w)); [done|].
  rewrite (run_core_guard _ w _ (ensureDir_wf _ i W)). by destruct (Nodes _ !! i) as [d|]; [destruct (is_dir d)|].
Qed.

Lemma Read_same i o k w : (S0fsEngine.Read i o k w).2 = w.
Proof.
  unfold S0fsEngine.Read, bind. rewrite checkOpen_eq. destruct (closed (eng w)); [done|].
  rewrite (run_core_guard _ w _ (fileNode_eq _ i)). by destruct (Nodes _ !! i) as [d|]; [destruct (is_dir d)|].
Qed.

Lemma Fsync_same env w : (S0fsEngine.Fsync env w).2 = w.
Proof.
  unfold S0fsEngine.Fsync, bind. rewrite checkOpen_eq. destruct (closed (eng w)); [done|]. unfold wal_sync.
  destruct (walHandle (eng w)); try done. by destruct (env_sync env).
Qed.

(** An unlink that succeeds names the inode it took a link from; one that does not
    only counts. *)
Lemma Unlink_effect env p n w :
  wf (core (eng w)) ->
  match UnlinkWithInode env p n w with
  | (Ok j, w') => closed (eng w') = closed (eng w) /\
      exists r, op_is OpUnlink r /\ evolves r (core (eng w)) (core (eng w')) /\
                dir_of (Children (core (eng w))) (r_Parent r) !! r_Name r = Some j
  | (_, w') => counted w w'
  end.
Proof.
  intros W. pose proof (counted_refl w) as Hc. unfold UnlinkWithInode. unfold bind at 1. rewrite checkOpen_eq.
  destruct (closed (eng w)) eqn:Ecl; [done|]. unfold bind at 1. rewrite (run_core_guard _ w _ (lookup_wf _ p n W)).
  destruct (Nodes (core (eng w)) !! p) as [d|] eqn:Hd; [|done]. destruct (is_dir d) eqn:Hdd; [|done].
  destruct (dir_of _ p !! n) as [j|] eqn:Hj; [|done]. unfold bind at 1, get.
  destruct (Nodes (core (eng w)) !! j) as [nd|] eqn:Hn; [|done]. destruct (is_dir nd); [done|].
  unfold bind, newRecord, log_apply, bind. set (r := mkRecord _ OpUnlink 0 p n 0 "" _ 0 0 [] "" _). set (w1 := set_eng _ w).
  assert (H1 : counted w w1) by (split; [done|by eexists]).
  assert (H2 : counted w (wal_append env r w1).2).
  { unfold wal_append. destruct (walHandle (eng w1)); try done. by destruct (env_append env) as [|[]]. }
  destruct (wal_append env r w1) as [[[]|e|] w2]; simpl in H2; [|done..]. destruct H2 as [Hcl [q E]]. unfold run_core. rewrite E.
  pose proof (wf_set_NextSeq _ q W) as W1. pose proof (apply_evolves (set_NextSeq q (core (eng w))) r W1 I) as Hev.
  unfold apply in *. simpl in *. destruct (applyUnlink_cases (set_NextSeq q (core (eng w))) r W1) as [[e Ee]|(i & m & Ee & _)];
    rewrite Ee in *; simpl in *.
  - split; [done|by exists q].
  - split; [congruence|]. exists r. split; [done|]. split; [|done]. by apply (evolves_numbered _ _ _ q).
Qed.

End operations.

(** ** The tables of handles *)

(** The number of handles that stand for inode [j]. *)
Definition holders (j : Z) (m : gmap Z Z) : nat := size (filter (fun kv : Z * Z => kv.2 = j) m).

Lemma holders_insert m id i j :
  m !! id = None -> holders j (<[id := i]> m) = (holders j m + if decide (i = j) then 1 else 0)%nat.
Proof.
  intros Hm. unfold holders. destruct (decide (i = j)) as [->|Hij].
  - rewrite map_filter_insert_True by done. rewrite map_size_insert_None; [lia|].
    apply map_lookup_filter_None_2. by left.
  - rewrite map_filter_insert_False by done. rewrite delete_id by done. lia.
Qed.

Lemma holders_delete m id i j :
  m !! id = Some i -> holders j m = (holders j (delete id m) + if decide (i = j) then 1 else 0)%nat.
Proof.
  intros Hm. rewrite <- (insert_delete_id m id i) at 1 by done. by rewrite holders_insert by apply lookup_delete_eq.
Qed.

Lemma holders_pos m id i : m !! id = Some i -> (0 < holders i m)%nat.
Proof. intros H. rewrite (holders_delete m id i i H), decide_True by done. lia. Qed.

Lemma holders_zero m j : holders j m = 0%nat -> forall id, m !! id <> Some j.
Proof. intros H id Hid. apply holders_pos in Hid. lia. Qed.

Lemma holders_some m j : (0 < holders j m)%nat -> exists id, m !! id = Some j.
Proof.
  unfold holders. intros H. destruct (map_choose (filter (fun kv : Z * Z => kv.2 = j) m)) as (id & x & Hx).
  - intros E. rewrite E, map_size_empty in H. lia.
  - apply map_lookup_filter_Some in Hx as [Hx Hj]. simpl in Hj. subst x. by exists id.
Qed.

(** Every handle has an identifier that was given out, and the counts are right. *)
Record handles_ok (h : Handles) : Prop := {
  ho_next : 0 <= nextHandleID h < 2 ^ 64;
  ho_ids : forall id j, fileHandles h !! id = Some j -> 0 < id <= nextHandleID h;
  ho_count : forall j, openFileCount h !! j =
    if decide (holders j (fileHandles h) = 0%nat) then None else Some (Z.of_nat (holders j (fileHandles h)))
}.

Lemma no_handles_ok : handles_ok no_handles.
Proof. split; [done|done|]. intros j. simpl. by rewrite decide_True. Qed.

Lemma count_holders h j : handles_ok h -> count_of (openFileCount h) j = Z.of_nat (holders j (fileHandles h)).
Proof. intros H. unfold count_of. rewrite (ho_count h H). case_decide; simpl; lia. Qed.

Lemma open_handle_ok h i :
  handles_ok h -> nextHandleID h < 2 ^ 64 - 1 ->
  let '(id, h') := OpenFileHandle i h in
  handles_ok h' /\ fileHandles h !! id = None /\ fileHandles h' = <[id := i]> (fileHandles h) /\ unlinkedFiles h' = unlinkedFiles h.
Proof.
  intros H Hn. unfold OpenFileHandle. pose proof (ho_next h H). rewrite u64_small by lia.
  assert (Hf : fileHandles h !! (nextHandleID h + 1) = None).
  { apply eq_None_not_Some. intros [j Hj]. pose proof (ho_ids h H _ _ Hj). lia. }
  split; [|done]. split; simpl.
  - lia.
  - intros id j. destruct (decide (id = nextHandleID h + 1)) as [->|Hne]; [lia|]. rewrite lookup_insert_ne by done.
    intros Hj. pose proof (ho_ids h H _ _ Hj). lia.
  - intros j. rewrite holders_insert by done. rewrite count_holders by done. destruct (decide (i = j)) as [->|Hij].
    + rewrite lookup_insert_eq, decide_False by lia. f_equal. lia.
    + rewrite lookup_insert_ne, (ho_count h H) by done. by rewrite Nat.add_0_r.
Qed.

Lemma open_dir_ok h i : handles_ok h -> nextHandleID h < 2 ^ 64 - 1 ->
  let '(id, h') := OpenDirHandle i h in handles_ok h' /\ fileHandles h' = fileHandles h /\ unlinkedFiles h' = unlinkedFiles h.
Proof.
  intros H Hn. unfold OpenDirHandle. pose proof (ho_next h H). rewrite u64_small by lia. split; [|done].
  split; simpl; [lia| |apply (ho_count h H)]. intros id j Hj. pose proof (ho_ids h H _ _ Hj). lia.
Qed.

(** The counts after a handle is gone. *)
Lemma drop_count_ok h id j :
  handles_ok h ->
  (if bool_decide (is_Some (fileHandles h !! id)) then drop_count (handle_inode h id) (openFileCount h) else openFileCount h) !! j =
    (if decide (holders j (delete id (fileHandles h)) = 0%nat) then None else Some (Z.of_nat (holders j (delete id (fileHandles h))))).
Proof.
  intros H. unfold handle_inode. destruct (fileHandles h !! id) as [i|] eqn:Hid; simpl.
  2: { rewrite delete_id by done. apply (ho_count h H). }
  unfold drop_count. rewrite count_holders by done. rewrite (holders_delete _ id i i Hid), decide_True by done.
  pose proof (ho_count h H j) as Hj. rewrite (holders_delete _ id i j Hid) in Hj.
  destruct (decide (i = j)) as [->|Hij].
  - destruct (Z.ltb_spec 1 (Z.of_nat (holders j (delete id (fileHandles h)) + 1))).
    + rewrite lookup_insert_eq, decide_False by lia. f_equal. lia.
    + rewrite lookup_delete_eq, decide_True by lia. done.
  - rewrite Nat.add_0_r in Hj. by destruct (Z.ltb _ _); rewrite ?lookup_insert_ne, ?lookup_delete_ne by done.
Qed.

(** ** The invariant of a volume, and the bodies that keep it *)

Section bodies.
Context `{CR : ColdReader}.

(** A handle that is watched, its inode and the content of the file; [strict] when
    files without links must have a handle. *)
Context (tr : option (Z * Z * gores (list byte))) (strict : bool).

Definition is_file (w : World) (j : Z) : Prop := exists n, Nodes (core (eng w)) !! j = Some n /\ is_dir n = false.

(** [fs] are inodes known to be files; [er] and [hr] tell whether there is room for
    one more inode or link, and for one more handle. *)
Record vinv (fs : list Z) (er hr : bool) (vc : VolumeContext) (w : World) : Prop := {
  vi_world : vc_S0FS vc = Some w;
  vi_open : closed (eng w) = false;
  vi_wf : wf (core (eng w));
  vi_handles : handles_ok (vc_handles vc);
  vi_files : forall id j, fileHandles (vc_handles vc) !! id = Some j -> is_file w j;
  vi_known : forall j, j ∈ fs -> is_file w j;
  vi_track : forall h i c, tr = Some (h, i, c) -> fileHandles (vc_handles vc) !! h = Some i /\ file_content (core (eng w)) i = c;
  vi_orphans : strict = true -> forall j n, Nodes (core (eng w)) !! j = Some n -> n_Nlink n = 0 ->
    j ∈ unlinkedFiles (vc_handles vc) /\ exists id, fileHandles (vc_handles vc) !! id = Some j;
  vi_er : er = true -> headroom w;
  vi_hr : hr = true -> nextHandleID (vc_handles vc) < 2 ^ 64 - 1;
  vi_kind : vc_Backend vc = BackendS0FS
}.

Definition good (fs : list Z) (er hr : bool) (vc : VolumeContext) : Prop := exists w, vinv fs er hr vc w.

Lemma vinv_weaken fs er hr fs' er' hr' vc w :
  (forall j, j ∈ fs' -> j ∈ fs) -> (er' = true -> er = true) -> (hr' = true -> hr = true) ->
  vinv fs er hr vc w -> vinv fs' er' hr' vc w.
Proof. intros Hf He Hh []. split; auto. Qed.

Lemma good_weaken fs er hr vc : good fs er hr vc -> good [] false false vc.
Proof. intros [w H]. exists w. by apply (vinv_weaken fs er hr); [intros j ?%elem_of_nil|..]. Qed.

(** [m] takes a volume with [P] to one with [Q] when it succeeds, and keeps the
    invariant when it does not. *)
Definition triple {A} (P : VolumeContext -> Prop) (m : Body A) (Q : A -> VolumeContext -> Prop) : Prop := forall s,
  P (ss_vol s) ->
  match m s with
  | (Ok a, s') => Q a (ss_vol s')
  | (_, s') => good [] false false (ss_vol s')
  end.

Lemma t_bind {A D} P (m : Body A) Q (k : A -> Body D) R :
  triple P m Q -> (forall a, triple (Q a) (k a) R) -> triple P (bind m k) R.
Proof.
  intros Hm Hk s HP. unfold bind. specialize (Hm s HP). destruct (m s) as [[a|e|] s']; [|done..]. by apply Hk.
Qed.

Lemma t_post {A} P (m : Body A) (Q Q' : A -> VolumeContext -> Prop) :
  triple P m Q -> (forall a vc, Q a vc -> Q' a vc) -> triple P m Q'.
Proof. intros Hm H s HP. specialize (Hm s HP). destruct (m s) as [[a|e|] s']; auto. Qed.

Lemma t_pre {A} (P P' : VolumeContext -> Prop) (m : Body A) Q :
  (forall vc, P' vc -> P vc) -> triple P m Q -> triple P' m Q.
Proof. intros H Hm s HP. by apply Hm, H. Qed.

Lemma t_ret {A} (P : VolumeContext -> Prop) (a : A) : triple P (ret a) (fun _ => P).
Proof. by intros s. Qed.

Lemma t_throw {A} fs er hr e Q : triple (good fs er hr) (throw e : Body A) Q.
Proof. intros s H. by apply good_weaken in H. Qed.

Lemma t_panic {A} fs er hr Q : triple (good fs er hr) (panic : Body A) Q.
Proof. intros s H. by apply good_weaken in H. Qed.

Lemma t_lift {A} fs er hr (r : res srv_error A) : triple (good fs er hr) (lift_res r) (fun _ => good fs er hr).
Proof. intros s H. unfold lift_res. destruct r; [done|by apply good_weaken in H..]. Qed.

(** What does not touch the volume. *)
Definition elsewhere {A} (m : Body A) : Prop := forall s, exists a, (m s).1 = Ok a /\ ss_vol (m s).2 = ss_vol s.

Lemma t_elsewhere {A} P (m : Body A) : elsewhere m -> triple P m (fun _ => P).
Proof. intros H s HP. destruct (H s) as (a & E1 & E2). destruct (m s) as [r s']. simpl in *. subst r. by rewrite E2. Qed.

Lemma elsewhere_rest :
  elsewhere get /\ (forall v h, elsewhere (peekDirtyWrite v h)) /\ (forall v i h, elsewhere (markDirtyWrite v i h)) /\
  (forall v h, elsewhere (clearDirtyWrite v h)) /\ (forall ctx e, elsewhere (publishEvent ctx e)).
Proof. repeat split; intros; by eexists. Qed.

(** A call of the engine. *)
Definition harmless (r : walRecord) : Prop :=
  (forall h i c, tr = Some (h, i, c) -> ~ rewrites r i) /\ (strict = true -> r_Op r <> OpUnlink).

Lemma vinv_engine fs er er' hr vc w w' :
  vinv fs er hr vc w -> closed (eng w') = closed (eng w) ->
  (exists r, evolves r (core (eng w)) (core (eng w')) /\ harmless r /\
     (er' = true -> er = true /\ r_Op r <> OpCreate /\ r_Op r <> OpLink)) ->
  vinv fs er' hr (set_S0FS (Some w') vc) w'.
Proof.
  intros V Hc (r & E & [Hr1 Hr2] & He).
  assert (Hf : forall j, is_file w j -> is_file w' j).
  { intros j (n & Hn & Hd). destruct (ev_old _ _ _ E _ _ Hn Hd) as (n' & Hn' & Ht & _). exists n'. split; [done|].
    unfold is_dir in *. by rewrite Ht. }
  split; simpl; try done.
  - by rewrite Hc, (vi_open _ _ _ _ _ V).
  - apply (ev_wf _ _ _ E).
  - apply (vi_handles _ _ _ _ _ V).
  - intros id j Hj. by apply Hf, (vi_files _ _ _ _ _ V id).
  - intros j Hj. by apply Hf, (vi_known _ _ _ _ _ V).
  - intros h i c Ht. destruct (vi_track _ _ _ _ _ V _ _ _ Ht) as [H1 H2]. split; [done|].
    destruct (vi_files _ _ _ _ _ V _ _ H1) as (n & Hn & Hd). destruct (ev_old _ _ _ E _ _ Hn Hd) as (n' & _ & _ & Hk).
    rewrite <- H2. by apply Hk, (Hr1 h i c).
  - intros Hs j n Hn H0. destruct (ev_zero _ _ _ E _ _ Hn H0) as [(m & Hm & Hm0)|[Ho _]]; [|by destruct (Hr2 Hs)].
    by apply (vi_orphans _ _ _ _ _ V Hs j m).
  - intros H'. destruct (He H') as (Her & H1 & H2). destruct (vi_er _ _ _ _ _ V Her) as [Hx Hl].
    destruct (ev_room _ _ _ E H1 H2) as [Hn Hm]. split; [by rewrite Hn|]. intros j n Hj. destruct (Hm _ _ Hj) as (m & Hm' & ?).
    specialize (Hl _ _ Hm'). lia.
  - apply (vi_hr _ _ _ _ _ V).
  - apply (vi_kind _ _ _ _ _ V).
Qed.

(** The engine calls that apply one record. *)
Lemma vinv_runs {A} fs er er' hr vc w (m : Eng A) P :
  vinv fs er hr vc w -> runs P w m w ->
  (forall r, P r -> harmless r) -> (er' = true -> er = true /\ forall r, P r -> r_Op r <> OpCreate /\ r_Op r <> OpLink) ->
  vinv fs er' hr (set_S0FS (Some (m w).2) vc) (m w).2.
Proof.
  intros V Hr HP He. destruct (moved_evolves _ _ _ (vi_wf _ _ _ _ _ V) Hr) as [Hc Hev].
  apply (vinv_engine fs er er' hr _ w); [done|done|]. destruct Hev as [Hev|(x & Hx & Hev)].
  - exists (mkRecord 0 (OpOther "") 0 0 "" 0 "" TypeUnset 0 0 [] "" 0). split; [apply Hev|]. split.
    + split; [intros h i c _ [[H|H] _]; discriminate H|done].
    + intros H. by destruct (He H).
  - exists x. split; [done|]. split; [by apply HP|]. intros H. destruct (He H) as [H1 H2]. split; [done|by apply H2].
Qed.

Lemma t_runs {A} fs er er' hr wrap (m : Eng A) P :
  (forall w, wf (core (eng w)) -> (er = true -> headroom w) -> runs P w m w) ->
  (forall r, P r -> harmless r) -> (er' = true -> er = true /\ forall r, P r -> r_Op r <> OpCreate /\ r_Op r <> OpLink) ->
  triple (good fs er hr) (on_vol (on_engine wrap m)) (fun _ => good fs er' hr).
Proof.
  intros Hm HP He s [w V]. unfold on_vol, on_engine. rewrite (vi_world _ _ _ _ _ V).
  pose proof (vinv_runs fs er er' hr _ w m P V (Hm w (vi_wf _ _ _ _ _ V) (vi_er _ _ _ _ _ V)) HP He) as V'.
  destruct (m w) as [r w']. simpl in V'. destruct r as [a|e|]; simpl; [by exists w'|apply (good_weaken fs er' hr); by exists w'..].
Qed.

(** The ones that only look. *)
Lemma t_looks {A} fs er hr wrap (m : Eng A) :
  (forall w, wf (core (eng w)) -> (m w).2 = w) ->
  triple (good fs er hr) (on_vol (on_engine wrap m)) (fun a vc => exists w, vinv fs er hr vc w /\ (m w).1 = Ok a).
Proof.
  intros Hm s [w V]. unfold on_vol, on_engine. rewrite (vi_world _ _ _ _ _ V). pose proof (Hm w (vi_wf _ _ _ _ _ V)) as Hw.
  destruct (m w) as [r w'] eqn:Em. simpl in Hw. subst w'.
  assert (E : set_S0FS (Some w) (ss_vol s) = ss_vol s) by (pose proof (vi_world _ _ _ _ _ V) as Hv; destruct (ss_vol s); simpl in *; by subst).
  rewrite E. destruct r as [a|e|]; simpl; [exists w; by rewrite Em|apply (good_weaken fs er hr); by exists w..].
Qed.

Lemma t_looks_good {A} fs er hr wrap (m : Eng A) :
  (forall w, wf (core (eng w)) -> (m w).2 = w) ->
  triple (good fs er hr) (on_vol (on_engine wrap m)) (fun _ => good fs er hr).
Proof. intros Hm. eapply t_post; [by apply t_looks|]. intros a vc (w & V & _). by exists w. Qed.

Lemma t_GetAttr fs er hr wrap i :
  triple (good fs er hr) (on_vol (on_engine wrap (S0fsEngine.GetAttr i)))
    (fun n vc => n_Inode n = i /\ good (if is_dir n then fs else i :: fs) er hr vc).
Proof.
  eapply t_post; [apply t_looks; intros w _; apply GetAttr_same|]. intros n vc (w & V & E).
  unfold S0fsEngine.GetAttr, bind, checkOpen, get in E. rewrite (vi_open _ _ _ _ _ V) in E.
  destruct (Nodes (core (eng w)) !! i) as [m|] eqn:Hn; [|done]. injection E as <-.
  split; [by apply (wf_node _ (vi_wf _ _ _ _ _ V))|]. exists w. destruct (is_dir m) eqn:Hd; [done|].
  destruct V. split; auto. intros j [->|Hj]%elem_of_cons; [by exists m|auto].
Qed.

(** [Open]'s new handle, for an inode known to be a file. *)
Lemma t_open_handle fs er i : i ∈ fs -> triple (good fs er true) (on_handles (OpenFileHandle i)) (fun _ => good fs er false).
Proof.
  intros Hi s [w V]. unfold on_handles.
  pose proof (open_handle_ok (vc_handles (ss_vol s)) i (vi_handles _ _ _ _ _ V) (vi_hr _ _ _ _ _ V eq_refl)) as H.
  destruct (OpenFileHandle i (vc_handles (ss_vol s))) as [id h']. destruct H as (Hok & Hnew & Hf & Hu). simpl.
  assert (Hold : forall k j, fileHandles (vc_handles (ss_vol s)) !! k = Some j -> fileHandles h' !! k = Some j).
  { intros k j Hk. rewrite Hf, lookup_insert_ne by congruence. done. }
  exists w. destruct V. split; simpl; auto; try done.
  - intros k j. rewrite Hf. destruct (decide (k = id)) as [->|Hk]; [rewrite lookup_insert_eq; intros [= <-]; auto|].
    rewrite lookup_insert_ne by done. eauto.
  - intros h j c Ht. destruct (vi_track0 _ _ _ Ht) as [H1 H2]. auto.
  - intros Hs j n Hn H0. destruct (vi_orphans0 Hs j n Hn H0) as [H1 [k H2]]. rewrite Hu. eauto.
Qed.

Lemma t_open_dir fs er i : triple (good fs er true) (on_handles (OpenDirHandle i)) (fun _ => good fs er false).
Proof.
  intros s [w V]. unfold on_handles.
  pose proof (open_dir_ok (vc_handles (ss_vol s)) i (vi_handles _ _ _ _ _ V) (vi_hr _ _ _ _ _ V eq_refl)) as H.
  destruct (OpenDirHandle i (vc_handles (ss_vol s))) as [id h']. destruct H as (Hok & Hf & Hu). simpl.
  exists w. destruct V. split; simpl; rewrite ?Hf, ?Hu; auto; done.
Qed.

End bodies.

(** ** Unlinking and releasing *)

Section freeing.
Context `{CR : ColdReader}.
Implicit Types tr : option (Z * Z * gores (list byte)).

Lemma vinv_lax tr strict fs er hr vc w : vinv tr strict fs er hr vc w -> vinv tr false fs er hr vc w.
Proof. intros []. by split. Qed.

(** The files without links, all but [j], have a handle. *)
Definition orphans_but (j : Z) (h : Handles) (w : World) : Prop := forall k n,
  Nodes (core (eng w)) !! k = Some n -> n_Nlink n = 0 ->
  k = j \/ (k ∈ unlinkedFiles h /\ exists id, fileHandles h !! id = Some k).

Definition forgotten (j : Z) (w : World) : World := set_eng (fun e => set_core (forget_state j (core e)) e) w.

(** Forgetting a file that no handle stands for. *)
Lemma vinv_forget tr strict hr vc w j :
  vinv tr false [] false hr vc w -> holders j (fileHandles (vc_handles vc)) = 0%nat ->
  (strict = true -> orphans_but j (vc_handles vc) w) ->
  vinv tr strict [] false hr (set_S0FS (Some (forgotten j w)) vc) (forgotten j w).
Proof.
  intros V H0 Ho. pose proof (holders_zero _ _ H0) as Hno.
  assert (Hne : forall id k, fileHandles (vc_handles vc) !! id = Some k -> k <> j) by (intros id k Hk ->; by apply (Hno id)).
  assert (Hf : forall k, k <> j -> is_file w k -> is_file (forgotten j w) k).
  { intros k Hk (n & Hn & Hd). exists n. split; [|done]. unfold forgotten. simpl.
    destruct (forget_cases (core (eng w)) j) as [[-> _]|(-> & _)]; [done|by rewrite lookup_delete_ne]. }
  pose proof V as [E1 E2 E3 E4 E5 E6 E7 _ _ E10 E11]. split; simpl; try done.
  - by apply wf_forget.
  - intros id k Hk. eauto.
  - intros k Hk. by apply elem_of_nil in Hk.
  - intros h i c Ht. destruct (E7 _ _ _ Ht) as [H1 H2]. split; [done|]. rewrite <- H2.
    destruct (E5 _ _ H1) as (n & Hn & _). destruct (forget_cases (core (eng w)) j) as [[-> _]|(_ & Hc & _)]; [done|]. eauto.
  - intros Hs k n Hk Hz. destruct (forget_cases (core (eng w)) j) as [[E Hnz]|(E & _)]; rewrite E in Hk.
    + destruct (Ho Hs k n Hk Hz) as [->|?]; [by destruct (Hnz n)|done].
    + apply lookup_delete_Some in Hk as [Hkj Hk]. destruct (Ho Hs k n Hk Hz) as [->|?]; done.
Qed.

Lemma t_forget tr strict hr j :
  triple tr strict (fun vc => exists w, vinv tr false [] false hr vc w /\ holders j (fileHandles (vc_handles vc)) = 0%nat /\
                                        (strict = true -> orphans_but j (vc_handles vc) w))
    (s0fs_ignore (S0fsEngine.Forget j)) (fun _ => good tr strict [] false hr).
Proof.
  intros s (w & V & H0 & Ho). unfold s0fs_ignore, s0fs, on_vol, on_engine. rewrite (vi_world _ _ _ _ _ _ _ V).
  unfold S0fsEngine.Forget, bind. rewrite checkOpen_eq, (vi_open _ _ _ _ _ _ _ V). simpl.
  exists (forgotten j w). by apply vinv_forget.
Qed.

Lemma holders_mark h j : handles_ok h -> count_of (openFileCount h) j = 0 -> holders j (fileHandles h) = 0%nat.
Proof. intros H. rewrite count_holders by done. lia. Qed.

(** What [Unlink] does to the engine and the handles. *)
Lemma t_unlink tr strict er hr env p n :
  triple tr strict (good tr strict [] er hr)
    (let* inode := s0fs (S0fsEngine.UnlinkWithInode env p n) in
     let* marked := on_handles (MarkUnlinkedFileIfOpen inode) in
     if marked then ret tt else s0fs_ignore (S0fsEngine.Forget inode))
    (fun _ => good tr strict [] false hr).
Proof.
  apply (t_bind tr strict _ _ (fun j vc => exists w, vinv tr false [] false hr vc w /\ (strict = true -> orphans_but j (vc_handles vc) w))).
  - intros s [w V]. unfold s0fs, on_vol, on_engine. rewrite (vi_world _ _ _ _ _ _ _ V).
    pose proof (Unlink_effect env p n w (vi_wf _ _ _ _ _ _ _ V)) as H.
    assert (Hm : forall w', counted w w' -> vinv tr strict [] false hr (set_S0FS (Some w') (ss_vol s)) w').
    { intros w' Hc. destruct (moved_evolves (fun _ => False) _ _ (vi_wf _ _ _ _ _ _ _ V) (or_introl Hc)) as [Hcl [Hev|(r & [] & _)]].
      apply (vinv_engine tr strict [] er false hr _ w); [done|done|].
      exists (mkRecord 0 (OpOther "") 0 0 "" 0 "" TypeUnset 0 0 [] "" 0). split; [apply Hev|]. split; [|done].
      split; [intros h i c _ [[H'|H'] _]; discriminate H'|done]. }
    destruct (S0fsEngine.UnlinkWithInode env p n w) as [[j|e|] w']; simpl;
      [|eapply good_weaken; by eexists; apply Hm..].
    destruct H as (Hcl & r & Hop & Hev & Hj). exists w'. split.
    + apply (vinv_engine tr false [] er false hr _ w); [by eapply vinv_lax|done|]. exists r. split; [done|]. split; [|done].
      split; [|done]. intros h i c _ [[H'|H'] _]; by rewrite Hop in H'.
    + intros Hs k m Hk Hz. destruct (ev_zero _ _ _ Hev _ _ Hk Hz) as [(m' & Hm' & Hz')|[_ Hk']]; [|left; congruence].
      right. by apply (vi_orphans _ _ _ _ _ _ _ V Hs k m').
  - intros j. apply (t_bind tr strict _ _ (fun (b : bool) vc => if b then good tr strict [] false hr vc else
      exists w, vinv tr false [] false hr vc w /\ holders j (fileHandles (vc_handles vc)) = 0%nat /\ (strict = true -> orphans_but j (vc_handles vc) w))).
    2: { intros [|]; [apply t_ret|apply t_forget]. }
    intros s (w & V & Ho). unfold on_handles, MarkUnlinkedFileIfOpen. destruct (Z.eqb_spec (count_of (openFileCount (vc_handles (ss_vol s))) j) 0) as [E|E].
    + simpl. exists w. split; [|split].
      * by destruct V.
      * by apply holders_mark; [apply (vi_handles _ _ _ _ _ _ _ V)|].
      * exact Ho.
    + simpl. exists w. rewrite count_holders in E by apply (vi_handles _ _ _ _ _ _ _ V).
      destruct (holders_some (fileHandles (vc_handles (ss_vol s))) j) as [id Hid]; [lia|].
      destruct V as [E1 E2 E3 [? ? ?] E5 E6 E7 _ E9 E10 E11]. split; simpl; try done.
      intros Hs k m Hk Hz. destruct (Ho Hs k m Hk Hz) as [->|[Hu Hh]]; [|split; [by apply elem_of_union_r|done]]. split; [by apply elem_of_union_l, elem_of_singleton_2|by exists id].
Qed.

(** The tables after the handle [id] is gone. *)
Lemma release_ok h id dirs un :
  handles_ok h ->
  handles_ok (mkHandles (nextHandleID h) (delete id (fileHandles h)) dirs
    (if bool_decide (is_Some (fileHandles h !! id)) then drop_count (handle_inode h id) (openFileCount h) else openFileCount h) un).
Proof.
  intros H. split; simpl; [apply (ho_next h H)| |intros j; by apply drop_count_ok].
  intros k j (_ & Hk)%lookup_delete_Some. by apply (ho_ids h H k j).
Qed.

(** The volume after the handle [id], which is not the watched one, is gone. *)
Lemma vinv_release tr er hr vc w id dirs un :
  vinv tr false [] er hr vc w -> (forall h i c, tr = Some (h, i, c) -> h <> id) ->
  vinv tr false [] er hr
    (set_handles (mkHandles (nextHandleID (vc_handles vc)) (delete id (fileHandles (vc_handles vc))) dirs
       (if bool_decide (is_Some (fileHandles (vc_handles vc) !! id))
        then drop_count (handle_inode (vc_handles vc) id) (openFileCount (vc_handles vc)) else openFileCount (vc_handles vc)) un) vc) w.
Proof.
  intros V Hid. pose proof V as [E1 E2 E3 E4 E5 E6 E7 _ E9 E10 E11]. split; simpl; try done.
  - by apply release_ok.
  - intros k j (_ & Hk)%lookup_delete_Some. eauto.
  - intros h i c Ht. destruct (E7 _ _ _ Ht) as [H1 H2]. split; [|done]. rewrite lookup_delete_ne; [done|]. intros ->. by apply (Hid h i c).
Qed.

Lemma t_release tr strict er hr id :
  (forall h i c, tr = Some (h, i, c) -> h <> id) ->
  triple tr strict (good tr strict [] er hr)
    (let* '(inode, remaining, unlinked, ok) := on_handles (ReleaseFileHandle id) in
     if ok && (remaining =? 0) && unlinked then s0fs_ignore (S0fsEngine.Forget inode) else ret tt)
    (fun _ => good tr strict [] false hr).
Proof.
  intros Hid. apply (t_bind tr strict _ _ (fun (x : Z * Z * bool * bool) vc => let '(inode, remaining, unlinked, ok) := x in
    if ok && (remaining =? 0) && unlinked
    then exists w, vinv tr false [] false hr vc w /\ holders inode (fileHandles (vc_handles vc)) = 0%nat /\
                   (strict = true -> orphans_but inode (vc_handles vc) w)
    else good tr strict [] false hr vc)).
  2: { intros [[[inode remaining] unlinked] ok]. destruct (ok && _ && unlinked); [apply t_forget|apply t_ret]. }
  intros s [w V]. unfold on_handles, ReleaseFileHandle. set (h := vc_handles (ss_vol s)). set (i := handle_inode h id).
  set (counts := if bool_decide (is_Some _) then _ else _). set (un := if bool_decide (i ∈ unlinkedFiles h) && _ then _ else _).
  pose proof (vi_handles _ _ _ _ _ _ _ V) as Hok.
  pose proof (vinv_release tr false hr (ss_vol s) w id (dirHandleIDs h) un) as V'.
  assert (V0 : vinv tr false [] false hr (ss_vol s) w) by (eapply vinv_weaken; [..|eapply vinv_lax; exact V]; done).
  specialize (V' V0 Hid). simpl in V'. fold h i counts in V'.
  assert (Hrem : count_of counts i = Z.of_nat (holders i (delete id (fileHandles h)))).
  { pose proof (count_holders _ i (release_ok h id (dirHandleIDs h) un Hok)) as E. simpl in E. fold i counts in E. exact E. }
  assert (Hun : forall k, k <> i -> k ∈ unlinkedFiles h -> k ∈ un).
  { intros k Hk Hu. unfold un. destruct (_ && _); [|done]. apply elem_of_difference. split; [done|]. by intros ?%elem_of_singleton. }
  assert (Hor : strict = true -> orphans_but i (mkHandles (nextHandleID h) (delete id (fileHandles h)) (dirHandleIDs h) counts un) w).
  { intros Hs k n Hk Hz. destruct (vi_orphans _ _ _ _ _ _ _ V Hs k n Hk Hz) as [Hu [id' Hid']].
    destruct (decide (k = i)) as [->|Hki]; [by left|right]. simpl. split; [by apply Hun|]. exists id'.
    rewrite lookup_delete_ne; [done|]. intros ->. unfold i, handle_inode in Hki. fold h in Hid'. by rewrite Hid' in Hki. }
  destruct (bool_decide (is_Some (fileHandles h !! id)) && (count_of counts i =? 0) && bool_decide (i ∈ unlinkedFiles h)) eqn:Eb; simpl;
    exists w.
  - rewrite !andb_true_iff in Eb. destruct Eb as [[_ Hz%Z.eqb_eq] _]. split; [exact V'|]. split; [simpl; lia|done].
  - destruct V' as [E1 E2 E3 E4 E5 E6 E7 _ E9 E10 E11]. split; try done. intros Hs k n Hk Hz.
    destruct (Hor Hs k n Hk Hz) as [->|?]; [|done].
    destruct (vi_orphans _ _ _ _ _ _ _ V Hs i n Hk Hz) as [Hu [id' Hid']]. fold h in Hu, Hid'. simpl. clear Hor.
    destruct (decide (is_Some (fileHandles h !! id))) as [Hsome|Hnone].
    2: { assert (Hi : i = 0) by (unfold i, handle_inode; destruct (fileHandles h !! id); [by destruct Hnone|done]).
         destruct (wf_node _ (vi_wf _ _ _ _ _ _ _ V) _ _ Hk) as (_ & ? & _). lia. }
    rewrite bool_decide_eq_true_2, (bool_decide_eq_true_2 (i ∈ _)) in Eb by done. simpl in Eb. rewrite andb_true_r in Eb.
    apply Z.eqb_neq in Eb. split; [|apply holders_some; lia]. unfold un. rewrite bool_decide_eq_true_2 by done. simpl.
    by rewrite (proj2 (Z.eqb_neq _ _) Eb).
Qed.

(** [ReleaseDir]: of a directory handle when the volume is strict. *)
Lemma t_release_dir tr strict id :
  (forall h i c, tr = Some (h, i, c) -> h <> id) ->
  triple tr strict (fun vc => good tr strict [] false false vc /\ (strict = true -> fileHandles (vc_handles vc) !! id = None))
    (ReleaseDir_body id) (fun _ => good tr strict [] false false).
Proof.
  intros Hid s ((w & V) & Hdir). unfold ReleaseDir_body, bind, on_handles, ReleaseHandle. simpl. exists w.
  pose proof (vinv_release tr false false (ss_vol s) w id (delete id (dirHandleIDs (vc_handles (ss_vol s)))) (unlinkedFiles (vc_handles (ss_vol s)))
    (vinv_lax _ _ _ _ _ _ _ V) Hid) as [E1 E2 E3 E4 E5 E6 E7 _ E9 E10 E11].
  split; try done. intros Hs k n Hk Hz. simpl. rewrite delete_id by auto. by apply (vi_orphans _ _ _ _ _ _ _ V Hs k n).
Qed.

End freeing.

(** The node that a creation returns. *)
Lemma create_file_result `{CR : ColdReader} env p n m w node w' :
  wf (core (eng w)) -> headroom w -> S0fsEngine.CreateFile env p n m w = (Ok (Some node), w') ->
  Nodes (core (eng w')) !! n_Inode node = Some node /\ is_dir node = false.
Proof.
  intros W [Hr _]. unfold S0fsEngine.CreateFile, create. unfold bind at 1. rewrite checkOpen_eq. destruct (closed (eng w)); [done|].
  case_decide; [done|]. unfold bind at 1. rewrite (run_core_guard _ w _ (ensureDir_wf _ p W)).
  destruct (match Nodes (core (eng w)) !! p with Some _ => _ | None => _ end); [|done..].
  unfold bind at 1, get. destruct (dir_of _ p !! n); [done|]. unfold bind at 1, newRecord. unfold bind at 1, gets at 1.
  set (w1 := set_eng _ w). assert (W1 : wf (core (eng w1))) by (by apply wf_set_NextSeq).
  set (r := mkRecord _ OpCreate _ p n 0 "" TypeFile m 0 [] "" _). unfold bind.
  destruct (log_apply env r w1) as [[[]|e|] w2] eqn:El; [|done..]. unfold gets. intros [= Hn <-].
  destruct (log_apply_inv _ _ _ _ _ El) as (s' & Ha & Es & _). change (applyCreate r (core (eng w1)) = (Ok tt, s')) in Ha.
  assert (Hi : NextInode (core (eng w1)) <= r_Inode r < 2 ^ 64 - 1) by (simpl; simpl in Hr; lia).
  destruct (applyCreate_cases (core (eng w1)) r W1 Hi) as [[e He]|(He & _)]; rewrite He in Ha; [done|]. injection Ha as Ha.
  rewrite Es, <- Ha in *. unfold add_node in *. simpl in *. rewrite lookup_insert_eq in Hn. injection Hn as <-. simpl.
  by rewrite lookup_insert_eq.
Qed.

Section all.
Context `{CR : ColdReader}.
Context (tr : option (Z * Z * gores (list byte))) (strict : bool).
Abbreviation G := (good tr strict).
Abbreviation T := (triple tr strict).

(** The inode is not the one that is watched. *)
Definition unwatched (i : Z) : Prop := forall h j c, tr = Some (h, j, c) -> i <> j.
Definition unheld (id : Z) : Prop := forall h j c, tr = Some (h, j, c) -> h <> id.

Lemma harmless_op op r : op <> OpWrite -> op <> OpTruncate -> op <> OpUnlink -> op_is op r -> harmless tr strict r.
Proof. unfold op_is. intros H1 H2 H3 E. split; [|by rewrite E]. intros h i c _ [[H|H] _]; congruence. Qed.

Lemma harmless_on op i r : unwatched i -> op <> OpUnlink -> op_on op i r -> harmless tr strict r.
Proof. intros Hu H [E1 E2]. split; [|by rewrite E1]. intros h j c Ht [_ Hj]. apply (Hu h j c Ht). congruence. Qed.

Lemma t_chown fs er hr wrap env i u g : T (G fs er hr) (on_vol (on_engine wrap (S0fsEngine.SetOwner env i u g))) (fun _ => G fs er hr).
Proof.
  apply (t_runs tr strict fs er er hr wrap _ (op_is OpChown)); [intros; apply SetOwner_runs|intros r; by apply harmless_op|].
  intros H. split; [done|]. unfold op_is. by intros r ->.
Qed.

Lemma t_chmod fs er hr wrap env i m : T (G fs er hr) (on_vol (on_engine wrap (S0fsEngine.SetMode env i m))) (fun _ => G fs er hr).
Proof.
  apply (t_runs tr strict fs er er hr wrap _ (op_is OpChmod)); [intros; apply SetMode_runs|intros r; by apply harmless_op|].
  intros H. split; [done|]. unfold op_is. by intros r ->.
Qed.

Lemma t_truncate fs er hr wrap env i k : unwatched i -> T (G fs er hr) (on_vol (on_engine wrap (S0fsEngine.Truncate env i k))) (fun _ => G fs er hr).
Proof.
  intros Hu. apply (t_runs tr strict fs er er hr wrap _ (op_on OpTruncate i)); [intros; apply Truncate_runs|intros r; by apply harmless_on|].
  intros H. split; [done|]. by intros r [-> _].
Qed.

Lemma t_write fs er hr wrap env i o d : unwatched i -> T (G fs er hr) (on_vol (on_engine wrap (S0fsEngine.Write env i o d))) (fun _ => G fs er hr).
Proof.
  intros Hu. apply (t_runs tr strict fs er er hr wrap _ (op_on OpWrite i)); [intros; apply Write_runs|intros r; by apply harmless_on|].
  intros H. split; [done|]. by intros r [-> _].
Qed.

Lemma t_rename fs er hr wrap env p n p' n' :
  T (G fs er hr) (on_vol (on_engine wrap (S0fsEngine.Rename env p n p' n'))) (fun _ => G fs er hr).
Proof.
  apply (t_runs tr strict fs er er hr wrap _ (op_is OpRename)); [intros; by apply Rename_runs|intros r; by apply harmless_op|].
  intros H. split; [done|]. unfold op_is. by intros r ->.
Qed.

Lemma t_rmdir fs er hr wrap env p n : T (G fs er hr) (on_vol (on_engine wrap (S0fsEngine.RemoveDir env p n))) (fun _ => G fs er hr).
Proof.
  apply (t_runs tr strict fs er er hr wrap _ (op_is OpRmdir)); [intros; by apply RemoveDir_runs|intros r; by apply harmless_op|].
  intros H. split; [done|]. unfold op_is. by intros r ->.
Qed.

Lemma t_link fs hr wrap env i p n : T (G fs true hr) (on_vol (on_engine wrap (S0fsEngine.Link env i p n))) (fun _ => G fs false hr).
Proof.
  apply (t_runs tr strict fs true false hr wrap _ (op_is OpLink)); [intros; apply Link_runs; auto|intros r; by apply harmless_op|done].
Qed.

Lemma t_create fs hr wrap env p n t m tgt : T (G fs true hr) (on_vol (on_engine wrap (create env p n t m tgt))) (fun _ => G fs false hr).
Proof.
  apply (t_runs tr strict fs true false hr wrap _ (op_is OpCreate)); [intros; apply create_runs; auto|intros r; by apply harmless_op|done].
Qed.

(** A creation of a file gives a file. *)
Lemma t_create_file fs hr wrap env p n m :
  T (G fs true hr) (on_vol (on_engine wrap (S0fsEngine.CreateFile env p n m)))
    (fun made vc => match made with Some node => G (n_Inode node :: fs) false hr vc | None => G fs false hr vc end).
Proof.
  intros s Hs. pose proof (t_create fs hr wrap env p n TypeFile m "" s Hs) as H. destruct Hs as [w V].
  unfold on_vol, on_engine in *. fold (S0fsEngine.CreateFile env p n m) in H. rewrite (vi_world _ _ _ _ _ _ _ V) in *.
  destruct (S0fsEngine.CreateFile env p n m w) as [[[node|]|e|] w'] eqn:E; simpl in *; try done.
  destruct (create_file_result _ _ _ _ _ _ _ (vi_wf _ _ _ _ _ _ _ V) (vi_er _ _ _ _ _ _ _ V eq_refl) E) as [Hn Hd].
  destruct H as [w'' V']. pose proof (vi_world _ _ _ _ _ _ _ V') as Ew. injection Ew as <-. exists w'.
  destruct V'. split; auto. intros j [->|Hj]%elem_of_cons; [by exists node|auto].
Qed.

Lemma t_done {A} fs er hr (a : A) : T (G fs er hr) (ret a) (fun _ => G [] false false).
Proof. intros s H. by apply good_weaken in H. Qed.

Lemma t_final {A} fs er hr (m : Body A) : elsewhere m -> T (G fs er hr) m (fun _ => G [] false false).
Proof. intros H. eapply t_post; [by apply t_elsewhere|]. intros a vc. apply good_weaken. Qed.

End all.

(** One statement of a body. *)
Ltac engine_call :=
  first [ apply t_looks_good; intros; first [apply GetAttr_same | apply Read_same | apply Fsync_same | by apply Lookup_same | by apply ReadDir_same]
        | apply t_chown | apply t_chmod | by apply t_truncate | by apply t_write | apply t_rename | apply t_rmdir | apply t_link | apply t_create ].

Ltac body_step :=
  lazymatch goal with
  | |- triple _ _ _ (bind (bind _ _) _) _ => idtac
  | |- triple _ _ _ (bind (s0fs _) _) _ => eapply t_bind; [engine_call | intros ?]
  | |- triple _ _ _ (bind (s0fs_internal _) _) _ => eapply t_bind; [engine_call | intros ?]
  | |- triple _ _ _ (bind (lift_res _) _) _ =>
      eapply t_bind; [apply t_lift | intros ?]
  | |- triple _ _ _ (bind (match ?x with _ => _ end) _) _ => destruct x
  | |- triple _ _ _ (bind (ret _) _) _ => eapply t_bind; [apply t_ret | intros ?]
  | |- triple _ _ _ (bind _ _) _ => eapply t_bind; [apply t_elsewhere; apply elsewhere_rest | intros ?]
  | |- triple _ _ _ (match ?x with _ => _ end) _ => destruct x
  | |- triple _ _ _ (ret _) _ => apply t_done
  | |- triple _ _ _ (throw _) _ => apply t_throw
  | |- triple _ _ _ panic _ => apply t_panic
  | |- triple _ _ _ (publishEvent _ _) _ =>
      eapply t_final; apply elsewhere_rest
  | |- triple _ _ _ (clearDirtyWrite _ _) _ =>
      eapply t_final; apply elsewhere_rest
  end.

Section handlers.
Context `{CR : ColdReader}.
Context (tr : option (Z * Z * gores (list byte))) (strict : bool) (ctx : Ctx) (v : string).
Abbreviation G := (good tr strict).
Abbreviation T := (triple tr strict).
Abbreviation keeps b := (T (G [] true true) b (fun _ => G [] false false)).

Lemma b_GetAttr i : keeps (GetAttr_body i).
Proof. unfold GetAttr_body. repeat body_step. Qed.
Lemma b_Lookup p n : keeps (Lookup_body p n).
Proof. unfold Lookup_body. repeat body_step. Qed.
Lemma b_Read i o k : keeps (Read_body i o k).
Proof. unfold Read_body. repeat body_step. Qed.
Lemma b_Write i o d h : unwatched tr i -> keeps (Write_body ctx v i o d h).
Proof. intros Hu. unfold Write_body. repeat body_step. Qed.
Lemma b_Rename p n p' n' : keeps (Rename_body ctx v p n p' n').
Proof.
  unfold Rename_body. repeat body_step.
Qed.
Lemma b_Rmdir p n : keeps (Rmdir_body ctx v p n).
Proof. unfold Rmdir_body. repeat body_step. Qed.
Lemma b_Link i p n : keeps (Link_body ctx v i p n).
Proof. unfold Link_body. repeat body_step. Qed.
Lemma b_Readlink i : keeps (Readlink_body i).
Proof. unfold Readlink_body. repeat body_step. Qed.

Lemma b_Access i m u g a : keeps (Access_body i m u g a).
Proof.
  unfold Access_body. repeat body_step. eapply t_post; [apply t_lift|]. intros ? ?. apply good_weaken.
Qed.

Lemma b_OpenDir i : keeps (OpenDir_body i).
Proof. unfold OpenDir_body. repeat body_step. eapply t_post; [apply t_open_dir|]. intros ? ?. apply good_weaken. Qed.

Lemma b_entries plus pos es : T (G [] true true) (list_entries plus pos es) (fun _ => G [] true true).
Proof.
  revert pos. induction es as [|e es IH]; intros pos; [apply t_ret|]. simpl.
  eapply t_bind; [|intros a; eapply t_bind; [apply IH|intros items; apply t_ret]].
  destruct plus; [|apply t_ret]. body_step. apply t_ret.
Qed.

Lemma b_ReadDir i o plus : keeps (ReadDir_body i o plus).
Proof. unfold ReadDir_body. body_step. eapply t_post; [apply b_entries|]. intros ? ?. apply good_weaken. Qed.

Lemma vinv_set_id fs er hr vc w : vinv tr strict fs er hr vc w -> set_S0FS (Some w) vc = vc.
Proof. intros V. pose proof (vi_world _ _ _ _ _ _ _ V) as Hv. destruct vc. simpl in *. by subst. Qed.

Lemma vinv_ensure fs er hr env uid gid vc :
  G fs er hr vc -> G fs er hr (EnsureLazyRootPosixIdentity env uid gid vc).2.
Proof.
  intros [w V]. unfold EnsureLazyRootPosixIdentity. unfold bind at 1, get. rewrite (vi_world _ _ _ _ _ _ _ V).
  destruct (_ && _); [by exists w|]. set (root := if vc_RootInode vc =? 0 then 1 else _). unfold bind.
  pose proof (GetAttr_same root w) as Hs. unfold on_engine at 1. rewrite (vi_world _ _ _ _ _ _ _ V).
  destruct (S0fsEngine.GetAttr root w) as [[n|e|] w']; simpl in Hs; subst w'; rewrite (vinv_set_id _ _ _ _ _ V); [|by exists w..].
  destruct (_ && _); [by exists w|]. destruct (_ || _); [by exists w|]. unfold on_engine. rewrite (vi_world _ _ _ _ _ _ _ V).
  pose proof (vinv_runs tr strict fs er er hr vc w _ (op_is OpChown) V (SetOwner_runs env root uid gid w)) as V'.
  destruct (S0fsEngine.SetOwner env root uid gid w) as [r w']. exists w'. apply V'.
  - intros x. by apply harmless_op.
  - intros H. split; [done|]. unfold op_is. by intros x ->.
Qed.

Lemma t_ensure fs er hr env actor i : T (G fs er hr) (ensureLazyRootPosixIdentity env actor i) (fun _ => G fs er hr).
Proof.
  unfold ensureLazyRootPosixIdentity. body_step. destruct actor as [[uid [|gid gs]]|]; [apply t_ret| |apply t_ret].
  destruct (_ =? _); [|apply t_ret]. intros s Hs%(vinv_ensure _ _ _ env uid gid). unfold on_vol.
  destruct (EnsureLazyRootPosixIdentity env uid gid (ss_vol s)) as [[u|e|] vc]; simpl in *; [done|by eapply good_weaken..].
Qed.

Lemma t_sync fs er hr env i : T (G fs er hr) (syncS0FSHandle env i) (fun _ => G fs er hr).
Proof.
  unfold syncS0FSHandle. body_step. destruct (vc_S0FS _); [|apply t_ret]. destruct (_ =? _); [apply t_ret|]. engine_call.
Qed.


(** What is known of the created inode. *)
Lemma t_create_body p n actor make (F : Z -> list Z) :
  (forall env, T (G [] true true) (s0fs (make env))
     (fun made vc => match made with Some node => G (F (n_Inode node)) false true vc | None => G [] false true vc end)) ->
  T (G [] true true) (create_body ctx v p n actor make) (fun node => G (F (n_Inode node)) false true).
Proof.
  intros Hm. unfold create_body. eapply t_bind; [apply t_ensure|]. intros ?. body_step. eapply t_bind; [apply Hm|].
  intros [node|]; [|apply t_panic]. eapply (t_bind tr strict _ _ (fun n' => G (F (n_Inode n')) false true)).
  - destruct actor as [[uid [|gid gs]]|]; [by intros s| |by intros s]. body_step.
    eapply t_post; [apply t_GetAttr|]. intros n' vc [E [w V]]. rewrite E. exists w. eapply vinv_weaken; [..|exact V]; try done.
    intros j Hj. destruct (is_dir n'); [done|by right].
  - intros n'. body_step. eapply t_bind; [apply t_elsewhere; apply elsewhere_rest|]. by intros ? s.
Qed.

Lemma t_created p n actor make (k : Node -> Body NodeResponse) (F : Z -> list Z) :
  (forall env, T (G [] true true) (s0fs (make env))
     (fun made vc => match made with Some node => G (F (n_Inode node)) false true vc | None => G [] false true vc end)) ->
  (forall node, T (G (F (n_Inode node)) false true) (k node) (fun _ => G [] false false)) ->
  keeps (bind (create_body ctx v p n actor make) k).
Proof. intros Hm Hk. eapply t_bind; [by apply t_create_body|]. done. Qed.

Lemma b_Create p n m a : keeps (Create_body ctx v p n m a).
Proof.
  apply (t_created _ _ _ _ _ (fun i => [i])).
  - intros env. eapply t_post; [apply t_create_file|]. by intros [node|] vc.
  - intros node. eapply t_bind; [apply t_open_handle; by constructor|]. intros h. apply t_done.
Qed.

Lemma made_any er (made : option Node) vc : G [] er true vc -> match made with Some _ => G [] er true vc | None => G [] er true vc end.
Proof. by destruct made. Qed.

Lemma b_Mkdir p n m a : keeps (Mkdir_body ctx v p n m a).
Proof.
  apply (t_created _ _ _ _ _ (fun i => [])); [|intros node; apply t_done].
  intros env. eapply t_post; [apply t_create|]. intros made vc. apply made_any.
Qed.

Lemma b_Symlink p n t a : keeps (Symlink_body ctx v p n t a).
Proof.
  apply (t_created _ _ _ _ _ (fun i => [])); [|intros node; apply t_done].
  intros env. unfold S0fsEngine.Symlink. case_decide.
  - eapply t_post; [by apply t_looks_good|]. intros made vc [w V]. apply made_any. exists w. by eapply vinv_weaken; [..|exact V].
  - eapply t_post; [apply t_create|]. intros made vc. apply made_any.
Qed.

Lemma b_open i fl a : (has_bit fl O_TRUNC = true -> unwatched tr i) -> keeps (openS0FS ctx v i fl a).
Proof.
  intros Hu. unfold openS0FS. eapply t_bind; [apply t_GetAttr|]. intros n. cbv beta. destruct (is_dir n) eqn:Hd.
  { eapply t_pre; [|apply (t_throw _ _ [] true true)]. by intros vc [_ H]. }
  apply (t_pre tr strict (fun vc => n_Inode n = i /\ G [i] true true vc)); [done|].
  intros s [Hi Hs]. revert s Hs. change (T (G [i] true true) (do* lift_res (checkS0FSAccess n a (s0fsOpenAccessMask fl)) in
    do* (if has_bit fl O_TRUNC then do* s0fs (S0fsEngine.Truncate (cx_env ctx 0%nat) i 0) in let* s := get in
           publishEvent ctx (path_event v EVENT_WRITE (resolveInodePath (ss_vol s) i) i) else ret tt) in
    on_handles (OpenFileHandle (n_Inode n))) (fun _ => G [] false false)).
  body_step. eapply (t_bind tr strict _ _ (fun _ => G [i] true true)).
  - destruct (has_bit fl O_TRUNC); [|apply t_ret]. specialize (Hu eq_refl). repeat body_step. apply t_elsewhere, elsewhere_rest.
  - intros ?. eapply t_post; [apply t_open_handle; rewrite Hi; by constructor|]. intros h vc. apply good_weaken.
Qed.

Lemma b_SetAttr i valid attr : (has_bit valid SetAttrSize = true -> unwatched tr i) -> keeps (SetAttr_body ctx v i valid attr).
Proof.
  intros Hu. unfold SetAttr_body. body_step.
  assert (Hskip : forall (b : bool) (m : Body unit), (b = true -> T (G [] true true) m (fun _ => G [] true true)) ->
    T (G [] true true) (if b then m else ret tt) (fun _ => G [] true true)) by (intros [|] m Hm; [by apply Hm|apply t_ret]).
  eapply t_bind; [apply Hskip; intros _; engine_call|]. intros ?.
  eapply t_bind; [apply Hskip; intros _; body_step; engine_call|]. intros ?.
  eapply t_bind; [apply Hskip; intros Hb; specialize (Hu Hb); engine_call|]. intros ?. repeat body_step.
Qed.

Lemma b_Flush h : keeps (Flush_body ctx v h).
Proof.
  unfold Flush_body. body_step. destruct (_ : option dirtyWriteHandle) as [d|]; [|apply t_done].
  eapply t_bind; [apply t_sync|]. intros ?. body_step.
Qed.

Lemma b_Fsync h : keeps (Fsync_body ctx v h).
Proof.
  unfold Fsync_body. eapply (t_bind tr strict _ _ (fun _ => G [] true true)).
  { intros s [w V]. exists w. by destruct V. }
  intros opened. body_step. destruct (match a with Some _ => _ | None => _ end) as [i|]; [|apply t_done].
  destruct (i =? 0); [apply t_done|]. eapply t_bind; [apply t_sync|]. intros ?. body_step.
Qed.

Lemma t_keep_err {A} fs er hr (m : Body A) : T (G fs er hr) m (fun _ => G fs er hr) -> T (G fs er hr) (keep_err m) (fun _ => G [] false false).
Proof.
  intros Hm s Hs. specialize (Hm s Hs). unfold keep_err. destruct (m s) as [[a|e|] s']; [|done..]. by eapply good_weaken.
Qed.

Lemma t_ext {A} P (m m' : Body A) Q : (forall s, m s = m' s) -> T P m' Q -> T P m Q.
Proof. intros E H s HP. rewrite E. by apply H. Qed.

Lemma b_Release h : unheld tr h -> keeps (Release_body ctx v h).
Proof.
  intros Hu. unfold Release_body. body_step. eapply (t_bind tr strict _ _ (fun _ => G [] false false)).
  - destruct (_ : option dirtyWriteHandle); [apply t_keep_err, t_sync|apply t_done].
  - intros syncErr. eapply (t_ext _ _ (bind (let* '(inode, remaining, unlinked, ok) := on_handles (ReleaseFileHandle h) in
       if ok && (remaining =? 0) && unlinked then s0fs_ignore (S0fsEngine.Forget inode) else ret tt)
       (fun _ => do* clearDirtyWrite v h in match syncErr with Some e => throw e | None => ret tt end))).
    { intros s. unfold bind. by destruct (on_handles _ s) as [[[[[i r] u] ok]|e|] s']. }
    eapply t_bind; [by apply t_release|]. intros ?. repeat body_step.
Qed.

Lemma b_Unlink p n : keeps (Unlink_body ctx v p n).
Proof.
  unfold Unlink_body. body_step. set (path := resolveChildPath _ _ _).
  eapply (t_ext _ _ (bind (let* inode := s0fs (S0fsEngine.UnlinkWithInode (cx_env ctx 0%nat) p n) in
     let* marked := on_handles (MarkUnlinkedFileIfOpen inode) in
     do* (if marked then ret tt else s0fs_ignore (S0fsEngine.Forget inode)) in ret inode)
     (fun inode => publishEvent ctx (path_event v EVENT_REMOVE path inode)))).
  { intros s. unfold bind. destruct (s0fs _ s) as [[i|e|] s']; [|done..].
    destruct (on_handles _ s') as [[mk|e|] s'']; [|done..]. destruct mk; [done|]. by destruct (s0fs_ignore _ s'') as [[]]. }
  eapply (t_bind tr strict _ _ (fun _ => G [] false true)); [|intros ?; body_step].
  intros s Hs. pose proof (t_unlink tr strict true true (cx_env ctx 0%nat) p n s Hs) as H. unfold bind in *.
  destruct (s0fs _ s) as [[i|e|] s']; [|done..]. destruct (on_handles _ s') as [[mk|e|] s'']; [|done..].
  destruct mk; [done|]. by destruct (s0fs_ignore _ s'') as [[]].
Qed.

Lemma b_ReleaseDir h : unheld tr h ->
  T (fun vc => G [] true true vc /\ (strict = true -> fileHandles (vc_handles vc) !! h = None)) (ReleaseDir_body h) (fun _ => G [] false false).
Proof.
  intros Hu. eapply t_pre; [|by apply t_release_dir]. intros vc [H1 H2]. split; [by eapply good_weaken|done].
Qed.

End handlers.
