(* ===== verification/FsServerLife.v ===== *)
(** * The file system server: the life of files

    The invariant of the open files, for every request of the server and every run. *)

From stdpp Require Import base gmap strings list fin_maps numbers sorting.
From Stdlib Require Import Strings.Byte Strings.Ascii.
From S2P Require Import Prelude GoStd GoNet S0fsTypes S0fsCore S0fsEngine S0fsInv S0fsSafety S0fsFiles Volume Notify Naming FsServer VolumeSpec FsServerSpec FsServerFiles.

Local Open Scope Z_scope.

(** What the server relies on of a backend: an s0fs volume that it mounts comes with an
    engine that is in use, well formed and without unlinked files, and with no handle. *)
Class BackendFresh (B X : Type) `{Backend B X} : Prop := {
  be_mount_fresh : forall b req x vc x', be_MountVolume b req x = (Ok vc, x') -> IsS0FS vc = true ->
    vc_handles vc = no_handles /\
    exists w, vc_S0FS vc = Some w /\ closed (eng w) = false /\ wf (core (eng w)) /\
      forall j n, Nodes (core (eng w)) !! j = Some n -> n_Nlink n <> 0
}.

Section life.
Context {B X : Type} `{UP : UnicodeUpper} `{CR : ColdReader} `{BK : Backend B X} `{RG : MountRegistrar X} `{!BackendFresh B X}.
Context (cfg : Config).
Implicit Types s : Server B X.
Abbreviation Srv := (ST srv_error (Server B X)).

Definition vols s : gmap string VolumeContext := mg_volumes (sv_mgr s).1.

(** Room for one more inode, link and handle on every volume. *)
Definition roomy s : Prop := forall v vc w, vols s !! v = Some vc -> vc_S0FS vc = Some w ->
  headroom w /\ nextHandleID (vc_handles vc) < 2 ^ 64 - 1.

(** The request on a volume leaves the watched handle and the content of its file
    alone; when the volume is strict, it does not release a file as a directory. *)
Definition allowed (tr : option (Z * Z * gores (list byte))) (strict : bool) (vc : VolumeContext) (r : Request) : Prop :=
  match r with
  | RWrite i _ _ _ => unwatched tr i
  | ROpen i flags _ => has_bit flags O_TRUNC = true -> unwatched tr i
  | RSetAttr i valid _ => has_bit valid SetAttrSize = true -> unwatched tr i
  | RRelease id => unheld tr id
  | RReleaseDir id => unheld tr id /\ (strict = true -> fileHandles (vc_handles vc) !! id = None)
  | RUnmount _ => tr = None
  | _ => True
  end.

(** A volume is good unless it is not an s0fs volume. *)
Definition fine tr strict (vc : VolumeContext) : Prop := IsS0FS vc = true -> good tr strict [] false false vc.

Lemma good_s0fs tr strict fs er hr vc : good tr strict fs er hr vc -> IsS0FS vc = true.
Proof. intros [w V]. unfold IsS0FS. by rewrite (vi_kind _ _ _ _ _ _ _ V), (vi_world _ _ _ _ _ _ _ V). Qed.

Lemma good_roomy tr strict s v vc :
  roomy s -> vols s !! v = Some vc -> good tr strict [] false false vc -> good tr strict [] true true vc.
Proof.
  intros Hr Hv [w V]. destruct (Hr v vc w Hv (vi_world _ _ _ _ _ _ _ V)) as [H1 H2]. exists w. destruct V. by split.
Qed.

(** *** The calls that work on one volume *)

(** The table after a call on volume [v]: unchanged, or with a new context at [v]. *)
Definition updates (v : string) (P : VolumeContext -> VolumeContext -> Prop) {A} (m : Srv A) : Prop := forall s,
  vols (m s).2 = vols s \/
  exists vc vc', vols s !! v = Some vc /\ vols (m s).2 = <[v := vc']> (vols s) /\ P vc vc'.

(** The contexts that the body turns into one another. *)
Definition by_body {A} (b : Body A) (vc vc' : VolumeContext) : Prop :=
  IsS0FS vc = true /\ exists hub dirty, vc' = ss_vol (b (mkSess vc hub dirty)).2.

Lemma authorize_some ctx v t vc : authorize cfg ctx v t = Ok vc -> t !! v = Some vc.
Proof.
  unfold authorize. destruct (cx_claims ctx) as [c|]; [|done]. destruct (t !! v) as [vc'|]; [|done].
  destruct (IsSystemToken c); [congruence|]. case_decide; [done|]. destruct (owner_team cfg v vc') as [o|e|]; simpl; [|done..].
  repeat case_decide; congruence.
Qed.

Lemma updates_auth ctx v P {A} (k : VolumeContext -> Srv A) :
  (forall vc s, vols s !! v = Some vc -> vols (k vc s).2 = vols s \/
      exists vc', vols (k vc s).2 = <[v := vc']> (vols s) /\ P vc vc') ->
  updates v P (let* vc := getAuthorizedMountedVolume cfg ctx v in k vc).
Proof.
  intros Hk s. unfold bind. rewrite authorize_eq. destruct (authorize cfg ctx v (mg_volumes (sv_mgr s).1)) as [vc|e|] eqn:Ea; [|by left..].
  pose proof (authorize_some _ _ _ _ Ea) as Hv. destruct (Hk vc s Hv) as [?|(vc' & ? & ?)]; [by left|right; eauto].
Qed.

Lemma run_updates {A} v vc (b : Body A) s : IsS0FS vc = true ->
  exists vc', vols (run_body v vc b s).2 = <[v := vc']> (vols s) /\ by_body b vc vc'.
Proof.
  intros Hi. unfold run_body. destruct (b _) as [r b'] eqn:E. simpl. eexists. split; [reflexivity|]. split; [done|].
  exists (sv_hub s), (sv_dirty s). by rewrite E.
Qed.

Lemma on_s0fs_updates {A} v vc (b : Body A) s :
  vols (on_s0fs v vc b s).2 = vols s \/ exists vc', vols (on_s0fs v vc b s).2 = <[v := vc']> (vols s) /\ by_body b vc vc'.
Proof. unfold on_s0fs. destruct (isS0FSVolume vc) eqn:Hi; [right; by apply run_updates|by left]. Qed.

Lemma updates_reading ctx v {A} (b : Body A) : updates v (by_body b) (reading cfg ctx v b).
Proof. apply updates_auth. intros vc s _. apply on_s0fs_updates. Qed.

Lemma updates_mutation ctx v P {A} (k : VolumeContext -> Srv A) :
  (forall vc s, vols s !! v = Some vc -> vols (k vc s).2 = vols s \/
      exists vc', vols (k vc s).2 = <[v := vc']> (vols s) /\ P vc vc') ->
  updates v P (withAuthorizedVolumeMutation cfg ctx v k).
Proof.
  intros Hk. assert (H : updates v P (do* requireLocalPrimary v in let* vc := getAuthorizedMountedVolume cfg ctx v in k vc)).
  { intros s. pose proof (updates_auth ctx v P k Hk s) as H.
    assert (Hp : requireLocalPrimary v s = (Ok tt, s) \/ exists e, requireLocalPrimary v s = (Err e, s)).
    { unfold requireLocalPrimary, bind, get. destruct (rt_LocalPrimary _); [by left|right; by eexists]. }
    set (m := let* vc := getAuthorizedMountedVolume cfg ctx v in k vc) in *. destruct Hp as [Hp|[e Hp]].
    - assert (E : (do* requireLocalPrimary v in m) s = m s) by (unfold bind; by rewrite Hp). by rewrite E.
    - left. unfold bind. by rewrite Hp. }
  unfold withAuthorizedVolumeMutation. destruct (cf_barrier cfg) as [bar|]; [|done]. destruct (bar v); [by left|done].
Qed.

Lemma updates_mutating ctx v {A} (b : Body A) : updates v (by_body b) (mutating cfg ctx v b).
Proof. apply updates_mutation. intros vc s _. apply on_s0fs_updates. Qed.

Lemma updates_open ctx v i fl a : updates v (by_body (openS0FS ctx v i fl a)) (FsServer.Open cfg ctx v i fl a).
Proof.
  apply updates_auth. intros vc s Hv. destruct (isS0FSVolume vc) eqn:Hi; [|by left].
  destruct (has_bit fl O_TRUNC); [|right; by apply run_updates].
  destruct (updates_mutation ctx v (fun vc1 vc' => vc1 = vc -> by_body (openS0FS ctx v i fl a) vc vc')
    (fun vc => run_body v vc (openS0FS ctx v i fl a))) with (s := s) as [?|(vc1 & vc' & H1 & H2 & H3)].
  - intros vc1 s1 _. right. destruct (run_updates v vc (openS0FS ctx v i fl a) s1 Hi) as (vc' & E & Hb).
    unfold run_body in *. destruct (openS0FS _ _ _ _ _ (mkSess vc1 _ _)) as [r b] eqn:Eb. simpl. eexists. split; [reflexivity|].
    intros ->. split; [done|]. exists (sv_hub s1), (sv_dirty s1). by rewrite Eb.
  - by left.
  - right. exists vc'. split; [done|]. apply H3. congruence.
Qed.

(** *** Mounting and unmounting *)

(** A context that the backend gave. *)
Definition mounted (vc : VolumeContext) : Prop := exists b req x x', be_MountVolume b req x = (Ok vc, x').

Ltac reg_case :=
  match goal with |- context [(if reg_present then ?a else ?b) ?g] => destruct ((if reg_present then a else b) g) as [[[]|?|] [? ?]] end.

Lemma bring_up_mounted v mode req backend (g : Manager B * X) vc g' :
  bring_up v mode req backend g = (Ok vc, g') -> mounted vc.
Proof.
  unfold bring_up. unfold bind at 1. reg_case; [|done..].
  destruct backend as [b|e|]; [|unfold bind; by reg_case|done].
  unfold bind at 1, attempt at 1, ext at 1. simpl. match goal with |- context [be_MountVolume b req ?x] => destruct (be_MountVolume b req x) as [[vc'|e|] x2] eqn:E end; simpl.
  - intros [= <- _]. by eexists b, req, _, x2.
  - unfold bind. by reg_case.
  - done.
Qed.

Lemma mount_effect sid now pfx v team mode wrap s :
  team <> "" ->
  vols (on_mgr wrap (Volume.MountVolume sid now pfx v team mode) s).2 = vols s \/
  exists vc, vols s !! v = None /\ vols (on_mgr wrap (Volume.MountVolume sid now pfx v team mode) s).2 = <[v := vc]> (vols s) /\ mounted vc.
Proof.
  intros Ht. unfold on_mgr, vols. destruct (sv_mgr s) as [m x] eqn:Em. cbn [fst snd].
  destruct (mg_volumes m !! v) as [vc|] eqn:Ev.
  - left. unfold Volume.MountVolume. rewrite decide_False by done. unfold bind at 1, mgr_get, gets. cbn [fst]. rewrite Ev.
    case_decide; [done|]. by case_decide.
  - rewrite mount_new by done. set (req := mkMountRequest _ _ _ _ _).
    destruct (blind_bring_up v (NormalizeAccessMode mode) req (selectBackend m) m x ∅) as (_ & V & _). unfold bind.
    destruct (bring_up v (NormalizeAccessMode mode) req (selectBackend m) (m, x)) as [[vc|e|] [m' x']] eqn:Eb; simpl in *; [|by left..].
    right. exists vc. rewrite V. split; [done|]. split; [done|]. by eapply bring_up_mounted.
Qed.

Lemma unmount_effect v sid wrap s :
  vols (on_mgr wrap (Volume.UnmountVolume v sid) s).2 = vols s \/ vols (on_mgr wrap (Volume.UnmountVolume v sid) s).2 = delete v (vols s).
Proof.
  unfold on_mgr, vols. destruct (sv_mgr s) as [m x] eqn:Em. cbn [fst snd].
  destruct (mg_volumes m !! v) as [vc|] eqn:Ev.
  2: { left. unfold Volume.UnmountVolume, bind, mgr_get, gets. cbn [fst]. by rewrite Ev. }
  destruct (decide (sid = "")) as [He|He].
  { left. unfold Volume.UnmountVolume, bind, mgr_get, gets. cbn [fst]. rewrite Ev. by rewrite decide_True. }
  destruct (mg_mountSessions m !! v) as [ss|] eqn:Es.
  2: { left. unfold Volume.UnmountVolume, bind, mgr_get, gets. cbn [fst]. rewrite Ev, decide_False by done. by rewrite Es. }
  destruct (ss !! sid) as [se|] eqn:Ese.
  2: { left. unfold Volume.UnmountVolume, bind, mgr_get, gets. cbn [fst]. rewrite Ev, decide_False by done. by rewrite Es, Ese. }
  rewrite (unmount_cases v sid vc m x ss) by (first [done | by eauto]). case_decide.
  - left. simpl. by apply (end_session_vols v sid ∅).
  - destruct (blind_teardown v sid vc (selectBackend m) m x ∅) as (_ & V & _). unfold bind.
    destruct (teardown v sid vc (selectBackend m) (m, x)) as [[[]|e|] [m' x']]; simpl in *; [right|by left..].
    unfold remove_volume. simpl. by rewrite V.
Qed.

(** *** Every request *)

(** What a request makes of the context of the volume it names. *)
Definition advances (r : Request) (vc vc' : VolumeContext) : Prop :=
  IsS0FS vc = true /\ forall tr strict, allowed tr strict vc r -> good tr strict [] true true vc -> good tr strict [] false false vc'.

Inductive change (u : string) (r : Request) (t t' : gmap string VolumeContext) : Prop :=
| change_none : t' = t -> change u r t t'
| change_work vc vc' : t !! u = Some vc -> t' = <[u := vc']> t -> advances r vc vc' -> change u r t t'
| change_mount vc : t !! u = None -> t' = <[u := vc]> t -> mounted vc -> change u r t t'
| change_unmount sid : r = RUnmount sid -> t' = delete u t -> change u r t t'.

Lemma triple_ends {A} tr strict P (b : Body A) vc hub dirty :
  triple tr strict P b (fun _ => good tr strict [] false false) -> P vc ->
  good tr strict [] false false (ss_vol (b (mkSess vc hub dirty)).2).
Proof. intros H HP. specialize (H (mkSess vc hub dirty) HP). by destruct (b _) as [[]]. Qed.

Lemma change_body {A D} u r (b : Body A) (m : Srv A) (f : A -> D) s :
  updates u (by_body b) m ->
  (forall tr strict vc, allowed tr strict vc r ->
     triple tr strict (fun vc' => good tr strict [] true true vc' /\ vc' = vc) b (fun _ => good tr strict [] false false)) ->
  change u r (vols s) (vols ((let* a := m in ret (f a)) s).2).
Proof.
  intros Hu Hb. assert (E : vols ((let* a := m in ret (f a)) s).2 = vols (m s).2) by (unfold bind; by destruct (m s) as [[]]).
  rewrite E. destruct (Hu s) as [H|(vc & vc' & Hv & H & Hi & hub & dirty & ->)]; [by apply change_none|].
  eapply change_work; [done..|]. split; [done|]. intros tr strict Ha Hg. by apply (triple_ends tr strict _ b vc hub dirty (Hb tr strict vc Ha)).
Qed.

Lemma triple_at {A} tr strict (vc : VolumeContext) (b : Body A) Q :
  triple tr strict (good tr strict [] true true) b Q -> triple tr strict (fun vc' => good tr strict [] true true vc' /\ vc' = vc) b Q.
Proof. intros H. eapply t_pre; [|exact H]. by intros ? [? _]. Qed.

Lemma change_throw {A D} u r (b : Body A) e (m : Srv A) (f : A -> D) s :
  b = throw e -> updates u (by_body b) m -> change u r (vols s) (vols ((let* a := m in ret (f a)) s).2).
Proof. intros -> Hu. eapply change_body; [exact Hu|]. intros. apply triple_at, t_throw. Qed.

Lemma change_same {A D} u r (m : Srv A) (f : A -> D) s :
  vols (m s).2 = vols s -> change u r (vols s) (vols ((let* a := m in ret (f a)) s).2).
Proof. intros H. apply change_none. rewrite <- H. unfold bind. by destruct (m s) as [[]]. Qed.

Lemma change_handle_mount ctx u sid s : change u (RMount sid) (vols s) (vols (handle cfg ctx u (RMount sid) s).2).
Proof.
  assert (H : forall res s', FsServer.MountVolume cfg ctx sid u s = (res, s') ->
    vols s' = vols s \/ exists vc, vols s !! u = None /\ vols s' = <[u := vc]> (vols s) /\ mounted vc).
  { intros res s'. unfold FsServer.MountVolume. destruct (cx_claims ctx) as [c|]; [|intros [= _ <-]; by left].
    case_decide as Ht; [intros [= _ <-]; by left|].
    unfold bind at 1, lift_res. destruct (authorizeVolumeMount cfg ctx u) as [vol|e|]; [|intros [= _ <-]; by left..].
    assert (Hp : requireLocalPrimary u s = (Ok tt, s) \/ exists e, requireLocalPrimary u s = (Err e, s)).
    { unfold requireLocalPrimary, bind, get. destruct (rt_LocalPrimary _); [by left|right; by eexists]. }
    unfold bind at 1. destruct Hp as [->|[e ->]]; [|intros [= _ <-]; by left].
    destruct (S3VolumePrefix _ u) as [pfx|e|]; [|intros [= _ <-]; by left..]. unfold bind.
    match goal with |- context [on_mgr ?wrap _ s] =>
      destruct (mount_effect sid (cx_now ctx) pfx u (cl_TeamID c) (NormalizeAccessMode (sbv_AccessMode vol)) wrap s Ht) as [E|(vc & H1 & E & H2)] end.
    - destruct (on_mgr _ _ s) as [[[]|e|] s1]; simpl in *; intros [= _ <-]; by left.
    - destruct (on_mgr _ _ s) as [[[]|e|] s1]; simpl in *; intros [= _ <-]; right; eauto. }
  destruct (FsServer.MountVolume cfg ctx sid u s) as [res s'] eqn:E. specialize (H _ _ eq_refl).
  assert (Es : vols (handle cfg ctx u (RMount sid) s).2 = vols s').
  { simpl. unfold answer, bind. rewrite E. by destruct res as [[[]]|e|]. }
  rewrite Es. destruct H as [->|(vc & H1 & H2 & H3)]; [by apply change_none|by eapply change_mount].
Qed.

Lemma change_handle_unmount ctx u sid s : change u (RUnmount sid) (vols s) (vols (handle cfg ctx u (RUnmount sid) s).2).
Proof.
  assert (H : vols (FsServer.UnmountVolume cfg ctx u sid s).2 = vols s \/ vols (FsServer.UnmountVolume cfg ctx u sid s).2 = delete u (vols s)).
  { unfold FsServer.UnmountVolume. case_decide; [by left|]. unfold bind. rewrite authorize_eq.
    destruct (authorize cfg ctx u _); [apply unmount_effect|by left..]. }
  destruct H as [H|H]; [by apply change_same|]. eapply change_unmount; [done|]. rewrite <- H. simpl. unfold void, answer, bind.
  by destruct (FsServer.UnmountVolume cfg ctx u sid s) as [[]].
Qed.

Ltac by_triple lem := eapply change_body; [first [apply updates_reading | apply updates_mutating] | intros tr strict vc Ha; apply triple_at; lem].

Lemma change_handle ctx u r s : change u r (vols s) (vols (handle cfg ctx u r s).2).
Proof.
  destruct r; try (eapply change_throw; [reflexivity|first [apply updates_reading | apply updates_mutating]]; fail).
  - apply change_handle_mount.
  - apply change_handle_unmount.
  - apply change_same. unfold FsServer.AckInvalidate. case_decide; [done|]. unfold bind. rewrite authorize_eq.
    destruct (authorize cfg ctx u _); [|done..]. unfold on_mgr, vols. destruct (sv_mgr s) as [m x]. simpl.
    destruct (blind_ack u mountSessionID invalidateID success errorMessage m x ∅) as (_ & V & _).
    by destruct (Volume.AckInvalidate _ _ _ _ _ (m, x)).
  - by_triple ltac:(apply b_GetAttr).
  - by_triple ltac:(apply b_Lookup).
  - eapply change_body; [apply updates_open|]. intros tr strict vc Ha. apply triple_at. by apply b_open.
  - by_triple ltac:(apply b_Read).
  - by_triple ltac:(by apply b_Write).
  - by_triple ltac:(apply b_Create).
  - by_triple ltac:(apply b_Mkdir).
  - by_triple ltac:(apply b_Unlink).
  - by_triple ltac:(apply b_ReadDir).
  - by_triple ltac:(apply b_OpenDir).
  - eapply change_body; [apply updates_reading|]. intros tr strict vc [H1 H2]. eapply t_pre; [|by apply b_ReleaseDir].
    intros vc' [Hg ->]. done.
  - by_triple ltac:(apply b_Rename).
  - by_triple ltac:(by apply b_SetAttr).
  - by_triple ltac:(apply b_Flush).
  - by_triple ltac:(apply b_Fsync).
  - by_triple ltac:(by apply b_Release).
  - by_triple ltac:(apply b_Rmdir).
  - by_triple ltac:(apply b_Symlink).
  - by_triple ltac:(apply b_Readlink).
  - by_triple ltac:(apply b_Link).
  - by_triple ltac:(apply b_Access).
  - by_triple ltac:(apply t_done).
  - apply change_same. unfold GetLk, bind. rewrite authorize_eq. destruct (authorize cfg ctx u _) as [vc|e|]; [|done..].
    destruct (isS0FSVolume vc), (negb has_lock); done.
  - apply change_same. unfold SetLk, bind. rewrite authorize_eq. destruct (authorize cfg ctx u _) as [vc|e|]; [|done..].
    destruct (isS0FSVolume vc), (negb has_lock); done.
Qed.

(** ** Runs of the server *)

(** A request, when there is room; in a strict run a file is not released as a directory. *)
Inductive served (strict : bool) : relation (Server B X) :=
| served_request ctx u r s :
    roomy s ->
    (forall id vc, strict = true -> r = RReleaseDir id -> vols s !! u = Some vc -> HandleInode id (vc_handles vc) = None) ->
    served strict s (handle cfg ctx u r s).2.

(** A request that leaves the handle [h] of volume [v] and the content of its file [i] alone. *)
Definition leaves_alone (h i : Z) (r : Request) : Prop :=
  match r with
  | RWrite j _ _ _ => j <> i
  | ROpen j flags _ => has_bit flags O_TRUNC = true -> j <> i
  | RSetAttr j valid _ => has_bit valid SetAttrSize = true -> j <> i
  | RRelease id | RReleaseDir id => id <> h
  | RUnmount _ => False
  | _ => True
  end.

Inductive undisturbed (v : string) (h i : Z) : relation (Server B X) :=
| undisturbed_request ctx u r s :
    roomy s -> (u = v -> leaves_alone h i r) -> undisturbed v h i s (handle cfg ctx u r s).2.

Definition all_fine (strict : bool) s : Prop := forall v vc, vols s !! v = Some vc -> fine None strict vc.

Lemma mounted_fine strict vc : mounted vc -> fine None strict vc.
Proof.
  intros (b & req & x & x' & E) Hi. destruct (be_mount_fresh b req x vc x' E Hi) as (Hh & w & Hw & Hc & Wf & Hz). exists w.
  split; try done; rewrite ?Hh; simpl; try done.
  - intros j ?%elem_of_nil. done.
  - intros _ j n Hn H0. by destruct (Hz j n Hn).
  - unfold IsS0FS in Hi. apply andb_true_iff in Hi as [Hi _]. by apply bool_decide_eq_true in Hi.
Qed.

Lemma served_fine strict s s' : served strict s s' -> all_fine strict s -> all_fine strict s'.
Proof.
  intros [ctx u r s0 Hroom Hd] Hf v vc Hv. destruct (change_handle ctx u r s0) as [E|vc0 vc' H0 E [Hi Ha]|vc' H0 E Hm|sid _ E]; rewrite E in Hv.
  - by apply (Hf v).
  - apply lookup_insert_Some in Hv as [[<- <-]|[_ Hv]]; [|by apply (Hf v)]. intros _. apply Ha.
    + destruct r; simpl; try done. split; [done|]. intros Hs. by apply (Hd handleID vc0 Hs).
    + eapply good_roomy; [done..|]. by apply (Hf u).
  - apply lookup_insert_Some in Hv as [[<- <-]|[_ Hv]]; [by apply mounted_fine|by apply (Hf v)].
  - apply lookup_delete_Some in Hv as [_ Hv]. by apply (Hf v).
Qed.

Lemma run_fine strict s s' : rtc (served strict) s s' -> all_fine strict s -> all_fine strict s'.
Proof. induction 1; [done|]. intros H'. by apply IHrtc, (served_fine strict x). Qed.

(** The volume with a watched handle. *)
Definition watched (v : string) (tr : Z * Z * gores (list byte)) s : Prop :=
  exists vc, vols s !! v = Some vc /\ good (Some tr) false [] false false vc.

Lemma undisturbed_watched v h i c s s' : undisturbed v h i s s' -> watched v (h, i, c) s -> watched v (h, i, c) s'.
Proof.
  intros [ctx u r s0 Hroom Hr] (vc & Hv & Hg). destruct (change_handle ctx u r s0) as [E|vc0 vc' H0 E [Hi Ha]|vc' H0 E Hm|sid Er E].
  - exists vc. by rewrite E.
  - destruct (decide (u = v)) as [->|Hu]; [|exists vc; by rewrite E, lookup_insert_ne].
    assert (vc0 = vc) as -> by congruence. specialize (Hr eq_refl). exists vc'. rewrite E, lookup_insert_eq. split; [done|]. apply Ha.
    + destruct r; simpl in *; try done; unfold unwatched, unheld; try naive_solver.
    + by eapply good_roomy.
  - exists vc. assert (u <> v) by congruence. by rewrite E, lookup_insert_ne.
  - exists vc. destruct (decide (u = v)) as [->|Hu]; [|by rewrite E, lookup_delete_ne]. subst r. by destruct (Hr eq_refl).
Qed.

Lemma run_watched v h i c s s' : rtc (undisturbed v h i) s s' -> watched v (h, i, c) s -> watched v (h, i, c) s'.
Proof. induction 1; [done|]. intros H'. by apply IHrtc, (undisturbed_watched v h i c x). Qed.

End life.



(** ** A run *)

Definition life_backend : Backend unit unit :=
  {| be_MountVolume := fun _ req =>
       match S0fsEngine.Open (CR := no_cold) (calm 7) (mr_VolumeID req) "wal" None (mkDisk [] None ∅) with
       | Ok w => ret (mkVolume (mr_VolumeID req) (mr_TeamID req) BackendS0FS (Some w) (mr_AccessMode req) 0 1 "/" "" no_handles)
       | _ => throw "open s0fs engine"
       end;
     be_UnmountVolume := fun _ _ => ret tt |}.

#[export] Instance life_fresh : @BackendFresh unit unit life_backend.
Proof.
  split. intros b req x vc x'. simpl. destruct (S0fsEngine.Open _ _ _ _ _) as [w|e|] eqn:E; [|done..]. intros [= <- _] _. split; [done|].
  exists w. split; [done|]. pose proof (ok_core _ (Open_fresh_ok (CR := no_cold) _ _ _ _ E)) as W.
  unfold S0fsEngine.Open in E. destruct (decide (mr_VolumeID req = "")); [done|]. destruct (decide ("wal" = "")); [done|]. simpl in E.
  injection E as <-. split; [done|]. split; [done|].
  intros j nd Hn. simpl in Hn. apply map_lookup_filter_Some in Hn as [Hn _]. unfold initialState in Hn. simpl in Hn.
  by apply lookup_singleton_Some in Hn as [_ <-].
Qed.

Definition life_config : Config :=
  mkConfig (Some (mkRepo (fun _ => Ok (mkSandboxVolume "A" "rwo")) (fun _ => Err DbNotFound))) None.
Definition life_start : Server unit unit :=
  mkServer (NewManagerWithBackends {["s0fs" := Some tt]} "s0fs", tt) (Some (NewHub 4)) ∅ ∅.
Definition life_do (r : Request) (s : Server unit unit) : Server unit unit :=
  (@handle unit unit demo_upper no_cold life_backend demo_registrar life_config (demo_ctx "A") "vol" r s).2.
Definition life_written : Server unit unit := life_do (RWrite 2 0 [x61] 1) (life_do (RCreate 1 "f" 420 None) (life_do (RMount "m") life_start)).
Definition life_unlinked : Server unit unit := life_do (RUnlink 1 "f") life_written.

Definition roomyb (s : Server unit unit) : bool :=
  forallb (fun kv : string * VolumeContext => match vc_S0FS kv.2 with
    | Some w => (NextInode (core (eng w)) <? 2 ^ 64 - 1) && bool_decide (map_Forall (fun _ n => n_Nlink n < 2 ^ 32 - 1) (Nodes (core (eng w)))) &&
                (nextHandleID (vc_handles kv.2) <? 2 ^ 64 - 1)
    | None => true end) (map_to_list (vols s)).

Lemma roomyb_roomy s : roomyb s = true -> roomy s.
Proof.
  unfold roomyb. rewrite forallb_forall. intros H v vc w Hv Hw. specialize (H (v, vc)). simpl in H. rewrite Hw in H.
  apply elem_of_map_to_list in Hv. apply list_elem_of_In in Hv. specialize (H Hv). rewrite !andb_true_iff, !Z.ltb_lt in H.
  destruct H as [[H1 H2] H3]. split; [by apply headroom_dec|done].
Qed.

Lemma life_step strict r s : roomyb s = true -> (forall id, r <> RReleaseDir id) ->
  @served unit unit demo_upper no_cold life_backend demo_registrar life_config strict s (life_do r s).
Proof. intros H Hr. apply served_request; [by apply roomyb_roomy|]. intros id vc _ E. by destruct (Hr id). Qed.

Lemma life_run strict : rtc (@served unit unit demo_upper no_cold life_backend demo_registrar life_config strict) life_start life_written.
Proof.
  eapply rtc_l; [apply (life_step strict (RMount "m")); [vm_compute; reflexivity|done]|].
  eapply rtc_l; [apply (life_step strict (RCreate 1 "f" 420 None)); [vm_compute; reflexivity|done]|].
  eapply rtc_l; [apply (life_step strict (RWrite 2 0 [x61] 1)); [vm_compute; reflexivity|done]|]. constructor.
Qed.


Lemma life_unlink_run : rtc (@served unit unit demo_upper no_cold life_backend demo_registrar life_config true) life_start life_unlinked.
Proof. eapply rtc_r; [apply life_run|]. apply life_step; [vm_compute; reflexivity|done]. Qed.


(** ** Background materialization *)

(** The materialization that the backend runs every two seconds puts the committed
    state in place of the current one when no write came in between, and that drops
    every file without links, open or not. *)
Lemma materialize_drops_open_files `{CR : ColdReader} env m st (w : World) :
  mf_State m = Some st ->
  let w' := (SyncMaterialize_finish env (mutationVersion (eng w)) (lastCommittedManifest (eng w)) m w).2 in
  forall j n, j <> RootInode -> Nodes (core (eng w')) !! j = Some n -> n_Nlink n <> 0.
Proof.
  intros Hst w' j n Hj.
  set (c := collectUnlinkedLocked (set_NextInode (if NextInode st <=? RootInode then RootInode + 1 else NextInode st)
    (set_NextSeq (if NextSeq st =? 0 then 1 else NextSeq st) st))).
  assert (Ec : core (eng w') = c).
  { unfold w', SyncMaterialize_finish, bind, get. rewrite !Z.eqb_refl, Hst. cbn [andb].
    unfold replaceStateLocked, modify, persistCurrentStateLocked, wal_reset. simpl.
    destruct (env_save env); [|done]. simpl. destruct (walHandle (eng w)), (env_reset env); done. }
  rewrite Ec. unfold c. rewrite collect_Nodes. case_decide as Hu; [done|]. intros Hn Hz. apply Hu. by split; [|exists n].
Qed.

(** An object store is configured. *)
Definition some_cold : ColdReader := {| cold_enabled := true; ReadSegmentRange := fun _ _ _ => Err ErrNotFound |}.

(** In the run above: the handle is open, and the file it stands for is gone. *)
Lemma materialize_loses_unlinked_file :
  match vols life_unlinked !! "vol" with
  | Some (mkVolume _ _ _ (Some w) _ _ _ _ _ handles) =>
      HandleInode 1 handles = Some 2 /\
      (S0fsEngine.Read (CR := some_cold) 2 0 1 w).1 = Ok [x61] /\
      match (SyncMaterialize_begin (CR := some_cold) w).1 with
      | Ok (Some (version, st, seq)) =>
          (S0fsEngine.Read (CR := some_cold) 2 0 1
            (SyncMaterialize_finish (calm 9) version seq (mkManifest 1 "vol" 1 1 0 (Some st)) w).2).1 = Err ErrNotFound
      | _ => False
      end
  | _ => False
  end.
Proof. vm_compute. repeat split. Qed.

(** ** Other ways to lose *)

(** The node of an inode, its number of links and its handles, on the volume of the runs. *)
Definition life_links (s : Server unit unit) (i : Z) : option (Z * nat) :=
  match vols s !! "vol" with
  | Some (mkVolume _ _ _ (Some w) _ _ _ _ _ handles) =>
      n ← Nodes (core (eng w)) !! i; Some (n_Nlink n, holders i (fileHandles handles))
  | _ => None
  end.

(** [ReleaseDir] on the last handle of an unlinked file drops the handle, and the file
    is never forgotten; [Release] frees it. *)
Lemma release_dir_leaks :
  life_links life_unlinked 2 = Some (0, 1%nat) /\
  life_links (life_do (RReleaseDir 1) life_unlinked) 2 = Some (0, 0%nat) /\
  life_links (life_do (RRelease 1) life_unlinked) 2 = None.
Proof. vm_compute. repeat split. Qed.

(** A write at a negative offset is logged before it panics, so that the volume can
    not be opened again: replaying the record panics too. *)
Lemma negative_offset_poisons :
  match handle (BK := life_backend) (RG := demo_registrar) (CR := no_cold) (UP := demo_upper) life_config (demo_ctx "A") "vol"
          (RWrite 2 (-1) [x61] 1) life_written with
  | (Panic, s') =>
      match vols s' !! "vol" with
      | Some (mkVolume _ _ _ (Some w) _ _ _ _ _ _) => S0fsEngine.Open (CR := no_cold) (calm 10) "vol" "wal" None (disk w) = Panic
      | _ => False
      end
  | _ => False
  end.
Proof. vm_compute. reflexivity. Qed.
