(* ===== verification/Mounts.v ===== *)
(** * storage-proxy: the tables of mounts, handoffs and flushes (storage-proxy/pkg/db/repository.go)

    The rows that instances of storage-proxy coordinate through: which instance has a
    volume mounted, with its last heartbeat; handoffs between instances; coordinated
    flushes with the responses of the instances; and the notifications that were sent.
    A statement takes effect as a whole or fails with what the connection reports: the
    outcomes of the statements to come are part of the state, in their order.  A
    transaction that fails leaves the tables as they were.  [db_now] is the clock of the
    database.  The JSON of mount options is what decoding gives ([DecodeMountOptions]). *)

From stdpp Require Import base gmap strings list fin_maps numbers sorting.
From Stdlib Require Import Strings.Byte Strings.Ascii.
From S2P Require Import Prelude GoStd Volume Notify.

Local Open Scope Z_scope.

Definition second : Z := 1000000000.

Record VolumeMount := mkVolumeMount {
  vm_ID : string;
  vm_VolumeID : string;
  vm_ClusterID : string;
  vm_PodID : string;
  vm_LastHeartbeat : Z;
  vm_MountedAt : Z;
  vm_MountOptions : option (option MountOptions)
}.

Record VolumeHandoff := mkHandoff {
  vh_VolumeID : string;
  vh_SourceClusterID : string;
  vh_SourcePodID : string;
  vh_TargetClusterID : string;
  vh_TargetPodID : string;
  vh_TargetCtldAddr : string;
  vh_Status : string;
  vh_ExpiresAt : Z
}.

Record SnapshotCoordination := mkCoordination {
  sc_ID : string;
  sc_VolumeID : string;
  sc_SnapshotID : option string;
  sc_Status : string;
  sc_ExpectedNodes : Z;
  sc_ExpiresAt : Z
}.

Record FlushResponse := mkFlushResponse {
  fr_CoordID : string;
  fr_ClusterID : string;
  fr_PodID : string;
  fr_Success : bool;
  fr_ErrorMessage : string
}.

(** coordinator.go: the payloads of the channels. *)
Inductive notice :=
| FlushRequest (coordID volumeID : string)
| FlushResponseNotice (r : FlushResponse)
| WatchNotice (e : WatchEvent).

Definition CoordStatusFlushing : string := "flushing".
Definition CoordStatusCompleted : string := "completed".
Definition CoordStatusFailed : string := "failed".
Definition CoordStatusTimeout : string := "timeout".

(** ** The database *)

(** The unique columns: volume, cluster and pod; coordination, cluster and pod. *)
Abbreviation mount_key := (string * string * string)%type.

Record DB := mkDB {
  db_now : Z;
  db_volumes : gmap string string;
  db_mounts : gmap mount_key VolumeMount;
  db_handoffs : gmap string VolumeHandoff;
  db_coords : gmap string SnapshotCoordination;
  db_responses : gmap mount_key FlushResponse;
  db_notices : list notice;
  db_outcomes : list (option string)
}.

Definition set_mounts (ms : gmap mount_key VolumeMount) (d : DB) : DB :=
  mkDB (db_now d) (db_volumes d) ms (db_handoffs d) (db_coords d) (db_responses d) (db_notices d) (db_outcomes d).
Definition set_handoffs (hs : gmap string VolumeHandoff) (d : DB) : DB :=
  mkDB (db_now d) (db_volumes d) (db_mounts d) hs (db_coords d) (db_responses d) (db_notices d) (db_outcomes d).
Definition set_coords (cs : gmap string SnapshotCoordination) (d : DB) : DB :=
  mkDB (db_now d) (db_volumes d) (db_mounts d) (db_handoffs d) cs (db_responses d) (db_notices d) (db_outcomes d).
Definition set_responses (rs : gmap mount_key FlushResponse) (d : DB) : DB :=
  mkDB (db_now d) (db_volumes d) (db_mounts d) (db_handoffs d) (db_coords d) rs (db_notices d) (db_outcomes d).
Definition add_notice (n : notice) (d : DB) : DB :=
  mkDB (db_now d) (db_volumes d) (db_mounts d) (db_handoffs d) (db_coords d) (db_responses d) (db_notices d ++ [n]) (db_outcomes d).
Definition set_outcomes (os : list (option string)) (d : DB) : DB :=
  mkDB (db_now d) (db_volumes d) (db_mounts d) (db_handoffs d) (db_coords d) (db_responses d) (db_notices d) os.

(** [ErrNotFound], [ErrConflict] with what is wrapped around it, and other errors. *)
Inductive db_error :=
| ErrNotFound
| ErrConflict (detail : string)
| DbError (text : string).

Definition db_text (e : db_error) : string :=
  match e with
  | ErrNotFound => "not found"
  | ErrConflict "" => "conflict"
  | ErrConflict detail => "conflict: " +:+ detail
  | DbError text => text
  end.

Abbreviation DBM := (ST db_error DB).

(** One round trip: it fails with what the connection reports, or takes effect. *)
Definition stmt {A} (what : string) (f : DB -> res db_error A * DB) : DBM A := fun d =>
  match db_outcomes d with
  | Some e :: os => (Err (DbError (what +:+ ": " +:+ e)), set_outcomes os d)
  | None :: os => f (set_outcomes os d)
  | [] => f d
  end.

Definition WithTx {A} (fn : DBM A) : DBM A := fun d =>
  match stmt "begin transaction" (fun d => (Ok tt, d)) d with
  | (Ok _, d1) =>
      match fn d1 with
      | (Ok a, d2) =>
          match stmt "commit transaction" (fun d => (Ok tt, d)) d2 with
          | (Ok _, d3) => (Ok a, d3)
          | (Err e, d3) => (Err e, set_outcomes (db_outcomes d3) d1)
          | (Panic, d3) => (Panic, d3)
          end
      | (Err e, d2) => (Err e, set_outcomes (db_outcomes d2) d1)
      | (Panic, d2) => (Panic, d2)
      end
  | (Err e, d1) => (Err e, d1)
  | (Panic, d1) => (Panic, d1)
  end.

(** ** Mounts *)

Definition normalizeMountAccessMode `{UnicodeUpper} (value : string) : string :=
  let v := ToUpper (TrimSpace value) in
  if decide (v = "ROX") then "ROX" else if decide (v = "RWX") then "RWX" else "RWO".

Definition decodeMountAccessMode `{UnicodeUpper} (raw : option (option MountOptions)) : string :=
  match raw with
  | None | Some None => "RWO"
  | Some (Some opts) => normalizeMountAccessMode (mo_AccessMode opts)
  end.

Definition key_of (m : VolumeMount) : mount_key := (vm_VolumeID m, vm_ClusterID m, vm_PodID m).

(** [last_heartbeat > NOW() - INTERVAL '1 second' * $2] *)
Definition is_active (d : DB) (heartbeatTimeout : Z) (m : VolumeMount) : bool :=
  db_now d - heartbeatTimeout * second <? vm_LastHeartbeat m.

Definition mounts_of (d : DB) (volumeID : string) : list VolumeMount :=
  filter (fun m => vm_VolumeID m = volumeID) (snd <$> map_to_list (db_mounts d)).

(** [ORDER BY mounted_at DESC] *)
Definition newest_first (a b : VolumeMount) : Prop := vm_MountedAt b <= vm_MountedAt a.
#[export] Instance newest_first_dec : RelDecision newest_first.
Proof. intros a b. unfold newest_first. apply _. Defined.

Definition active_mounts (d : DB) (volumeID : string) (heartbeatTimeout : Z) : list VolumeMount :=
  merge_sort newest_first (filter (fun m => is_active d heartbeatTimeout m) (mounts_of d volumeID)).

Definition getActiveMounts (volumeID : string) (heartbeatTimeout : Z) : DBM (list VolumeMount) :=
  stmt "query active mounts" (fun d => (Ok (active_mounts d volumeID heartbeatTimeout), d)).

Definition GetActiveMounts := getActiveMounts.

Definition GetAllMounts : DBM (list VolumeMount) :=
  stmt "query all mounts" (fun d => (Ok (snd <$> map_to_list (db_mounts d)), d)).

(** [INSERT ... ON CONFLICT (volume_id, cluster_id, pod_id) DO UPDATE SET last_heartbeat,
    mount_options] *)
Definition upsert (m : VolumeMount) (ms : gmap mount_key VolumeMount) : gmap mount_key VolumeMount :=
  match ms !! key_of m with
  | Some old => <[key_of m := mkVolumeMount (vm_ID old) (vm_VolumeID m) (vm_ClusterID m) (vm_PodID m)
                               (vm_LastHeartbeat m) (vm_MountedAt old) (vm_MountOptions m)]> ms
  | None => <[key_of m := m]> ms
  end.

Definition createMount (m : VolumeMount) : DBM unit :=
  stmt "create mount" (fun d => (Ok tt, set_mounts (upsert m (db_mounts d)) d)).

(** [SELECT access_mode FROM sandbox_volumes WHERE id = $1 FOR UPDATE] *)
Definition lock_volume (volumeID : string) : DBM string :=
  stmt "lock sandbox volume" (fun d =>
    (match db_volumes d !! volumeID with Some mode => Ok mode | None => Err ErrNotFound end, d)).

Definition same_instance (a : VolumeMount) (clusterID podID : string) : bool :=
  bool_decide (vm_ClusterID a = clusterID) && bool_decide (vm_PodID a = podID).

(** The loops over the active mounts: the error of the first that is in the way. *)
Definition AcquireMount `{UnicodeUpper} (m : VolumeMount) (heartbeatTimeout : Z) : DBM unit :=
  let heartbeatTimeout := if heartbeatTimeout <=? 0 then 15 else heartbeatTimeout in
  WithTx (
    let* accessMode := lock_volume (vm_VolumeID m) in
    let* activeMounts := getActiveMounts (vm_VolumeID m) heartbeatTimeout in
    let mode := normalizeMountAccessMode accessMode in
    let* _ :=
      (if decide (mode = "RWO") then
         if forallb (fun a => same_instance a (vm_ClusterID m) (vm_PodID m)) activeMounts then ret tt
         else throw (ErrConflict ("volume " +:+ vm_VolumeID m +:+ " already mounted on another instance"))
       else if decide (mode = "ROX") then
         if forallb (fun a => bool_decide (decodeMountAccessMode (vm_MountOptions a) = "ROX")) activeMounts then ret tt
         else throw (ErrConflict ("volume " +:+ vm_VolumeID m +:+ " already mounted read-write"))
       else ret tt) in
    createMount m).

Definition UpdateMountHeartbeat (volumeID clusterID podID : string) : DBM unit :=
  stmt "update mount heartbeat" (fun d =>
    match db_mounts d !! (volumeID, clusterID, podID) with
    | None => (Err ErrNotFound, d)
    | Some m =>
        (Ok tt, set_mounts (<[(volumeID, clusterID, podID) :=
           mkVolumeMount (vm_ID m) (vm_VolumeID m) (vm_ClusterID m) (vm_PodID m) (db_now d) (vm_MountedAt m)
             (vm_MountOptions m)]> (db_mounts d)) d)
    end).

Definition DeleteMount (volumeID clusterID podID : string) : DBM unit :=
  stmt "delete mount" (fun d => (Ok tt, set_mounts (delete (volumeID, clusterID, podID) (db_mounts d)) d)).

Definition DeleteMountByPodID (clusterID podID : string) : DBM unit :=
  stmt "delete mount by pod id" (fun d =>
    (Ok tt, set_mounts (filter (fun e => negb (same_instance e.2 clusterID podID)) (db_mounts d)) d)).

(** [WHERE last_heartbeat < NOW() - INTERVAL '1 second' * $1] *)
Definition DeleteStaleMounts (heartbeatTimeout : Z) : DBM unit :=
  stmt "delete stale mounts" (fun d =>
    (Ok tt, set_mounts (filter (fun e => negb (vm_LastHeartbeat e.2 <? db_now d - heartbeatTimeout * second)) (db_mounts d)) d)).

Definition TransferMount `{UnicodeUpper} (volumeID sourceClusterID sourcePodID : string) (target : VolumeMount)
    (heartbeatTimeout : Z) : DBM unit :=
  let heartbeatTimeout := if heartbeatTimeout <=? 0 then 15 else heartbeatTimeout in
  let blank s := bool_decide (TrimSpace s = "") in
  if blank volumeID || blank sourceClusterID || blank sourcePodID
  then throw (DbError "volume id and source mount identity are required") else
  if blank (vm_ClusterID target) || blank (vm_PodID target)
  then throw (DbError "target mount cluster_id and pod_id are required") else
  WithTx (
    let* accessMode := lock_volume volumeID in
    if decide (normalizeMountAccessMode accessMode <> "RWO")
    then throw (ErrConflict "transfer mount only supports RWO volumes") else
    let* activeMounts := getActiveMounts volumeID heartbeatTimeout in
    let source a := same_instance a sourceClusterID sourcePodID in
    if negb (forallb (fun a => source a || same_instance a (vm_ClusterID target) (vm_PodID target)) activeMounts)
    then throw (ErrConflict ("volume " +:+ volumeID +:+ " already mounted on another instance")) else
    if negb (existsb source activeMounts) then throw (ErrConflict "") else
    let* _ := DeleteMount volumeID sourceClusterID sourcePodID in
    createMount target).

(** ** Handoffs *)

(** A zero [ExpiresAt] becomes thirty seconds from the caller's clock. *)
Definition UpsertVolumeHandoff (now : Z) (handoff : VolumeHandoff) : DBM unit :=
  if decide (TrimSpace (vh_VolumeID handoff) = "") then throw (DbError "handoff volume_id is required") else
  let expires := if vh_ExpiresAt handoff =? 0 then now + 30 * second else vh_ExpiresAt handoff in
  stmt "upsert volume handoff" (fun d =>
    (Ok tt, set_handoffs (<[vh_VolumeID handoff :=
       mkHandoff (vh_VolumeID handoff) (vh_SourceClusterID handoff) (vh_SourcePodID handoff)
         (vh_TargetClusterID handoff) (vh_TargetPodID handoff) (vh_TargetCtldAddr handoff) (vh_Status handoff)
         expires]> (db_handoffs d)) d)).

Definition GetVolumeHandoff (volumeID : string) : DBM VolumeHandoff :=
  stmt "get volume handoff" (fun d =>
    (match db_handoffs d !! volumeID with Some h => Ok h | None => Err ErrNotFound end, d)).

Definition DeleteVolumeHandoff (volumeID : string) : DBM unit :=
  if decide (TrimSpace volumeID = "") then throw (DbError "volume id is required") else
  stmt "delete volume handoff" (fun d => (Ok tt, set_handoffs (delete volumeID (db_handoffs d)) d)).

(** ** Coordinations and responses *)

(** The primary key refuses a second row with the same id. *)
Definition CreateCoordination (coord : SnapshotCoordination) : DBM unit :=
  stmt "create coordination" (fun d =>
    match db_coords d !! sc_ID coord with
    | Some _ => (Err (DbError "create coordination: duplicate key value"), d)
    | None => (Ok tt, set_coords (<[sc_ID coord := coord]> (db_coords d)) d)
    end).

Definition UpdateCoordinationStatus (id status : string) : DBM unit :=
  stmt "update coordination status" (fun d =>
    match db_coords d !! id with
    | None => (Err ErrNotFound, d)
    | Some c =>
        (Ok tt, set_coords (<[id := mkCoordination (sc_ID c) (sc_VolumeID c) (sc_SnapshotID c) status
                                      (sc_ExpectedNodes c) (sc_ExpiresAt c)]> (db_coords d)) d)
    end).

Definition UpdateCoordinationSnapshotID (coordID snapshotID : string) : DBM unit :=
  stmt "update coordination snapshot_id" (fun d =>
    match db_coords d !! coordID with
    | None => (Err ErrNotFound, d)
    | Some c =>
        (Ok tt, set_coords (<[coordID := mkCoordination (sc_ID c) (sc_VolumeID c) (Some snapshotID) CoordStatusCompleted
                                           (sc_ExpectedNodes c) (sc_ExpiresAt c)]> (db_coords d)) d)
    end).

(** The foreign key refuses responses to a coordination that is not there; a second
    response of an instance replaces its first. *)
Definition CreateFlushResponse (resp : FlushResponse) : DBM unit :=
  stmt "create flush response" (fun d =>
    match db_coords d !! fr_CoordID resp with
    | None => (Err (DbError "create flush response: violates foreign key constraint"), d)
    | Some _ => (Ok tt, set_responses (<[(fr_CoordID resp, fr_ClusterID resp, fr_PodID resp) := resp]> (db_responses d)) d)
    end).

Definition responses_to (d : DB) (coordID : string) : list FlushResponse :=
  filter (fun r => fr_CoordID r = coordID) (snd <$> map_to_list (db_responses d)).

Definition CountCompletedFlushes (coordID : string) : DBM Z :=
  stmt "count completed flushes" (fun d => (Ok (zlen (filter (fun r => fr_Success r) (responses_to d coordID))), d)).

Definition GetFlushResponses (coordID : string) : DBM (list FlushResponse) :=
  stmt "query flush responses" (fun d => (Ok (responses_to d coordID), d)).

(** [SELECT pg_notify(channel, payload)] *)
Definition pg_notify (n : notice) : DBM unit :=
  stmt "notify" (fun d => (Ok tt, add_notice n d)).
