(* ===== verification/Coordinator.v ===== *)
(** * storage-proxy: coordination between instances (storage-proxy/pkg/coordinator/coordinator.go)

    An instance registers the volumes it has mounted in the database, keeps the rows
    alive with heartbeats, flushes a volume when another instance asks for it, and passes
    watch events on.  The state is the coordinator's own with the database; the hub is
    that of [Notify].  The goroutines are step functions: one notification, one request
    to flush, one volume of a heartbeat, one round of the cleanup, one turn of the wait
    for responses.  Clocks, fresh ids and what flushing a volume gave are arguments. *)

From stdpp Require Import base gmap strings list fin_maps numbers sorting.
From Stdlib Require Import Strings.Byte Strings.Ascii.
From S2P Require Import Prelude GoStd Volume Notify Mounts.

Local Open Scope Z_scope.

Definition HeartbeatTimeout : Z := 15.
Definition FlushTimeout : Z := 30 * second.

(** [FlushTimeout] as parsed: zero when it is not set or does not parse. *)
Record CoordinatorConfig := mkCoordinatorConfig {
  cc_HeartbeatTimeout : Z;
  cc_FlushTimeout : Z;
  cc_HTTPPort : Z
}.

Record Coordinator := mkCoordinator {
  co_config : CoordinatorConfig;
  co_clusterID : string;
  co_podID : string;
  co_mountedVolumes : gset string;
  co_eventHub : option Hub;
  co_flushCh : list (string * string);
  co_started : bool;
  co_stopping : bool
}.

(** The capacity of [flushCh]. *)
Definition flushChSize : Z := 100.

Definition NewCoordinator (config : CoordinatorConfig) (clusterID podID : string) (hub : option Hub) : Coordinator :=
  mkCoordinator config clusterID podID ∅ hub [] false false.

Definition set_mounted (vs : gset string) (c : Coordinator) : Coordinator :=
  mkCoordinator (co_config c) (co_clusterID c) (co_podID c) vs (co_eventHub c) (co_flushCh c) (co_started c) (co_stopping c).
Definition set_flushCh (q : list (string * string)) (c : Coordinator) : Coordinator :=
  mkCoordinator (co_config c) (co_clusterID c) (co_podID c) (co_mountedVolumes c) (co_eventHub c) q (co_started c) (co_stopping c).
Definition set_hub (h : option Hub) (c : Coordinator) : Coordinator :=
  mkCoordinator (co_config c) (co_clusterID c) (co_podID c) (co_mountedVolumes c) h (co_flushCh c) (co_started c) (co_stopping c).
Definition set_lifecycle (started stopping : bool) (c : Coordinator) : Coordinator :=
  mkCoordinator (co_config c) (co_clusterID c) (co_podID c) (co_mountedVolumes c) (co_eventHub c) (co_flushCh c) started stopping.

Inductive coord_error :=
| CoordDb (prefix : string) (e : db_error)
| CoordText (text : string)
| ErrFlushTimeout
| ErrFlushFailed (clusterID podID message : string)
| CoordCanceled.

Abbreviation CM := (ST coord_error (Coordinator * DB)).

(** A call of the repository, its error wrapped after [prefix]. *)
Definition repo {A} (prefix : string) (m : DBM A) : CM A := fun '(c, d) =>
  let '(r, d') := m d in
  (match r with Ok a => Ok a | Err e => Err (CoordDb prefix e) | Panic => Panic end, (c, d')).

(** A call whose error is only logged. *)
Definition repo_logged (m : DBM unit) : CM unit := fun '(c, d) =>
  let '(r, d') := m d in
  (match r with Panic => Panic | _ => Ok tt end, (c, d')).

Definition self : CM Coordinator := gets fst.
Definition update (f : Coordinator -> Coordinator) : CM unit := modify (fun s => (f s.1, s.2)).

Definition heartbeat_timeout (c : Coordinator) : Z :=
  if cc_HeartbeatTimeout (co_config c) =? 0 then HeartbeatTimeout else cc_HeartbeatTimeout (co_config c).

Definition flush_timeout (c : Coordinator) : Z :=
  if cc_FlushTimeout (co_config c) =? 0 then FlushTimeout else cc_FlushTimeout (co_config c).

Definition GetInstanceID (c : Coordinator) : string := co_clusterID c +:+ "/" +:+ co_podID c.

Definition IsVolumeMounted (c : Coordinator) (volumeID : string) : bool := bool_decide (volumeID ∈ co_mountedVolumes c).

(** ** Mounts *)

Definition RegisterMount `{UnicodeUpper} (id : string) (now : Z) (volumeID : string) (options : MountOptions) : CM unit :=
  let* c := self in
  if IsVolumeMounted c volumeID then ret tt else
  let options := mkMountOptions (NormalizeAccessMode (mo_AccessMode options))
    (if decide (mo_OwnerKind options = "") then OwnerKindStorageProxy else mo_OwnerKind options)
    (if (mo_OwnerPort options =? 0) && (0 <? cc_HTTPPort (co_config c)) then cc_HTTPPort (co_config c)
     else mo_OwnerPort options)
    (mo_NodeName options) (mo_PodNamespace options) in
  let m := mkVolumeMount id volumeID (co_clusterID c) (co_podID c) now now (Some (Some options)) in
  do* repo "acquire mount" (AcquireMount m (heartbeat_timeout c)) in
  update (fun c => set_mounted ({[volumeID]} ∪ co_mountedVolumes c) c).

Definition isMountROX `{UnicodeUpper} (m : VolumeMount) : bool :=
  match vm_MountOptions m with
  | None | Some None => false
  | Some (Some options) => bool_decide (NormalizeAccessMode (mo_AccessMode options) = AccessModeROX)
  end.

Definition ValidateMount `{UnicodeUpper} (volumeID accessMode : string) : CM unit :=
  let accessMode := NormalizeAccessMode accessMode in
  let* c := self in
  let* mounts := repo "get active mounts" (GetActiveMounts volumeID (heartbeat_timeout c)) in
  if decide (accessMode = AccessModeRWO) then
    if forallb (fun m => same_instance m (co_clusterID c) (co_podID c)) mounts then ret tt
    else throw (CoordText ("volume " +:+ volumeID +:+ " already mounted on another instance"))
  else if decide (accessMode = AccessModeROX) then
    if forallb isMountROX mounts then ret tt
    else throw (CoordText ("volume " +:+ volumeID +:+ " already mounted read-write"))
  else if decide (accessMode = AccessModeRWX) then ret tt
  else throw (CoordText "invalid access_mode").

Definition UnregisterMount (volumeID : string) : CM unit :=
  let* c := self in
  if negb (IsVolumeMounted c volumeID) then ret tt else
  do* repo "delete mount" (DeleteMount volumeID (co_clusterID c) (co_podID c)) in
  update (fun c => set_mounted (co_mountedVolumes c ∖ {[volumeID]}) c).

(** ** Start and stop *)

(** The statements that subscribe to the three channels. *)
Definition listen (channel : string) : DBM unit := stmt ("LISTEN " +:+ channel) (fun d => (Ok tt, d)).

Definition Start : CM unit :=
  let* c := self in
  if co_started c then ret tt else
  do* update (fun c => set_lifecycle true (co_stopping c) c) in
  do* repo "acquire listen connection" (stmt "acquire" (fun d => (Ok tt, d))) in
  do* repo "" (listen "snapshot_flush_request") in
  do* repo "" (listen "snapshot_flush_response") in
  repo "" (listen "volume_watch_event").

(** Errors of the calls are logged. *)
Fixpoint unregister_all (volumes : list string) : CM unit :=
  match volumes with
  | [] => ret tt
  | v :: rest => fun s =>
      match UnregisterMount v s with
      | (Panic, s') => (Panic, s')
      | (_, s') => unregister_all rest s'
      end
  end.

Definition Stop : CM unit :=
  let* c := self in
  if co_stopping c || negb (co_started c) then ret tt else
  do* update (fun c => set_lifecycle (co_started c) true c) in
  let* c := self in
  unregister_all (elements (co_mountedVolumes c)).

(** ** Coordinated flushes *)

(** [CoordinateFlush], up to the record of the coordination: the active mounts. *)
Definition flush_plan (volumeID : string) : CM (list VolumeMount) :=
  let* c := self in
  repo "get active mounts" (GetActiveMounts volumeID (heartbeat_timeout c)).

(** The rest of [CoordinateFlush] before the wait: the record and the notification; without
    active mounts there is nothing to wait for. *)
Definition flush_announce (coordID : string) (now : Z) (volumeID : string) (mounts : list VolumeMount)
    : CM (option SnapshotCoordination) :=
  if decide (mounts = []) then ret None else
  let* c := self in
  let coord := mkCoordination coordID volumeID None CoordStatusFlushing (zlen mounts) (now + flush_timeout c) in
  do* repo "create coordination" (CreateCoordination coord) in
  fun s =>
    match repo "send flush request" (pg_notify (FlushRequest coordID volumeID)) s with
    | (Ok _, s') => (Ok (Some coord), s')
    | (Err e, s') =>
        match repo_logged (UpdateCoordinationStatus coordID CoordStatusFailed) s' with
        | (Panic, s'') => (Panic, s'')
        | (_, s'') => (Err e, s'')
        end
    | (Panic, s') => (Panic, s')
    end.

(** What ends a turn of the wait. *)
Inductive wait_event := WaitCanceled | WaitDeadline | WaitTick.

(** The first response that tells of a failure. *)
Definition failed_response (rs : list FlushResponse) : option FlushResponse :=
  head (filter (fun r => negb (fr_Success r)) rs).

Definition end_coordination {A} (coord : SnapshotCoordination) (status : string) (r : CM A) : CM A :=
  do* repo_logged (UpdateCoordinationStatus (sc_ID coord) status) in r.

(** One turn of [waitForFlushCompletion]: [true] when the wait is over. *)
Definition waitForFlushCompletion (coord : SnapshotCoordination) (e : wait_event) : CM bool :=
  match e with
  | WaitCanceled => end_coordination coord CoordStatusFailed (throw CoordCanceled)
  | WaitDeadline => end_coordination coord CoordStatusTimeout (throw ErrFlushTimeout)
  | WaitTick => fun s =>
      match repo "" (CountCompletedFlushes (sc_ID coord)) s with
      | (Panic, s) => (Panic, s)
      | (Err _, s) => (Ok false, s)
      | (Ok completed, s) =>
          if completed <? sc_ExpectedNodes coord then (Ok false, s) else
          match repo "get flush responses" (GetFlushResponses (sc_ID coord)) s with
          | (Panic, s) => (Panic, s)
          | (Err e, s) => end_coordination coord CoordStatusFailed (throw e) s
          | (Ok responses, s) =>
              match failed_response responses with
              | Some r => end_coordination coord CoordStatusFailed
                            (throw (ErrFlushFailed (fr_ClusterID r) (fr_PodID r) (fr_ErrorMessage r))) s
              | None => end_coordination coord CoordStatusCompleted (ret true) s
              end
          end
      end
  end.

(** [flushed] is what [GetVolume] and [FlushAll] of the volume manager give. *)
Definition handleFlushRequest (coordID volumeID : string) (flushed : res string unit) : CM unit :=
  let* c := self in
  if negb (IsVolumeMounted c volumeID) then ret tt else
  match flushed with
  | Panic => panic
  | _ =>
      let resp := match flushed with
                  | Err e => mkFlushResponse coordID (co_clusterID c) (co_podID c) false e
                  | _ => mkFlushResponse coordID (co_clusterID c) (co_podID c) true ""
                  end in
      fun s =>
        match repo "" (CreateFlushResponse resp) s with
        | (Ok _, s') => repo_logged (pg_notify (FlushResponseNotice resp)) s'
        | (Err _, s') => (Ok tt, s')
        | (Panic, s') => (Panic, s')
        end
  end.

(** A turn of [runFlushHandler] that takes a request from the channel. *)
Definition runFlushHandler (flushed : res string unit) : CM unit :=
  let* c := self in
  match co_flushCh c with
  | [] => ret tt
  | (coordID, volumeID) :: rest =>
      do* update (set_flushCh rest) in
      handleFlushRequest coordID volumeID flushed
  end.

(** A notification that [runNotificationListener] receives. *)
Definition runNotificationListener (now : Z) (n : notice) : CM unit :=
  let* c := self in
  match n with
  | FlushRequest coordID volumeID =>
      if zlen (co_flushCh c) <? flushChSize then update (set_flushCh (co_flushCh c ++ [(coordID, volumeID)])) else ret tt
  | FlushResponseNotice _ => ret tt
  | WatchNotice event =>
      if decide (we_OriginInstance event = GetInstanceID c) then ret tt else
      if negb (IsVolumeMounted c (we_VolumeId event)) then ret tt else
      update (fun c => set_hub (Publish now event <$> co_eventHub c) c)
  end.

(** ** Heartbeats and cleanup *)

(** The body of the loop of [updateHeartbeats]; the row that was lost is registered again. *)
Definition heartbeat_volume `{UnicodeUpper} (id : string) (now : Z) (volumeID : string) : CM unit :=
  let* c := self in
  fun s =>
    match repo "" (UpdateMountHeartbeat volumeID (co_clusterID c) (co_podID c)) s with
    | (Err (CoordDb _ e), s') =>
        if Contains_str (db_text e) "not found" then
          match (do* update (fun c => set_mounted (co_mountedVolumes c ∖ {[volumeID]}) c) in
                 RegisterMount id now volumeID (mkMountOptions "" "" 0 "" "")) s' with
          | (Panic, s'') => (Panic, s'')
          | (_, s'') => (Ok tt, s'')
          end
        else (Ok tt, s')
    | (Panic, s') => (Panic, s')
    | (_, s') => (Ok tt, s')
    end.

(** The volumes are those mounted when the loop begins, each with an id and a time for the
    row it may make. *)
Fixpoint heartbeat_volumes `{UnicodeUpper} (supply : list (string * Z)) (volumes : list string) : CM unit :=
  match volumes, supply with
  | volumeID :: volumes, (id, now) :: supply =>
      do* heartbeat_volume id now volumeID in heartbeat_volumes supply volumes
  | _, _ => ret tt
  end.

Definition updateHeartbeats `{UnicodeUpper} (supply : list (string * Z)) : CM unit :=
  let* c := self in heartbeat_volumes supply (elements (co_mountedVolumes c)).

(** The Kubernetes API, as [podExists] asks it. *)
Inductive pod_answer := PodFound | PodNotFound | PodError.
Class Kubernetes := {
  k8s_present : bool;
  get_pod : string -> string -> pod_answer;
  list_pods : string -> option nat
}.

(** [strings.SplitN(s, "/", 2)] of a string that has a slash. *)
Fixpoint split_slash (s : string) : option (string * string) :=
  match s with
  | EmptyString => None
  | String a rest =>
      if decide (a = "/"%char) then Some ("", rest)
      else match split_slash rest with Some (l, r) => Some (String a l, r) | None => None end
  end.

Definition podExists `{Kubernetes} (podID : string) : bool :=
  if negb k8s_present || bool_decide (podID = "") then true else
  match split_slash podID with
  | Some (namespace, name) => match get_pod namespace name with PodNotFound => false | _ => true end
  | None => match list_pods podID with Some n => (0 <? n)%nat | None => true end
  end.

Fixpoint delete_orphans `{Kubernetes} (seen : gset string) (mounts : list VolumeMount) : CM unit :=
  match mounts with
  | [] => ret tt
  | m :: rest =>
      let podKey := vm_ClusterID m +:+ "/" +:+ vm_PodID m in
      if decide (podKey ∈ seen) then delete_orphans seen rest else
      if podExists (vm_PodID m) then delete_orphans ({[podKey]} ∪ seen) rest else
      do* repo_logged (DeleteMountByPodID (vm_ClusterID m) (vm_PodID m)) in
      delete_orphans ({[podKey]} ∪ seen) rest
  end.

(** One round of [runCleanup]. *)
Definition runCleanup `{Kubernetes} : CM unit :=
  let* c := self in
  do* (fun s => match repo "" GetAllMounts s with
                | (Ok mounts, s') => delete_orphans ∅ mounts s'
                | (Err _, s') => (Ok tt, s')
                | (Panic, s') => (Panic, s')
                end) in
  repo_logged (DeleteStaleMounts (heartbeat_timeout c)).

(** ** Watch events *)

Definition publish_event (now : Z) (event : WatchEvent) : CM unit :=
  let* c := self in
  let clone := mkEvent (we_VolumeId event) (we_EventType event) (we_Path event) (we_OldPath event) (we_Inode event)
    (if we_TimestampUnix event =? 0 then now else we_TimestampUnix event)
    (if decide (we_OriginInstance event = "") then GetInstanceID c else we_OriginInstance event)
    (we_OriginSandboxId event) (we_InvalidateId event) in
  do* update (fun c => set_hub (Publish now clone <$> co_eventHub c) c) in
  repo_logged (pg_notify (WatchNotice clone)).
