(* ===== verification/CoordinatorSpec.v ===== *)
(** * storage-proxy: what the coordination between instances guarantees

    Over all interleavings of the instances' steps: a volume for a single writer has at
    most one active mount as long as no heartbeat comes after its mount has expired; a
    coordinated flush that succeeds has been done by as many instances as had the volume
    mounted, and by all of them when none has joined. *)

From stdpp Require Import base gmap strings list fin_maps fin_sets numbers sorting relations.
From Stdlib Require Import Strings.Byte Strings.Ascii Lia.
From S2P Require Import Prelude GoStd Volume Notify Mounts Coordinator.

Local Open Scope Z_scope.

(** ** The rows of the mounts *)

(** Every row is filed under its volume, cluster and pod. *)
Definition keys_ok (d : DB) : Prop := forall k m, db_mounts d !! k = Some m -> key_of m = k.

(** Of a volume for a single writer at most one row is active. *)
Definition exclusive `{UnicodeUpper} (T : Z) (d : DB) : Prop :=
  forall v mode k1 k2 m1 m2, db_volumes d !! v = Some mode -> normalizeMountAccessMode mode = "RWO" ->
    db_mounts d !! k1 = Some m1 -> db_mounts d !! k2 = Some m2 ->
    vm_VolumeID m1 = v -> vm_VolumeID m2 = v -> is_active d T m1 = true -> is_active d T m2 = true -> k1 = k2.

Definition mounts_ok `{UnicodeUpper} (timely : bool) (T : Z) (d : DB) : Prop :=
  keys_ok d /\ (timely = true -> exclusive T d).

Lemma elem_of_active d v T m :
  m ∈ active_mounts d v T <-> vm_VolumeID m = v /\ is_active d T m = true /\ exists k, db_mounts d !! k = Some m.
Proof.
  unfold active_mounts, mounts_of. rewrite merge_sort_Permutation, !list_elem_of_filter, list_elem_of_fmap.
  split.
  - intros (Ha & Hv & [k x] & -> & Hin). apply elem_of_map_to_list in Hin. simpl in *.
    destruct (is_active d T x); naive_solver.
  - intros (Hv & Ha & k & Hk). split; [by rewrite Ha|]. split; [done|].
    exists (k, m). split; [done|]. by apply elem_of_map_to_list.
Qed.

(** The instances of the active mounts are distinct. *)
Definition instance_of (m : VolumeMount) : string * string := (vm_ClusterID m, vm_PodID m).

Lemma active_mounts_nodup d v T : keys_ok d -> NoDup (instance_of <$> active_mounts d v T).
Proof.
  intros Hk. unfold active_mounts. rewrite merge_sort_Permutation. unfold mounts_of.
  assert (forall l : list (mount_key * VolumeMount), NoDup l.*1 -> (forall k m, (k, m) ∈ l -> key_of m = k) ->
    NoDup (instance_of <$> filter (fun m => is_active d T m) (filter (fun m => vm_VolumeID m = v) (snd <$> l)))) as Hl.
  { induction l as [|[k m] l IH]; intros Hnd Hm; [constructor|]. cbn [fmap list_fmap snd fst] in *.
    apply NoDup_cons in Hnd as [Hk' Hnd].
    assert (IH' : NoDup (instance_of <$> filter (fun m => is_active d T m) (filter (fun m => vm_VolumeID m = v) (snd <$> l)))).
    { apply IH; [done|]. intros; apply Hm. by right. }
    rewrite filter_cons. case_decide as Hv; [|done]. rewrite filter_cons. case_decide; [|done].
    cbn [fmap list_fmap]. constructor; [|done]. intros (m' & Heq & Hin)%list_elem_of_fmap.
    apply list_elem_of_filter in Hin as [_ Hin]. apply list_elem_of_filter in Hin as [Hv' Hin].
    apply list_elem_of_fmap in Hin as ([k' m''] & -> & Hin). simpl in *. apply Hk'.
    apply list_elem_of_fmap. exists (k', m''). split; [|done]. simpl.
    rewrite <- (Hm k m) by left. rewrite <- (Hm k' m'') by by right.
    unfold key_of, instance_of in *. congruence. }
  apply Hl.
  - apply NoDup_fst_map_to_list.
  - intros k m Hin. apply elem_of_map_to_list in Hin. by apply Hk.
Qed.

(** ** The parts of the database a call leaves alone *)

Definition same_tables (d d' : DB) : Prop :=
  db_now d' = db_now d /\ db_volumes d' = db_volumes d /\ db_mounts d' = db_mounts d.
Definition same_flushes (d d' : DB) : Prop :=
  db_coords d' = db_coords d /\ db_responses d' = db_responses d /\ db_notices d' = db_notices d.

Section guards.
Context `{UnicodeUpper} (timely : bool) (T : Z) (HT : 0 < T).

Lemma same_tables_ok d d' : same_tables d d' -> mounts_ok timely T d -> mounts_ok timely T d'.
Proof.
  intros (Hn & Hv & Hm) [Hk He]. split.
  - intros k m. rewrite Hm. apply Hk.
  - intros Ht. specialize (He Ht). unfold exclusive, is_active in *. by rewrite Hn, Hv, Hm.
Qed.

(** [m] keeps the rows of the mounts as they should be, and leaves the flushes alone. *)
Definition guarded {A} (m : DBM A) : Prop := forall d, mounts_ok timely T d ->
  mounts_ok timely T (m d).2 /\ same_flushes d (m d).2.

Lemma guarded_stmt {A} w (f : DB -> res db_error A * DB) :
  (forall d, mounts_ok timely T d -> mounts_ok timely T (f d).2 /\ same_flushes d (f d).2) -> guarded (stmt w f).
Proof.
  intros Hf d Hd. unfold stmt.
  assert (forall os, mounts_ok timely T (set_outcomes os d)) as Ho.
  { intros os. by apply (same_tables_ok d). }
  destruct (db_outcomes d) as [|[e|] os]; [by apply Hf| |].
  - split; [apply Ho|done].
  - destruct (Hf _ (Ho os)) as [H1 H2]. split; [exact H1|exact H2].
Qed.

Lemma guarded_read {A} w (f : DB -> res db_error A) : guarded (stmt w (fun d => (f d, d))).
Proof. by apply guarded_stmt. Qed.

(** Fewer rows are still as they should be. *)
Lemma fewer_mounts_ok d ms : ms ⊆ db_mounts d -> mounts_ok timely T d -> mounts_ok timely T (set_mounts ms d).
Proof.
  intros Hs [Hk He]. split.
  - intros k m Hm. apply Hk. by apply (lookup_weaken ms).
  - intros Ht v mode k1 k2 m1 m2 Hv Hr H1 H2 ? ? ? ?. simpl in *.
    apply (He Ht v mode k1 k2 m1 m2); try done; by apply (lookup_weaken ms).
Qed.

Lemma guarded_delete v c p : guarded (DeleteMount v c p).
Proof. apply guarded_stmt. intros d Hd. split; [|done]. apply fewer_mounts_ok; [apply delete_subseteq|done]. Qed.

Lemma guarded_delete_pod c p : guarded (DeleteMountByPodID c p).
Proof. apply guarded_stmt. intros d Hd. split; [|done]. apply fewer_mounts_ok; [apply map_filter_subseteq|done]. Qed.

Lemma guarded_delete_stale t : guarded (DeleteStaleMounts t).
Proof. apply guarded_stmt. intros d Hd. split; [|done]. apply fewer_mounts_ok; [apply map_filter_subseteq|done]. Qed.

(** A new row for [m], with no other active row of its volume if that is for one writer. *)
Lemma upsert_ok d m :
  mounts_ok timely T d ->
  (forall mode, db_volumes d !! vm_VolumeID m = Some mode -> normalizeMountAccessMode mode = "RWO" ->
     forall k a, db_mounts d !! k = Some a -> vm_VolumeID a = vm_VolumeID m -> is_active d T a = true -> k = key_of m) ->
  mounts_ok timely T (set_mounts (upsert m (db_mounts d)) d).
Proof.
  intros [Hk He] Hfree.
  assert (forall k a, upsert m (db_mounts d) !! k = Some a ->
    (k = key_of m /\ key_of a = k) \/ (k <> key_of m /\ db_mounts d !! k = Some a)) as Hu.
  { intros k a. unfold upsert. destruct (db_mounts d !! key_of m) eqn:E; intros Hl;
      apply lookup_insert_Some in Hl as [[<- <-]|[Hne Hl]]; [by left|by right|by left|by right]. }
  split.
  - intros k a Ha. apply Hu in Ha as [[_ ?]|[_ Ha]]; [done|]. by apply Hk.
  - intros Ht v mode k1 k2 m1 m2 Hv Hr H1 H2 E1 E2 A1 A2. specialize (He Ht). simpl in *.
    apply Hu in H1 as [[-> K1]|[N1 H1]]; apply Hu in H2 as [[-> K2]|[N2 H2]]; [done| | |by apply (He v mode k1 k2 m1 m2)].
    + exfalso. apply N2. apply (Hfree mode) with m2; try done; unfold key_of in *; congruence.
    + exfalso. apply N1. apply (Hfree mode) with m1; try done; unfold key_of in *; congruence.
Qed.

(** A heartbeat: in a timely run the row is missing or still active. *)
Lemma guarded_heartbeat v c p d :
  mounts_ok timely T d ->
  (timely = true -> forall m, db_mounts d !! (v, c, p) = Some m -> is_active d T m = true) ->
  mounts_ok timely T (UpdateMountHeartbeat v c p d).2 /\ same_flushes d (UpdateMountHeartbeat v c p d).2.
Proof.
  intros Hd Hact. unfold UpdateMountHeartbeat, stmt.
  assert (forall d', same_tables d d' -> mounts_ok timely T d' /\ (timely = true -> forall m, db_mounts d' !! (v, c, p) = Some m -> is_active d' T m = true)) as Hs.
  { intros d' Hs. split; [by apply (same_tables_ok d)|]. destruct Hs as (Hn & _ & Hm). unfold is_active. rewrite Hn, Hm. exact Hact. }
  assert (forall d', same_tables d d' -> same_flushes d d' ->
    let r := match db_mounts d' !! (v, c, p) with
             | None => (Err ErrNotFound : res db_error unit, d')
             | Some m => (Ok tt, set_mounts (<[(v, c, p) := mkVolumeMount (vm_ID m) (vm_VolumeID m) (vm_ClusterID m) (vm_PodID m)
                            (db_now d') (vm_MountedAt m) (vm_MountOptions m)]> (db_mounts d')) d')
             end in mounts_ok timely T r.2 /\ same_flushes d r.2) as Hb.
  { intros d' Hst Hsf. destruct (Hs d' Hst) as [[Hk He] Ha]. simpl.
    destruct (db_mounts d' !! (v, c, p)) as [m|] eqn:E; [|by split]. split; [|exact Hsf]. split.
    - intros k x Hx. simpl in Hx. apply lookup_insert_Some in Hx as [[<- <-]|[_ Hx]]; [|by apply Hk].
      by apply (Hk _ m).
    - intros Ht w mode k1 k2 m1 m2 Hv Hr H1 H2 E1 E2 A1 A2. specialize (He Ht).
      assert (forall k x, <[(v, c, p) := mkVolumeMount (vm_ID m) (vm_VolumeID m) (vm_ClusterID m) (vm_PodID m)
          (db_now d') (vm_MountedAt m) (vm_MountOptions m)]> (db_mounts d') !! k = Some x ->
          vm_VolumeID x = w -> is_active d' T x = true ->
          exists y, db_mounts d' !! k = Some y /\ vm_VolumeID y = w /\ is_active d' T y = true) as Hold.
      { intros k x Hx Hw Hax. apply lookup_insert_Some in Hx as [[<- <-]|[_ Hx]]; [|by exists x].
        exists m. split; [done|]. split; [done|]. by apply (Ha Ht). }
      destruct (Hold k1 m1 H1 E1 A1) as (y1 & ? & ? & ?). destruct (Hold k2 m2 H2 E2 A2) as (y2 & ? & ? & ?).
      by apply (He w mode k1 k2 y1 y2). }
  destruct (db_outcomes d) as [|[e|] os]; [by apply Hb| |by apply Hb].
  split; [by apply Hs|done].
Qed.

(** ** Taking a mount *)

(** What a successful read of the volume and its active mounts saw, and the tables after. *)
Lemma lock_ok v d mode d' :
  lock_volume v d = (Ok mode, d') -> db_volumes d !! v = Some mode /\ same_tables d d' /\ same_flushes d d'.
Proof.
  unfold lock_volume, stmt. destruct (db_outcomes d) as [|[e|] os]; simpl; [| |];
    try (destruct (db_volumes d !! v) eqn:E); intros [= <- <-] || intros [=]; done.
Qed.

Lemma active_ok v t d ms d' :
  getActiveMounts v t d = (Ok ms, d') -> ms = active_mounts d v t /\ same_tables d d' /\ same_flushes d d'.
Proof. unfold getActiveMounts, stmt. destruct (db_outcomes d) as [|[e|] os]; intros [= <- <-]; done. Qed.

Lemma create_ok m d d' :
  createMount m d = (Ok tt, d') ->
  exists d0, same_tables d d0 /\ same_flushes d d0 /\ d' = set_mounts (upsert m (db_mounts d0)) d0.
Proof. unfold createMount, stmt. destruct (db_outcomes d) as [|[e|] os]; intros [= <-]; [by exists d|by exists (set_outcomes os d)]. Qed.

Lemma same_tables_trans d1 d2 d3 : same_tables d1 d2 -> same_tables d2 d3 -> same_tables d1 d3.
Proof. intros (? & ? & ?) (? & ? & ?). repeat split; congruence. Qed.
Lemma same_flushes_trans d1 d2 d3 : same_flushes d1 d2 -> same_flushes d2 d3 -> same_flushes d1 d3.
Proof. intros (? & ? & ?) (? & ? & ?). repeat split; congruence. Qed.

(** A transaction that fails leaves the tables alone; otherwise they are those its body left. *)
Lemma with_tx_guarded {A} (fn : DBM A) :
  (forall d, (fn d).1 <> Panic) ->
  (forall d a d', mounts_ok timely T d -> fn d = (Ok a, d') -> mounts_ok timely T d' /\ same_flushes d d') ->
  guarded (WithTx fn).
Proof.
  intros Hnp Hfn d Hd. unfold WithTx.
  assert (forall w d, exists r, stmt w (fun d => (Ok tt, d)) d = (r, (stmt w (fun d => (Ok tt, d)) d).2) /\ r <> Panic /\
    same_tables d (stmt w (fun d => (Ok tt, d)) d).2 /\ same_flushes d (stmt w (fun d => (Ok tt, d)) d).2) as Hs.
  { intros w x. unfold stmt. destruct (db_outcomes x) as [|[e|] os]; eexists; repeat split; done. }
  destruct (Hs "begin transaction" d) as (r & -> & Hr & Ht & Hf).
  set (d1 := (stmt _ _ d).2) in *. destruct r as [[]|e|]; [|split; [by apply (same_tables_ok d)|done]|done].
  assert (mounts_ok timely T d1) as Hd1 by by apply (same_tables_ok d).
  specialize (Hnp d1). destruct (fn d1) as [[a|e|] d2] eqn:E; [| |done].
  - destruct (Hfn d1 a d2 Hd1 E) as [Hok Hfl]. destruct (Hs "commit transaction" d2) as (r & -> & Hr' & Ht' & Hf').
    destruct r as [[]|e|]; [| |done].
    + split; [by apply (same_tables_ok d2)|]. by eapply same_flushes_trans; [|exact Hf']; eapply same_flushes_trans.
    + split; [by apply (same_tables_ok d1)|]. by eapply same_flushes_trans.
  - split; [by apply (same_tables_ok d1)|]. by eapply same_flushes_trans.
Qed.

Lemma guarded_acquire m : guarded (AcquireMount m T).
Proof.
  unfold AcquireMount. destruct (Z.leb_spec T 0); [lia|]. apply with_tx_guarded.
  { intros d. unfold lock_volume, getActiveMounts, createMount, bind, stmt, ret, throw.
    repeat (case_match; simplify_eq/=; try done). }
  intros d [] d' Hd Hb. apply bind_ok_inv in Hb as (mode & d1 & H1 & Hb). apply bind_ok_inv in Hb as (ms & d2 & H2 & Hb).
  apply bind_ok_inv in Hb as ([] & d3 & H3 & H4).
  apply lock_ok in H1 as (Hv & T1 & F1). apply active_ok in H2 as (-> & T2 & F2).
  assert (d3 = d2 /\ (normalizeMountAccessMode mode = "RWO" ->
     forallb (fun a => same_instance a (vm_ClusterID m) (vm_PodID m)) (active_mounts d1 (vm_VolumeID m) T) = true)) as [-> Hfree].
  { repeat case_match; unfold ret, throw in *; simplify_eq; split; try done; intros; simplify_eq. }
  apply create_ok in H4 as (d4 & T4 & F4 & ->).
  assert (same_tables d d4) as Ht by eauto using same_tables_trans.
  split; [|eapply same_flushes_trans; [|exact F4]; by eapply same_flushes_trans].
  apply upsert_ok; [by apply (same_tables_ok d)|]. destruct Ht as (Hn & Hvs & Hms).
  intros mode' Hmode' Hr k a Ha Hva Hact. rewrite Hvs, Hv in Hmode'. injection Hmode' as <-.
  specialize (Hfree Hr). rewrite forallb_forall in Hfree. destruct T1 as (Hn1 & _ & Hm1).
  assert (a ∈ active_mounts d1 (vm_VolumeID m) T) as Hin.
  { apply elem_of_active. split; [done|]. split; [by unfold is_active in *; rewrite Hn1, <- Hn|].
    exists k. by rewrite Hm1, <- Hms. }
  apply list_elem_of_In in Hin. specialize (Hfree a Hin). unfold same_instance in Hfree.
  destruct Hd as [Hk _]. rewrite Hms in Ha. rewrite <- (Hk k a Ha). unfold key_of.
  apply andb_prop in Hfree as [Hc%bool_decide_eq_true Hp%bool_decide_eq_true]. congruence.
Qed.

Lemma delete_ok v c p d d' :
  DeleteMount v c p d = (Ok tt, d') ->
  exists d0, same_tables d d0 /\ same_flushes d d0 /\ d' = set_mounts (delete (v, c, p) (db_mounts d0)) d0.
Proof. unfold DeleteMount, stmt. destruct (db_outcomes d) as [|[e|] os]; intros [= <-]; [by exists d|by exists (set_outcomes os d)]. Qed.

Lemma guarded_transfer v sc sp target : vm_VolumeID target = v -> guarded (TransferMount v sc sp target T).
Proof.
  intros Hvt. unfold TransferMount. destruct (Z.leb_spec T 0); [lia|].
  destruct (_ || _ || _); [by intros d Hd|]. destruct (_ || _); [by intros d Hd|]. apply with_tx_guarded.
  { intros d. unfold lock_volume, getActiveMounts, createMount, DeleteMount, bind, stmt, ret, throw.
    repeat (case_match; simplify_eq/=; try done). }
  intros d [] d' Hd Hb. apply bind_ok_inv in Hb as (mode & d1 & H1 & Hb). case_decide as Hmode; [done|].
  apply bind_ok_inv in Hb as (ms & d2 & H2 & Hb).
  apply lock_ok in H1 as (Hv & T1 & F1). apply active_ok in H2 as (-> & T2 & F2).
  destruct (negb _) eqn:Hfree; [done|]. apply negb_false_iff in Hfree.
  destruct (negb (existsb _ _)); [done|]. apply bind_ok_inv in Hb as ([] & d3 & H3 & H4).
  apply delete_ok in H3 as (d3' & T3 & F3 & ->). apply create_ok in H4 as (d4 & T4 & F4 & ->).
  set (dx := set_mounts (delete (v, sc, sp) (db_mounts d3')) d3') in *.
  assert (same_tables d d3') as Ht by eauto using same_tables_trans.
  assert (mounts_ok timely T d4) as Hd4.
  { apply (same_tables_ok dx); [done|]. apply fewer_mounts_ok; [apply delete_subseteq|by apply (same_tables_ok d)]. }
  split; [|eapply same_flushes_trans; [|exact F4]; eapply same_flushes_trans; [|exact F3]; by eapply same_flushes_trans].
  apply upsert_ok; [done|]. destruct Ht as (Hn & Hvs & Hms). destruct T4 as (Hn4 & Hv4 & Hm4).
  intros _ _ _ k a Ha Hva Hact. rewrite Hm4 in Ha. unfold dx in Ha; simpl in Ha. apply lookup_delete_Some in Ha as [Hne Ha].
  rewrite forallb_forall in Hfree. destruct T1 as (Hn1 & _ & Hm1).
  assert (a ∈ active_mounts d1 v T) as Hin.
  { apply elem_of_active. split; [congruence|]. split; [unfold is_active in *; simpl in Hn4; rewrite Hn4, Hn in Hact; by rewrite Hn1|].
    exists k. by rewrite Hm1, <- Hms. }
  apply list_elem_of_In in Hin. specialize (Hfree a Hin). destruct Hd as [Hk _]. rewrite Hms in Ha.
  specialize (Hk k a Ha). unfold same_instance, key_of in *.
  apply orb_prop in Hfree as [Hs|Hs]; apply andb_prop in Hs as [Hc%bool_decide_eq_true Hp%bool_decide_eq_true]; congruence.
Qed.
End guards.

(** ** The calls of a coordinator *)

(** What does not change but by flush requests. *)
Definition node_part (c : Coordinator) := (co_config c, co_clusterID c, co_podID c, co_flushCh c).

Section nodes.
Context `{UnicodeUpper} (timely : bool) (T : Z) (HT : 0 < T).

Definition call_keeps (c : Coordinator) (d : DB) (s : Coordinator * DB) : Prop :=
  mounts_ok timely T s.2 /\ same_flushes d s.2 /\ node_part s.1 = node_part c.

Definition guarded_call {A} (m : CM A) : Prop := forall c d, heartbeat_timeout c = T -> mounts_ok timely T d ->
  call_keeps c d (m (c, d)).2.

Lemma part_timeout c c' : node_part c' = node_part c -> heartbeat_timeout c' = heartbeat_timeout c.
Proof. unfold node_part, heartbeat_timeout. by intros [= -> _ _ _]. Qed.

Lemma call_bind {A B} (m : CM A) (k : A -> CM B) :
  guarded_call m -> (forall a, guarded_call (k a)) -> guarded_call (bind m k).
Proof.
  intros Hm Hk c d Hc Hd. unfold bind. specialize (Hm c d Hc Hd). destruct (m (c, d)) as [r [c1 d1]].
  destruct Hm as (H1 & H2 & H3). simpl in *. destruct r as [a|e|]; [|by split_and!..].
  destruct (Hk a c1 d1) as (H4 & H5 & H6); [by rewrite (part_timeout c c1)|done|].
  split_and!; [done|by eapply same_flushes_trans|congruence].
Qed.

Lemma call_ret {A} (a : A) : guarded_call (ret a).
Proof. intros c d Hc Hd. by split_and!. Qed.
Lemma call_throw {A} e : guarded_call (throw e : CM A).
Proof. intros c d Hc Hd. by split_and!. Qed.

Lemma call_self {A} (k : Coordinator -> CM A) :
  (forall c, heartbeat_timeout c = T -> guarded_call (k c)) -> guarded_call (let* c := self in k c).
Proof. intros Hk c d Hc Hd. by apply (Hk c Hc). Qed.

Lemma call_update f : (forall c, node_part (f c) = node_part c) -> guarded_call (update f).
Proof. intros Hf c d Hc Hd. split_and!; [done|done|apply Hf]. Qed.

Lemma call_repo {A} p (m : DBM A) : guarded timely T m -> guarded_call (repo p m).
Proof.
  intros Hm c d Hc Hd. unfold repo. destruct (Hm d Hd) as [H1 H2]. destruct (m d) as [r d']. by split_and!.
Qed.
Lemma call_logged (m : DBM unit) : guarded timely T m -> guarded_call (repo_logged m).
Proof.
  intros Hm c d Hc Hd. unfold repo_logged. destruct (Hm d Hd) as [H1 H2]. destruct (m d) as [r d']. by split_and!.
Qed.
End nodes.

Create HintDb coord.
#[export] Hint Resolve call_bind call_ret call_throw call_update call_repo call_logged guarded_acquire guarded_delete
  guarded_delete_pod guarded_delete_stale guarded_read : coord.

Section calls.
Context `{UnicodeUpper} (timely : bool) (T : Z) (HT : 0 < T).
Local Abbreviation guarded_call := (guarded_call timely T).

Lemma call_register id now v o : guarded_call (RegisterMount id now v o).
Proof. apply call_self. intros c <-. destruct (IsVolumeMounted c v); auto with coord. Qed.

Lemma call_unregister v : guarded_call (UnregisterMount v).
Proof. apply call_self. intros c <-. destruct (negb _); auto with coord. Qed.

Lemma call_validate v m : guarded_call (ValidateMount v m).
Proof.
  apply call_self. intros c <-. apply call_bind; [apply call_repo, guarded_read|]. intros ms.
  repeat case_match; auto with coord.
Qed.

Lemma call_start : guarded_call Start.
Proof.
  apply call_self. intros c <-. destruct (co_started c); [auto with coord|].
  repeat (apply call_bind; [first [apply call_repo, guarded_read|by apply call_update]|intros _]).
  apply call_repo, guarded_read.
Qed.

Lemma call_unregister_all vs : guarded_call (unregister_all vs).
Proof.
  induction vs as [|v vs IH]; [apply call_ret|]. intros c d Hc Hd. cbn [unregister_all].
  destruct (call_unregister v c d Hc Hd) as (H1 & H2 & H3). destruct (UnregisterMount v (c, d)) as [r [c1 d1]]. simpl in *.
  assert (call_keeps timely T c d (unregister_all vs (c1, d1)).2) as Hrest.
  { destruct (IH c1 d1) as (H4 & H5 & H6); [by rewrite (part_timeout c c1)|done|].
    split_and!; [done|by eapply same_flushes_trans|congruence]. }
  destruct r; [exact Hrest|exact Hrest|by split_and!].
Qed.

Lemma call_stop : guarded_call Stop.
Proof.
  apply call_self. intros c Hc. destruct (_ || _); [auto with coord|]. apply call_bind; [by apply call_update|]. intros _.
  apply call_self. intros c' ?. apply call_unregister_all.
Qed.

Lemma call_plan v : guarded_call (flush_plan v).
Proof. apply call_self. intros c <-. apply call_repo, guarded_read. Qed.

Lemma call_orphans `{Kubernetes} seen ms : guarded_call (delete_orphans seen ms).
Proof.
  revert seen. induction ms as [|m ms IH]; intros seen; [apply call_ret|]. cbn [delete_orphans].
  case_decide; [apply IH|]. destruct (podExists _); [apply IH|]. apply call_bind; auto with coord.
Qed.

Lemma call_cleanup `{Kubernetes} : guarded_call runCleanup.
Proof.
  apply call_self. intros c Hc0. apply call_bind; [|intros _; auto with coord].
  intros c' d Hc Hd. destruct (call_repo timely T "" GetAllMounts (guarded_read _ _ _ _) c' d Hc Hd) as (H1 & H2 & H3).
  destruct (repo "" GetAllMounts (c', d)) as [r [c1 d1]] eqn:E. simpl in *. destruct r as [ms|e|]; [|by split_and!..].
  destruct (call_orphans ∅ ms c1 d1) as (H4 & H5 & H6); [by rewrite (part_timeout c' c1)|done|].
  split_and!; [done|by eapply same_flushes_trans|congruence].
Qed.

(** In a timely run a heartbeat finds its row active or not at all. *)
Definition heartbeat_timely (c : Coordinator) (d : DB) (v : string) : Prop :=
  timely = true -> forall m, db_mounts d !! (v, co_clusterID c, co_podID c) = Some m -> is_active d T m = true.

Lemma call_heartbeat id now v c d :
  heartbeat_timeout c = T -> mounts_ok timely T d -> heartbeat_timely c d v ->
  call_keeps timely T c d (heartbeat_volume id now v (c, d)).2.
Proof.
  intros Hc Hd Ht. unfold heartbeat_volume. cbn [bind self gets fst].
  destruct (guarded_heartbeat timely T v (co_clusterID c) (co_podID c) d Hd Ht) as [H1 H2].
  unfold repo. destruct (UpdateMountHeartbeat _ _ _ d) as [r d1]. simpl in *.
  destruct r as [[]|e|]; [by split_and!| |by split_and!]. destruct (Contains_str _ _); [|by split_and!].
  set (m := bind _ _). assert (guarded_call m) as Hm.
  { apply call_bind; [by apply call_update|]. intros _. apply call_register. }
  destruct (Hm c d1 Hc H1) as (H4 & H5 & H6). destruct (m (c, d1)) as [r [c2 d2]]. simpl in *.
  destruct r; (split_and!; [done|by eapply same_flushes_trans|done]).
Qed.
End calls.

(** ** The instances together *)

Inductive op :=
| OpRegister (id : string) (now : Z) (volumeID : string) (options : MountOptions)
| OpUnregister (volumeID : string)
| OpValidate (volumeID accessMode : string)
| OpStart
| OpStop
| OpCleanup (K : Kubernetes)
| OpHeartbeat (id : string) (now : Z) (volumeID : string)
| OpTransfer (volumeID sourceClusterID sourcePodID : string) (target : VolumeMount)
| OpNotice (now : Z) (n : notice)
| OpFlush (flushed : res string unit)
| OpPublish (now : Z) (e : WatchEvent).

Definition run_op `{UnicodeUpper} (T : Z) (o : op) : CM unit :=
  match o with
  | OpRegister id now v options => RegisterMount id now v options
  | OpUnregister v => UnregisterMount v
  | OpValidate v mode => ValidateMount v mode
  | OpStart => Start
  | OpStop => Stop
  | OpCleanup K => runCleanup
  | OpHeartbeat id now v => heartbeat_volume id now v
  | OpTransfer v sc sp target => repo "" (TransferMount v sc sp target T)
  | OpNotice now n => runNotificationListener now n
  | OpFlush flushed => runFlushHandler flushed
  | OpPublish now e => publish_event now e
  end.

(** [sy_plans] are the active mounts that calls of [CoordinateFlush] have read, [sy_waits]
    the coordinations they wait for with those mounts; [sy_flushed] which instance has
    flushed which volume for which coordination. *)
Record system := mkSystem {
  sy_db : DB;
  sy_nodes : gmap (string * string) Coordinator;
  sy_plans : list (string * list VolumeMount);
  sy_waits : list (SnapshotCoordination * list VolumeMount);
  sy_flushed : list (string * string * string * string)
}.

Definition flush_done (c : Coordinator) (o : op) : list (string * string * string * string) :=
  match o, co_flushCh c with
  | OpFlush (Ok _), (coordID, volumeID) :: _ =>
      if IsVolumeMounted c volumeID then [(coordID, volumeID, co_clusterID c, co_podID c)] else []
  | _, _ => []
  end.

(** Notifications are those that were sent, a transfer is of the target's volume, and in a
    timely run no heartbeat comes too late. *)
Definition op_ok (timely : bool) (T : Z) (c : Coordinator) (d : DB) (o : op) : Prop :=
  match o with
  | OpHeartbeat _ _ v => heartbeat_timely timely T c d v
  | OpTransfer v _ _ target => vm_VolumeID target = v
  | OpNotice _ n => n ∈ db_notices d
  | _ => True
  end.

Inductive sys_step `{UnicodeUpper} (timely : bool) (T : Z) (s : system) : system -> Prop :=
| step_op i c o r c' d' :
    sy_nodes s !! i = Some c -> op_ok timely T c (sy_db s) o -> run_op T o (c, sy_db s) = (r, (c', d')) ->
    sys_step timely T s (mkSystem d' (<[i := c']> (sy_nodes s)) (sy_plans s) (sy_waits s) (flush_done c o ++ sy_flushed s))
| step_plan i c v ms c' d' :
    sy_nodes s !! i = Some c -> flush_plan v (c, sy_db s) = (Ok ms, (c', d')) ->
    sys_step timely T s (mkSystem d' (<[i := c']> (sy_nodes s)) ((v, ms) :: sy_plans s) (sy_waits s) (sy_flushed s))
| step_announce i c coordID now v ms r c' d' :
    sy_nodes s !! i = Some c -> (v, ms) ∈ sy_plans s -> flush_announce coordID now v ms (c, sy_db s) = (r, (c', d')) ->
    sys_step timely T s (mkSystem d' (<[i := c']> (sy_nodes s)) (sy_plans s)
      (match r with Ok (Some coord) => (coord, ms) :: sy_waits s | _ => sy_waits s end) (sy_flushed s))
| step_wait i c coord ms e r c' d' :
    sy_nodes s !! i = Some c -> (coord, ms) ∈ sy_waits s -> waitForFlushCompletion coord e (c, sy_db s) = (r, (c', d')) ->
    sys_step timely T s (mkSystem d' (<[i := c']> (sy_nodes s)) (sy_plans s) (sy_waits s) (sy_flushed s))
| step_clock now outcomes :
    db_now (sy_db s) <= now ->
    sys_step timely T s (mkSystem (mkDB now (db_volumes (sy_db s)) (db_mounts (sy_db s)) (db_handoffs (sy_db s))
      (db_coords (sy_db s)) (db_responses (sy_db s)) (db_notices (sy_db s)) outcomes)
      (sy_nodes s) (sy_plans s) (sy_waits s) (sy_flushed s))
| step_volume v mode :
    db_volumes (sy_db s) !! v = None -> (forall k m, db_mounts (sy_db s) !! k = Some m -> vm_VolumeID m <> v) ->
    sys_step timely T s (mkSystem (mkDB (db_now (sy_db s)) (<[v := mode]> (db_volumes (sy_db s))) (db_mounts (sy_db s))
      (db_handoffs (sy_db s)) (db_coords (sy_db s)) (db_responses (sy_db s)) (db_notices (sy_db s)) (db_outcomes (sy_db s)))
      (sy_nodes s) (sy_plans s) (sy_waits s) (sy_flushed s))
| step_join config clusterID podID hub :
    sy_nodes s !! (clusterID, podID) = None -> heartbeat_timeout (NewCoordinator config clusterID podID hub) = T ->
    sys_step timely T s (mkSystem (sy_db s) (<[(clusterID, podID) := NewCoordinator config clusterID podID hub]> (sy_nodes s))
      (sy_plans s) (sy_waits s) (sy_flushed s)).

Definition sys_init (now : Z) : system := mkSystem (mkDB now ∅ ∅ ∅ ∅ ∅ [] []) ∅ [] [] [].

(** ** The invariant *)

Definition coord_volume (d : DB) (coordID v : string) : Prop :=
  exists co, db_coords d !! coordID = Some co /\ sc_VolumeID co = v.

Definition node_ok (T : Z) (d : DB) (i : string * string) (c : Coordinator) : Prop :=
  (co_clusterID c, co_podID c) = i /\ heartbeat_timeout c = T /\
  forall x v, (x, v) ∈ co_flushCh c -> coord_volume d x v.

Definition response_ok (d : DB) (flushed : list (string * string * string * string)) (k : mount_key) (r : FlushResponse) : Prop :=
  k = (fr_CoordID r, fr_ClusterID r, fr_PodID r) /\
  (fr_Success r = true -> exists v, coord_volume d (fr_CoordID r) v /\ (fr_CoordID r, v, fr_ClusterID r, fr_PodID r) ∈ flushed).

Record sys_inv `{UnicodeUpper} (timely : bool) (T : Z) (s : system) : Prop := {
  inv_mounts : mounts_ok timely T (sy_db s);
  inv_notices : forall x v, FlushRequest x v ∈ db_notices (sy_db s) -> coord_volume (sy_db s) x v;
  inv_nodes : forall i c, sy_nodes s !! i = Some c -> node_ok T (sy_db s) i c;
  inv_responses : forall k r, db_responses (sy_db s) !! k = Some r -> response_ok (sy_db s) (sy_flushed s) k r;
  inv_plans : forall v ms, (v, ms) ∈ sy_plans s -> NoDup (instance_of <$> ms);
  inv_waits : forall coord ms, (coord, ms) ∈ sy_waits s ->
    NoDup (instance_of <$> ms) /\ sc_ExpectedNodes coord = zlen ms /\ coord_volume (sy_db s) (sc_ID coord) (sc_VolumeID coord)
}.

Section invariant.
Context `{UnicodeUpper} (timely : bool) (T : Z) (HT : 0 < T).
Local Abbreviation sys_inv := (sys_inv timely T).
Local Abbreviation mounts_ok := (mounts_ok timely T).

Definition coords_grow (d d' : DB) : Prop := forall x v, coord_volume d x v -> coord_volume d' x v.

Lemma node_ok_grow d d' i c : coords_grow d d' -> node_ok T d i c -> node_ok T d' i c.
Proof. intros Hg (H1 & H2 & H3). split_and!; [done..|]. intros x v Hin. apply Hg, H3, Hin. Qed.

Lemma response_ok_grow d d' fl fl' k r : coords_grow d d' -> fl ⊆ fl' -> response_ok d fl k r -> response_ok d' fl' k r.
Proof.
  intros Hg Hf [H1 H2]. split; [done|]. intros Hs. destruct (H2 Hs) as (v & Hv & Hin). exists v. split; [by apply Hg|by apply Hf].
Qed.

(** A step of node [i]: what it adds is as it should be. *)
Lemma inv_step s i c' d' plans waits fl :
  sys_inv s -> mounts_ok d' -> coords_grow (sy_db s) d' -> sy_flushed s ⊆ fl ->
  (forall x v, FlushRequest x v ∈ db_notices d' -> FlushRequest x v ∈ db_notices (sy_db s) \/ coord_volume d' x v) ->
  (forall k r, db_responses d' !! k = Some r -> db_responses (sy_db s) !! k = Some r \/ response_ok d' fl k r) ->
  node_ok T d' i c' ->
  (forall v ms, (v, ms) ∈ plans -> (v, ms) ∈ sy_plans s \/ NoDup (instance_of <$> ms)) ->
  (forall coord ms, (coord, ms) ∈ waits -> (coord, ms) ∈ sy_waits s \/
     (NoDup (instance_of <$> ms) /\ sc_ExpectedNodes coord = zlen ms /\ coord_volume d' (sc_ID coord) (sc_VolumeID coord))) ->
  sys_inv (mkSystem d' (<[i := c']> (sy_nodes s)) plans waits fl).
Proof.
  intros [I1 I2 I3 I4 I5 I6] Hm Hg Hf Hn Hr Hc Hp Hw. split; simpl.
  - done.
  - intros x v Hin. destruct (Hn x v Hin) as [Hold|]; [|done]. by apply Hg, I2.
  - intros j c Hj. apply lookup_insert_Some in Hj as [[<- <-]|[_ Hj]]; [done|]. apply (node_ok_grow (sy_db s)); [done|by apply I3].
  - intros k r Hk. destruct (Hr k r Hk) as [Hold|]; [|done]. apply (response_ok_grow (sy_db s) _ (sy_flushed s)); [done..|by apply I4].
  - intros v ms Hin. destruct (Hp v ms Hin) as [Hold|]; [|done]. by apply (I5 v).
  - intros co ms Hin. destruct (Hw co ms Hin) as [Hold|]; [|done]. destruct (I6 co ms Hold) as (? & ? & ?). split_and!; [done..|by apply Hg].
Qed.

Lemma same_flushes_grow d d' : same_flushes d d' -> coords_grow d d'.
Proof. intros (Hc & _ & _) x v (co & Hco & Hv). exists co. by rewrite Hc. Qed.

(** A call that leaves the flushes alone. *)
Lemma inv_call s i c s' plans fl :
  sys_inv s -> sy_nodes s !! i = Some c -> call_keeps timely T c (sy_db s) s' -> sy_flushed s ⊆ fl ->
  (forall v ms, (v, ms) ∈ plans -> (v, ms) ∈ sy_plans s \/ NoDup (instance_of <$> ms)) ->
  sys_inv (mkSystem s'.2 (<[i := s'.1]> (sy_nodes s)) plans (sy_waits s) fl).
Proof.
  intros Hs Hi (Hm & Hf & Hp) Hfl Hpl. pose proof (same_flushes_grow _ _ Hf) as Hg.
  apply inv_step; try done; try (by left).
  - intros x v. destruct Hf as (_ & _ & ->). by left.
  - intros k r. destruct Hf as (_ & -> & _). by left.
  - destruct (inv_nodes _ _ _ Hs i c Hi) as (H1 & H2 & H3). destruct s' as [c' d']. simpl in *.
    pose proof (part_timeout c c' Hp) as Ht. injection Hp as _ Hcl Hpd Hq.
    split_and!; [congruence|congruence|]. rewrite Hq. intros x v Hin. by apply Hg, H3.
Qed.

(** Statements on the coordinations, the responses and the notifications. *)
Lemma status_frame x st d :
  same_tables d (UpdateCoordinationStatus x st d).2 /\ coords_grow d (UpdateCoordinationStatus x st d).2 /\
  db_responses (UpdateCoordinationStatus x st d).2 = db_responses d /\ db_notices (UpdateCoordinationStatus x st d).2 = db_notices d.
Proof.
  assert (forall d0, same_tables d d0 -> same_flushes d d0 ->
    let d' := (match db_coords d0 !! x with
      | None => (Err ErrNotFound : res db_error unit, d0)
      | Some c => (Ok tt, set_coords (<[x := mkCoordination (sc_ID c) (sc_VolumeID c) (sc_SnapshotID c) st (sc_ExpectedNodes c)
                     (sc_ExpiresAt c)]> (db_coords d0)) d0)
      end).2 in
    same_tables d d' /\ coords_grow d d' /\ db_responses d' = db_responses d /\ db_notices d' = db_notices d) as Hb.
  { intros d0 Ht (Hc & Hr & Hn). simpl. destruct (db_coords d0 !! x) as [c|] eqn:E; simpl.
    - split_and!; [done| |done|done]. intros y v (co & Hco & Hv). unfold coord_volume. simpl.
      destruct (decide (y = x)) as [->|Hne].
      + eexists. rewrite lookup_insert_eq. split; [done|]. simpl. rewrite Hc, Hco in E. by injection E as <-.
      + exists co. rewrite lookup_insert_ne by done. by rewrite Hc.
    - split_and!; [done| |done|done]. intros y v (co & Hco & Hv). exists co. by rewrite Hc. }
  unfold UpdateCoordinationStatus, stmt. destruct (db_outcomes d) as [|[e|] os]; [by apply Hb| |by apply Hb].
  split_and!; try done. by intros y v.
Qed.

Lemma notify_frame n d :
  same_tables d (pg_notify n d).2 /\ db_coords (pg_notify n d).2 = db_coords d /\
  db_responses (pg_notify n d).2 = db_responses d /\ db_notices (pg_notify n d).2 ⊆ db_notices d ++ [n].
Proof.
  unfold pg_notify, stmt. destruct (db_outcomes d) as [|[e|] os]; split_and!; try done. apply list_subseteq_app_l. done.
Qed.

Lemma inv_notice s i c now n r c' d' :
  sys_inv s -> sy_nodes s !! i = Some c -> n ∈ db_notices (sy_db s) ->
  runNotificationListener now n (c, sy_db s) = (r, (c', d')) ->
  sys_inv (mkSystem d' (<[i := c']> (sy_nodes s)) (sy_plans s) (sy_waits s) (sy_flushed s)).
Proof.
  intros Hs Hi Hn Hr. destruct (inv_nodes _ _ _ Hs i c Hi) as (H1 & H2 & H3).
  assert (d' = sy_db s /\ (co_config c', co_clusterID c', co_podID c') = (co_config c, co_clusterID c, co_podID c) /\
    forall x v, (x, v) ∈ co_flushCh c' -> (x, v) ∈ co_flushCh c \/ FlushRequest x v ∈ db_notices (sy_db s)) as (-> & Hp & Hq).
  { unfold runNotificationListener in Hr. cbn [bind self gets fst] in Hr.
    repeat case_match; cbv [ret update modify] in Hr; simplify_eq/=; split_and!; try done; intros x v Hin; try (by left).
    apply elem_of_app in Hin as [|Hin]; [by left|]. apply list_elem_of_singleton in Hin. right. by simplify_eq. }
  injection Hp as Hcfg Hcl Hpd. apply inv_step; try done; try (by left).
  - apply Hs.
  - by intros x v.
  - split_and!; [congruence|unfold heartbeat_timeout in *; by rewrite Hcfg|].
    intros x v Hin. destruct (Hq x v Hin); [by apply H3|]. by apply (inv_notices _ _ _ Hs).
Qed.

Lemma inv_publish s i c now e r c' d' :
  sys_inv s -> sy_nodes s !! i = Some c -> publish_event now e (c, sy_db s) = (r, (c', d')) ->
  sys_inv (mkSystem d' (<[i := c']> (sy_nodes s)) (sy_plans s) (sy_waits s) (sy_flushed s)).
Proof.
  intros Hs Hi Hr. destruct (inv_nodes _ _ _ Hs i c Hi) as (H1 & H2 & H3).
  unfold publish_event in Hr. cbn [bind self gets fst update modify snd] in Hr. unfold repo_logged in Hr.
  set (n := WatchNotice _) in Hr. destruct (notify_frame n (sy_db s)) as (Ht & Hc & Hrs & Hn).
  destruct (pg_notify n (sy_db s)) as [r0 d0]. injection Hr as <- <- <-. simpl in *. apply inv_step; try done; try (by left).
  - apply (same_tables_ok timely T (sy_db s)); [done|apply Hs].
  - intros x v (co & ? & ?). exists co. by rewrite Hc.
  - intros x v Hin%Hn. apply elem_of_app in Hin as [|Hin%list_elem_of_singleton]; [by left|done].
  - intros k r. rewrite Hrs. by left.
  - split_and!; [done|done|]. intros x v Hin. destruct (H3 x v Hin) as (co & ? & ?). exists co. by rewrite Hc.
Qed.

Lemma create_response_frame resp d :
  same_tables d (CreateFlushResponse resp d).2 /\ db_coords (CreateFlushResponse resp d).2 = db_coords d /\
  db_notices (CreateFlushResponse resp d).2 = db_notices d /\
  forall k r, db_responses (CreateFlushResponse resp d).2 !! k = Some r -> db_responses d !! k = Some r \/
    (k = (fr_CoordID resp, fr_ClusterID resp, fr_PodID resp) /\ r = resp).
Proof.
  assert (forall d0, same_tables d d0 -> same_flushes d d0 ->
    let d' := (match db_coords d0 !! fr_CoordID resp with
      | None => (Err (DbError "create flush response: violates foreign key constraint") : res db_error unit, d0)
      | Some _ => (Ok tt, set_responses (<[(fr_CoordID resp, fr_ClusterID resp, fr_PodID resp) := resp]> (db_responses d0)) d0)
      end).2 in
    same_tables d d' /\ db_coords d' = db_coords d /\ db_notices d' = db_notices d /\
    forall k r, db_responses d' !! k = Some r -> db_responses d !! k = Some r \/
      (k = (fr_CoordID resp, fr_ClusterID resp, fr_PodID resp) /\ r = resp)) as Hb.
  { intros d0 Ht (Hc & Hr & Hn). simpl. destruct (db_coords d0 !! _); simpl; split_and!; try done.
    - intros k r Hk. apply lookup_insert_Some in Hk as [[<- <-]|[_ Hk]]; [by right|left; by rewrite <- Hr].
    - intros k r. rewrite Hr. by left. }
  unfold CreateFlushResponse, stmt. destruct (db_outcomes d) as [|[e|] os]; [by apply Hb| |by apply Hb].
  split_and!; try done. by left.
Qed.

(** What the handler leaves of node and database: the request is taken, and a response of
    this node may have come with its notification. *)
Lemma handle_frame coordID v fl c d :
  let s' := (handleFlushRequest coordID v fl (c, d)).2 in
  s'.1 = c /\ same_tables d s'.2 /\ db_coords s'.2 = db_coords d /\
  (forall x w, FlushRequest x w ∈ db_notices s'.2 -> FlushRequest x w ∈ db_notices d) /\
  forall k r, db_responses s'.2 !! k = Some r -> db_responses d !! k = Some r \/
    (k = (fr_CoordID r, fr_ClusterID r, fr_PodID r) /\ fr_CoordID r = coordID /\ fr_ClusterID r = co_clusterID c /\
     fr_PodID r = co_podID c /\ (fr_Success r = true -> IsVolumeMounted c v = true /\ fl = Ok tt)).
Proof.
  unfold handleFlushRequest. cbn [bind self gets fst]. destruct (IsVolumeMounted c v) eqn:Ev; simpl; [|by split_and!; eauto].
  destruct fl as [[]|e|]; simpl; [| |by split_and!; eauto].
  all: set (resp := mkFlushResponse _ _ _ _ _); destruct (create_response_frame resp d) as (Ht & Hc & Hn & Hr); unfold repo;
    destruct (CreateFlushResponse resp d) as [[[]|e0|] d1]; simpl in *;
    try (split_and!; [done|done|done|by rewrite Hn|intros k r0 Hk; destruct (Hr k r0 Hk) as [|[-> ->]]; [by left|by right; split_and!]]).
  all: unfold repo_logged; destruct (notify_frame (FlushResponseNotice resp) d1) as (Ht1 & Hc1 & Hr1 & Hn1);
    destruct (pg_notify (FlushResponseNotice resp) d1) as [r1 d2]; simpl in *;
    (split_and!; [done|by eapply same_tables_trans|congruence| |]);
    [intros x w Hin%Hn1; apply elem_of_app in Hin as [|Hin%list_elem_of_singleton]; [by rewrite <- Hn|done]|
     intros k r0; rewrite Hr1; intros Hk; destruct (Hr k r0 Hk) as [|[-> ->]]; [by left|by right; split_and!]].
Qed.

Lemma inv_flush s i c fl r c' d' :
  sys_inv s -> sy_nodes s !! i = Some c -> runFlushHandler fl (c, sy_db s) = (r, (c', d')) ->
  sys_inv (mkSystem d' (<[i := c']> (sy_nodes s)) (sy_plans s) (sy_waits s) (flush_done c (OpFlush fl) ++ sy_flushed s)).
Proof.
  intros Hs Hi Hr. destruct (inv_nodes _ _ _ Hs i c Hi) as (H1 & H2 & H3).
  unfold runFlushHandler in Hr. cbn [bind self gets fst] in Hr. destruct (co_flushCh c) as [|[x v] rest] eqn:Eq.
  { injection Hr as <- <- <-. unfold flush_done. rewrite Eq. replace (match fl with Ok _ => [] | _ => [] end) with (@nil (string*string*string*string)) by by destruct fl.
    apply inv_step; try done; try (by left); [apply Hs|by intros ? ?|by split_and!; [..|rewrite Eq]]. }
  cbn [bind update modify fst snd] in Hr.
  pose proof (handle_frame x v fl (set_flushCh rest c) (sy_db s)) as (Hc & Ht & Hco & Hn & Hrs).
  rewrite Hr in Hc, Ht, Hco, Hn, Hrs. simpl in *. subst c'.
  assert (coord_volume (sy_db s) x v) as Hxv by (apply H3; by left).
  assert (coords_grow (sy_db s) d') as Hg. { intros y w (co & ? & ?). exists co. by rewrite Hco. }
  apply inv_step; try done; try (by left).
  - apply (same_tables_ok timely T (sy_db s)); [done|apply Hs].
  - apply list_subseteq_app_r. done.
  - intros y w Hin. left. by apply Hn.
  - intros k r0 Hk. destruct (Hrs k r0 Hk) as [|(-> & Hx & Hcl & Hpd & Hsucc)]; [by left|]. right. split; [done|].
    intros Hok. destruct (Hsucc Hok) as [Hm ->]. exists v. rewrite Hx. split; [by apply Hg|].
    apply elem_of_app. left. unfold flush_done. rewrite Eq. change (IsVolumeMounted c v = true) in Hm. rewrite Hm, Hcl, Hpd.
    by apply list_elem_of_singleton.
  - split_and!; [done|done|]. simpl. intros y w Hin. apply Hg, H3. by right.
Qed.

Lemma create_coord_frame co d r d' :
  CreateCoordination co d = (r, d') ->
  same_tables d d' /\ coords_grow d d' /\ db_responses d' = db_responses d /\ db_notices d' = db_notices d /\
  (r = Ok tt -> coord_volume d' (sc_ID co) (sc_VolumeID co)) /\ r <> Panic.
Proof.
  assert (forall d0, same_tables d d0 -> same_flushes d d0 ->
    (match db_coords d0 !! sc_ID co with
     | Some _ => (Err (DbError "create coordination: duplicate key value") : res db_error unit, d0)
     | None => (Ok tt, set_coords (<[sc_ID co := co]> (db_coords d0)) d0)
     end) = (r, d') ->
    same_tables d d' /\ coords_grow d d' /\ db_responses d' = db_responses d /\ db_notices d' = db_notices d /\
    (r = Ok tt -> coord_volume d' (sc_ID co) (sc_VolumeID co)) /\ r <> Panic) as Hb.
  { intros d0 Ht (Hc & Hr & Hn). destruct (db_coords d0 !! sc_ID co) as [c|] eqn:E; intros [= <- <-].
    - split_and!; try done. intros y v (x & Hx & Hv). exists x. by rewrite Hc.
    - split_and!; try done.
      + intros y v (x & Hx & Hv). exists x. simpl. split; [|done]. rewrite lookup_insert_ne; [by rewrite Hc|].
        intros <-. rewrite Hc in E. congruence.
      + intros _. exists co. simpl. by rewrite lookup_insert_eq. }
  unfold CreateCoordination, stmt. destruct (db_outcomes d) as [|[e|] os]; [by apply Hb| |by apply Hb].
  intros [= <- <-]. split_and!; try done. by intros ? ?.
Qed.

Lemma inv_announce s i c coordID now v ms r c' d' :
  sys_inv s -> sy_nodes s !! i = Some c -> (v, ms) ∈ sy_plans s -> flush_announce coordID now v ms (c, sy_db s) = (r, (c', d')) ->
  sys_inv (mkSystem d' (<[i := c']> (sy_nodes s)) (sy_plans s)
    (match r with Ok (Some coord) => (coord, ms) :: sy_waits s | _ => sy_waits s end) (sy_flushed s)).
Proof.
  intros Hs Hi Hp Hr. destruct (inv_nodes _ _ _ Hs i c Hi) as (H1 & H2 & H3). unfold flush_announce in Hr.
  case_decide.
  { injection Hr as <- <- <-. apply inv_step; try done; try (by left); [apply Hs|by intros ? ?]. }
  cbn [bind self gets fst] in Hr. set (co := mkCoordination _ _ _ _ _ _) in Hr. unfold bind, repo at 1 in Hr.
  destruct (CreateCoordination co (sy_db s)) as [r1 d1] eqn:E1.
  destruct (create_coord_frame co _ _ _ E1) as (T1 & G1 & R1 & N1 & V1 & P1).
  assert (forall x, same_tables (sy_db s) x -> mounts_ok x) as Hok.
  { intros x Hx. apply (same_tables_ok timely T (sy_db s)); [done|apply Hs]. }
  assert (forall x, coords_grow (sy_db s) x -> node_ok T x i c) as Hnode.
  { intros x Hx. by apply (node_ok_grow (sy_db s)), (inv_nodes _ _ _ Hs i c Hi). }
  destruct r1 as [[]|e|]; [| |done].
  2:{ injection Hr as <- <- <-. apply inv_step; try done; try (by left);
        [by apply Hok|rewrite N1; by left|rewrite R1; by left|by apply Hnode]. }
  unfold repo at 1 in Hr. destruct (notify_frame (FlushRequest coordID v) d1) as (T2 & C2 & R2 & N2).
  destruct (pg_notify (FlushRequest coordID v) d1) as [r2 d2] eqn:E2. simpl in *.
  assert (coords_grow (sy_db s) d2) as G2. { intros y w Hy. destruct (G1 y w Hy) as (x & ? & ?). exists x. by rewrite C2. }
  assert (coord_volume d2 coordID v) as V2. { destruct (V1 eq_refl) as (x & ? & ?). exists x. by rewrite C2. }
  assert (same_tables (sy_db s) d2) as T2' by by eapply same_tables_trans.
  assert (forall d3, coords_grow d2 d3 -> db_notices d3 = db_notices d2 -> forall x w, FlushRequest x w ∈ db_notices d3 ->
    FlushRequest x w ∈ db_notices (sy_db s) \/ coord_volume d3 x w) as N3.
  { intros d3 G3 Hd3 x w. rewrite Hd3. intros Hin%N2. rewrite N1 in Hin.
    apply elem_of_app in Hin as [|Hin%list_elem_of_singleton]; [by left|]. right. injection Hin as -> ->. by apply G3. }
  destruct r2 as [[]|e|].
  - injection Hr as <- <- <-. apply inv_step; try done; try (by left).
    + by apply Hok.
    + apply (N3 d2); [by intros ? ?|done].
    + intros k r0. rewrite R2, R1. by left.
    + by apply Hnode.
    + intros co' ms' Hin. apply elem_of_cons in Hin as [Hin|Hin]; [|by left]. right. injection Hin as -> ->. simpl.
      split_and!; [by apply (inv_plans _ _ _ Hs v)|done|done].
  - unfold repo_logged in Hr. destruct (status_frame coordID CoordStatusFailed d2) as (T3 & G3 & R3 & Nt3).
    destruct (UpdateCoordinationStatus coordID CoordStatusFailed d2) as [r3 d3]. simpl in *.
    assert (coords_grow (sy_db s) d3) as G4 by (intros y w Hy; by apply G3, G2).
    assert (d' = d3 /\ c' = c /\ (forall co', r <> Ok co')) as (-> & -> & Hne).
    { destruct r3; by injection Hr as <- <- <-. }
    replace (match r with Ok (Some coord) => (coord, ms) :: sy_waits s | _ => sy_waits s end) with (sy_waits s).
    2:{ destruct r as [[co'|]|e'|]; [by destruct (Hne (Some co'))|done..]. }
    apply inv_step; try done; try (by left).
    + apply Hok. by eapply same_tables_trans.
    + by apply (N3 d3).
    + intros k r0. rewrite R3, R2, R1. by left.
    + by apply Hnode.
  - injection Hr as <- <- <-. apply inv_step; try done; try (by left);
      [by apply Hok|apply (N3 d2); [by intros ? ?|done]|intros k r0; rewrite R2, R1; by left|by apply Hnode].
Qed.

(** Waiting only changes the status of coordinations. *)
Definition status_only (d d' : DB) : Prop :=
  same_tables d d' /\ coords_grow d d' /\ db_responses d' = db_responses d /\ db_notices d' = db_notices d.

Lemma wait_frame co e c d : let s' := (waitForFlushCompletion co e (c, d)).2 in s'.1 = c /\ status_only d s'.2.
Proof.
  assert (forall A st (k : CM A) d0, (forall s, (k s).2 = s) -> status_only d d0 ->
    let s' := (end_coordination co st k (c, d0)).2 in s'.1 = c /\ status_only d s'.2) as He.
  { intros A st k d0 Hk (T0 & G0 & R0 & N0). unfold end_coordination, bind, repo_logged.
    destruct (status_frame (sc_ID co) st d0) as (T1 & G1 & R1 & N1).
    destruct (UpdateCoordinationStatus (sc_ID co) st d0) as [r d1]. simpl in *.
    assert (status_only d d1) as Hd1. { split_and!; [by eapply same_tables_trans|by intros x v Hx; apply G1, G0|congruence|congruence]. }
    destruct r; simpl; rewrite ?Hk; by split. }
  assert (status_only d d) as Hd by (split_and!; try done; by intros ? ?).
  assert (forall os, status_only d (set_outcomes os d)) as Ho by (intros os; split_and!; try done; by intros ? ?).
  destruct e; cbn [waitForFlushCompletion]; [by apply He|by apply He|].
  assert (exists r d0, repo "" (CountCompletedFlushes (sc_ID co)) (c, d) = (r, (c, d0)) /\ status_only d d0) as (r & d1 & -> & H1).
  { unfold repo, CountCompletedFlushes, stmt. destruct (db_outcomes d) as [|[e|] os]; eauto. }
  assert (forall n d0, status_only d d0 ->
    let s' := (if n <? sc_ExpectedNodes co then (Ok false, (c, d0)) else
      match repo "get flush responses" (GetFlushResponses (sc_ID co)) (c, d0) with
      | (Ok responses, s) => match failed_response responses with
          | Some r => end_coordination co CoordStatusFailed (throw (ErrFlushFailed (fr_ClusterID r) (fr_PodID r) (fr_ErrorMessage r))) s
          | None => end_coordination co CoordStatusCompleted (ret true) s end
      | (Err e, s) => end_coordination co CoordStatusFailed (throw e) s
      | (Panic, s) => (Panic, s) end).2 in s'.1 = c /\ status_only d s'.2) as Hn.
  { intros n d0 H0. destruct (n <? _); [by split|]. unfold repo, GetFlushResponses, stmt.
    destruct (db_outcomes d0) as [|[e|] os]; cbv beta iota zeta; [destruct (failed_response _)| |destruct (failed_response _)];
      apply He; try done. }
  destruct r as [n|e|]; [by apply Hn|by split..].
Qed.

Lemma inv_later s now outcomes :
  sys_inv s -> db_now (sy_db s) <= now ->
  sys_inv (mkSystem (mkDB now (db_volumes (sy_db s)) (db_mounts (sy_db s)) (db_handoffs (sy_db s))
    (db_coords (sy_db s)) (db_responses (sy_db s)) (db_notices (sy_db s)) outcomes)
    (sy_nodes s) (sy_plans s) (sy_waits s) (sy_flushed s)).
Proof.
  intros [I1 I2 I3 I4 I5 I6] Hnow. split; try done. destruct I1 as [Hk He]. split; [done|].
  intros Ht v mode k1 k2 m1 m2 Hv Hr H1 H2 E1 E2 A1 A2. simpl in *.
  assert (forall m, now - T * second <? vm_LastHeartbeat m = true -> is_active (sy_db s) T m = true) as Ha.
  { intros m Hm. unfold is_active. apply Z.ltb_lt in Hm. apply Z.ltb_lt. lia. }
  by apply (He Ht v mode k1 k2 m1 m2); try apply Ha.
Qed.

Lemma inv_volume s v mode :
  sys_inv s -> db_volumes (sy_db s) !! v = None -> (forall k m, db_mounts (sy_db s) !! k = Some m -> vm_VolumeID m <> v) ->
  sys_inv (mkSystem (mkDB (db_now (sy_db s)) (<[v := mode]> (db_volumes (sy_db s))) (db_mounts (sy_db s))
    (db_handoffs (sy_db s)) (db_coords (sy_db s)) (db_responses (sy_db s)) (db_notices (sy_db s)) (db_outcomes (sy_db s)))
    (sy_nodes s) (sy_plans s) (sy_waits s) (sy_flushed s)).
Proof.
  intros [I1 I2 I3 I4 I5 I6] Hv Hno. split; try done. destruct I1 as [Hk He]. split; [done|].
  intros Ht w mode' k1 k2 m1 m2 Hw Hr H1 H2 E1 E2 A1 A2. simpl in *.
  apply lookup_insert_Some in Hw as [[<- _]|[_ Hw]]; [by destruct (Hno k1 m1)|]. by apply (He Ht w mode' k1 k2 m1 m2).
Qed.

Lemma inv_op s i c o r c' d' :
  sys_inv s -> sy_nodes s !! i = Some c -> op_ok timely T c (sy_db s) o -> run_op T o (c, sy_db s) = (r, (c', d')) ->
  sys_inv (mkSystem d' (<[i := c']> (sy_nodes s)) (sy_plans s) (sy_waits s) (flush_done c o ++ sy_flushed s)).
Proof.
  intros Hs Hi Hok Hr. destruct (inv_nodes _ _ _ Hs i c Hi) as (_ & Hc & _).
  pose proof (inv_mounts _ _ _ Hs) as Hm.
  assert (call_keeps timely T c (sy_db s) (c', d') -> flush_done c o = [] ->
    sys_inv (mkSystem d' (<[i := c']> (sy_nodes s)) (sy_plans s) (sy_waits s) (flush_done c o ++ sy_flushed s))) as Hcall.
  { intros Hk ->. apply (inv_call s i c (c', d')); try done. by left. }
  assert (forall m : CM unit, guarded_call timely T m -> m (c, sy_db s) = (r, (c', d')) -> call_keeps timely T c (sy_db s) (c', d')) as Hg.
  { intros m Hgm E. specialize (Hgm c (sy_db s) Hc Hm). by rewrite E in Hgm. }
  destruct o; cbn [run_op op_ok] in Hr, Hok.
  1-6: apply Hcall; [|done]; eapply Hg; [|exact Hr].
  - by apply call_register.
  - by apply call_unregister.
  - by apply call_validate.
  - by apply call_start.
  - by apply call_stop.
  - by apply call_cleanup.
  - apply Hcall; [|done]. pose proof (call_heartbeat timely T HT id now volumeID c (sy_db s) Hc Hm Hok) as Hh. by rewrite Hr in Hh.
  - apply Hcall; [|done]. refine (Hg _ _ Hr). by apply call_repo, guarded_transfer.
  - by eapply inv_notice.
  - by eapply inv_flush.
  - by eapply inv_publish.
Qed.

Lemma inv_sys_step s s' : sys_inv s -> sys_step timely T s s' -> sys_inv s'.
Proof.
  intros Hs Hst. pose proof (inv_mounts _ _ _ Hs) as Hm. destruct Hst.
  - by eapply inv_op.
  - destruct (inv_nodes _ _ _ Hs i c) as (_ & Hc & _); [done|].
    pose proof (call_plan timely T HT v c (sy_db s) Hc Hm) as Hk.
    match goal with E : flush_plan _ _ = _ |- _ => rewrite E in Hk; rename E into Hplan end.
    apply (inv_call s i c (c', d')); try done. intros w l Hin. apply elem_of_cons in Hin as [Hin|Hin]; [|by left].
    injection Hin as -> ->. right. unfold flush_plan in Hplan. cbn [bind self gets fst] in Hplan. unfold repo in Hplan.
    destruct (GetActiveMounts _ _ _) as [r d1] eqn:E. destruct r as [l|e|]; [|done..]. injection Hplan as <- <- <-.
    apply active_ok in E as (-> & _ & _). apply active_mounts_nodup, Hm.
  - by eapply inv_announce.
  - match goal with E : waitForFlushCompletion ?co ?e (?c, ?d) = _ |- _ =>
      destruct (wait_frame co e c d) as [Hc (Ht & Hg & Hrs & Hn)]; rewrite E in *; simpl in * end. subst c'.
    apply inv_step; try done; try (by left).
    + by apply (same_tables_ok timely T (sy_db s)).
    + rewrite Hn. by left.
    + rewrite Hrs. by left.
    + by apply (node_ok_grow (sy_db s)), (inv_nodes _ _ _ Hs).
  - by apply inv_later.
  - by apply inv_volume.
  - apply (inv_step s); try done; try (by left); [by intros ? ?|]. split_and!; [done|done|]. intros x v Hin. by apply elem_of_nil in Hin.
Qed.

Lemma inv_reachable now s : rtc (sys_step timely T) (sys_init now) s -> sys_inv s.
Proof.
  intros Hr. assert (sys_inv (sys_init now)) as H0.
  { split; simpl; try (intros; by match goal with E : _ ∈ [] |- _ => apply elem_of_nil in E | E : ∅ !! _ = Some _ |- _ => apply lookup_empty_Some in E end).
    split; [intros k m Hk; simpl in Hk; by apply lookup_empty_Some in Hk|]. intros _ v mode k1 k2 m1 m2 Hv. simpl in Hv. by apply lookup_empty_Some in Hv. }
  revert H0. induction Hr as [|x y z Hxy _ IH]; [done|]. intros Hx. apply IH. by eapply inv_sys_step.
Qed.
End invariant.

(** ** Claims *)

(** A transaction that succeeds is its body, between statements that change nothing. *)
Lemma with_tx_ok {A} (fn : DBM A) d a d' :
  WithTx fn d = (Ok a, d') -> exists d1 d2, same_tables d d1 /\ fn d1 = (Ok a, d2) /\ same_tables d2 d'.
Proof.
  unfold WithTx.
  assert (forall w x r x', stmt w (fun d => (Ok tt, d)) x = (r, x') -> same_tables x x') as Hs.
  { intros w x r x'. unfold stmt. destruct (db_outcomes x) as [|[e|] os]; intros [= <- <-]; done. }
  destruct (stmt "begin transaction" _ d) as [r d1] eqn:E1. destruct r as [[]|e|]; [|done..].
  destruct (fn d1) as [r d2] eqn:E2. destruct r as [b|e|]; [|done..].
  destruct (stmt "commit transaction" _ d2) as [r d3] eqn:E3. destruct r as [[]|e|]; [|done..]. intros [= <- <-]. eauto 10.
Qed.

(** A mount that was taken is there with its heartbeat. *)
Lemma acquire_row `{UnicodeUpper} m T d d' :
  AcquireMount m T d = (Ok tt, d') ->
  db_now d' = db_now d /\ db_volumes d' = db_volumes d /\ exists a, db_mounts d' !! key_of m = Some a /\ vm_LastHeartbeat a = vm_LastHeartbeat m.
Proof.
  unfold AcquireMount. intros (d1 & d2 & (N1 & W1 & _) & E2 & (N3 & W3 & M3))%with_tx_ok.
  apply bind_ok_inv in E2 as (mode & x1 & H1 & Hb). apply bind_ok_inv in Hb as (ms & x2 & H2 & Hb).
  apply bind_ok_inv in Hb as ([] & x3 & H3 & H4).
  apply lock_ok in H1 as (_ & (Nx1 & Wx1 & _) & _). apply active_ok in H2 as (_ & (Nx2 & Wx2 & _) & _).
  assert (x3 = x2) as ->. { repeat case_match; unfold ret, throw in *; by simplify_eq. }
  apply create_ok in H4 as (x4 & (Nx4 & Wx4 & _) & _ & ->). simpl in *. split; [congruence|]. split; [congruence|]. rewrite M3. unfold upsert.
  destruct (db_mounts x4 !! key_of m) as [old|]; eexists; rewrite lookup_insert_eq; split; done.
Qed.

(** C8: Of a volume for a single writer at most one mount is active, over all interleavings
    of the steps of all instances in which no heartbeat renews a mount that has expired; and
    an instance that has just registered the volume, with a clock that is not behind by the
    timeout, holds that one. *)
Theorem mounts_exclusive `{UnicodeUpper} T now s v mode :
  0 < T -> rtc (sys_step true T) (sys_init now) s ->
  db_volumes (sy_db s) !! v = Some mode -> normalizeMountAccessMode mode = "RWO" ->
  (forall m1 m2, m1 ∈ active_mounts (sy_db s) v T -> m2 ∈ active_mounts (sy_db s) v T -> m1 = m2) /\
  (forall i c id t options c' d', sy_nodes s !! i = Some c -> IsVolumeMounted c v = false ->
     RegisterMount id t v options (c, sy_db s) = (Ok tt, (c', d')) -> db_now (sy_db s) - T * second < t ->
     forall m, m ∈ active_mounts d' v T -> instance_of m = i).
Proof.
  intros HT Hr Hv Hm. pose proof (inv_reachable true T HT now s Hr) as Hs. split.
  - intros m1 m2 (E1 & A1 & k1 & H1)%elem_of_active (E2 & A2 & k2 & H2)%elem_of_active.
    destruct (inv_mounts _ _ _ Hs) as [_ He]. assert (k1 = k2) as -> by by apply (He eq_refl v mode k1 k2 m1 m2). congruence.
  - intros i c id t options c' d' Hi Hnot Hreg Ht m (E & A & k & Hk)%elem_of_active.
    destruct (inv_nodes _ _ _ Hs i c Hi) as (Hci & Hc & _).
    pose proof (call_register true T HT id t v options c (sy_db s) Hc (inv_mounts _ _ _ Hs)) as (Hok & _ & _).
    rewrite Hreg in Hok. simpl in Hok. unfold RegisterMount in Hreg. cbn [bind self gets fst] in Hreg. rewrite Hnot in Hreg.
    set (own := mkVolumeMount _ _ _ _ _ _ _) in Hreg. apply bind_ok_inv in Hreg as ([] & [c1 d1] & Ha & Hu).
    unfold repo in Ha. destruct (AcquireMount own _ _) as [r d2] eqn:Eq. destruct r as [[]|e|]; [|done..].
    injection Ha as <- <-. injection Hu as <- <-. rewrite Hc in Eq. pose proof (acquire_row _ _ _ _ Eq) as (Hn & Hw & a & Hrow & Hbeat).
    pose proof (guarded_acquire true T HT own (sy_db s) (inv_mounts _ _ _ Hs)) as [[Hk2 He] _]. rewrite Eq in Hk2, He. simpl in *.
    assert (db_volumes d2 !! v = Some mode) as Hv2 by by rewrite Hw.
    assert (k = key_of own) as ->.
    { apply (He eq_refl v mode k (key_of own) m a); try done; [|unfold is_active; rewrite Hbeat, Hn; by apply Z.ltb_lt].
      apply (f_equal (fun x => x.1.1) (Hk2 _ _ Hrow)). }
    specialize (Hk2 _ _ Hk). unfold key_of, instance_of in *. simpl in *. rewrite <- Hci. congruence.
Qed.

Lemma wait_done co c d s' :
  waitForFlushCompletion co WaitTick (c, d) = (Ok true, s') ->
  sc_ExpectedNodes co <= zlen (filter (fun r => fr_Success r) (responses_to d (sc_ID co))).
Proof.
  cbn [waitForFlushCompletion]. destruct (repo "" (CountCompletedFlushes _) (c, d)) as [r [c1 d1]] eqn:E.
  destruct r as [n|e|]; [|done..]. destruct (Z.ltb_spec n (sc_ExpectedNodes co)); [done|]. intros _.
  unfold repo, CountCompletedFlushes, stmt in E. destruct (db_outcomes d) as [|[e|] os]; by simplify_eq/=.
Qed.

(** The responses of an instance are one row. *)
Lemma responders_nodup `{UnicodeUpper} timely T s x :
  sys_inv timely T s -> NoDup ((fun r => (fr_ClusterID r, fr_PodID r)) <$> responses_to (sy_db s) x).
Proof.
  intros Hs. unfold responses_to. assert (forall l : list (mount_key * FlushResponse), NoDup l.*1 ->
    (forall k r, (k, r) ∈ l -> k = (fr_CoordID r, fr_ClusterID r, fr_PodID r)) ->
    NoDup ((fun r => (fr_ClusterID r, fr_PodID r)) <$> filter (fun r => fr_CoordID r = x) (snd <$> l))) as Hl.
  { induction l as [|[k r] l IH]; intros Hnd Hk; [constructor|]. cbn [fmap list_fmap snd fst] in *.
    apply NoDup_cons in Hnd as [Hn Hnd]. rewrite filter_cons. case_decide as Hx; [|by apply IH; [|intros; apply Hk; right]].
    cbn [fmap list_fmap]. constructor; [|by apply IH; [|intros; apply Hk; right]].
    intros (r' & Heq & Hin)%list_elem_of_fmap. apply list_elem_of_filter in Hin as [Hx' Hin].
    apply list_elem_of_fmap in Hin as ([k' r''] & -> & Hin). simpl in *. apply Hn, list_elem_of_fmap. exists (k', r'').
    split; [|done]. simpl. rewrite (Hk k r) by left. rewrite (Hk k' r'') by by right. congruence. }
  apply Hl; [apply NoDup_fst_map_to_list|]. intros k r Hin%elem_of_map_to_list.
  by destruct (inv_responses _ _ _ Hs k r Hin).
Qed.

Lemma sublist_nodup {A B} (f : A -> B) (P : A -> Prop) `{!forall x, Decision (P x)} l :
  NoDup (f <$> l) -> NoDup (f <$> filter P l).
Proof. intros Hl. eapply sublist_NoDup; [exact Hl|]. apply fmap_sublist, sublist_filter. Qed.

(** Which instances have flushed the volume for the coordination. *)
Definition has_flushed (s : system) (coord : SnapshotCoordination) (i : string * string) : Prop :=
  (sc_ID coord, sc_VolumeID coord, i.1, i.2) ∈ sy_flushed s.

(** C21: When [CoordinateFlush] succeeds, at least as many instances as had the volume mounted
    when it began have flushed it in answer to this request; and if no other instance has
    answered, each of those has. *)
Theorem flush_complete `{UnicodeUpper} timely T now s coord mounts c s' :
  0 < T -> rtc (sys_step timely T) (sys_init now) s -> (coord, mounts) ∈ sy_waits s ->
  waitForFlushCompletion coord WaitTick (c, sy_db s) = (Ok true, s') ->
  (exists done : gset (string * string), zlen mounts <= Z.of_nat (size done) /\ forall i, i ∈ done -> has_flushed s coord i) /\
  ((forall r, r ∈ responses_to (sy_db s) (sc_ID coord) -> (fr_ClusterID r, fr_PodID r) ∈ instance_of <$> mounts) ->
   forall m, m ∈ mounts -> has_flushed s coord (instance_of m)).
Proof.
  intros HT Hr Hw Hd. pose proof (inv_reachable timely T HT now s Hr) as Hs.
  destruct (inv_waits _ _ _ Hs coord mounts Hw) as (Hnd & Hexp & co & Hco & Hvol).
  pose proof (wait_done _ _ _ _ Hd) as Hlen. rewrite Hexp in Hlen.
  pose proof (sublist_nodup _ (fun r => fr_Success r) _ (responders_nodup timely T s (sc_ID coord) Hs)) as Hnd2.
  set (good := filter (fun r => fr_Success r) (responses_to (sy_db s) (sc_ID coord))) in *.
  set (who := (fun r => (fr_ClusterID r, fr_PodID r)) <$> good) in *.
  assert (forall i, i ∈ who -> has_flushed s coord i) as Hgood.
  { intros i (r & -> & Hin)%list_elem_of_fmap. apply list_elem_of_filter in Hin as [Hsucc Hin].
    apply list_elem_of_filter in Hin as [Hx Hin]. apply list_elem_of_fmap in Hin as ([k r'] & -> & Hin%elem_of_map_to_list).
    destruct (inv_responses _ _ _ Hs k r' Hin) as [_ Hf]. destruct Hf as (v & (co' & Hco' & Hv') & Hfl); [by apply Is_true_eq_true|].
    simpl in *. rewrite Hx in *. assert (co' = co) as -> by congruence. unfold has_flushed. simpl. congruence. }
  assert (length who = length good) as Hwho by apply length_fmap.
  split.
  - exists (list_to_set who). split; [|intros i Hi%elem_of_list_to_set; by apply Hgood].
    rewrite size_list_to_set by done. rewrite Hwho. exact Hlen.
  - intros Hin m Hm. apply Hgood.
    assert (list_to_set who ≡@{gset (string * string)} list_to_set (instance_of <$> mounts)) as Heq.
    { apply set_subseteq_size_equiv.
      - intros i Hi%elem_of_list_to_set. apply elem_of_list_to_set. apply list_elem_of_fmap in Hi as (r & -> & Hi).
        apply Hin. by apply list_elem_of_filter in Hi as [_ Hi].
      - rewrite !size_list_to_set by done. rewrite length_fmap, Hwho. unfold zlen in Hlen. lia. }
    apply (elem_of_list_to_set (C := gset (string * string))). rewrite Heq. apply elem_of_list_to_set.
    by apply list_elem_of_fmap_2.
Qed.

(** ** Runs *)

Section runs.
Context `{UnicodeUpper}.

(** A step of node [i], as a function. *)
Definition do_op (T : Z) (i : string * string) (o : op) (s : system) : system :=
  match sy_nodes s !! i with
  | Some c =>
      let '(_, (c', d')) := run_op T o (c, sy_db s) in
      mkSystem d' (<[i := c']> (sy_nodes s)) (sy_plans s) (sy_waits s) (flush_done c o ++ sy_flushed s)
  | None => s
  end.

Lemma do_op_step timely T i o s :
  (forall c, sy_nodes s !! i = Some c -> op_ok timely T c (sy_db s) o) -> rtc (sys_step timely T) s (do_op T i o s).
Proof.
  intros Hok. unfold do_op. destruct (sy_nodes s !! i) as [c|] eqn:E; [|done].
  destruct (run_op T o (c, sy_db s)) as [r [c' d']] eqn:Er. apply rtc_once. by eapply step_op, Er; auto.
Qed.

Definition add_volume (v mode : string) (s : system) : system :=
  mkSystem (mkDB (db_now (sy_db s)) (<[v := mode]> (db_volumes (sy_db s))) (db_mounts (sy_db s))
    (db_handoffs (sy_db s)) (db_coords (sy_db s)) (db_responses (sy_db s)) (db_notices (sy_db s)) (db_outcomes (sy_db s)))
    (sy_nodes s) (sy_plans s) (sy_waits s) (sy_flushed s).
Definition join (clusterID podID : string) (s : system) : system :=
  mkSystem (sy_db s) (<[(clusterID, podID) := NewCoordinator (mkCoordinatorConfig 15 0 8080) clusterID podID None]> (sy_nodes s))
    (sy_plans s) (sy_waits s) (sy_flushed s).
Definition wait_until (now : Z) (s : system) : system :=
  mkSystem (mkDB now (db_volumes (sy_db s)) (db_mounts (sy_db s)) (db_handoffs (sy_db s)) (db_coords (sy_db s))
    (db_responses (sy_db s)) (db_notices (sy_db s)) []) (sy_nodes s) (sy_plans s) (sy_waits s) (sy_flushed s).

Definition no_options : MountOptions := mkMountOptions "" "" 0 "" "".
Definition node_a : string * string := ("c", "a").
Definition node_b : string * string := ("c", "b").

(** Two instances and a volume for one writer, which the first registers. *)
Definition two_nodes : system := join "c" "b" (join "c" "a" (add_volume "v" "RWO" (sys_init 0))).
Definition registered : system := do_op 15 node_a (OpRegister "m1" 0 "v" no_options) two_nodes.

(** The first coordinates a flush of it. *)
Definition plan_of (T : Z) (v : string) (s : system) : list VolumeMount := active_mounts (sy_db s) v T.
Definition announce (T : Z) (i : string * string) (coordID v : string) (s : system) : system :=
  match sy_nodes s !! i with
  | Some c =>
      let ms := plan_of T v s in
      let '(r, (c', d')) := flush_announce coordID (db_now (sy_db s)) v ms (c, sy_db s) in
      mkSystem d' (<[i := c']> (<[i := c]> (sy_nodes s))) ((v, ms) :: sy_plans s)
        (match r with Ok (Some coord) => (coord, ms) :: sy_waits s | _ => sy_waits s end) (sy_flushed s)
  | None => s
  end.
Definition flush_at (T : Z) (i : string * string) (coordID v : string) (s : system) : system :=
  do_op T i (OpFlush (Ok tt)) (do_op T i (OpNotice 0 (FlushRequest coordID v)) s).
End runs.

(** Only letters of ASCII are folded. *)
Definition ascii_upper : UnicodeUpper := {| unicode_upper := fun s => s |}.

Definition flushing : system := flush_at (H := ascii_upper) 15 node_a "f1" "v" (announce 15 node_a "f1" "v" (registered (H := ascii_upper))).

Lemma registered_reachable : rtc (sys_step (H := ascii_upper) true 15) (sys_init 0) (registered (H := ascii_upper)).
Proof.
  etrans; [|apply do_op_step; by intros].
  eapply rtc_l; [eapply (step_volume _ _ _ "v" "RWO"); [done|intros k m Hk; simpl in Hk; by apply lookup_empty_Some in Hk]|].
  eapply rtc_l; [apply (step_join _ _ _ (mkCoordinatorConfig 15 0 8080) "c" "a" None); done|].
  eapply rtc_l; [apply (step_join _ _ _ (mkCoordinatorConfig 15 0 8080) "c" "b" None); done|]. apply rtc_refl.
Qed.

Lemma announced_reachable : rtc (sys_step (H := ascii_upper) true 15) (sys_init 0) (announce 15 node_a "f1" "v" (registered (H := ascii_upper))).
Proof.
  etrans; [apply registered_reachable|].
  eapply rtc_l; [eapply (step_plan _ _ _ node_a _ "v"); [reflexivity|vm_compute; reflexivity]|].
  eapply rtc_l; [eapply (step_announce _ _ _ node_a _ "f1" 0 "v"); [reflexivity|by left|vm_compute; reflexivity]|].
  apply rtc_refl.
Qed.

Lemma flushing_reachable : rtc (sys_step (H := ascii_upper) true 15) (sys_init 0) flushing.
Proof.
  etrans; [apply announced_reachable|]. etrans; [|apply do_op_step; by intros].
  apply do_op_step. intros c _. by left.
Qed.

Lemma mounts_exclusive_witness :
  active_mounts (sy_db (registered (H := ascii_upper))) "v" 15 <> [] /\
  (forall m1 m2, m1 ∈ active_mounts (sy_db (registered (H := ascii_upper))) "v" 15 ->
     m2 ∈ active_mounts (sy_db (registered (H := ascii_upper))) "v" 15 -> m1 = m2).
Proof.
  split; [by vm_compute|].
  apply (mounts_exclusive (H := ascii_upper) 15 0 (registered (H := ascii_upper)) "v" "RWO");
    [lia|apply registered_reachable|reflexivity|reflexivity].
Defined.

Definition demo_mount : VolumeMount :=
  mkVolumeMount "m1" "v" "c" "a" 0 0 (Some (Some (mkMountOptions "RWO" "storage-proxy" 8080 "" ""))).
Definition demo_coordination : SnapshotCoordination := mkCoordination "f1" "v" None "flushing" 1 30000000000.

Lemma flush_complete_witness : has_flushed flushing demo_coordination node_a.
Proof.
  destruct (flush_complete (H := ascii_upper) true 15 0 flushing demo_coordination [demo_mount]
    (NewCoordinator (mkCoordinatorConfig 15 0 8080) "c" "a" None)
    (waitForFlushCompletion demo_coordination WaitTick (NewCoordinator (mkCoordinatorConfig 15 0 8080) "c" "a" None, sy_db flushing)).2)
    as [_ Hall].
  - lia.
  - apply flushing_reachable.
  - assert (sy_waits flushing = [(demo_coordination, [demo_mount])]) as -> by (vm_compute; reflexivity). by left.
  - vm_compute. reflexivity.
  - apply (Hall) with (m := demo_mount); [|by left].
    change (responses_to (sy_db flushing) (sc_ID demo_coordination)) with [mkFlushResponse "f1" "c" "a" true ""].
    intros r Hr. apply list_elem_of_singleton in Hr as ->. by left.
Defined.

(** ** What goes wrong *)

Section problems.
Local Existing Instance ascii_upper.

(** A heartbeat that comes after the mount has expired, and before the row is cleaned up,
    renews it although another instance has taken the volume. *)
Lemma late_heartbeat_two_owners :
  let s := do_op 15 node_b (OpRegister "m2" (20 * second) "v" no_options) (wait_until (20 * second) registered) in
  let s' := do_op 15 node_a (OpHeartbeat "m3" (20 * second) "v") s in
  (instance_of <$> active_mounts (sy_db s) "v" 15 = [node_b]) /\
  (instance_of <$> active_mounts (sy_db s') "v" 15 = [node_b; node_a]).
Proof. vm_compute. split; reflexivity. Qed.

(** The number of answers is compared, not who has answered: an instance that mounts the
    volume after the mounts were counted completes the flush in place of the one that was
    counted. *)
Lemma late_joiner_completes_flush :
  let s0 := do_op 15 node_a (OpRegister "m1" 0 "w" (mkMountOptions "RWX" "" 0 "" "")) (add_volume "w" "RWX" two_nodes) in
  let s1 := announce 15 node_b "f2" "w" s0 in
  let s2 := do_op 15 node_b (OpRegister "m2" 0 "w" (mkMountOptions "RWX" "" 0 "" "")) s1 in
  let s3 := flush_at 15 node_b "f2" "w" s2 in
  match sy_waits s3 with
  | [(coord, mounts)] =>
      instance_of <$> mounts = [node_a] /\ sy_flushed s3 = [("f2", "w", "c", "b")] /\
      (waitForFlushCompletion coord WaitTick (NewCoordinator (mkCoordinatorConfig 15 0 8080) "c" "b" None, sy_db s3)).1 = Ok true
  | _ => False
  end.
Proof. vm_compute. repeat split; reflexivity. Qed.

(** The failure of the only instance is not reported: the count is of successes, so the
    wait goes on until its deadline. *)
Lemma failed_flush_not_noticed :
  let s := do_op 15 node_a (OpFlush (Err "disk full"))
             (do_op 15 node_a (OpNotice 0 (FlushRequest "f1" "v")) (announce 15 node_a "f1" "v" registered)) in
  responses_to (sy_db s) "f1" = [mkFlushResponse "f1" "c" "a" false "disk full"] /\
  (waitForFlushCompletion demo_coordination WaitTick
     (NewCoordinator (mkCoordinatorConfig 15 0 8080) "c" "a" None, sy_db s)).1 = Ok false.
Proof. vm_compute. split; reflexivity. Qed.

(** A mount whose row was lost is registered again without its options: of a volume for
    many readers it then counts as a writer and keeps other readers out. *)
Lemma reregistered_reader_blocks :
  let reader := mkMountOptions "ROX" "" 0 "" "" in
  let s0 := do_op 15 node_a (OpRegister "m1" 0 "r" reader) (add_volume "r" "ROX" two_nodes) in
  let s1 := do_op 15 node_b (OpCleanup {| k8s_present := true; get_pod := fun _ _ => PodFound; list_pods := fun n => Some (if decide (n = "a") then 0 else 1)%nat |}) s0 in
  let s2 := do_op 15 node_a (OpHeartbeat "m2" 0 "r") s1 in
  let try s := match sy_nodes s !! node_b with Some c => is_ok (RegisterMount "m3" 0 "r" reader (c, sy_db s)).1 | None => false end in
  try s0 = true /\ try s2 = false.
Proof. vm_compute. split; reflexivity. Qed.

(** The cleanup asks the Kubernetes of its own cluster for the pods of all mounts: the
    mounts of another cluster are deleted while they are active. *)
Lemma cleanup_deletes_other_clusters :
  let here : Kubernetes := {| k8s_present := true; get_pod := fun _ _ => PodNotFound; list_pods := fun n => Some (if decide (n = "a") then 1 else 0)%nat |} in
  let s := do_op 15 ("d", "z") (OpRegister "m1" 0 "v" no_options) (join "d" "z" two_nodes) in
  let s' := do_op 15 node_a (OpCleanup here) s in
  (instance_of <$> active_mounts (sy_db s) "v" 15 = [("d", "z")]) /\ active_mounts (sy_db s') "v" 15 = [].
Proof. vm_compute. split; reflexivity. Qed.
End problems.
