(* ===== verification/VolumeFiles.v ===== *)
(** * storage-proxy: files over HTTP (storage-proxy/pkg/http/handlers_volume_files.go)

    What the HTTP API does with the files of a volume, as calls of the file system server
    (FsServer): finding a path, making the directories above it, writing, reading, listing,
    moving and removing, and the answers for errors.  Also who may use a volume, and as whom.

    The interface [volumeFileRPC] is the server in the same process.  Every call of a request
    carries the claims of the request and has I/O outcomes of its own: the state counts the
    calls, and [rq_env] gives the outcomes of each.  A deferred release runs after the result
    is known, and its error is dropped.

    Not here: forwarding a request to the pod that owns the volume (Handoff has how it is
    found), the lease of the mount (Volume) that is taken around the handlers, the materialization after them, and the web socket. *)

From stdpp Require Import base gmap strings list fin_maps numbers sorting.
From Stdlib Require Import Strings.Byte Strings.Ascii.
From S2P Require Import Prelude GoStd GoNet GoText S0fsTypes S0fsCore S0fsEngine Volume Notify Naming FsServer.

Local Open Scope Z_scope.

(** ** Errors and their answers

    [badRequest] and [methodNotAllowed] stand for the answers that a handler writes itself. *)

Inductive vf_error :=
| errVolumeFileUnavailable | errUnauthorized | errVolumeNotFound | errFileNotFound | errDirNotFound | errFileTooLarge
| errPermissionDenied | errDefaultPosixIdentity | errPathAlreadyExists | errPathNotDir | errDirectoryNotEmpty | errInvalidPath
| badRequest (text : string)
| methodNotAllowed
| errText (text : string)
| errDb (e : db_error)
| errRPC (e : srv_error).

(** The text of an error of the engine. *)
Fixpoint engine_text (e : error) : string :=
  match e with
  | ErrClosed => "s0fs engine is closed"
  | ErrCommittedHeadConflict => "s0fs committed head conflict"
  | ErrCommittedHeadNotFound => "s0fs committed head not found"
  | ErrExists => "entry already exists"
  | ErrInvalidInput => "invalid input"
  | ErrIsDir => "inode is a directory"
  | ErrNotEmpty => "directory is not empty"
  | ErrNotDir => "inode is not a directory"
  | ErrNotFound => "entry not found"
  | ErrSnapshotNotFound => "snapshot not found"
  | ErrMaterializedManifestNotFound => "materialized manifest not found"
  | ErrUnknownOp op => "unknown wal op " +:+ op
  | ErrDecode => "decode"
  | ErrIO what => what
  | ErrReplay seq e => "replay wal seq " +:+ show_dec seq +:+ ": " +:+ engine_text e
  end.

(** [err.Error()] *)
Definition srv_text (e : srv_error) : string :=
  match e with
  | FsError _ (Text s) _ => s
  | FsError _ (Cause prefix e) _ => prefix +:+ engine_text e
  | OtherError text => text
  end.

Definition translateVolumeRPCError `{UnicodeCase} (err : srv_error) : vf_error :=
  match CodeOf (Some err) with
  | NotFound => errFileNotFound
  | PermissionDenied => errPermissionDenied
  | AlreadyExists => errPathAlreadyExists
  | FailedPrecondition => if Contains_str (ToLower (srv_text err)) "not empty" then errDirectoryNotEmpty else errRPC err
  | _ => errRPC err
  end.

(** The status and the code of the answer. *)
Definition writeVolumeFileError (err : vf_error) : Z * string :=
  match err with
  | errUnauthorized => (401, "unauthorized")
  | errVolumeFileUnavailable => (503, "unavailable")
  | errVolumeNotFound | errFileNotFound | errDirNotFound => (404, "not_found")
  | errFileTooLarge => (413, "bad_request")
  | errDefaultPosixIdentity => (412, "bad_request")
  | errPermissionDenied => (403, "forbidden")
  | errPathAlreadyExists | errPathNotDir | errDirectoryNotEmpty => (409, "conflict")
  | errInvalidPath | badRequest _ => (400, "bad_request")
  | methodNotAllowed => (405, "bad_request")
  | errText _ | errDb _ | errRPC _ => (500, "internal_error")
  end.

(** ** Paths and attributes *)

Definition maxVolumeFileSize : Z := 100 * 1024 * 1024.
Definition maxPOSIXID : Z := 2 ^ 32 - 1.

Definition cleanVolumePath (raw : string) (allowRoot : bool) : res vf_error string :=
  let cleaned := Clean_rooted (TrimSpace raw) in
  if bool_decide (cleaned = "/") then (if allowRoot then Ok "/" else Err errInvalidPath) else Ok cleaned.

Definition normalizeVolumeWatchPrefix (cleaned : string) : string :=
  if bool_decide (cleaned = "/") then "" else TrimRight cleaned "/".

Definition joinVolumePath (parent name : string) : string :=
  if bool_decide (parent = "/") then "/" +:+ name else parent +:+ "/" +:+ name.

Definition S_IFMT : Z := 61440.
Definition attrModeIsDir (mode : Z) : bool := Z.land mode S_IFMT =? S_IFDIR.
Definition attrModeIsSymlink (mode : Z) : bool := Z.land mode S_IFMT =? S_IFLNK.

Record volumeFileInfo := mkFileInfo {
  fi_Name : string; fi_Path : string; fi_Type : string; fi_Size : Z; fi_Mode : string; fi_ModTime : Z * Z; fi_IsLink : bool
}.

(** [%04o] of nine bits *)
Definition show_octal4 (n : Z) : string :=
  let s := show 8 4 n "" in
  Nat.iter (4 - String.length s) (String "0") s.

Definition attrToVolumeFileInfo (name logicalPath : string) (attr : option AttrResponse) : volumeFileInfo :=
  match attr with
  | None => mkFileInfo name logicalPath "file" 0 "" (0, 0) false
  | Some a =>
      let link := negb (attrModeIsDir (at_Mode a)) && attrModeIsSymlink (at_Mode a) in
      mkFileInfo name logicalPath (if attrModeIsDir (at_Mode a) then "dir" else if link then "symlink" else "file")
        (int64_of (at_Size a)) (show_octal4 (Z.land (at_Mode a) 511)) (at_MtimeSec a, at_MtimeNsec a) link
  end.

Definition volumeWatchEventType (eventType : WatchEventType) : string :=
  match eventType with
  | EVENT_CREATE => "create"
  | EVENT_WRITE => "write"
  | EVENT_REMOVE => "remove"
  | EVENT_RENAME => "rename"
  | EVENT_CHMOD => "chmod"
  | _ => "invalidate"
  end.

Definition acceptsVolumeFileJSON (accept contentType : string) : bool :=
  Contains_str accept "application/json" || Contains_str contentType "application/json".

(** ** Who may use a volume, and as whom *)

(** The columns of a volume that the handlers read. *)
Record VolumeRecord := mkVolumeRecord {
  vr_ID : string;
  vr_TeamID : string;
  vr_DefaultPosixUID : option Z;
  vr_DefaultPosixGID : option Z
}.

Record HttpRepository := mkHttpRepo {
  hr_GetSandboxVolume : string -> res db_error VolumeRecord;
  hr_GetSandboxVolumeOwner : string -> res db_error string
}.

Definition isOwnedSandboxVolume (repo : HttpRepository) (id : string) : bool :=
  match hr_GetSandboxVolumeOwner repo id with Ok _ => true | _ => false end.

Definition loadAuthorizedVolume (repo : option HttpRepository) (claims : option Claims) (volumeID : string) : res vf_error VolumeRecord :=
  match claims with
  | None => Err errUnauthorized
  | Some claims =>
      if bool_decide (cl_TeamID claims = "") then Err errUnauthorized else
      match repo with
      | None => Err errVolumeFileUnavailable
      | Some repo =>
          match hr_GetSandboxVolume repo volumeID with
          | Panic => Panic
          | Err (DbNotFound | DbWrapsNotFound) => Err errVolumeNotFound
          | Err e => Err (errDb e)
          | Ok record =>
              if negb (bool_decide (vr_TeamID record = cl_TeamID claims)) then Err errVolumeNotFound else
              if isOwnedSandboxVolume repo volumeID then Err errVolumeNotFound else Ok record
          end
      end
  end.

Definition defaultVolumeFileActor (volumeRecord : option VolumeRecord) : res vf_error PosixActor :=
  match volumeRecord with
  | Some (mkVolumeRecord _ _ (Some uid) (Some gid)) =>
      if (uid <? 0) || (maxPOSIXID <? uid) then Err (errText "default_posix_uid out of range") else
      if (gid <? 0) || (maxPOSIXID <? gid) then Err (errText "default_posix_gid out of range") else
      Ok (mkActor uid [gid])
  | _ => Err errDefaultPosixIdentity
  end.

(** ** The calls of a request *)

Record FileRequest := mkFileRequest {
  rq_claims : option Claims;
  rq_actor : option PosixActor;
  rq_now : Z;
  rq_env : nat -> nat -> Env
}.

Definition call_ctx (q : FileRequest) (k : nat) : Ctx := mkCtx (rq_claims q) (rq_now q) (rq_env q k).

Record volumeResolvedPath := mkResolved {
  rp_Clean : string; rp_Parent : Z; rp_Inode : Z; rp_Base : string; rp_Attr : option AttrResponse; rp_Exists : bool
}.

#[local] Instance file_byte_eq_dec : EqDecision byte := Byte.byte_eq_dec.

Section files.
Context {B X : Type} `{UP : UnicodeUpper} `{UC : UnicodeCase} `{CR : ColdReader} `{BK : Backend B X} `{RG : MountRegistrar X}.
Context (cfg : Config) (q : FileRequest) (volumeID : string).

Abbreviation VF := (ST vf_error (Server B X * nat)).

(** A call, with its error as a value. *)
Definition try_rpc {A} (f : Ctx -> ST srv_error (Server B X) A) : VF (srv_error + A) := fun '(s, k) =>
  match f (call_ctx q k) s with
  | (Ok a, s') => (Ok (inr a), (s', S k))
  | (Err e, s') => (Ok (inl e), (s', S k))
  | (Panic, s') => (Panic, (s', S k))
  end.

(** A call whose error is translated. *)
Definition rpc {A} (f : Ctx -> ST srv_error (Server B X) A) : VF A :=
  let* r := try_rpc f in
  match r with inl e => throw (translateVolumeRPCError e) | inr a => ret a end.

(** [defer]: the result is kept, the error of the cleanup dropped. *)
Definition deferring {A C} (cleanup : VF C) (m : VF A) : VF A := fun s =>
  let '(r, s1) := m s in
  match cleanup s1 with
  | (Panic, s2) => (Panic, s2)
  | (_, s2) => (r, s2)
  end.

(** [resolved.Attr.Mode], a nil dereference without attributes. *)
Definition attr_of (attr : option AttrResponse) : VF AttrResponse :=
  match attr with Some a => ret a | None => panic end.

(** [if node.Attr != nil && !attrModeIsDir(node.Attr.Mode)] *)
Definition not_a_dir (attr : option AttrResponse) : bool :=
  match attr with Some a => negb (attrModeIsDir (at_Mode a)) | None => false end.

(** [strings.Split(strings.Trim(cleaned, "/"), "/")] *)
Definition path_parts (cleaned : string) : list string := Split (Trim cleaned "/") "/".

Fixpoint lookup_parts (cleaned : string) (current : Z) (parts : list string) : VF volumeResolvedPath :=
  match parts with
  | [] => throw errInvalidPath
  | part :: rest =>
      let* node := try_rpc (fun ctx => FsServer.Lookup cfg ctx volumeID current part) in
      match node with
      | inl e =>
          if bool_decide (CodeOf (Some e) = NotFound) then ret (mkResolved cleaned current 0 part None false)
          else throw (translateVolumeRPCError e)
      | inr node =>
          match rest with
          | [] => ret (mkResolved cleaned current (nr_Inode node) part (nr_Attr node) true)
          | _ => if not_a_dir (nr_Attr node) then throw errPathNotDir else lookup_parts cleaned (nr_Inode node) rest
          end
      end
  end.

Definition lookupVolumePath (raw : string) (allowRoot : bool) : VF volumeResolvedPath :=
  let* cleaned := lift_res (cleanVolumePath raw allowRoot) in
  if bool_decide (cleaned = "/") then
    let* attr := rpc (fun ctx => FsServer.GetAttr cfg ctx volumeID 1) in
    ret (mkResolved cleaned 0 1 "" (Some attr) true)
  else lookup_parts cleaned 1 (path_parts cleaned).

(** The node of a directory on the way, made when [recursive] and missing. *)
Definition ensure_part (recursive : bool) (current : Z) (part : string) : VF NodeResponse :=
  let* node := try_rpc (fun ctx => FsServer.Lookup cfg ctx volumeID current part) in
  match node with
  | inr node => ret node
  | inl e =>
      if negb (bool_decide (CodeOf (Some e) = NotFound)) then throw (translateVolumeRPCError e) else
      if negb recursive then throw errDirNotFound else
      let* made := try_rpc (fun ctx => FsServer.Mkdir cfg ctx volumeID current part 493 (rq_actor q)) in
      match made with
      | inr node => ret node
      | inl e =>
          if bool_decide (CodeOf (Some e) = AlreadyExists)
          then rpc (fun ctx => FsServer.Lookup cfg ctx volumeID current part)
          else throw (translateVolumeRPCError e)
      end
  end.

Fixpoint ensure_parts (recursive : bool) (current : Z) (parts : list string) : VF Z :=
  match parts with
  | [] => ret current
  | part :: rest =>
      let* node := ensure_part recursive current part in
      if not_a_dir (nr_Attr node) then throw errPathNotDir else
      ensure_parts recursive (nr_Inode node) rest
  end.

Definition ensureVolumeParent (raw : string) (recursive : bool) : VF (Z * string) :=
  let* cleaned := lift_res (cleanVolumePath raw false) in
  let parts := path_parts cleaned in
  let* current := ensure_parts recursive 1 (removelast parts) in
  ret (current, List.last parts "").

Definition mkdirVolumePath (raw : string) (recursive : bool) : VF bool :=
  let* resolved := lookupVolumePath raw false in
  if rp_Exists resolved then
    let* attr := attr_of (rp_Attr resolved) in
    if attrModeIsDir (at_Mode attr) && recursive then ret false else
    if attrModeIsDir (at_Mode attr) then throw errPathAlreadyExists else throw errPathNotDir
  else
    let* '(parent, base) := ensureVolumeParent raw recursive in
    let* made := try_rpc (fun ctx => FsServer.Mkdir cfg ctx volumeID parent base 493 (rq_actor q)) in
    match made with
    | inr _ => ret true
    | inl e => if bool_decide (CodeOf (Some e) = AlreadyExists) && recursive then ret false
               else throw (translateVolumeRPCError e)
    end.

Definition release_file (handleID : Z) : VF unit := rpc (fun ctx => FsServer.Release cfg ctx volumeID handleID).
Definition release_dir (handleID : Z) : VF unit := rpc (fun ctx => FsServer.ReleaseDir cfg ctx volumeID handleID).

(** Opens the inode, runs [fn] with the handle, releases it. *)
Definition openVolumeFile {A} (inode flags : Z) (fn : Z -> VF A) : VF A :=
  let* handleID := rpc (fun ctx => FsServer.Open cfg ctx volumeID inode flags (rq_actor q)) in
  deferring (release_file handleID) (fn handleID).

Definition openVolumeDir {A} (inode : Z) (fn : Z -> VF A) : VF A :=
  let* handleID := rpc (fun ctx => FsServer.OpenDir cfg ctx volumeID inode) in
  deferring (release_dir handleID) (fn handleID).

Definition read_all (inode : Z) (attr : AttrResponse) : VF (list byte) :=
  openVolumeFile inode 0 (fun _ =>
    let* '(data, _) := rpc (fun ctx => FsServer.Read cfg ctx volumeID inode 0 (int64_of (at_Size attr))) in ret data).

Definition volumeFileContentMatches (resolved : volumeResolvedPath) (expected : list byte) : VF bool :=
  match rp_Attr resolved with
  | None => ret false
  | Some attr =>
      if negb (rp_Exists resolved) || attrModeIsDir (at_Mode attr) || negb (at_Size attr =? zlen expected) then ret false else
      let* data := read_all (rp_Inode resolved) attr in
      ret (bool_decide (data = expected))
  end.

(** The data, when there is any, through the handle, which is then released. *)
Definition write_data (inode handleID : Z) (data : list byte) : VF bool :=
  let work :=
    if zlen data =? 0 then ret true else
    let* _ := rpc (fun ctx => FsServer.Write cfg ctx volumeID inode 0 data handleID) in ret true in
  if handleID =? 0 then work else deferring (release_file handleID) work.

Definition writeVolumePath (raw : string) (data : list byte) : VF bool :=
  let* resolved := lookupVolumePath raw false in
  if rp_Exists resolved then
    let* attr := attr_of (rp_Attr resolved) in
    if attrModeIsDir (at_Mode attr) then throw errPathNotDir else
    let* same := volumeFileContentMatches resolved data in
    if (same : bool) then ret false else
    let* handleID := rpc (fun ctx => FsServer.Open cfg ctx volumeID (rp_Inode resolved) (Z.lor O_WRONLY O_TRUNC) (rq_actor q)) in
    write_data (rp_Inode resolved) handleID data
  else
    let* '(parent, base) := ensureVolumeParent raw true in
    let* node := rpc (fun ctx => FsServer.Create cfg ctx volumeID parent base 420 (rq_actor q)) in
    write_data (nr_Inode node) (nr_HandleId node) data.

Definition moveVolumePath (src dst : string) : VF unit :=
  let* source := lookupVolumePath src false in
  if negb (rp_Exists source) then throw errFileNotFound else
  let* '(dstParent, dstBase) := ensureVolumeParent dst true in
  rpc (fun ctx => FsServer.Rename cfg ctx volumeID (rp_Parent source) (rp_Base source) dstParent dstBase).

(** The entries of a listing that stand for children. *)
Definition child_entry (e : DirEntryResponse) : bool :=
  negb (bool_decide (dr_Name e = "") || bool_decide (dr_Name e = ".") || bool_decide (dr_Name e = "..")).

Definition list_dir (inode : Z) : VF (list DirEntryResponse) :=
  let* entries := rpc (fun ctx => FsServer.ReadDir cfg ctx volumeID inode 0 true) in
  ret (filter (fun e => child_entry e = true) entries).

(** Every call goes one directory down; [fuel] bounds the depth. *)
Fixpoint removeVolumePath (fuel : nat) (resolved : volumeResolvedPath) : VF unit :=
  if negb (rp_Exists resolved) then ret tt else
  if bool_decide (rp_Clean resolved = "/") then throw errInvalidPath else
  let* attr := attr_of (rp_Attr resolved) in
  if negb (attrModeIsDir (at_Mode attr)) then
    rpc (fun ctx => FsServer.Unlink cfg ctx volumeID (rp_Parent resolved) (rp_Base resolved))
  else match fuel with
  | O => throw (errText "out of fuel")
  | S fuel =>
      openVolumeDir (rp_Inode resolved) (fun _ =>
        let* entries := list_dir (rp_Inode resolved) in
        do* (fix each (entries : list DirEntryResponse) : VF unit :=
               match entries with
               | [] => ret tt
               | e :: rest =>
                   do* removeVolumePath fuel
                         (mkResolved (joinVolumePath (rp_Clean resolved) (dr_Name e)) (rp_Inode resolved) (dr_Inode e)
                            (dr_Name e) (dr_Attr e) true) in
                   each rest
               end) entries in
        rpc (fun ctx => FsServer.Rmdir cfg ctx volumeID (rp_Parent resolved) (rp_Base resolved)))
  end.

(** ** The handlers, once the volume is mounted here *)

(** [finalize] is the materialization of the volume's changes by the volume manager. *)
Context (finalize : VF unit).

Inductive vf_answer :=
| AInfo (info : volumeFileInfo)
| AEntries (entries : list volumeFileInfo)
| AData (json : bool) (data : list byte)
| ADone (what : string) (status : Z).

(** [pathpkg.Base] of a cleaned path. *)
Definition path_base (cleaned : string) : string := List.last (Split cleaned "/") "".

Definition handleVolumeFileStat (filePath : string) : VF vf_answer :=
  let* resolved := lookupVolumePath filePath true in
  if negb (rp_Exists resolved) then throw errFileNotFound else
  let name := if bool_decide (rp_Clean resolved = "/") then "/" else path_base (rp_Clean resolved) in
  ret (AInfo (attrToVolumeFileInfo name (rp_Clean resolved) (rp_Attr resolved))).

Definition handleVolumeFileList (dirPath : string) : VF vf_answer :=
  let* resolved := lookupVolumePath dirPath true in
  if negb (rp_Exists resolved) then throw errDirNotFound else
  let* attr := attr_of (rp_Attr resolved) in
  if negb (attrModeIsDir (at_Mode attr)) then throw errPathNotDir else
  openVolumeDir (rp_Inode resolved) (fun _ =>
    let* entries := list_dir (rp_Inode resolved) in
    ret (AEntries ((fun e => attrToVolumeFileInfo (dr_Name e) (joinVolumePath (rp_Clean resolved) (dr_Name e)) (dr_Attr e)) <$> entries))).

Definition handleVolumeFileMove (source destination : string) : VF vf_answer :=
  if bool_decide (source = "") || bool_decide (destination = "") then throw (badRequest "source and destination are required") else
  do* moveVolumePath source destination in
  do* finalize in
  ret (ADone "moved" 200).

Definition readVolumeFile (json : bool) (logicalPath : string) : VF vf_answer :=
  let* resolved := lookupVolumePath logicalPath false in
  if negb (rp_Exists resolved) then throw errFileNotFound else
  let* attr := attr_of (rp_Attr resolved) in
  if attrModeIsDir (at_Mode attr) then throw errPathNotDir else
  let* data := read_all (rp_Inode resolved) attr in
  ret (AData json data).

(** [body] is [None] when it cannot be read. *)
Definition writeVolumeFile (mkdir recursive : bool) (body : option (list byte)) (logicalPath : string) : VF vf_answer :=
  if mkdir then
    let* changed := mkdirVolumePath logicalPath recursive in
    do* (if (changed : bool) then finalize else ret tt) in
    ret (ADone "created" 201)
  else
    match body with
    | None => throw (badRequest "body")
    | Some data =>
        if maxVolumeFileSize <? zlen data then throw errFileTooLarge else
        let* changed := writeVolumePath logicalPath data in
        do* (if (changed : bool) then finalize else ret tt) in
        ret (ADone "written" 200)
    end.

Definition deleteVolumeFile (fuel : nat) (logicalPath : string) : VF vf_answer :=
  let* resolved := lookupVolumePath logicalPath false in
  do* (if rp_Exists resolved then do* removeVolumePath fuel resolved in finalize else ret tt) in
  ret (ADone "deleted" 200).

Inductive method := MethodGet | MethodPost | MethodDelete | MethodOther.

(** The dispatch of a request for a path of a volume. *)
Definition handleVolumeFileOperation (m : method) (json mkdir recursive : bool) (body : option (list byte)) (fuel : nat)
    (filePath : string) : VF vf_answer :=
  if bool_decide (volumeID = "") then throw (badRequest "volume id is required") else
  if bool_decide (filePath = "") then throw (badRequest "path is required") else
  match m with
  | MethodGet => readVolumeFile json filePath
  | MethodPost => writeVolumeFile mkdir recursive body filePath
  | MethodDelete => deleteVolumeFile fuel filePath
  | MethodOther => throw methodNotAllowed
  end.

End files.
