(* ===== verification/VolumeTree.v ===== *)
(** * Paths through the engine's directories

    What the calls behind the HTTP file API keep of the directory tree: entries and linked
    nodes stay, and the content of a file that was emptied and written is what was written.
    [grows] relates the state before and after the calls that add to the tree, [stills] the
    states before and after the calls that leave every linked node as it is. *)

From stdpp Require Import base gmap strings list fin_maps numbers sorting.
From Stdlib Require Import Strings.Byte Strings.Ascii.
From S2P Require Import Prelude GoStd S0fsTypes S0fsCore S0fsEngine S0fsInv S0fsSafety S0fsFiles Volume FsServer FsServerFiles.

Local Open Scope Z_scope.

(** ** Walking down *)

Definition dir_at (s : SnapshotState) (p : Z) : Prop := exists d, Nodes s !! p = Some d /\ is_dir d = true.

(** The inode that [parts] lead to from [cur], through directories. *)
Inductive walks (s : SnapshotState) : Z -> list string -> Z -> Prop :=
| walks_nil cur : walks s cur [] cur
| walks_cons cur part rest i j :
    dir_at s cur -> dir_of (Children s) cur !! part = Some i -> walks s i rest j -> walks s cur (part :: rest) j.

Lemma walks_app s cur ps i qs j : walks s cur ps i -> walks s i qs j -> walks s cur (ps ++ qs) j.
Proof. induction 1; [done|]. intros H'. simpl. econstructor; eauto. Qed.

Lemma walks_snoc s cur ps p name i : walks s cur ps p -> dir_at s p -> dir_of (Children s) p !! name = Some i -> walks s cur (ps ++ [name]) i.
Proof. intros Hw Hd He. eapply walks_app; [done|]. econstructor; [done..|constructor]. Qed.

(** ** Relations *)

(** [k] inodes at most were taken. *)
Record grows (k : Z) (s s' : SnapshotState) : Prop := {
  gr_wf : wf s';
  gr_entry : forall p name i, dir_of (Children s) p !! name = Some i -> dir_of (Children s') p !! name = Some i;
  gr_node : forall i n, Nodes s !! i = Some n -> n_Nlink n <> 0 ->
    exists n', Nodes s' !! i = Some n' /\ n_Type n' = n_Type n /\ n_Nlink n' <> 0;
  gr_next : NextInode s' <= NextInode s + k
}.

Record stills (s s' : SnapshotState) : Prop := {
  st_wf : wf s';
  st_entry : forall p name i, dir_of (Children s) p !! name = Some i -> dir_of (Children s') p !! name = Some i;
  st_node : forall i n, Nodes s !! i = Some n -> n_Nlink n <> 0 ->
    Nodes s' !! i = Some n /\ Data s' !! i = Data s !! i /\ ColdFiles s' !! i = ColdFiles s !! i;
  st_segments : Segments s' = Segments s;
  st_next : NextInode s' = NextInode s
}.

Lemma tree_grows_refl s : wf s -> grows 0 s s.
Proof. intros W. split; [done|done| |lia]. eauto. Qed.

Lemma grows_trans k1 k2 s1 s2 s3 : grows k1 s1 s2 -> grows k2 s2 s3 -> grows (k1 + k2) s1 s3.
Proof.
  intros [W1 E1 N1 X1] [W2 E2 N2 X2]. split; [done|auto| |lia]. intros i n Hn Hl.
  destruct (N1 _ _ Hn Hl) as (n1 & Hn1 & Ht1 & Hl1). destruct (N2 _ _ Hn1 Hl1) as (n2 & Hn2 & Ht2 & Hl2).
  exists n2. split; [done|]. split; [congruence|done].
Qed.

Lemma grows_weaken k k' s s' : k <= k' -> grows k s s' -> grows k' s s'.
Proof. intros Hk [W E N X]. split; [done..|lia]. Qed.

Lemma stills_refl s : wf s -> stills s s.
Proof. intros W. by split. Qed.

Lemma stills_trans s1 s2 s3 : stills s1 s2 -> stills s2 s3 -> stills s1 s3.
Proof.
  intros [W1 E1 N1 G1 X1] [W2 E2 N2 G2 X2]. split; [done|auto| |congruence..]. intros i n Hn Hl.
  destruct (N1 _ _ Hn Hl) as (Hn1 & Hd1 & Hc1). destruct (N2 _ _ Hn1 Hl) as (Hn2 & Hd2 & Hc2). split; [done|]. split; congruence.
Qed.

Lemma stills_grows s s' : stills s s' -> grows 0 s s'.
Proof. intros [W E N G X]. split; [done|done| |lia]. intros i n Hn Hl. exists n. split; [by apply (N i n)|done]. Qed.

Lemma entry_linked s p name i : wf s -> dir_of (Children s) p !! name = Some i ->
  exists n, Nodes s !! i = Some n /\ n_Nlink n <> 0 /\ n_Inode n = i.
Proof.
  intros W He. destruct (wf_entry _ W _ _ _ He) as [_ [n Hn]]. exists n. destruct (wf_node _ W _ _ Hn) as (Hi & _ & _ & Hr & _).
  split; [done|]. split; [|done]. unfold refs in Hr.
  pose proof (entry_count_pos (flat (Children s)) (p, name) i ltac:(by rewrite lookup_flat)). lia.
Qed.

Lemma dir_linked s p d : wf s -> Nodes s !! p = Some d -> is_dir d = true -> n_Nlink d <> 0.
Proof. intros W Hd Hdd. destruct (wf_node _ W _ _ Hd) as (_ & _ & _ & _ & H1). rewrite H1 by done. done. Qed.

Lemma grows_dir k s s' p : wf s -> grows k s s' -> dir_at s p -> dir_at s' p.
Proof.
  intros W G (d & Hd & Hdd). destruct (gr_node _ _ _ G _ _ Hd (dir_linked _ _ _ W Hd Hdd)) as (d' & Hd' & Ht & _).
  exists d'. split; [done|]. unfold is_dir in *. by rewrite Ht.
Qed.

Lemma grows_walks k s s' cur ps i : wf s -> grows k s s' -> walks s cur ps i -> walks s' cur ps i.
Proof. intros W G. induction 1; [constructor|]. econstructor; [by eapply grows_dir|by apply (gr_entry _ _ _ G)|done]. Qed.

Lemma root_dir s : wf s -> dir_at s RootInode.
Proof. intros W. destruct (wf_root _ W) as (n & Hn & Hd). by exists n. Qed.

(** ** Files *)

Section content.
Context `{CR : ColdReader}.

(** A linked regular file that reads as [data] from its start to its size. *)
Definition reads (s : SnapshotState) (i : Z) (data : list byte) : Prop :=
  exists n, Nodes s !! i = Some n /\ n_Type n = TypeFile /\ n_Nlink n <> 0 /\ n_Size n = zlen data /\
    readFileLocked n i 0 (zlen data) s = Ok data.

(** A linked regular file without content. *)
Definition empty_file (s : SnapshotState) (i : Z) : Prop :=
  exists n, Nodes s !! i = Some n /\ n_Type n = TypeFile /\ n_Nlink n <> 0 /\ n_Size n = 0 /\ data_of s i = [] /\ cold_of s i = [].

(** No linked file has one payload in memory and another in segments. *)
Definition one_payload (s : SnapshotState) : Prop :=
  forall i n, Nodes s !! i = Some n -> n_Nlink n <> 0 -> data_of s i = [] \/ cold_of s i = [].

Lemma stills_reads s s' i data : stills s s' -> reads s i data -> reads s' i data.
Proof.
  intros [W E N G X] (n & Hn & Ht & Hl & Hs & Hr). destruct (N _ _ Hn Hl) as (Hn' & Hd & Hc). exists n. split_and!; try done.
  rewrite <- Hr. unfold readFileLocked, is_hot, readColdRangeLocked, data_of, cold_of. by rewrite Hd, Hc, G.
Qed.

Lemma stills_one_payload s s' i n : stills s s' -> one_payload s -> Nodes s !! i = Some n -> n_Nlink n <> 0 ->
  data_of s' i = [] \/ cold_of s' i = [].
Proof.
  intros [W E N G X] H1 Hn Hl. destruct (N _ _ Hn Hl) as (_ & Hd & Hc). unfold data_of, cold_of. rewrite Hd, Hc. by apply (H1 i n).
Qed.

Lemma empty_reads s i : empty_file s i -> reads s i [].
Proof.
  intros (n & Hn & Ht & Hl & Hs & _). exists n. split_and!; try done. unfold readFileLocked. rewrite Hs. done.
Qed.


(** ** The engine's calls *)

Implicit Types w : World.

Definition on_core (R : SnapshotState -> SnapshotState -> Prop) w w' : Prop :=
  closed (eng w') = closed (eng w) /\ R (core (eng w)) (core (eng w')).

Lemma counted_stills w w' : wf (core (eng w)) -> counted w w' -> on_core stills w w'.
Proof. intros W [Hc [q E]]. split; [done|]. rewrite E. split; [by apply wf_set_NextSeq|done..]. Qed.

(** Forgetting only removes what has no links. *)
Lemma forget_stills i s : wf s -> wf (forget_state i s) -> stills s (forget_state i s).
Proof.
  intros W W'. split; [done| | | |]; unfold forget_state in *; destruct (Nodes s !! i) as [n|] eqn:Hn; try done;
    destruct (Z.eqb_spec (n_Nlink n) 0) as [H0|]; try done.
  - intros p name j. unfold dir_of. simpl. destruct (decide (p = i)) as [->|Hp]; [|by rewrite lookup_delete_ne by done].
    destruct (Children s !! i) as [ch|] eqn:Hc; [|done]. destruct (proj1 (wf_dirs _ W i) ltac:(by eexists)) as (d & Hd & Hdd).
    pose proof (dir_linked _ _ _ W Hd Hdd). congruence.
  - intros j m Hm Hl. simpl. assert (j <> i) by congruence. by rewrite !lookup_delete_ne by done.
Qed.

(** The content of one file is rewritten. *)
Lemma content_grows i t f s : wf s -> grows 0 s (content_update i t f s).2.
Proof.
  intros W. pose proof (wf_content_update s i t f W) as W'. unfold content_update in *.
  destruct (Nodes s !! i) as [n|] eqn:Hn; [|by apply tree_grows_refl]. destruct (is_dir n) eqn:Hd; [by apply tree_grows_refl|].
  destruct (file_content s i) as [cur|e|]; [|by apply tree_grows_refl..].
  assert (Hch : Children (warm i cur s) = Children s /\ NextInode (warm i cur s) = NextInode s)
    by (unfold warm; by destruct (is_hot s i)). destruct Hch as [Hch Hnx].
  destruct (f cur) as [new|e|]; simpl in *; (split; [done| | |]); simpl; rewrite ?Hch, ?Hnx, ?warm_Nodes; try done; try lia; eauto.
  intros j m Hm Hl. destruct (decide (j = i)) as [->|Hj]; [|rewrite lookup_insert_ne by done; eauto].
  rewrite lookup_insert_eq. eexists. split; [done|]. assert (m = n) as -> by congruence. done.
Qed.

Lemma put_grows s s' i n n' : wf s' -> Nodes s !! i = Some n -> Nodes s' = <[i := n']> (Nodes s) -> n_Type n' = n_Type n ->
  n_Nlink n' = n_Nlink n -> Children s' = Children s -> NextInode s' = NextInode s -> grows 0 s s'.
Proof.
  intros W' Hn HN Ht Hl Hc Hx. split; [done|by rewrite Hc| |lia]. intros j m Hm Hlm. rewrite HN.
  destruct (decide (j = i)) as [->|Hj]; [|rewrite lookup_insert_ne by done; eauto].
  rewrite lookup_insert_eq. assert (m = n) as -> by congruence. eexists. split; [done|]. split; [done|congruence].
Qed.

(** The calls of one record on one node. *)
Definition mild (r : walRecord) : Prop := r_Op r = OpWrite \/ r_Op r = OpTruncate \/ r_Op r = OpChown.

Lemma mild_grows s r : wf s -> mild r -> grows 0 s (apply r s).2.
Proof.
  intros W Hm. assert (W' : wf (apply r s).2) by (apply apply_wf; [done|]; unfold record_ok; by destruct Hm as [->|[->| ->]]).
  unfold apply in *. destruct Hm as [Ho|[Ho|Ho]]; rewrite Ho in *.
  - rewrite applyWrite_eq. by apply content_grows.
  - rewrite applyTruncate_eq. by apply content_grows.
  - unfold applySetOwner, bind, get in *. destruct (Nodes s !! r_Inode r) as [n|] eqn:Hn; [|by apply tree_grows_refl].
    by eapply (put_grows s _ (r_Inode r) n).
Qed.

Lemma set_NextSeq_grows q s k s' : grows k (set_NextSeq q s) s' -> grows k s s'.
Proof. intros [W E N X]. by split. Qed.

Lemma moved_grows P w w' : wf (core (eng w)) -> (forall r, P r -> mild r) -> moved P w w' -> on_core (grows 0) w w'.
Proof.
  intros W HP [Hc|(Hcl & r & q & Hr & _ & E)].
  - destruct (counted_stills _ _ W Hc) as [? ?]. split; [done|]. by apply stills_grows.
  - split; [done|]. rewrite E. apply (set_NextSeq_grows q), mild_grows; [by apply wf_set_NextSeq|by apply HP].
Qed.

(** What a new node of type [t] looks like, in its directory. *)
Definition made (s : SnapshotState) (p : Z) (name : string) (t : FileType) (n : Node) : Prop :=
  dir_at s p /\ dir_of (Children s) p !! name = Some (n_Inode n) /\ Nodes s !! n_Inode n = Some n /\
  n_Type n = t /\ n_Nlink n = 1 /\ n_Size n = 0 /\ data_of s (n_Inode n) = [] /\ cold_of s (n_Inode n) = [].

Lemma add_node_made s p name n :
  wf s -> NextInode s = n_Inode n -> NextInode s < 2 ^ 64 - 1 -> n_Nlink n = 1 -> n_Size n = 0 -> dir_at s p ->
  dir_of (Children s) p !! name = None ->
  grows 1 s (add_node p name n s) /\ made (add_node p name n s) p name (n_Type n) n.
Proof.
  intros W Hi Hb Hl Hs Hp Hfree. destruct (wf_fresh s (n_Inode n) W ltac:(lia)) as (HfN & HfC & _).
  assert (W' : wf (add_node p name n s)) by (apply wf_add_node; [done|lia|done..]).
  assert (Hpi : p <> n_Inode n) by (destruct Hp as (d & Hd & _); congruence).
  assert (Hdir : forall q, q <> n_Inode n -> dir_of (Children (add_node p name n s)) q =
    if decide (q = p) then <[name := n_Inode n]> (dir_of (Children s) p) else dir_of (Children s) q).
  { intros q Hq. unfold add_node, dir_of at 1. simpl. destruct (decide (q = p)) as [->|Hqp]; [by rewrite lookup_insert_eq|].
    rewrite lookup_insert_ne by done. destruct (is_dir n); by rewrite ?lookup_insert_ne by done. }
  assert (Hg : grows 1 s (add_node p name n s)).
  { split; [done| | |].
    - intros q m j Hj. assert (q <> n_Inode n) by (intros ->; unfold dir_of in Hj; by rewrite HfC in Hj).
      rewrite Hdir by done. case_decide; [subst|done]. rewrite lookup_insert_ne; [done|congruence].
    - intros j m Hm Hlm. exists m. split; [|done]. unfold add_node. simpl. by rewrite lookup_insert_ne by congruence.
    - unfold add_node. simpl. rewrite u64_small by (pose proof (wf_next _ W); unfold RootInode in *; lia). lia. }
  split; [done|]. split; [by apply (grows_dir 1 s)|]. split; [by rewrite Hdir, decide_True, lookup_insert_eq|].
  split; [unfold add_node; simpl; by rewrite lookup_insert_eq|]. split_and!; try done.
  - unfold data_of. simpl. destruct (Data s !! n_Inode n) eqn:Hd; [|done]. pose proof (wf_data _ W (n_Inode n) ltac:(by eexists)). lia.
  - unfold cold_of. simpl. destruct (ColdFiles s !! n_Inode n) eqn:Hd; [|done]. pose proof (wf_cold _ W (n_Inode n) ltac:(by eexists)). lia.
Qed.

Lemma create_effect env p name t m tgt w :
  wf (core (eng w)) -> NextInode (core (eng w)) < 2 ^ 64 - 1 -> t <> TypeUnset ->
  match create env p name t m tgt w with
  | (Ok o, w') => exists n, o = Some n /\ on_core (grows 1) w w' /\ made (core (eng w')) p name t n
  | (_, w') => on_core (grows 0) w w'
  end.
Proof.
  intros W Hb Ht. pose proof (counted_refl w) as Hc0.
  assert (Hst : forall w', counted w w' -> on_core (grows 0) w w').
  { intros w' Hc. destruct (counted_stills _ _ W Hc). split; [done|by apply stills_grows]. }
  unfold create. unfold bind at 1. rewrite checkOpen_eq. destruct (closed (eng w)) eqn:Ecl; [by apply Hst|].
  case_decide; [by apply Hst|]. unfold bind at 1. rewrite (run_core_guard _ w _ (ensureDir_wf _ p W)).
  destruct (Nodes (core (eng w)) !! p) as [d|] eqn:Hd; [|by apply Hst]. destruct (is_dir d) eqn:Hdd; [|by apply Hst].
  unfold bind at 1, get. destruct (dir_of _ p !! name) as [j|] eqn:Hfree; [by apply Hst|].
  unfold bind at 1, newRecord. unfold bind at 1, gets. set (w1 := set_eng _ w). set (r := mkRecord _ OpCreate _ p name _ _ t m _ _ tgt _).
  assert (H1 : counted w w1) by (split; [done|by eexists]). unfold bind, log_apply, bind.
  assert (H2 : counted w (wal_append env r w1).2).
  { unfold wal_append. destruct (walHandle (eng w1)); try done. by destruct (env_append env) as [|[]]. }
  destruct (wal_append env r w1) as [[[]|e|] w2]; simpl in H2; [|by apply Hst..]. destruct H2 as [Hcl [q E]]. unfold run_core. rewrite E.
  pose proof (wf_set_NextSeq _ q W) as W1. unfold apply. simpl.
  destruct (applyCreate_cases (set_NextSeq q (core (eng w))) r W1) as [[e Ee]|(Ee & _)]; [simpl; lia| |]; rewrite Ee; simpl.
  - split; [done|]. simpl. apply (set_NextSeq_grows q). by apply tree_grows_refl.
  - assert (Hcr : n_Type (created_node r) = t) by (unfold created_node; simpl; by rewrite decide_False).
    destruct (add_node_made (set_NextSeq q (core (eng w))) p name (created_node r)) as [Hg Hmd];
      [done|done|done|done|done|by exists d|done|]. rewrite Hcr in Hmd. exists (created_node r).
    split; [by destruct Hmd as (_ & _ & ? & _)|]. split; [|done]. split; [done|]. by apply (set_NextSeq_grows q).
Qed.

Lemma updated_node s i t old new n :
  let s' := file_state i new (touch_size new t n) (warm i old s) in
  Nodes s' !! i = Some (touch_size new t n) /\ data_of s' i = new /\ cold_of s' i = cold_of (warm i old s) i.
Proof. unfold file_state, data_of, cold_of. simpl. by rewrite !lookup_insert_eq. Qed.

Lemma Truncate_empties env i w w' n :
  Truncate env i 0 w = (Ok tt, w') -> Nodes (core (eng w)) !! i = Some n -> n_Type n = TypeFile -> n_Nlink n <> 0 ->
  data_of (core (eng w)) i = [] \/ cold_of (core (eng w)) i = [] -> empty_file (core (eng w')) i.
Proof.
  intros Hw Hn Ht Hl Hone. unfold Truncate, bind at 1 2, checkOpen in Hw. destruct (closed (eng w)) eqn:Hcl; [done|].
  rewrite (run_core_guard _ _ _ (fileNode_eq _ _)), Hn in Hw. destruct (is_dir n) eqn:Hd; [done|].
  eapply content_call_inv in Hw as (_ & _ & Ha); [|intros r0 [= <-]; apply log_apply_ret].
  unfold apply in Ha. simpl in Ha. rewrite applyTruncate_eq in Ha.
  apply content_update_spec in Ha as (n1 & old & new & Hn1 & _ & Hold & Hnew & Hs). simpl in *.
  rewrite truncate_bytes_ok in Hnew by (unfold maxInt; lia). simpl in Hnew. assert (n1 = n) as -> by congruence.
  assert (new = []) as -> by (injection Hnew as <-; pose proof (zlen_nonneg old); by replace (Z.to_nat (0 - zlen old)) with 0%nat by lia).
  rewrite Hs. match goal with |- empty_file (file_state _ _ (touch_size _ ?t _) _) _ =>
    destruct (updated_node (core (eng (numbered w))) i t old [] n) as (H1 & H2 & H3) end.
  eexists. split; [exact H1|]. split_and!; try done. etrans; [exact H3|]. apply warm_cold_empty; [done|]. by right.
Qed.

Lemma written_over_nothing d : written 0 d [] = d.
Proof.
  apply list_eq. intros k. rewrite written_spec by lia. unfold spec_write. case_decide as H; [f_equal; lia|].
  rewrite decide_False by (unfold zlen; simpl; lia). rewrite decide_False by lia. symmetry. apply lookup_ge_None_2. unfold zlen in H. lia.
Qed.

Lemma Write_fills env i d w x w' :
  S0fsEngine.Write env i 0 d w = (Ok x, w') -> empty_file (core (eng w)) i -> 0 < zlen d <= maxInt -> reads (core (eng w')) i d.
Proof.
  intros Hw (n & Hn & Ht & Hl & Hs0 & Hd0 & Hc0) Hd. unfold S0fsEngine.Write, bind at 1 2, checkOpen in Hw. destruct (closed (eng w)) eqn:Hcl; [done|].
  rewrite (run_core_guard _ _ _ (fileNode_eq _ _)), Hn in Hw. destruct (is_dir n) eqn:Hdir; [done|].
  eapply content_call_inv in Hw as (-> & _ & Ha); [|intros r0 [= <-]; reflexivity].
  unfold apply in Ha. simpl in Ha. rewrite applyWrite_eq in Ha.
  apply content_update_spec in Ha as (n1 & old & new & Hn1 & _ & Hold & Hnew & Hs). simpl in *.
  rewrite write_bytes_ok in Hnew by lia. injection Hnew as <-. assert (n1 = n) as -> by congruence.
  assert (old = []) as ->.
  { unfold file_content, is_hot in Hold. unfold data_of, cold_of in *. simpl in Hold. rewrite Hd0, Hc0 in Hold. by injection Hold as <-. }
  rewrite written_over_nothing in Hs. rewrite Hs.
  match goal with |- reads (file_state _ _ (touch_size _ ?t _) (warm _ _ ?sn)) _ _ =>
    destruct (updated_node sn i t [] d n) as (H1 & H2 & H3);
    assert (Hh : is_hot (file_state i d (touch_size d t n) (warm i [] sn)) i = true)
      by (unfold is_hot; rewrite H2; apply orb_true_iff; left; apply Z.ltb_lt; lia) end.
  eexists. split; [exact H1|]. split_and!; try done.
  rewrite read_hot; [|done|by rewrite H2|lia|lia|unfold maxInt in Hd; lia]. rewrite H2. f_equal. rewrite Z.add_0_l, Z.min_id.
  unfold subslice. rewrite drop_0, take_ge; [done|]. unfold zlen. lia.
Qed.

(** Giving a node to someone keeps what is in it. *)
Lemma SetOwner_keeps env i u g w j :
  empty_file (core (eng w)) j -> empty_file (core (eng (SetOwner env i u g w).2)) j.
Proof.
  intros He. destruct (SetOwner_runs env i u g w) as [[_ [q ->]]|(_ & r & q & Hr & _ & ->)]; [exact He|].
  unfold op_is in Hr. unfold apply. rewrite Hr. unfold applySetOwner, bind, get. simpl.
  destruct (Nodes (core (eng w)) !! r_Inode r) as [m|] eqn:Hm; [|exact He]. destruct He as (n & Hn & Ht & Hl & Hs & Hd & Hc).
  destruct (decide (j = r_Inode r)) as [->|Hj].
  - assert (m = n) as -> by congruence. eexists. simpl. rewrite lookup_insert_eq. split; [done|]. by split_and!.
  - exists n. simpl. rewrite lookup_insert_ne by done. by split_and!.
Qed.

End content.
