(* ===== verification/VolumeFilesSpec.v ===== *)
(** * Correctness of the HTTP file API over the server and the engine

    Paths are cleaned to proper components before any is looked up; what is written to a
    path is read back from it, through the server, the engine and whatever directories had
    to be made; and requests of one team do not reach the volumes of another.

    Two small program logics carry the proofs: [bt] for the bodies of the server's handlers
    on the engine's state, and [vt] for the handlers of the HTTP API on the volume that the
    request may use. *)

From stdpp Require Import base gmap strings list fin_maps numbers sorting.
From Stdlib Require Import Strings.Byte Strings.Ascii.
From S2P Require Import Prelude GoStd GoNet GoText S0fsTypes S0fsCore S0fsEngine S0fsInv S0fsSafety S0fsFiles Volume Notify Naming FsServer VolumeSpec FsServerSpec FsServerFiles FsServerLife VolumeTree VolumeFiles.

Local Open Scope Z_scope.

(** ** Bodies *)

Definition ident (vc vc' : VolumeContext) : Prop := vc_TeamID vc' = vc_TeamID vc /\ vc_Backend vc' = vc_Backend vc.

Section bodies.
Context `{CR : ColdReader}.
Implicit Types P : SnapshotState -> Prop.

(** [b] takes a state with [P] to one with [Q] and its result, or fails with [E]; it panics
    only where [N] allows it. *)
Definition bt {A} (N : Prop) P (b : Body A) (Q : A -> SnapshotState -> Prop) (E : srv_error -> SnapshotState -> Prop) : Prop :=
  forall ss w, vc_S0FS (ss_vol ss) = Some w -> closed (eng w) = false -> P (core (eng w)) ->
  match b ss with
  | (Panic, _) => N
  | (r, ss') => exists w', vc_S0FS (ss_vol ss') = Some w' /\ closed (eng w') = false /\ ident (ss_vol ss) (ss_vol ss') /\
      match r with Ok a => Q a (core (eng w')) | Err e => E e (core (eng w')) | Panic => True end
  end.

Lemma bt_bind {A D} N P (b : Body A) Q (k : A -> Body D) R E :
  bt N P b Q E -> (forall a, bt N (Q a) (k a) R E) -> bt N P (bind b k) R E.
Proof.
  intros Hb Hk ss w Hw Hc HP. unfold bind. specialize (Hb ss w Hw Hc HP). destruct (b ss) as [[a|e|] ss1]; [|done..].
  destruct Hb as (w1 & Hw1 & Hc1 & [Ht1 Hb1] & HQ). specialize (Hk a ss1 w1 Hw1 Hc1 HQ).
  destruct (k a ss1) as [[d|e|] ss2]; [|..|done];
    (destruct Hk as (w2 & ? & ? & [? ?] & ?); exists w2; split_and!; try done; split; congruence).
Qed.

Lemma bt_ret {A} N P (a : A) E : bt N P (ret a) (fun x s => x = a /\ P s) E.
Proof. intros ss w Hw Hc HP. by exists w. Qed.

Lemma bt_throw {A} N P e (Q : A -> SnapshotState -> Prop) (E : srv_error -> SnapshotState -> Prop) :
  (forall s, P s -> E e s) -> bt N P (throw e) Q E.
Proof. intros HE ss w Hw Hc HP. exists w. split_and!; auto. done. Qed.

Lemma bt_conseq {A} (N N' : Prop) P P' (b : Body A) Q Q' E E' :
  bt N P b Q E -> (N -> N') -> (forall s, P' s -> P s) -> (forall a s, Q a s -> Q' a s) -> (forall e s, E e s -> E' e s) -> bt N' P' b Q' E'.
Proof.
  intros Hb HN HP HQ HE ss w Hw Hc H. specialize (Hb ss w Hw Hc (HP _ H)). destruct (b ss) as [[a|e|] ss1]; [..|auto];
    destruct Hb as (w1 & ? & ? & ? & ?); exists w1; auto.
Qed.

Lemma bt_pre {A} N P P' (b : Body A) Q E : (forall s, P' s -> P s) -> bt N P b Q E -> bt N P' b Q E.
Proof. intros HP Hb. by eapply bt_conseq. Qed.

Lemma bt_post {A} N P (b : Body A) (Q Q' : A -> SnapshotState -> Prop) E : bt N P b Q E -> (forall a s, Q a s -> Q' a s) -> bt N P b Q' E.
Proof. intros Hb HQ. by eapply bt_conseq. Qed.

(** A fact of the precondition that is not about the state. *)
Lemma bt_given {A} (F : Prop) N P (b : Body A) Q E : (forall s, P s -> F) -> (F -> bt N P b Q E) -> bt N P b Q E.
Proof. intros HF Hb ss w Hw Hc HP. exact (Hb (HF _ HP) ss w Hw Hc HP). Qed.

(** What does not touch the engine. *)
Lemma bt_elsewhere {A} N P (b : Body A) E : elsewhere b -> bt N P b (fun _ => P) E.
Proof.
  intros H ss w Hw Hc HP. destruct (H ss) as (a & E1 & E2). destruct (b ss) as [r ss']. simpl in *. subst r.
  exists w. rewrite E2. by split_and!.
Qed.

Lemma bt_handles {A} N P (f : Handles -> A * Handles) E : bt N P (on_handles f) (fun _ => P) E.
Proof. intros ss w Hw Hc HP. unfold on_handles. destruct (f _) as [a h]. by exists w. Qed.

(** A call of the engine. *)
Definition et {A} (N : Prop) P (m : Eng A) (Q : A -> SnapshotState -> Prop) (E : error -> SnapshotState -> Prop) : Prop :=
  forall w, closed (eng w) = false -> P (core (eng w)) ->
  match m w with
  | (Panic, _) => N
  | (r, w') => closed (eng w') = false /\ match r with Ok a => Q a (core (eng w')) | Err e => E e (core (eng w')) | Panic => True end
  end.

Lemma bt_engine {A} N P wrap (m : Eng A) Q (E : error -> SnapshotState -> Prop) (E' : srv_error -> SnapshotState -> Prop) :
  et N P m Q E -> (forall e s, E e s -> E' (wrap e) s) -> bt N P (on_vol (on_engine wrap m)) Q E'.
Proof.
  intros Hm HE ss w Hw Hc HP. unfold on_vol, on_engine. rewrite Hw. specialize (Hm w Hc HP).
  destruct (m w) as [[a|e|] w']; simpl; [destruct Hm as [? ?]; exists w'; split_and!; auto; done..|done].
Qed.

(** ** The engine's calls as triples *)

Definition at_state (s0 s : SnapshotState) : Prop := s = s0.
Definition no_error {E : Type} (e : E) (s : SnapshotState) : Prop := False.
Definition any_error {E : Type} P (e : E) (s : SnapshotState) : Prop := P s.

Lemma et_lookup s0 p name : wf s0 ->
  et False (at_state s0) (S0fsEngine.Lookup p name)
    (fun o s => s = s0 /\ exists i n, dir_at s0 p /\ dir_of (Children s0) p !! name = Some i /\ Nodes s0 !! i = Some n /\ o = Some n)
    (any_error (at_state s0)).
Proof.
  intros W w Hc <-. unfold S0fsEngine.Lookup, bind. rewrite checkOpen_eq, Hc. rewrite (run_core_guard _ w _ (lookup_wf _ p name W)).
  destruct (Nodes (core (eng w)) !! p) as [d|] eqn:Hd; [|done]. destruct (is_dir d) eqn:Hdd; [|done].
  destruct (dir_of _ p !! name) as [i|] eqn:Hi; [|done]. destruct (wf_entry _ W _ _ _ Hi) as [_ [n Hn]]. simpl.
  split; [done|]. split; [done|]. exists i, n. split_and!; try done. by exists d.
Qed.

Lemma et_lookup_found s0 p name i n : wf s0 -> dir_at s0 p -> dir_of (Children s0) p !! name = Some i -> Nodes s0 !! i = Some n ->
  et False (at_state s0) (S0fsEngine.Lookup p name) (fun o s => s = s0 /\ o = Some n) no_error.
Proof.
  intros W (d & Hd & Hdd) Hi Hn w Hc <-. unfold S0fsEngine.Lookup, bind. rewrite checkOpen_eq, Hc.
  rewrite (run_core_guard _ w _ (lookup_wf _ p name W)), Hd, Hdd, Hi. done.
Qed.

Lemma et_getattr N s0 i : et N (at_state s0) (S0fsEngine.GetAttr i) (fun n s => s = s0 /\ Nodes s0 !! i = Some n) (fun _ s => s = s0 /\ Nodes s0 !! i = None).
Proof.
  intros w Hc <-. unfold S0fsEngine.GetAttr, bind. rewrite checkOpen_eq, Hc. unfold get.
  by destruct (Nodes (core (eng w)) !! i) as [n|] eqn:Hn.
Qed.

Lemma et_read s0 i o k n : Nodes s0 !! i = Some n -> is_dir n = false ->
  et (readFileLocked n i o k s0 = Panic) (at_state s0) (S0fsEngine.Read i o k) (fun d s => s = s0 /\ readFileLocked n i o k s0 = Ok d)
     (fun e s => s = s0 /\ readFileLocked n i o k s0 = Err e).
Proof.
  intros Hn Hd w Hc <-. rewrite (Read_eq _ _ _ _ n) by done. by destruct (readFileLocked _ _ _ _ _).
Qed.

Lemma et_same {A} N P (m : Eng A) : (forall w, closed (eng w) = false -> (m w).2 = w) -> (forall w, (m w).1 = Panic -> N) -> et N P m (fun _ => P) (any_error P).
Proof.
  intros Hm HN w Hc HP. specialize (Hm w Hc). specialize (HN w). destruct (m w) as [[a|e|] w']; simpl in *; subst; auto.
Qed.

(** The calls of one record that keep the tree. *)
Lemma et_grow {A} s0 (m : Eng A) R : (forall w, core (eng w) = s0 -> runs R w m w) -> (forall r, R r -> mild r) -> wf s0 ->
  et True (at_state s0) m (fun _ => grows 0 s0) (any_error (grows 0 s0)).
Proof.
  intros Hm HR W w Hc Hs. unfold at_state in Hs. pose proof (moved_grows R w (m w).2 ltac:(by rewrite Hs) HR (Hm w Hs)) as [Hc' Hg].
  rewrite Hs in Hg. destruct (m w) as [[a|e|] w']; simpl in *; [|..|done]; (split; [congruence|done]).
Qed.

Lemma et_create s0 env p name t m tgt : wf s0 -> NextInode s0 < 2 ^ 64 - 1 -> t <> TypeUnset ->
  et True (at_state s0) (create env p name t m tgt)
    (fun o s => exists n, o = Some n /\ grows 1 s0 s /\ made s p name t n) (any_error (grows 1 s0)).
Proof.
  intros W Hb Ht w Hc Hs. unfold at_state in Hs. subst s0. pose proof (create_effect env p name t m tgt w W Hb Ht) as H.
  destruct (create env p name t m tgt w) as [[o|e|] w'].
  - destruct H as (n & -> & [Hc' Hg] & Hm). split; [congruence|]. eauto.
  - destruct H as [Hc' Hg]. split; [congruence|]. apply (grows_weaken 0); [lia|done].
  - done.
Qed.

(** ** The server's handlers *)

Lemma bt_lookup s0 p name : wf s0 ->
  bt False (at_state s0) (Lookup_body p name)
    (fun r s => s = s0 /\ exists i n, dir_at s0 p /\ dir_of (Children s0) p !! name = Some i /\ Nodes s0 !! i = Some n /\
       r = s0fsNodeResponse (Some n) 0)
    (any_error (at_state s0)).
Proof.
  intros W. eapply bt_bind; [eapply bt_engine; [by apply et_lookup|done]|]. intros o ss w Hw Hc (Hs & i & n & H1 & H2 & H3 & ->).
  exists w. split_and!; try done. eauto 10.
Qed.

Lemma bt_lookup_found s0 p name i n : wf s0 -> dir_at s0 p -> dir_of (Children s0) p !! name = Some i -> Nodes s0 !! i = Some n ->
  bt False (at_state s0) (Lookup_body p name) (fun r s => s = s0 /\ r = s0fsNodeResponse (Some n) 0) no_error.
Proof.
  intros W Hp He Hn. eapply bt_bind; [eapply bt_engine; [by eapply et_lookup_found|done]|]. intros o ss w Hw Hc (Hs & ->).
  exists w. by split_and!.
Qed.

Lemma access_error node actor mask e : checkS0FSAccess node actor mask = Err e -> CodeOf (Some e) = PermissionDenied.
Proof. unfold checkS0FSAccess. intros H. repeat case_match; by simplify_eq/=. Qed.

Lemma access_no_panic node actor mask : checkS0FSAccess node actor mask <> Panic.
Proof. unfold checkS0FSAccess. by repeat case_match. Qed.

Definition denied (s0 : SnapshotState) (e : srv_error) (s : SnapshotState) : Prop := s = s0 /\ CodeOf (Some e) = PermissionDenied.

(** Opening a file to read it changes nothing and is refused for want of permission only. *)
Lemma bt_open_read s0 ctx v i n actor : Nodes s0 !! i = Some n -> is_dir n = false ->
  bt False (at_state s0) (openS0FS ctx v i 0 actor) (fun _ => at_state s0) (denied s0).
Proof.
  intros Hn Hd. unfold openS0FS. eapply bt_bind.
  { eapply bt_engine; [apply et_getattr|]. intros e s (-> & H). congruence. }
  intros m. eapply (bt_given (m = n)); [intros s (_ & H); congruence|intros ->].
  rewrite Hd. eapply bt_bind with (Q := fun _ => at_state s0).
  { intros ss w Hw Hc (Hs & _). unfold lift_res. pose proof (access_no_panic n actor (s0fsOpenAccessMask 0)).
    destruct (checkS0FSAccess n actor (s0fsOpenAccessMask 0)) as [[]|e|] eqn:He; [exists w; by split_and!| |done].
    exists w. split_and!; try done. split; [done|]. by eapply access_error. }
  intros _. eapply bt_bind with (Q := fun _ => at_state s0); [|intros _; apply bt_handles].
  change (has_bit 0 O_TRUNC) with false. cbv iota. intros ss w Hw Hc Hs. by exists w.
Qed.

(** Reading. *)
Lemma bt_read s0 i n size : Nodes s0 !! i = Some n -> is_dir n = false -> 0 <= size < 2 ^ 63 ->
  bt (readFileLocked n i 0 size s0 = Panic) (at_state s0) (Read_body i 0 size)
    (fun r s => s = s0 /\ readFileLocked n i 0 size s0 = Ok r.1) (fun _ s => s = s0 /\ exists e, readFileLocked n i 0 size s0 = Err e).
Proof.
  intros Hn Hd Hs. unfold Read_body. change (u64 0) with 0. rewrite u64_small by lia. eapply bt_bind.
  { eapply bt_engine; [by apply (et_read s0 i 0 size n)|]. intros e s (-> & H). eauto. }
  intros d ss w Hw Hc (Hst & Hr). exists w. by split_and!.
Qed.

(** Releasing a handle leaves every linked node as it is. *)
Lemma bt_release s0 ctx v h : wf s0 -> bt False (at_state s0) (Release_body ctx v h) (fun _ => stills s0) (any_error (stills s0)).
Proof.
  intros W. unfold Release_body. eapply bt_bind with (Q := fun _ => at_state s0).
  { apply bt_elsewhere, elsewhere_rest. }
  intros dirty. eapply bt_bind with (Q := fun _ => at_state s0).
  { destruct dirty as [d|]; [|apply bt_elsewhere; by eexists]. unfold keep_err, syncS0FSHandle. intros ss w Hw Hc Hs.
    unfold bind at 1, get. rewrite Hw. destruct (dw_inode d =? 0); [by exists w|].
    unfold s0fs, on_vol, on_engine. rewrite Hw. pose proof (Fsync_same (cx_env ctx 0%nat) w) as Hf.
    assert (Hp : (S0fsEngine.Fsync (cx_env ctx 0%nat) w).1 <> Panic).
    { unfold S0fsEngine.Fsync, bind. rewrite checkOpen_eq, Hc. unfold wal_sync. destruct (walHandle _); try done. by destruct (env_sync _). }
    destruct (S0fsEngine.Fsync _ w) as [[u|e|] w']; simpl in *; [| |done]; subst w'; exists w; by split_and!. }
  intros syncErr. eapply bt_bind; [apply bt_handles|]. intros [[[inode remaining] unlinked] ok].
  eapply bt_bind with (Q := fun _ => stills s0).
  { destruct (ok && (remaining =? 0) && unlinked).
    - intros ss w Hw Hc Hs. unfold at_state in Hs. unfold s0fs_ignore, s0fs, on_vol, on_engine. rewrite Hw. unfold Forget, bind. rewrite checkOpen_eq, Hc.
      eexists. split; [done|]. split_and!; try done. simpl. rewrite Hs. apply forget_stills; [done|by apply wf_forget].
    - intros ss w Hw Hc Hs. exists w. split_and!; try done. rewrite Hs. by apply stills_refl. }
  intros _. eapply bt_bind with (Q := fun _ => stills s0); [apply bt_elsewhere, elsewhere_rest|]. intros _.
  destruct syncErr; [by apply bt_throw|]. eapply bt_post; [apply bt_ret|]. by intros a s [_ ?].
Qed.

Lemma et_conj {A} N P (m : Eng A) Q1 Q2 E1 E2 : et N P m Q1 E1 -> et N P m Q2 E2 ->
  et N P m (fun a s => Q1 a s /\ Q2 a s) (fun e s => E1 e s /\ E2 e s).
Proof. intros H1 H2 w Hc HP. specialize (H1 w Hc HP). specialize (H2 w Hc HP). destruct (m w) as [[a|e|] w']; [destruct H1, H2; auto..|done]. Qed.

Lemma et_ok {A} P (m : Eng A) (Q : A -> SnapshotState -> Prop) :
  (forall w a w', closed (eng w) = false -> P (core (eng w)) -> m w = (Ok a, w') -> Q a (core (eng w'))) ->
  (forall w, (m w).1 = Panic \/ closed (eng (m w).2) = closed (eng w)) -> et True P m Q (fun _ _ => True).
Proof.
  intros Hm Hcl w Hc HP. specialize (Hm w). specialize (Hcl w). destruct (m w) as [[a|e|] w'] eqn:E; simpl in *; [| |done];
    (destruct Hcl as [|Hcl]; [done|]); (split; [congruence|]); eauto.
Qed.

Lemma runs_closed {A} R (m : Eng A) w : runs R w m w -> closed (eng (m w).2) = closed (eng w).
Proof. by intros [[H _]|[H _]]. Qed.

Definition whatever {E : Type} (e : E) (s : SnapshotState) : Prop := True.
Definition still_wf {E : Type} (e : E) (s : SnapshotState) : Prop := wf s.

(** Opening a file to rewrite it empties it. *)
Lemma bt_open_truncate s0 ctx v i n actor : wf s0 -> Nodes s0 !! i = Some n -> n_Type n = TypeFile -> n_Nlink n <> 0 ->
  data_of s0 i = [] \/ cold_of s0 i = [] ->
  bt True (at_state s0) (openS0FS ctx v i (Z.lor O_WRONLY O_TRUNC) actor) (fun _ s => grows 0 s0 s /\ empty_file s i) whatever.
Proof.
  intros W Hn Ht Hl H1. unfold openS0FS. eapply bt_bind; [eapply bt_engine; [apply (et_getattr _ s0)|done]|].
  intros m. eapply (bt_given (m = n)); [intros s (_ & H); congruence|intros ->].
  apply (bt_pre _ (at_state s0)); [by intros s [? _]|].
  unfold is_dir. rewrite Ht. change (bool_decide (TypeFile = TypeDirectory)) with false. cbv iota.
  eapply bt_bind with (Q := fun _ => at_state s0).
  { intros ss w Hw Hc Hs. unfold lift_res. by destruct (checkS0FSAccess _ _ _); [exists w..|]. }
  intros _. eapply bt_bind with (Q := fun _ s => grows 0 s0 s /\ empty_file s i); [|intros _; apply bt_handles].
  change (has_bit (Z.lor O_WRONLY O_TRUNC) O_TRUNC) with true. cbv iota.
  eapply bt_bind with (Q := fun _ s => grows 0 s0 s /\ empty_file s i).
  { eapply bt_engine; [apply et_conj|done].
    - eapply et_grow; [intros w _; apply Truncate_runs| |done]. intros r [Hr _]. right. by left.
    - apply et_ok; [|intros w; right; eapply runs_closed, Truncate_runs]. intros w [] w' Hc Hs Hw. unfold at_state in Hs. subst s0.
      by eapply Truncate_empties. }
  intros _. eapply bt_bind; [apply bt_elsewhere, elsewhere_rest|]. intros st. apply bt_elsewhere, elsewhere_rest.
Qed.

Lemma bt_write s0 ctx v i data h : wf s0 -> empty_file s0 i -> 0 < zlen data <= maxInt ->
  bt True (at_state s0) (Write_body ctx v i 0 data h) (fun _ s => grows 0 s0 s /\ reads s i data) still_wf.
Proof.
  intros W He Hd. unfold Write_body. change (u64 0) with 0. eapply bt_bind with (Q := fun _ s => grows 0 s0 s /\ reads s i data).
  { eapply bt_engine with (E := fun e s => grows 0 s0 s /\ True); [apply et_conj|by intros e s [Hg _]; apply Hg].
    - eapply et_grow; [intros w _; apply Write_runs| |done]. intros r [Hr _]. by left.
    - apply et_ok; [|intros w; right; eapply runs_closed, Write_runs]. intros w x w' Hc Hs Hw. unfold at_state in Hs. subst s0.
      by eapply Write_fills. }
  intros _. eapply bt_bind; [apply bt_elsewhere, elsewhere_rest|]. intros ?.
  eapply bt_bind; [apply bt_elsewhere, elsewhere_rest|]. intros st.
  eapply bt_bind; [apply bt_elsewhere, elsewhere_rest|]. intros ?.
  eapply bt_post; [apply bt_ret|]. by intros ? s [_ ?].
Qed.

(** A node is given to its owner: the tree stays, and so do empty files. *)
Definition chowned (s0 s : SnapshotState) : Prop := grows 0 s0 s /\ forall j, empty_file s0 j -> empty_file s j.

Lemma et_set_owner s0 env i u g : wf s0 -> et True (at_state s0) (S0fsEngine.SetOwner env i u g) (fun _ => chowned s0) (any_error (grows 0 s0)).
Proof.
  intros W w Hc Hs. assert (Hg : et True (at_state s0) (S0fsEngine.SetOwner env i u g) (fun _ => grows 0 s0) (any_error (grows 0 s0))).
  { eapply et_grow; [intros w' _; apply SetOwner_runs| |done]. intros r Hr. by right; right. }
  specialize (Hg w Hc Hs). pose proof (fun j => SetOwner_keeps env i u g w j) as Hk. unfold at_state in Hs. rewrite Hs in Hk.
  destruct (S0fsEngine.SetOwner env i u g w) as [[a|e|] w2]; [|done..]. destruct Hg as [? ?]. split; [done|]. split; [done|]. exact Hk.
Qed.

(** The claim of the root by the first who creates something in it. *)
Lemma bt_claim_root s0 env actor inode : wf s0 ->
  bt True (at_state s0) (ensureLazyRootPosixIdentity env actor inode) (fun _ => grows 0 s0) (any_error (grows 0 s0)).
Proof.
  intros W. assert (Hsame : forall A (a : A) E, bt True (at_state s0) (ret a : Body A) (fun _ => grows 0 s0) E).
  { intros A a E ss w Hw Hc Hs. exists w. split_and!; try done. rewrite Hs. by apply tree_grows_refl. }
  unfold ensureLazyRootPosixIdentity. eapply bt_bind; [apply bt_elsewhere, elsewhere_rest|]. intros st.
  destruct actor as [[uid [|gid gids]]|]; try apply Hsame. destruct (inode =? _); [|apply Hsame].
  intros ss w Hw Hc Hs. unfold on_vol, EnsureLazyRootPosixIdentity, bind at 1, get. rewrite Hw.
  assert (Hrefl : grows 0 s0 (core (eng w))) by (rewrite Hs; by apply tree_grows_refl).
  destruct ((uid =? 0) && (gid =? 0)); [by exists w|]. unfold bind, on_engine. rewrite Hw.
  pose proof (et_getattr False s0 (if vc_RootInode (ss_vol ss) =? 0 then 1 else vc_RootInode (ss_vol ss)) w Hc Hs) as Ha.
  destruct (S0fsEngine.GetAttr _ w) as [[n|e|] w1]; [| |done]; destruct Ha as (Hc1 & Hs1 & _).
  2: { exists w1. split_and!; try done. unfold any_error. rewrite Hs1. by apply tree_grows_refl. }
  destruct ((n_UID n =? uid) && (n_GID n =? gid)); [exists w1; split_and!; try done; rewrite Hs1; by apply tree_grows_refl|].
  destruct (negb (n_UID n =? 0) || negb (n_GID n =? 0)); [exists w1; split_and!; try done; rewrite Hs1; by apply tree_grows_refl|].
  simpl. pose proof (et_set_owner s0 env (if vc_RootInode (ss_vol ss) =? 0 then 1 else vc_RootInode (ss_vol ss)) uid gid W w1 Hc1 Hs1) as Ho.
  destruct (S0fsEngine.SetOwner _ _ _ _ w1) as [[u|e|] w2]; [| |done]; destruct Ho as [Hc2 Ho]; exists w2; split_and!; try done. apply Ho.
Qed.

Lemma bt_any {A} N P (b : Body A) Q E : (forall s, P s -> bt N (at_state s) b Q E) -> bt N P b Q E.
Proof. intros H ss w Hw Hc HP. exact (H _ HP ss w Hw Hc eq_refl). Qed.

Lemma bt_err {A} N P (b : Body A) Q (E E' : srv_error -> SnapshotState -> Prop) : bt N P b Q E -> (forall e s, E e s -> E' e s) -> bt N P b Q E'.
Proof. intros Hb HE. by eapply bt_conseq. Qed.

(** A node of type [t] in its place. *)
Definition placed (s : SnapshotState) (p : Z) (name : string) (t : FileType) (n : Node) : Prop :=
  dir_at s p /\ dir_of (Children s) p !! name = Some (n_Inode n) /\ Nodes s !! n_Inode n = Some n /\ n_Type n = t /\
  (t = TypeFile -> empty_file s (n_Inode n)).

Lemma made_placed s p name t n : made s p name t n -> placed s p name t n.
Proof. intros (H1 & H2 & H3 & H4 & H5 & H6 & H7 & H8). split_and!; try done. intros ->. exists n. split_and!; try done. by rewrite H5. Qed.

(** Giving the new node to its owner keeps it in its place. *)
Lemma chowned_placed s s' p name t n n' : wf s -> placed s p name t n -> n_Nlink n <> 0 -> chowned s s' -> Nodes s' !! n_Inode n = Some n' ->
  placed s' p name t n'.
Proof.
  intros W (H1 & H2 & H3 & H4 & H5) Hl [Hg Hk] Hn'. destruct (gr_node _ _ _ Hg _ _ H3 Hl) as (m & Hm & Ht & _).
  assert (m = n') as -> by congruence. destruct (wf_node _ (gr_wf _ _ _ Hg) _ _ Hn') as (Hi & _).
  split; [by apply (grows_dir 0 s)|]. rewrite Hi. split; [by apply (gr_entry _ _ _ Hg)|]. split; [done|]. split; [congruence|]. intros Hf. by apply Hk, H5.
Qed.

Lemma bt_create s0 ctx v p name actor t m tgt : wf s0 -> NextInode s0 < 2 ^ 64 - 1 -> t <> TypeUnset ->
  bt True (at_state s0) (create_body ctx v p name actor (fun env => create env p name t m tgt))
    (fun n s => grows 1 s0 s /\ placed s p name t n) (any_error (grows 1 s0)).
Proof.
  intros W Hb Ht. unfold create_body. eapply bt_bind.
  { eapply bt_err; [by apply bt_claim_root|]. intros e s Hg. by apply (grows_weaken 0). }
  intros ?. apply bt_any. intros s1 H1. pose proof (gr_wf _ _ _ H1) as W1. pose proof (gr_next _ _ _ H1) as X1.
  eapply bt_bind; [apply bt_elsewhere, elsewhere_rest|]. intros st. eapply bt_bind.
  { eapply bt_engine; [apply (et_create s1); [done|lia|done]|]. intros e s Hg. by apply (grows_trans 0 1 s0 s1). }
  intros o. apply bt_any. intros s2 (n & -> & H2 & Hm). pose proof (grows_trans 0 1 s0 s1 s2 H1 H2) as H02. pose proof (gr_wf _ _ _ H2) as W2.
  pose proof (made_placed _ _ _ _ _ Hm) as Hpl. assert (Hl : n_Nlink n <> 0) by (destruct Hm as (_ & _ & _ & _ & -> & _); done).
  eapply bt_bind with (Q := fun x s => grows 1 s0 s /\ placed s p name t x).
  - assert (Hret : bt True (at_state s2) (ret n) (fun x s => grows 1 s0 s /\ placed s p name t x) (any_error (grows 1 s0))).
    { eapply bt_post; [apply bt_ret|]. by intros ? s [-> ->]. }
    destruct actor as [[uid [|gid gids]]|]; [done| |done]. eapply bt_bind.
    { eapply bt_engine; [by apply (et_set_owner s2)|]. intros e s Hg. by apply (grows_trans 1 0 s0 s2). }
    intros ?. apply bt_any. intros s3 H3. pose proof (grows_trans 1 0 s0 s2 s3 H02 (proj1 H3)) as H03.
    eapply bt_post; [eapply bt_engine; [apply (et_getattr _ s3)|by intros e s [-> _]]|]. intros x s [-> Hx]. split; [done|].
    by eapply chowned_placed.
  - intros x. eapply bt_bind; [apply bt_elsewhere, elsewhere_rest|]. intros st'. eapply bt_bind; [apply bt_elsewhere, elsewhere_rest|]. intros ?.
    eapply bt_post; [apply bt_ret|]. by intros ? s [-> ?].
Qed.

Lemma bt_Create s0 ctx v p name mode actor : wf s0 -> NextInode s0 < 2 ^ 64 - 1 ->
  bt True (at_state s0) (Create_body ctx v p name mode actor)
    (fun r s => grows 1 s0 s /\ exists n, nr_Inode r = n_Inode n /\ placed s p name TypeFile n) whatever.
Proof.
  intros W Hb. eapply bt_bind; [eapply bt_err; [by apply bt_create|done]|]. intros n. eapply bt_bind; [apply bt_handles|]. intros h.
  eapply bt_post; [apply bt_ret|]. intros ? s [-> [Hg Hp]]. split; [done|]. by exists n.
Qed.

Lemma bt_Mkdir s0 ctx v p name mode actor : wf s0 -> NextInode s0 < 2 ^ 64 - 1 ->
  bt True (at_state s0) (Mkdir_body ctx v p name mode actor)
    (fun r s => grows 1 s0 s /\ exists n, r = s0fsNodeResponse (Some n) 0 /\ placed s p name TypeDirectory n) (any_error (grows 1 s0)).
Proof.
  intros W Hb. eapply bt_bind; [by apply bt_create|]. intros n. eapply bt_post; [apply bt_ret|]. intros ? s [-> [Hg Hp]]. split; [done|]. by exists n.
Qed.

End bodies.

(** ** The volume a request works on *)

Section http.
Context {B X : Type} `{UP : UnicodeUpper} `{UC : UnicodeCase} `{CR : ColdReader} `{BK : Backend B X} `{RG : MountRegistrar X}.
Context (cfg : Config) (q : FileRequest) (volumeID : string).
Implicit Types P : SnapshotState -> Prop.

Abbreviation VF := (ST vf_error (Server B X * nat)).

(** The volume is mounted, the request may use it, and its engine is in state [s0]. *)
Definition view (s : Server B X) (s0 : SnapshotState) : Prop :=
  exists vc w, authorize cfg (call_ctx q 0) volumeID (vols s) = Ok vc /\ IsS0FS vc = true /\ vc_S0FS vc = Some w /\
    closed (eng w) = false /\ core (eng w) = s0.

Definition vt {A} (N : Prop) P (m : VF A) (Q : A -> SnapshotState -> Prop) (E : vf_error -> SnapshotState -> Prop) : Prop :=
  forall st s0, view st.1 s0 -> P s0 ->
  match m st with
  | (Panic, _) => N
  | (Ok a, st') => exists s1, view st'.1 s1 /\ Q a s1
  | (Err e, st') => exists s1, view st'.1 s1 /\ E e s1
  end.

Lemma vt_bind {A D} N P (m : VF A) Q (k : A -> VF D) R E : vt N P m Q E -> (forall a, vt N (Q a) (k a) R E) -> vt N P (bind m k) R E.
Proof.
  intros Hm Hk st s0 Hv HP. unfold bind. specialize (Hm st s0 Hv HP). destruct (m st) as [[a|e|] st1]; [|done..].
  destruct Hm as (s1 & Hv1 & HQ). exact (Hk a st1 s1 Hv1 HQ).
Qed.

Lemma vt_ret {A} N P (a : A) E : vt N P (ret a) (fun x s => x = a /\ P s) E.
Proof. intros st s0 Hv HP. by exists s0. Qed.

Lemma vt_throw {A} N P e (Q : A -> SnapshotState -> Prop) (E : vf_error -> SnapshotState -> Prop) :
  (forall s, P s -> E e s) -> vt N P (throw e) Q E.
Proof. intros HE st s0 Hv HP. exists s0. split; [done|by apply HE]. Qed.

Lemma vt_conseq {A} (N N' : Prop) P P' (m : VF A) (Q Q' : A -> SnapshotState -> Prop) (E E' : vf_error -> SnapshotState -> Prop) :
  vt N P m Q E -> (N -> N') -> (forall s, P' s -> P s) -> (forall a s, Q a s -> Q' a s) -> (forall e s, E e s -> E' e s) -> vt N' P' m Q' E'.
Proof.
  intros Hm HN HP HQ HE st s0 Hv H. specialize (Hm st s0 Hv (HP _ H)). destruct (m st) as [[a|e|] st1]; [..|auto];
    destruct Hm as (s1 & ? & ?); exists s1; auto.
Qed.

Lemma vt_pre {A} N P P' (m : VF A) Q E : (forall s, P' s -> P s) -> vt N P m Q E -> vt N P' m Q E.
Proof. intros HP Hm. by eapply vt_conseq. Qed.

Lemma vt_post {A} N P (m : VF A) (Q Q' : A -> SnapshotState -> Prop) E : vt N P m Q E -> (forall a s, Q a s -> Q' a s) -> vt N P m Q' E.
Proof. intros Hm HQ. by eapply vt_conseq. Qed.

Lemma vt_any {A} N P (m : VF A) Q E : (forall s, P s -> vt N (at_state s) m Q E) -> vt N P m Q E.
Proof. intros H st s0 Hv HP. exact (H _ HP st s0 Hv eq_refl). Qed.

Lemma vt_given {A} (F : Prop) N P (m : VF A) Q E : (forall s, P s -> F) -> (F -> vt N P m Q E) -> vt N P m Q E.
Proof. intros HF Hm st s0 Hv HP. exact (Hm (HF _ HP) st s0 Hv HP). Qed.

Lemma vt_deferring {A C} N P (m : VF A) (cleanup : VF C) Q E Q' E' :
  vt N P m Q E -> (forall a, vt N (Q a) cleanup (fun _ => Q' a) (fun _ => Q' a)) -> (forall e, vt N (E e) cleanup (fun _ => E' e) (fun _ => E' e)) ->
  vt N P (deferring cleanup m) Q' E'.
Proof.
  intros Hm HQ HE st s0 Hv HP. unfold deferring. specialize (Hm st s0 Hv HP). destruct (m st) as [[a|e|] st1].
  - destruct Hm as (s1 & Hv1 & H1). specialize (HQ a st1 s1 Hv1 H1). by destruct (cleanup st1) as [[c|e|] st2].
  - destruct Hm as (s1 & Hv1 & H1). specialize (HE e st1 s1 Hv1 H1). by destruct (cleanup st1) as [[c|e'|] st2].
  - by destruct (cleanup st1) as [[c|e|] st2].
Qed.

Lemma authorize_ident ctx v t vc vc' : authorize cfg ctx v t = Ok vc -> ident vc vc' -> authorize cfg ctx v (<[v := vc']> t) = Ok vc'.
Proof.
  intros Ha [Ht _]. pose proof (authorize_some cfg _ _ _ _ Ha) as Hv. unfold authorize in *. rewrite lookup_insert_eq. rewrite Hv in Ha.
  destruct (cx_claims ctx) as [c|]; [|done]. destruct (IsSystemToken c); [done|]. case_decide; [done|].
  assert (Ho : owner_team cfg v vc' = owner_team cfg v vc) by (unfold owner_team; by rewrite Ht). rewrite Ho.
  destruct (owner_team cfg v vc) as [o|e|]; simpl in *; [|done..]. by repeat case_decide.
Qed.

(** A body run on the context in the table. *)
Lemma run_view {A} N P (b : Body A) Q E s vc w :
  bt N P b Q E -> authorize cfg (call_ctx q 0) volumeID (vols s) = Ok vc -> IsS0FS vc = true -> vc_S0FS vc = Some w ->
  closed (eng w) = false -> P (core (eng w)) ->
  match run_body volumeID vc b s with
  | (Panic, _) => N
  | (Ok a, s') => exists s1, view s' s1 /\ Q a s1
  | (Err e, s') => exists s1, view s' s1 /\ E e s1
  end.
Proof.
  intros Hb Ha Hi Hw Hc HP. unfold run_body. specialize (Hb (mkSess vc (sv_hub s) (sv_dirty s)) w Hw Hc HP).
  destruct (b (mkSess vc (sv_hub s) (sv_dirty s))) as [[a|e|] b']; [..|done]; destruct Hb as (w' & Hw' & Hc' & Hid & HQ);
    (exists (core (eng w')); split; [|done]; exists (ss_vol b'), w'; split_and!; try done);
    first [by eapply authorize_ident | unfold IsS0FS in *; rewrite (proj2 Hid), Hw'; simpl in *; by rewrite Hw in Hi].
Qed.

(** What a call of the server gives. *)
Definition answers {A} (Q : A -> SnapshotState -> Prop) (E : srv_error -> SnapshotState -> Prop) (r : srv_error + A) (s : SnapshotState) : Prop :=
  match r with inl e => E e s | inr a => Q a s end.

Lemma vt_reading {A} N P (b : Ctx -> Body A) Q E E' :
  (forall ctx, bt N P (b ctx) Q E) -> vt N P (try_rpc q (fun ctx => reading cfg ctx volumeID (b ctx))) (answers Q E) E'.
Proof.
  intros Hb [s k] s0 (vc & w & Ha & Hi & Hw & Hc & <-) HP. change (s, k).1 with s in Ha. unfold try_rpc, reading, bind at 1. simpl. rewrite authorize_eq.
  change (authorize cfg (call_ctx q k) volumeID (mg_volumes (sv_mgr s).1)) with (authorize cfg (call_ctx q 0) volumeID (vols s)). rewrite Ha.
  unfold on_s0fs, isS0FSVolume. rewrite Hi. pose proof (run_view N P _ Q E s vc w (Hb (call_ctx q k)) Ha Hi Hw Hc HP) as H.
  by destruct (run_body volumeID vc (b (call_ctx q k)) s) as [[a|e|] s'].
Qed.

(** A mutation may also be refused before it starts. *)
Lemma vt_mutating {A} N P (b : Ctx -> Body A) Q (E : srv_error -> SnapshotState -> Prop) E' :
  (forall ctx, bt N P (b ctx) Q E) -> (forall e s, P s -> E e s) ->
  vt N P (try_rpc q (fun ctx => mutating cfg ctx volumeID (b ctx))) (answers Q E) E'.
Proof.
  intros Hb HE st s0 Hv HP. pose proof (vt_reading N P b Q E E' Hb st s0 Hv HP) as Hr. destruct st as [s k].
  unfold try_rpc, reading, mutating, withAuthorizedVolumeMutation in *. simpl in Hr.
  assert (Hrun : match (do* requireLocalPrimary volumeID in
        let* volCtx := getAuthorizedMountedVolume cfg (call_ctx q k) volumeID in on_s0fs volumeID volCtx (b (call_ctx q k))) s with
    | (Panic, _) => N | (Ok a, s') => exists s1, view s' s1 /\ Q a s1 | (Err e, s') => exists s1, view s' s1 /\ E e s1 end).
  { unfold bind at 1, requireLocalPrimary, bind at 1, get. destruct (rt_LocalPrimary _); [|exists s0; split; [exact Hv|by apply HE]].
    unfold ret at 1. by destruct (bind _ _ s) as [[a|e|] s']. }
  destruct (cf_barrier cfg) as [bar|]; [destruct (bar volumeID)|];
    [exists s0; split; [exact Hv|by apply HE]|..]; revert Hrun; clear; destruct (bind _ _ s) as [[a|e|] s2]; done.
Qed.

(** A call whose error is translated. *)
Lemma vt_rpc {A} N P (f : Ctx -> ST srv_error (Server B X) A) Q (E : srv_error -> SnapshotState -> Prop) (E' : vf_error -> SnapshotState -> Prop) :
  vt N P (try_rpc q f) (answers Q E) E' -> (forall e s, E e s -> E' (translateVolumeRPCError e) s) -> vt N P (rpc q f) Q E'.
Proof.
  intros Hf HE. unfold rpc. eapply vt_bind; [exact Hf|]. intros [e|a].
  - apply vt_throw. apply HE.
  - eapply vt_post; [apply vt_ret|]. by intros ? s [-> ?].
Qed.

(** Opening with truncation is a mutation. *)
Lemma vt_open_truncate N P i actor Q (E : srv_error -> SnapshotState -> Prop) E' :
  (forall ctx, bt N P (openS0FS ctx volumeID i (Z.lor O_WRONLY O_TRUNC) actor) Q E) -> (forall e s, P s -> E e s) ->
  vt N P (try_rpc q (fun ctx => FsServer.Open cfg ctx volumeID i (Z.lor O_WRONLY O_TRUNC) actor)) (answers Q E) E'.
Proof.
  intros Hb HE [s k] s0 Hv HP. pose proof (vt_mutating N P (fun ctx => openS0FS ctx volumeID i (Z.lor O_WRONLY O_TRUNC) actor) Q E E' Hb HE (s, k) s0 Hv HP) as Hm.
  destruct Hv as (vc & w & Ha & Hi & Hw & Hc & <-). change (s, k).1 with s in Ha.
  unfold try_rpc in *. unfold FsServer.Open, bind at 1. rewrite authorize_eq.
  change (authorize cfg (call_ctx q k) volumeID (mg_volumes (sv_mgr s).1)) with (authorize cfg (call_ctx q 0) volumeID (vols s)). rewrite Ha.
  unfold isS0FSVolume. rewrite Hi. change (has_bit (Z.lor O_WRONLY O_TRUNC) O_TRUNC) with true. cbv iota.
  unfold mutating in Hm.
  assert (Heq : withAuthorizedVolumeMutation cfg (call_ctx q k) volumeID
      (fun volCtx => run_body volumeID volCtx (openS0FS (call_ctx q k) volumeID i (Z.lor O_WRONLY O_TRUNC) actor)) s =
    withAuthorizedVolumeMutation cfg (call_ctx q k) volumeID
      (fun volCtx => on_s0fs volumeID volCtx (openS0FS (call_ctx q k) volumeID i (Z.lor O_WRONLY O_TRUNC) actor)) s).
  { unfold withAuthorizedVolumeMutation. destruct (cf_barrier cfg) as [bar|]; [destruct (bar volumeID); [done|]|];
      unfold bind, requireLocalPrimary, bind, get; (destruct (rt_LocalPrimary _); [|done]); unfold ret; rewrite authorize_eq;
      change (authorize cfg (call_ctx q k) volumeID (mg_volumes (sv_mgr s).1)) with (authorize cfg (call_ctx q 0) volumeID (vols s)); rewrite Ha;
      unfold on_s0fs, isS0FSVolume; by rewrite Hi. }
  by rewrite Heq.
Qed.

End http.

(** ** Paths *)

(** The components a path is cleaned to. *)
Definition parts_of (raw : string) : list string := clean_parts (Split (TrimSpace raw) "/").

Lemma part_ends p : p <> "" -> ~ str_In "/" p -> TrimLeft p "/" = p /\ TrimLeft (String.rev p) "/" = String.rev p.
Proof.
  assert (H : forall p, ~ str_In "/" p -> TrimLeft p "/" = p).
  { intros [|a p']; [done|]. simpl. intros Hn. rewrite decide_False; [done|]. tauto. }
  intros _ Hn. split; apply H; [done|]. intros Hr. apply Hn. revert Hr. clear.
  assert (Hrev : forall s t, str_In "/" (String.rev_app s t) -> str_In "/" s \/ str_In "/" t).
  { induction s as [|a s IH]; simpl; [tauto|]. intros t Ht. destruct (IH _ Ht) as [|Ht']; simpl in *; tauto. }
  intros Hr. by destruct (Hrev p "" Hr).
Qed.

Lemma TrimLeft_app p t : p <> "" -> TrimLeft p "/" = p -> TrimLeft (p +:+ t) "/" = p +:+ t.
Proof.
  destruct p as [|a p]; [done|]. intros _ H. change (TrimLeft (String a (p +:+ t)) "/" = String a (p +:+ t)). simpl in *. case_decide as Ha; [|done].
  exfalso. subst a. assert (Hl : forall s, (String.length (TrimLeft s "/") <= String.length s)%nat).
  { induction s as [|b s IH]; simpl; [lia|]. case_decide; simpl; lia. }
  specialize (Hl p). rewrite H in Hl. simpl in Hl. lia.
Qed.

Lemma rev_nonempty p : p <> "" -> String.rev p <> "".
Proof. intros Hp Hr. apply Hp. by rewrite <- (GoStd.rev_involutive p), Hr. Qed.

(** Joined components start and end without a slash. *)
Lemma Join_ends parts : parts <> [] -> Forall proper_part parts ->
  Join parts "/" <> "" /\ TrimLeft (Join parts "/") "/" = Join parts "/" /\ TrimLeft (String.rev (Join parts "/")) "/" = String.rev (Join parts "/").
Proof.
  intros Hne Hf. destruct parts as [|p parts]; [done|]. clear Hne. revert p Hf.
  induction parts as [|p' parts IH]; intros p Hf; apply Forall_cons in Hf as [(Hp & _ & _ & Hs) Hf]; destruct (part_ends p Hp Hs) as [H1 H2].
  - done.
  - destruct (IH p' Hf) as (Hn & H3 & H4). rewrite Join_cons. set (J := Join (p' :: parts) "/") in *. split; [by destruct p|].
    split; [by apply TrimLeft_app|]. rewrite !rev_app_string. rewrite <- str_app_assoc. apply TrimLeft_app; [by apply rev_nonempty|done].
Qed.

Lemma clean_root raw : Clean_rooted (TrimSpace raw) = "/" <-> parts_of raw = [].
Proof.
  unfold Clean_rooted. fold (parts_of raw). split; [|by intros ->]. intros [= Hj]. destruct (parts_of raw) as [|p ps] eqn:E; [done|].
  destruct (Join_ends (p :: ps)) as [Hn _]; [done| |done]. rewrite <- E. apply clean_parts_proper.
Qed.

Lemma path_parts_clean raw : parts_of raw <> [] -> path_parts (Clean_rooted (TrimSpace raw)) = parts_of raw.
Proof.
  intros Hne. unfold path_parts, Clean_rooted. fold (parts_of raw). destruct (Join_ends (parts_of raw) Hne (clean_parts_proper _)) as (_ & H1 & H2).
  unfold Trim, TrimRight. change (TrimLeft (String "/" (Join (parts_of raw) "/")) "/") with (TrimLeft (Join (parts_of raw) "/") "/").
  rewrite H1, H2, GoStd.rev_involutive. apply Split_Join; [done|]. eapply Forall_impl; [apply clean_parts_proper|]. by intros x (_ & _ & _ & Hx).
Qed.

Lemma type_bits mode f : Z.land 4095 f = 0 -> Z.land (Z.lor (Z.land mode 4095) f) S_IFMT = Z.land f S_IFMT.
Proof.
  intros Hf. rewrite Z.land_lor_distr_l, <- Z.land_assoc. change (Z.land 4095 S_IFMT) with 0. by rewrite Z.land_0_r.
Qed.

Lemma attr_is_dir n : attrModeIsDir (at_Mode (s0fsAttr (Some n))) = is_dir n.
Proof. unfold attrModeIsDir, is_dir, s0fsAttr. simpl. by destruct (n_Type n); rewrite type_bits. Qed.

Section handlers.
Context {B X : Type} `{UP : UnicodeUpper} `{UC : UnicodeCase} `{CR : ColdReader} `{BK : Backend B X} `{RG : MountRegistrar X}.
Context (cfg : Config) (q : FileRequest) (volumeID : string).

Abbreviation Vt := (vt (B:=B) (X:=X) cfg q volumeID).

(** ** Looking up *)

Definition found (s0 : SnapshotState) (cur : Z) (parts : list string) (r : volumeResolvedPath) : Prop :=
  exists n, walks s0 cur parts (rp_Inode r) /\ Nodes s0 !! rp_Inode r = Some n /\ n_Nlink n <> 0 /\ rp_Attr r = Some (s0fsAttr (Some n)).

Lemma vt_lookup s0 p name E' : wf s0 ->
  Vt True (at_state s0) (try_rpc q (fun ctx => FsServer.Lookup cfg ctx volumeID p name))
    (answers (fun r s => s = s0 /\ exists i n, dir_at s0 p /\ dir_of (Children s0) p !! name = Some i /\ Nodes s0 !! i = Some n /\
       r = s0fsNodeResponse (Some n) 0) (any_error (at_state s0))) E'.
Proof. intros W. apply (vt_reading cfg q volumeID _ _ (fun _ => Lookup_body p name)). intros _. eapply bt_conseq; [by apply bt_lookup|done..]. Qed.

Lemma vt_lookup_parts s0 cleaned cur parts : wf s0 ->
  Vt True (at_state s0) (lookup_parts cfg q volumeID cleaned cur parts)
    (fun r s => s = s0 /\ (rp_Exists r = true -> found s0 cur parts r)) whatever.
Proof.
  intros W. revert cur. induction parts as [|part rest IH]; intros cur; [by apply vt_throw|]. cbn [lookup_parts].
  eapply vt_bind; [by apply vt_lookup|]. intros [e|r]; cbn [answers].
  - case_bool_decide; [|by apply vt_throw]. eapply vt_post; [apply vt_ret|]. by intros r s [-> ->].
  - apply vt_any. intros s (-> & i & n & Hp & He & Hn & ->). destruct (entry_linked _ _ _ _ W He) as (n' & Hn' & Hl & Hi).
    assert (n' = n) as -> by congruence. cbn [s0fsNodeResponse nr_Inode nr_Attr]. rewrite Hi.
    destruct rest as [|p' rest'].
    + eapply vt_post; [apply vt_ret|]. intros r s [-> ->]. split; [done|]. intros _. exists n. split_and!; try done. econstructor; [done..|constructor].
    + cbn [not_a_dir]. rewrite attr_is_dir. destruct (is_dir n); cbn [negb]; [|by apply vt_throw].
      eapply vt_post; [apply IH|]. intros r s [-> Hr]. split; [done|]. intros Hx. destruct (Hr Hx) as (m & Hw & Hm). exists m. split; [by econstructor|done].
Qed.

Lemma clean_path raw : cleanVolumePath raw false =
  if decide (parts_of raw = []) then Err errInvalidPath else Ok (Clean_rooted (TrimSpace raw)).
Proof.
  unfold cleanVolumePath. destruct (decide (parts_of raw = [])) as [Hp|Hp].
  - rewrite bool_decide_eq_true_2; [done|]. by apply clean_root.
  - rewrite bool_decide_eq_false_2; [done|]. by rewrite clean_root.
Qed.

Lemma vt_lookup_path s0 raw : wf s0 ->
  Vt True (at_state s0) (lookupVolumePath cfg q volumeID raw false)
    (fun r s => s = s0 /\ parts_of raw <> [] /\ (rp_Exists r = true -> found s0 1 (parts_of raw) r)) whatever.
Proof.
  intros W. unfold lookupVolumePath. rewrite clean_path. destruct (decide (parts_of raw = [])) as [Hp|Hp].
  - intros st s Hv Hs. by exists s.
  - intros st s Hv Hs. unfold bind, lift_res. rewrite bool_decide_eq_false_2 by (by rewrite clean_root). rewrite path_parts_clean by done.
    pose proof (vt_lookup_parts s0 (Clean_rooted (TrimSpace raw)) 1 (parts_of raw) W st s Hv Hs) as H.
    destruct (lookup_parts _ _ _ _ _ _ st) as [[r|e|] st']; [|done..]. destruct H as (s1 & Hv1 & -> & Hr). by exists s0.
Qed.

(** ** Making the directories above a path *)

(** [left] inodes can still be taken. *)
Definition reached (s : SnapshotState) (ps : list string) (cur : Z) (left : nat) : Prop :=
  wf s /\ walks s 1 ps cur /\ dir_at s cur /\ NextInode s + Z.of_nat left < 2 ^ 64 - 1.

Lemma reached_grows k s s' ps cur left : grows (Z.of_nat k) s s' -> reached s ps cur (k + left) -> reached s' ps cur left.
Proof.
  intros Hg (W & Hw & Hd & Hn). pose proof (gr_next _ _ _ Hg). split; [apply Hg|]. split; [by eapply grows_walks|].
  split; [by eapply grows_dir|lia].
Qed.

(** A directory node that is there, or was made. *)
Lemma vt_ensure_part ps cur part left :
  Vt True (fun s => reached s ps cur (S left)) (ensure_part cfg q volumeID true cur part)
    (fun r s => exists n, nr_Attr r = Some (s0fsAttr (Some n)) /\ Nodes s !! nr_Inode r = Some n /\
       reached s ps cur left /\ walks s 1 (ps ++ [part]) (nr_Inode r)) whatever.
Proof.
  apply vt_any. intros s0 (W & Hw & Hd & Hn). unfold ensure_part.
  assert (Hthere : forall s i n, reached s ps cur left -> dir_of (Children s) cur !! part = Some i -> Nodes s !! i = Some n ->
    exists m, nr_Attr (s0fsNodeResponse (Some n) 0) = Some (s0fsAttr (Some m)) /\ Nodes s !! nr_Inode (s0fsNodeResponse (Some n) 0) = Some m /\
      reached s ps cur left /\ walks s 1 (ps ++ [part]) (nr_Inode (s0fsNodeResponse (Some n) 0))).
  { intros s i n Hr He Hn'. destruct (wf_node _ (proj1 Hr) _ _ Hn') as (Hi & _). exists n. cbn [s0fsNodeResponse nr_Inode nr_Attr]. rewrite Hi.
    split_and!; try done. destruct Hr as (_ & Hw' & Hd' & _). by eapply walks_snoc. }
  eapply vt_bind; [by apply vt_lookup|]. intros [e|r]; cbn [answers].
  2: { eapply vt_post; [apply vt_ret|]. intros ? s [-> (-> & i & n & _ & He & Hn' & ->)]. apply (Hthere s0 i n); [split_and!; try done; lia|done..]. }
  destruct (negb _); [by apply vt_throw|]. cbn [negb]. eapply vt_bind.
  { apply (vt_mutating cfg q volumeID _ _ (fun ctx => Mkdir_body ctx volumeID cur part 493 (rq_actor q))).
    - intros ctx. apply (bt_Mkdir s0); [done|lia].
    - intros e' s ->. apply (grows_weaken 0); [lia|]. by apply tree_grows_refl. }
  intros [e'|r]; cbn [answers].
  - case_bool_decide; [|by apply vt_throw]. apply vt_any. intros s1 Hg.
    assert (H1 : reached s1 ps cur left) by (apply (reached_grows 1 s0); [exact Hg|split_and!; try done; lia]).
    eapply vt_rpc with (E := whatever); [|done]. eapply vt_post; [apply (vt_lookup s1); apply H1|].
    intros [e2|r] s; [done|]. intros (-> & i & n & _ & He & Hn' & ->). by apply (Hthere s1 i n).
  - eapply vt_post; [apply vt_ret|]. intros ? s [-> (Hg & n & -> & Hpl)]. destruct Hpl as (_ & He & Hnd & _).
    apply (Hthere s (n_Inode n) n); [|done..]. apply (reached_grows 1 s0); [exact Hg|split_and!; try done; lia].
Qed.

Lemma vt_ensure_parts ps cur parts left :
  Vt True (fun s => reached s ps cur (length parts + left)) (ensure_parts cfg q volumeID true cur parts)
    (fun cur' s => reached s (ps ++ parts) cur' left) whatever.
Proof.
  revert ps cur. induction parts as [|part rest IH]; intros ps cur; cbn [ensure_parts length].
  - eapply vt_post; [apply vt_ret|]. intros ? s [-> Hr]. by rewrite app_nil_r.
  - eapply vt_bind; [apply (vt_ensure_part ps cur part (length rest + left))|]. intros r. apply vt_any.
    intros s (n & Ha & Hn & Hr & Hw). rewrite Ha. cbn [not_a_dir]. rewrite attr_is_dir. destruct (is_dir n) eqn:Hd; cbn [negb]; [|by apply vt_throw].
    replace (ps ++ part :: rest) with ((ps ++ [part]) ++ rest) by (by rewrite <- app_assoc).
    eapply vt_pre; [|apply IH]. intros s' ->. destruct Hr as (W & _ & _ & Hx). split_and!; try done. by exists n.
Qed.

(** ** Reading and writing an inode *)

Lemma vt_release s0 h : wf s0 -> Vt False (at_state s0) (release_file cfg q volumeID h) (fun _ => stills s0) (fun _ => stills s0).
Proof.
  intros W. unfold release_file. eapply vt_rpc with (E := any_error (stills s0)); [|done].
  apply (vt_reading cfg q volumeID _ _ (fun ctx => Release_body ctx volumeID h)). intros ctx. by apply bt_release.
Qed.

Lemma vt_weaken {A} (N : Prop) P (m : ST vf_error (Server B X * nat) A) Q E : Vt False P m Q E -> Vt N P m Q E.
Proof. intros H. by eapply vt_conseq. Qed.

(** Reading [size] bytes from the start, as the engine would, unless it is not permitted. *)
Lemma vt_read_all s0 i n attr size : wf s0 -> Nodes s0 !! i = Some n -> is_dir n = false -> at_Size attr = size -> 0 <= size < 2 ^ 63 ->
  Vt (readFileLocked n i 0 size s0 = Panic) (at_state s0) (read_all cfg q volumeID i attr)
    (fun d s => stills s0 s /\ readFileLocked n i 0 size s0 = Ok d)
    (fun e s => stills s0 s /\ (e = errPermissionDenied \/ exists e', readFileLocked n i 0 size s0 = Err e')).
Proof.
  intros W Hn Hd Hs Hb. unfold read_all, openVolumeFile. eapply vt_bind with (Q := fun _ => at_state s0).
  { eapply vt_rpc with (E := denied s0).
    - apply (vt_reading cfg q volumeID _ _ (fun ctx => openS0FS ctx volumeID i 0 (rq_actor q))). intros ctx.
      eapply bt_conseq; [by eapply bt_open_read|done..].
    - intros e s [-> He]. split; [by apply stills_refl|]. left. unfold translateVolumeRPCError. by rewrite He. }
  intros h. eapply vt_deferring with (Q := fun d s => s = s0 /\ readFileLocked n i 0 size s0 = Ok d)
    (E := fun e s => s = s0 /\ exists e', readFileLocked n i 0 size s0 = Err e').
  - unfold int64_of. rewrite Hs, (proj2 (Z.ltb_lt _ _)) by lia. eapply vt_bind.
    + eapply vt_rpc with (E := fun _ s => s = s0 /\ exists e', readFileLocked n i 0 size s0 = Err e'); [|done].
      apply (vt_reading cfg q volumeID _ _ (fun _ => Read_body i 0 size)). intros _. by apply bt_read.
    + intros [d eof]. eapply vt_post; [apply vt_ret|]. by intros ? s [-> ?].
  - intros d. apply vt_any. intros s [-> Hr]. eapply vt_conseq; [by apply (vt_release s0 h)|done|done|by auto..].
  - intros e. apply vt_any. intros s [-> Hr]. eapply vt_conseq; [by apply (vt_release s0 h)|done|done|by auto..].
Qed.

Lemma file_size n : n_Type n = TypeFile -> at_Size (s0fsAttr (Some n)) = n_Size n.
Proof. intros Ht. unfold s0fsAttr. simpl. by rewrite Ht. Qed.

Lemma vt_matches s0 r n data : wf s0 -> rp_Attr r = Some (s0fsAttr (Some n)) -> Nodes s0 !! rp_Inode r = Some n -> n_Type n = TypeFile ->
  n_Nlink n <> 0 -> zlen data < 2 ^ 63 ->
  Vt True (at_state s0) (volumeFileContentMatches cfg q volumeID r data)
    (fun same s => stills s0 s /\ (same = true -> reads s0 (rp_Inode r) data)) whatever.
Proof.
  intros W Ha Hn Ht Hl Hb. unfold volumeFileContentMatches. rewrite Ha, attr_is_dir, file_size by done.
  assert (Hd : is_dir n = false) by (unfold is_dir; by rewrite Ht).
  destruct (_ || _ || _) eqn:Hor.
  - eapply vt_post; [apply vt_ret|]. intros ? s [-> ->]. split; [by apply stills_refl|done].
  - rewrite !orb_false_iff, !negb_false_iff in Hor. destruct Hor as [_ Hsz%Z.eqb_eq]. pose proof (zlen_nonneg data).
    eapply vt_bind.
    + eapply vt_conseq; [apply (vt_read_all s0 (rp_Inode r) n _ (zlen data)); [done|done|done|by rewrite file_size|lia]|done..].
    + intros d. eapply vt_post; [apply vt_ret|]. intros ? s [-> [Hst Hr]]. split; [done|]. intros Hdd%bool_decide_eq_true. subst d.
      exists n. by split_and!.
Qed.

(** The data goes into an empty file. *)
Lemma vt_write_data s0 i h data : wf s0 -> empty_file s0 i -> zlen data <= maxInt ->
  Vt True (at_state s0) (write_data cfg q volumeID i h data) (fun _ s => grows 0 s0 s /\ reads s i data) still_wf.
Proof.
  intros W He Hb. unfold write_data. set (work := if zlen data =? 0 then _ else _).
  assert (Hw : Vt True (at_state s0) work (fun _ s => grows 0 s0 s /\ reads s i data) still_wf).
  { unfold work. destruct (Z.eqb_spec (zlen data) 0) as [H0|H0].
    - eapply vt_post; [apply vt_ret|]. intros ? s [_ ->]. split; [by apply tree_grows_refl|].
      apply zlen_nil_iff in H0. subst data. by apply empty_reads.
    - pose proof (zlen_nonneg data). eapply vt_bind.
      + eapply vt_rpc with (E := still_wf); [|done].
        apply (vt_mutating cfg q volumeID _ _ (fun ctx => Write_body ctx volumeID i 0 data h)); [|by intros e s ->]. intros ctx. apply bt_write; [done..|lia].
      + intros x. eapply vt_post; [apply vt_ret|]. by intros ? s [_ ?]. }
  clearbody work. destruct (h =? 0); [done|]. eapply vt_deferring; [exact Hw| |].
  - intros a. apply vt_any. intros s [Hg Hr]. apply vt_weaken.
    assert (Hk : forall s', stills s s' -> grows 0 s0 s' /\ reads s' i data).
    { intros s' Hs. split; [by apply (grows_trans 0 0 s0 s); [|apply stills_grows]|by eapply stills_reads]. }
    eapply vt_conseq; [apply (vt_release s h), Hg|done|done|by auto..].
  - intros e. apply vt_any. intros s Hs. apply vt_weaken. eapply vt_conseq; [by apply (vt_release s h)|done|done|..]; intros ? s' Hst; apply Hst.
Qed.

(** ** Writing a path *)

(** What a path that is written may lead to: a directory, which is refused, or a regular file. *)
Definition no_link (s : SnapshotState) (parts : list string) : Prop :=
  forall i n, walks s 1 parts i -> Nodes s !! i = Some n -> is_dir n = false -> n_Type n = TypeFile.

Definition stored (s : SnapshotState) (parts : list string) (data : list byte) : Prop :=
  wf s /\ exists i, walks s 1 parts i /\ reads s i data.

(** The file is there: it is left alone when it has the content, else emptied and written. *)
Lemma vt_overwrite s0 r n parts data : wf s0 -> one_payload s0 -> walks s0 1 parts (rp_Inode r) -> Nodes s0 !! rp_Inode r = Some n ->
  n_Type n = TypeFile -> n_Nlink n <> 0 -> rp_Attr r = Some (s0fsAttr (Some n)) -> zlen data <= maxInt ->
  Vt True (at_state s0)
    (let* same := volumeFileContentMatches cfg q volumeID r data in
     if (same : bool) then ret false else
     let* h := rpc q (fun ctx => FsServer.Open cfg ctx volumeID (rp_Inode r) (Z.lor O_WRONLY O_TRUNC) (rq_actor q)) in
     write_data cfg q volumeID (rp_Inode r) h data) (fun _ s => stored s parts data) whatever.
Proof.
  intros W H1 Hw Hn Ht Hl Ha Hb. eapply vt_bind; [apply (vt_matches s0 r n); try done; unfold maxInt in Hb; lia|].
  intros same. apply vt_any. intros s [Hst Hsame]. pose proof (st_wf _ _ Hst) as Ws.
  pose proof (grows_walks _ _ _ _ _ _ W (stills_grows _ _ Hst) Hw) as Hws. destruct same.
  - eapply vt_post; [apply vt_ret|]. intros ? s' [_ ->]. split; [done|]. exists (rp_Inode r). split; [done|]. by eapply stills_reads; [|apply Hsame].
  - destruct (st_node _ _ Hst _ _ Hn Hl) as (Hns & _). eapply vt_bind.
    + eapply vt_rpc with (E := whatever); [|done]. apply vt_open_truncate; [|done]. intros ctx.
      apply (bt_open_truncate s ctx volumeID _ n); try done. by eapply stills_one_payload.
    + intros h. apply vt_any. intros s2 [Hg He]. eapply vt_conseq; [apply (vt_write_data s2 (rp_Inode r) h data); [apply Hg|done..]|done|done| |done].
      intros ? s3 [Hg3 Hr]. split; [apply Hg3|]. exists (rp_Inode r). split; [|done].
      eapply (grows_walks 0); [apply Hg|done|]. by eapply (grows_walks 0 s).
Qed.

(** The file is not there: the directories and the file are made. *)
Lemma vt_write_new s0 raw data : wf s0 -> parts_of raw <> [] -> NextInode s0 + Z.of_nat (length (parts_of raw)) < 2 ^ 64 - 1 -> zlen data <= maxInt ->
  Vt True (at_state s0)
    (let* '(parent, base) := ensureVolumeParent cfg q volumeID raw true in
     let* node := rpc q (fun ctx => FsServer.Create cfg ctx volumeID parent base 420 (rq_actor q)) in
     write_data cfg q volumeID (nr_Inode node) (nr_HandleId node) data) (fun _ s => stored s (parts_of raw) data) whatever.
Proof.
  intros W Hne Hx Hb. set (dirs := removelast (parts_of raw)). set (base := List.last (parts_of raw) "").
  assert (Hsplit : parts_of raw = dirs ++ [base]) by (by apply app_removelast_last).
  assert (Hlen : length (parts_of raw) = (length dirs + 1)%nat) by (by rewrite Hsplit, length_app).
  eapply vt_bind with (Q := fun pb s => pb.2 = base /\ reached s dirs pb.1 1).
  { unfold ensureVolumeParent. rewrite clean_path, decide_False by done. intros st s Hv Hs. unfold bind at 1, lift_res.
    rewrite path_parts_clean by done. fold dirs base. revert st s Hv Hs.
    change (Vt True (at_state s0) (let* current := ensure_parts cfg q volumeID true 1 dirs in ret (current, base)) (fun pb s => pb.2 = base /\ reached s dirs pb.1 1) whatever).
    eapply vt_bind.
    - eapply vt_pre; [|apply (vt_ensure_parts [] 1 dirs 1)]. intros s ->. split_and!; [done|constructor|by apply root_dir|lia].
    - intros cur. eapply vt_post; [apply vt_ret|]. by intros ? s [-> ?]. }
  intros [parent b]. apply vt_any. intros s [Hb' (Ws & Hw & Hd & Hn)]. simpl in Hb', Hw, Hd. subst b. eapply vt_bind.
  - eapply vt_rpc with (E := whatever); [|done].
    apply (vt_mutating cfg q volumeID _ _ (fun ctx => Create_body ctx volumeID parent base 420 (rq_actor q))); [|done].
    intros ctx. apply (bt_Create s); [done|lia].
  - intros r. apply vt_any. intros s1 (Hg & n & Hr & Hpl). destruct Hpl as (Hd1 & He1 & Hn1 & _ & Hemp). rewrite Hr.
    eapply vt_conseq; [apply (vt_write_data s1 (n_Inode n) (nr_HandleId r) data); [apply Hg|by apply Hemp|done]|done|done| |done].
    intros ? s2 [Hg2 Hrd]. split; [apply Hg2|]. exists (n_Inode n). split; [|done]. rewrite Hsplit.
    eapply (grows_walks 0); [apply Hg|done|]. eapply walks_snoc; [|done..]. by eapply (grows_walks 1 s).
Qed.

Lemma vt_write_path s0 raw data : wf s0 -> one_payload s0 -> no_link s0 (parts_of raw) ->
  NextInode s0 + Z.of_nat (length (parts_of raw)) < 2 ^ 64 - 1 -> zlen data <= maxInt ->
  Vt True (at_state s0) (writeVolumePath cfg q volumeID raw data) (fun _ s => stored s (parts_of raw) data) whatever.
Proof.
  intros W H1 Hnl Hx Hb. unfold writeVolumePath. eapply vt_bind; [by apply vt_lookup_path|]. intros r. apply vt_any.
  intros s (-> & Hne & Hf). destruct (rp_Exists r); [|by apply vt_write_new].
  destruct (Hf eq_refl) as (n & Hw & Hn & Hl & Ha). rewrite Ha. cbn [attr_of].
  eapply vt_bind with (Q := fun a s => a = s0fsAttr (Some n) /\ at_state s0 s).
  { eapply vt_post; [apply vt_ret|done]. }
  intros a. apply vt_given with (F := a = s0fsAttr (Some n)); [by intros s [? _]|]. intros ->. rewrite attr_is_dir.
  apply (vt_pre _ _ _ _ (at_state s0)); [by intros s [_ ?]|]. destruct (is_dir n) eqn:Hd; [by apply vt_throw|].
  apply (vt_overwrite s0 r n); try done. by eapply Hnl.
Qed.

(** ** Reading a path *)

Lemma vt_walk s0 cleaned cur parts i n : wf s0 -> walks s0 cur parts i -> parts <> [] -> Nodes s0 !! i = Some n ->
  Vt False (at_state s0) (lookup_parts cfg q volumeID cleaned cur parts)
    (fun r s => s = s0 /\ rp_Exists r = true /\ rp_Inode r = i /\ rp_Attr r = Some (s0fsAttr (Some n))) no_error.
Proof.
  intros W Hw. induction Hw as [|cur part rest j i Hd He Hw IH]; [done|]. intros _ Hn. cbn [lookup_parts].
  destruct (entry_linked _ _ _ _ W He) as (m & Hm & _ & Hi). eapply vt_bind with (Q := answers (fun r s => s = s0 /\ r = s0fsNodeResponse (Some m) 0) no_error).
  { apply (vt_reading cfg q volumeID _ _ (fun _ => Lookup_body cur part)). intros _. by eapply bt_lookup_found. }
  intros [e|r]; cbn [answers].
  { apply vt_any. done. }
  apply vt_any. intros s [-> ->]. cbn [s0fsNodeResponse nr_Inode nr_Attr]. rewrite Hi. destruct rest as [|p' rest'].
  - assert (j = i) as -> by (by inversion Hw). assert (m = n) as -> by congruence. eapply vt_post; [apply vt_ret|]. by intros ? s [-> ->].
  - cbn [not_a_dir]. rewrite attr_is_dir. assert (Hdm : is_dir m = true) by (inversion Hw as [|? ? ? ? ? (d & ? & ?)]; simplify_eq; congruence).
    rewrite Hdm. cbn [negb]. by apply IH.
Qed.

Lemma vt_read_path s0 json raw data : stored s0 (parts_of raw) data -> parts_of raw <> [] -> zlen data <= maxInt ->
  Vt False (at_state s0) (readVolumeFile cfg q volumeID json raw) (fun a _ => a = AData json data) (fun e _ => e = errPermissionDenied).
Proof.
  intros (W & i & Hw & n & Hn & Ht & Hl & Hsz & Hr) Hne Hb. unfold readVolumeFile.
  eapply vt_bind with (Q := fun r s => s = s0 /\ rp_Exists r = true /\ rp_Inode r = i /\ rp_Attr r = Some (s0fsAttr (Some n))).
  { unfold lookupVolumePath. rewrite clean_path, decide_False by done. intros st s Hv Hs. unfold bind, lift_res.
    rewrite bool_decide_eq_false_2 by (by rewrite clean_root). rewrite path_parts_clean by done. revert st s Hv Hs.
    eapply vt_conseq; [by apply (vt_walk s0 (Clean_rooted (TrimSpace raw)) 1 (parts_of raw) i n)|done..]. }
  intros r. apply vt_any. intros s (-> & -> & Hi & ->). cbn [negb attr_of]. rewrite Hi.
  eapply vt_bind with (Q := fun a s => a = s0fsAttr (Some n) /\ at_state s0 s).
  { eapply vt_post; [apply vt_ret|done]. }
  intros a. apply vt_given with (F := a = s0fsAttr (Some n)); [by intros s [? _]|]. intros ->. rewrite attr_is_dir.
  assert (Hd : is_dir n = false) by (unfold is_dir; by rewrite Ht). rewrite Hd. pose proof (zlen_nonneg data).
  apply (vt_pre _ _ _ _ (at_state s0)); [by intros s [_ ?]|]. eapply vt_bind.
  - eapply vt_conseq; [apply (vt_read_all s0 i n _ (zlen data)); [done|done|done|by rewrite file_size|unfold maxInt in Hb; lia]|by rewrite Hr|done|done|].
    intros e s [_ [->|[e' He]]]; [done|congruence].
  - intros d. eapply vt_post; [apply vt_ret|]. intros ? s [-> [_ Hd']]. congruence.
Qed.

End handlers.

Lemma view_claims {B X : Type} cfg q q' volumeID (s : Server B X) s0 :
  rq_claims q' = rq_claims q -> view cfg q volumeID s s0 -> view cfg q' volumeID s s0.
Proof. intros Hq (vc & w & Ha & H). exists vc, w. split; [|done]. unfold authorize, call_ctx in *. simpl in *. by rewrite Hq. Qed.

(** C9: what the HTTP API wrote to a path is what it reads from it.  The write may find the
    file with another content, with the same content, or not at all, in which case it makes
    the directories and the file; it may fail at any I/O, but when it reports success then a
    read of the path, in any spelling, by a caller with the same claims returns exactly the
    bytes, or is refused because the file's mode does not let the actor read it.  (The volume
    is mounted for the team; the path does not end in a symbolic link; inode numbers are left.) *)
Theorem written_file_read_back {B X : Type} `{UC : UnicodeCase} `{CR : ColdReader}
    (cfg : Config) (q q' : FileRequest) (volumeID raw raw' : string) (data : list byte) (s : Server B X) (s0 : SnapshotState) k changed s' k' json
    (Mounted : view cfg q volumeID s s0) (Wf : wf s0) (One : one_payload s0) (NoLink : no_link s0 (parts_of raw))
    (Room : NextInode s0 + Z.of_nat (length (parts_of raw)) < 2 ^ 64 - 1) (Size : zlen data <= maxVolumeFileSize)
    (Claims : rq_claims q' = rq_claims q) (Path : parts_of raw' = parts_of raw)
    (Write : writeVolumePath cfg q volumeID raw data (s, k) = (Ok changed, (s', k'))) :
  exists s'' k'', readVolumeFile cfg q' volumeID json raw' (s', k') = (Ok (AData json data), (s'', k'')) \/
                  readVolumeFile cfg q' volumeID json raw' (s', k') = (Err errPermissionDenied, (s'', k'')).
Proof.
  assert (Hb : zlen data <= maxInt) by (unfold maxVolumeFileSize, maxInt in *; lia).
  pose proof (vt_write_path cfg q volumeID s0 raw data Wf One NoLink Room Hb (s, k) s0 Mounted eq_refl) as Hw. rewrite Write in Hw.
  destruct Hw as (s1 & Hv & Hst). apply (view_claims _ _ q') in Hv; [|done].
  assert (Hne : parts_of raw' <> []).
  { intros Hp. rewrite Path in Hp. unfold writeVolumePath, bind, lookupVolumePath, bind, lift_res in Write. by rewrite clean_path, decide_True in Write. }
  rewrite <- Path in Hst. pose proof (vt_read_path cfg q' volumeID s1 json raw' data Hst Hne Hb (s', k') s1 Hv eq_refl) as Hr.
  destruct (readVolumeFile cfg q' volumeID json raw' (s', k')) as [[a|e|] [s'' k'']]; [| |done]; destruct Hr as (? & _ & ->); eauto.
Qed.

(** ** Tenants *)

Create HintDb apart.

Section tenants.
Context {B X : Type} `{UP : UnicodeUpper} `{UC : UnicodeCase} `{CR : ColdReader} `{BK : Backend B X} `{RG : MountRegistrar X}.
Context (cfg : Config) (q : FileRequest) (volumeID team : string).
Context (Team : of_team team (call_ctx q 0)).

Abbreviation VF := (ST vf_error (Server B X * nat)).

(** Like [confined], for the calls of a request. *)
Definition kept_apart {A} (m : VF A) : Prop := forall s1 s2 k, alike team s1 s2 ->
  (m (s1, k)).1 = (m (s2, k)).1 /\ (m (s1, k)).2.2 = (m (s2, k)).2.2 /\ alike team (m (s1, k)).2.1 (m (s2, k)).2.1 /\ spared team s1 (m (s1, k)).2.1.

Lemma apart_bind {A D} (m : VF A) (f : A -> VF D) : kept_apart m -> (forall a, kept_apart (f a)) -> kept_apart (bind m f).
Proof.
  intros Hm Hf s1 s2 k H. destruct (Hm s1 s2 k H) as (H1 & H2 & H3 & H4). unfold bind.
  destruct (m (s1, k)) as [r1 [t1 k1]], (m (s2, k)) as [r2 [t2 k2]]. simpl in *. subst r2 k2. destruct r1 as [a|e|]; [|done..].
  destruct (Hf a t1 t2 k1 H3) as (H5 & H6 & H7 & H8). split_and!; try done. by eapply spared_trans.
Qed.

Lemma apart_pure {A} (r : res vf_error A) : kept_apart (lift_res r).
Proof. intros s1 s2 k H. by split_and!. Qed.

Lemma apart_ret {A} (a : A) : kept_apart (ret a).
Proof. apply (apart_pure (Ok a)). Qed.
Lemma apart_throw {A} e : kept_apart (throw e : VF A).
Proof. apply (apart_pure (Err e)). Qed.
Lemma apart_panic {A} : kept_apart (panic : VF A).
Proof. apply (apart_pure Panic). Qed.

Lemma apart_try {A} (f : Ctx -> ST srv_error (Server B X) A) : (forall ctx, of_team team ctx -> confined team (f ctx)) -> kept_apart (try_rpc q f).
Proof.
  intros Hf s1 s2 k H. destruct (Hf (call_ctx q k) Team s1 s2 H) as (H1 & H2 & H3). unfold try_rpc.
  destruct (f (call_ctx q k) s1) as [r1 t1], (f (call_ctx q k) s2) as [r2 t2]. simpl in *. subst r2. by destruct r1.
Qed.

Lemma apart_rpc {A} (f : Ctx -> ST srv_error (Server B X) A) : (forall ctx, of_team team ctx -> confined team (f ctx)) -> kept_apart (rpc q f).
Proof. intros Hf. apply apart_bind; [by apply apart_try|]. intros [e|a]; [apply apart_throw|apply apart_ret]. Qed.

Lemma apart_defer {A C} (m : VF A) (cleanup : VF C) : kept_apart m -> kept_apart cleanup -> kept_apart (deferring cleanup m).
Proof.
  intros Hm Hc s1 s2 k H. destruct (Hm s1 s2 k H) as (H1 & H2 & H3 & H4). unfold deferring.
  destruct (m (s1, k)) as [r1 [t1 k1]], (m (s2, k)) as [r2 [t2 k2]]. simpl in *. subst r2 k2.
  destruct (Hc t1 t2 k1 H3) as (H5 & H6 & H7 & H8). destruct (cleanup (t1, k1)) as [c1 [u1 l1]], (cleanup (t2, k1)) as [c2 [u2 l2]]. simpl in *.
  subst c2 l2. destruct c1; split_and!; try done; by eapply spared_trans.
Qed.

Ltac apart :=
  repeat first
    [ done | solve [eauto 2 with apart] | apply apart_ret | apply apart_throw | apply apart_panic | apply apart_pure
    | apply apart_bind; [|intros ?] | apply apart_defer
    | apply apart_rpc; intros ? ? | apply apart_try; intros ? ?
    | apply confined_reading | apply confined_mutating | apply confined_open
    | case_match | progress intros ].

Lemma apart_lookup_parts cleaned cur parts : kept_apart (lookup_parts cfg q volumeID cleaned cur parts).
Proof. revert cur. induction parts as [|part rest IH]; intros cur; cbn [lookup_parts]; apart; by apply IH. Qed.
#[local] Hint Resolve apart_lookup_parts : apart.

Lemma apart_lookup raw root : kept_apart (lookupVolumePath cfg q volumeID raw root).
Proof. unfold lookupVolumePath. apart. Qed.
#[local] Hint Resolve apart_lookup : apart.

Lemma apart_ensure recursive cur parts : kept_apart (ensure_parts cfg q volumeID recursive cur parts).
Proof. revert cur. induction parts as [|part rest IH]; intros cur; cbn [ensure_parts]; unfold ensure_part; apart; by apply IH. Qed.
#[local] Hint Resolve apart_ensure : apart.

Lemma apart_parent raw recursive : kept_apart (ensureVolumeParent cfg q volumeID raw recursive).
Proof. unfold ensureVolumeParent. apart. Qed.
#[local] Hint Resolve apart_parent : apart.

Lemma apart_read_all i attr : kept_apart (read_all cfg q volumeID i attr).
Proof. unfold read_all, openVolumeFile, release_file. apart. Qed.
#[local] Hint Resolve apart_read_all : apart.

Lemma apart_write_data i h data : kept_apart (write_data cfg q volumeID i h data).
Proof. unfold write_data, release_file. apart. Qed.
#[local] Hint Resolve apart_write_data : apart.

Lemma apart_remove fuel r : kept_apart (removeVolumePath cfg q volumeID fuel r).
Proof.
  revert r. induction fuel as [|fuel IH]; intros r; cbn [removeVolumePath]; [unfold attr_of; apart|].
  unfold attr_of, openVolumeDir, release_dir, list_dir. apart.
  match goal with |- kept_apart (_ ?l) => generalize l as entries end.
  intros entries. induction entries as [|e entries IHe]; apart.
Qed.
#[local] Hint Resolve apart_remove : apart.

Context (finalize : VF unit) (Finalize : kept_apart finalize).

(** Whatever file request of a team, on whatever volume: its answer does not depend on the
    volumes of other teams, and it leaves them as they are. *)
Theorem file_requests_apart m json mkdir recursive body fuel filePath :
  kept_apart (handleVolumeFileOperation cfg q volumeID finalize m json mkdir recursive body fuel filePath).
Proof.
  unfold handleVolumeFileOperation, readVolumeFile, writeVolumeFile, deleteVolumeFile, mkdirVolumePath, writeVolumePath, volumeFileContentMatches, attr_of.
  apart.
Qed.

Theorem move_requests_apart source destination : kept_apart (handleVolumeFileMove cfg q volumeID finalize source destination).
Proof. unfold handleVolumeFileMove, moveVolumePath. apart. Qed.

Theorem listing_requests_apart path :
  kept_apart (handleVolumeFileStat cfg q volumeID path) /\ kept_apart (handleVolumeFileList cfg q volumeID path).
Proof.
  unfold handleVolumeFileStat, handleVolumeFileList, openVolumeDir, release_dir, list_dir, attr_of. split; apart.
Qed.

End tenants.

(** ** A run *)

Definition demo_lower : UnicodeCase := {| unicode_lower := fun s => s |}.
Definition http_request : FileRequest := mkFileRequest (Some (mkClaims "A" "sb" false)) (Some (mkActor 1000 [1000])) 9 (fun _ _ => calm 9).
Definition http_mounted : Server unit unit := life_do (RMount "m") life_start.

Definition http_write := writeVolumePath (B := unit) (X := unit) (UC := demo_lower) (CR := no_cold) life_config http_request "vol".
Definition http_read := readVolumeFile (B := unit) (X := unit) (UC := demo_lower) (CR := no_cold) life_config http_request "vol" false.
Definition http_move := moveVolumePath (B := unit) (X := unit) (UC := demo_lower) (CR := no_cold) life_config http_request "vol".
Definition http_stat := handleVolumeFileStat (B := unit) (X := unit) (UC := demo_lower) life_config http_request "vol".

Lemma http_mounted_view : exists s0, @view unit unit life_config http_request "vol" http_mounted s0 /\ wf s0 /\ NextInode s0 = 2 /\
  Data s0 = ∅ /\ dir_of (Children s0) 1 !! "docs" = None.
Proof.
  assert (F : all_fine (CR := no_cold) false http_mounted).
  { apply (run_fine (UP := demo_upper) (BK := life_backend) (RG := demo_registrar) life_config false life_start); [|done].
    apply rtc_once, (life_step false (RMount "m")); [vm_compute; reflexivity|done]. }
  destruct (vols http_mounted !! "vol") as [vc|] eqn:Ev; [|vm_compute in Ev; discriminate Ev].
  assert (Hi : (IsS0FS <$> vols http_mounted !! "vol") = Some true) by (vm_compute; reflexivity).
  assert (Ht : (vc_TeamID <$> vols http_mounted !! "vol") = Some "A") by (vm_compute; reflexivity).
  rewrite Ev in Hi, Ht. injection Hi as Hi. injection Ht as Ht. destruct (F "vol" vc Ev Hi) as [w V]. pose proof (vi_world _ _ _ _ _ _ _ V) as Ew.
  assert (Hx : (w ← vols http_mounted !! "vol" ≫= vc_S0FS; Some (NextInode (core (eng w)), map_to_list (Data (core (eng w))),
      dir_of (Children (core (eng w))) 1 !! "docs")) = Some (2, [], None)) by (vm_compute; reflexivity).
  rewrite Ev in Hx. simpl in Hx. rewrite Ew in Hx. simpl in Hx. injection Hx as Hx Hd Hc.
  exists (core (eng w)). split; [exists vc, w|].
  - split; [|split_and!; [done|done|apply (vi_open _ _ _ _ _ _ _ V)|done]]. unfold authorize. simpl. rewrite Ev. unfold owner_team. by rewrite Ht.
  - split_and!; [apply (vi_wf _ _ _ _ _ _ _ V)|done|by apply map_to_list_empty_iff|done].
Qed.

Definition http_written : Server unit unit * nat := (http_write "docs/./x/../hello.txt" [x68; x69] (http_mounted, 0%nat)).2.

Lemma written_file_read_back_witness :
  exists s'' k'', http_read " /docs//hello.txt " http_written = (Ok (AData false [x68; x69]), (s'', k'')) \/
                  http_read " /docs//hello.txt " http_written = (Err errPermissionDenied, (s'', k'')).
Proof.
  destruct http_mounted_view as (s0 & Hv & W & Hx & Hd & Hc).
  assert (Hok : (http_write "docs/./x/../hello.txt" [x68; x69] (http_mounted, 0%nat)).1 = Ok true) by (vm_compute; reflexivity).
  unfold http_written. destruct (http_write "docs/./x/../hello.txt" [x68; x69] (http_mounted, 0%nat)) as [r [s' k']] eqn:E.
  simpl in Hok. subst r. cbn [snd].
  apply (written_file_read_back (UC := demo_lower) (CR := no_cold) life_config http_request http_request "vol" "docs/./x/../hello.txt" " /docs//hello.txt "
    [x68; x69] http_mounted s0 0 true s' k' false Hv W).
  - intros i n _ _. left. unfold data_of. by rewrite Hd.
  - intros i n Hw. exfalso. assert (Hp : parts_of "docs/./x/../hello.txt" = ["docs"; "hello.txt"]) by (vm_compute; reflexivity). rewrite Hp in Hw.
    inversion Hw as [|? ? ? j ? _ He]. congruence.
  - rewrite Hx. vm_compute. reflexivity.
  - by vm_compute.
  - reflexivity.
  - vm_compute. reflexivity.
  - exact E.
Defined.

(** ** Where it goes wrong *)

(** A path that ends in a symbolic link: the bytes go into the inode of the link, and a read
    returns as many of them as the link's target has characters. *)
Lemma link_write_cut_short :
  let linked := life_do (RSymlink 1 "latest" "v1" None) http_mounted in
  let written := http_write "latest" [x68; x65; x6c; x6c; x6f] (linked, 0%nat) in
  written.1 = Ok true /\ (http_read "latest" written.2).1 = Ok (AData false [x68; x65]).
Proof. split; vm_compute; reflexivity. Qed.

(** A directory moved to a path below itself is gone, with all that is in it. *)
Lemma move_below_itself_loses :
  let moved := http_move "docs" "docs/old" http_written in
  moved.1 = Ok tt /\ (http_stat "docs" moved.2).1 = Err errFileNotFound /\ (http_read "docs/hello.txt" moved.2).1 = Err errFileNotFound /\
  (http_stat "docs/old" moved.2).1 = Err errFileNotFound.
Proof. split_and!; vm_compute; reflexivity. Qed.

(** When the new bytes cannot be logged the old ones are already gone. *)
Definition full_request : FileRequest :=
  mkFileRequest (rq_claims http_request) (rq_actor http_request) 9 (fun k _ => if (k =? 3)%nat then mkEnv 9 9 (AppendFails false) true ResetOk true true else calm 9).

Lemma failed_overwrite_empties :
  let again := writeVolumePath (B := unit) (X := unit) (UC := demo_lower) (CR := no_cold) life_config full_request "vol" "docs/hello.txt" [x79; x6f; x75]
                 (http_written.1, 0%nat) in
  exists e, again.1 = Err e /\ (http_read "docs/hello.txt" again.2).1 = Ok (AData false []).
Proof. eexists. split; vm_compute; reflexivity. Qed.

(** The volume of a sandbox is open to its team when the lookup of its owner fails. *)
Lemma owner_lookup_fails_open record claims :
  cl_TeamID claims <> "" -> vr_TeamID record = cl_TeamID claims ->
  loadAuthorizedVolume (Some (mkHttpRepo (fun _ => Ok record) (fun _ => Err DbOther))) (Some claims) "vol" = Ok record /\
  loadAuthorizedVolume (Some (mkHttpRepo (fun _ => Ok record) (fun _ => Ok "sb"))) (Some claims) "vol" = Err errVolumeNotFound.
Proof.
  intros Hc Hr. unfold loadAuthorizedVolume. rewrite bool_decide_eq_false_2 by done. simpl. by rewrite Hr, bool_decide_eq_true_2.
Qed.
