(* ===== verification/Classifier.v ===== *)
(** * netd: classification of TCP flows (netd/pkg/proxy/classifier.go)

    The protocol of a connection is told from its first bytes: the classifiers look at
    the bytes read so far and match, do not match, or ask for more, and the loop reads
    on until one matches.  Bytes are indexed as Go indexes slices: out of range is a
    panic.  [http.ReadRequest], of which only the host is used, is a parameter. *)

From stdpp Require Import base gmap strings list fin_maps numbers.
From Stdlib Require Import Strings.Byte Strings.Ascii.
From S2P Require Import Prelude GoStd GoNet Policy PolicyEval.

Local Open Scope Z_scope.

Abbreviation bytes := (list byte).

#[export] Instance byte_eq_dec : EqDecision byte := Byte.byte_eq_dec.

Definition bz (b : byte) : Z := Z.of_N (Byte.to_N b).
(** [byte(n)] *)
Definition to_byte (n : Z) : byte := default x00 (Byte.of_N (Z.to_N (n mod 256))).
Definition str (b : bytes) : string := String.string_of_list_byte b.
Definition raw (s : string) : bytes := String.list_byte_of_string s.

(** [data[i]] *)
Definition at_ (data : bytes) (i : Z) : res string Z :=
  if 0 <=? i then match data !! Z.to_nat i with Some b => Ok (bz b) | None => Panic end else Panic.

(** [int(data[i])<<8 | int(data[i+1])], also [binary.BigEndian.Uint16] *)
Definition be16 (data : bytes) (i : Z) : res string Z :=
  let? a := at_ data i in
  let? b := at_ data (i + 1) in
  Ok (Z.lor (Z.shiftl a 8) b).

(** [binary.LittleEndian.Uint32(data[i:i+4])] *)
Definition le32 (data : bytes) (i : Z) : res string Z :=
  let? a := at_ data i in
  let? b := at_ data (i + 1) in
  let? c := at_ data (i + 2) in
  let? d := at_ data (i + 3) in
  Ok (Z.lor (Z.lor (Z.lor a (Z.shiftl b 8)) (Z.shiftl c 16)) (Z.shiftl d 24)).

(** ** Package bytes *)

(** [bytes.HasPrefix(data, p)] *)
Definition bytes_HasPrefix (data p : bytes) : bool := bool_decide (p `prefix_of` data).

(** [bytes.Index(data, sep)], the position of the first occurrence. *)
Fixpoint bytes_Index (data sep : bytes) : option Z :=
  if bytes_HasPrefix data sep then Some 0 else
  match data with
  | [] => None
  | _ :: rest => Z.succ <$> bytes_Index rest sep
  end.

Definition bytes_IndexByte (data : bytes) (b : byte) : option Z := bytes_Index data [b].

Fixpoint drop_while (b : byte) (data : bytes) : bytes :=
  match data with
  | c :: rest => if decide (c = b) then drop_while b rest else data
  | [] => []
  end.

(** [bytes.TrimRight(data, cutset)] for a cutset of one byte. *)
Definition bytes_TrimRight (data : bytes) (b : byte) : bytes := reverse (drop_while b (reverse data)).

(** The part before the first [b], and what follows it. *)
Fixpoint bytes_Cut (data : bytes) (b : byte) : option (bytes * bytes) :=
  match data with
  | [] => None
  | c :: rest => if decide (c = b) then Some ([], rest) else
                 match bytes_Cut rest b with Some (l, r) => Some (c :: l, r) | None => None end
  end.

(** [bytes.SplitN(data, " ", n)] for a positive [n]. *)
Fixpoint bytes_SplitN (n : nat) (data : bytes) (b : byte) : list bytes :=
  match n with
  | O => []
  | S O => [data]
  | S n' => match bytes_Cut data b with Some (l, r) => l :: bytes_SplitN n' r b | None => [data] end
  end.

(** ** net.SplitHostPort, of which the host is used *)

Fixpoint last_index (s : string) (c : ascii) : option nat :=
  match s with
  | EmptyString => None
  | String a rest =>
      match last_index rest c with
      | Some i => Some (S i)
      | None => if decide (a = c) then Some O else None
      end
  end.

Fixpoint first_index (s : string) (c : ascii) : option nat :=
  match s with
  | EmptyString => None
  | String a rest => if decide (a = c) then Some O else S <$> first_index rest c
  end.

Definition lbracket : ascii := "["%char.
Definition rbracket : ascii := "]"%char.
Definition str_drop (n : nat) (s : string) : string := String.substring n (String.length s - n) s.

(** The host, or the empty string with an error. *)
Definition SplitHostPort_host (hostport : string) : string :=
  match last_index hostport colon with
  | None => ""
  | Some i =>
      match hostport with
      | String "[" _ =>
          match first_index hostport rbracket with
          | None => ""
          | Some e =>
              if (S e =? i)%nat then
                if contains_char lbracket (str_drop 1 hostport) then "" else
                if contains_char rbracket (str_drop (S e) hostport) then ""
                else String.substring 1 (e - 1) hostport
              else ""
          end
      | _ =>
          let host := String.substring 0 i hostport in
          if contains_char colon host then "" else
          if contains_char lbracket hostport then "" else
          if contains_char rbracket hostport then "" else host
      end
  end.

(** server.go *)
Definition normalizeHost `{UnicodeCase} (host : string) : string :=
  let host := ToLower (TrimSpace host) in
  if contains_char colon host then SplitHostPort_host host else host.

(** ** The parsers *)

Inductive tcpClassifierDecision := tcpClassifierNoMatch | tcpClassifierNeedMore | tcpClassifierMatched.

#[export] Instance tcpClassifierDecision_eq_dec : EqDecision tcpClassifierDecision.
Proof. solve_decision. Defined.

Definition defaultTCPHeaderLimit : Z := 64 * 1024.

(** What a parser says of data that stops too early. *)
Definition short (complete : bool) : tcpClassifierDecision :=
  if complete then tcpClassifierNoMatch else tcpClassifierNeedMore.

(** *** HTTP *)

(** The host of the request that [http.ReadRequest] reads from the header. *)
Class HTTPReader := { ReadRequest_host : bytes -> option string }.

Definition findHTTPHeaderTerminator (data : bytes) : Z :=
  match bytes_Index data [x0d; x0a; x0d; x0a] with
  | Some index => index + 4
  | None => match bytes_Index data [x0a; x0a] with Some index => index + 2 | None => -1 end
  end.

Definition isHTTPMethodByte (b : byte) : bool :=
  ((65 <=? bz b) && (bz b <=? 90)) || bool_decide (b ∈ raw "!#$%&'*+-.^_`|~").

Definition isHTTPMethodToken (method : bytes) : bool :=
  match method with [] => false | _ => forallb isHTTPMethodByte method end.

Definition looksLikeHTTPRequestPrefix (data : bytes) : bool :=
  match data with
  | [] => false
  | _ =>
      let line := match bytes_Cut data x0a with Some (l, _) => l | None => data end in
      let line := bytes_TrimRight line x0d in
      match bytes_SplitN 3 line x20 with
      | [] => false
      | method :: rest =>
          if negb (isHTTPMethodToken method) then false else
          match rest with
          | [] => true
          | [target] => 0 <? zlen target
          | target :: proto :: _ => (0 <? zlen target) && bytes_HasPrefix proto (raw "HTTP/")
          end
      end
  end.

Definition parseHTTPRequest `{HTTPReader} (data : bytes) (complete : bool) (limit : Z)
    : res string (option string * tcpClassifierDecision) :=
  if zlen data =? 0 then Ok (None, short complete) else
  if negb (looksLikeHTTPRequestPrefix data) then Ok (None, tcpClassifierNoMatch) else
  let headerEnd := findHTTPHeaderTerminator data in
  if headerEnd <? 0 then
    Ok (None, if negb complete && (zlen data <? limit) then tcpClassifierNeedMore else tcpClassifierNoMatch)
  else
    let? header := goslice 0 headerEnd data in
    match ReadRequest_host header with
    | None => Ok (None, tcpClassifierNoMatch)
    | Some host => Ok (Some host, tcpClassifierMatched)
    end.

(** *** TLS *)

(** The list of server names: the first host name in it. *)
Fixpoint sni_names (fuel : nat) (data : bytes) (complete : bool) (offset listEnd : Z)
    : res string (option string * tcpClassifierDecision) :=
  if offset + 3 <=? listEnd then
    match fuel with
    | O => Panic
    | S fuel =>
        let? nameType := at_ data offset in
        let? nameLen := be16 data (offset + 1) in
        let offset := offset + 3 in
        if listEnd <? offset + nameLen then Ok (None, short complete) else
        if nameType =? 0 then
          let? name := goslice offset (offset + nameLen) data in
          Ok (Some (str name), tcpClassifierMatched)
        else sni_names fuel data complete (offset + nameLen) listEnd
    end
  else Ok (Some "", tcpClassifierMatched).

(** The extensions: the first one of type server_name. *)
Fixpoint sni_extensions (fuel : nat) (data : bytes) (complete : bool) (offset end_ : Z)
    : res string (option string * tcpClassifierDecision) :=
  if offset + 4 <=? end_ then
    match fuel with
    | O => Panic
    | S fuel =>
        let? extType := be16 data offset in
        let? extSize := be16 data (offset + 2) in
        let offset := offset + 4 in
        if end_ <? offset + extSize then Ok (None, short complete) else
        if negb (extType =? 0) then sni_extensions fuel data complete (offset + extSize) end_ else
        if end_ <? offset + 2 then Ok (None, short complete) else
        let? listLen := be16 data offset in
        let offset := offset + 2 in
        let listEnd := offset + listLen in
        if end_ <? listEnd then Ok (None, short complete) else
        sni_names (length data) data complete offset listEnd
    end
  else Ok (Some "", tcpClassifierMatched).

(** The server name, empty when there is none; no name at all when it is no client hello. *)
Definition parseTLSClientHello (data : bytes) (complete : bool) : res string (option string * tcpClassifierDecision) :=
  let more := Ok (None, short complete) in
  if zlen data =? 0 then more else
  let? typ := at_ data 0 in
  if negb (typ =? 22) then Ok (None, tcpClassifierNoMatch) else
  if zlen data <? 5 then more else
  let? recordLen := be16 data 3 in
  let recordEnd := 5 + recordLen in
  if zlen data <? recordEnd then more else
  let? handshake := (if recordEnd <=? 9 then Ok 0 else at_ data 5) in
  if (recordEnd <=? 9) || negb (handshake =? 1) then Ok (None, tcpClassifierNoMatch) else
  let offset := 9 in
  if recordEnd <? offset + 2 + 32 then more else
  let offset := offset + (2 + 32) in
  if recordEnd <=? offset then more else
  let? sessionLen := at_ data offset in
  let offset := offset + 1 in
  if recordEnd <? offset + sessionLen then more else
  let offset := offset + sessionLen in
  if recordEnd <? offset + 2 then more else
  let? cipherLen := be16 data offset in
  let offset := offset + 2 in
  if recordEnd <? offset + cipherLen then more else
  let offset := offset + cipherLen in
  if recordEnd <=? offset then more else
  let? compLen := at_ data offset in
  let offset := offset + 1 in
  if recordEnd <? offset + compLen then more else
  let offset := offset + compLen in
  if offset =? recordEnd then Ok (Some "", tcpClassifierMatched) else
  if recordEnd <? offset + 2 then more else
  let? extLen := be16 data offset in
  let offset := offset + 2 in
  if recordEnd <? offset + extLen then more else
  sni_extensions (length data) data complete offset (offset + extLen).

Definition parseSNIFromTLS (data : bytes) (complete : bool) : res string (string * tcpClassifierDecision) :=
  let? r := parseTLSClientHello data complete in
  match r with
  | (Some name, tcpClassifierMatched) => Ok (name, tcpClassifierMatched)
  | (_, decision) => Ok ("", decision)
  end.

(** *** SSH *)

Definition cutSSHLine (data : bytes) : option bytes :=
  match bytes_Cut data x0a with Some (line, _) => Some line | None => None end.

Definition parseSSHBannerClassification (data : bytes) (complete : bool) (limit : Z)
    : string * tcpClassifierDecision :=
  let wait := if negb complete && (zlen data <? limit) then tcpClassifierNeedMore else tcpClassifierNoMatch in
  if zlen data =? 0 then ("", short complete) else
  let prefix := raw "SSH-" in
  if zlen data <? zlen prefix then
    ("", if bytes_HasPrefix prefix data then wait else tcpClassifierNoMatch)
  else if negb (bytes_HasPrefix data prefix) then ("", tcpClassifierNoMatch) else
  match cutSSHLine data with
  | None => ("", wait)
  | Some line =>
      let line := bytes_TrimRight line x0d in
      if zlen line =? 0 then ("", tcpClassifierNoMatch) else
      if negb (bytes_HasPrefix line (raw "SSH-")) then ("", tcpClassifierNoMatch) else
      (str line, tcpClassifierMatched)
  end.

(** *** SOCKS5 and AMQP *)

Definition looksLikeSOCKS5Greeting (data : bytes) (complete : bool) : res string tcpClassifierDecision :=
  if zlen data =? 0 then Ok (short complete) else
  let? version := at_ data 0 in
  if negb (version =? 5) then Ok tcpClassifierNoMatch else
  if zlen data <? 2 then Ok (short complete) else
  let? methods := at_ data 1 in
  if methods <=? 0 then Ok tcpClassifierNoMatch else
  if zlen data <? 2 + methods then Ok (short complete) else
  Ok tcpClassifierMatched.

Definition looksLikeAMQPProtocolHeader (data : bytes) (complete : bool) : res string tcpClassifierDecision :=
  let prefix := raw "AMQP" in
  if zlen data <? zlen prefix then
    Ok (if bytes_HasPrefix prefix data && negb complete then tcpClassifierNeedMore else tcpClassifierNoMatch)
  else
    let? head := goslice 0 (zlen prefix) data in
    if negb (bool_decide (head = prefix)) then Ok tcpClassifierNoMatch else
    if zlen data <? 8 then Ok (short complete) else
    Ok tcpClassifierMatched.

(** *** DNS over TCP *)

Definition isDNSLabelByte (b : byte) : bool :=
  ((97 <=? bz b) && (bz b <=? 122)) || ((65 <=? bz b) && (bz b <=? 90)) ||
  ((48 <=? bz b) && (bz b <=? 57)) || (bz b =? 45) || (bz b =? 95).

(** The labels of the question from [pos] on, and the position after them. *)
Fixpoint dns_labels (fuel : nat) (message : bytes) (complete : bool) (pos : Z) (labels : list string)
    : res string (list string * Z + tcpClassifierDecision) :=
  match fuel with
  | O => Panic
  | S fuel =>
      if zlen message <? pos + 1 then Ok (inr (short complete)) else
      let? labelLen := at_ message pos in
      let pos := pos + 1 in
      if labelLen =? 0 then Ok (inl (labels, pos)) else
      if 63 <? labelLen then Ok (inr tcpClassifierNoMatch) else
      if zlen message <? pos + labelLen then Ok (inr (short complete)) else
      let? label := goslice pos (pos + labelLen) message in
      if negb (forallb isDNSLabelByte label) then Ok (inr tcpClassifierNoMatch) else
      dns_labels fuel message complete (pos + labelLen) (labels ++ [str label])
  end.

Definition parseDNSQueryHost `{UnicodeCase} (data : bytes) (complete : bool)
    : res string (string * tcpClassifierDecision) :=
  if zlen data <? 2 then Ok ("", short complete) else
  let? messageLength := be16 data 0 in
  if (messageLength <? 17) || (defaultTCPHeaderLimit - 2 <? messageLength) then Ok ("", tcpClassifierNoMatch) else
  if zlen data <? 14 then Ok ("", short complete) else
  let? message := goslice 2 (zlen data) data in
  let? flags := be16 message 2 in
  if negb (Z.land flags 0x8000 =? 0) || negb (Z.land (Z.shiftr flags 11) 0x0f =? 0)
  then Ok ("", tcpClassifierNoMatch) else
  let? questions := be16 message 4 in
  if negb (questions =? 1) then Ok ("", tcpClassifierNoMatch) else
  let? answers := be16 message 6 in
  let? authorities := be16 message 8 in
  if negb (answers =? 0) || negb (authorities =? 0) then Ok ("", tcpClassifierNoMatch) else
  let? found := dns_labels (S (length message)) message complete 12 [] in
  match found with
  | inr decision => Ok ("", decision)
  | inl (labels, pos) =>
      if (length labels =? 0)%nat then Ok ("", tcpClassifierNoMatch) else
      if messageLength <? pos + 4 then Ok ("", tcpClassifierNoMatch) else
      if zlen message <? pos + 4 then Ok ("", short complete) else
      let host := normalizeHost (String.concat "." labels) in
      if decide (host = "") then Ok ("", tcpClassifierNoMatch) else Ok (host, tcpClassifierMatched)
  end.

(** *** MQTT *)

(** The loop from byte [i] on; [None] when it ends without a last byte. *)
Fixpoint mqtt_length (data : bytes) (i : nat) (value multiplier : Z) : option (Z * Z) :=
  match data with
  | [] => None
  | b :: rest =>
      if (4 <=? i)%nat then None else
      let value := value + Z.land (bz b) 127 * multiplier in
      if Z.land (bz b) 128 =? 0 then Some (value, Z.of_nat (S i))
      else mqtt_length rest (S i) value (multiplier * 128)
  end.

(** Value and bytes consumed, or whether more data could help. *)
Definition parseMQTTRemainingLength (data : bytes) : Z * Z + bool :=
  match mqtt_length data 0 0 1 with
  | Some r => inl r
  | None => inr (zlen data <? 4)
  end.

Definition looksLikeMQTTConnect (data : bytes) (complete : bool) : res string tcpClassifierDecision :=
  if zlen data =? 0 then Ok (short complete) else
  let? typ := at_ data 0 in
  if negb (typ =? 0x10) then Ok tcpClassifierNoMatch else
  let? rest := goslice 1 (zlen data) data in
  match parseMQTTRemainingLength rest with
  | inr needMore => Ok (if needMore && negb complete then tcpClassifierNeedMore else tcpClassifierNoMatch)
  | inl (remainingLength, consumed) =>
      if remainingLength <? 10 then Ok tcpClassifierNoMatch else
      let pos := 1 + consumed in
      if zlen data <? pos + 2 then Ok (short complete) else
      let? nameLen := be16 data pos in
      let pos := pos + 2 in
      if nameLen <=? 0 then Ok tcpClassifierNoMatch else
      if zlen data <? pos + nameLen + 4 then Ok (short complete) else
      let? protocolName := goslice pos (pos + nameLen) data in
      let pos := pos + nameLen in
      let? protocolLevel := at_ data pos in
      let? connectFlags := at_ data (pos + 1) in
      if negb (Z.land connectFlags 1 =? 0) then Ok tcpClassifierNoMatch else
      if Z.land (Z.shiftr connectFlags 3) 3 =? 3 then Ok tcpClassifierNoMatch else
      if decide (protocolName = raw "MQTT") then
        Ok (if negb (protocolLevel =? 4) && negb (protocolLevel =? 5)
            then tcpClassifierNoMatch else tcpClassifierMatched)
      else if decide (protocolName = raw "MQIsdp") then
        Ok (if negb (protocolLevel =? 3) then tcpClassifierNoMatch else tcpClassifierMatched)
      else Ok tcpClassifierNoMatch
  end.

(** *** MongoDB and Redis *)

Definition looksLikeMongoMessage (data : bytes) (complete : bool) : res string tcpClassifierDecision :=
  if zlen data <? 16 then Ok (short complete) else
  let? messageLength := le32 data 0 in
  if (messageLength <? 21) || (defaultTCPHeaderLimit <? messageLength) then Ok tcpClassifierNoMatch else
  let? responseTo := le32 data 8 in
  if negb (responseTo =? 0) then Ok tcpClassifierNoMatch else
  let? opcode := le32 data 12 in
  if opcode =? 2013 then
    if zlen data <? 21 then Ok (short complete) else
    let? flags := le32 data 16 in
    if negb (Z.ldiff flags 0x00010003 =? 0) then Ok tcpClassifierNoMatch else
    let? kind := at_ data 20 in
    Ok (if negb (kind =? 0) && negb (kind =? 1) then tcpClassifierNoMatch else tcpClassifierMatched)
  else if opcode =? 2004 then
    if zlen data <? 21 then Ok (short complete) else
    let? flags := le32 data 16 in
    if negb (Z.ldiff flags 0x000000ff =? 0) then Ok tcpClassifierNoMatch else
    let? first := at_ data 20 in
    Ok (if first =? 0 then tcpClassifierNoMatch else tcpClassifierMatched)
  else Ok tcpClassifierNoMatch.

Definition isDigitByte (b : byte) : bool := (48 <=? bz b) && (bz b <=? 57).

Definition looksLikeRedisRESPArray (data : bytes) (complete : bool) : res string tcpClassifierDecision :=
  if zlen data =? 0 then Ok (short complete) else
  let? first := at_ data 0 in
  if negb (first =? 42) then Ok tcpClassifierNoMatch else
  match bytes_Index data [x0d; x0a] with
  | None => Ok (short complete)
  | Some lineEnd =>
      if lineEnd =? 1 then Ok tcpClassifierNoMatch else
      let? digits := goslice 1 lineEnd data in
      if negb (forallb isDigitByte digits) then Ok tcpClassifierNoMatch else
      let next := lineEnd + 2 in
      if zlen data <=? next then Ok (short complete) else
      let? c := at_ data next in
      Ok (if negb (c =? 36) && negb (c =? 42) then tcpClassifierNoMatch else tcpClassifierMatched)
  end.

(** ** The connection *)

Inductive read_error := ReadTimeout | ReadEOF | ReadFailed (msg : string).

#[export] Instance read_error_eq_dec : EqDecision read_error.
Proof. solve_decision. Defined.

(** What one [Read] can deliver: bytes, and perhaps an error with them. *)
Record arrival := mkArrival { ar_data : bytes; ar_err : option read_error }.

(** What the peer sends, read by read; when nothing is left, reading times out. *)
Abbreviation Conn := (list arrival).

(** [Conn.Read] into a buffer of [n] bytes: what does not fit stays for the next read. *)
Definition Conn_Read (n : Z) (c : Conn) : bytes * option read_error * Conn :=
  match c with
  | [] => ([], Some ReadTimeout, [])
  | a :: rest =>
      if zlen (ar_data a) <=? n then (ar_data a, ar_err a, rest)
      else (take (Z.to_nat n) (ar_data a), None,
            mkArrival (drop (Z.to_nat n) (ar_data a)) (ar_err a) :: rest)
  end.

(** ** The classifiers *)

Record tcpClassifyContext := mkCtx {
  cx_OrigIP : IP; cx_OrigPort : Z; cx_HeaderLimit : Z; cx_Conn : Conn;
  cx_Peeked : bytes; cx_ReadErr : option read_error;
  cx_ReadDone : bool; cx_LimitReached : bool; cx_TimedOut : bool
}.

(** [cr_Prefix] is the prefix that [Apply] gives the request. *)
Record classificationResult := mkResult {
  cr_Classification : trafficClassification; cr_Host : string;
  cr_Error : option read_error; cr_Prefix : option bytes
}.

Abbreviation Buffered := cx_Peeked.

Definition IsComplete (ctx : tcpClassifyContext) : bool := cx_ReadDone ctx || cx_LimitReached ctx.

Definition headerLimit (ctx : tcpClassifyContext) : Z :=
  if cx_HeaderLimit ctx <=? 0 then defaultTCPHeaderLimit else cx_HeaderLimit ctx.

Definition verdict : Type := option classificationResult * tcpClassifierDecision.

(** The result of a classifier that recognises a protocol without a host. *)
Definition recognised (protocol : string) (ctx : tcpClassifyContext) (decision : tcpClassifierDecision) : verdict :=
  match decision with
  | tcpClassifierMatched =>
      (Some (mkResult (classifyKnownTraffic "tcp" protocol (cx_OrigIP ctx) (cx_OrigPort ctx) "") ""
                      None (Some (Buffered ctx))), tcpClassifierMatched)
  | _ => (None, decision)
  end.

(** The result of a classifier that finds the host, or a reason why there is none. *)
Definition recognised_host (protocol missing host : string) (ctx : tcpClassifyContext) : verdict :=
  let c := if decide (host = "")
           then classifyUnknownTraffic "tcp" protocol (cx_OrigIP ctx) (cx_OrigPort ctx) missing
           else classifyKnownTraffic "tcp" protocol (cx_OrigIP ctx) (cx_OrigPort ctx) host in
  (Some (mkResult c host None (Some (Buffered ctx))), tcpClassifierMatched).

Definition httpRequestClassifier `{UnicodeCase, HTTPReader} (ctx : tcpClassifyContext) : res string verdict :=
  let? r := parseHTTPRequest (Buffered ctx) (IsComplete ctx) (headerLimit ctx) in
  match r with
  | (Some host, tcpClassifierMatched) => Ok (recognised_host "http" "missing_host" (normalizeHost host) ctx)
  | (_, decision) => Ok (None, decision)
  end.

Definition tlsClientHelloClassifier `{UnicodeCase} (ctx : tcpClassifyContext) : res string verdict :=
  let? r := parseSNIFromTLS (Buffered ctx) (IsComplete ctx) in
  match r with
  | (serverName, tcpClassifierMatched) =>
      Ok (recognised_host "tls" "missing_sni" (normalizeHost serverName) ctx)
  | (_, decision) => Ok (None, decision)
  end.

Definition amqpProtocolClassifier (ctx : tcpClassifyContext) : res string verdict :=
  let? d := looksLikeAMQPProtocolHeader (Buffered ctx) (IsComplete ctx) in Ok (recognised "amqp" ctx d).

Definition dnsTCPQueryClassifier `{UnicodeCase} (ctx : tcpClassifyContext) : res string verdict :=
  let? r := parseDNSQueryHost (Buffered ctx) (IsComplete ctx) in
  match r with
  | (host, tcpClassifierMatched) =>
      Ok (Some (mkResult (classifyKnownTraffic "tcp" "dns" (cx_OrigIP ctx) (cx_OrigPort ctx) host) host
                         None (Some (Buffered ctx))), tcpClassifierMatched)
  | (_, decision) => Ok (None, decision)
  end.

Definition mqttConnectClassifier (ctx : tcpClassifyContext) : res string verdict :=
  let? d := looksLikeMQTTConnect (Buffered ctx) (IsComplete ctx) in Ok (recognised "mqtt" ctx d).

Definition mongoMessageClassifier (ctx : tcpClassifyContext) : res string verdict :=
  let? d := looksLikeMongoMessage (Buffered ctx) (IsComplete ctx) in Ok (recognised "mongodb" ctx d).

Definition redisRESPClassifier (ctx : tcpClassifyContext) : res string verdict :=
  let? d := looksLikeRedisRESPArray (Buffered ctx) (IsComplete ctx) in Ok (recognised "redis" ctx d).

Definition socks5GreetingClassifier (ctx : tcpClassifyContext) : res string verdict :=
  let? d := looksLikeSOCKS5Greeting (Buffered ctx) (IsComplete ctx) in Ok (recognised "socks5" ctx d).

Definition sshBannerClassifier (ctx : tcpClassifyContext) : res string verdict :=
  match parseSSHBannerClassification (Buffered ctx) (IsComplete ctx) (headerLimit ctx) with
  | (banner, tcpClassifierMatched) =>
      Ok (if decide (banner = "") then (None, tcpClassifierMatched) else recognised "ssh" ctx tcpClassifierMatched)
  | (_, decision) => Ok (None, decision)
  end.

Definition tcpUnknownClassifier (ctx : tcpClassifyContext) : res string verdict :=
  let none := zlen (Buffered ctx) =? 0 in
  if none && negb (IsComplete ctx) then Ok (None, tcpClassifierNeedMore) else
  let reason :=
    if none && cx_TimedOut ctx then "client_idle"
    else if cx_TimedOut ctx then "classification_timeout"
    else if none && bool_decide (cx_ReadErr ctx <> None) then "read_failed"
    else if cx_LimitReached ctx then "header_limit_exceeded"
    else "unclassified" in
  let err := if none && negb (bool_decide (cx_ReadErr ctx = Some ReadEOF)) then cx_ReadErr ctx else None in
  Ok (Some (mkResult (classifyUnknownTraffic "tcp" "unknown" (cx_OrigIP ctx) (cx_OrigPort ctx) reason) ""
                     err (if none then None else Some (Buffered ctx))), tcpClassifierMatched).

(** ** The loop *)

Definition tcpClassifier : Type := tcpClassifyContext -> res string verdict.

Definition defaultTCPClassifiers `{UnicodeCase, HTTPReader} : list tcpClassifier :=
  [ httpRequestClassifier; tlsClientHelloClassifier; amqpProtocolClassifier; dnsTCPQueryClassifier;
    mqttConnectClassifier; mongoMessageClassifier; redisRESPClassifier; socks5GreetingClassifier;
    sshBannerClassifier; tcpUnknownClassifier ].

(** One pass over the classifiers: the result to return, or whether one of them needs
    more and the result kept as a fallback. *)
Fixpoint classify_pass (classifiers : list tcpClassifier) (ctx : tcpClassifyContext)
    (needMore : bool) (fallback : option classificationResult)
    : res string (option classificationResult + bool * option classificationResult) :=
  match classifiers with
  | [] => Ok (inr (needMore, fallback))
  | classifier :: rest =>
      let? v := classifier ctx in
      match v with
      | (result, tcpClassifierMatched) =>
          let unknown := match result with
                         | Some r => bool_decide (tc_Protocol (cr_Classification r) = "unknown")
                         | None => false
                         end in
          if unknown && needMore && negb (IsComplete ctx)
          then classify_pass rest ctx needMore result
          else Ok (inl result)
      | (_, tcpClassifierNeedMore) => classify_pass rest ctx true fallback
      | (_, tcpClassifierNoMatch) => classify_pass rest ctx needMore fallback
      end
  end.

(** Bytes read, the error returned, and the context after. *)
Definition readMore (ctx : tcpClassifyContext) : Z * option read_error * tcpClassifyContext :=
  if IsComplete ctx then (0, cx_ReadErr ctx, ctx) else
  let remaining := headerLimit ctx - zlen (cx_Peeked ctx) in
  if remaining <=? 0 then
    (0, None, mkCtx (cx_OrigIP ctx) (cx_OrigPort ctx) (cx_HeaderLimit ctx) (cx_Conn ctx) (cx_Peeked ctx)
                    (cx_ReadErr ctx) true true (cx_TimedOut ctx))
  else
    let '(got, err, conn) := Conn_Read remaining (cx_Conn ctx) in
    let peeked := cx_Peeked ctx ++ got in
    let full := headerLimit ctx <=? zlen peeked in
    let after readErr done timedOut :=
      mkCtx (cx_OrigIP ctx) (cx_OrigPort ctx) (cx_HeaderLimit ctx) conn peeked readErr done
            (full || cx_LimitReached ctx) timedOut in
    match err with
    | None => (zlen got, None, after (cx_ReadErr ctx) (full || cx_ReadDone ctx) (cx_TimedOut ctx))
    | Some ReadTimeout => (zlen got, None, after (cx_ReadErr ctx) true true)
    | Some e => (zlen got, Some e, after (Some e) true (cx_TimedOut ctx))
    end.

(** [classifyTCP], with the number of passes bounded; running out is a panic of the
    model.  [classifyTCP_total] shows that the bound of [classifyTCP] is never reached. *)
Fixpoint classify_loop (fuel : nat) (classifiers : list tcpClassifier)
    : ST string tcpClassifyContext (option classificationResult) := fun ctx =>
  match fuel with
  | O => (Panic, ctx)
  | S fuel =>
      match classify_pass classifiers ctx false None with
      | Panic => (Panic, ctx)
      | Err e => (Err e, ctx)
      | Ok (inl result) => (Ok result, ctx)
      | Ok (inr (needMore, fallback)) =>
          let retry :=
            if negb needMore then (Err "no tcp classifier matched", ctx) else
            if IsComplete ctx then (Err "no tcp classifier matched", ctx) else
            let '(n, err, ctx) := readMore ctx in
            if 0 <? n then classify_loop fuel classifiers ctx else
            if bool_decide (err <> None) || IsComplete ctx then classify_loop fuel classifiers ctx else
            (Err "tcp classifier could not make progress", ctx) in
          match fallback with
          | Some result => if negb needMore || IsComplete ctx then (Ok (Some result), ctx) else retry
          | None => retry
          end
      end
  end.

Definition classifyTCP (classifiers : list tcpClassifier) : ST string tcpClassifyContext (option classificationResult) :=
  fun ctx => classify_loop (Z.to_nat (headerLimit ctx) + 2) classifiers ctx.

(** The context handleTCPConn starts from. *)
Definition newTCPClassifyContext (origIP : IP) (origPort : Z) (limit : Z) (conn : Conn) : tcpClassifyContext :=
  mkCtx origIP origPort limit conn [] None false false false.

Example classify_tls_record `{UnicodeCase, HTTPReader} ip :
  (classifyTCP defaultTCPClassifiers (newTCPClassifyContext ip 443 0 [mkArrival [x16] None])).1 =
  Ok (Some (mkResult (classifyUnknownTraffic "tcp" "unknown" ip 443 "classification_timeout") "" None (Some [x16]))).
Proof. vm_compute. reflexivity. Qed.
