(* ===== verification/ClassifierSpec.v ===== *)
(** * netd: what the classification of TCP flows guarantees

    The parsers never index outside the bytes they were given, whatever the sandbox
    sends, and the loop always ends with a classification whose prefix is exactly what
    was read from the connection.  A TLS client hello is recognised with its server name
    however the bytes are cut into segments. *)

From stdpp Require Import base gmap strings list fin_maps numbers.
From Stdlib Require Import Strings.Byte Strings.Ascii.
From S2P Require Import Prelude GoStd GoNet Policy PolicyEval PolicySpec Classifier.

Local Open Scope Z_scope.

(** ** No panic *)

(** The computation succeeds, with a value that satisfies [Q]. *)
Definition succeeds {A} (r : res string A) (Q : A -> Prop) : Prop :=
  match r with Ok a => Q a | _ => False end.

Lemma succeeds_ok {A} (a : A) (Q : A -> Prop) : Q a -> succeeds (Ok a) Q.
Proof. done. Qed.

Lemma succeeds_bind {A B} (r : res string A) (k : A -> res string B) P Q :
  succeeds r P -> (forall a, P a -> succeeds (k a) Q) -> succeeds (let? a := r in k a) Q.
Proof. destruct r; cbn; naive_solver. Qed.

Lemma succeeds_weaken {A} (r : res string A) (P Q : A -> Prop) :
  succeeds r P -> (forall a, P a -> Q a) -> succeeds r Q.
Proof. destruct r; cbn; naive_solver. Qed.

Lemma succeeds_eq {A} (r : res string A) Q : succeeds r Q -> exists a, r = Ok a /\ Q a.
Proof. destruct r; cbn; naive_solver. Qed.

Lemma bz_range b : 0 <= bz b < 256.
Proof. unfold bz. pose proof (Byte.to_N_bounded b). lia. Qed.

Lemma at_succeeds data i : 0 <= i < zlen data -> succeeds (at_ data i) (fun b => 0 <= b < 256).
Proof.
  intros Hi. unfold at_. destruct (Z.leb_spec 0 i); [|lia].
  destruct (lookup_lt_is_Some_2 data (Z.to_nat i)) as [b ->]; [unfold zlen in Hi; lia|].
  cbn. apply bz_range.
Qed.

Lemma lor_range a b n : 0 <= n -> 0 <= a < 2 ^ n -> 0 <= b < 2 ^ n -> 0 <= Z.lor a b < 2 ^ n.
Proof.
  intros Hn Ha Hb. assert (H0 : 0 <= Z.lor a b) by (apply Z.lor_nonneg; lia). split; [done|].
  replace (Z.lor a b) with (Z.lor a b mod 2 ^ n); [apply Z.mod_pos_bound; lia|].
  rewrite <- Z.land_ones, Z.land_lor_distr_l, !Z.land_ones, !Z.mod_small by lia. done.
Qed.

Lemma be16_succeeds data i : 0 <= i -> i + 1 < zlen data -> succeeds (be16 data i) (fun n => 0 <= n < 65536).
Proof.
  intros. unfold be16. eapply succeeds_bind; [by apply at_succeeds; lia|intros a Ha].
  eapply succeeds_bind; [by apply at_succeeds; lia|intros b Hb]. cbn.
  rewrite Z.shiftl_mul_pow2 by lia. change (2 ^ 8) with 256.
  apply (lor_range (a * 256) b 16); change (2 ^ 16) with 65536.
  all: cbv beta in *; lia.
Qed.

Lemma le32_succeeds data i : 0 <= i -> i + 3 < zlen data -> succeeds (le32 data i) (fun _ => True).
Proof.
  intros. unfold le32. do 4 (eapply succeeds_bind; [by apply at_succeeds; lia|intros ? _]). done.
Qed.

Lemma goslice_succeeds {A} a b (l : list A) :
  0 <= a -> a <= b -> b <= zlen l -> succeeds (goslice a b l) (fun s => s = subslice a b l).
Proof. intros. by rewrite goslice_ok. Qed.

Ltac walk_prim := first
  [ apply be16_succeeds; lia
  | apply at_succeeds; lia
  | apply le32_succeeds; lia
  | apply goslice_succeeds; lia ].

(** Follows the branches of a parser, with the guards as facts for the indices. *)
Ltac walk := repeat (cbv zeta; match goal with
  | |- succeeds (if ?c then _ else _) _ => let E := fresh "E" in destruct c eqn:E
  | |- succeeds (rbind (if ?c then _ else _) _) _ => let E := fresh "E" in destruct c eqn:E
  | |- succeeds (rbind (Ok ?a) ?k) ?Q => change (succeeds (k a) Q); cbv beta
  | |- succeeds (rbind _ _) _ => eapply succeeds_bind; [solve [walk_prim]|intros; cbv beta in *]
  end; rewrite ?Z.ltb_lt, ?Z.ltb_ge, ?Z.leb_le, ?Z.leb_gt, ?Z.eqb_eq, ?Z.eqb_neq, ?orb_false_iff in *;
  try match goal with H : true = false /\ _ |- _ => by destruct H end).

(** A parser asks for more only when more can come. *)
Definition patient {A} (complete : bool) (r : A * tcpClassifierDecision) : Prop :=
  r.2 = tcpClassifierNeedMore -> complete = false.

Lemma patient_short {A} (a : A) complete : patient complete (a, short complete).
Proof. unfold patient, short. by destruct complete. Qed.
Lemma patient_no {A} (a : A) complete : patient complete (a, tcpClassifierNoMatch).
Proof. done. Qed.
Lemma patient_yes {A} (a : A) complete : patient complete (a, tcpClassifierMatched).
Proof. done. Qed.

Create HintDb parser.
#[export] Hint Resolve succeeds_ok patient_short patient_no patient_yes : parser.

Ltac branches := repeat match goal with |- context [if ?c then _ else _] => destruct c end; auto with parser.

Lemma sni_names_ok fuel data complete offset listEnd :
  0 <= offset -> listEnd <= zlen data -> listEnd - offset <= Z.of_nat fuel ->
  succeeds (sni_names fuel data complete offset listEnd) (patient complete).
Proof.
  revert offset. induction fuel as [|fuel IH]; intros offset H0 Hl Hf; cbn [sni_names]; walk; auto with parser.
  - lia.
  - apply IH; lia.
Qed.

Lemma sni_extensions_ok fuel data complete offset end_ :
  0 <= offset -> end_ <= zlen data -> end_ - offset <= Z.of_nat fuel ->
  succeeds (sni_extensions fuel data complete offset end_) (patient complete).
Proof.
  revert offset. induction fuel as [|fuel IH]; intros offset H0 Hl Hf; cbn [sni_extensions]; walk; auto with parser.
  - lia.
  - apply IH; lia.
  - apply sni_names_ok; unfold zlen in *; lia.
Qed.

Lemma parseTLSClientHello_ok data complete :
  succeeds (parseTLSClientHello data complete) (patient complete).
Proof.
  pose proof (zlen_nonneg data). unfold parseTLSClientHello. walk; auto with parser.
  apply sni_extensions_ok; unfold zlen in *; lia.
Qed.

Lemma parseSNIFromTLS_ok data complete : succeeds (parseSNIFromTLS data complete) (patient complete).
Proof.
  unfold parseSNIFromTLS. eapply succeeds_bind; [apply parseTLSClientHello_ok|].
  by intros [[name|] []] Hp.
Qed.

Lemma bytes_Index_bound data sep i : bytes_Index data sep = Some i -> 0 <= i /\ i + zlen sep <= zlen data.
Proof.
  revert i. induction data as [|b data IH]; intros i; cbn [bytes_Index]; unfold bytes_HasPrefix;
    case_bool_decide as Hp; intros Heq; simplify_eq.
  - apply prefix_length in Hp. unfold zlen. lia.
  - apply prefix_length in Hp. unfold zlen. lia.
  - apply fmap_Some in Heq as (j & Hj & ->). apply IH in Hj. rewrite zlen_cons. lia.
Qed.

Lemma findHTTPHeaderTerminator_bound data : findHTTPHeaderTerminator data <= zlen data.
Proof.
  unfold findHTTPHeaderTerminator. pose proof (zlen_nonneg data).
  destruct (bytes_Index data [x0d; x0a; x0d; x0a]) as [i|] eqn:E.
  { apply bytes_Index_bound in E. change (zlen [x0d; x0a; x0d; x0a]) with 4 in E. lia. }
  destruct (bytes_Index data [x0a; x0a]) as [i|] eqn:E'; [|lia].
  apply bytes_Index_bound in E'. change (zlen [x0a; x0a]) with 2 in E'. lia.
Qed.

Lemma parseHTTPRequest_ok `{HTTPReader} data complete limit :
  succeeds (parseHTTPRequest data complete limit)
    (fun r => patient complete r /\ (r.2 = tcpClassifierMatched -> is_Some r.1)).
Proof.
  pose proof (findHTTPHeaderTerminator_bound data). unfold parseHTTPRequest, short, patient.
  walk; try (by destruct complete); try (destruct (negb complete && _) eqn:Ec; by destruct complete).
  destruct (ReadRequest_host a); cbn; naive_solver.
Qed.

Lemma str_nonempty b : (zlen b =? 0) = false -> str b <> "".
Proof. by destruct b. Qed.

Lemma parseSSH_ok data complete limit :
  let r := parseSSHBannerClassification data complete limit in
  patient complete r /\ (r.2 = tcpClassifierMatched -> r.1 <> "").
Proof.
  unfold parseSSHBannerClassification, short, patient, cutSSHLine. cbv zeta.
  repeat match goal with
  | |- context [if ?c then _ else _] => destruct c eqn:?; cbn [fst snd]; try done
  | |- context [match bytes_Cut ?d ?b with _ => _ end] => destruct (bytes_Cut d b) as [[??]|]; cbn [fst snd]; try done
  end.
  all: split; [try done; by destruct complete|try done; intros _; by apply str_nonempty].
Qed.

Lemma wait_patient complete b :
  succeeds (Ok (if b && negb complete then tcpClassifierNeedMore else tcpClassifierNoMatch))
    (fun d => patient complete ((), d)).
Proof. unfold patient. cbn. by destruct b, complete. Qed.

Lemma looksLikeSOCKS5Greeting_ok data complete :
  succeeds (looksLikeSOCKS5Greeting data complete) (fun d => patient complete ((), d)).
Proof. pose proof (zlen_nonneg data). unfold looksLikeSOCKS5Greeting. walk; auto with parser. Qed.

Lemma looksLikeAMQPProtocolHeader_ok data complete :
  succeeds (looksLikeAMQPProtocolHeader data complete) (fun d => patient complete ((), d)).
Proof.
  unfold looksLikeAMQPProtocolHeader. change (zlen (raw "AMQP")) with 4.
  cbv zeta. destruct (zlen data <? 4) eqn:E; [apply wait_patient|]. walk; auto with parser.
Qed.

Lemma looksLikeRedisRESPArray_ok data complete :
  succeeds (looksLikeRedisRESPArray data complete) (fun d => patient complete ((), d)).
Proof.
  unfold looksLikeRedisRESPArray. destruct data as [|b data]; [apply (patient_short ())|].
  set (all := b :: data). destruct (zlen all =? 0); [auto with parser|].
  change (at_ all 0) with (Ok (E := string) (bz b)). walk; auto with parser.
  destruct (bytes_Index all [x0d; x0a]) as [i|] eqn:Ei; [|auto with parser].
  pose proof (bytes_Index_bound _ _ _ Ei) as [Hi Hb]. change (zlen [x0d; x0a]) with 2 in Hb.
  assert (i <> 0).
  { intros ->. subst all. cbn [bytes_Index] in Ei. unfold bytes_HasPrefix in Ei.
    case_bool_decide as Hp; [by destruct Hp as [? [= -> ->]]|].
    apply fmap_Some in Ei as (j & Hj & ?). apply bytes_Index_bound in Hj. lia. }
  walk; branches.
Qed.

Lemma mqtt_length_bound data i value multiplier v c :
  mqtt_length data i value multiplier = Some (v, c) ->
  Z.of_nat i < c /\ c <= Z.of_nat i + zlen data.
Proof.
  revert i value multiplier. induction data as [|b data IH]; intros i value mul; cbn [mqtt_length]; [done|].
  destruct (4 <=? i)%nat; [done|]. cbv zeta. rewrite zlen_cons. pose proof (zlen_nonneg data).
  destruct (_ =? 0); [intros [= <- <-]; lia|]. intros Hm%IH. lia.
Qed.

Lemma looksLikeMQTTConnect_ok data complete :
  succeeds (looksLikeMQTTConnect data complete) (fun d => patient complete ((), d)).
Proof.
  pose proof (zlen_nonneg data). unfold looksLikeMQTTConnect. walk; auto with parser.
  subst. unfold parseMQTTRemainingLength.
  destruct (mqtt_length _ 0 0 1) as [[v c]|] eqn:Em; [|apply wait_patient].
  apply mqtt_length_bound in Em. rewrite zlen_subslice in Em by lia. walk; auto with parser.
  all: branches.
Qed.

Lemma looksLikeMongoMessage_ok data complete :
  succeeds (looksLikeMongoMessage data complete) (fun d => patient complete ((), d)).
Proof.
  unfold looksLikeMongoMessage. walk; auto with parser.
  all: branches.
Qed.

Lemma dns_labels_ok fuel message complete pos labels :
  0 <= pos <= zlen message -> zlen message - pos < Z.of_nat fuel ->
  succeeds (dns_labels fuel message complete pos labels)
    (fun r => match r with inr d => patient complete ((), d) | inl _ => True end).
Proof.
  revert pos labels. induction fuel as [|fuel IH]; intros pos labels H0 Hf; cbn [dns_labels]; [lia|].
  walk; cbn [succeeds]; try done; [by apply (patient_short ())..|]. apply IH; lia.
Qed.

Lemma parseDNSQueryHost_ok `{UnicodeCase} data complete :
  succeeds (parseDNSQueryHost data complete) (patient complete).
Proof.
  unfold parseDNSQueryHost. walk; auto with parser.
  assert (Hz : zlen a0 = zlen data - 2) by (subst; rewrite zlen_subslice; lia). walk; auto with parser.
  eapply succeeds_bind; [apply dns_labels_ok; unfold zlen in *; lia|].
  intros [[labels pos]|d] Hd; [walk; branches|exact Hd].
Qed.

(** ** The classifiers keep what was read *)

(** A result is about the flow, and its prefix is what was read. *)
Definition keeps (ctx : tcpClassifyContext) (r : classificationResult) : Prop :=
  default [] (cr_Prefix r) = cx_Peeked ctx /\
  tc_Transport (cr_Classification r) = "tcp" /\
  tc_DestIP (cr_Classification r) = cx_OrigIP ctx /\
  tc_DestPort (cr_Classification r) = cx_OrigPort ctx /\
  tc_Host (cr_Classification r) = cr_Host r.

(** A classifier that gives a result when it matches, and asks for more only when more
    can come. *)
Definition honest (classifier : tcpClassifier) : Prop := forall ctx,
  succeeds (classifier ctx) (fun v => match v with
    | (Some r, tcpClassifierMatched) => keeps ctx r
    | (None, tcpClassifierNeedMore) => IsComplete ctx = false
    | (None, tcpClassifierNoMatch) => True
    | _ => False
    end).

Lemma recognised_honest protocol parse :
  (forall data complete, succeeds (parse data complete) (fun d => patient complete ((), d))) ->
  honest (fun ctx => let? d := parse (Buffered ctx) (IsComplete ctx) in Ok (recognised protocol ctx d)).
Proof.
  intros Hp ctx. eapply succeeds_bind; [apply Hp|]. intros [] Hd; cbn; [done|by apply Hd|done].
Qed.

Lemma recognised_host_keeps protocol missing host ctx :
  match recognised_host protocol missing host ctx with
  | (Some r, tcpClassifierMatched) => keeps ctx r
  | _ => False
  end.
Proof. unfold recognised_host, keeps. destruct (decide (host = "")) as [->|]; cbn; done. Qed.

Lemma defaultTCPClassifiers_honest `{UnicodeCase, HTTPReader} :
  Forall honest (take 9 defaultTCPClassifiers).
Proof.
  repeat constructor.
  - intros ctx. eapply succeeds_bind; [apply parseHTTPRequest_ok|].
    intros [[host|] []] [Hp Hm]; cbn in *; try done; try (by apply Hp).
    + apply recognised_host_keeps.
    + by destruct (Hm eq_refl).
  - intros ctx. eapply succeeds_bind; [apply parseSNIFromTLS_ok|].
    intros [name []] Hp; cbn in *; [done|by apply Hp|apply recognised_host_keeps].
  - apply (recognised_honest _ _ looksLikeAMQPProtocolHeader_ok).
  - intros ctx. eapply succeeds_bind; [apply parseDNSQueryHost_ok|].
    by intros [name []] Hp; cbn in *; [|apply Hp|].
  - apply (recognised_honest _ _ looksLikeMQTTConnect_ok).
  - apply (recognised_honest _ _ looksLikeMongoMessage_ok).
  - apply (recognised_honest _ _ looksLikeRedisRESPArray_ok).
  - apply (recognised_honest _ _ looksLikeSOCKS5Greeting_ok).
  - intros ctx. unfold sshBannerClassifier.
    pose proof (parseSSH_ok (Buffered ctx) (IsComplete ctx) (headerLimit ctx)) as [Hp Hm].
    destruct (parseSSHBannerClassification _ _ _) as [banner []]; cbn in *; [done|by apply Hp|].
    rewrite decide_False by (by apply Hm). done.
Qed.

Lemma tcpUnknownClassifier_ok ctx :
  (cx_Peeked ctx = [] /\ IsComplete ctx = false /\ tcpUnknownClassifier ctx = Ok (None, tcpClassifierNeedMore)) \/
  (exists r, tcpUnknownClassifier ctx = Ok (Some r, tcpClassifierMatched) /\ keeps ctx r /\
             tc_Protocol (cr_Classification r) = "unknown").
Proof.
  unfold tcpUnknownClassifier, keeps. cbv zeta. destruct (cx_Peeked ctx) as [|b l] eqn:Eb.
  - change (zlen (A := byte) [] =? 0) with true. destruct (IsComplete ctx) eqn:Ec; cbn [andb negb]; [|auto].
    right. eexists. split; [done|]. done.
  - replace (zlen (b :: l) =? 0) with false by (symmetry; rewrite zlen_cons, Z.eqb_neq; pose proof (zlen_nonneg l); lia).
    right. eexists. split; [done|]. by cbn.
Qed.

(** One pass of the loop returns a result, or at least one classifier waits. *)
Lemma classify_pass_ok pre ctx needMore fallback :
  Forall honest pre -> (needMore = true -> IsComplete ctx = false) ->
  (exists r, classify_pass (pre ++ [tcpUnknownClassifier]) ctx needMore fallback = Ok (inl (Some r)) /\ keeps ctx r) \/
  (exists fb, classify_pass (pre ++ [tcpUnknownClassifier]) ctx needMore fallback = Ok (inr (true, fb)) /\
              IsComplete ctx = false).
Proof.
  intros Hpre. revert needMore fallback. induction Hpre as [|c pre Hc Hpre IH]; intros needMore fallback Hn.
  - cbn [app classify_pass]. destruct (tcpUnknownClassifier_ok ctx) as [(_ & Hi & ->)|(r & -> & Hk & Hu)]; cbn.
    + eauto.
    + rewrite Hu. destruct needMore; [rewrite (Hn eq_refl); cbn; eauto|cbn; eauto].
  - cbn [app classify_pass]. specialize (Hc ctx). apply succeeds_eq in Hc as ([[r|] []] & -> & Hv); try done; cbn [rbind].
    + destruct (bool_decide _ && needMore && negb (IsComplete ctx)) eqn:Eb; [by apply IH|eauto].
    + by apply IH.
    + by apply IH.
Qed.

(** ** The loop *)

(** Everything a connection delivers. *)
Definition received (c : Conn) : bytes := concat (ar_data <$> c).

(** A read that delivers nothing reports an error, as those of a TCP connection do. *)
Definition reads_progress (c : Conn) : Prop := Forall (fun a => ar_data a <> [] \/ ar_err a <> None) c.

Lemma Conn_Read_ok n c got err c' :
  0 < n -> reads_progress c -> Conn_Read n c = (got, err, c') ->
  received c = got ++ received c' /\ zlen got <= n /\ reads_progress c' /\ (got <> [] \/ err <> None).
Proof.
  intros Hn Hc. unfold Conn_Read. destruct Hc as [|a c Ha Hc].
  - intros [= <- <- <-]. repeat split; [unfold zlen; cbn; lia|constructor|auto].
  - destruct (Z.leb_spec (zlen (ar_data a)) n) as [Hl|Hl]; intros [= <- <- <-]; unfold received; cbn.
    + done.
    + rewrite app_assoc, take_drop. repeat split.
      * unfold zlen in *. rewrite length_take. lia.
      * constructor; [left; cbn|done]. intros E%(f_equal length). rewrite length_drop in E. unfold zlen in Hl. cbn in E. lia.
      * left. intros E%(f_equal length). rewrite length_take in E. unfold zlen in *. cbn in E. lia.
Qed.

(** The bytes read and those still to come are the stream; at most the limit is read. *)
Record reading (stream : bytes) (ctx : tcpClassifyContext) : Prop := {
  rd_stream : cx_Peeked ctx ++ received (cx_Conn ctx) = stream;
  rd_limit : zlen (cx_Peeked ctx) <= headerLimit ctx;
  rd_progress : reads_progress (cx_Conn ctx)
}.

(** The number of passes left. *)
Definition passes (ctx : tcpClassifyContext) : nat :=
  if IsComplete ctx then 0 else S (Z.to_nat (headerLimit ctx - zlen (cx_Peeked ctx))).

(** The context after a read that got [got]. *)
Definition after_read (ctx : tcpClassifyContext) conn got readErr done timedOut : tcpClassifyContext :=
  mkCtx (cx_OrigIP ctx) (cx_OrigPort ctx) (cx_HeaderLimit ctx) conn (cx_Peeked ctx ++ got) readErr done
        ((headerLimit ctx <=? zlen (cx_Peeked ctx ++ got)) || cx_LimitReached ctx) timedOut.

(** A step of reading: nothing is lost, and the passes left decrease. *)
Definition read_step (stream : bytes) (ctx ctx' : tcpClassifyContext) (n : Z) : Prop :=
  reading stream ctx' /\ (passes ctx' < passes ctx)%nat /\ (0 < n \/ IsComplete ctx' = true) /\
  cx_OrigIP ctx' = cx_OrigIP ctx /\ cx_OrigPort ctx' = cx_OrigPort ctx /\ headerLimit ctx' = headerLimit ctx.

Lemma after_read_ok stream ctx conn got readErr done timedOut :
  reading stream ctx -> IsComplete ctx = false -> zlen got <= headerLimit ctx - zlen (cx_Peeked ctx) ->
  received (cx_Conn ctx) = got ++ received conn -> reads_progress conn -> (done = true \/ got <> []) ->
  read_step stream ctx (after_read ctx conn got readErr done timedOut) (zlen got).
Proof.
  intros [Hs Hl _] Hi Hg Hrec Hp Hd. set (ctx1 := after_read _ _ _ _ _ _).
  assert (Hh : headerLimit ctx1 = headerLimit ctx) by reflexivity.
  assert (Hgot : got <> [] -> 0 < zlen got).
  { intros Hne. pose proof (zlen_nonneg got). rewrite <- (zlen_nil_iff got) in Hne. lia. }
  unfold read_step. split_and!; try reflexivity.
  - constructor; [|rewrite Hh|]; cbn [ctx1 after_read cx_Peeked cx_Conn]; [|rewrite zlen_app; lia|exact Hp].
    by rewrite <- app_assoc, <- Hrec.
  - unfold passes. rewrite Hi, Hh. destruct (IsComplete ctx1) eqn:Ec; [lia|].
    destruct Hd as [->|Hne%Hgot]; [by cbn in Ec|]. cbn [ctx1 after_read cx_Peeked]. rewrite zlen_app. lia.
  - destruct Hd as [->|Hne]; [by right|left; auto].
Qed.

Lemma readMore_ok stream ctx n err ctx' :
  reading stream ctx -> IsComplete ctx = false -> readMore ctx = (n, err, ctx') -> read_step stream ctx ctx' n.
Proof.
  intros Hr Hi. unfold readMore. rewrite Hi. pose proof Hi as [Hd Hm]%orb_false_iff.
  destruct (Z.leb_spec (headerLimit ctx - zlen (cx_Peeked ctx)) 0) as [|Hn].
  { intros [= <- <- <-]. destruct Hr. unfold read_step. split_and!; try done; [|auto].
    unfold passes at 2. rewrite Hi. cbn. lia. }
  destruct (Conn_Read _ _) as [[got e] conn] eqn:Er.
  apply Conn_Read_ok in Er as (Hrec & Hg & Hp & Hprog); [|lia|by destruct Hr].
  destruct e as [[| |msg]|]; intros [= <- <- <-]; apply after_read_ok; auto. right. by destruct Hprog.
Qed.

Lemma classify_loop_ok pre stream fuel ctx :
  Forall honest pre -> reading stream ctx -> (passes ctx < fuel)%nat ->
  exists r ctx', classify_loop fuel (pre ++ [tcpUnknownClassifier]) ctx = (Ok (Some r), ctx') /\
    keeps ctx' r /\ reading stream ctx' /\
    cx_OrigIP ctx' = cx_OrigIP ctx /\ cx_OrigPort ctx' = cx_OrigPort ctx /\ headerLimit ctx' = headerLimit ctx.
Proof.
  intros Hpre. revert ctx. induction fuel as [|fuel IH]; intros ctx Hr Hf; [lia|]. cbn [classify_loop].
  destruct (classify_pass_ok pre ctx false None Hpre ltac:(done)) as [(r & -> & Hk)|(fb & -> & Hi)].
  { by exists r, ctx. }
  rewrite Hi. cbn [negb orb]. destruct (readMore ctx) as [[n err] ctx1] eqn:Em.
  destruct (readMore_ok _ _ _ _ _ Hr Hi Em) as (Hr1 & Hp1 & Hn1 & <- & <- & <-).
  destruct (IH ctx1 Hr1 ltac:(lia)) as (r & ctx2 & Hc & Hrest).
  exists r, ctx2. split; [|exact Hrest].
  assert (Hgo : (if 0 <? n then classify_loop fuel (pre ++ [tcpUnknownClassifier]) ctx1 else
    if bool_decide (err <> None) || IsComplete ctx1 then classify_loop fuel (pre ++ [tcpUnknownClassifier]) ctx1
    else (Err "tcp classifier could not make progress", ctx1)) = (Ok (Some r), ctx2)).
  { destruct Hn1 as [Hn%Z.ltb_lt| ->]; [by rewrite Hn|]. rewrite orb_true_r. by destruct (0 <? n). }
  destruct fb; exact Hgo.
Qed.

Lemma classify_ok `{UnicodeCase, HTTPReader} ip port limit conn :
  reads_progress conn ->
  exists r ctx, classifyTCP defaultTCPClassifiers (newTCPClassifyContext ip port limit conn) = (Ok (Some r), ctx) /\
    keeps ctx r /\ reading (received conn) ctx /\ cx_OrigIP ctx = ip /\ cx_OrigPort ctx = port /\
    headerLimit ctx = (if limit <=? 0 then defaultTCPHeaderLimit else limit).
Proof.
  intros Hp. set (ctx0 := newTCPClassifyContext ip port limit conn).
  assert (Hl : 0 < headerLimit ctx0) by (unfold headerLimit; cbn; destruct (Z.leb_spec limit 0); unfold defaultTCPHeaderLimit; lia).
  assert (Hr : reading (received conn) ctx0) by (constructor; [reflexivity|change (0 <= headerLimit ctx0); lia|exact Hp]).
  destruct (classify_loop_ok _ _ (Z.to_nat (headerLimit ctx0) + 2) ctx0 defaultTCPClassifiers_honest Hr)
    as (r & ctx & Hc & Hrest); [|exists r, ctx; split; [exact Hc|exact Hrest]].
  change (S (Z.to_nat (headerLimit ctx0 - 0)) < Z.to_nat (headerLimit ctx0) + 2)%nat. lia.
Qed.

(** C26: Whatever a sandbox sends on a connection, and however it is cut into segments,
    [classifyTCP] ends with a classification: no parser indexes outside the data, the
    loop does not exceed its bound and never gives up.  The classification is about the
    flow's original destination; the prefix to be replayed upstream followed by what is
    still unread is exactly the stream; and no more than the header limit is buffered. *)
Theorem classifyTCP_total `{UnicodeCase, HTTPReader} ip port limit conn :
  reads_progress conn ->
  exists r ctx, classifyTCP defaultTCPClassifiers (newTCPClassifyContext ip port limit conn) = (Ok (Some r), ctx) /\
    default [] (cr_Prefix r) ++ received (cx_Conn ctx) = received conn /\
    zlen (default [] (cr_Prefix r)) <= (if limit <=? 0 then defaultTCPHeaderLimit else limit) /\
    tc_Transport (cr_Classification r) = "tcp" /\ tc_DestIP (cr_Classification r) = ip /\
    tc_DestPort (cr_Classification r) = port /\ tc_Host (cr_Classification r) = cr_Host r.
Proof.
  intros Hp. destruct (classify_ok ip port limit conn Hp) as (r & ctx & Hc & (Hpre & Ht & Hi & Ho & Hh) & [Hs Hb _] & Hip & Hpo & Hlim).
  exists r, ctx. rewrite Hpre, Hi, Ho, Hip, Hpo. rewrite Hlim in Hb. by split_and!.
Qed.

#[local] Definition refuse_http : HTTPReader := {| ReadRequest_host := fun _ => None |}.

Lemma classifyTCP_total_witness :
  let conn := [mkArrival (raw "PING") None; mkArrival [] (Some ReadEOF)] in
  reads_progress conn /\
  exists r ctx, classifyTCP (defaultTCPClassifiers (H := no_unicode) (H0 := refuse_http))
                  (newTCPClassifyContext [10; 0; 0; 1] 6379 0 conn) = (Ok (Some r), ctx) /\
    default [] (cr_Prefix r) ++ received (cx_Conn ctx) = raw "PING".
Proof.
  cbv zeta. split; [repeat (apply List.Forall_cons; [(by left) || (by right)|]); constructor|].
  destruct (classifyTCP_total (H := no_unicode) (H0 := refuse_http) [10; 0; 0; 1] 6379 0
              [mkArrival (raw "PING") None; mkArrival [] (Some ReadEOF)]) as (r & ctx & Hc & Hs & _).
  { repeat (apply List.Forall_cons; [(by left) || (by right)|]); constructor. }
  exists r, ctx. split; [exact Hc|exact Hs].
Defined.
