(* ===== verification/ClassifierTls.v ===== *)
(** * netd: TLS server names are found in any segmentation

    An encoder for TLS client hellos as RFC 8446 lays them out, and the theorems about
    it: the parser returns the server name of an encoded hello, and [classifyTCP] tells a
    connection that starts with one as TLS with that name, however its bytes are cut
    into segments.  The version bytes of the hello are what keeps the other parsers from
    claiming an unfinished one. *)

From stdpp Require Import base gmap strings list fin_maps numbers.
From Stdlib Require Import Strings.Byte Strings.Ascii.
From S2P Require Import Prelude GoStd GoNet Policy PolicyEval PolicySpec Classifier ClassifierSpec.

Local Open Scope Z_scope.

(** ** The encoding *)

Definition u8 (n : Z) : byte := default x00 (Byte.of_N (Z.to_N n)).
Definition u16be (n : Z) : bytes := [u8 (n / 256); u8 (n mod 256)].

(** A length-prefixed vector, with one or two bytes of length. *)
Definition vec8 (l : bytes) : bytes := u8 (zlen l) :: l.
Definition vec16 (l : bytes) : bytes := u16be (zlen l) ++ l.

Definition extension (e : Z * bytes) : bytes := u16be e.1 ++ vec16 e.2.

Record hello := mkHello {
  h_recordMinor : byte; h_version : byte; h_random : bytes; h_session : bytes; h_ciphers : bytes;
  h_compression : bytes; h_before : list (Z * bytes); h_name : bytes; h_otherNames : bytes; h_after : bytes
}.

Definition server_name (h : hello) : bytes := vec16 (x00 :: vec16 (h_name h) ++ h_otherNames h).

Definition extensions (h : hello) : bytes :=
  concat (extension <$> h_before h) ++ extension (0, server_name h) ++ h_after h.

Definition hello_body (h : hello) : bytes :=
  x03 :: h_version h :: h_random h ++ vec8 (h_session h) ++ vec16 (h_ciphers h) ++
  vec8 (h_compression h) ++ vec16 (extensions h).

Definition handshake (h : hello) : bytes :=
  x01 :: u8 (zlen (hello_body h) / 65536) :: u16be (zlen (hello_body h) mod 65536) ++ hello_body h.

(** The TLS record with the client hello in it. *)
Definition client_hello (h : hello) : bytes := [x16; x03; h_recordMinor h] ++ vec16 (handshake h).

(** The lengths fit their fields, and the server name extension is the first of its type. *)
Record hello_ok (h : hello) : Prop := {
  ho_random : zlen (h_random h) = 32;
  ho_session : zlen (h_session h) < 256;
  ho_compression : zlen (h_compression h) < 256;
  ho_before : Forall (fun e => 0 < e.1 < 65536) (h_before h);
  ho_handshake : zlen (handshake h) < 65536
}.

(** ** Reading an encoding *)

Lemma bz_u8 n : 0 <= n < 256 -> bz (u8 n) = n.
Proof.
  intros. unfold u8, bz. destruct (Byte.of_N (Z.to_N n)) as [b|] eqn:E.
  - cbn. apply Byte.to_of_N in E as ->. lia.
  - apply Byte.of_N_None_iff in E. lia.
Qed.

(** From [off] on, [data] is [rest]. *)
Definition upto (data : bytes) (off : Z) (rest : bytes) : Prop := exists pre, data = pre ++ rest /\ zlen pre = off.

Lemma upto_skip data off l rest : upto data off (l ++ rest) -> upto data (off + zlen l) rest.
Proof. intros (pre & -> & <-). exists (pre ++ l). by rewrite <- app_assoc, zlen_app. Qed.

Lemma upto_byte data off b rest : upto data off (b :: rest) -> upto data (off + 1) rest.
Proof. apply (upto_skip data off [b] rest). Qed.

Lemma upto_len data off rest : upto data off rest -> zlen data = off + zlen rest /\ 0 <= off.
Proof. intros (pre & -> & <-). rewrite zlen_app. pose proof (zlen_nonneg pre). lia. Qed.

Lemma upto_at data off b rest : upto data off (b :: rest) -> at_ data off = Ok (bz b).
Proof.
  intros (pre & -> & <-). unfold at_, zlen. destruct (Z.leb_spec 0 (Z.of_nat (length pre))); [|lia].
  by rewrite Nat2Z.id, lookup_app_r, Nat.sub_diag by lia.
Qed.

Lemma lor_bytes n : Z.lor (Z.shiftl (n / 256) 8) (n mod 256) = n.
Proof.
  change 256 with (2 ^ 8). apply Z.bits_inj'. intros i Hi. rewrite Z.lor_spec.
  destruct (Z.lt_ge_cases i 8).
  - rewrite Z.shiftl_spec_low, Z.mod_pow2_bits_low by lia. done.
  - rewrite Z.mod_pow2_bits_high, Z.shiftl_spec, Z.div_pow2_bits, orb_false_r by lia. f_equal. lia.
Qed.

Lemma upto_be16 data off n rest :
  0 <= n < 65536 -> upto data off (u16be n ++ rest) -> be16 data off = Ok n /\ upto data (off + 2) rest.
Proof.
  intros Hn Hu. split; [|by apply upto_skip in Hu]. unfold be16, u16be in *. cbn [app] in Hu.
  rewrite (upto_at _ _ _ _ Hu). apply upto_byte in Hu. rewrite (upto_at _ _ _ _ Hu). cbn [rbind].
  pose proof (Z.mod_pos_bound n 256). pose proof (Z.div_mod n 256).
  assert (0 <= n / 256 < 256) by (split; [apply Z.div_pos; lia|apply Z.div_lt_upper_bound; lia]).
  rewrite !bz_u8 by lia. f_equal. apply lor_bytes.
Qed.

Lemma upto_slice data off l rest :
  upto data off (l ++ rest) -> goslice (E := string) off (off + zlen l) data = Ok l.
Proof.
  intros (pre & -> & <-). pose proof (zlen_nonneg pre). pose proof (zlen_nonneg l). pose proof (zlen_nonneg rest).
  rewrite goslice_ok by (rewrite ?zlen_app; lia). rewrite subslice_app_r, subslice_app_l by lia.
  replace (zlen pre - zlen pre) with 0 by lia. replace (zlen pre + zlen l - zlen pre) with (zlen l) by lia.
  by rewrite subslice_all.
Qed.

Lemma zlen_vec16 l : zlen (vec16 l) = 2 + zlen l.
Proof. unfold vec16, u16be. rewrite zlen_app. done. Qed.
Lemma zlen_vec8 l : zlen (vec8 l) = 1 + zlen l.
Proof. unfold vec8. rewrite zlen_cons. lia. Qed.
Lemma zlen_extension e : zlen (extension e) = 4 + zlen e.2.
Proof. unfold extension, u16be. rewrite zlen_app, zlen_vec16. unfold zlen at 1. cbn [length]. lia. Qed.

(** ** The parser returns the name of an encoded hello *)

Lemma sni_names_found data complete off name others rest :
  zlen name < 65536 -> upto data off (x00 :: vec16 name ++ others ++ rest) ->
  sni_names (length data) data complete off (off + 3 + zlen name + zlen others) = Ok (Some (str name), tcpClassifierMatched).
Proof.
  intros Hn Hu. pose proof (upto_len _ _ _ Hu) as [Hl H0].
  pose proof (zlen_nonneg name). pose proof (zlen_nonneg others). pose proof (zlen_nonneg rest).
  destruct data as [|b data]; [rewrite zlen_cons in Hl; unfold zlen in Hl; cbn in Hl; lia|].
  cbn [length sni_names]. destruct (Z.leb_spec (off + 3) (off + 3 + zlen name + zlen others)); [|lia].
  rewrite (upto_at _ _ _ _ Hu). apply upto_byte in Hu. unfold vec16 in Hu. rewrite <- app_assoc in Hu.
  destruct (upto_be16 _ _ (zlen name) _ ltac:(lia) Hu) as [-> Hu']. cbn [rbind]. cbv zeta.
  replace (off + 1 + 2) with (off + 3) in Hu' by lia.
  destruct (Z.ltb_spec (off + 3 + zlen name + zlen others) (off + 3 + zlen name)); [lia|].
  change (bz x00 =? 0) with true. cbn [rbind]. by rewrite (upto_slice _ _ _ _ Hu').
Qed.

(** An extension of another type is skipped. *)
Lemma sni_extension_skipped fuel data complete off end_ e rest :
  0 < e.1 < 65536 -> zlen e.2 < 65536 -> off + zlen (extension e) <= end_ -> upto data off (extension e ++ rest) ->
  sni_extensions (S fuel) data complete off end_ = sni_extensions fuel data complete (off + zlen (extension e)) end_.
Proof.
  intros Ht Hs He Hu. rewrite zlen_extension in *. pose proof (zlen_nonneg e.2).
  cbn [sni_extensions]. destruct (Z.leb_spec (off + 4) end_); [|lia].
  unfold extension, vec16 in Hu. rewrite <- !app_assoc in Hu.
  destruct (upto_be16 _ _ e.1 _ ltac:(lia) Hu) as [-> Hu1].
  destruct (upto_be16 _ _ (zlen e.2) _ ltac:(lia) Hu1) as [-> _]. cbn [rbind]. cbv zeta.
  destruct (Z.ltb_spec end_ (off + 4 + zlen e.2)); [lia|]. destruct (Z.eqb_spec e.1 0); [lia|]. cbn [negb].
  by replace (off + 4 + zlen e.2) with (off + (4 + zlen e.2)) by lia.
Qed.

Lemma sni_found fuel data complete off end' h rest :
  zlen (server_name h) < 65536 -> off + zlen (extension (0, server_name h)) <= end' ->
  upto data off (extension (0, server_name h) ++ rest) ->
  sni_extensions (S fuel) data complete off end' = Ok (Some (str (h_name h)), tcpClassifierMatched).
Proof.
  intros Hs He Hu. rewrite zlen_extension in He. cbn [snd] in He.
  pose proof (zlen_nonneg (h_name h)). pose proof (zlen_nonneg (h_otherNames h)).
  assert (Hz : zlen (server_name h) = 2 + (3 + zlen (h_name h) + zlen (h_otherNames h))).
  { unfold server_name. rewrite zlen_vec16, zlen_cons, zlen_app, zlen_vec16. lia. }
  cbn [sni_extensions]. destruct (Z.leb_spec (off + 4) end'); [|lia].
  unfold extension in Hu. cbn [fst snd] in Hu. unfold vec16 in Hu at 1. rewrite <- !app_assoc in Hu.
  destruct (upto_be16 _ _ 0 _ ltac:(lia) Hu) as [-> Hu1].
  destruct (upto_be16 _ _ (zlen (server_name h)) _ ltac:(lia) Hu1) as [-> Hu2]. cbn [rbind]. cbv zeta.
  destruct (Z.ltb_spec end' (off + 4 + zlen (server_name h))); [lia|]. cbn [negb Z.eqb].
  destruct (Z.ltb_spec end' (off + 4 + 2)); [lia|].
  unfold server_name in Hu2. unfold vec16 in Hu2 at 1. rewrite <- app_assoc in Hu2. cbn [app] in Hu2. rewrite <- app_assoc in Hu2.
  replace (off + 2 + 2) with (off + 4) in Hu2 by lia.
  set (names := x00 :: _) in Hu2.
  assert (Hn : zlen names = 3 + zlen (h_name h) + zlen (h_otherNames h)) by (subst names; rewrite zlen_cons, zlen_app, zlen_vec16; lia).
  destruct (upto_be16 _ _ (zlen names) _ ltac:(lia) Hu2) as [-> Hu3]. cbn [rbind].
  rewrite Hn. destruct (Z.ltb_spec end' (off + 4 + 2 + (3 + zlen (h_name h) + zlen (h_otherNames h)))); [lia|].
  replace (off + 4 + 2 + (3 + zlen (h_name h) + zlen (h_otherNames h)))
    with (off + 4 + 2 + 3 + zlen (h_name h) + zlen (h_otherNames h)) by lia.
  eapply sni_names_found; [lia|exact Hu3].
Qed.

Lemma sni_extensions_found fuel data complete off end_ before h rest :
  Forall (fun e => 0 < e.1 < 65536) before -> (length before < fuel)%nat ->
  zlen (concat (extension <$> before)) + zlen (extension (0, server_name h)) <= end_ - off < 65536 ->
  upto data off (concat (extension <$> before) ++ extension (0, server_name h) ++ rest) ->
  sni_extensions fuel data complete off end_ = Ok (Some (str (h_name h)), tcpClassifierMatched).
Proof.
  intros Hb. revert fuel off. induction Hb as [|e before He Hb IH]; intros fuel off Hf Hz Hu;
    (destruct fuel as [|fuel]; [lia|]); cbn [fmap list_fmap concat length] in *.
  - rewrite zlen_extension in Hz. cbn [snd] in Hz. change (zlen (A := byte) []) with 0 in Hz.
    eapply sni_found; [lia|rewrite zlen_extension; cbn [snd]; lia|exact Hu].
  - rewrite <- app_assoc in Hu. rewrite zlen_app in Hz.
    pose proof (zlen_nonneg (concat (extension <$> before))). pose proof (zlen_nonneg (extension (0, server_name h))).
    pose proof (zlen_extension e). pose proof (zlen_nonneg e.2).
    rewrite (sni_extension_skipped _ data complete off end_ e _ He ltac:(lia) ltac:(lia) Hu).
    apply IH; [lia|lia|by apply upto_skip].
Qed.

(** The number of extensions before the name is covered by the fuel. *)
Lemma before_short before : Z.of_nat (length before) <= zlen (concat (extension <$> before)).
Proof.
  induction before as [|e before IH]; cbn [fmap list_fmap concat length]; [apply zlen_nonneg|].
  rewrite zlen_app, zlen_extension. pose proof (zlen_nonneg e.2). lia.
Qed.

Lemma upto_vec8 data off l rest :
  zlen l < 256 -> upto data off (vec8 l ++ rest) -> at_ data off = Ok (zlen l) /\ upto data (off + 1 + zlen l) rest.
Proof.
  intros Hl Hu. unfold vec8 in Hu. cbn [app] in Hu. rewrite (upto_at _ _ _ _ Hu).
  rewrite bz_u8 by (pose proof (zlen_nonneg l); lia). split; [done|]. apply upto_skip. by apply upto_byte in Hu.
Qed.

Lemma upto_vec16 data off l rest :
  zlen l < 65536 -> upto data off (vec16 l ++ rest) ->
  be16 data off = Ok (zlen l) /\ upto data (off + 2) (l ++ rest) /\ upto data (off + 2 + zlen l) rest.
Proof.
  intros Hl Hu. unfold vec16 in Hu. rewrite <- app_assoc in Hu. pose proof (zlen_nonneg l).
  destruct (upto_be16 _ _ (zlen l) _ ltac:(lia) Hu) as [-> Hu']. split_and!; try done. by apply upto_skip.
Qed.

Ltac inside := match goal with
  | |- context [if ?a <? ?b then _ else _] => destruct (Z.ltb_spec a b); [lia|]
  | |- context [if ?a <=? ?b then _ else _] => destruct (Z.leb_spec a b); [lia|]
  end.

Lemma handshake_len h : zlen (handshake h) = 4 + zlen (hello_body h).
Proof. unfold handshake, u16be. rewrite !zlen_cons. cbn [app]. rewrite !zlen_cons. lia. Qed.

Lemma client_hello_len h : zlen (client_hello h) = 5 + zlen (handshake h).
Proof. unfold client_hello. cbn [app]. rewrite !zlen_cons, zlen_vec16. lia. Qed.

Lemma hello_body_len h : hello_ok h -> zlen (hello_body h) = 41 + zlen (h_session h) + zlen (h_ciphers h) + zlen (h_compression h) + zlen (extensions h) - 1.
Proof.
  intros []. unfold hello_body. rewrite !zlen_cons, !zlen_app, !zlen_vec8, !zlen_vec16. lia.
Qed.

Lemma extensions_len h : zlen (extensions h) =
  zlen (concat (extension <$> h_before h)) + zlen (extension (0, server_name h)) + zlen (h_after h).
Proof. unfold extensions. rewrite !zlen_app. lia. Qed.

(** The parser finds the name, whatever follows the record. *)
Lemma parseTLSClientHello_found h rest complete :
  hello_ok h ->
  parseTLSClientHello (client_hello h ++ rest) complete = Ok (Some (str (h_name h)), tcpClassifierMatched).
Proof.
  intros Hok. pose proof (hello_body_len h Hok) as Hbl. pose proof (handshake_len h) as Hhl. destruct Hok as [Hr Hs Hc Hb Hh].
  set (data := client_hello h ++ rest).
  assert (Hu : upto data 0 (client_hello h ++ rest)) by by exists [].
  pose proof (upto_len _ _ _ Hu) as [Hl _]. rewrite zlen_app in Hl.
  assert (Hcl : zlen (client_hello h) = 5 + zlen (handshake h)) by apply client_hello_len.
  pose proof (zlen_nonneg (h_session h)). pose proof (zlen_nonneg (h_ciphers h)).
  pose proof (zlen_nonneg (h_compression h)). pose proof (zlen_nonneg (extensions h)). pose proof (zlen_nonneg rest).
  unfold parseTLSClientHello. destruct (Z.eqb_spec (zlen data) 0); [lia|].
  unfold client_hello in Hu. rewrite <- app_assoc in Hu. cbn [app] in Hu.
  rewrite (upto_at _ _ _ _ Hu). cbn [rbind]. change (negb (bz x16 =? 22)) with false. cbv iota. inside.
  do 3 apply upto_byte in Hu. change (0 + 1 + 1 + 1) with 3 in Hu.
  destruct (upto_vec16 _ _ (handshake h) _ ltac:(lia) Hu) as (-> & Hu1 & _). change (3 + 2) with 5 in Hu1.
  cbn [rbind]. cbv zeta. inside. inside.
  unfold handshake, u16be in Hu1. cbn [app] in Hu1. rewrite (upto_at _ _ _ _ Hu1). cbn [rbind orb].
  change (negb (bz x01 =? 1)) with false. cbv iota. do 2 inside.
  do 4 apply upto_byte in Hu1. change (5 + 1 + 1 + 1 + 1) with 9 in Hu1.
  unfold hello_body in Hu1. cbn [app] in Hu1. do 2 apply upto_byte in Hu1. rewrite <- !app_assoc in Hu1.
  apply upto_skip in Hu1. rewrite Hr in Hu1. replace (9 + 1 + 1 + 32) with 43 in Hu1 by lia. change (9 + (2 + 32)) with 43.
  destruct (upto_vec8 _ _ _ _ Hs Hu1) as [-> Hu2]. cbn [rbind]. do 2 inside.
  destruct (upto_vec16 _ _ (h_ciphers h) _ ltac:(lia) Hu2) as (-> & _ & Hu3). cbn [rbind]. do 2 inside.
  destruct (upto_vec8 _ _ _ _ Hc Hu3) as [-> Hu4]. cbn [rbind]. inside.
  match goal with |- context [?a =? ?b] => destruct (Z.eqb_spec a b); [lia|] end. inside.
  destruct (upto_vec16 _ _ (extensions h) _ ltac:(lia) Hu4) as (-> & Hu5 & _). cbn [rbind]. inside.
  pose proof (before_short (h_before h)) as Hbs.
  pose proof (extensions_len h) as Hel.
  unfold extensions in Hu5. rewrite <- !app_assoc in Hu5. pose proof (zlen_nonneg (h_after h)).
  pose proof (zlen_nonneg (extension (0, server_name h))).
  eapply (sni_extensions_found _ _ _ _ _ (h_before h) h); [exact Hb|unfold zlen in *; lia|lia|exact Hu5].
Qed.

(** ** An unfinished hello keeps every classifier waiting *)

Lemma at_app data more i : i < zlen data -> at_ (data ++ more) i = at_ data i.
Proof.
  intros Hi. unfold at_. destruct (0 <=? i) eqn:E; [|done]. apply Z.leb_le in E.
  rewrite lookup_app_l; [done|]. unfold zlen in Hi. lia.
Qed.

Lemma be16_app data more i : i + 1 < zlen data -> be16 (data ++ more) i = be16 data i.
Proof. intros. unfold be16. by rewrite !at_app by lia. Qed.

Lemma at_subslice a data i : 0 <= a -> 0 <= i < zlen data - a -> at_ (subslice a (zlen data) data) i = at_ data (a + i).
Proof.
  intros Ha Hi. unfold at_. rewrite lookup_subslice by lia.
  destruct (Z.leb_spec 0 i), (Z.leb_spec 0 (a + i)); try lia. by replace (Z.to_nat (a + i)) with (Z.to_nat a + Z.to_nat i)%nat by lia.
Qed.

Lemma parseTLSClientHello_unfinished h data more :
  zlen (handshake h) < 65536 -> client_hello h = data ++ more -> more <> [] ->
  parseTLSClientHello data false = Ok (None, tcpClassifierNeedMore).
Proof.
  intros Hh Hd Hm. assert (Hz : zlen data < zlen (client_hello h)).
  { rewrite Hd, zlen_app. pose proof (zlen_nonneg more). rewrite <- (zlen_nil_iff more) in Hm. lia. }
  rewrite client_hello_len in Hz. unfold parseTLSClientHello.
  destruct (Z.eqb_spec (zlen data) 0); [done|]. pose proof (zlen_nonneg data).
  assert (Hat : at_ data 0 = Ok 22) by (rewrite <- (at_app data more), <- Hd by lia; done).
  rewrite Hat. cbn [rbind negb Z.eqb Pos.eqb]. destruct (Z.ltb_spec (zlen data) 5); [done|].
  assert (Hbe : be16 data 3 = Ok (zlen (handshake h))).
  { rewrite <- (be16_app data more), <- Hd by lia.
    assert (Hu : upto (client_hello h) 3 (vec16 (handshake h) ++ [])) by (exists [x16; x03; h_recordMinor h]; by rewrite app_nil_r).
    by destruct (upto_vec16 _ _ _ _ Hh Hu). }
  rewrite Hbe. cbn [rbind]. cbv zeta. by destruct (Z.ltb_spec (zlen data) (5 + zlen (handshake h))); [|lia].
Qed.

(** The decision of a parser is not a match. *)
Definition no_match (r : res string tcpClassifierDecision) : Prop := succeeds r (fun d => d <> tcpClassifierMatched).

Lemma short_no_match complete : no_match (Ok (short complete)).
Proof. by destruct complete. Qed.
#[local] Hint Resolve short_no_match : parser.

Lemma drop_while_last b c l : c <> b -> drop_while b (l ++ [c]) = drop_while b l ++ [c].
Proof.
  intros Hc. induction l as [|d l IH]; cbn [app drop_while].
  - by rewrite decide_False.
  - destruct (decide (d = b)); [done|]. done.
Qed.

Lemma TrimRight_first b c l : c <> b -> exists l', bytes_TrimRight (c :: l) b = c :: l'.
Proof.
  intros Hc. unfold bytes_TrimRight. rewrite reverse_cons, drop_while_last by done.
  rewrite reverse_app. cbn [app reverse]. by eexists.
Qed.

Lemma Cut_first b c l : c <> b ->
  match bytes_Cut (c :: l) b with Some (h, _) => exists h', h = c :: h' | None => True end.
Proof. intros Hc. cbn [bytes_Cut]. rewrite decide_False by done. destruct (bytes_Cut l b) as [[]|]; eauto. Qed.

Lemma record_no_request l : looksLikeHTTPRequestPrefix (x16 :: l) = false.
Proof.
  unfold looksLikeHTTPRequestPrefix. cbv zeta. pose proof (Cut_first x0a x16 l ltac:(done)) as Hc.
  assert (Hline : exists l', match bytes_Cut (x16 :: l) x0a with Some (h, _) => h | None => x16 :: l end = x16 :: l').
  { destruct (bytes_Cut (x16 :: l) x0a) as [[h r]|]; [exact Hc|eauto]. }
  destruct Hline as [l1 ->]. destruct (TrimRight_first x0d x16 l1 ltac:(done)) as [l2 ->].
  pose proof (Cut_first x20 x16 l2 ltac:(done)) as Hs. cbn [bytes_SplitN].
  destruct (bytes_Cut (x16 :: l2) x20) as [[h r]|]; [destruct Hs as [h' ->]|]; done.
Qed.

(** The parsers that look at the first byte do not match a TLS record. *)

Section record.
Context (data : bytes) (complete : bool).
Hypothesis (Hfirst : data !! 0%nat = Some x16).

Lemma record_at : at_ data 0 = Ok 22.
Proof. unfold at_. change (Z.to_nat 0) with 0%nat. by rewrite Hfirst. Qed.

Lemma record_socks5 : no_match (looksLikeSOCKS5Greeting data complete).
Proof. unfold looksLikeSOCKS5Greeting. destruct (_ =? 0); [auto with parser|]. by rewrite record_at. Qed.

Lemma record_mqtt : no_match (looksLikeMQTTConnect data complete).
Proof. unfold looksLikeMQTTConnect. destruct (_ =? 0); [auto with parser|]. by rewrite record_at. Qed.

Lemma record_redis : no_match (looksLikeRedisRESPArray data complete).
Proof. unfold looksLikeRedisRESPArray. destruct (_ =? 0); [auto with parser|]. by rewrite record_at. Qed.

Lemma record_prefix (p : bytes) : p !! 0%nat <> Some x16 -> p <> [] -> bytes_HasPrefix data p = false.
Proof.
  intros Hp Hne. unfold bytes_HasPrefix. apply bool_decide_eq_false. intros [k Hk]. apply Hp.
  rewrite Hk, lookup_app_l in Hfirst; [done|]. destruct p; [done|cbn; lia].
Qed.

Lemma record_amqp : no_match (looksLikeAMQPProtocolHeader data complete).
Proof.
  unfold looksLikeAMQPProtocolHeader. cbv zeta. destruct (zlen data <? zlen (raw "AMQP")) eqn:E; [by destruct (_ && _)|].
  apply Z.ltb_ge in E. change (zlen (raw "AMQP")) with 4 in *. rewrite goslice_ok by lia. cbn [rbind].
  rewrite bool_decide_false; [done|]. intros Hs%(f_equal (.!! 0%nat)).
  rewrite lookup_subslice in Hs by lia. change (Z.to_nat 0 + 0)%nat with 0%nat in Hs. by rewrite Hfirst in Hs.
Qed.

Lemma record_ssh limit : (parseSSHBannerClassification data complete limit).2 <> tcpClassifierMatched.
Proof.
  unfold parseSSHBannerClassification. cbv zeta. destruct (_ =? 0); [by destruct complete|].
  destruct (_ <? _); [by destruct (bytes_HasPrefix _ _), (negb complete && (zlen data <? limit))|].
  by rewrite record_prefix.
Qed.

Lemma record_http `{HTTPReader} limit : zlen data <> 0 ->
  parseHTTPRequest data complete limit = Ok (None, tcpClassifierNoMatch).
Proof.
  intros Hz. unfold parseHTTPRequest. apply Z.eqb_neq in Hz as ->.
  destruct data as [|b l]; [done|]. injection Hfirst as ->. by rewrite record_no_request.
Qed.

(** The version bytes of the hello rule out the parsers that look further. *)

Hypothesis (Hversion : 10 <= zlen data -> data !! 9%nat = Some x03).

Lemma version_at : 10 <= zlen data -> at_ data 9 = Ok 3.
Proof. intros H. unfold at_. change (Z.to_nat 9) with 9%nat. by rewrite (Hversion H). Qed.

Lemma record_mongo : no_match (looksLikeMongoMessage data complete).
Proof.
  unfold looksLikeMongoMessage. destruct (Z.ltb_spec (zlen data) 16); [auto with parser|].
  destruct (succeeds_eq _ _ (le32_succeeds data 0 ltac:(lia) ltac:(lia))) as (n & -> & _). cbn [rbind].
  destruct (_ || _); [done|].
  destruct (succeeds_eq _ _ (at_succeeds data 8 ltac:(lia))) as (a & Ha & _).
  destruct (succeeds_eq _ _ (at_succeeds data 10 ltac:(lia))) as (c & Hc & _).
  destruct (succeeds_eq _ _ (at_succeeds data 11 ltac:(lia))) as (d & Hd & _).
  unfold le32 at 1. change (8 + 1) with 9. change (8 + 2) with 10. change (8 + 3) with 11. rewrite Ha, version_at, Hc, Hd by lia. cbn [rbind].
  destruct (Z.eqb_spec (Z.lor (Z.lor (Z.lor a (Z.shiftl 3 8)) (Z.shiftl c 16)) (Z.shiftl d 24)) 0) as [E|]; [|done].
  by rewrite !Z.lor_eq_0_iff in E; destruct E as [[[_ E] _] _].
Qed.

Lemma record_dns `{UnicodeCase} :
  succeeds (parseDNSQueryHost data complete) (fun r => r.2 <> tcpClassifierMatched).
Proof.
  assert (Hs : succeeds (Ok (E := string) ("", short complete)) (fun r => r.2 <> tcpClassifierMatched)) by by destruct complete.
  unfold parseDNSQueryHost. walk; try done. subst a0.
  assert (Hz : zlen (subslice 2 (zlen data) data) = zlen data - 2) by (rewrite zlen_subslice; lia).
  assert (Hn : exists n, be16 (subslice 2 (zlen data) data) 6 = Ok n /\ n <> 0).
  { destruct (succeeds_eq _ _ (at_succeeds data 8 ltac:(lia))) as (b & Hb & _).
    exists (Z.lor (Z.shiftl b 8) 3). unfold be16. rewrite !at_subslice by lia.
    change (2 + 6) with 8. change (2 + (6 + 1)) with 9. rewrite Hb, version_at by lia. split; [done|].
    intros En%Z.lor_eq_0_iff. by destruct En. }
  destruct Hn as (n & -> & Hn). walk; try done. exfalso. apply Z.eqb_neq in Hn.
  match goal with H : negb (n =? 0) = false /\ _ |- _ => destruct H as [H _]; by rewrite Hn in H end.
Qed.

End record.

(** ** The loop waits for the hello, and finds it *)

(** The classifier has not matched. *)
Definition quiet (ctx : tcpClassifyContext) (classifier : tcpClassifier) : Prop :=
  exists d, classifier ctx = Ok (None, d) /\ d <> tcpClassifierMatched.

Definition waits (ctx : tcpClassifyContext) (classifier : tcpClassifier) : Prop :=
  classifier ctx = Ok (None, tcpClassifierNeedMore).

Lemma pass_waits pre ctx needMore fallback :
  Forall (quiet ctx) pre -> IsComplete ctx = false -> (needMore = true \/ Exists (waits ctx) pre) ->
  exists fb, classify_pass (pre ++ [tcpUnknownClassifier]) ctx needMore fallback = Ok (inr (true, fb)).
Proof.
  intros Hq Hi. revert needMore fallback. induction Hq as [|c pre (d & Hc & Hd) Hq IH]; intros needMore fallback Hw.
  - destruct Hw as [->|Hw]; [|by inversion Hw]. cbn [app classify_pass].
    destruct (tcpUnknownClassifier_ok ctx) as [(_ & _ & ->)|(r & -> & _ & Hu)]; cbn; [eauto|].
    rewrite Hu, Hi. cbn. eauto.
  - cbn [app classify_pass]. rewrite Hc. cbn [rbind]. rewrite Exists_cons in Hw. destruct d; [|by apply IH; left|done].
    apply IH. destruct Hw as [|[Hw|]]; auto. unfold waits in Hw. by rewrite Hc in Hw.
Qed.

Lemma quiet_recognised ctx protocol parse :
  no_match (parse (Buffered ctx) (IsComplete ctx)) ->
  quiet ctx (fun ctx => let? d := parse (Buffered ctx) (IsComplete ctx) in Ok (recognised protocol ctx d)).
Proof. intros Hn. apply succeeds_eq in Hn as (d & Hp & Hd). exists d. rewrite Hp. by destruct d. Qed.

Lemma quiet_empty `{UnicodeCase, HTTPReader} ctx :
  cx_Peeked ctx = [] -> IsComplete ctx = false ->
  Forall (quiet ctx) (take 9 defaultTCPClassifiers) /\ waits ctx tlsClientHelloClassifier.
Proof.
  intros Hp Hi. split; [|unfold waits, tlsClientHelloClassifier; by rewrite Hp, Hi].
  repeat apply List.Forall_cons; [..|constructor]; eexists;
    unfold httpRequestClassifier, tlsClientHelloClassifier, amqpProtocolClassifier, dnsTCPQueryClassifier,
      mqttConnectClassifier, mongoMessageClassifier, redisRESPClassifier, socks5GreetingClassifier, sshBannerClassifier;
    rewrite Hp, Hi; cbn; done.
Qed.

(** While the hello is unfinished no classifier matches, and the one for TLS waits. *)
Lemma quiet_unfinished `{UnicodeCase, HTTPReader} h ctx more :
  hello_ok h -> client_hello h = cx_Peeked ctx ++ more -> more <> [] -> IsComplete ctx = false ->
  Forall (quiet ctx) (take 9 defaultTCPClassifiers) /\ waits ctx tlsClientHelloClassifier.
Proof.
  intros Hok Hd Hm Hi. destruct (decide (cx_Peeked ctx = [])) as [|Hne]; [by apply quiet_empty|].
  assert (Hw : waits ctx tlsClientHelloClassifier).
  { unfold waits, tlsClientHelloClassifier, parseSNIFromTLS. rewrite Hi.
    by rewrite (parseTLSClientHello_unfinished h _ more) by (done || apply Hok). }
  assert (Hf : cx_Peeked ctx !! 0%nat = Some x16) by (destruct (cx_Peeked ctx); [done|]; by injection Hd as <-).
  assert (Hv : 10 <= zlen (cx_Peeked ctx) -> cx_Peeked ctx !! 9%nat = Some x03).
  { intros Hz. rewrite <- (lookup_app_l _ more), <- Hd by (unfold zlen in Hz; lia). done. }
  assert (Hz : zlen (cx_Peeked ctx) <> 0) by (by rewrite zlen_nil_iff).
  split; [|done]. repeat apply List.Forall_cons; [..|constructor].
  - exists tcpClassifierNoMatch. split; [|done]. unfold httpRequestClassifier. by rewrite record_http.
  - by exists tcpClassifierNeedMore.
  - apply (quiet_recognised _ _ looksLikeAMQPProtocolHeader), record_amqp, Hf.
  - unfold quiet, dnsTCPQueryClassifier.
    destruct (succeeds_eq _ _ (record_dns (Buffered ctx) (IsComplete ctx) Hv)) as ([host []] & -> & Hd'); cbn in *; eauto; done.
  - apply (quiet_recognised _ _ looksLikeMQTTConnect), record_mqtt, Hf.
  - apply (quiet_recognised _ _ looksLikeMongoMessage), record_mongo, Hv.
  - apply (quiet_recognised _ _ looksLikeRedisRESPArray), record_redis, Hf.
  - apply (quiet_recognised _ _ looksLikeSOCKS5Greeting), record_socks5, Hf.
  - unfold quiet, sshBannerClassifier.
    pose proof (record_ssh _ (IsComplete ctx) Hf (headerLimit ctx)) as Hs.
    destruct (parseSSHBannerClassification _ _ _) as [banner []]; cbn in *; eauto; done.
Qed.

(** The first [n] bytes arrive before any error or timeout. *)
Fixpoint delivers (n : Z) (c : Conn) : Prop :=
  if n <=? 0 then True else
  match c with
  | [] => False
  | a :: rest => ar_data a <> [] /\ (ar_err a = None \/ n <= zlen (ar_data a)) /\ delivers (n - zlen (ar_data a)) rest
  end.

Lemma delivers_read n k c got err c' :
  0 < n <= k -> delivers n c -> Conn_Read k c = (got, err, c') ->
  got <> [] /\ received c = got ++ received c' /\ zlen got <= k /\
  (zlen got < n -> err = None /\ delivers (n - zlen got) c').
Proof.
  intros Hn. destruct c as [|a c]; cbn [delivers]; (destruct (Z.leb_spec n 0); [lia|]); [done|].
  intros (Hne & He & Hd). unfold Conn_Read. destruct (Z.leb_spec (zlen (ar_data a)) k) as [Hk|Hk]; intros [= <- <- <-].
  - split_and!; [done|done|done|]. intros Hlt. destruct He; [done|lia].
  - unfold received. cbn [fmap list_fmap concat ar_data].
    assert (Ht : zlen (take (Z.to_nat k) (ar_data a)) = k) by (unfold zlen in *; rewrite length_take; lia).
    rewrite app_assoc, take_drop, Ht. split_and!; [|done|lia|lia].
    intros E. rewrite E in Ht. change (zlen (A := byte) []) with 0 in Ht. lia.
Qed.

(** The result for a hello, with what had been read by then. *)
Definition tls_result `{UnicodeCase} (h : hello) (ctx : tcpClassifyContext) : classificationResult :=
  default (mkResult (classifyUnknownTraffic "" "" [] 0 "") "" None None)
    (recognised_host "tls" "missing_sni" (normalizeHost (str (h_name h))) ctx).1.

Lemma pass_no_match c cs ctx needMore fallback :
  c ctx = Ok (None, tcpClassifierNoMatch) ->
  classify_pass (c :: cs) ctx needMore fallback = classify_pass cs ctx needMore fallback.
Proof. intros Hc. cbn [classify_pass]. by rewrite Hc. Qed.

Lemma pass_match c cs ctx needMore fallback r :
  c ctx = Ok (Some r, tcpClassifierMatched) -> tc_Protocol (cr_Classification r) <> "unknown" ->
  classify_pass (c :: cs) ctx needMore fallback = Ok (inl (Some r)).
Proof. intros Hc Hr. cbn [classify_pass]. rewrite Hc. cbn [rbind]. by rewrite bool_decide_false. Qed.

Lemma pass_finds `{UnicodeCase, HTTPReader} h ctx rest :
  hello_ok h -> cx_Peeked ctx = client_hello h ++ rest ->
  classify_pass defaultTCPClassifiers ctx false None = Ok (inl (Some (tls_result h ctx))).
Proof.
  intros Hok Hp. assert (Hz : zlen (cx_Peeked ctx) <> 0).
  { rewrite Hp, zlen_app, client_hello_len. pose proof (zlen_nonneg rest). pose proof (zlen_nonneg (handshake h)). lia. }
  assert (Hf : cx_Peeked ctx !! 0%nat = Some x16) by (rewrite Hp; reflexivity).
  unfold defaultTCPClassifiers. rewrite pass_no_match by (unfold httpRequestClassifier; by rewrite (record_http _ _ Hf _ Hz)).
  apply pass_match.
  - unfold tlsClientHelloClassifier, parseSNIFromTLS. by rewrite Hp, parseTLSClientHello_found.
  - unfold tls_result, recognised_host. by destruct (decide (normalizeHost _ = "")).
Qed.

(** The state of the loop while the hello arrives. *)
Record awaiting (h : hello) (stream : bytes) (ctx : tcpClassifyContext) : Prop := {
  aw_open : IsComplete ctx = false;
  aw_some : zlen (cx_Peeked ctx) < zlen (client_hello h);
  aw_limit : zlen (client_hello h) <= headerLimit ctx;
  aw_stream : cx_Peeked ctx ++ received (cx_Conn ctx) = stream;
  aw_rest : delivers (zlen (client_hello h) - zlen (cx_Peeked ctx)) (cx_Conn ctx)
}.

Lemma prefix_split (s p : bytes) l : p `prefix_of` s -> l `prefix_of` s -> zlen l < zlen p -> exists more, p = l ++ more /\ more <> [].
Proof.
  intros Hp Hl Hz. destruct (prefix_weak_total _ _ _ Hp Hl) as [Hx|[more ->]].
  - apply prefix_length in Hx. unfold zlen in Hz. lia.
  - exists more. split; [done|]. intros ->. rewrite app_nil_r in Hz. lia.
Qed.

(** The hello is in what has been read. *)
Definition arrived (h : hello) (stream : bytes) (ctx : tcpClassifyContext) : Prop :=
  (exists rest, cx_Peeked ctx = client_hello h ++ rest) /\ cx_Peeked ctx ++ received (cx_Conn ctx) = stream.

Lemma awaiting_read h stream ctx n err ctx' :
  client_hello h `prefix_of` stream -> awaiting h stream ctx -> readMore ctx = (n, err, ctx') ->
  0 < n /\ zlen (cx_Peeked ctx) < zlen (cx_Peeked ctx') /\
  cx_OrigIP ctx' = cx_OrigIP ctx /\ cx_OrigPort ctx' = cx_OrigPort ctx /\
  (awaiting h stream ctx' \/ arrived h stream ctx').
Proof.
  intros Hp [Hi Hs Hl Hst Hd]. unfold readMore. rewrite Hi. pose proof Hi as [Hi1 Hi2]%orb_false_iff.
  destruct (Z.leb_spec (headerLimit ctx - zlen (cx_Peeked ctx)) 0) as [|Hr]; [lia|].
  destruct (Conn_Read _ _) as [[got e] conn] eqn:Er.
  apply (delivers_read (zlen (client_hello h) - zlen (cx_Peeked ctx))) in Er as (Hne & Hrec & Hgk & Hmore); [|lia|done].
  assert (Hg : 0 < zlen got) by (pose proof (zlen_nonneg got); rewrite <- (zlen_nil_iff got) in Hne; lia).
  assert (Hst' : (cx_Peeked ctx ++ got) ++ received conn = stream) by (by rewrite <- app_assoc, <- Hrec).
  assert (Hnew : zlen (client_hello h) <= zlen (cx_Peeked ctx ++ got) -> exists rest, cx_Peeked ctx ++ got = client_hello h ++ rest).
  { intros Hz. assert (Hx : cx_Peeked ctx ++ got `prefix_of` stream) by by exists (received conn).
    destruct (prefix_weak_total _ _ _ Hp Hx) as [[rest Hy]|Hy]; [by exists rest|].
    pose proof (prefix_length _ _ Hy). exists []. rewrite app_nil_r. apply prefix_length_eq; [done|unfold zlen in *; lia]. }
  rewrite zlen_app in Hnew. destruct (Z.lt_ge_cases (zlen (cx_Peeked ctx) + zlen got) (zlen (client_hello h))) as [Hlt|Hge].
  - destruct (Hmore ltac:(lia)) as [-> Hd']. intros [= <- <- <-]. cbn [cx_Peeked]. rewrite zlen_app.
    split_and!; [done|lia|done..|left]. constructor; cbn [cx_Peeked cx_Conn].
    + unfold IsComplete. cbn [cx_ReadDone cx_LimitReached]. rewrite Hi1, Hi2, !orb_false_r, orb_diag. 
      apply Z.leb_gt. lia.
    + rewrite zlen_app. lia.
    + done.
    + done.
    + rewrite zlen_app. by replace (zlen (client_hello h) - (zlen (cx_Peeked ctx) + zlen got))
        with (zlen (client_hello h) - zlen (cx_Peeked ctx) - zlen got) by lia.
  - destruct e as [[| |msg]|]; intros [= <- <- <-]; cbn [cx_Peeked]; rewrite zlen_app;
      (split_and!; [done|lia|done..|right; split; [by apply Hnew|done]]).
Qed.

Lemma loop_finds `{UnicodeCase, HTTPReader} h stream fuel ctx :
  hello_ok h -> client_hello h `prefix_of` stream -> awaiting h stream ctx ->
  zlen (client_hello h) - zlen (cx_Peeked ctx) + 1 <= Z.of_nat fuel ->
  exists ctx', classify_loop fuel defaultTCPClassifiers ctx = (Ok (Some (tls_result h ctx')), ctx') /\
    arrived h stream ctx' /\ cx_OrigIP ctx' = cx_OrigIP ctx /\ cx_OrigPort ctx' = cx_OrigPort ctx.
Proof.
  intros Hok Hp. revert ctx. induction fuel as [|fuel IH]; intros ctx Ha Hf; [destruct Ha; lia|].
  destruct (prefix_split stream (client_hello h) (cx_Peeked ctx)) as (more & Hm & Hne);
    [done|exists (received (cx_Conn ctx)); by destruct Ha|by destruct Ha|].
  pose proof (aw_open _ _ _ Ha) as Hi. destruct (quiet_unfinished h ctx more Hok Hm Hne Hi) as [Hq Hw].
  destruct (pass_waits (take 9 defaultTCPClassifiers) ctx false None Hq Hi) as [fb Hpass].
  { right. apply (Exists_cons_tl _ (l := tlsClientHelloClassifier :: _)), Exists_cons_hd, Hw. }
  cbn [classify_loop]. change (take 9 defaultTCPClassifiers ++ [tcpUnknownClassifier]) with defaultTCPClassifiers in Hpass.
  rewrite Hpass, Hi. cbn [negb orb]. destruct (readMore ctx) as [[n err] ctx1] eqn:Er.
  destruct (awaiting_read _ _ _ _ _ _ Hp Ha Er) as (Hn & Hz & <- & <- & Hnext). rewrite (proj2 (Z.ltb_lt 0 n) Hn).
  assert (Hgo : exists ctx', classify_loop fuel defaultTCPClassifiers ctx1 = (Ok (Some (tls_result h ctx')), ctx') /\
    arrived h stream ctx' /\ cx_OrigIP ctx' = cx_OrigIP ctx1 /\ cx_OrigPort ctx' = cx_OrigPort ctx1).
  { destruct Hnext as [Ha1|Ha1]; [apply IH; [done|lia]|]. destruct Ha as [_ Ha _ _ _].
    destruct fuel as [|fuel]; [lia|]. exists ctx1. split_and!; try done. cbn [classify_loop].
    destruct Ha1 as [[rest Hrest] _]. by rewrite (pass_finds h ctx1 rest). }
  destruct fb; exact Hgo.
Qed.

Lemma classifyTCP_finds `{UnicodeCase, HTTPReader} h ip port limit conn :
  hello_ok h -> client_hello h `prefix_of` received conn -> delivers (zlen (client_hello h)) conn ->
  zlen (client_hello h) <= headerLimit (newTCPClassifyContext ip port limit conn) ->
  exists ctx, classifyTCP defaultTCPClassifiers (newTCPClassifyContext ip port limit conn) = (Ok (Some (tls_result h ctx)), ctx) /\
    arrived h (received conn) ctx /\ cx_OrigIP ctx = ip /\ cx_OrigPort ctx = port.
Proof.
  intros Hok Hp Hd Hl. set (ctx0 := newTCPClassifyContext ip port limit conn) in *.
  assert (Ha : awaiting h (received conn) ctx0).
  { constructor; [done| |done|done|]; change (zlen (cx_Peeked ctx0)) with 0; rewrite ?Z.sub_0_r; [|done].
    rewrite client_hello_len. pose proof (zlen_nonneg (handshake h)). lia. }
  destruct (loop_finds h (received conn) (Z.to_nat (headerLimit ctx0) + 2) ctx0 Hok Hp Ha) as (ctx & Hc & Hrest);
    [change (zlen (cx_Peeked ctx0)) with 0; lia|].
  exists ctx. split; [exact Hc|exact Hrest].
Qed.

(** A connection that starts with a TLS client hello is classified as TLS with the
    server name of the hello, in whatever segments it arrives: as long as the hello
    arrives before an error or a timeout and fits the header limit, none of the other
    parsers claims the unfinished bytes, the loop reads on, and the name is found
    whatever the other fields of the hello hold and whatever follows it. *)
Theorem tls_name_found `{UnicodeCase, HTTPReader} h ip port limit conn :
  hello_ok h -> client_hello h `prefix_of` received conn -> delivers (zlen (client_hello h)) conn ->
  zlen (client_hello h) <= headerLimit (newTCPClassifyContext ip port limit conn) ->
  let host := normalizeHost (str (h_name h)) in
  exists prefix ctx,
    classifyTCP defaultTCPClassifiers (newTCPClassifyContext ip port limit conn) =
      (Ok (Some (mkResult
        (if decide (host = "") then classifyUnknownTraffic "tcp" "tls" ip port "missing_sni"
         else classifyKnownTraffic "tcp" "tls" ip port host) host None (Some prefix))), ctx) /\
    prefix ++ received (cx_Conn ctx) = received conn.
Proof.
  intros Hok Hp Hd Hl host. destruct (classifyTCP_finds h ip port limit conn Hok Hp Hd Hl) as (ctx & Hc & [_ Hs] & Hip & Hpo).
  exists (cx_Peeked ctx), ctx. split; [|exact Hs]. rewrite Hc. unfold tls_result, recognised_host. by rewrite Hip, Hpo.
Qed.

(** A hello for example.com, after one extension of another type. *)
Definition demo_hello : hello :=
  mkHello x01 x03 (replicate 32 x07) [x01; x02] [x13; x01] [x00] [(43, [x02; x03; x04])] (raw "Example.com") [] [].

Definition demo_segments : Conn :=
  [mkArrival (take 7 (client_hello demo_hello)) None;
   mkArrival (drop 7 (client_hello demo_hello)) None; mkArrival [x14] None].

Lemma demo_hello_ok : hello_ok demo_hello.
Proof. constructor; try (vm_compute; done). repeat constructor; vm_compute; done. Qed.

Lemma tls_name_found_witness :
  exists prefix ctx,
    classifyTCP (defaultTCPClassifiers (H := no_unicode) (H0 := {| ReadRequest_host := fun _ => None |}))
      (newTCPClassifyContext [93; 184; 215; 14] 443 0 demo_segments) =
    (Ok (Some (mkResult (classifyKnownTraffic "tcp" "tls" [93; 184; 215; 14] 443 "example.com") "example.com"
                        None (Some prefix))), ctx) /\
    prefix ++ received (cx_Conn ctx) = received demo_segments.
Proof.
  apply (tls_name_found (H := no_unicode) (H0 := {| ReadRequest_host := fun _ => None |}) demo_hello
           [93; 184; 215; 14] 443 0 demo_segments demo_hello_ok).
  - exists [x14]. reflexivity.
  - vm_compute. split_and!; first [done|by left].
  - vm_compute. done.
Defined.
