(* ===== verification/Proxy.v ===== *)
(** * netd: the path of a TCP flow through the proxy (netd/pkg/proxy)

    The verification of the host against DNS (host_verifier.go), the registry of
    adapters (adapter_registry.go), the probe of the upstream for a server that speaks
    first, and the handler that puts them together (server.go, handleTCPConn and
    handleTCPDecision).  The resolver and the network are parameters.  What the adapters
    do with a flow is in EgressAuth. *)

From stdpp Require Import base gmap strings list fin_maps numbers.
From Stdlib Require Import Strings.Byte.
From S2P Require Import Prelude GoStd GoNet Policy PolicyEval Classifier.

Local Open Scope Z_scope.

(** [net.IP.Equal]: an IPv4 address equals its IPv6 form. *)
Definition v4InV6Prefix : IP := [0; 0; 0; 0; 0; 0; 0; 0; 0; 0; 255; 255].

Definition IP_Equal (ip x : IP) : bool :=
  if (length ip =? length x)%nat then bool_decide (ip = x) else
  if (length ip =? 4)%nat && (length x =? 16)%nat then bool_decide (x = v4InV6Prefix ++ ip) else
  if (length ip =? 16)%nat && (length x =? 4)%nat then bool_decide (ip = v4InV6Prefix ++ x) else
  false.

(** ** host_verifier.go *)

Definition defaultHostVerifyCacheTTL : Z := 30 * 1000000000.

Record hostResolutionCacheEntry := mkHostEntry { he_ips : list IP; he_expiresAt : Z }.

Record dnsHostVerifier := mkVerifier { hv_ttl : Z; hv_cache : gmap string hostResolutionCacheEntry }.

Definition newDNSHostVerifier : dnsHostVerifier := mkVerifier defaultHostVerifyCacheTTL ∅.

(** [LookupIPAddr] at a time: the addresses, or an error. *)
Class Resolver := { LookupIPAddr : Z -> string -> option (list IP) }.

Section verifier.
Context `{UC : UnicodeCase} `{RS : Resolver}.

Abbreviation VM := (ST string dnsHostVerifier).

Definition lookupCached (now : Z) (host : string) : VM (option (list IP)) := fun v =>
  match hv_cache v !! host with
  | None => (Ok None, v)
  | Some entry =>
      if he_expiresAt entry <=? now then (Ok None, mkVerifier (hv_ttl v) (delete host (hv_cache v)))
      else (Ok (Some (he_ips entry)), v)
  end.

Definition store (now : Z) (host : string) (ips : list IP) : VM unit := fun v =>
  let ttl := if hv_ttl v <=? 0 then defaultHostVerifyCacheTTL else hv_ttl v in
  (Ok tt, mkVerifier (hv_ttl v) (<[host := mkHostEntry ips (now + ttl)]> (hv_cache v))).

(** The cache is read at [now], the answer arrives at [later]. *)
Definition lookup_host (now later : Z) (host : string) : VM (list IP) :=
  let* cached := lookupCached now host in
  match cached with
  | Some ips => ret ips
  | None =>
      match LookupIPAddr now host with
      | None => throw "lookup failed"
      | Some addrs =>
          let ips := filter (fun ip => ip <> []) addrs in
          if is_nil ips then throw "resolved without ip addresses" else
          do* store later host ips in ret ips
      end
  end.

Definition Verify (now later : Z) (host : string) (destIP : IP) : VM bool :=
  let host := normalizeHost host in
  if bool_decide (host = "") || is_nil destIP then throw "host verifier requires host and destination" else
  match ParseIP host with
  | Some literal => ret (IP_Equal literal destIP)
  | None =>
      let* ips := lookup_host now later host in
      ret (existsb (fun candidate => IP_Equal candidate destIP) ips)
  end.

Definition set_verification (c : trafficClassification) (v : string) : trafficClassification :=
  mkClassification (tc_Transport c) (tc_Protocol c) (tc_DestIP c) (tc_DestPort c) (tc_Host c) (tc_UnknownReason c) v.

Definition verifyClassifiedHost (now later : Z) (compiled : option CompiledPolicy) (c : trafficClassification)
    (v : dnsHostVerifier) : res string trafficClassification * dnsHostVerifier :=
  if bool_decide (compiled = None) || negb (HasDomainRules compiled) then (Ok c, v) else
  if negb (bool_decide (tc_UnknownReason c = "")) || bool_decide (tc_Host c = "") || is_nil (tc_DestIP c) then (Ok c, v) else
  match Verify now later (tc_Host c) (tc_DestIP c) v with
  | (Panic, v) => (Panic, v)
  | (Err _, v) => (Ok (set_verification c "host_resolution_failed"), v)
  | (Ok false, v) => (Ok (set_verification c "host_dest_mismatch"), v)
  | (Ok true, v) => (Ok c, v)
  end.

End verifier.

(** ** adapter_registry.go *)

Inductive adapterCapability :=
  adapterCapabilityPassThrough | adapterCapabilityInspect | adapterCapabilityTerminate | otherCapability.

#[export] Instance adapterCapability_eq_dec : EqDecision adapterCapability.
Proof. solve_decision. Defined.

(** The declarations of an adapter; how the adapters handle a flow is in EgressAuth.v. *)
Record proxyAdapter := mkAdapter {
  ad_Name : string; ad_Transport : string; ad_Protocol : string; ad_Capability : adapterCapability
}.

Record adapterRegistry := mkRegistry {
  ar_adapters : gmap (string * string) proxyAdapter; ar_fallbacks : gmap string proxyAdapter
}.

(** A nil adapter is [None]. *)
Definition register (adapter : option proxyAdapter) (r : adapterRegistry) : res string adapterRegistry :=
  match adapter with
  | None => Err "adapter is nil"
  | Some a =>
      if bool_decide (ad_Transport a = "") || bool_decide (ad_Protocol a = "")
      then Err "adapter must declare transport and protocol" else
      if decide (ad_Protocol a = "unknown") then Err "adapter with protocol unknown must be registered as fallback" else
      match ar_adapters r !! (ad_Transport a, ad_Protocol a) with
      | Some _ => Err "adapter already registered"
      | None => Ok (mkRegistry (<[(ad_Transport a, ad_Protocol a) := a]> (ar_adapters r)) (ar_fallbacks r))
      end
  end.

Definition registerFallback (adapter : option proxyAdapter) (r : adapterRegistry) : res string adapterRegistry :=
  match adapter with
  | None => Err "fallback adapter is nil"
  | Some a =>
      if decide (ad_Transport a = "") then Err "fallback adapter must declare transport" else
      if decide (ad_Protocol a <> "unknown") then Err "fallback adapter must use protocol unknown" else
      if decide (ad_Capability a <> adapterCapabilityPassThrough) then Err "fallback adapter must use pass-through capability" else
      match ar_fallbacks r !! ad_Transport a with
      | Some _ => Err "fallback adapter already registered"
      | None => Ok (mkRegistry (ar_adapters r) (<[ad_Transport a := a]> (ar_fallbacks r)))
      end
  end.

(** The loops of [newAdapterRegistry]. *)
Fixpoint register_all (add : option proxyAdapter -> adapterRegistry -> res string adapterRegistry)
    (l : list (option proxyAdapter)) (r : adapterRegistry) : res string adapterRegistry :=
  match l with
  | [] => Ok r
  | a :: l => let? r := add a r in register_all add l r
  end.

Definition newAdapterRegistry (adapters fallbacks : list (option proxyAdapter)) : res string adapterRegistry :=
  let? r := register_all register adapters (mkRegistry ∅ ∅) in
  register_all registerFallback fallbacks r.

Definition validateAdapterCapability (decision : trafficDecision) (a : proxyAdapter) : res string unit :=
  if decide (ad_Capability a = otherCapability) then Err "adapter has unsupported capability" else
  match td_Action decision with
  | decisionActionPassThrough =>
      if decide (ad_Capability a <> adapterCapabilityPassThrough)
      then Err "adapter must use pass-through capability for fallback decisions" else Ok tt
  | _ => Ok tt
  end.

(** No adapter, and no error, for a flow that is denied. *)
Definition Resolve (decision : trafficDecision) (r : adapterRegistry) : res string (option proxyAdapter) :=
  let checked a := let? _ := validateAdapterCapability decision a in Ok (Some a) in
  match td_Action decision with
  | decisionActionPassThrough =>
      match ar_fallbacks r !! td_Transport decision with
      | None => Err "fallback adapter not found"
      | Some a => checked a
      end
  | decisionActionUseAdapter =>
      match ar_adapters r !! (td_Transport decision, td_Protocol decision) with
      | Some a => checked a
      | None =>
          match ar_fallbacks r !! td_Transport decision with
          | None => Err "adapter not found"
          | Some a => checked a
          end
      end
  | decisionActionDeny => Ok None
  end.

(** adapter_base.go, and the registration of NewServer *)
Definition httpAdapter := mkAdapter "http" "tcp" "http" adapterCapabilityInspect.
Definition amqpAdapter := mkAdapter "amqp" "tcp" "amqp" adapterCapabilityPassThrough.
Definition dnsAdapter := mkAdapter "dns" "tcp" "dns" adapterCapabilityPassThrough.
Definition mqttAdapter := mkAdapter "mqtt" "tcp" "mqtt" adapterCapabilityInspect.
Definition mongodbAdapter := mkAdapter "mongodb" "tcp" "mongodb" adapterCapabilityPassThrough.
Definition redisAdapter := mkAdapter "redis" "tcp" "redis" adapterCapabilityInspect.
Definition socks5Adapter := mkAdapter "socks5" "tcp" "socks5" adapterCapabilityInspect.
Definition sshAdapter := mkAdapter "ssh" "tcp" "ssh" adapterCapabilityTerminate.
Definition tlsAdapter := mkAdapter "tls" "tcp" "tls" adapterCapabilityTerminate.
Definition udpAdapter := mkAdapter "udp" "udp" "udp" adapterCapabilityPassThrough.
Definition tcpPassThroughAdapter := mkAdapter "tcp-pass-through" "tcp" "unknown" adapterCapabilityPassThrough.
Definition udpPassThroughAdapter := mkAdapter "udp-pass-through" "udp" "unknown" adapterCapabilityPassThrough.

Definition defaultAdapters : res string adapterRegistry :=
  newAdapterRegistry
    (Some <$> [httpAdapter; amqpAdapter; dnsAdapter; mqttAdapter; mongodbAdapter; redisAdapter; socks5Adapter;
               sshAdapter; tlsAdapter; udpAdapter])
    (Some <$> [tcpPassThroughAdapter; udpPassThroughAdapter]).

(** ** The probe of the upstream *)

(** [readTCPPrefix] with the parser of SSH banners: the bytes read before the connection
    is known to be SSH or not, and the connection after; an error other than a timeout or
    the end of the stream is returned. *)
Fixpoint readTCPPrefix (fuel : nat) (limit : Z) (buffer : bytes) (conn : Conn) : res string (bytes * Conn) :=
  let parse complete := (parseSSHBannerClassification buffer complete limit).2 in
  match fuel with
  | O => Panic
  | S fuel =>
      if decide (parse false <> tcpClassifierNeedMore) then Ok (buffer, conn) else
      if limit <=? zlen buffer then Ok (buffer, conn) else
      let '(got, err, conn) := Conn_Read (limit - zlen buffer) conn in
      let buffer := buffer ++ got in
      if (0 <? zlen got) && bool_decide ((parseSSHBannerClassification buffer false limit).2 <> tcpClassifierNeedMore)
      then Ok (buffer, conn) else
      match err with
      | None => readTCPPrefix fuel limit buffer conn
      | Some ReadTimeout | Some ReadEOF => Ok (buffer, conn)
      | Some (ReadFailed msg) =>
          if decide ((parseSSHBannerClassification buffer true limit).2 = tcpClassifierMatched)
          then Ok (buffer, conn) else Err msg
      end
  end.

(** [net.DialTimeout] to an address: an error, or what the server sends on the connection
    before it hears from the client. *)
Class Network := { DialTCP : IP -> Z -> option Conn }.

(** The adapter request of a TCP flow: the destination, the client with what was read
    from it, and the upstream connection if one is open already. *)
Record adapterRequest := mkRequest {
  rq_DestIP : IP; rq_DestPort : Z; rq_Host : string;
  rq_Conn : Conn; rq_Prefix : option bytes;
  rq_UpstreamConn : option Conn; rq_UpstreamPrefix : option bytes
}.

(** What becomes of a flow. *)
Inductive outcome :=
  | FlowUnclassified (err : string)
  | FlowDenied (decision : trafficDecision)
  | FlowWithoutAdapter (decision : trafficDecision) (err : string)
  | FlowHandled (decision : trafficDecision) (adapter : proxyAdapter) (req : adapterRequest).

Section handler.
Context `{UC : UnicodeCase} `{HR : HTTPReader} `{RS : Resolver} `{NW : Network}.

(** The server: its verifier, and the addresses dialled so far, the last one first. *)
Record Server := mkServer { sv_verifier : dnsHostVerifier; sv_dialed : list (IP * Z) }.

Definition dialTCPUpstream (destIP : IP) (destPort : Z) : ST string Server Conn := fun s =>
  if is_nil destIP || (destPort <=? 0) then (Err "missing destination", s) else
  let s := mkServer (sv_verifier s) ((destIP, destPort) :: sv_dialed s) in
  match DialTCP destIP destPort with
  | None => (Err "dial failed", s)
  | Some conn => (Ok conn, s)
  end.

(** The upstream connection, with what it sent first. *)
Definition probeTCPUpstream (destIP : IP) (destPort limit : Z) : ST string Server (bytes * Conn) :=
  let* upstream := dialTCPUpstream destIP destPort in
  let limit := if limit <=? 0 then defaultTCPHeaderLimit else limit in
  lift_res (readTCPPrefix (Z.to_nat limit + 1) limit [] upstream).

Definition probeServerFirstSSH (compiled : option CompiledPolicy) (req : adapterRequest)
    (c : trafficClassification) (ctx : tcpClassifyContext)
    : ST string Server (adapterRequest * trafficClassification) := fun s =>
  if negb (bool_decide (tc_Transport c = "tcp")) || bool_decide (tc_UnknownReason c = "") then (Ok (req, c), s) else
  if bool_decide (is_Some (rq_UpstreamConn req)) || is_nil (rq_DestIP req) || (rq_DestPort req <=? 0) then (Ok (req, c), s) else
  if negb (HasTrafficRuleAppProtocol compiled "ssh") then (Ok (req, c), s) else
  match probeTCPUpstream (rq_DestIP req) (rq_DestPort req) (headerLimit ctx) s with
  | (Panic, s) => (Panic, s)
  | (Err _, s) => (Ok (req, c), s)
  | (Ok (upstreamPrefix, upstream), s) =>
      let req := mkRequest (rq_DestIP req) (rq_DestPort req) (rq_Host req) (rq_Conn req) (rq_Prefix req)
                           (Some upstream) (if 0 <? zlen upstreamPrefix then Some upstreamPrefix else None) in
      match parseSSHBannerClassification upstreamPrefix true (headerLimit ctx) with
      | (banner, tcpClassifierMatched) =>
          if decide (banner = "") then (Ok (req, c), s)
          else (Ok (req, classifyKnownTraffic "tcp" "ssh" (rq_DestIP req) (rq_DestPort req) ""), s)
      | _ => (Ok (req, c), s)
      end
  end.

(** [handleTCPDecision] up to the adapter. *)
Definition handleTCPDecision (adapters : adapterRegistry) (req : adapterRequest) (decision : trafficDecision) : outcome :=
  match td_Action decision with
  | decisionActionDeny => FlowDenied decision
  | _ =>
      match Resolve decision adapters with
      | Ok (Some adapter) => FlowHandled decision adapter req
      | Ok None | Panic => FlowWithoutAdapter decision "adapter is nil"
      | Err e => FlowWithoutAdapter decision e
      end
  end.

(** [handleTCPConn] for a connection from a sandbox with policy [compiled] to the original
    destination; the host is looked up at time [now], the answer arrives [later]. *)
Definition handleTCPConn (adapters : adapterRegistry) (limit now later : Z) (compiled : option CompiledPolicy)
    (origIP : IP) (origPort : Z) (conn : Conn) : ST string Server outcome := fun s =>
  match classifyTCP defaultTCPClassifiers (newTCPClassifyContext origIP origPort limit conn) with
  | (Panic, _) | (Ok None, _) => (Panic, s)
  | (Err e, _) => (Ok (FlowUnclassified e), s)
  | (Ok (Some result), ctx) =>
      let req := mkRequest origIP origPort (cr_Host result) (cx_Conn ctx) (cr_Prefix result) None None in
      let '(verified, v) := verifyClassifiedHost now later compiled (cr_Classification result) (sv_verifier s) in
      (let* c := lift_res verified in
       let* rc := probeServerFirstSSH compiled req c ctx in
       ret (handleTCPDecision adapters rc.1 (decideTraffic compiled rc.2))) (mkServer v (sv_dialed s))
  end.

(** What the upstream and the client are sent by a flow that is relayed
    ([relayTCPConnWithUpstream]), each side to its end. *)
Definition relayTCPConnWithUpstream (req : adapterRequest) : ST string Server (bytes * bytes) := fun s =>
  if is_nil (rq_DestIP req) || (rq_DestPort req <=? 0) then (Err "missing destination", s) else
  (let* upstream := match rq_UpstreamConn req with
                    | Some upstream => ret upstream
                    | None => dialTCPUpstream (rq_DestIP req) (rq_DestPort req)
                    end in
   ret (default [] (rq_Prefix req) ++ concat (ar_data <$> rq_Conn req),
        default [] (rq_UpstreamPrefix req) ++ concat (ar_data <$> upstream))) s.

End handler.
