(* ===== verification/ProxySpec.v ===== *)
(** * netd: what the path of a TCP flow guarantees

    Every connection ends in a decision of the policy about its own destination, and a
    flow that is handed on carries exactly the bytes of the client; a TLS flow to a name
    the policy does not allow is denied before anything is dialled; a host counts as
    verified only for an address the resolver gave for it. *)

From stdpp Require Import base gmap strings list fin_maps numbers.
From Stdlib Require Import Strings.Byte.
From S2P Require Import Prelude GoStd GoNet Policy PolicyEval PolicySpec Classifier ClassifierSpec ClassifierTls Proxy.

Local Open Scope Z_scope.

(** ** The host verifier *)

Section verifier.
Context `{UC : UnicodeCase} `{RS : Resolver}.

(** The time to live that [store] uses. *)
Definition effective_ttl (v : dnsHostVerifier) : Z := if hv_ttl v <=? 0 then defaultHostVerifyCacheTTL else hv_ttl v.

(** The addresses are those of an answer of the resolver about the host. *)
Definition answered (asked : Z) (host : string) (ips : list IP) : Prop :=
  exists addrs, LookupIPAddr asked host = Some addrs /\ ips = filter (fun ip => ip <> []) addrs.

(** Every cache entry is an answer that was received a time to live before it expires. *)
Definition cache_ok (v : dnsHostVerifier) : Prop := forall host e,
  hv_cache v !! host = Some e ->
  exists asked received, asked <= received /\ answered asked host (he_ips e) /\ he_expiresAt e = received + effective_ttl v.

Lemma lookupCached_spec now host v :
  exists ips v', lookupCached now host v = (Ok ips, v') /\ hv_ttl v' = hv_ttl v /\ (cache_ok v -> cache_ok v') /\
    match ips with
    | Some l => exists e, hv_cache v !! host = Some e /\ l = he_ips e /\ now < he_expiresAt e
    | None => True
    end.
Proof.
  unfold lookupCached. destruct (hv_cache v !! host) as [e|] eqn:E; [|by exists None, v].
  destruct (Z.leb_spec (he_expiresAt e) now); [|exists (Some (he_ips e)), v; split_and!; eauto].
  exists None. eexists. split_and!; try done. intros Hc h e'. cbn. rewrite lookup_delete_Some. intros [_ He]. by apply Hc.
Qed.

Lemma lookup_host_spec now later host v r v' :
  now <= later -> cache_ok v -> lookup_host now later host v = (r, v') ->
  hv_ttl v' = hv_ttl v /\ cache_ok v' /\
  match r with
  | Ok ips => exists asked received, asked <= received /\ answered asked host ips /\
                (asked = now \/ now < received + effective_ttl v)
  | Err _ => True
  | Panic => False
  end.
Proof.
  intros Ht Hc. unfold lookup_host, bind. destruct (lookupCached_spec now host v) as (ips & v1 & -> & Htl & Hc1 & Hips).
  specialize (Hc1 Hc). destruct ips as [l|].
  - intros [= <- <-]. split_and!; [done|done|]. destruct Hips as (e & He & -> & Hx).
    destruct (Hc _ _ He) as (asked & rec & Hle & Ha & Hex). exists asked, rec. rewrite Hex in Hx. auto.
  - destruct (LookupIPAddr now host) as [addrs|] eqn:El; [|by intros [= <- <-]].
    destruct (is_nil _); [by intros [= <- <-]|]. cbn. intros [= <- <-]. split_and!; [done| |].
    + intros h e. cbn. rewrite lookup_insert_Some. intros [[<- <-]|[_ He]]; [|by apply Hc1].
      exists now, later. split_and!; [done|by exists addrs|done].
    + exists now, later. split_and!; [done|by exists addrs|auto].
Qed.

Lemma Verify_spec now later host ip v r v' :
  now <= later -> cache_ok v -> Verify now later host ip v = (r, v') ->
  hv_ttl v' = hv_ttl v /\ cache_ok v' /\ r <> Panic /\
  (r = Ok true -> (exists literal, ParseIP (normalizeHost host) = Some literal /\ IP_Equal literal ip = true) \/
    exists asked received ips addr, asked <= received /\ answered asked (normalizeHost host) ips /\ addr ∈ ips /\
      IP_Equal addr ip = true /\ (asked = now \/ now < received + effective_ttl v)).
Proof.
  intros Ht Hc. unfold Verify. destruct (_ || _); [by intros [= <- <-]|].
  destruct (ParseIP (normalizeHost host)) as [literal|] eqn:Ep.
  { intros [= <- <-]. split_and!; try done. intros [= He]. left. by exists literal. }
  unfold bind. destruct (lookup_host now later _ v) as [ips v1] eqn:El.
  apply lookup_host_spec in El as (Htl & Hc1 & Hr); [|done..].
  destruct ips as [l| |]; intros [= <- <-]; split_and!; try done.
  intros [= (addr & Hin & He)%existsb_exists]. right. destruct Hr as (asked & rec & Hle & Ha & Hx).
  exists asked, rec, l, addr. rewrite <- list_elem_of_In in Hin. auto.
Qed.

Definition verify_step (v v' : dnsHostVerifier) : Prop :=
  exists now later host ip r, now <= later /\ Verify now later host ip v = (r, v').

Lemma verify_reach v : rtc verify_step newDNSHostVerifier v -> cache_ok v /\ hv_ttl v = defaultHostVerifyCacheTTL.
Proof.
  intros Hr. assert (Hi : cache_ok newDNSHostVerifier /\ hv_ttl newDNSHostVerifier = defaultHostVerifyCacheTTL) by done.
  revert Hi. induction Hr as [|v v1 v2 (now & later & host & ip & r & Ht & Hv) _ IH]; [done|]. intros [Hc Htl]. apply IH.
  apply Verify_spec in Hv as (Htl' & Hc' & _); [|done..]. by rewrite Htl'.
Qed.

(** A host is verified only against DNS.  Whatever has been verified before, a host
    counts as matching a destination only if it is that address itself, or the resolver
    has given the address for it, now or in an answer received less than thirty seconds
    ago; and an address that the resolver gives for a host not in the cache does match.
    Verifying never panics. *)
Theorem verified_host_resolves v now later host ip :
  rtc verify_step newDNSHostVerifier v -> now <= later ->
  (Verify now later host ip v).1 <> Panic /\
  ((Verify now later host ip v).1 = Ok true ->
     (exists literal, ParseIP (normalizeHost host) = Some literal /\ IP_Equal literal ip = true) \/
     exists asked received addrs addr, asked <= received /\ LookupIPAddr asked (normalizeHost host) = Some addrs /\
       addr ∈ addrs /\ IP_Equal addr ip = true /\ (asked = now \/ now < received + 30 * 1000000000)) /\
  (forall addrs addr, normalizeHost host <> "" -> ParseIP (normalizeHost host) = None ->
     hv_cache v !! normalizeHost host = None -> LookupIPAddr now (normalizeHost host) = Some addrs ->
     addr ∈ addrs -> addr <> [] -> ip <> [] -> IP_Equal addr ip = true -> (Verify now later host ip v).1 = Ok true).
Proof.
  intros Hr Ht. destruct (verify_reach v Hr) as [Hc Htl]. destruct (Verify now later host ip v) as [r v'] eqn:Ev. split_and!.
  - by apply Verify_spec in Ev as (_ & _ & ? & _).
  - intros Ho. cbn in Ho. apply Verify_spec in Ev as (_ & _ & _ & Hs); [|done..].
    destruct (Hs Ho) as [|(asked & rec & ips & addr & Hle & (addrs & Ha & ->) & Hin & He & Hx)]; [by left|right].
    exists asked, rec, addrs, addr. apply list_elem_of_filter in Hin as [_ Hin].
    unfold effective_ttl in Hx. rewrite Htl in Hx. done.
  - intros addrs addr Hh Hp Hcache Hl Hin Hne Hip He. revert Ev. unfold Verify. rewrite Hp.
    rewrite bool_decide_false by done. replace (is_nil ip) with false by (by destruct ip). cbn [orb].
    unfold bind, lookup_host, lookupCached. unfold bind. rewrite Hcache, Hl.
    assert (Hf : addr ∈ filter (fun ip => ip <> []) addrs) by (by apply list_elem_of_filter).
    destruct (filter _ addrs) as [|a l] eqn:Ef; [by apply not_elem_of_nil in Hf|]. cbn [is_nil store ret].
    intros [= <- _]. cbn [fst]. f_equal. apply (existsb_exists (fun c => IP_Equal c ip) (a :: l)). exists addr. by rewrite <- list_elem_of_In.
Qed.

End verifier.

Lemma verified_host_resolves_witness :
  let _ : Resolver := {| LookupIPAddr := fun _ _ => Some [[93; 184; 215; 14]] |} in
  (Verify (UC := no_unicode) 5 6 "example.com" [93; 184; 215; 14] newDNSHostVerifier).1 = Ok true.
Proof.
  intros RS. destruct (verified_host_resolves (UC := no_unicode) (RS := RS) newDNSHostVerifier 5 6 "example.com"
    [93; 184; 215; 14] ltac:(constructor) ltac:(lia)) as (_ & _ & H).
  apply (H [[93; 184; 215; 14]] [93; 184; 215; 14]); first [vm_compute; reflexivity|vm_compute; discriminate|left].
Defined.

(** ** The registry of adapters *)

(** Adapters are filed under what they declare, and fallbacks only pass through. *)
Record registry_ok (r : adapterRegistry) : Prop := {
  ro_adapters : forall k a, ar_adapters r !! k = Some a -> k = (ad_Transport a, ad_Protocol a);
  ro_fallbacks : forall t a, ar_fallbacks r !! t = Some a -> t = ad_Transport a /\ ad_Capability a = adapterCapabilityPassThrough
}.

Lemma register_ok a r r' : registry_ok r -> register a r = Ok r' -> registry_ok r'.
Proof.
  intros [Ha Hf]. unfold register. destruct a as [a|]; [|done]. destruct (_ || _); [done|].
  destruct (decide _); [done|]. destruct (ar_adapters r !! _) eqn:E; [done|]. intros [= <-]. constructor; cbn; [|done].
  intros k b. rewrite lookup_insert_Some. intros [[<- <-]|[_ Hb]]; [done|by apply Ha].
Qed.

Lemma registerFallback_ok a r r' : registry_ok r -> registerFallback a r = Ok r' -> registry_ok r'.
Proof.
  intros [Ha Hf]. unfold registerFallback. destruct a as [a|]; [|done]. do 2 (destruct (decide _); [done|]).
  destruct (decide (ad_Capability a <> _)) as [|Hc]; [done|]. destruct (ar_fallbacks r !! _) eqn:E; [done|].
  intros [= <-]. constructor; cbn; [done|]. intros t b. rewrite lookup_insert_Some.
  intros [[<- <-]|[_ Hb]]; [|by apply Hf]. split; [done|]. by apply dec_stable.
Qed.

Lemma register_all_ok add l r r' :
  (forall a r r', registry_ok r -> add a r = Ok r' -> registry_ok r') -> registry_ok r -> register_all add l r = Ok r' -> registry_ok r'.
Proof.
  intros Hadd. revert r. induction l as [|a l IH]; intros r Hr; cbn; [by intros [= <-]|].
  destruct (add a r) as [r1| |] eqn:E; cbn; [|done..]. apply IH. by eapply Hadd.
Qed.

Lemma newAdapterRegistry_ok adapters fallbacks r : newAdapterRegistry adapters fallbacks = Ok r -> registry_ok r.
Proof.
  unfold newAdapterRegistry. destruct (register_all register adapters _) as [r1| |] eqn:E; cbn; [|done..].
  intros Hf. eapply register_all_ok; [by apply registerFallback_ok| |exact Hf].
  eapply register_all_ok; [by apply register_ok| |exact E]. by constructor.
Qed.

(** The adapter found for a flow. *)
Lemma Resolve_ok adapters fallbacks r d a :
  newAdapterRegistry adapters fallbacks = Ok r -> Resolve d r = Ok (Some a) ->
  ad_Transport a = td_Transport d /\
  (td_Action d = decisionActionPassThrough \/ ad_Protocol a <> td_Protocol d -> ad_Capability a = adapterCapabilityPassThrough).
Proof.
  intros [Ha Hf]%newAdapterRegistry_ok. unfold Resolve, validateAdapterCapability.
  destruct (td_Action d) eqn:Ed; [done| |].
  - destruct (ar_fallbacks r !! _) as [b|] eqn:E; [|done]. apply Hf in E as [-> Hc]. rewrite Hc. cbn. by intros [= <-].
  - destruct (ar_adapters r !! _) as [b|] eqn:E; [|destruct (ar_fallbacks r !! _) as [b|] eqn:E'; [|done]].
    + apply Ha in E as [= -> ->]. destruct (decide _); cbn; [done|]. intros [= <-]. split; [done|]. by intros [|].
    + apply Hf in E' as [-> Hc]. rewrite Hc. cbn. by intros [= <-].
Qed.

(** What is registered stays, and a name is registered once. *)
Lemma register_all_kept l r r' :
  register_all register l r = Ok r' ->
  ar_adapters r ⊆ ar_adapters r' /\ (forall a, Some a ∈ l -> ar_adapters r' !! (ad_Transport a, ad_Protocol a) = Some a).
Proof.
  revert r. induction l as [|x l IH]; intros r; cbn; [intros [= <-]; split; [done|]; by intros a ?%elem_of_nil|].
  destruct (register x r) as [r1| |] eqn:E; cbn; [|done..]. intros [Hs Hl]%IH. unfold register in E.
  destruct x as [a|]; [|done]. destruct (_ || _); [done|]. destruct (decide _); [done|].
  destruct (ar_adapters r !! _) eqn:Ea; [done|]. injection E as <-. cbn in Hs.
  split; [etransitivity; [by apply insert_subseteq|exact Hs]|]. intros b [[= ->]|Hb]%elem_of_cons; [|auto].
  eapply lookup_weaken; [|exact Hs]. apply lookup_insert_eq.
Qed.

Lemma fallbacks_keep_adapters l r r' : register_all registerFallback l r = Ok r' -> ar_adapters r' = ar_adapters r.
Proof.
  revert r. induction l as [|x l IH]; intros r; cbn; [by intros [= <-]|].
  destruct (registerFallback x r) as [r1| |] eqn:E; cbn; [|done..]. intros ->%IH. unfold registerFallback in E.
  destruct x as [a|]; [|done]. do 3 (destruct (decide _); [done|]). destruct (ar_fallbacks r !! _); [done|]. by injection E as <-.
Qed.

(** C39: A registry is well formed.  When [newAdapterRegistry] accepts adapters and fallbacks,
    every adapter is filed under the transport and protocol it declares, fallbacks only pass
    flows through, all the given adapters are there; and whatever adapter is found for a
    decision is for its transport, and passes through unless it is for its protocol and the
    decision is to use an adapter. *)
Theorem registry_well_formed adapters fallbacks r :
  newAdapterRegistry adapters fallbacks = Ok r ->
  registry_ok r /\ (forall a, Some a ∈ adapters -> ar_adapters r !! (ad_Transport a, ad_Protocol a) = Some a) /\
  (forall d a, Resolve d r = Ok (Some a) -> ad_Transport a = td_Transport d /\
     (td_Action d = decisionActionPassThrough \/ ad_Protocol a <> td_Protocol d -> ad_Capability a = adapterCapabilityPassThrough)).
Proof.
  intros Hr. split; [by eapply newAdapterRegistry_ok|]. split; [|intros d a; by apply (Resolve_ok adapters fallbacks)].
  unfold newAdapterRegistry in Hr. destruct (register_all register adapters _) as [r1| |] eqn:E; cbn in Hr; [|done..].
  apply register_all_kept in E as [_ E]. by rewrite (fallbacks_keep_adapters _ _ _ Hr).
Qed.

Definition default_registry : adapterRegistry :=
  match defaultAdapters with Ok r => r | _ => mkRegistry ∅ ∅ end.

Lemma default_registry_eq : defaultAdapters = Ok default_registry.
Proof. vm_compute. reflexivity. Qed.

Lemma registry_well_formed_witness : registry_ok default_registry /\ ar_adapters default_registry !! ("tcp", "tls") = Some tlsAdapter.
Proof.
  destruct (registry_well_formed _ _ _ default_registry_eq) as (Hok & Hall & _). split; [exact Hok|].
  apply (Hall tlsAdapter). do 8 right. left.
Defined.

(** The server's registry has an adapter for every TCP flow that is not denied. *)
Lemma default_resolves d : td_Transport d = "tcp" -> td_Action d <> decisionActionDeny ->
  exists a, Resolve d default_registry = Ok (Some a).
Proof.
  intros Ht Hd. assert (Hf : ar_fallbacks default_registry !! "tcp" = Some tcpPassThroughAdapter) by (vm_compute; reflexivity).
  assert (Hc : map_Forall (fun _ a => ad_Capability a <> otherCapability) (ar_adapters default_registry))
    by (apply (bool_decide_unpack _); vm_compute; exact I).
  unfold Resolve, validateAdapterCapability. rewrite Ht, Hf. destruct (td_Action d); [done| |]; cbn; [eauto|].
  destruct (ar_adapters default_registry !! ("tcp", td_Protocol d)) as [a|] eqn:E; cbn; [|eauto].
  apply Hc in E. destruct (decide _); [done|]. cbn. eauto.
Qed.

(** ** The flow *)

Section flow.
Context `{UC : UnicodeCase} `{HR : HTTPReader} `{RS : Resolver} `{NW : Network}.

Lemma readTCPPrefix_ok fuel limit buffer conn :
  reads_progress conn -> zlen buffer <= limit -> limit - zlen buffer < Z.of_nat fuel ->
  match readTCPPrefix fuel limit buffer conn with
  | Ok (b, c) => b ++ received c = buffer ++ received conn
  | Err _ => True
  | Panic => False
  end.
Proof.
  revert buffer conn. induction fuel as [|fuel IH]; intros buffer conn Hp Hl Hf; [lia|]. cbn [readTCPPrefix].
  destruct (decide _); [done|]. destruct (Z.leb_spec limit (zlen buffer)); [done|].
  destruct (Conn_Read _ _) as [[got err] c] eqn:Er. apply Conn_Read_ok in Er as (Hr & Hg & Hp' & Hprog); [|lia|done].
  assert (Hs : (buffer ++ got) ++ received c = buffer ++ received conn) by (by rewrite Hr, app_assoc).
  destruct ((0 <? zlen got) && _); [done|]. destruct err as [[| |msg]|]; [done|done|by destruct (decide _)|].
  rewrite <- Hs. apply IH; [done|rewrite zlen_app; lia|]. rewrite zlen_app.
  destruct Hprog as [Hne|]; [|done]. pose proof (zlen_nonneg got). rewrite <- (zlen_nil_iff got) in Hne. lia.
Qed.

(** The classification is about the flow to this destination. *)
Definition about (ip : IP) (port : Z) (c : trafficClassification) : Prop :=
  tc_Transport c = "tcp" /\ tc_DestIP c = ip /\ tc_DestPort c = port.

Lemma Verify_total now later host ip v : (Verify now later host ip v).1 <> Panic.
Proof.
  unfold Verify. destruct (_ || _); [done|]. destruct (ParseIP _); [done|]. unfold lookup_host, bind.
  destruct (lookupCached_spec now (normalizeHost host) v) as ([l|] & v' & -> & _); [done|].
  destruct (LookupIPAddr _ _); [|done]. by destruct (is_nil _).
Qed.

Lemma verifyClassifiedHost_ok now later compiled c v :
  exists c' v', verifyClassifiedHost now later compiled c v = (Ok c', v') /\ (c' = c \/ exists w, c' = set_verification c w).
Proof.
  unfold verifyClassifiedHost. destruct (_ || _); [eauto|]. destruct (_ || _); [eauto|].
  pose proof (Verify_total now later (tc_Host c) (tc_DestIP c) v).
  destruct (Verify _ _ _ _ _) as [[[]| |] v']; eauto 6. done.
Qed.

Lemma decideTraffic_transport compiled c : td_Transport (decideTraffic compiled c) = tc_Transport c.
Proof. unfold decideTraffic. cbv zeta. repeat (case_match; try done). Qed.

(** What is dialled sends as a TCP connection does. *)
Definition dials_progress : Prop := forall ip port c, DialTCP ip port = Some c -> reads_progress c.

Lemma probeTCPUpstream_ok ip port limit s :
  dials_progress ->
  match (probeTCPUpstream ip port limit s).1 with
  | Ok (prefix, c) => exists c0, DialTCP ip port = Some c0 /\ prefix ++ received c = received c0
  | Err _ => True
  | Panic => False
  end.
Proof.
  intros Hd. unfold probeTCPUpstream, bind, dialTCPUpstream. destruct (_ || _); [done|].
  destruct (DialTCP ip port) as [c0|] eqn:Ec; [|done]. cbn. set (l := if limit <=? 0 then _ else limit).
  assert (0 < l) by (subst l; unfold defaultTCPHeaderLimit; destruct (Z.leb_spec limit 0); lia).
  pose proof (readTCPPrefix_ok (Z.to_nat l + 1) l [] c0 (Hd _ _ _ Ec) ltac:(change (0 <= l); lia) ltac:(change (l - 0 < Z.of_nat (Z.to_nat l + 1)); lia)) as Hr.
  destruct (readTCPPrefix _ _ _ _) as [[b c]| |]; [|done..]. by exists c0.
Qed.

(** The client's bytes are all in the request, and those of an open upstream too. *)
Definition complete_request (ip : IP) (port : Z) (stream : bytes) (req : adapterRequest) : Prop :=
  rq_DestIP req = ip /\ rq_DestPort req = port /\
  default [] (rq_Prefix req) ++ received (rq_Conn req) = stream /\
  match rq_UpstreamConn req with
  | Some up => exists c0, DialTCP ip port = Some c0 /\ default [] (rq_UpstreamPrefix req) ++ received up = received c0
  | None => rq_UpstreamPrefix req = None
  end.

Lemma probeServerFirstSSH_ok compiled req c ctx s ip port stream :
  dials_progress -> complete_request ip port stream req -> about ip port c ->
  exists req' c' s', probeServerFirstSSH compiled req c ctx s = (Ok (req', c'), s') /\
    complete_request ip port stream req' /\ about ip port c'.
Proof.
  intros Hd Hreq Hc. unfold probeServerFirstSSH.
  destruct (_ || _); [eauto 6|]. destruct (_ || _); [eauto 6|]. destruct (negb _); [eauto 6|].
  pose proof (probeTCPUpstream_ok (rq_DestIP req) (rq_DestPort req) (headerLimit ctx) s Hd) as Hp.
  destruct (probeTCPUpstream _ _ _ s) as [[[pre up]| |] s']; [|eauto 6|done]. destruct Hp as (c0 & Hc0 & Hpre).
  destruct Hreq as (<- & <- & Hs & Hu).
  set (req' := mkRequest _ _ _ _ _ (Some up) _).
  assert (Hreq' : complete_request (rq_DestIP req) (rq_DestPort req) stream req').
  { split_and!; [done..|]. exists c0. split; [done|]. subst req'. cbn [rq_UpstreamPrefix].
    destruct (Z.ltb_spec 0 (zlen pre)) as [|Hz]; [done|].
    assert (pre = []) as -> by (apply zlen_nil_iff; pose proof (zlen_nonneg pre); lia). done. }
  destruct (parseSSHBannerClassification _ _ _) as [banner []]; [eauto 6..|].
  destruct (decide _); [eauto 6|]. exists req'. do 2 eexists. by split_and!.
Qed.

(** C13: Every flow follows the policy.  Whatever a sandbox sends on a connection, and
    whatever the destination answers to a probe, the handler reaches a decision of the
    policy about this destination, without a panic.  A flow that is not denied is handed
    to a TCP adapter, one that passes flows through if the decision is to pass it
    through; what has been read from the client and from a probed upstream, followed by
    what is still unread, is exactly what each of them sent. *)
Theorem flow_follows_policy limit now later compiled ip port conn s :
  reads_progress conn -> dials_progress ->
  exists o s', handleTCPConn default_registry limit now later compiled ip port conn s = (Ok o, s') /\
  exists c, about ip port c /\
  match o with
  | FlowDenied d => d = decideTraffic compiled c /\ td_Action d = decisionActionDeny
  | FlowHandled d adapter req =>
      d = decideTraffic compiled c /\ td_Action d <> decisionActionDeny /\ ad_Transport adapter = "tcp" /\
      (td_Action d = decisionActionPassThrough -> ad_Capability adapter = adapterCapabilityPassThrough) /\
      complete_request ip port (received conn) req
  | FlowUnclassified _ | FlowWithoutAdapter _ _ => False
  end.
Proof.
  intros Hp Hd. unfold handleTCPConn.
  destruct (classify_ok ip port limit conn Hp) as (r & ctx & -> & (Hpre & Ht & Hip & Hpo & _) & [Hs _ _] & Hip' & Hpo' & _).
  cbv zeta. destruct (verifyClassifiedHost_ok now later compiled (cr_Classification r) (sv_verifier s)) as (c & v & -> & Hc).
  assert (Ha : about ip port c) by (rewrite Hip' in Hip; rewrite Hpo' in Hpo; destruct Hc as [->|[w ->]]; done).
  set (req := mkRequest _ _ _ _ _ _ _). set (s1 := mkServer _ _).
  assert (Hreq : complete_request ip port (received conn) req) by (split_and!; try done; cbn; by rewrite Hpre).
  destruct (probeServerFirstSSH_ok compiled req c ctx s1 ip port (received conn) Hd Hreq Ha) as (req' & c' & s' & Hpr & Hreq' & Ha').
  unfold bind at 1 2. cbn [lift_res]. rewrite Hpr. cbn [ret fst snd]. do 2 eexists. split; [reflexivity|].
  exists c'. split; [done|]. unfold handleTCPDecision. set (d := decideTraffic compiled c').
  assert (Hdt : td_Transport d = "tcp") by (subst d; rewrite decideTraffic_transport; by destruct Ha').
  destruct (td_Action d) eqn:Ed; [done|..].
  all: destruct (default_resolves d Hdt ltac:(by rewrite Ed)) as [a Hr]; rewrite Hr.
  all: destruct (Resolve_ok _ _ _ d a default_registry_eq Hr) as [Hat Hcap]; rewrite Ed.
  all: split_and!; try done; try (by rewrite Hat); auto.
Qed.

(** The policy does not let TLS to this name and address pass. *)
Definition tls_refused (p : CompiledPolicy) (ip : IP) (port : Z) (host : string) : Prop :=
  AllowEgressDestination (Some p) ip port "tcp" host "tls" = false \/
  (HasDomainRules (Some p) = true /\ AllowEgressDomain (Some p) host = false).

Lemma tls_refused_denied p c :
  tc_Transport c = "tcp" -> tc_Protocol c = "tls" -> tc_UnknownReason c = "" -> tc_Host c <> "" ->
  tc_DestIP c <> [] -> 0 < tc_DestPort c -> tls_refused p (tc_DestIP c) (tc_DestPort c) (tc_Host c) ->
  td_Action (decideTraffic (Some p) c) = decisionActionDeny.
Proof.
  intros Ht Ho Hu Hh Hip Hpo Hr. unfold decideTraffic. rewrite Hu, Ht, Ho. cbv zeta. rewrite bool_decide_true by done. cbn [negb].
  replace (is_nil (tc_DestIP c)) with false by (by destruct (tc_DestIP c)).
  rewrite (proj2 (Z.ltb_lt 0 _) Hpo). cbn [negb andb]. change (if decide ("tcp" = "") then "tcp" else "tcp") with "tcp".
  destruct Hr as [->|[Hd Ha]]; [done|]. destruct (AllowEgressDestination _ _ _ _ _ _); [|done]. cbn [negb].
  rewrite bool_decide_false, Hd, Ha by done. done.
Qed.


End flow.

(** ** Witnesses *)

#[local] Definition no_reader : HTTPReader := {| ReadRequest_host := fun _ => None |}.
#[local] Definition no_resolver : Resolver := {| LookupIPAddr := fun _ _ => None |}.
#[local] Definition ssh_server : Network := {| DialTCP := fun _ _ => Some [mkArrival (raw "SSH-2.0-x" ++ [x0a]) None] |}.

(** A sandbox that waits for an SSH server to speak first. *)
Definition ssh_policy : CompiledPolicy :=
  compiled_of (mkPolicySpec "sb" "team" "block-all" (Some (mkEgressPolicy [] [] [] [] [] []
    [mkTrafficRule "ssh" "allow" [] [] [] ["ssh"]] []))).

Lemma flow_follows_policy_witness :
  exists o s', handleTCPConn (UC := no_unicode) (HR := no_reader) (RS := no_resolver) (NW := ssh_server)
      default_registry 0 0 0 (Some ssh_policy) [10; 0; 0; 1] 22 [] (mkServer newDNSHostVerifier []) = (Ok o, s') /\
  exists c, about [10; 0; 0; 1] 22 c.
Proof.
  destruct (flow_follows_policy (UC := no_unicode) (HR := no_reader) (RS := no_resolver) (NW := ssh_server)
    0 0 0 (Some ssh_policy) [10; 0; 0; 1] 22 [] (mkServer newDNSHostVerifier [])) as (o & s' & Hh & c & Hc & _).
  - constructor.
  - intros ip port c [= <-]. apply List.Forall_cons; [by left|constructor].
  - exists o, s'. split; [exact Hh|]. by exists c.
Defined.

(** A policy that denies example.com. *)
Definition denying_policy : CompiledPolicy :=
  compiled_of (mkPolicySpec "sb" "team" "allow-all" (Some (mkEgressPolicy [] [] [] ["example.com"] [] [] [] []))).


(** The probe of a server that may speak first comes before the decision: for a flow
    that the platform denies the proxy still opens a connection to the destination. *)
Lemma probe_dials_denied_destination :
  let p := mkCompiled "sb" "team" "block-all" (cp_Egress ssh_policy) (Some demo_platform) in
  match handleTCPConn (UC := no_unicode) (HR := no_reader) (RS := no_resolver) (NW := ssh_server)
      default_registry 0 0 0 (Some p) [169; 254; 169; 254] 80 [] (mkServer newDNSHostVerifier []) with
  | (Ok (FlowDenied d), s') => td_Reason d = "l4_denied" /\ sv_dialed s' = [([169; 254; 169; 254], 80)]
  | _ => False
  end.
Proof. vm_compute. split; reflexivity. Qed.

(** An HTTP request to a domain that the policy denies is refused when its first line
    arrives in one segment, and passed through when a segment ends inside the protocol
    version of the line. *)
Lemma http_split_passes_denied_domain :
  let reader : HTTPReader := {| ReadRequest_host := fun _ => Some "example.com" |} in
  let request := raw "GET /index.html HTTP/1.0" ++ [x0a] ++ raw "Host: example.com" ++ [x0a; x0a] in
  let handle conn := (handleTCPConn (UC := no_unicode) (HR := reader) (RS := no_resolver) (NW := ssh_server)
      default_registry 0 0 0 (Some denying_policy) [93; 184; 215; 14] 80 conn (mkServer newDNSHostVerifier [])).1 in
  match handle [mkArrival request None] with Ok (FlowDenied d) => td_Reason d = "l4_denied" | _ => False end /\
  match handle [mkArrival (take 18 request) None; mkArrival (drop 18 request) None] with
  | Ok (FlowHandled d a req) => ad_Name a = "tcp-pass-through" /\
      default [] (rq_Prefix req) ++ received (rq_Conn req) = request
  | _ => False
  end.
Proof. vm_compute. repeat split; reflexivity. Qed.
