(* ===== verification/Quic.v ===== *)
(** * netd: server names of UDP flows (netd/pkg/proxy: quic_sni.go, quic_reassembly.go)

    A UDP payload is searched for a TLS client hello, first as it is and then as a QUIC
    initial packet, whose CRYPTO frames are put together per connection.  The QUIC header
    and packet protection, variable-length integers and the client hello parser of the
    third-party packages quicsni, quicvarint and tlshacks are parameters, and so is the
    key derivation of x/crypto. *)

From stdpp Require Import base gmap strings list fin_maps numbers.
From Stdlib Require Import Strings.Byte.
From S2P Require Import Prelude GoStd GoNet Policy PolicyEval Classifier.

Local Open Scope Z_scope.

(** ** quic_sni.go *)

(** The loop over the server names.  [hello] is the slice of [data] that starts at [base]:
    indexing it is bounded by its length, slicing it by its capacity, the end of [data]. *)
Fixpoint handshake_names `{UnicodeCase} (fuel : nat) (data : bytes) (base : Z) (hello : bytes) (idx listEnd : Z)
    : res string string :=
  if idx + 3 <=? listEnd then
    match fuel with
    | O => Panic
    | S fuel =>
        let? nameType := at_ hello idx in
        let? nameLen := be16 hello (idx + 1) in
        let idx := idx + 3 in
        if (nameType =? 0) && (idx + nameLen <=? listEnd) then
          let? name := goslice (base + idx) (base + (idx + nameLen)) data in
          Ok (ToLower (str name))
        else handshake_names fuel data base hello (idx + nameLen) listEnd
    end
  else Ok "".

Fixpoint handshake_extensions `{UnicodeCase} (fuel : nat) (data : bytes) (base : Z) (hello : bytes) (idx end_ : Z)
    : res string string :=
  if idx + 4 <=? end_ then
    match fuel with
    | O => Panic
    | S fuel =>
        let? extType := be16 hello idx in
        let? extSize := be16 hello (idx + 2) in
        let idx := idx + 4 in
        if end_ <? idx + extSize then Ok "" else
        if extType =? 0 then
          if end_ <? idx + 2 then Ok "" else
          let? listLen := be16 hello idx in
          let idx := idx + 2 in
          handshake_names (length data) data base hello idx (idx + listLen)
        else handshake_extensions fuel data base hello (idx + extSize) end_
    end
  else Ok "".

Definition parseSNIFromTLSHandshake `{UnicodeCase} (data : bytes) : res string string :=
  match bytes_IndexByte data x01 with
  | None => Ok ""
  | Some offset =>
      if zlen data <=? offset + 4 then Ok "" else
      let? high := at_ data (offset + 1) in
      let? low := be16 data (offset + 2) in
      let length_ := Z.lor (Z.shiftl high 16) low in
      let base := offset + 4 in
      if zlen data <? base + length_ then Ok "" else
      let? hello := goslice base (base + length_) data in
      if zlen hello <? 34 then Ok "" else
      let idx := 34 in
      if zlen hello <=? idx then Ok "" else
      let? sessionLen := at_ hello idx in
      let idx := idx + (1 + sessionLen) in
      if zlen hello <? idx + 2 then Ok "" else
      let? cipherLen := be16 hello idx in
      let idx := idx + (2 + cipherLen) in
      if zlen hello <=? idx then Ok "" else
      let? compLen := at_ hello idx in
      let idx := idx + (1 + compLen) in
      if zlen hello <? idx + 2 then Ok "" else
      let? extLen := be16 hello idx in
      let idx := idx + 2 in
      let end_ := idx + extLen in
      if zlen hello <? end_ then Ok "" else
      handshake_extensions (length data) data base hello idx end_
  end.

(** ** quic_reassembly.go: the stream of one connection *)

Definition maxCryptoBuffer : Z := 256 * 1024.
Definition reassemblyTTL : Z := 20 * 1000000000.
Definition maxEntries : Z := 2048.

Record cryptoStream := mkStream {
  cs_nextOffset : Z; cs_buffer : bytes; cs_pending : gmap Z bytes; cs_updatedAt : Z
}.

(** [appendPending]; every turn deletes an entry, so the number of entries bounds it. *)
Fixpoint append_pending (fuel : nat) (next : Z) (buffer : bytes) (pending : gmap Z bytes)
    : res string (Z * bytes * gmap Z bytes) :=
  match pending !! next with
  | None => Ok (next, buffer, pending)
  | Some data =>
      match fuel with
      | O => Panic
      | S fuel => append_pending fuel (next + zlen data) (buffer ++ data) (delete next pending)
      end
  end.

Definition appendPending (s : cryptoStream) : res string cryptoStream :=
  let? r := append_pending (size (cs_pending s)) (cs_nextOffset s) (cs_buffer s) (cs_pending s) in
  let '(next, buffer, pending) := r in
  Ok (mkStream next buffer pending (cs_updatedAt s)).

Definition trim (s : cryptoStream) : res string cryptoStream :=
  if zlen (cs_buffer s) <=? maxCryptoBuffer then Ok s else
  let? buffer := goslice 0 maxCryptoBuffer (cs_buffer s) in
  Ok (mkStream (cs_nextOffset s) buffer ∅ (cs_updatedAt s)).

Definition add (offset : Z) (data : bytes) (s : cryptoStream) : res string cryptoStream :=
  if zlen data =? 0 then Ok s else
  let late := offset <? cs_nextOffset s in
  let skip := cs_nextOffset s - offset in
  if late && (zlen data <=? skip) then Ok s else
  let? data := (if late then goslice skip (zlen data) data else Ok data) in
  let offset := if late then cs_nextOffset s else offset in
  if offset =? cs_nextOffset s then
    let? s := appendPending (mkStream (cs_nextOffset s + zlen data) (cs_buffer s ++ data) (cs_pending s) (cs_updatedAt s)) in
    trim s
  else Ok (mkStream (cs_nextOffset s) (cs_buffer s) (<[offset := data]> (cs_pending s)) (cs_updatedAt s)).

(** ** quic_reassembly.go: packets *)

Record cryptoFrame := mkFrame { cf_Offset : Z; cf_Data : bytes }.

Record Header := mkHeader { hd_Length : Z; hd_DestConnectionID : bytes; hd_Version : Z }.

(** The third-party code: quicvarint.Read on the bytes that are left; the frame types,
    versions, header parser and packet protection of quicsni; the key derivation; and the
    server name of the hello that tlshacks finds. *)
Class QuicLib := {
  quicvarint_Read : bytes -> option (Z * bytes);
  PaddingFrameType : Z; CryptoFrameType : Z; V1 : Z; V2 : Z;
  ParseInitialHeader : bytes -> option (Header * Z);
  hkdf_Extract : bytes -> bytes -> bytes;
  hkdf_Expand : bytes -> bytes -> Z -> option bytes;
  InitialProtectionKey : Type;
  NewInitialProtectionKey : bytes -> Z -> option InitialProtectionKey;
  UnProtect : InitialProtectionKey -> bytes -> Z -> option bytes;
  UnmarshalClientHello_ServerName : bytes -> option string
}.

(** The order in which a range over the map visits the keys. *)
Class MapOrder := { range_keys : gmap string cryptoStream -> list string }.

Section packets.
Context `{UC : UnicodeCase} `{QL : QuicLib} `{MO : MapOrder}.

(** [bytes.Reader.Read] into a buffer of [n] bytes: at the end it is an error even when
    nothing is asked for. *)
Definition Reader_Read (n : Z) (rest : bytes) : res string (bytes * bytes) :=
  match rest with
  | [] => Err "EOF"
  | _ => Ok (take (Z.to_nat n) rest, drop (Z.to_nat n) rest)
  end.

Definition read_varint (rest : bytes) : res string (Z * bytes) :=
  match quicvarint_Read rest with Some r => Ok r | None => Err "EOF" end.

(** A varint takes at least one byte, so the length of the payload bounds the loop. *)
Fixpoint crypto_frames (fuel : nat) (rest : bytes) (frames : list cryptoFrame) : res string (list cryptoFrame) :=
  match rest with
  | [] => Ok frames
  | _ =>
      match fuel with
      | O => Panic
      | S fuel =>
          let? r := read_varint rest in
          let '(typ, rest) := r in
          if typ =? PaddingFrameType then crypto_frames fuel rest frames else
          if negb (typ =? CryptoFrameType) then Ok frames else
          let? r := read_varint rest in
          let '(offset, rest) := r in
          let? r := read_varint rest in
          let '(length_, rest) := r in
          if zlen rest <? length_ then Err "invalid crypto frame length" else
          let? r := Reader_Read length_ rest in
          let '(data, rest) := r in
          crypto_frames fuel rest (frames ++ [mkFrame offset data])
      end
  end.

Definition parseCryptoFrames (payload : bytes) : res string (list cryptoFrame) :=
  crypto_frames (length payload) payload [].

(** Package encoding/hex *)
Definition hex_EncodeToString (b : bytes) : string := hexString (bz <$> b).

Definition buildStreamKey (srcIP dstIP : string) (dcid : bytes) : string :=
  srcIP +:+ "|" +:+ dstIP +:+ "|" +:+ hex_EncodeToString dcid.

Definition getSalt (v : Z) : bytes :=
  if v =? V1 then [x38; x76; x2c; xf7; xf5; x59; x34; xb3; x4d; x17; x9a; xe6; xa4; xc8; x0c; xad; xcc; xbb; x7f; x0a] else
  if v =? V2 then [x0d; xed; xe3; xde; xf7; x00; xa6; xdb; x81; x93; x81; xbe; x6e; x26; x9d; xcb; xf9; xbd; x2e; xd9]
  else [xaf; xbf; xec; x28; x99; x93; xd2; x4c; x9e; x97; x86; xf1; x9c; x61; x11; xe0; x43; x90; xa8; x99].

Definition writeUint8Vector (buf value : bytes) : bytes :=
  let value := if 255 <? zlen value then take 255 value else value in
  buf ++ to_byte (zlen value) :: value.

Definition hkdfExpandLabel (secret : bytes) (label : string) (context : bytes) (length_ : Z) : res string bytes :=
  let builder := [to_byte (Z.shiftr length_ 8); to_byte length_] in
  let builder := writeUint8Vector builder (raw ("tls13 " +:+ label)) in
  let builder := writeUint8Vector builder context in
  match hkdf_Expand secret builder length_ with
  | Some out => if zlen out =? length_ then Ok out else Panic
  | None => Panic
  end.

Definition unprotectInitial (packet : bytes) (pnOffset : Z) (hdr : Header) : res string bytes :=
  let initialSecret := hkdf_Extract (hd_DestConnectionID hdr) (getSalt (hd_Version hdr)) in
  let? clientSecret := hkdfExpandLabel initialSecret "client in" [] 32 in
  match NewInitialProtectionKey clientSecret (hd_Version hdr) with
  | None => Err "protection key"
  | Some key => match UnProtect key packet pnOffset with None => Err "unprotect" | Some p => Ok p end
  end.

(** ** The reassembler *)

Definition quicReassembler : Type := gmap string cryptoStream.

Definition cleanupLocked (now : Z) (r : quicReassembler) : quicReassembler :=
  filter (fun kv => now - reassemblyTTL <= cs_updatedAt kv.2) r.

(** The first of the oldest streams, in the order of the range. *)
Fixpoint oldest_key (keys : list string) (r : quicReassembler) (oldestKey : string) (oldest : Z) : string :=
  match keys with
  | [] => oldestKey
  | key :: keys =>
      match r !! key with
      | Some s => if bool_decide (oldestKey = "") || (cs_updatedAt s <? oldest)
                  then oldest_key keys r key (cs_updatedAt s) else oldest_key keys r oldestKey oldest
      | None => oldest_key keys r oldestKey oldest
      end
  end.

Definition evictOldestLocked (r : quicReassembler) : quicReassembler :=
  let oldestKey := oldest_key (range_keys r) r "" 0 in
  if decide (oldestKey = "") then r else delete oldestKey r.

Fixpoint add_frames (frames : list cryptoFrame) (s : cryptoStream) : res string cryptoStream :=
  match frames with
  | [] => Ok s
  | f :: frames => let? s := add (cf_Offset f) (cf_Data f) s in add_frames frames s
  end.

(** [ParseSNI] at time [now]; the error path of a packet that is no QUIC initial returns no name. *)
Definition ParseSNI (now : Z) (packet : bytes) (srcIP dstIP : string) : ST string quicReassembler string := fun r =>
  if zlen packet =? 0 then (Ok "", r) else
  match parseSNIFromTLSHandshake packet with
  | Panic => (Panic, r) | Err e => (Err e, r)
  | Ok sni =>
  if negb (bool_decide (sni = "")) then (Ok sni, r) else
  match ParseInitialHeader packet with
  | None => (Ok "", r)
  | Some (hdr, offset) =>
      if zlen packet <? offset + hd_Length hdr then (Ok "", r) else
      let key := buildStreamKey srcIP dstIP (hd_DestConnectionID hdr) in
      match (let? packet := goslice 0 (offset + hd_Length hdr) packet in
             let? unprotected := unprotectInitial packet offset hdr in
             parseCryptoFrames unprotected) with
      | Panic => (Panic, r)
      | Err _ => (Ok "", r)
      | Ok frames =>
          let r := cleanupLocked now r in
          let '(stream, r) := match r !! key with
            | Some s => (s, r)
            | None => (mkStream 0 [] ∅ now, if maxEntries <=? Z.of_nat (size r) then evictOldestLocked r else r)
            end in
          match add_frames frames stream with
          | Panic => (Panic, r) | Err e => (Err e, r)
          | Ok stream =>
              let r := <[key := mkStream (cs_nextOffset stream) (cs_buffer stream) (cs_pending stream) now]> r in
              if zlen (cs_buffer stream) =? 0 then (Ok "", r) else
              match UnmarshalClientHello_ServerName (cs_buffer stream) with
              | Some name => (Ok (ToLower name), r)
              | None => (Ok "", r)
              end
          end
      end
  end
  end.

End packets.

(** ** classifier.go: UDP *)

Record udpClassifyContext := mkUdpCtx {
  ux_Compiled : option CompiledPolicy; ux_SrcIP : string; ux_DestIP : IP; ux_DestPort : Z; ux_Payload : bytes
}.

Section udp.
Context `{UC : UnicodeCase} `{QL : QuicLib} `{MO : MapOrder}.

(** A classifier of datagrams: a result when it matches. *)
Definition udpClassifier : Type := udpClassifyContext -> ST string quicReassembler (option classificationResult).

Definition udpMissingOriginalDstClassifier : udpClassifier := fun ctx =>
  if negb (is_nil (ux_DestIP ctx)) && (0 <? ux_DestPort ctx) then ret None else
  ret (Some (mkResult (classifyUnknownTraffic "udp" "unknown" (ux_DestIP ctx) (ux_DestPort ctx) "missing_original_dst")
                      "" None None)).

Definition udpSNIClassifier (now : Z) : udpClassifier := fun ctx =>
  if is_nil (ux_DestIP ctx) || (ux_DestPort ctx <=? 0) || negb (HasDomainRules (ux_Compiled ctx)) then ret None else
  let* sni := ParseSNI now (ux_Payload ctx) (ux_SrcIP ctx) (IP_String (ux_DestIP ctx)) in
  if decide (sni = "") then
    ret (Some (mkResult (classifyUnknownTraffic "udp" "udp" (ux_DestIP ctx) (ux_DestPort ctx) "missing_sni") "" None None))
  else ret (Some (mkResult (classifyKnownTraffic "udp" "udp" (ux_DestIP ctx) (ux_DestPort ctx) sni) sni None None)).

Definition udpGenericClassifier : udpClassifier := fun ctx =>
  if is_nil (ux_DestIP ctx) || (ux_DestPort ctx <=? 0) then ret None else
  ret (Some (mkResult (classifyKnownTraffic "udp" "udp" (ux_DestIP ctx) (ux_DestPort ctx) "") "" None None)).

Definition defaultUDPClassifiers (now : Z) : list udpClassifier :=
  [udpMissingOriginalDstClassifier; udpSNIClassifier now; udpGenericClassifier].

Fixpoint classifyUDP (classifiers : list udpClassifier) (ctx : udpClassifyContext)
    : ST string quicReassembler classificationResult :=
  match classifiers with
  | [] => throw "no udp classifier matched"
  | c :: rest =>
      let* r := c ctx in
      match r with Some result => ret result | None => classifyUDP rest ctx end
  end.

End udp.
