(* ===== verification/QuicSpec.v ===== *)
(** * netd: what the reassembly of QUIC hellos guarantees

    The buffer of a connection is always a prefix of the stream its frames come from,
    bounded in size; frames that cut the stream without overlap bring all of it, in any
    order and with repetitions; and the table of connections is bounded. *)

From stdpp Require Import base gmap strings list fin_maps numbers sets.
From Stdlib Require Import Strings.Byte.
From S2P Require Import Prelude GoStd GoNet Policy PolicyEval PolicySpec Classifier ClassifierSpec ClassifierTls Quic.

Local Open Scope Z_scope.

(** ** The buffer is a prefix of the stream *)

(** The data of a frame is the part of the stream at its offset. *)
Definition part_of (stream : bytes) (offset : Z) (data : bytes) : Prop :=
  0 <= offset /\ offset + zlen data <= zlen stream /\ data = subslice offset (offset + zlen data) stream.

(** What is buffered is the stream up to the next offset, cut at the limit. *)
Record reassembling (stream : bytes) (s : cryptoStream) : Prop := {
  rs_next : 0 <= cs_nextOffset s <= zlen stream;
  rs_buffer : cs_buffer s = subslice 0 (cs_nextOffset s `min` maxCryptoBuffer) stream;
  rs_pending : forall o d, cs_pending s !! o = Some d -> part_of stream o d
}.

Lemma part_of_skip stream offset data skip :
  part_of stream offset data -> 0 <= skip <= zlen data ->
  part_of stream (offset + skip) (subslice skip (zlen data) data).
Proof.
  intros (H0 & Hl & Hd) Hs. unfold part_of. rewrite zlen_subslice by lia.
  split_and!; [lia|lia|]. rewrite Hd at 2. rewrite subslice_subslice by lia. f_equal; lia.
Qed.

(** The state of the loop over the pending frames, before the buffer is cut. *)
Lemma append_pending_ok stream fuel next buffer pending :
  0 <= next <= zlen stream -> (forall o d, pending !! o = Some d -> part_of stream o d) -> (size pending <= fuel)%nat ->
  exists next' pending', append_pending fuel next buffer pending = Ok (next', buffer ++ subslice next next' stream, pending') /\
    next <= next' <= zlen stream /\ (forall o d, pending' !! o = Some d -> part_of stream o d).
Proof.
  revert next buffer pending. induction fuel as [|fuel IH]; intros next buffer pending Hn Hp Hf; cbn [append_pending];
    (destruct (pending !! next) as [d|] eqn:E;
     [|exists next, pending; rewrite subslice_empty, app_nil_r by lia; split_and!; done || lia]).
  - assert (size pending <> 0%nat) by (apply map_size_ne_0_lookup; eauto). lia.
  - destruct (Hp _ _ E) as (_ & Hl & Hd). pose proof (zlen_nonneg d).
    destruct (IH (next + zlen d) (buffer ++ d) (delete next pending)) as (next' & pending' & -> & Hn' & Hp').
    + lia.
    + intros o d'. rewrite lookup_delete_Some. intros [_ Ho]. by apply Hp.
    + rewrite map_size_delete_Some by eauto. lia.
    + assert (Hj : d ++ subslice (next + zlen d) next' stream = subslice next next' stream)
        by (rewrite Hd at 1; apply subslice_app; lia).
      exists next', pending'. rewrite <- app_assoc, Hj. split_and!; done || lia.
Qed.

Lemma cut_append (stream : bytes) m k next : 0 <= m -> m <= next -> next <= k -> k <= zlen stream ->
  subslice 0 (m `min` maxCryptoBuffer) stream ++ subslice m next stream ++ subslice next k stream =
  (if m <=? maxCryptoBuffer then subslice 0 k stream else subslice 0 maxCryptoBuffer stream ++ subslice m k stream).
Proof.
  intros. rewrite subslice_app by lia. destruct (Z.leb_spec m maxCryptoBuffer).
  - rewrite Z.min_l by lia. apply subslice_app; lia.
  - by rewrite Z.min_r by lia.
Qed.

(** Appending at the next offset. *)
Lemma append_reassembles stream s data :
  reassembling stream s -> part_of stream (cs_nextOffset s) data ->
  exists s1 s2, appendPending (mkStream (cs_nextOffset s + zlen data) (cs_buffer s ++ data) (cs_pending s) (cs_updatedAt s)) = Ok s1 /\
    trim s1 = Ok s2 /\ reassembling stream s2.
Proof.
  intros [Hn Hb Hp] (_ & Hl & Hd). pose proof (zlen_nonneg data). unfold appendPending. cbn [cs_pending cs_nextOffset cs_buffer cs_updatedAt].
  destruct (append_pending_ok stream (size (cs_pending s)) (cs_nextOffset s + zlen data) (cs_buffer s ++ data) (cs_pending s)
    ltac:(lia) Hp ltac:(lia)) as (next & pending & -> & Hn' & Hp'). cbn [rbind].
  assert (Hbuf : (cs_buffer s ++ data) ++ subslice (cs_nextOffset s + zlen data) next stream =
    if cs_nextOffset s <=? maxCryptoBuffer then subslice 0 next stream
    else subslice 0 maxCryptoBuffer stream ++ subslice (cs_nextOffset s) next stream).
  { rewrite Hb, <- app_assoc, Hd at 1. apply cut_append; lia. }
  rewrite Hbuf. set (buf := if cs_nextOffset s <=? maxCryptoBuffer then _ else _).
  assert (0 < maxCryptoBuffer) by done.
  assert (Hcut : (zlen buf <= maxCryptoBuffer -> buf = subslice 0 (next `min` maxCryptoBuffer) stream) /\
                 (maxCryptoBuffer < zlen buf -> subslice 0 maxCryptoBuffer buf = subslice 0 (next `min` maxCryptoBuffer) stream)).
  { subst buf. destruct (Z.leb_spec (cs_nextOffset s) maxCryptoBuffer).
    - rewrite zlen_subslice by lia. split; intros; [by rewrite Z.min_l by lia|]. rewrite Z.min_r, subslice_subslice by lia. done.
    - rewrite zlen_app, !zlen_subslice by lia. rewrite Z.min_r by lia. split; intros.
      + rewrite (subslice_empty (cs_nextOffset s)), app_nil_r by lia. done.
      + rewrite subslice_app_l, subslice_subslice by (rewrite ?zlen_subslice; lia). done. }
  exists (mkStream next buf pending (cs_updatedAt s)). unfold trim. cbn [cs_buffer].
  destruct (Z.leb_spec (zlen buf) maxCryptoBuffer) as [Hz|Hz].
  - eexists. split_and!; [done|done|]. constructor; cbn; [lia|by apply Hcut|done].
  - rewrite goslice_ok by lia. eexists. split_and!; [done|done|]. constructor; cbn; [lia|by apply Hcut|done].
Qed.

Lemma add_reassembles stream offset data s :
  reassembling stream s -> part_of stream offset data -> exists s', add offset data s = Ok s' /\ reassembling stream s'.
Proof.
  intros Hs Hd. unfold add. destruct (zlen data =? 0); [eauto|]. cbv zeta.
  destruct (Z.ltb_spec offset (cs_nextOffset s)) as [Hlt|Hge]; cbn [andb rbind].
  - destruct (Z.leb_spec (zlen data) (cs_nextOffset s - offset)) as [|Hl]; [eauto|].
    rewrite goslice_ok by lia. cbn [rbind]. rewrite Z.eqb_refl.
    apply (part_of_skip _ _ _ (cs_nextOffset s - offset)) in Hd; [|lia].
    replace (offset + (cs_nextOffset s - offset)) with (cs_nextOffset s) in Hd by lia.
    destruct (append_reassembles _ _ _ Hs Hd) as (s1 & s2 & -> & Ht & Hr). eauto.
  - destruct (Z.eqb_spec offset (cs_nextOffset s)) as [->|Hne].
    + destruct (append_reassembles _ _ _ Hs Hd) as (s1 & s2 & -> & Ht & Hr). eauto.
    + eexists. split; [done|]. destruct Hs as [Hn Hb Hp]. constructor; cbn; [done..|].
      intros o d. rewrite lookup_insert_Some. intros [[<- <-]|[_ Ho]]; [done|by apply Hp].
Qed.

(** ** Frames that cut the stream bring all of it *)

(** The offset at which the [j]-th chunk starts. *)
Definition start (chunks : list bytes) (j : nat) : Z := zlen (concat (take j chunks)).

(** The frame of the [j]-th chunk. *)
Definition is_frame (chunks : list bytes) (j : nat) (offset : Z) (data : bytes) : Prop :=
  chunks !! j = Some data /\ offset = start chunks j.

Lemma start_S chunks j data : chunks !! j = Some data -> start chunks (S j) = start chunks j + zlen data.
Proof. intros Hj. unfold start. rewrite (take_S_r _ _ _ Hj), concat_app, zlen_app. cbn [concat]. by rewrite app_nil_r. Qed.

Lemma start_mono chunks i j : (i <= j)%nat -> start chunks i <= start chunks j.
Proof.
  intros Hij. unfold start. rewrite <- (take_drop i (take j chunks)), concat_app, zlen_app, take_take, Nat.min_l by lia.
  pose proof (zlen_nonneg (concat (drop i (take j chunks)))). lia.
Qed.

Lemma start_lt chunks i j data :
  Forall (fun c => c <> []) chunks -> chunks !! i = Some data -> (i < j)%nat -> start chunks i < start chunks j.
Proof.
  intros Hc Hi Hij. assert (Hd : data <> []) by exact (Forall_lookup_1 _ _ _ _ Hc Hi).
  pose proof (start_S _ _ _ Hi). pose proof (start_mono chunks (S i) j ltac:(lia)). pose proof (zlen_nonneg data).
  rewrite <- (zlen_nil_iff data) in Hd. lia.
Qed.

(** After the frames in [seen]: the chunks before [k] are in the buffer, the chunk [k] has
    not been seen, and the later ones that have been seen are pending. *)
Record progress (chunks : list bytes) (seen : gset nat) (k : nat) (next : Z) (buffer : bytes) (pending : gmap Z bytes) : Prop := {
  pr_next : next = start chunks k;
  pr_buffer : buffer = concat (take k chunks);
  pr_before : forall j, (j < k)%nat -> j ∈ seen;
  pr_range : (k <= length chunks)%nat;
  pr_pending : forall o d, pending !! o = Some d <-> exists j, (k <= j)%nat /\ j ∈ seen /\ is_frame chunks j o d
}.

Lemma progress_next chunks seen k next buffer pending d :
  Forall (fun c => c <> []) chunks -> progress chunks seen k next buffer pending -> pending !! next = Some d ->
  progress chunks seen (S k) (next + zlen d) (buffer ++ d) (delete next pending).
Proof.
  intros Hc [-> -> Hb Hr Hpe] (j & Hj & Hs & Hd & Hst)%Hpe.
  assert (j = k) as ->.
  { destruct (decide (j = k)) as [|Hne]; [done|]. destruct (lookup_lt_is_Some_2 chunks k) as [c Hck].
    - apply lookup_lt_Some in Hd. lia.
    - pose proof (start_lt chunks k j c Hc Hck ltac:(lia)). lia. }
  constructor.
  - by rewrite (start_S _ _ _ Hd).
  - rewrite (take_S_r _ _ _ Hd), concat_app. cbn [concat]. by rewrite app_nil_r.
  - intros i Hi. destruct (decide (i = k)) as [->|]; [done|]. apply Hb. lia.
  - apply lookup_lt_Some in Hd. lia.
  - intros o d'. rewrite lookup_delete_Some, Hpe. split.
    + intros [Ho (i & Hi & Hsi & Hdi & ->)]. exists i. split_and!; [|done|done].
      destruct (decide (i = k)) as [->|]; [done|lia].
    + intros (i & Hi & Hsi & Hdi & ->). split; [|exists i; split_and!; [lia|done|done]].
      pose proof (start_lt chunks k i d Hc Hd ltac:(lia)). lia.
Qed.

Lemma progress_stop chunks seen k next buffer pending :
  progress chunks seen k next buffer pending -> pending !! next = None -> k ∈ seen -> k = length chunks.
Proof.
  intros [-> -> Hb Hr Hpe] E Hk. destruct (decide (k = length chunks)) as [|Hne]; [done|].
  destruct (lookup_lt_is_Some_2 chunks k ltac:(lia)) as [c Hck].
  assert (Hx : pending !! start chunks k = Some c) by (apply Hpe; exists k; by split_and!). by rewrite E in Hx.
Qed.

Lemma append_pending_progress chunks seen fuel k next buffer pending :
  Forall (fun c => c <> []) chunks ->
  progress chunks seen k next buffer pending -> (size pending <= fuel)%nat ->
  exists k' next' buffer' pending', append_pending fuel next buffer pending = Ok (next', buffer', pending') /\
    progress chunks seen k' next' buffer' pending' /\ (k' ∈ seen -> k' = length chunks).
Proof.
  intros Hc. revert k next buffer pending. induction fuel as [|fuel IH]; intros k next buffer pending Hp Hf; cbn [append_pending].
  all: destruct (pending !! next) as [d|] eqn:E.
  1: { assert (size pending <> 0%nat) by (apply map_size_ne_0_lookup; eauto). lia. }
  2: { apply (IH (S k)); [by eapply progress_next|]. rewrite map_size_delete_Some by eauto. lia. }
  all: exists k, next, buffer, pending; split_and!; [done|done|]; intros Hk; by eapply progress_stop.
Qed.

(** A stream that has seen some of the frames, and has kept up with them. *)
Definition stream_progress (chunks : list bytes) (seen : gset nat) (s : cryptoStream) : Prop :=
  exists k, progress chunks seen k (cs_nextOffset s) (cs_buffer s) (cs_pending s) /\ (k ∈ seen -> k = length chunks).

Lemma trim_short s : zlen (cs_buffer s) <= maxCryptoBuffer -> trim s = Ok s.
Proof. intros Hz. unfold trim. by rewrite (proj2 (Z.leb_le _ _) Hz). Qed.

(** The frame that is due. *)
Lemma progress_due chunks seen k data s :
  Forall (fun c => c <> []) chunks -> chunks !! k = Some data ->
  progress chunks seen k (cs_nextOffset s) (cs_buffer s) (cs_pending s) -> k ∉ seen ->
  progress chunks ({[k]} ∪ seen) (S k) (cs_nextOffset s + zlen data) (cs_buffer s ++ data) (cs_pending s).
Proof.
  intros Hc Hk [Hn Hbu Hb Hr Hpe] Hns. constructor.
  - rewrite Hn. by rewrite (start_S _ _ _ Hk).
  - rewrite Hbu, (take_S_r _ _ _ Hk), concat_app. cbn [concat]. by rewrite app_nil_r.
  - intros i Hi. destruct (decide (i = k)) as [->|]; [by apply elem_of_union_l, elem_of_singleton|]. apply elem_of_union_r, Hb. lia.
  - apply lookup_lt_Some in Hk. lia.
  - intros o d. rewrite Hpe. split; intros (j & Hj & Hs & Hf); exists j; split_and!; try done.
    + destruct (decide (j = k)) as [->|]; [done|lia].
    + by apply elem_of_union_r.
    + lia.
    + apply elem_of_union in Hs as [->%elem_of_singleton|]; [lia|done].
Qed.

(** A frame that comes too early. *)
Lemma progress_ahead chunks seen k next buffer pending j data :
  Forall (fun c => c <> []) chunks -> progress chunks seen k next buffer pending ->
  (k < j)%nat -> chunks !! j = Some data ->
  progress chunks ({[j]} ∪ seen) k next buffer (<[start chunks j := data]> pending).
Proof.
  intros Hc [Hn Hbu Hb Hr Hpe] Hkj Hj. constructor; [done|done| |done|].
  { intros i Hi. by apply elem_of_union_r, Hb. }
  intros o d. rewrite lookup_insert_Some, Hpe. split.
  - intros [[<- <-]|[_ (i & Hi & Hs & Hf)]].
    + exists j. split_and!; [lia|by apply elem_of_union_l, elem_of_singleton|done..].
    + exists i. split_and!; [done|by apply elem_of_union_r|done].
  - intros (i & Hi & Hs & Hf & ->). destruct (decide (i = j)) as [->|Hne]; [left; by rewrite Hj in Hf; injection Hf as ->|right].
    apply elem_of_union in Hs as [Hs%elem_of_singleton|Hs]; [done|].
    split; [|exists i; by split_and!].
    destruct (decide (i < j)%nat).
    + pose proof (start_lt chunks i j d Hc Hf ltac:(lia)). lia.
    + pose proof (start_lt chunks j i data Hc Hj ltac:(lia)). lia.
Qed.

Lemma add_progress chunks seen j data s :
  Forall (fun c => c <> []) chunks -> zlen (concat chunks) <= maxCryptoBuffer ->
  stream_progress chunks seen s -> chunks !! j = Some data ->
  exists s', add (start chunks j) data s = Ok s' /\ stream_progress chunks ({[j]} ∪ seen) s'.
Proof.
  intros Hc Hmax (k & Hp & Hstop) Hj. assert (Hd : data <> []) by exact (Forall_lookup_1 _ _ _ _ Hc Hj).
  pose proof (zlen_nonneg data). unfold add. rewrite <- (zlen_nil_iff data), <- Z.eqb_neq in Hd. rewrite Hd. cbv zeta.
  pose proof (pr_next _ _ _ _ _ _ Hp) as Hn. destruct (lt_eq_lt_dec j k) as [[Hlt| ->]|Hgt].
  - pose proof (start_S _ _ _ Hj). pose proof (start_mono chunks (S j) k ltac:(lia)). apply Z.eqb_neq in Hd.
    rewrite (proj2 (Z.ltb_lt _ _)), (proj2 (Z.leb_le _ _)) by lia. exists s. split; [done|]. exists k.
    assert (Hin : j ∈ seen) by (by apply (pr_before _ _ _ _ _ _ Hp)).
    by rewrite (subseteq_union_1_L {[j]} seen) by (by apply singleton_subseteq_l).
  - rewrite (proj2 (Z.ltb_ge _ _)) by lia. cbn [andb rbind]. rewrite Hn, Z.eqb_refl.
    assert (Hns : k ∉ seen) by (intros Hk; apply Hstop in Hk; apply lookup_lt_Some in Hj; lia).
    pose proof (progress_due _ _ _ _ _ Hc Hj Hp Hns) as Hp1. rewrite Hn in Hp1.
    unfold appendPending. cbn [cs_pending cs_nextOffset cs_buffer].
    destruct (append_pending_progress _ _ (size (cs_pending s)) _ _ _ _ Hc Hp1 ltac:(lia)) as (k' & n' & b' & p' & -> & Hp' & Hs').
    cbn [rbind]. rewrite trim_short; [by eexists; split; [done|exists k']|]. cbn [cs_buffer].
    rewrite (pr_buffer _ _ _ _ _ _ Hp'). rewrite <- (take_drop k' chunks), concat_app, zlen_app in Hmax.
    pose proof (zlen_nonneg (concat (drop k' chunks))). lia.
  - destruct (lookup_lt_is_Some_2 chunks k) as [c Hk]; [apply lookup_lt_Some in Hj; lia|].
    pose proof (start_lt chunks k j c Hc Hk Hgt). rewrite (proj2 (Z.ltb_ge _ _)) by lia. cbn [andb rbind].
    rewrite (proj2 (Z.eqb_neq _ _)) by lia. eexists. split; [done|]. exists k. split; [by apply progress_ahead|].
    intros [Hx%elem_of_singleton|Hx]%elem_of_union; [lia|auto].
Qed.

Lemma add_frames_reassembles stream frames s :
  reassembling stream s -> Forall (fun f => part_of stream (cf_Offset f) (cf_Data f)) frames ->
  exists s', add_frames frames s = Ok s' /\ reassembling stream s'.
Proof.
  intros Hs Hf. revert s Hs. induction Hf as [|f frames Hf _ IH]; intros s Hs; cbn [add_frames]; [eauto|].
  destruct (add_reassembles _ _ _ _ Hs Hf) as (s1 & -> & Hs1). cbn [rbind]. by apply IH.
Qed.

Lemma add_frames_progress chunks frames seen s :
  Forall (fun c => c <> []) chunks -> zlen (concat chunks) <= maxCryptoBuffer ->
  stream_progress chunks seen s -> Forall (fun f => exists j, is_frame chunks j (cf_Offset f) (cf_Data f)) frames ->
  exists s' seen', add_frames frames s = Ok s' /\ stream_progress chunks seen' s' /\ seen ⊆ seen' /\
    (forall f j, f ∈ frames -> is_frame chunks j (cf_Offset f) (cf_Data f) -> j ∈ seen').
Proof.
  intros Hc Hmax Hs Hf. revert seen s Hs. induction Hf as [|f frames (j & Hj & Ho) _ IH]; intros seen s Hs; cbn [add_frames].
  { exists s, seen. split_and!; try done. by intros f j ?%not_elem_of_nil. }
  destruct (add_progress _ _ _ _ _ Hc Hmax Hs Hj) as (s1 & Ha & Hs1). rewrite Ho, Ha. cbn [rbind].
  destruct (IH _ _ Hs1) as (s' & seen' & -> & Hs' & Hsub & Hin). exists s', seen'. split_and!; [done|done| |].
  - intros x Hx. by apply Hsub, elem_of_union_r.
  - intros g i [->|Hg]%elem_of_cons (Hi & Hoi); [|by eapply Hin]. apply Hsub, elem_of_union_l, elem_of_singleton.
    rewrite Ho in Hoi. destruct (lt_eq_lt_dec i j) as [[Hlt| ->]|Hlt]; [|done|].
    + pose proof (start_lt chunks i j _ Hc Hi Hlt). lia.
    + pose proof (start_lt chunks j i _ Hc Hj Hlt). lia.
Qed.

Definition newStream (now : Z) : cryptoStream := mkStream 0 [] ∅ now.

(** C30: CRYPTO frames reassemble.  Whatever frames of a stream arrive, in whatever order,
    overlapping or repeated, what is buffered is a prefix of the stream of at most 256 KiB,
    and the loop over the pending frames ends.  If the frames cut a stream of at most that
    size into chunks without overlap, and each arrives at least once, all of the stream is
    buffered. *)
Theorem crypto_frames_reassemble now stream frames :
  Forall (fun f => part_of stream (cf_Offset f) (cf_Data f)) frames ->
  exists s, add_frames frames (newStream now) = Ok s /\
    cs_buffer s `prefix_of` stream /\ zlen (cs_buffer s) <= 256 * 1024 /\
    (forall chunks, concat chunks = stream -> Forall (fun c => c <> []) chunks -> zlen stream <= 256 * 1024 ->
       Forall (fun f => exists j, is_frame chunks j (cf_Offset f) (cf_Data f)) frames ->
       (forall j, (j < length chunks)%nat -> exists f, f ∈ frames /\ is_frame chunks j (cf_Offset f) (cf_Data f)) ->
       cs_buffer s = stream).
Proof.
  intros Hf. destruct (add_frames_reassembles stream frames (newStream now)) as (s & Ha & [Hn Hb _]); [|done|].
  { constructor; cbn; [pose proof (zlen_nonneg stream); lia|by rewrite subslice_empty by lia|done]. }
  exists s. split_and!; [done| | |].
  - rewrite Hb. exists (drop (Z.to_nat (cs_nextOffset s `min` maxCryptoBuffer)) stream). unfold subslice.
    by rewrite Z.sub_0_r, drop_0, take_drop.
  - rewrite Hb, zlen_subslice by (unfold maxCryptoBuffer; lia). unfold maxCryptoBuffer. lia.
  - intros chunks <- Hc Hmax Hfr Hall.
    destruct (add_frames_progress chunks frames ∅ (newStream now) Hc Hmax) as (s' & seen & Ha' & (k & Hp & Hk) & _ & Hin); [|done|].
    { exists 0%nat. split; [|by intros ?%not_elem_of_empty]. constructor; cbn; try done; try lia.
      intros o d. split; [done|]. by intros (j & _ & ?%not_elem_of_empty & _). }
    rewrite Ha in Ha'. injection Ha' as <-. rewrite (pr_buffer _ _ _ _ _ _ Hp).
    assert (k = length chunks) as ->; [|by rewrite firstn_all].
    pose proof (pr_range _ _ _ _ _ _ Hp). destruct (decide (k = length chunks)) as [|Hne]; [done|].
    destruct (Hall k ltac:(lia)) as (f & Hff & Hjf). apply Hk. by eapply Hin.
Qed.

Lemma crypto_frames_reassemble_witness :
  exists s, add_frames [mkFrame 3 (raw "lo"); mkFrame 0 (raw "hel"); mkFrame 3 (raw "lo")] (newStream 0) = Ok s /\
    cs_buffer s = raw "hello".
Proof.
  destruct (crypto_frames_reassemble 0 (raw "hello") [mkFrame 3 (raw "lo"); mkFrame 0 (raw "hel"); mkFrame 3 (raw "lo")])
    as (s & Ha & _ & _ & Hc).
  - repeat apply List.Forall_cons; [..|constructor]; (split_and!; [vm_compute; discriminate..|vm_compute; reflexivity]).
  - exists s. split; [exact Ha|]. apply (Hc [raw "hel"; raw "lo"]).
    + reflexivity.
    + repeat apply List.Forall_cons; [discriminate..|constructor].
    + vm_compute. discriminate.
    + repeat apply List.Forall_cons; [exists 1%nat|exists 0%nat|exists 1%nat|constructor]; split; reflexivity.
    + intros [|[|j]] Hj; [| |cbn in Hj; lia].
      * exists (mkFrame 0 (raw "hel")). split; [right; left|split; reflexivity].
      * exists (mkFrame 3 (raw "lo")). split; [left|split; reflexivity].
Defined.

(** ** A hello in clear *)

Section clear.
Context `{UC : UnicodeCase}.

(** [hello] is what [data] holds from [base] on. *)
Context (data hello tail : bytes) (base : Z) (Hdata : upto data base (hello ++ tail)).

(** Slicing the hello inside its length is slicing the data. *)
Lemma clear_slice off l rest : upto hello off (l ++ rest) ->
  goslice (E := string) (base + off) (base + (off + zlen l)) data = Ok l.
Proof.
  intros (pre & Hpre & <-). destruct Hdata as (pre0 & Hd & Hb).
  replace (base + (zlen pre + zlen l)) with (base + zlen pre + zlen l) by lia.
  apply upto_slice with (rest := rest ++ tail). exists (pre0 ++ pre). split; [|rewrite zlen_app; lia].
  by rewrite Hd, Hpre, <- !app_assoc.
Qed.

Lemma handshake_names_found fuel off name others rest :
  (0 < fuel)%nat -> zlen name < 65536 -> upto hello off (x00 :: vec16 name ++ others ++ rest) ->
  handshake_names fuel data base hello off (off + 3 + zlen name + zlen others) = Ok (ToLower (str name)).
Proof.
  intros Hf Hn Hu. pose proof (zlen_nonneg name). pose proof (zlen_nonneg others).
  destruct fuel as [|fuel]; [lia|]. cbn [handshake_names]. destruct (Z.leb_spec (off + 3) (off + 3 + zlen name + zlen others)); [|lia].
  rewrite (upto_at _ _ _ _ Hu). apply upto_byte in Hu.
  destruct (upto_vec16 _ _ name _ Hn Hu) as (-> & Hu1 & _). cbn [rbind]. cbv zeta. change (bz x00 =? 0) with true.
  rewrite (proj2 (Z.leb_le _ _)) by lia. cbn [andb]. replace (off + 1 + 2) with (off + 3) in Hu1 by lia.
  by rewrite (clear_slice _ _ _ Hu1).
Qed.

Lemma handshake_extension_skipped fuel off end_ e rest :
  0 < e.1 < 65536 -> zlen e.2 < 65536 -> off + zlen (extension e) <= end_ -> upto hello off (extension e ++ rest) ->
  handshake_extensions (S fuel) data base hello off end_ = handshake_extensions fuel data base hello (off + zlen (extension e)) end_.
Proof.
  intros Ht Hs He Hu. rewrite zlen_extension in *. pose proof (zlen_nonneg e.2).
  cbn [handshake_extensions]. destruct (Z.leb_spec (off + 4) end_); [|lia].
  unfold extension in Hu. rewrite <- app_assoc in Hu.
  destruct (upto_be16 _ _ e.1 _ ltac:(lia) Hu) as [-> Hu1].
  destruct (upto_vec16 _ _ e.2 _ Hs Hu1) as (-> & _). cbn [rbind]. cbv zeta.
  destruct (Z.ltb_spec end_ (off + 4 + zlen e.2)); [lia|]. destruct (Z.eqb_spec e.1 0); [lia|].
  by replace (off + 4 + zlen e.2) with (off + (4 + zlen e.2)) by lia.
Qed.

Lemma handshake_sni_found fuel off end_ h rest :
  zlen (server_name h) < 65536 -> off + zlen (extension (0, server_name h)) <= end_ -> zlen data <> 0 ->
  upto hello off (extension (0, server_name h) ++ rest) ->
  handshake_extensions (S fuel) data base hello off end_ = Ok (ToLower (str (h_name h))).
Proof.
  intros Hs He Hz Hu. rewrite zlen_extension in He. cbn [snd] in He. pose proof (zlen_nonneg (h_name h)). pose proof (zlen_nonneg (h_otherNames h)).
  set (names := x00 :: vec16 (h_name h) ++ h_otherNames h).
  assert (Hn : zlen names = 3 + zlen (h_name h) + zlen (h_otherNames h)) by (subst names; rewrite zlen_cons, zlen_app, zlen_vec16; lia).
  assert (Hsn : zlen (server_name h) = 2 + zlen names) by apply zlen_vec16.
  cbn [handshake_extensions]. destruct (Z.leb_spec (off + 4) end_); [|lia].
  unfold extension in Hu. cbn [fst snd] in Hu. rewrite <- app_assoc in Hu.
  destruct (upto_be16 _ _ 0 _ ltac:(lia) Hu) as [-> Hu1].
  destruct (upto_vec16 _ _ (server_name h) _ Hs Hu1) as (-> & Hu2 & _). cbn [rbind Z.eqb]. cbv zeta.
  replace (off + 2 + 2) with (off + 4) in Hu2 by lia.
  destruct (Z.ltb_spec end_ (off + 4 + zlen (server_name h))); [lia|]. destruct (Z.ltb_spec end_ (off + 4 + 2)); [lia|].
  change (server_name h) with (vec16 names) in Hu2.
  destruct (upto_vec16 _ _ names _ ltac:(lia) Hu2) as (-> & Hu3 & _). cbn [rbind]. rewrite Hn.
  replace (off + 4 + 2 + (3 + zlen (h_name h) + zlen (h_otherNames h))) with (off + 4 + 2 + 3 + zlen (h_name h) + zlen (h_otherNames h)) by lia.
  unfold names in Hu3. cbn [app] in Hu3. rewrite <- app_assoc in Hu3.
  eapply handshake_names_found; [unfold zlen in Hz; lia|lia|exact Hu3].
Qed.

Lemma handshake_extensions_found fuel off end_ before h rest :
  Forall (fun e => 0 < e.1 < 65536) before -> (length before < fuel)%nat -> zlen data <> 0 ->
  zlen (concat (extension <$> before)) + zlen (extension (0, server_name h)) <= end_ - off < 65536 ->
  upto hello off (concat (extension <$> before) ++ extension (0, server_name h) ++ rest) ->
  handshake_extensions fuel data base hello off end_ = Ok (ToLower (str (h_name h))).
Proof.
  intros Hb. revert fuel off. induction Hb as [|e before He Hb IH]; intros fuel off Hf Hd Hz Hu;
    (destruct fuel as [|fuel]; [lia|]); cbn [fmap list_fmap concat length] in *.
  - pose proof (zlen_extension (0, server_name h)) as Hx. cbn [snd] in Hx. change (zlen (A := byte) []) with 0 in Hz.
    eapply handshake_sni_found; [lia|lia|done|exact Hu].
  - rewrite <- app_assoc in Hu. rewrite zlen_app in Hz.
    pose proof (zlen_nonneg (concat (extension <$> before))). pose proof (zlen_nonneg (extension (0, server_name h))).
    pose proof (zlen_extension e). pose proof (zlen_nonneg e.2).
    rewrite (handshake_extension_skipped _ off end_ e _ He ltac:(lia) ltac:(lia) Hu).
    apply IH; [lia|done|lia|by apply upto_skip].
Qed.

End clear.

(** C31: The two parsers of server names agree.  For the handshake message of a client hello,
    followed by anything, the search in UDP payloads finds the server name, in lower case,
    and the parser of TLS records finds the same name in the record around it. *)
Theorem server_name_parsers_agree `{UC : UnicodeCase} h rest :
  hello_ok h ->
  parseSNIFromTLSHandshake (handshake h ++ rest) = Ok (ToLower (str (h_name h))) /\
  parseSNIFromTLS (client_hello h ++ rest) false = Ok (str (h_name h), tcpClassifierMatched).
Proof.
  intros Hok. split; [|unfold parseSNIFromTLS; by rewrite parseTLSClientHello_found].
  pose proof (hello_body_len h Hok) as Hbl. pose proof (handshake_len h) as Hhl. destruct Hok as [Hr Hs Hc Hb Hh].
  set (data := handshake h ++ rest).
  assert (Hu : upto data 0 (handshake h ++ rest)) by by exists [].
  assert (Hl : zlen data = zlen (handshake h) + zlen rest) by (subst data; by rewrite zlen_app).
  pose proof (zlen_nonneg (h_session h)). pose proof (zlen_nonneg (h_ciphers h)).
  pose proof (zlen_nonneg (h_compression h)). pose proof (zlen_nonneg (extensions h)). pose proof (zlen_nonneg rest).
  unfold parseSNIFromTLSHandshake. change (bytes_IndexByte data x01) with (Some 0). cbv iota beta. inside.
  unfold handshake in Hu. cbn [app] in Hu. apply upto_byte in Hu.
  assert (Hhi : zlen (hello_body h) / 65536 = 0) by (apply Z.div_small; lia).
  rewrite Hhi, Z.mod_small in Hu by lia. change (0 + 1) with 1 in *. rewrite (upto_at _ _ _ _ Hu). apply upto_byte in Hu.
  rewrite <- app_assoc in Hu. change (0 + 2) with 2. change (1 + 1) with 2 in Hu.
  destruct (upto_be16 _ _ (zlen (hello_body h)) _ ltac:(lia) Hu) as [-> Hu1]. cbn [rbind]. cbv zeta.
  change (bz (u8 0)) with 0. rewrite Z.shiftl_0_l, Z.lor_0_l. change (0 + 4) with 4. inside.
  change (2 + 2) with 4 in Hu1. rewrite (upto_slice _ _ _ _ Hu1). cbn [rbind]. do 2 inside.
  assert (Hb0 : upto (hello_body h) 0 (hello_body h ++ [])) by (exists []; by rewrite app_nil_r).
  unfold hello_body in Hb0 at 2. cbn [app] in Hb0. do 2 apply upto_byte in Hb0. rewrite <- !app_assoc in Hb0.
  apply upto_skip in Hb0. rewrite Hr in Hb0. change (0 + 1 + 1 + 32) with 34 in Hb0.
  destruct (upto_vec8 _ _ _ _ Hs Hb0) as [-> Hu2]. cbn [rbind]. rewrite <- Z.add_assoc in Hu2. inside.
  destruct (upto_vec16 _ _ (h_ciphers h) _ ltac:(lia) Hu2) as (-> & _ & Hu3). cbn [rbind]. rewrite <- Z.add_assoc in Hu3. inside.
  destruct (upto_vec8 _ _ _ _ Hc Hu3) as [-> Hu4]. cbn [rbind]. rewrite <- Z.add_assoc in Hu4. inside.
  destruct (upto_vec16 _ _ (extensions h) _ ltac:(lia) Hu4) as (-> & Hu5 & _). cbn [rbind]. inside.
  pose proof (before_short (h_before h)) as Hbs. pose proof (extensions_len h) as Hel.
  unfold extensions in Hu5. rewrite <- !app_assoc in Hu5. pose proof (zlen_nonneg (h_after h)).
  pose proof (zlen_nonneg (extension (0, server_name h))).
  eapply (handshake_extensions_found data (hello_body h) rest 4 Hu1 _ _ _ (h_before h) h); [exact Hb|unfold zlen in *; lia|lia|lia|exact Hu5].
Qed.

Lemma server_name_parsers_agree_witness :
  parseSNIFromTLSHandshake (handshake demo_hello ++ []) = Ok "example.com" /\
  parseSNIFromTLS (client_hello demo_hello ++ []) false = Ok ("Example.com", tcpClassifierMatched).
Proof. apply (server_name_parsers_agree (UC := no_unicode) demo_hello [] demo_hello_ok). Defined.

(** ** What goes wrong *)

(** Frames that overlap can lose data: every byte of the stream has arrived, but the
    pending frame is only looked up at its own offset, which has been passed. *)
Lemma overlapping_frames_lost now :
  exists s, add_frames [mkFrame 2 (raw "cdef"); mkFrame 0 (raw "abc")] (newStream now) = Ok s /\
    cs_buffer s = raw "abc" /\ cs_pending s !! 2 = Some (raw "cdef").
Proof. eexists. split; [vm_compute; reflexivity|]. split; vm_compute; reflexivity. Qed.

(** A hello whose list of server names claims to be longer than the hello. *)
Definition long_list_hello : bytes :=
  x01 :: x00 :: x00 :: x2e :: replicate 34 x00 ++ [x00; x00; x00; x00; x00; x06; x00; x00; x00; x02; xff; xff].

(** The datagram makes the search for a server name index outside the hello. *)
Lemma long_list_panics `{UnicodeCase, QuicLib, MapOrder} now p ip port src r :
  HasDomainRules p = true -> ip <> [] -> 0 < port ->
  (classifyUDP (defaultUDPClassifiers now) (mkUdpCtx p src ip port long_list_hello) r).1 = Panic.
Proof.
  intros Hp Hip Hport. unfold defaultUDPClassifiers, classifyUDP, bind, udpMissingOriginalDstClassifier, udpSNIClassifier.
  cbn [ux_DestIP ux_DestPort ux_Compiled]. replace (is_nil ip) with false by (by destruct ip).
  rewrite (proj2 (Z.ltb_lt 0 port) Hport), (proj2 (Z.leb_gt port 0) Hport), Hp. reflexivity.
Qed.
