(* ===== verification/Udp.v ===== *)
(** * netd: UDP flows (netd/pkg/proxy/server.go, udp_session.go)

    Every datagram is classified and decided on its own; those that may pass are sent from
    the session of their source and destination, over a socket connected to the destination,
    and what comes back on the socket goes to the source.  Sessions live in a heap, as the
    server's table and the goroutines share them, and the steps are the critical sections of
    the code.  Metering, audit and the flow tracker are left out, and so are credentials,
    which no UDP adapter uses. *)

From stdpp Require Import base gmap strings list fin_maps numbers.
From Stdlib Require Import Strings.Byte.
From S2P Require Import Prelude GoStd GoNet Policy PolicyEval Classifier Proxy Quic.

Local Open Scope Z_scope.

(** A datagram from a sandbox, with its original destination and the policy that is found
    for its source. *)
Record datagram := mkDatagram {
  dg_SrcIP : IP; dg_SrcPort : Z; dg_DestIP : IP; dg_DestPort : Z; dg_Payload : bytes; dg_Compiled : option CompiledPolicy
}.

(** ** server.go: the decision *)

Inductive udp_outcome :=
  | UdpUnclassified (err : string)
  | UdpDenied (decision : trafficDecision)
  | UdpWithoutAdapter (decision : trafficDecision) (err : string)
  | UdpUnavailable (decision : trafficDecision)
  | UdpForwarded (decision : trafficDecision) (adapter : proxyAdapter).

(** [handleUDPDecision] up to the adapter. *)
Definition handleUDPDecision (adapters : adapterRegistry) (dg : datagram) (decision : trafficDecision) : udp_outcome :=
  let missing := is_nil (dg_DestIP dg) || (dg_DestPort dg <=? 0) in
  match td_Action decision with
  | decisionActionDeny => UdpDenied decision
  | _ =>
      match Resolve decision adapters with
      | Ok (Some adapter) => if missing then UdpUnavailable decision else UdpForwarded decision adapter
      | Ok None | Panic => UdpWithoutAdapter decision "adapter is nil"
      | Err e => UdpWithoutAdapter decision e
      end
  end.

Section decision.
Context `{UC : UnicodeCase} `{QL : QuicLib} `{MO : MapOrder} `{RS : Resolver}.

(** [handleUDPDatagram]; the host is looked up at time [now], the answer arrives [later]. *)
Definition handleUDPDatagram (adapters : adapterRegistry) (now later : Z) (dg : datagram)
    : ST string (quicReassembler * dnsHostVerifier) udp_outcome := fun s =>
  let ctx := mkUdpCtx (dg_Compiled dg) (IP_String (dg_SrcIP dg)) (dg_DestIP dg) (dg_DestPort dg) (dg_Payload dg) in
  match classifyUDP (defaultUDPClassifiers now) ctx s.1 with
  | (Panic, r) => (Panic, (r, s.2))
  | (Err e, r) => (Ok (UdpUnclassified e), (r, s.2))
  | (Ok result, r) =>
      match verifyClassifiedHost now later (dg_Compiled dg) (cr_Classification result) s.2 with
      | (Panic, v) => (Panic, (r, v))
      | (Err e, v) => (Ok (UdpUnclassified e), (r, v))
      | (Ok c, v) => (Ok (handleUDPDecision adapters dg (decideTraffic (dg_Compiled dg) c)), (r, v))
      end
  end.

End decision.

(** ** udp_session.go *)

Record udpSessionKey := mkSessionKey { uk_SrcIP : string; uk_SrcPort : Z; uk_DestIP : string; uk_DestPort : Z }.

#[export] Instance udpSessionKey_eq_dec : EqDecision udpSessionKey.
Proof. solve_decision. Defined.
#[export] Program Instance udpSessionKey_countable : Countable udpSessionKey :=
  inj_countable' (fun k => (uk_SrcIP k, uk_SrcPort k, uk_DestIP k, uk_DestPort k)) (fun '(a, b, c, d) => mkSessionKey a b c d) _.
Next Obligation. by intros []. Qed.

(** [us_upstream] is the address the socket is connected to, while it is open. *)
Record udpSession := mkUdpSession {
  us_key : udpSessionKey; us_compiled : option CompiledPolicy; us_clientAddr : IP * Z; us_destIP : IP; us_destPort : Z;
  us_upstream : option (IP * Z); us_closed : bool
}.

(** The table and the heap of sessions; the datagrams sent upstream, with the address, and
    the replies, with the client's address and the address they came from; the last first. *)
Record udpState := mkUdpState {
  ut_sessions : gmap udpSessionKey nat; ut_heap : gmap nat udpSession;
  ut_sent : list ((IP * Z) * bytes); ut_replies : list ((IP * Z) * (IP * Z) * bytes)
}.

Definition UM (A : Type) : Type := ST string udpState A.

Definition newUDPSessionKey (dg : datagram) : res string udpSessionKey :=
  if is_nil (dg_DestIP dg) || (dg_DestPort dg <=? 0) then Err "udp session requires source and destination"
  else Ok (mkSessionKey (IP_String (dg_SrcIP dg)) (dg_SrcPort dg) (IP_String (dg_DestIP dg)) (dg_DestPort dg)).

Definition newUDPSession (key : udpSessionKey) (dg : datagram) : udpSession :=
  mkUdpSession key (dg_Compiled dg) (dg_SrcIP dg, dg_SrcPort dg) (dg_DestIP dg) (dg_DestPort dg) None false.

Definition set_heap (id : nat) (x : udpSession) (s : udpState) : udpState :=
  mkUdpState (ut_sessions s) (<[id := x]> (ut_heap s)) (ut_sent s) (ut_replies s).

(** The part of [ensureUDPSession] under the lock of the table: the session of the key, or
    a new one when there is none or it is closed. *)
Definition ensure_lookup (dg : datagram) : UM nat := fun s =>
  match newUDPSessionKey dg with
  | Panic => (Panic, s) | Err e => (Err e, s)
  | Ok key =>
      let new := let id := fresh (dom (ut_heap s)) in
                 (Ok id, mkUdpState (<[key := id]> (ut_sessions s)) (<[id := newUDPSession key dg]> (ut_heap s)) (ut_sent s) (ut_replies s)) in
      match ut_sessions s !! key with
      | None => new
      | Some id =>
          match ut_heap s !! id with
          | Some x => if us_closed x then new else (Ok id, s)
          | None => new
          end
      end
  end.

(** [update], under the lock of the session. *)
Definition session_update (id : nat) (dg : datagram) : UM unit := fun s =>
  match ut_heap s !! id with
  | None => (Panic, s)
  | Some x =>
      (Ok tt, set_heap id (mkUdpSession (us_key x)
        (match dg_Compiled dg with Some p => Some p | None => us_compiled x end) (dg_SrcIP dg, dg_SrcPort dg)
        (if is_nil (dg_DestIP dg) then us_destIP x else dg_DestIP dg) (if 0 <? dg_DestPort dg then dg_DestPort dg else us_destPort x)
        (us_upstream x) (us_closed x)) s)
  end.

Definition ensureUDPSession (dg : datagram) : UM nat :=
  let* id := ensure_lookup dg in
  let* _ := session_update id dg in ret id.

(** Dialling a UDP socket does not fail for a present destination. *)
Definition ensureUpstream (id : nat) : UM (IP * Z) := fun s =>
  match ut_heap s !! id with
  | None => (Panic, s)
  | Some x =>
      if us_closed x then (Err "udp session is closed", s) else
      match us_upstream x with
      | Some addr => (Ok addr, s)
      | None =>
          if is_nil (us_destIP x) || (us_destPort x <=? 0) then (Err "udp session destination is missing", s) else
          let addr := (us_destIP x, us_destPort x) in
          (Ok addr, set_heap id (mkUdpSession (us_key x) (us_compiled x) (us_clientAddr x) (us_destIP x) (us_destPort x)
                                   (Some addr) (us_closed x)) s)
      end
  end.

(** [closeWithError], run once: the socket is closed, and the session leaves the table if it
    is the one there ([removeUDPSession]). *)
Definition closeWithError (id : nat) : UM unit := fun s =>
  match ut_heap s !! id with
  | None => (Panic, s)
  | Some x =>
      if us_closed x then (Ok tt, s) else
      let s := set_heap id (mkUdpSession (us_key x) (us_compiled x) (us_clientAddr x) (us_destIP x) (us_destPort x) None true) s in
      (Ok tt, mkUdpState (if decide (ut_sessions s !! us_key x = Some id) then delete (us_key x) (ut_sessions s) else ut_sessions s)
                (ut_heap s) (ut_sent s) (ut_replies s))
  end.

(** The write of [Forward] on the socket it got: it fails when the socket has been closed. *)
Definition session_write (id : nat) (addr : IP * Z) (payload : bytes) : UM unit := fun s =>
  match ut_heap s !! id with
  | None => (Panic, s)
  | Some x =>
      if us_closed x then (Err "use of closed network connection", s)
      else (Ok tt, mkUdpState (ut_sessions s) (ut_heap s) ((addr, payload) :: ut_sent s) (ut_replies s))
  end.

Definition Forward (id : nat) (payload : bytes) : UM unit :=
  if is_nil payload then ret tt else
  let* addr := ensureUpstream id in
  session_write id addr payload.

(** One datagram from the socket in [readLoop]; on a closed socket there is none. *)
Definition readLoop_reply (id : nat) (payload : bytes) : UM unit := fun s =>
  match ut_heap s !! id with
  | None => (Panic, s)
  | Some x =>
      match us_upstream x with
      | None => (Ok tt, s)
      | Some addr => (Ok tt, mkUdpState (ut_sessions s) (ut_heap s) (ut_sent s) ((us_clientAddr x, addr, payload) :: ut_replies s))
      end
  end.

(** ** Interleavings *)

(** Where the goroutine of a datagram that may pass is: [handleUDPDecision] ensures the
    session and the adapter's [forwardUDPDatagram] ensures it again before it sends; when
    that fails the first session is closed. *)
Inductive goroutine :=
  | EnsureFirst (dg : datagram)
  | UpdateFirst (dg : datagram) (first : nat)
  | EnsureAgain (dg : datagram) (first : nat)
  | UpdateAgain (dg : datagram) (first id : nat)
  | Connect (dg : datagram) (first id : nat)
  | Send (dg : datagram) (first id : nat) (addr : IP * Z)
  | CloseFirst (first : nat)
  | Done.

(** The next critical section. *)
Definition advance (g : goroutine) (s : udpState) : goroutine * udpState :=
  match g with
  | EnsureFirst dg =>
      match ensure_lookup dg s with (Ok id, s) => (UpdateFirst dg id, s) | (_, s) => (Done, s) end
  | UpdateFirst dg first => (EnsureAgain dg first, (session_update first dg s).2)
  | EnsureAgain dg first =>
      match ensure_lookup dg s with (Ok id, s) => (UpdateAgain dg first id, s) | (_, s) => (CloseFirst first, s) end
  | UpdateAgain dg first id =>
      (if is_nil (dg_Payload dg) then Done else Connect dg first id, (session_update id dg s).2)
  | Connect dg first id =>
      match ensureUpstream id s with (Ok addr, s) => (Send dg first id addr, s) | (_, s) => (CloseFirst first, s) end
  | Send dg first id addr =>
      match session_write id addr (dg_Payload dg) s with
      | (Ok _, s) => (Done, s)
      | (_, s) => (CloseFirst first, (closeWithError id s).2)
      end
  | CloseFirst first => (Done, (closeWithError first s).2)
  | Done => (Done, s)
  end.

(** The server: the state of the sessions, the goroutines, and the datagrams that were let
    through, with their decisions. *)
Record udpServer := mkUdpServer {
  up_state : udpState; up_goroutines : list goroutine; up_passed : list (datagram * trafficDecision);
  up_shared : quicReassembler * dnsHostVerifier
}.

Definition udp_init : udpServer := mkUdpServer (mkUdpState ∅ ∅ [] []) [] [] (∅, newDNSHostVerifier).

Inductive udp_step `{UnicodeCase, QuicLib, MapOrder, Resolver} (adapters : adapterRegistry) : udpServer -> udpServer -> Prop :=
  | step_datagram now later dg o shared u :
      handleUDPDatagram adapters now later dg (up_shared u) = (Ok o, shared) ->
      udp_step adapters u (mkUdpServer (up_state u)
        (match o with UdpForwarded _ _ => EnsureFirst dg :: up_goroutines u | _ => up_goroutines u end)
        (match o with UdpForwarded d _ => (dg, d) :: up_passed u | _ => up_passed u end) shared)
  | step_goroutine l1 g l2 g' st u :
      up_goroutines u = l1 ++ g :: l2 -> advance g (up_state u) = (g', st) ->
      udp_step adapters u (mkUdpServer st (l1 ++ g' :: l2) (up_passed u) (up_shared u))
  | step_reply id payload u :
      udp_step adapters u (mkUdpServer (readLoop_reply id payload (up_state u)).2 (up_goroutines u) (up_passed u) (up_shared u))
  | step_close id u :
      udp_step adapters u (mkUdpServer (closeWithError id (up_state u)).2 (up_goroutines u) (up_passed u) (up_shared u)).
