(* ===== verification/UdpSpec.v ===== *)
(** * netd: what is shown of UDP flows

    Over all interleavings of datagrams, replies and closing sessions, only datagrams the
    policy lets pass are sent, to their own destination, and a reply reaches a sandbox only
    from a destination to which it could send, on the port it sent from. *)

From stdpp Require Import base gmap strings list fin_maps numbers.
From Stdlib Require Import Strings.Byte Relations.
From S2P Require Import Prelude GoStd GoNet Policy PolicyEval PolicySpec Classifier Proxy ProxySpec Quic QuicSpec Udp.

Local Open Scope Z_scope.

(** ** Sessions *)

Definition same_addr (a : IP * Z) (ip : string) (port : Z) : Prop := IP_String a.1 = ip /\ a.2 = port.

Definition valid (dg : datagram) : Prop := is_nil (dg_DestIP dg) = false /\ 0 < dg_DestPort dg.
Definition key_of (dg : datagram) : udpSessionKey :=
  mkSessionKey (IP_String (dg_SrcIP dg)) (dg_SrcPort dg) (IP_String (dg_DestIP dg)) (dg_DestPort dg).

Lemma newUDPSessionKey_valid dg : valid dg -> newUDPSessionKey dg = Ok (key_of dg).
Proof. intros [Hd Hp]. unfold newUDPSessionKey. rewrite Hd. destruct (Z.leb_spec (dg_DestPort dg) 0); [lia|done]. Qed.

Definition passes_key (passed : list (datagram * trafficDecision)) (k : udpSessionKey) : Prop :=
  exists dg d, (dg, d) ∈ passed /\ k = key_of dg.

Record session_ok (passed : list (datagram * trafficDecision)) (x : udpSession) : Prop := {
  so_key : passes_key passed (us_key x);
  so_client : same_addr (us_clientAddr x) (uk_SrcIP (us_key x)) (uk_SrcPort (us_key x));
  so_dest : same_addr (us_destIP x, us_destPort x) (uk_DestIP (us_key x)) (uk_DestPort (us_key x));
  so_upstream : forall a, us_upstream x = Some a -> same_addr a (uk_DestIP (us_key x)) (uk_DestPort (us_key x))
}.

(** The session [id] is for this key. *)
Definition has_key (s : udpState) (id : nat) (k : udpSessionKey) : Prop := exists x, ut_heap s !! id = Some x /\ us_key x = k.

Record state_ok (passed : list (datagram * trafficDecision)) (s : udpState) : Prop := {
  st_heap : forall id x, ut_heap s !! id = Some x -> session_ok passed x;
  st_table : forall k id, ut_sessions s !! k = Some id -> has_key s id k;
  st_sent : forall a p, (a, p) ∈ ut_sent s -> exists dg d, (dg, d) ∈ passed /\ p = dg_Payload dg /\
    same_addr a (IP_String (dg_DestIP dg)) (dg_DestPort dg);
  st_replies : forall c a p, (c, a, p) ∈ ut_replies s -> exists dg d, (dg, d) ∈ passed /\
    same_addr c (IP_String (dg_SrcIP dg)) (dg_SrcPort dg) /\ same_addr a (IP_String (dg_DestIP dg)) (dg_DestPort dg)
}.

(** Sessions keep their keys. *)
Definition grows (s s' : udpState) : Prop := forall id k, has_key s id k -> has_key s' id k.

Lemma grows_refl s : grows s s.
Proof. by intros id k H. Qed.

Lemma grows_heap s s' : ut_heap s' = ut_heap s -> grows s s'.
Proof. intros He id k (x & Hx & Hk). exists x. by rewrite He. Qed.

Lemma set_heap_ok passed s id x x' :
  state_ok passed s -> ut_heap s !! id = Some x -> us_key x' = us_key x -> session_ok passed x' ->
  state_ok passed (set_heap id x' s) /\ grows s (set_heap id x' s).
Proof.
  intros [Hh Ht Hs Hr] Hx Hk Hok.
  assert (Hg : grows s (set_heap id x' s)).
  { intros id' k (y & Hy & <-). unfold has_key. cbn. destruct (decide (id' = id)) as [->|Hne].
    - exists x'. rewrite lookup_insert_eq. split; [done|]. congruence.
    - exists y. by rewrite lookup_insert_ne by done. }
  split; [|done]. split; cbn; [|intros k id' H; by apply Hg, Ht|done..].
  intros id' y Hy. apply lookup_insert_Some in Hy as [[_ <-]|[_ Hy]]; [done|by apply (Hh id')].
Qed.

Lemma ensure_lookup_ok passed s dg d :
  state_ok passed s -> (dg, d) ∈ passed -> valid dg ->
  exists id s', ensure_lookup dg s = (Ok id, s') /\ state_ok passed s' /\ grows s s' /\ has_key s' id (key_of dg).
Proof.
  intros Hok Hin Hv. unfold ensure_lookup. rewrite (newUDPSessionKey_valid dg Hv). cbv zeta.
  set (new := fresh (dom (ut_heap s))).
  assert (Hnew : ut_heap s !! new = None) by (apply not_elem_of_dom, is_fresh).
  set (s' := mkUdpState (<[key_of dg := new]> (ut_sessions s)) (<[new := newUDPSession (key_of dg) dg]> (ut_heap s)) (ut_sent s) (ut_replies s)).
  assert (Hadd : state_ok passed s' /\ grows s s' /\ has_key s' new (key_of dg)).
  { assert (Hg : grows s s').
    { intros id k (y & Hy & Hk). exists y. cbn. split; [|done]. rewrite lookup_insert_ne; [done|congruence]. }
    assert (Hk : has_key s' new (key_of dg)) by (eexists; cbn; by rewrite lookup_insert_eq).
    split; [|done]. destruct Hok as [Hh Ht Hs Hr]. split; cbn; [..|done|done].
    - intros id y Hy. apply lookup_insert_Some in Hy as [[_ <-]|[_ Hy]]; [|by apply (Hh id)].
      split; cbn; try done. by exists dg, d.
    - intros k id Hid. apply lookup_insert_Some in Hid as [[<- <-]|[_ Hid]]; [done|by apply Hg, Ht]. }
  destruct (ut_sessions s !! key_of dg) as [id|] eqn:Ei; [|by exists new, s'].
  destruct (st_table _ _ Hok _ _ Ei) as (x & Hx & Hk). rewrite Hx.
  destruct (us_closed x); [by exists new, s'|]. exists id, s. split_and!; auto using grows_refl. by exists x.
Qed.

Lemma session_update_ok passed s id dg d :
  state_ok passed s -> (dg, d) ∈ passed -> valid dg -> has_key s id (key_of dg) ->
  state_ok passed (session_update id dg s).2 /\ grows s (session_update id dg s).2.
Proof.
  intros Hok Hin [Hd Hp] (x & Hx & Hk). unfold session_update. rewrite Hx, Hd. destruct (Z.ltb_spec 0 (dg_DestPort dg)); [|lia].
  apply (set_heap_ok passed s id x); [done..|]. pose proof (st_heap _ _ Hok id x Hx) as [H1 H2 H3 H4].
  split; cbn; rewrite Hk in *; try done.
Qed.

Lemma ensureUpstream_ok passed s id k :
  state_ok passed s -> has_key s id k ->
  state_ok passed (ensureUpstream id s).2 /\ grows s (ensureUpstream id s).2 /\
  (forall a, (ensureUpstream id s).1 = Ok a -> same_addr a (uk_DestIP k) (uk_DestPort k)).
Proof.
  intros Hok (x & Hx & Hk). unfold ensureUpstream. rewrite Hx. destruct (us_closed x); [split_and!; auto using grows_refl; done|].
  pose proof (st_heap _ _ Hok id x Hx) as Hs. destruct (us_upstream x) as [a|] eqn:Eu.
  - split_and!; auto using grows_refl. intros b [= <-]. rewrite <- Hk. by apply (so_upstream _ _ Hs).
  - destruct (_ || _); [split_and!; auto using grows_refl; done|].
    pose proof Hs as [H1 H2 H3 H4].
    destruct (set_heap_ok passed s id x (mkUdpSession (us_key x) (us_compiled x) (us_clientAddr x) (us_destIP x) (us_destPort x)
      (Some (us_destIP x, us_destPort x)) false)) as [Hok' Hg]; [done..|split; cbn; try done; by intros a [= <-]|].
    split_and!; [done..|]. intros a [= <-]. by rewrite <- Hk.
Qed.

Lemma close_ok passed s id : state_ok passed s -> state_ok passed (closeWithError id s).2 /\ grows s (closeWithError id s).2.
Proof.
  intros Hok. unfold closeWithError. destruct (ut_heap s !! id) as [x|] eqn:Hx; [|split; auto using grows_refl].
  destruct (us_closed x); [split; auto using grows_refl|]. pose proof (st_heap _ _ Hok id x Hx) as [H1 H2 H3 H4].
  destruct (set_heap_ok passed s id x (mkUdpSession (us_key x) (us_compiled x) (us_clientAddr x) (us_destIP x) (us_destPort x) None true))
    as [[Hh Ht Hs Hr] Hg]; [done..|by split|]. cbn [fst snd]. split; [|done]. split; [done| |done|done].
  cbn [ut_sessions]. intros k id' Hid. destruct (decide _); [apply lookup_delete_Some in Hid as [_ Hid]|]; by apply Ht.
Qed.

Lemma write_ok passed s id a dg d :
  state_ok passed s -> (dg, d) ∈ passed -> same_addr a (IP_String (dg_DestIP dg)) (dg_DestPort dg) ->
  state_ok passed (session_write id a (dg_Payload dg) s).2 /\ grows s (session_write id a (dg_Payload dg) s).2.
Proof.
  intros Hok Hin Ha. pose proof Hok as [Hh Ht Hs Hr]. unfold session_write.
  destruct (ut_heap s !! id) as [x|]; [|split; [exact Hok|apply grows_refl]]. destruct (us_closed x); [split; [exact Hok|apply grows_refl]|].
  split; [|by apply grows_heap]. split; cbn; [done|done| |done]. intros b p Hb. apply elem_of_cons in Hb as [[= -> ->]|Hb]; [|by apply Hs].
  exists dg, d. auto.
Qed.

Lemma reply_ok passed s id payload :
  state_ok passed s -> state_ok passed (readLoop_reply id payload s).2 /\ grows s (readLoop_reply id payload s).2.
Proof.
  intros Hok. pose proof Hok as [Hh Ht Hs Hr]. unfold readLoop_reply. destruct (ut_heap s !! id) as [x|] eqn:Hx; [|split; [exact Hok|apply grows_refl]].
  destruct (us_upstream x) as [a|] eqn:Eu; [|split; [exact Hok|apply grows_refl]]. destruct (Hh id x Hx) as [(dg & d & Hin & Hk) H2 H3 H4]. rewrite Hk in *.
  split; [|by apply grows_heap]. split; cbn; [done..|]. intros c b p Hb. apply elem_of_cons in Hb as [[= -> -> ->]|Hb]; [|by eapply Hr].
  exists dg, d. split_and!; [done|exact H2|]. by apply H4.
Qed.

(** ** Goroutines *)

Definition goroutine_ok (passed : list (datagram * trafficDecision)) (s : udpState) (g : goroutine) : Prop :=
  let fine dg := valid dg /\ exists d, (dg, d) ∈ passed in
  match g with
  | EnsureFirst dg => fine dg
  | UpdateFirst dg first | EnsureAgain dg first => fine dg /\ has_key s first (key_of dg)
  | UpdateAgain dg first id | Connect dg first id => fine dg /\ has_key s first (key_of dg) /\ has_key s id (key_of dg)
  | Send dg first id a =>
      fine dg /\ has_key s first (key_of dg) /\ has_key s id (key_of dg) /\
      same_addr a (IP_String (dg_DestIP dg)) (dg_DestPort dg)
  | CloseFirst _ | Done => True
  end.

Lemma goroutine_grows passed s s' g : grows s s' -> goroutine_ok passed s g -> goroutine_ok passed s' g.
Proof. intros Hg. destruct g; cbn; try done; intuition. Qed.

Lemma advance_ok passed s g g' s' :
  state_ok passed s -> goroutine_ok passed s g -> advance g s = (g', s') ->
  state_ok passed s' /\ grows s s' /\ goroutine_ok passed s' g'.
Proof.
  intros Hok Hgo. destruct g as [dg|dg first|dg first|dg first id|dg first id|dg first id a|first|]; cbn [advance goroutine_ok] in *.
  - destruct Hgo as [Hv [d Hin]]. destruct (ensure_lookup_ok passed s dg d Hok Hin Hv) as (id & s1 & -> & Hok1 & Hg & Hk).
    intros [= <- <-]. cbn. eauto 10.
  - destruct Hgo as [[Hv [d Hin]] Hk]. destruct (session_update_ok passed s first dg d Hok Hin Hv Hk) as [H1 H2].
    intros [= <- <-]. cbn. eauto 10.
  - destruct Hgo as [[Hv [d Hin]] Hk]. destruct (ensure_lookup_ok passed s dg d Hok Hin Hv) as (id & s1 & -> & Hok1 & Hg & Hk1).
    intros [= <- <-]. cbn. eauto 10.
  - destruct Hgo as [[Hv [d Hin]] [Hk1 Hk2]]. destruct (session_update_ok passed s id dg d Hok Hin Hv Hk2) as [H1 H2].
    intros [= <- <-]. split; [done|]. split; [done|]. destruct (is_nil _); cbn; eauto 10.
  - destruct Hgo as [[Hv [d Hin]] [Hk1 Hk2]]. destruct (ensureUpstream_ok passed s id _ Hok Hk2) as (H1 & H2 & H3).
    destruct (ensureUpstream id s) as [[a|e|] s1]; intros [= <- <-]; cbn in *; eauto 10.
    split; [done|]. split; [done|]. split; [eauto|]. split; [by apply H2|]. split; [by apply H2|]. by apply H3.
  - destruct Hgo as [[Hv [d Hin]] (Hk1 & Hk2 & Ha)]. destruct (write_ok passed s id a dg d Hok Hin Ha) as [H1 H2].
    destruct (session_write id a (dg_Payload dg) s) as [[[]|e|] s1]; intros [= <- <-]; cbn in *; [done|..];
      (destruct (close_ok passed s1 id H1) as [H3 H4]; split; [done|]; split; [|done]; intros ? ? ?; by apply H4, H2).
  - intros [= <- <-]. destruct (close_ok passed s first Hok) as [H1 H2]. done.
  - intros [= <- <-]. split_and!; auto using grows_refl.
Qed.

(** ** The decision *)

Section decision.
Context `{UC : UnicodeCase} `{QL : QuicLib} `{MO : MapOrder} `{RS : Resolver}.

(** The classification is about the datagram's destination. *)
Definition about_udp (dg : datagram) (c : trafficClassification) : Prop :=
  tc_Transport c = "udp" /\ tc_DestIP c = dg_DestIP dg /\ tc_DestPort c = dg_DestPort dg.

Lemma classify_about now dg r result r' :
  classifyUDP (defaultUDPClassifiers now)
    (mkUdpCtx (dg_Compiled dg) (IP_String (dg_SrcIP dg)) (dg_DestIP dg) (dg_DestPort dg) (dg_Payload dg)) r = (Ok result, r') ->
  about_udp dg (cr_Classification result).
Proof.
  unfold defaultUDPClassifiers, classifyUDP, udpMissingOriginalDstClassifier, udpSNIClassifier, udpGenericClassifier.
  cbn [ux_Compiled ux_SrcIP ux_DestIP ux_DestPort ux_Payload]. unfold bind, ret.
  destruct (negb _ && _); [|by intros [= <- _]].
  destruct (_ || _ || _); cbv beta iota; [destruct (_ || _); [done|by intros [= <- _]]|].
  destruct (ParseSNI _ _ _ _ _) as [[sni|e|] r1]; [|done..]. destruct (decide _); by intros [= <- _].
Qed.

Lemma verify_about now later dg c v c' v' :
  verifyClassifiedHost now later (dg_Compiled dg) c v = (Ok c', v') -> about_udp dg c -> about_udp dg c'.
Proof.
  unfold verifyClassifiedHost. destruct (_ || _); [by intros [= <- _]|]. destruct (_ || _ || _); [by intros [= <- _]|].
  destruct (Verify _ _ _ _ _) as [[[]|e|] v1]; by intros [= <- _].
Qed.

(** The policy of its source lets the datagram pass. *)
Definition let_through (dg : datagram) (d : trafficDecision) : Prop :=
  valid dg /\ exists c, about_udp dg c /\ d = decideTraffic (dg_Compiled dg) c /\ td_Action d <> decisionActionDeny.

Lemma forwarded_let_through adapters now later dg s d a s' :
  handleUDPDatagram adapters now later dg s = (Ok (UdpForwarded d a), s') -> let_through dg d.
Proof.
  unfold handleUDPDatagram. destruct (classifyUDP _ _ _) as [[result|e|] r] eqn:Ec; [|done..]. apply classify_about in Ec.
  destruct (verifyClassifiedHost _ _ _ _ _) as [[c|e|] v] eqn:Ev; [|done..]. eapply verify_about in Ev; [|done].
  intros [= H _]. unfold handleUDPDecision in H. destruct (td_Action (decideTraffic _ c)) eqn:Ea; [done|..];
    (destruct (Resolve _ _) as [[ad|]|e|]; try done; destruct (_ || _) eqn:Ed; [done|]; injection H as <- <-;
     apply orb_false_iff in Ed as [E1 E2]; split; [split; [done|lia]|]; exists c; split_and!; [done..|]; by rewrite Ea).
Qed.

(** ** The server *)

Record server_ok (u : udpServer) : Prop := {
  uo_state : state_ok (up_passed u) (up_state u);
  uo_goroutines : Forall (goroutine_ok (up_passed u) (up_state u)) (up_goroutines u);
  uo_passed : forall dg d, (dg, d) ∈ up_passed u -> let_through dg d
}.

Lemma state_ok_mono passed p s : state_ok passed s -> state_ok (p :: passed) s.
Proof.
  assert (Hm : forall x, x ∈ passed -> x ∈ p :: passed) by (intros; apply elem_of_cons; by right).
  intros [Hh Ht Hs Hr]. split; [|done|..].
  - intros id x Hx. destruct (Hh id x Hx) as [(dg & d & Hin & Hk) H2 H3 H4]. split; try done. exists dg, d. auto.
  - intros a q Hq. destruct (Hs a q Hq) as (dg & d & Hin & H). exists dg, d. auto.
  - intros c a q Hq. destruct (Hr c a q Hq) as (dg & d & Hin & H). exists dg, d. auto.
Qed.

Lemma goroutine_ok_mono passed p s g : goroutine_ok passed s g -> goroutine_ok (p :: passed) s g.
Proof.
  assert (Hm : forall x, x ∈ passed -> x ∈ p :: passed) by (intros; apply elem_of_cons; by right).
  destruct g; cbn; try done; intros H; decompose [and ex] H; eauto 10.
Qed.

Lemma init_ok : server_ok udp_init.
Proof.
  split; [split| |]; cbn; try done; try constructor.
  all: intros; try (by apply elem_of_nil in H). 
Qed.

Lemma state_change_ok u st gs :
  server_ok u -> state_ok (up_passed u) st -> grows (up_state u) st ->
  Forall (goroutine_ok (up_passed u) st) gs -> server_ok (mkUdpServer st gs (up_passed u) (up_shared u)).
Proof. intros [H1 H2 H3] Hs Hg Hgs. by split. Qed.

Lemma step_keeps_ok adapters u u' : server_ok u -> udp_step adapters u u' -> server_ok u'.
Proof.
  intros Hu Hstep. pose proof Hu as [Hst Hgo Hpa].
  assert (Hgs : forall st, grows (up_state u) st -> Forall (goroutine_ok (up_passed u) st) (up_goroutines u)).
  { intros st Hg. eapply Forall_impl; [|exact Hgo]. intros g. by apply goroutine_grows. }
  inversion Hstep as [now later dg o shared u0 Ho|l1 g l2 g' st u0 Hl Ha|id payload u0|id u0]; subst.
  - destruct o as [e|d|d e|d|d a]; try (by split). apply forwarded_let_through in Ho. split; cbn.
    + by apply state_ok_mono.
    + constructor; [split; [apply Ho|]; exists d; by apply elem_of_cons; left|].
      eapply Forall_impl; [|exact Hgo]. intros g. apply goroutine_ok_mono.
    + intros dg' d' [[= -> ->]|Hin]%elem_of_cons; [done|by apply Hpa].
  - rewrite Hl in Hgo. apply Forall_app in Hgo as [Hg1 Hg2]. inversion Hg2 as [|? ? Hg Hg3]; subst.
    destruct (advance_ok _ _ _ _ _ Hst Hg Ha) as (Hst' & Hgr & Hg'). apply state_change_ok; [done..|].
    apply Forall_app. split; [|constructor; [done|]]; (eapply Forall_impl; [|eassumption]; intros h; by apply goroutine_grows).
  - destruct (reply_ok _ _ id payload Hst) as [H1 H2]. apply state_change_ok; auto.
  - destruct (close_ok _ _ id Hst) as [H1 H2]. apply state_change_ok; auto.
Qed.


End decision.

(** ** Examples *)

Section example.
Context `{UC : UnicodeCase} `{QL : QuicLib} `{MO : MapOrder} `{RS : Resolver}.

(** The next critical section of the first goroutine. *)
Definition tick (u : udpServer) : udpServer :=
  match up_goroutines u with
  | [] => u
  | g :: l => let '(g', st) := advance g (up_state u) in mkUdpServer st (g' :: l) (up_passed u) (up_shared u)
  end.

Lemma tick_step adapters u : clos_refl_trans _ (udp_step adapters) u (tick u).
Proof.
  unfold tick. destruct (up_goroutines u) as [|g l] eqn:El; [apply rt_refl|]. destruct (advance g (up_state u)) as [g' st] eqn:Ea.
  apply rt_step. by apply (step_goroutine adapters [] g l g' st u).
Qed.

Lemma tick_steps adapters n u : clos_refl_trans _ (udp_step adapters) u (Nat.iter n tick u).
Proof. induction n as [|n IH]; [apply rt_refl|]. eapply rt_trans; [exact IH|apply tick_step]. Qed.

End example.

Definition dns_datagram (p : option CompiledPolicy) : datagram := mkDatagram [10; 0; 0; 5] 4000 [8; 8; 8; 8] 53 [x01] p.
Definition arrived (p : option CompiledPolicy) (u : udpServer) : udpServer :=
  mkUdpServer (up_state u) (EnsureFirst (dns_datagram p) :: up_goroutines u)
    ((dns_datagram p, decideTraffic (UC := no_unicode) p (classifyKnownTraffic "udp" "udp" [8; 8; 8; 8] 53 "")) :: up_passed u) (up_shared u).
Definition sent_once : udpServer := Nat.iter 6 tick (arrived None udp_init).
Definition replied (u : udpServer) : udpServer :=
  mkUdpServer (readLoop_reply 0 [x02] (up_state u)).2 (up_goroutines u) (up_passed u) (up_shared u).

Definition no_quic : QuicLib :=
  {| quicvarint_Read := fun _ => None; PaddingFrameType := 0; CryptoFrameType := 6; V1 := 1; V2 := 2;
     ParseInitialHeader := fun _ => None; hkdf_Extract := fun _ _ => []; hkdf_Expand := fun _ _ _ => None;
     InitialProtectionKey := unit; NewInitialProtectionKey := fun _ _ => None; UnProtect := fun _ _ _ => None;
     UnmarshalClientHello_ServerName := fun _ => None |}.
Definition no_order : MapOrder := {| range_keys := fun _ => [] |}.
Definition no_dns : Resolver := {| LookupIPAddr := fun _ _ => None |}.

Definition demo_step : udpServer -> udpServer -> Prop :=
  udp_step (H := no_unicode) (H0 := no_quic) (H1 := no_order) (H2 := no_dns) default_registry.

Lemma replied_reachable : clos_refl_trans _ demo_step udp_init (replied sent_once).
Proof.
  eapply rt_trans; [|eapply rt_trans; [apply tick_steps|apply rt_step, (step_reply default_registry 0 [x02] sent_once)]].
  apply rt_step. apply (step_datagram default_registry 0 0 (dns_datagram None) (UdpForwarded
    (decideTraffic (UC := no_unicode) None (classifyKnownTraffic "udp" "udp" [8; 8; 8; 8] 53 "")) udpAdapter) (∅, newDNSHostVerifier) udp_init).
  vm_compute. reflexivity.
Qed.


(** The policy of the sandbox now denies the destination: its next datagram is denied, and
    the session it has keeps passing replies on. *)
Lemma denied_destination_still_replies :
  let p := compiled_of (mkPolicySpec "sb" "team" "block-all" None) in
  (exists d, (handleUDPDatagram (UC := no_unicode) (QL := no_quic) (MO := no_order) (RS := no_dns) default_registry 0 0
     (dns_datagram (Some p)) (up_shared sent_once)).1 = Ok (UdpDenied d)) /\
  demo_step sent_once (replied sent_once) /\ length (ut_replies (up_state (replied sent_once))) = 1%nat.
Proof.
  split; [eexists; vm_compute; reflexivity|]. split; [apply (step_reply default_registry 0 [x02] sent_once)|]. vm_compute. reflexivity.
Qed.
