(* ===== verification/EgressAuth.v ===== *)
(** * netd: credentials for egress flows (netd/pkg/proxy/egress_auth.go, adapter_base.go)

    A flow that matches a credential rule gets material from a resolver service, through
    a cache; every adapter prepares what it needs of the material and then proxies the
    flow with it, relays it without, or refuses it.  The types of the material are those
    of pkg/egressauth/types.go.  The resolver, certificates and the certificate authority
    are parameters. *)

From stdpp Require Import base gmap strings list fin_maps numbers.
From Stdlib Require Import Strings.Byte.
From S2P Require Import Prelude GoStd GoNet Policy PolicyEval Classifier Proxy.

Local Open Scope Z_scope.

(** ** pkg/egressauth/types.go *)

Record ResolveRequest := mkResolveRequest {
  qr_SandboxID : string; qr_TeamID : string; qr_AuthRef : string; qr_RuleName : string;
  qr_Destination : string; qr_DestinationPort : Z; qr_Transport : string; qr_Protocol : string
}.

Inductive ResolveDirectiveKind :=
  | ResolveDirectiveKindHTTPHeaders | ResolveDirectiveKindGRPCMetadata | ResolveDirectiveKindTLSClientCertificate
  | ResolveDirectiveKindUsernamePassword | ResolveDirectiveKindSSHProxy | ResolveDirectiveKindSSHAgentSign
  | ResolveDirectiveKindCustom | otherKind (k : string).

#[export] Instance ResolveDirectiveKind_eq_dec : EqDecision ResolveDirectiveKind.
Proof. solve_decision. Defined.

Record TLSClientCertificateDirective := mkCertDirective { cd_CertificatePEM : string; cd_PrivateKeyPEM : string; cd_CAPEM : string }.
Record UsernamePasswordDirective := mkUserDirective { ud_Username : string; ud_Password : string }.
Record SSHProxyDirective := mkSSHDirective {
  sd_SandboxPublicKeys : list string; sd_UpstreamUsername : string; sd_PrivateKeyPEM : string;
  sd_Passphrase : string; sd_KnownHosts : list string
}.

(** A nil map and an empty one are the same to the code, which only looks at the length. *)
Abbreviation header_map := (gmap string string).

Record ResolveDirective := mkDirective {
  rd_Kind : ResolveDirectiveKind; rd_HTTPHeaders : option header_map;
  rd_TLSClientCertificate : option TLSClientCertificateDirective;
  rd_UsernamePassword : option UsernamePasswordDirective; rd_SSHProxy : option SSHProxyDirective
}.

Record ResolveResponse := mkResponse {
  rr_AuthRef : string; rr_Directives : list ResolveDirective; rr_ExpiresAt : option Z; rr_Headers : header_map
}.

Definition headers_directive (h : header_map) : ResolveDirective :=
  mkDirective ResolveDirectiveKindHTTPHeaders (Some h) None None None.

(** The headers of the directives, a later directive over an earlier one. *)
Fixpoint merge_headers (directives : list ResolveDirective) (merged : header_map) : header_map :=
  match directives with
  | [] => merged
  | d :: rest =>
      match rd_Kind d, rd_HTTPHeaders d with
      | ResolveDirectiveKindHTTPHeaders, Some h => merge_headers rest (h ∪ merged)
      | _, _ => merge_headers rest merged
      end
  end.

Definition extractHTTPHeaders (directives : list ResolveDirective) : header_map := merge_headers directives ∅.

Definition EnsureCompatibilityFields (r : ResolveResponse) : ResolveResponse :=
  let directives := if is_nil (rr_Directives r) && negb (bool_decide (rr_Headers r = ∅))
                    then [headers_directive (rr_Headers r)] else rr_Directives r in
  mkResponse (rr_AuthRef r) directives (rr_ExpiresAt r) (extractHTTPHeaders directives).

Definition CloneResolveResponse (r : ResolveResponse) : ResolveResponse := EnsureCompatibilityFields r.

Definition NewHTTPHeadersResolveResponse (authRef : string) (headers : header_map) (expiresAt : option Z) : ResolveResponse :=
  EnsureCompatibilityFields (mkResponse authRef
    (if decide (headers = ∅) then [] else [headers_directive headers]) expiresAt ∅).

Definition NewTLSClientCertificateResolveResponse (authRef : string) (d : option TLSClientCertificateDirective)
    (expiresAt : option Z) : ResolveResponse :=
  EnsureCompatibilityFields (mkResponse authRef
    (match d with None => [] | Some _ => [mkDirective ResolveDirectiveKindTLSClientCertificate None d None None] end) expiresAt ∅).

Definition NewUsernamePasswordResolveResponse (authRef : string) (d : option UsernamePasswordDirective)
    (expiresAt : option Z) : ResolveResponse :=
  EnsureCompatibilityFields (mkResponse authRef
    (match d with None => [] | Some _ => [mkDirective ResolveDirectiveKindUsernamePassword None None d None] end) expiresAt ∅).

Definition NewSSHProxyResolveResponse (authRef : string) (d : option SSHProxyDirective) (expiresAt : option Z) : ResolveResponse :=
  EnsureCompatibilityFields (mkResponse authRef
    (match d with None => [] | Some _ => [mkDirective ResolveDirectiveKindSSHProxy None None None d] end) expiresAt ∅).

(** ** The cache *)

Record egressAuthCacheKey := mkCacheKey {
  ek_SandboxID : string; ek_AuthRef : string; ek_Destination : string; ek_DestinationPort : Z;
  ek_Transport : string; ek_Protocol : string
}.

#[export] Instance egressAuthCacheKey_eq_dec : EqDecision egressAuthCacheKey.
Proof. solve_decision. Defined.
#[export] Program Instance egressAuthCacheKey_countable : Countable egressAuthCacheKey :=
  inj_countable' (fun k => (ek_SandboxID k, ek_AuthRef k, ek_Destination k, ek_DestinationPort k, ek_Transport k, ek_Protocol k))
    (fun '(a, b, c, d, e, f) => mkCacheKey a b c d e f) _.
Next Obligation. by intros []. Qed.

Definition memoryEgressAuthCache : Type := gmap egressAuthCacheKey ResolveResponse.

Definition cache_Get (now : Z) (key : egressAuthCacheKey) (c : memoryEgressAuthCache)
    : option ResolveResponse * memoryEgressAuthCache :=
  match c !! key with
  | None => (None, c)
  | Some entry =>
      let expired := match rr_ExpiresAt entry with Some t => t <=? now | None => false end in
      if expired then (None, delete key c) else (Some (CloneResolveResponse entry), c)
  end.

Definition cache_Put (key : egressAuthCacheKey) (value : ResolveResponse) (c : memoryEgressAuthCache) : memoryEgressAuthCache :=
  <[key := CloneResolveResponse value]> c.

(** ** The context of a flow *)

Inductive authError :=
  | errEgressAuthResolverUnconfigured | errEgressAuthDirectiveUnsupported | errEgressAuthMaterialUnavailable
  | errEgressAuthDirectiveInvalid | errResolver (msg : string).

#[export] Instance authError_eq_dec : EqDecision authError.
Proof. solve_decision. Defined.

Definition EgressAuthFailurePolicyFailClosed : string := "fail-closed".
Definition EgressAuthFailurePolicyFailOpen : string := "fail-open".

(** Key pairs and certificate pools from PEM (crypto/tls, crypto/x509). *)
Class Certificates := {
  Certificate : Type; CertPool : Type;
  X509KeyPair : string -> string -> option Certificate;
  NewCertPoolFromPEM : string -> option CertPool
}.

Record resolvedUsernamePassword := mkUserPass { up_Username : string; up_Password : string }.
Record resolvedSSHProxy := mkSSHProxy {
  sp_SandboxPublicKeys : list string; sp_UpstreamUsername : string; sp_PrivateKeyPEM : string;
  sp_Passphrase : string; sp_KnownHosts : list string
}.

Section auth.
Context `{CE : Certificates}.

Record resolvedTLSClientCertificate := mkClientCert { tc_Certificate : Certificate; tc_RootCAs : option CertPool }.

Record egressAuthContext := mkAuthCtx {
  ac_Rule : CompiledEgressAuthRule; ac_Resolved : option ResolveResponse;
  ac_ResolvedHeaders : header_map; ac_ResolvedTLSClientCertificate : option resolvedTLSClientCertificate;
  ac_ResolvedUsernamePassword : option resolvedUsernamePassword; ac_ResolvedSSHProxy : option resolvedSSHProxy;
  ac_CacheHit : bool; ac_ResolveAttempt : bool; ac_ResolveError : option authError;
  ac_FailurePolicy : string; ac_BypassReason : string; ac_EnforcementReason : string
}.

Definition set_bypass (reason : string) (c : egressAuthContext) : egressAuthContext :=
  mkAuthCtx (ac_Rule c) (ac_Resolved c) (ac_ResolvedHeaders c) (ac_ResolvedTLSClientCertificate c)
    (ac_ResolvedUsernamePassword c) (ac_ResolvedSSHProxy c) (ac_CacheHit c) (ac_ResolveAttempt c) (ac_ResolveError c)
    (ac_FailurePolicy c) reason (ac_EnforcementReason c).
Definition set_enforcement (reason : string) (c : egressAuthContext) : egressAuthContext :=
  mkAuthCtx (ac_Rule c) (ac_Resolved c) (ac_ResolvedHeaders c) (ac_ResolvedTLSClientCertificate c)
    (ac_ResolvedUsernamePassword c) (ac_ResolvedSSHProxy c) (ac_CacheHit c) (ac_ResolveAttempt c) (ac_ResolveError c)
    (ac_FailurePolicy c) (ac_BypassReason c) reason.
(** The material an adapter prepares. *)
Definition set_material (h : header_map) (cert : option resolvedTLSClientCertificate) (u : option resolvedUsernamePassword)
    (s : option resolvedSSHProxy) (c : egressAuthContext) : egressAuthContext :=
  mkAuthCtx (ac_Rule c) (ac_Resolved c) h cert u s (ac_CacheHit c) (ac_ResolveAttempt c) (ac_ResolveError c)
    (ac_FailurePolicy c) (ac_BypassReason c) (ac_EnforcementReason c).

Definition ShouldBypass (c : egressAuthContext) : bool := negb (bool_decide (ac_BypassReason c = "")).
Definition FailOpen (c : egressAuthContext) : bool := bool_decide (ac_FailurePolicy c = EgressAuthFailurePolicyFailOpen).

Definition applyEgressAuthFailurePolicy (reason : string) (c : egressAuthContext) : egressAuthContext :=
  if FailOpen c then set_bypass reason c else set_enforcement reason c.

Definition applyEgressAuthDirectiveError (err : authError) (c : egressAuthContext) : egressAuthContext :=
  match err with
  | errEgressAuthDirectiveUnsupported => applyEgressAuthFailurePolicy "unsupported_directive" c
  | errEgressAuthMaterialUnavailable => applyEgressAuthFailurePolicy "material_unavailable" c
  | errEgressAuthDirectiveInvalid => applyEgressAuthFailurePolicy "invalid_directive" c
  | _ => applyEgressAuthFailurePolicy "resolve_error" c
  end.

(** ** Material for an adapter *)

Fixpoint header_directives (directives : list ResolveDirective) (headers : header_map) : (authError + header_map)%type :=
  match directives with
  | [] => inr headers
  | d :: rest =>
      if decide (rd_Kind d = ResolveDirectiveKindHTTPHeaders) then
        match rd_HTTPHeaders d with
        | None => header_directives rest headers
        | Some h => header_directives rest (h ∪ headers)
        end
      else inl errEgressAuthDirectiveUnsupported
  end.

Definition resolveHTTPHeadersForAdapter (resolved : option ResolveResponse) (allowHTTPHeaders : bool) : (authError + header_map)%type :=
  match resolved with
  | None => inl errEgressAuthMaterialUnavailable
  | Some r =>
      let noDirectives := is_nil (rr_Directives r) in
      let noHeaders := bool_decide (rr_Headers r = ∅) in
      if noDirectives && negb noHeaders then
        if negb allowHTTPHeaders then inl errEgressAuthDirectiveUnsupported else inr (rr_Headers r)
      else if negb allowHTTPHeaders then
        if negb noDirectives || negb noHeaders then inl errEgressAuthDirectiveUnsupported
        else inl errEgressAuthMaterialUnavailable
      else
        match header_directives (rr_Directives r) ∅ with
        | inl err => inl err
        | inr headers => if decide (headers = ∅) then inl errEgressAuthMaterialUnavailable else inr headers
        end
  end.

(** The other three look for one directive of their kind: the first that has its field,
    before any directive of another kind. *)
Fixpoint find_directive {A B} (kind : ResolveDirectiveKind) (field : ResolveDirective -> option A)
    (make : A -> (authError + B)) (noHeaders : bool) (directives : list ResolveDirective) : (authError + B) :=
  match directives with
  | [] => if noHeaders then inl errEgressAuthMaterialUnavailable else inl errEgressAuthDirectiveUnsupported
  | d :: rest =>
      if decide (rd_Kind d = kind) then
        match field d with
        | None => find_directive kind field make noHeaders rest
        | Some a => make a
        end
      else inl errEgressAuthDirectiveUnsupported
  end.

Definition directive_for_adapter {A B} (kind : ResolveDirectiveKind) (field : ResolveDirective -> option A)
    (make : A -> (authError + B)) (resolved : option ResolveResponse) (allow : bool) : (authError + B) :=
  match resolved with
  | None => inl errEgressAuthMaterialUnavailable
  | Some r =>
      let noHeaders := bool_decide (rr_Headers r = ∅) in
      if negb allow then
        if negb (is_nil (rr_Directives r)) || negb noHeaders then inl errEgressAuthDirectiveUnsupported
        else inl errEgressAuthMaterialUnavailable
      else find_directive kind field make noHeaders (rr_Directives r)
  end.

Definition resolveTLSClientCertificateForAdapter : option ResolveResponse -> bool -> authError + resolvedTLSClientCertificate :=
  directive_for_adapter ResolveDirectiveKindTLSClientCertificate rd_TLSClientCertificate (fun d =>
    match X509KeyPair (cd_CertificatePEM d) (cd_PrivateKeyPEM d) with
    | None => inl errEgressAuthDirectiveInvalid
    | Some keyPair =>
        let caPEM := TrimSpace (cd_CAPEM d) in
        if decide (caPEM = "") then inr (mkClientCert keyPair None) else
        match NewCertPoolFromPEM caPEM with
        | None => inl errEgressAuthDirectiveInvalid
        | Some pool => inr (mkClientCert keyPair (Some pool))
        end
    end).

Definition resolveUsernamePasswordForAdapter : option ResolveResponse -> bool -> authError + resolvedUsernamePassword :=
  directive_for_adapter ResolveDirectiveKindUsernamePassword rd_UsernamePassword (fun d =>
    let username := TrimSpace (ud_Username d) in
    let password := TrimSpace (ud_Password d) in
    if bool_decide (username = "") || bool_decide (password = "") then inl errEgressAuthDirectiveInvalid
    else inr (mkUserPass username password)).

Definition resolveSSHProxyForAdapter : option ResolveResponse -> bool -> authError + resolvedSSHProxy :=
  directive_for_adapter ResolveDirectiveKindSSHProxy rd_SSHProxy (fun d =>
    let upstreamUsername := TrimSpace (sd_UpstreamUsername d) in
    let privateKeyPEM := TrimSpace (sd_PrivateKeyPEM d) in
    if bool_decide (upstreamUsername = "") || bool_decide (privateKeyPEM = "") || is_nil (sd_SandboxPublicKeys d)
    then inl errEgressAuthDirectiveInvalid
    else inr (mkSSHProxy (sd_SandboxPublicKeys d) upstreamUsername privateKeyPEM (sd_Passphrase d) (sd_KnownHosts d))).

(** The four [prepare...Directives]: nothing to do on a bypassed flow; the error of the
    resolution, or of the material, otherwise with the failure policy applied. *)
Definition prepare_directives {B} (resolve : option ResolveResponse -> bool -> authError + B) (set : B -> egressAuthContext -> egressAuthContext)
    (allow : bool) (c : egressAuthContext) : option authError * egressAuthContext :=
  if ShouldBypass c then (None, c) else
  match ac_ResolveError c, ac_Resolved c with
  | Some err, _ => (Some err, c)
  | None, None => (Some errEgressAuthMaterialUnavailable, applyEgressAuthFailurePolicy "material_unavailable" c)
  | None, Some _ =>
      match resolve (ac_Resolved c) allow with
      | inr material => (None, set material c)
      | inl err => (Some err, applyEgressAuthDirectiveError err c)
      end
  end.

Definition prepareHTTPHeaderDirectives : bool -> egressAuthContext -> option authError * egressAuthContext :=
  prepare_directives resolveHTTPHeadersForAdapter (fun h c =>
    set_material h (ac_ResolvedTLSClientCertificate c) (ac_ResolvedUsernamePassword c) (ac_ResolvedSSHProxy c) c).
Definition prepareTLSClientCertificateDirectives : bool -> egressAuthContext -> option authError * egressAuthContext :=
  prepare_directives resolveTLSClientCertificateForAdapter (fun m c =>
    set_material (ac_ResolvedHeaders c) (Some m) (ac_ResolvedUsernamePassword c) (ac_ResolvedSSHProxy c) c).
Definition prepareUsernamePasswordDirectives : bool -> egressAuthContext -> option authError * egressAuthContext :=
  prepare_directives resolveUsernamePasswordForAdapter (fun m c =>
    set_material (ac_ResolvedHeaders c) (ac_ResolvedTLSClientCertificate c) (Some m) (ac_ResolvedSSHProxy c) c).
Definition prepareSSHProxyDirectives : bool -> egressAuthContext -> option authError * egressAuthContext :=
  prepare_directives resolveSSHProxyForAdapter (fun m c =>
    set_material (ac_ResolvedHeaders c) (ac_ResolvedTLSClientCertificate c) (ac_ResolvedUsernamePassword c) (Some m) c).

End auth.

(** ** Attaching the context *)

Record authConfig := mkAuthConfig { cf_EgressAuthEnabled : bool; cf_EgressAuthFailurePolicy : string }.

(** The resolver service, if the server has one, by the time it is asked: material, nothing,
    or an error. *)
Class AuthResolver := { authResolver : option (Z -> ResolveRequest -> string + option ResolveResponse) }.

Section attach.
Context `{CE : Certificates} `{AR : AuthResolver}.

Definition egressAuthFailurePolicy (cfg : authConfig) (rule : CompiledEgressAuthRule) : string :=
  if negb (bool_decide (ar_FailurePolicy rule = "")) then ar_FailurePolicy rule else
  if negb (bool_decide (TrimSpace (cf_EgressAuthFailurePolicy cfg) = "")) then TrimSpace (cf_EgressAuthFailurePolicy cfg)
  else EgressAuthFailurePolicyFailClosed.

Definition authDestination (req : adapterRequest) : string :=
  let host := TrimSpace (rq_Host req) in
  if negb (bool_decide (host = "")) then host else
  if negb (is_nil (rq_DestIP req)) then IP_String (rq_DestIP req) else "".

Definition compiledSandboxID (compiled : option CompiledPolicy) : string := match compiled with Some p => cp_SandboxID p | None => "" end.
Definition compiledTeamID (compiled : option CompiledPolicy) : string := match compiled with Some p => cp_TeamID p | None => "" end.

Definition buildEgressAuthCacheKey (compiled : option CompiledPolicy) (req : adapterRequest) (decision : trafficDecision)
    (rule : CompiledEgressAuthRule) : egressAuthCacheKey :=
  mkCacheKey (compiledSandboxID compiled) (ar_AuthRef rule) (authDestination req) (rq_DestPort req)
    (td_Transport decision) (td_Protocol decision).

Definition resolve_request (compiled : option CompiledPolicy) (req : adapterRequest) (decision : trafficDecision)
    (rule : CompiledEgressAuthRule) : ResolveRequest :=
  mkResolveRequest (compiledSandboxID compiled) (compiledTeamID compiled) (ar_AuthRef rule) (ar_Name rule)
    (authDestination req) (rq_DestPort req) (td_Transport decision) (td_Protocol decision).

Definition new_context (rule : CompiledEgressAuthRule) (failurePolicy : string) : egressAuthContext :=
  mkAuthCtx rule None ∅ None None None false false None failurePolicy "" "".

(** [attachEgressAuth] at time [now], on a server with the cache [NewServer] gives it. *)
Definition attachEgressAuth (cfg : authConfig) (now : Z) (compiled : option CompiledPolicy) (req : adapterRequest)
    (decision : trafficDecision) (cache : memoryEgressAuthCache) : option egressAuthContext * memoryEgressAuthCache :=
  match td_MatchedAuthRule decision with
  | None => (None, cache)
  | Some rule =>
      let policy := egressAuthFailurePolicy cfg rule in
      let ctx := new_context rule policy in
      if negb (cf_EgressAuthEnabled cfg) then (Some (set_bypass "cluster_disabled" ctx), cache) else
      let key := buildEgressAuthCacheKey compiled req decision rule in
      match cache_Get now key cache with
      | (Some resolved, cache) =>
          (Some (mkAuthCtx rule (Some resolved) ∅ None None None true false None policy "" "cache_hit"), cache)
      | (None, cache) =>
          let failed attempt err := mkAuthCtx rule None ∅ None None None false attempt err policy "" "" in
          match authResolver with
          | None => (Some (applyEgressAuthFailurePolicy "resolver_unconfigured"
                             (failed false (Some errEgressAuthResolverUnconfigured))), cache)
          | Some resolve =>
              match resolve now (resolve_request compiled req decision rule) with
              | inl e => (Some (applyEgressAuthFailurePolicy "resolve_error" (failed true (Some (errResolver e)))), cache)
              | inr None => (Some (applyEgressAuthFailurePolicy "material_unavailable" (failed true None)), cache)
              | inr (Some resolved) =>
                  (Some (mkAuthCtx rule (Some resolved) ∅ None None None false true None policy "" "resolved"),
                   cache_Put key resolved cache)
              end
          end
      end
  end.

End attach.

(** ** The adapters *)

(** What an adapter does with a flow: relay its bytes as they are (also to the upstream
    connection probed for it), hand it to a protocol proxy with the material to use, or
    close it with an error. *)
Inductive handling `{CE : Certificates} :=
  | Relayed
  | ProxiedHTTP (headers : header_map)
  | ProxiedHTTPS (headers : header_map)
  | ProxiedHTTP2 (headers : header_map)
  | ProxiedTLS (cert : resolvedTLSClientCertificate)
  | ProxiedSSH (material : resolvedSSHProxy)
  | ProxiedSOCKS5 (material : resolvedUsernamePassword)
  | ProxiedMQTT (material : resolvedUsernamePassword)
  | ProxiedRedis (material : resolvedUsernamePassword)
  | ForwardedUDP
  | Refused.

(** TLS interception: the authority's certificates, if it is configured, and the protocol
    the handshake with the client negotiates of those offered. *)
Class Interception `{CE : Certificates} := {
  tlsAuthority : option (string -> option Certificate);
  Handshake : Certificate -> list string -> option string
}.

Section adapters.
Context `{CE : Certificates} `{IC : !Interception}.

Definition tlsTerminationRequired (c : option egressAuthContext) : bool :=
  match c with Some c => bool_decide (ar_TLSMode (ac_Rule c) = "terminate-reoriginate") | None => false end.

Definition rule_protocol_is (p : string) (c : option egressAuthContext) : bool :=
  match c with Some c => bool_decide (ar_Protocol (ac_Rule c) = p) | None => false end.

Definition downstreamTLSNextProtos (c : option egressAuthContext) : list string :=
  if rule_protocol_is "tls" c then [] else if rule_protocol_is "grpc" c then ["h2"] else ["http/1.1"].

Definition shouldProxyHTTP2 (c : option egressAuthContext) (negotiated : string) : bool :=
  match c with
  | None => false
  | Some _ => bool_decide (negotiated = "h2") || rule_protocol_is "grpc" c
  end.

(** The part the two TLS proxies share: relay a bypassed flow, or finish the handshake with
    the client under a certificate for the host; [k] goes on with the negotiated protocol. *)
Definition intercept (req : adapterRequest) (c : option egressAuthContext) (k : string -> handling) : handling * option egressAuthContext :=
  if is_nil (rq_DestIP req) || (rq_DestPort req <=? 0) then (Refused, c) else
  if decide (rq_Host req = "") then (Refused, c) else
  let bypassed := match c with Some c => ShouldBypass c | None => false end in
  let unavailable reason :=
    match c with
    | Some c' => if FailOpen c' then (Relayed, Some (set_bypass reason c')) else (Refused, c)
    | None => (Refused, c)
    end in
  if bypassed then (Relayed, c) else
  match tlsAuthority with
  | None => unavailable "tls_intercept_unavailable"
  | Some certificateForHost =>
      match certificateForHost (rq_Host req) with
      | None => unavailable "tls_certificate_issue"
      | Some cert =>
          match Handshake cert (downstreamTLSNextProtos c) with
          | None => (Refused, c)
          | Some negotiated => (k negotiated, c)
          end
      end
  end.

Definition proxyHTTPSRequest (req : adapterRequest) (c : option egressAuthContext) : handling * option egressAuthContext :=
  intercept req c (fun negotiated =>
    let missing := match c with
                   | Some c => bool_decide (is_Some (ac_ResolveError c)) || bool_decide (ac_Resolved c = None)
                               || bool_decide (ac_ResolvedHeaders c = ∅)
                   | None => false
                   end in
    let headers := match c with Some c => ac_ResolvedHeaders c | None => ∅ end in
    if missing then Refused else
    if rule_protocol_is "grpc" c && negb (bool_decide (negotiated = "h2")) then Refused else
    if shouldProxyHTTP2 c negotiated then ProxiedHTTP2 headers else ProxiedHTTPS headers).

Definition proxyTLSStream (req : adapterRequest) (c : egressAuthContext) (material : resolvedTLSClientCertificate)
    : handling * option egressAuthContext :=
  intercept req (Some c) (fun _ => ProxiedTLS material).

(** The TLS configuration [dialUpstreamTLS] connects with. *)
Record tlsConfig := mkTLSConfig {
  tl_ServerName : string; tl_Certificates : list Certificate; tl_RootCAs : option CertPool; tl_NextProtos : list string
}.

Definition dialUpstreamTLS (upstreamTLSConfig : tlsConfig) (req : adapterRequest) (c : option egressAuthContext) : option tlsConfig :=
  if is_nil (rq_DestIP req) || (rq_DestPort req <=? 0) then None else
  if decide (rq_Host req = "") then None else
  let material := match c with Some c => ac_ResolvedTLSClientCertificate c | None => None end in
  Some (mkTLSConfig
    (if decide (tl_ServerName upstreamTLSConfig = "") then rq_Host req else tl_ServerName upstreamTLSConfig)
    (match material with Some m => [tc_Certificate m] | None => tl_Certificates upstreamTLSConfig end)
    (match material with
     | Some m => match tc_RootCAs m with Some pool => Some pool | None => tl_RootCAs upstreamTLSConfig end
     | None => tl_RootCAs upstreamTLSConfig
     end)
    (if is_nil (tl_NextProtos upstreamTLSConfig) && negb (rule_protocol_is "tls" c) then ["http/1.1"]
     else tl_NextProtos upstreamTLSConfig)).

Definition http_Handle (c : option egressAuthContext) : handling * option egressAuthContext :=
  match c with
  | None => (Relayed, None)
  | Some c =>
      let '(err, c) := prepareHTTPHeaderDirectives true c in
      if ShouldBypass c then (ProxiedHTTP (ac_ResolvedHeaders c), Some c) else
      if decide (err = Some errEgressAuthDirectiveUnsupported) then (Refused, Some c) else
      match ac_ResolveError c, ac_Resolved c with
      | Some _, _ | _, None => (Refused, Some c)
      | None, Some _ =>
          if decide (ac_ResolvedHeaders c = ∅) then (Refused, Some c) else (ProxiedHTTP (ac_ResolvedHeaders c), Some c)
      end
  end.

Definition tls_Handle (req : adapterRequest) (c : option egressAuthContext) : handling * option egressAuthContext :=
  let finish c :=
    if tlsTerminationRequired c then
      if match c with Some c => ShouldBypass c | None => false end then (Relayed, c) else proxyHTTPSRequest req c
    else (Relayed, c) in
  match c with
  | None => finish None
  | Some c =>
      if decide (ar_Protocol (ac_Rule c) = "tls") then
        let '(err, c) := prepareTLSClientCertificateDirectives (tlsTerminationRequired (Some c)) c in
        match err with
        | Some _ => if ShouldBypass c then (Relayed, Some c) else (Refused, Some c)
        | None =>
            if ShouldBypass c then (Relayed, Some c) else
            match ac_ResolveError c, ac_ResolvedTLSClientCertificate c with
            | None, Some material => proxyTLSStream req c material
            | _, _ => (Refused, Some c)
            end
        end
      else
        let '(err, c) := prepareHTTPHeaderDirectives (tlsTerminationRequired (Some c)) c in
        match err with
        | Some e =>
            if ShouldBypass c then (Relayed, Some c) else
            if decide (e = errEgressAuthDirectiveUnsupported) then (Refused, Some c) else finish (Some c)
        | None => finish (Some c)
        end
  end.

(** The adapters for SSH, SOCKS5, MQTT and Redis have one shape. *)
Definition material_Handle {B} (prepare : egressAuthContext -> option authError * egressAuthContext)
    (field : egressAuthContext -> option B) (proxied : B -> handling) (c : option egressAuthContext)
    : handling * option egressAuthContext :=
  match c with
  | None => (Relayed, None)
  | Some c =>
      let '(err, c) := prepare c in
      if ShouldBypass c then (Relayed, Some c) else
      match err, ac_ResolveError c, field c with
      | None, None, Some material => (proxied material, Some c)
      | _, _, _ => (Refused, Some c)
      end
  end.

Definition ssh_Handle := material_Handle (prepareSSHProxyDirectives true) ac_ResolvedSSHProxy ProxiedSSH.
Definition socks5_Handle := material_Handle (prepareUsernamePasswordDirectives true) ac_ResolvedUsernamePassword ProxiedSOCKS5.
Definition mqtt_Handle := material_Handle (prepareUsernamePasswordDirectives true) ac_ResolvedUsernamePassword ProxiedMQTT.
Definition redis_Handle := material_Handle (prepareUsernamePasswordDirectives true) ac_ResolvedUsernamePassword ProxiedRedis.

(** The amqp, dns, mongodb and fallback adapters relay, the UDP ones forward. *)
Definition Handle (adapter : proxyAdapter) (req : adapterRequest) (c : option egressAuthContext) : handling * option egressAuthContext :=
  if decide (ad_Name adapter = "http") then http_Handle c else
  if decide (ad_Name adapter = "tls") then tls_Handle req c else
  if decide (ad_Name adapter = "ssh") then ssh_Handle c else
  if decide (ad_Name adapter = "socks5") then socks5_Handle c else
  if decide (ad_Name adapter = "mqtt") then mqtt_Handle c else
  if decide (ad_Name adapter = "redis") then redis_Handle c else
  if decide (ad_Transport adapter = "udp") then (ForwardedUDP, c) else (Relayed, c).

(** The part of [handleTCPDecision] after the decision: credentials are attached on the
    adapter's branch alone. *)
Definition handle_adapter `{AR : AuthResolver} (cfg : authConfig) (now : Z) (compiled : option CompiledPolicy) (decision : trafficDecision)
    (adapter : proxyAdapter) (req : adapterRequest) (cache : memoryEgressAuthCache)
    : handling * option egressAuthContext * memoryEgressAuthCache :=
  match td_Action decision with
  | decisionActionUseAdapter =>
      let '(c, cache) := attachEgressAuth cfg now compiled req decision cache in (Handle adapter req c, cache)
  | _ => (Handle adapter req None, cache)
  end.

End adapters.
