(* ===== verification/EgressAuthSpec.v ===== *)
(** * netd: what is shown of egress credentials

    A flow that needs credentials goes out with them or not at all, unless the rule fails
    open, the cluster has the feature off, or nothing in the path of the flow can carry
    them; and the credentials a flow goes out with were resolved for its own sandbox, rule
    and destination, and have not expired in the cache. *)

From stdpp Require Import base gmap strings list fin_maps numbers.
From Stdlib Require Import Strings.Byte.
From S2P Require Import Prelude GoStd GoNet Policy PolicyEval PolicySpec Classifier Proxy ProxySpec EgressAuth.

Local Open Scope Z_scope.

(** ** Compatibility fields of responses *)

Lemma merge_headers_lookup ds m k :
  merge_headers ds m !! k = match merge_headers ds ∅ !! k with Some v => Some v | None => m !! k end.
Proof.
  revert m. induction ds as [|d ds IH]; intros m; cbn; [done|].
  assert (Hmerge : forall h, merge_headers ds (h ∪ m) !! k =
    match merge_headers ds (h ∪ ∅) !! k with Some v => Some v | None => m !! k end).
  { intros h. rewrite IH, (IH (h ∪ ∅)), !lookup_union, lookup_empty.
    destruct (merge_headers ds ∅ !! k), (h !! k), (m !! k); done. }
  destruct (rd_Kind d), (rd_HTTPHeaders d); auto.
Qed.

Lemma ensure_idem r : EnsureCompatibilityFields (EnsureCompatibilityFields r) = EnsureCompatibilityFields r.
Proof.
  unfold EnsureCompatibilityFields; cbn.
  destruct (rr_Directives r) as [|d ds]; cbn; [|done].
  destruct (decide (rr_Headers r = ∅)) as [He|He].
  - rewrite (bool_decide_eq_true_2 _ He). cbn. done.
  - rewrite (bool_decide_eq_false_2 _ He). done.
Qed.

Section spec.
Context `{CE : Certificates} `{IC : !Interception} `{AR : AuthResolver}.

(** ** Failing closed *)

(** The material a flow goes out with. *)
Definition carries (c : egressAuthContext) (h : handling) : Prop :=
  match h with
  | ProxiedHTTP hs | ProxiedHTTPS hs | ProxiedHTTP2 hs => hs <> ∅ /\ resolveHTTPHeadersForAdapter (ac_Resolved c) true = inr hs
  | ProxiedTLS m => resolveTLSClientCertificateForAdapter (ac_Resolved c) true = inr m
  | ProxiedSSH m => resolveSSHProxyForAdapter (ac_Resolved c) true = inr m
  | ProxiedSOCKS5 m | ProxiedMQTT m | ProxiedRedis m => resolveUsernamePasswordForAdapter (ac_Resolved c) true = inr m
  | Relayed | ForwardedUDP | Refused => False
  end.

(** A context as [attachEgressAuth] leaves it, for a rule that does not fail open. *)
Definition strict (c : egressAuthContext) : Prop :=
  ac_BypassReason c = "" /\ FailOpen c = false /\ ac_ResolvedHeaders c = ∅ /\
  ac_ResolvedTLSClientCertificate c = None /\ ac_ResolvedUsernamePassword c = None /\ ac_ResolvedSSHProxy c = None.

Lemma attach_strict cfg now compiled req decision cache rule :
  td_MatchedAuthRule decision = Some rule -> cf_EgressAuthEnabled cfg = true ->
  egressAuthFailurePolicy cfg rule <> EgressAuthFailurePolicyFailOpen ->
  exists c cache', attachEgressAuth cfg now compiled req decision cache = (Some c, cache') /\ strict c /\ ac_Rule c = rule.
Proof.
  intros Hr He Hp. unfold attachEgressAuth. rewrite Hr, He. cbn [negb].
  assert (Hf : forall a b t u e, FailOpen (mkAuthCtx rule a ∅ None None None b t e (egressAuthFailurePolicy cfg rule) "" u) = false).
  { intros. by apply bool_decide_eq_false_2. }
  destruct (cache_Get _ _ _) as [[r|] cache']; [by eexists _, _; repeat split; first apply Hf|].
  unfold applyEgressAuthFailurePolicy.
  destruct authResolver as [resolve|]; [|rewrite Hf; by eexists _, _; repeat split; first apply Hf].
  destruct (resolve _ _) as [e|[r|]]; rewrite ?Hf; by eexists _, _; repeat split; first apply Hf.
Qed.

Lemma prepare_strict {B} (resolve : option ResolveResponse -> bool -> authError + B) set allow c :
  strict c ->
  (exists m, prepare_directives resolve set allow c = (None, set m c) /\ resolve (ac_Resolved c) allow = inr m /\
     ac_ResolveError c = None /\ is_Some (ac_Resolved c)) \/
  (exists e c', prepare_directives resolve set allow c = (Some e, c') /\ strict c' /\ ac_Rule c' = ac_Rule c /\
     ac_Resolved c' = ac_Resolved c).
Proof.
  intros (Hb & Hf & Hm). unfold prepare_directives, ShouldBypass. rewrite Hb. cbn.
  assert (Hs : forall r, strict (applyEgressAuthFailurePolicy r c)).
  { intros r. unfold applyEgressAuthFailurePolicy. rewrite Hf. done. }
  assert (Hr : forall r, ac_Rule (applyEgressAuthFailurePolicy r c) = ac_Rule c /\
                         ac_Resolved (applyEgressAuthFailurePolicy r c) = ac_Resolved c).
  { intros r. unfold applyEgressAuthFailurePolicy. rewrite Hf. done. }
  destruct (ac_ResolveError c) as [e|] eqn:Ee; [right; by exists e, c|].
  destruct (ac_Resolved c) as [r|] eqn:Er; [|right; eexists _, _; split; [done|]; destruct (Hr "material_unavailable"); auto].
  destruct (resolve (Some r) allow) as [e|m] eqn:E; [right|left; exists m; eauto].
  exists e, (applyEgressAuthDirectiveError e c). split; [done|].
  unfold applyEgressAuthDirectiveError. destruct e; destruct (Hr "unsupported_directive"), (Hr "material_unavailable"),
    (Hr "invalid_directive"), (Hr "resolve_error"); auto.
Qed.

Lemma strict_not_bypassed c : strict c -> ShouldBypass c = false.
Proof. intros (Hb & _). unfold ShouldBypass. by rewrite Hb. Qed.

(** The flow is closed, or goes out with material of the context. *)
Definition safe_handling (r : handling * option egressAuthContext) : Prop :=
  r.1 = Refused \/ exists c, r.2 = Some c /\ carries c r.1.

Lemma http_safe c : strict c -> safe_handling (http_Handle (Some c)).
Proof.
  intros Hs. unfold http_Handle, prepareHTTPHeaderDirectives.
  destruct (prepare_strict resolveHTTPHeadersForAdapter (fun h c => set_material h (ac_ResolvedTLSClientCertificate c)
    (ac_ResolvedUsernamePassword c) (ac_ResolvedSSHProxy c) c) true c Hs) as [(m & -> & Hm & He & r & Hr)|(e & c' & -> & Hs' & _)].
  - assert (Hb : ShouldBypass (set_material m (ac_ResolvedTLSClientCertificate c) (ac_ResolvedUsernamePassword c)
      (ac_ResolvedSSHProxy c) c) = false) by (by apply strict_not_bypassed in Hs). rewrite Hb. cbn. rewrite He, Hr.
    destruct (decide (m = ∅)); [by left|]. right. eexists; split; [done|]. by split.
  - rewrite (strict_not_bypassed c' Hs'). destruct (decide _); [by left|].
    destruct (ac_ResolveError c'), (ac_Resolved c'); try by left.
    destruct Hs' as (_ & _ & -> & _). by left.
Qed.

Lemma material_safe {B} (resolve : option ResolveResponse -> bool -> authError + B) set field proxied c :
  strict c -> (forall m c, ac_BypassReason (set m c) = ac_BypassReason c) -> (forall m c, ac_ResolveError (set m c) = ac_ResolveError c) ->
  (forall m c, field (set m c) = Some m) ->
  (forall m c, resolve (ac_Resolved c) true = inr m -> carries (set m c) (proxied m)) ->
  safe_handling (material_Handle (prepare_directives resolve set true) field proxied (Some c)).
Proof.
  intros Hs Hb He Hf Hc. unfold material_Handle.
  destruct (prepare_strict resolve set true c Hs) as [(m & -> & Hm & Hn & _)|(e & c' & -> & Hs' & _)].
  - unfold ShouldBypass. rewrite Hb, He, Hf, Hn, (proj1 Hs). right. eexists; split; [done|]. by apply Hc.
  - rewrite (strict_not_bypassed c' Hs'). by left.
Qed.

Lemma intercept_safe req c k :
  ac_BypassReason c = "" -> FailOpen c = false -> (forall n, k n = Refused \/ carries c (k n)) ->
  safe_handling (intercept req (Some c) k).
Proof.
  intros Hb Hf Hk. unfold intercept, ShouldBypass. rewrite Hb, Hf.
  repeat match goal with |- context [if ?b then _ else _] => destruct b; [by left|] end.
  destruct tlsAuthority as [f|]; [|by left]. destruct (f _); [|by left]. destruct (Handshake _ _) as [p|]; [|by left].
  destruct (Hk p) as [->|Hc]; [by left|right; by exists c].
Qed.

Lemma https_safe req c :
  ac_BypassReason c = "" -> FailOpen c = false ->
  (ac_ResolvedHeaders c = ∅ \/ resolveHTTPHeadersForAdapter (ac_Resolved c) true = inr (ac_ResolvedHeaders c)) ->
  safe_handling (proxyHTTPSRequest req (Some c)).
Proof.
  intros Hb Hf Hh. apply intercept_safe; [done..|]. intros n.
  destruct (decide (ac_ResolvedHeaders c = ∅)) as [He|He].
  - rewrite (bool_decide_eq_true_2 _ He), orb_true_r. by left.
  - destruct Hh as [?|Hh]; [done|]. destruct (_ || _ || _)%bool; [by left|].
    destruct (rule_protocol_is "grpc" _ && _); [by left|]. right. destruct (shouldProxyHTTP2 _ _); done.
Qed.

Lemma tls_safe req c :
  strict c -> ar_Protocol (ac_Rule c) = "tls" \/ ar_TLSMode (ac_Rule c) = "terminate-reoriginate" ->
  safe_handling (tls_Handle req (Some c)).
Proof.
  intros Hs Hr. unfold tls_Handle. destruct (decide _) as [Ht|Ht].
  - unfold prepareTLSClientCertificateDirectives. edestruct (prepare_strict (B := resolvedTLSClientCertificate))
      as [(m & -> & Hm & He & r & Hrs)|(e & c' & -> & Hs' & _)]; [exact Hs| |rewrite (strict_not_bypassed c' Hs'); by left].
    pose proof (strict_not_bypassed c Hs) as Hb. unfold ShouldBypass in *. cbn -[intercept tlsTerminationRequired].
    rewrite Hb, He. destruct Hs as (Hb' & Hf & _). apply intercept_safe; [done..|]. intros n. right. cbn.
    destruct (tlsTerminationRequired (Some c)); [done|]. rewrite Hrs in Hm. cbn in Hm. by destruct (_ || _)%bool.
  - destruct Hr as [?|Hr]; [done|].
    assert (Htr : forall c', ac_Rule c' = ac_Rule c -> tlsTerminationRequired (Some c') = true).
    { intros c' Hc'. cbn. rewrite Hc'. by apply bool_decide_eq_true_2. }
    unfold prepareHTTPHeaderDirectives. rewrite (Htr c) by done. edestruct (prepare_strict (B := header_map))
      as [(m & -> & Hm & He & r & Hrs)|(e & c' & -> & Hs' & Hc' & Hd)]; [exact Hs| |].
    + rewrite Htr by done. pose proof (strict_not_bypassed c Hs) as Hb. unfold ShouldBypass in *.
      cbn -[proxyHTTPSRequest]. rewrite Hb. destruct Hs as (Hb' & Hf & _). apply https_safe; [done..|]. by right.
    + rewrite (Htr c') by done. rewrite (strict_not_bypassed c' Hs'). destruct (decide _); [by left|].
      destruct Hs' as (Hb' & Hf & Hh & _). apply https_safe; auto.
Qed.

Lemma credential_adapter decision adapter :
  td_Action decision = decisionActionUseAdapter -> td_Transport decision = "tcp" ->
  td_Protocol decision ∈ ["http"; "tls"; "ssh"; "socks5"; "mqtt"; "redis"] ->
  Resolve decision default_registry = Ok (Some adapter) -> ad_Name adapter = td_Protocol decision.
Proof.
  intros Ha Ht Hp. unfold Resolve, validateAdapterCapability. rewrite Ha, Ht.
  repeat (apply elem_of_cons in Hp as [->|Hp]; [vm_compute; by intros [= <-]|]). by apply elem_of_nil in Hp.
Qed.

Lemma handle_safe adapter req c :
  strict c -> ad_Name adapter ∈ ["http"; "tls"; "ssh"; "socks5"; "mqtt"; "redis"] ->
  (ad_Name adapter = "tls" -> ar_Protocol (ac_Rule c) = "tls" \/ ar_TLSMode (ac_Rule c) = "terminate-reoriginate") ->
  safe_handling (Handle adapter req (Some c)).
Proof.
  intros Hs Hn Ht. unfold Handle.
  repeat (apply elem_of_cons in Hn as [Hn|Hn]; [rewrite Hn; cbn|]); [..|by apply elem_of_nil in Hn].
  1: by apply http_safe.
  1: by apply tls_safe; auto.
  all: apply material_safe; [done|..]; intros; auto.
Qed.

(** C14: A flow whose rule asks for credentials, in a cluster that has them enabled and with
    a rule that does not fail open, is closed or goes out with material resolved for it:
    for HTTP, TLS, SSH, SOCKS5, MQTT and Redis, whatever the resolver, the cache, the
    certificate authority and the client's handshake do; for TLS when the rule is for
    client certificates or has the flow terminated. *)
Theorem credentials_fail_closed cfg now compiled decision adapter req cache rule :
  td_Action decision = decisionActionUseAdapter -> td_MatchedAuthRule decision = Some rule ->
  cf_EgressAuthEnabled cfg = true -> egressAuthFailurePolicy cfg rule <> EgressAuthFailurePolicyFailOpen ->
  td_Transport decision = "tcp" -> td_Protocol decision ∈ ["http"; "tls"; "ssh"; "socks5"; "mqtt"; "redis"] ->
  (td_Protocol decision = "tls" -> ar_Protocol rule = "tls" \/ ar_TLSMode rule = "terminate-reoriginate") ->
  Resolve decision default_registry = Ok (Some adapter) ->
  safe_handling (handle_adapter cfg now compiled decision adapter req cache).1.
Proof.
  intros Ha Hm He Hf Ht Hp Htls Hr. unfold handle_adapter. rewrite Ha.
  destruct (attach_strict cfg now compiled req decision cache rule Hm He Hf) as (c & cache' & -> & Hs & Hc). cbn [fst].
  pose proof (credential_adapter decision adapter Ha Ht Hp Hr) as Hn.
  apply handle_safe; [done|by rewrite Hn|rewrite Hn, Hc; done].
Qed.

(** ** Whose credentials *)

(** A flow that reaches [attachEgressAuth], at a time. *)
Record auth_flow := mkFlow { fl_now : Z; fl_compiled : option CompiledPolicy; fl_req : adapterRequest; fl_decision : trafficDecision }.

Definition attach_flow (cfg : authConfig) (f : auth_flow) (cache : memoryEgressAuthCache) : option egressAuthContext * memoryEgressAuthCache :=
  attachEgressAuth cfg (fl_now f) (fl_compiled f) (fl_req f) (fl_decision f) cache.

Definition attach_all (cfg : authConfig) (flows : list auth_flow) (cache : memoryEgressAuthCache) : memoryEgressAuthCache :=
  foldl (fun cache f => (attach_flow cfg f cache).2) cache flows.

Definition request_key (q : ResolveRequest) : egressAuthCacheKey :=
  mkCacheKey (qr_SandboxID q) (qr_AuthRef q) (qr_Destination q) (qr_DestinationPort q) (qr_Transport q) (qr_Protocol q).

(** The resolver gave [r] at one of these times, to a request for this key. *)
Definition resolved_for (times : list Z) (k : egressAuthCacheKey) (r : ResolveResponse) : Prop :=
  exists resolve t q, authResolver = Some resolve /\ t ∈ times /\ resolve t q = inr (Some r) /\ request_key q = k.

Definition scoped (times : list Z) (cache : memoryEgressAuthCache) : Prop :=
  forall k r, cache !! k = Some r -> exists r0, r = CloneResolveResponse r0 /\ resolved_for times k r0.

Definition unexpired (now : Z) (r : ResolveResponse) : Prop :=
  match rr_ExpiresAt r with Some e => now < e | None => True end.

Lemma resolved_for_mono times times' k r : times ⊆ times' -> resolved_for times k r -> resolved_for times' k r.
Proof. intros Hs (f & t & q & ? & ? & ? & ?). exists f, t, q. auto. Qed.

Lemma clone_clone r : CloneResolveResponse (CloneResolveResponse r) = CloneResolveResponse r.
Proof. apply ensure_idem. Qed.

Lemma cache_Get_scoped times now k cache :
  scoped times cache ->
  scoped times (cache_Get now k cache).2 /\
  (forall r, (cache_Get now k cache).1 = Some r ->
     exists r0, r = CloneResolveResponse r0 /\ resolved_for times k r0 /\ unexpired now r0).
Proof.
  intros Hs. unfold cache_Get. destruct (cache !! k) as [r|] eqn:E; [|done].
  destruct (Hs k r E) as (r0 & -> & Hr). rewrite clone_clone.
  destruct (match rr_ExpiresAt _ with Some t => t <=? now | None => false end) eqn:Ex; cbn; split; try done.
  - intros k' r' H. apply lookup_delete_Some in H as [_ H]. by apply Hs.
  - intros r' [= <-]. exists r0. split_and!; [done..|]. unfold unexpired. cbn in Ex. destruct (rr_ExpiresAt r0); lia || done.
Qed.

Lemma attach_scoped cfg f times cache c cache' :
  scoped times cache -> attach_flow cfg f cache = (c, cache') ->
  scoped (fl_now f :: times) cache' /\
  (forall x r rule, c = Some x -> td_MatchedAuthRule (fl_decision f) = Some rule -> ac_Resolved x = Some r ->
     let k := buildEgressAuthCacheKey (fl_compiled f) (fl_req f) (fl_decision f) rule in
     resolved_for [fl_now f] k r \/
     (exists r0, r = CloneResolveResponse r0 /\ resolved_for times k r0 /\ unexpired (fl_now f) r0)).
Proof.
  intros Hs Ha. assert (Hmono : forall cc, scoped times cc -> scoped (fl_now f :: times) cc).
  { intros cc Hcc k r Hk. destruct (Hcc k r Hk) as (r0 & ? & ?). exists r0. split; [done|].
    eapply resolved_for_mono; [|done]. by apply list_subseteq_cons. }
  unfold attach_flow, attachEgressAuth in Ha. destruct (td_MatchedAuthRule _) as [rule|] eqn:Em; [|by injection Ha as <- <-; split; [auto|]].
  destruct (negb _); [injection Ha as <- <-; split; [auto|]; by intros x r ? [= <-] _ ?|].
  set (k := buildEgressAuthCacheKey _ _ _ _) in *.
  destruct (cache_Get_scoped times (fl_now f) k cache Hs) as [Hg1 Hg2].
  destruct (cache_Get _ _ _) as [[r|] cache1]; cbn in *.
  { injection Ha as <- <-. split; [auto|]. intros x r' rule' [= <-] [= <-] [= <-]. right. by apply Hg2. }
  destruct authResolver as [resolve|] eqn:Er; cbn in Ha;
    [|injection Ha as <- <-; split; [auto|]; intros x r ? [= <-] _; unfold applyEgressAuthFailurePolicy; by destruct (FailOpen _)].
  destruct (resolve _ _) as [e|[r|]] eqn:Eq; injection Ha as <- <-.
  1,3: split; [auto|]; intros x r ? [= <-] _; unfold applyEgressAuthFailurePolicy; by destruct (FailOpen _).
  assert (Hr : resolved_for [fl_now f] k r) by (eexists _, _, _; split_and!; [done|by apply list_elem_of_singleton|exact Eq|done]).
  split; [|intros x r' rule' [= <-] [= <-] [= <-]; by left].
  intros k' r' H. apply lookup_insert_Some in H as [[<- <-]|[Hk H]]; [|by apply Hmono in H].
  exists r. split; [done|]. eapply resolved_for_mono; [|done].
  intros t Ht. apply list_elem_of_singleton in Ht as ->. apply elem_of_cons. by left.
Qed.

Lemma attach_all_scoped cfg flows times cache :
  scoped times cache -> scoped (rev (fl_now <$> flows) ++ times) (attach_all cfg flows cache).
Proof.
  revert times cache. induction flows as [|f flows IH]; intros times cache Hs; [done|]. cbn.
  destruct (attach_flow cfg f cache) as [c cache'] eqn:E. rewrite <- app_assoc. apply (IH (fl_now f :: times)).
  by destruct (attach_scoped cfg f times cache c cache' Hs E).
Qed.

(** C16: Whatever flows came before, the credentials a flow goes out with were given by the
    resolver for the flow's own sandbox, credential reference, destination, port, transport
    and protocol: just now, or for an earlier flow, from a copy that has not expired. *)
Theorem credentials_scoped cfg past f c rule r :
  (attach_flow cfg f (attach_all cfg past ∅)).1 = Some c ->
  td_MatchedAuthRule (fl_decision f) = Some rule -> ac_Resolved c = Some r ->
  exists resolve t q r0, authResolver = Some resolve /\ resolve t q = inr (Some r0) /\
    qr_SandboxID q = compiledSandboxID (fl_compiled f) /\ qr_AuthRef q = ar_AuthRef rule /\
    qr_Destination q = authDestination (fl_req f) /\ qr_DestinationPort q = rq_DestPort (fl_req f) /\
    qr_Transport q = td_Transport (fl_decision f) /\ qr_Protocol q = td_Protocol (fl_decision f) /\
    ((t = fl_now f /\ r = r0) \/
     (t ∈ fl_now <$> past /\ r = CloneResolveResponse r0 /\ unexpired (fl_now f) r0)).
Proof.
  intros Ha Hm Hr. destruct (attach_flow _ _ _) as [c' cache] eqn:E. cbn in Ha. subst c'. rename E into Ha.
  assert (Hs : scoped (rev (fl_now <$> past) ++ []) (attach_all cfg past ∅)) by (by apply attach_all_scoped).
  destruct (attach_scoped cfg f _ _ _ _ Hs Ha) as [_ Hc].
  destruct (Hc c r rule eq_refl Hm Hr) as [(f0 & t & q & H1 & H2 & H3 & [=])|(r0 & -> & (f0 & t & q & H1 & H2 & H3 & [=]) & Hx)].
  - apply list_elem_of_singleton in H2 as ->. exists f0, (fl_now f), q, r. split_and!; auto.
  - exists f0, t, q, r0. rewrite app_nil_r, list_elem_of_In, <- in_rev, <- list_elem_of_In in H2. split_and!; auto 10.
Qed.

End spec.

(** ** Examples *)

#[export] Instance pem_strings : Certificates :=
  {| Certificate := string; CertPool := string;
     X509KeyPair := fun c k => if decide (c = "" \/ k = "") then None else Some c;
     NewCertPoolFromPEM := fun s => Some s |}.
#[export] Instance any_host : Interception := {| tlsAuthority := Some Some; Handshake := fun _ ps => Some (hd "" ps) |}.

(** A resolver with one token per sandbox, valid for ten units of time. *)
Definition token_resolver : AuthResolver :=
  {| authResolver := Some (fun now q =>
       inr (Some (NewHTTPHeadersResolveResponse (qr_AuthRef q) {["Authorization" := qr_SandboxID q]} (Some (now + 10))))) |}.
Definition down_resolver : AuthResolver := {| authResolver := Some (fun _ _ => inl "broker unavailable") |}.

Definition enabled_config : authConfig := mkAuthConfig true "".
Definition demo_policy (id : string) : option CompiledPolicy := Some (mkCompiled id "team" "allow-all" empty_rules None).
Definition api_request : adapterRequest := mkRequest [93; 184; 215; 14] 443 "api.example.com" [] None None None.
Definition auth_rule (protocol mode : string) : CompiledEgressAuthRule := mkAuthRule "rule" "token" "" protocol mode "fail-closed" [] [].
Definition auth_decision (classified : string) (rule : CompiledEgressAuthRule) : trafficDecision :=
  mkDecision decisionActionUseAdapter "tcp" classified "allowed" "known" true true (Some rule).

Lemma credentials_fail_closed_witness :
  safe_handling
    (handle_adapter (AR := token_resolver) enabled_config 0 (demo_policy "sb-1")
       (auth_decision "tls" (auth_rule "https" "terminate-reoriginate")) tlsAdapter api_request ∅).1 /\
  (handle_adapter (AR := token_resolver) enabled_config 0 (demo_policy "sb-1")
     (auth_decision "tls" (auth_rule "https" "terminate-reoriginate")) tlsAdapter api_request ∅).1.1 =
  ProxiedHTTPS {["Authorization" := "sb-1"]}.
Proof.
  split; [|vm_compute; reflexivity].
  apply (credentials_fail_closed (AR := token_resolver) enabled_config 0 (demo_policy "sb-1")
    (auth_decision "tls" (auth_rule "https" "terminate-reoriginate")) tlsAdapter api_request ∅
    (auth_rule "https" "terminate-reoriginate")); try reflexivity.
  - discriminate.
  - right. left.
  - by right.
Defined.

(** Two flows of one sandbox: the second uses the material of the first. *)
Definition api_flow (t : Z) : auth_flow := mkFlow t (demo_policy "sb-1") api_request (auth_decision "http" (auth_rule "http" "")).
Definition api_token : ResolveResponse := NewHTTPHeadersResolveResponse "token" {["Authorization" := "sb-1"]} (Some 10).
Definition api_context : egressAuthContext :=
  mkAuthCtx (auth_rule "http" "") (Some api_token) ∅ None None None true false None "fail-closed" "" "cache_hit".

Lemma api_cache_hit :
  (attach_flow (AR := token_resolver) enabled_config (api_flow 5)
     (attach_all (AR := token_resolver) enabled_config [api_flow 0] ∅)).1 = Some api_context.
Proof. vm_compute. reflexivity. Qed.

Lemma credentials_scoped_witness :
  exists t q, qr_SandboxID q = "sb-1" /\ qr_AuthRef q = "token" /\ (t = 5 \/ t ∈ [0]).
Proof.
  destruct (credentials_scoped (AR := token_resolver) enabled_config [api_flow 0] (api_flow 5) api_context
    (auth_rule "http" "") api_token api_cache_hit eq_refl eq_refl)
    as (f & t & q & r0 & _ & _ & Hq & Ha & _ & _ & _ & _ & Ht).
  exists t, q. split; [exact Hq|]. split; [exact Ha|]. destruct Ht as [[Ht _]|[Ht _]]; [left|right]; exact Ht.
Defined.

(** A rule for https that fails closed and leaves the TLS mode at its default: with
    credentials the flow is refused, and when the resolver fails it is relayed without. *)
Lemma https_relayed_without_credentials :
  let handled R := (handle_adapter (AR := R) enabled_config 0 (demo_policy "sb-1")
    (auth_decision "tls" (auth_rule "https" "")) tlsAdapter api_request ∅).1.1 in
  handled token_resolver = Refused /\ handled down_resolver = Relayed.
Proof. by vm_compute. Qed.

(** A rule for any protocol that fails closed: AMQP, DNS and MongoDB flows are relayed,
    whether or not there are credentials. *)
Lemma any_protocol_rule_relays :
  let handled R a := (handle_adapter (AR := R) enabled_config 0 (demo_policy "sb-1")
    (auth_decision (ad_Protocol a) (auth_rule "" "")) a api_request ∅).1.1 in
  forall a, a ∈ [amqpAdapter; dnsAdapter; mongodbAdapter] -> handled token_resolver a = Relayed /\ handled down_resolver a = Relayed.
Proof.
  intros handled a Ha. repeat (apply elem_of_cons in Ha as [->|Ha]; [by vm_compute|]). by apply elem_of_nil in Ha.
Qed.
