(* ===== verification/CredentialProxy.v ===== *)
(** * netd: putting credentials into SOCKS5, MQTT and Redis sessions
      (netd/pkg/proxy/credential_protocol_proxy.go)

    The proxy speaks the start of the protocol with the client and the upstream, puts the
    resolved user name and password in, and pipes the rest.  A stream is the list of the
    bytes that are still to come; reading past it is the error the reader reports.  Lengths
    that overflow an int, and negative lengths given to [make], are panics as in Go; that
    an allocation can be too large for the machine is not modelled. *)

From stdpp Require Import base gmap strings list fin_maps numbers.
From Stdlib Require Import Strings.Byte Strings.Ascii.
From S2P Require Import Prelude GoStd GoNet Policy PolicyEval Classifier Proxy EgressAuth.

Local Open Scope Z_scope.

(** ** Readers *)

Definition ReadByte : ST string bytes byte := fun s =>
  match s with [] => (Err "EOF", s) | b :: rest => (Ok b, rest) end.

(** [io.ReadFull] into a buffer of [n] bytes. *)
Definition ReadFull (n : Z) : ST string bytes bytes := fun s =>
  if zlen s <? n then (Err "unexpected EOF", []) else (Ok (take (Z.to_nat n) s), drop (Z.to_nat n) s).

(** [ReadBytes('\n')]: the line with its end. *)
Definition read_line : ST string bytes bytes := fun s =>
  match bytes_Cut s x0a with None => (Err "EOF", []) | Some (line, rest) => (Ok (line ++ [x0a]), rest) end.

(** ** SOCKS5 *)

Definition socks5Version : byte := x05.
Definition socks5MethodNoAuth : byte := x00.
Definition socks5MethodUsernamePassword : byte := x02.
Definition socks5MethodNoAcceptable : byte := xff.
Definition socks5UserPassAuthVersion : byte := x01.

(** The methods and the whole greeting. *)
Definition readSOCKS5Greeting : ST string bytes (bytes * bytes) :=
  let* header := ReadFull 2 in
  let* version := lift_res (at_ header 0) in
  if negb (version =? bz socks5Version) then throw "unexpected socks5 version" else
  let* count := lift_res (at_ header 1) in
  let* methods := ReadFull count in
  ret (methods, header ++ methods).

Definition socks5MethodsContain (methods : bytes) (method : byte) : bool := bool_decide (method ∈ methods).

(** The count of methods is one byte: it wraps. *)
Definition ensureSOCKS5Method (greeting methods : bytes) (method : byte) : res string (bytes * bool) :=
  if socks5MethodsContain methods method then Ok (greeting, true) else
  let? count := at_ greeting 1 in
  Ok (<[1%nat := to_byte (count + 1)]> greeting ++ [method], false).

Definition readSOCKS5UsernamePasswordRequest : ST string bytes bytes :=
  let* header := ReadFull 2 in
  let* version := lift_res (at_ header 0) in
  if negb (version =? bz socks5UserPassAuthVersion) then throw "unexpected socks5 auth version" else
  let* n := lift_res (at_ header 1) in
  let* username := ReadFull n in
  let* passwordLen := ReadByte in
  let* password := ReadFull (bz passwordLen) in
  ret (header ++ username ++ passwordLen :: password).

Definition buildSOCKS5UsernamePasswordRequest (material : resolvedUsernamePassword) : res string bytes :=
  let username := raw (up_Username material) in
  let password := raw (up_Password material) in
  if (zlen username =? 0) || (255 <? zlen username) then Err "socks5 username length must be between 1 and 255" else
  if (zlen password =? 0) || (255 <? zlen password) then Err "socks5 password length must be between 1 and 255" else
  Ok (socks5UserPassAuthVersion :: to_byte (zlen username) :: username ++ to_byte (zlen password) :: password).

(** ** MQTT *)

Definition mqttConnectFlagUsername : Z := 128.
Definition mqttConnectFlagPassword : Z := 64.
Definition mqttConnectFlagWillFlag : Z := 4.

(** At most [n] bytes, up to one without the top bit. *)
Fixpoint read_length_bytes (n : nat) : ST string bytes bytes :=
  match n with
  | O => ret []
  | S n =>
      let* b := ReadByte in
      if Z.land (bz b) 128 =? 0 then ret [b] else let* rest := read_length_bytes n in ret (b :: rest)
  end.

Definition readMQTTConnectPacket : ST string bytes bytes :=
  let* firstByte := ReadByte in
  let* lengthBytes := read_length_bytes 4 in
  match parseMQTTRemainingLength lengthBytes with
  | inr _ => throw "invalid mqtt remaining length"
  | inl (remainingLength, consumed) =>
      if negb (consumed =? zlen lengthBytes) then throw "invalid mqtt remaining length" else
      let* body := ReadFull remainingLength in
      ret (firstByte :: lengthBytes ++ body)
  end.

(** The field and what follows it. *)
Definition readMQTTLengthPrefixed (data : bytes) : res string (option (bytes * bytes)) :=
  if zlen data <? 2 then Ok None else
  let? length_ := be16 data 0 in
  if zlen data <? 2 + length_ then Ok None else
  let? value := goslice 2 (2 + length_) data in
  let? rest := goslice (2 + length_) (zlen data) data in
  Ok (Some (value, rest)).

Definition mqtt_field (err : string) (data : bytes) : res string (bytes * bytes) :=
  let? r := readMQTTLengthPrefixed data in
  match r with Some x => Ok x | None => Err err end.

(** A length in the variable encoding and as many bytes, and what follows. *)
Definition mqtt_properties (err : string) (rest : bytes) : res string (bytes * bytes) :=
  match parseMQTTRemainingLength rest with
  | inr _ => Err err
  | inl (length_, consumed) =>
      if zlen rest <? consumed + length_ then Err err else
      let? field := goslice 0 (consumed + length_) rest in
      let? rest := goslice (consumed + length_) (zlen rest) rest in
      Ok (field, rest)
  end.

Definition appendMQTTLengthPrefixed (dst value : bytes) : res string bytes :=
  if 65535 <? zlen value then Err "mqtt field length exceeds 65535 bytes"
  else Ok (dst ++ to_byte (Z.shiftr (zlen value) 8) :: to_byte (zlen value) :: value).

(** A value in range has at most four groups of seven bits. *)
Fixpoint encode_length (n : nat) (value : Z) : bytes :=
  match n with
  | O => []
  | S n =>
      if value <=? 0 then [] else
      let encoded := value mod 128 in
      let value := value / 128 in
      to_byte (if 0 <? value then Z.lor encoded 128 else encoded) :: encode_length n value
  end.

Definition encodeMQTTRemainingLength (value : Z) : res string bytes :=
  if (value <? 0) || (268435455 <? value) then Err "mqtt remaining length is out of range" else
  if value =? 0 then Ok [x00] else Ok (encode_length 4 value).

Definition mqtt_will (protocolLevel connectFlags : Z) (rest : bytes) : res string (bytes * bytes) :=
  if Z.land connectFlags mqttConnectFlagWillFlag =? 0 then Ok ([], rest) else
  let willStart := rest in
  let? r := if protocolLevel =? 5 then mqtt_properties "mqtt will properties are invalid" rest else Ok ([], rest) in
  let? r := mqtt_field "mqtt will topic is invalid" r.2 in
  let? r := mqtt_field "mqtt will payload is invalid" r.2 in
  let rest := r.2 in
  let? willFields := goslice 0 (zlen willStart - zlen rest) willStart in
  Ok (willFields, rest).

(** What follows a field that is there when the flag is set. *)
Definition mqtt_skip (flag connectFlags : Z) (err : string) (rest : bytes) : res string bytes :=
  if Z.land connectFlags flag =? 0 then Ok rest else
  let? r := mqtt_field err rest in Ok r.2.

Definition rewriteMQTTConnectPacket (packet : bytes) (username password : string) : res string bytes :=
  if zlen packet <? 2 then Err "mqtt packet is not CONNECT" else
  let? typ := at_ packet 0 in
  if negb (typ =? 16) then Err "mqtt packet is not CONNECT" else
  let? lengthBytes := goslice 1 (zlen packet) packet in
  match parseMQTTRemainingLength lengthBytes with
  | inr _ => Err "mqtt remaining length is invalid"
  | inl (remainingLength, consumed) =>
      let? body := goslice (1 + consumed) (zlen packet) packet in
      if negb (zlen body =? remainingLength) then Err "mqtt packet length does not match remaining length" else
      let? r := mqtt_field "mqtt connect variable header is incomplete" body in
      let protocolName := r.1 in
      let rest := r.2 in
      if zlen rest <? 4 then Err "mqtt connect variable header is incomplete" else
      let? protocolLevel := at_ rest 0 in
      let? connectFlags := at_ rest 1 in
      let? keepAlive := goslice 2 4 rest in
      let? rest := goslice 4 (zlen rest) rest in
      let? r := if protocolLevel =? 5 then mqtt_properties "mqtt connect properties are invalid" rest else Ok ([], rest) in
      let propertiesField := r.1 in
      let? r := mqtt_field "mqtt client id is invalid" r.2 in
      let clientID := r.1 in
      let? r := mqtt_will protocolLevel connectFlags r.2 in
      let willFields := r.1 in
      let? rest := mqtt_skip mqttConnectFlagUsername connectFlags "mqtt username field is invalid" r.2 in
      let? rest := mqtt_skip mqttConnectFlagPassword connectFlags "mqtt password field is invalid" rest in
      if negb (zlen rest =? 0) then Err "mqtt connect payload has trailing bytes" else
      let? rewrittenBody := appendMQTTLengthPrefixed [] protocolName in
      let rewrittenBody := rewrittenBody ++ to_byte protocolLevel ::
        to_byte (Z.lor (Z.lor connectFlags mqttConnectFlagUsername) mqttConnectFlagPassword) :: keepAlive ++ propertiesField in
      let? rewrittenBody := appendMQTTLengthPrefixed rewrittenBody clientID in
      let? rewrittenBody := appendMQTTLengthPrefixed (rewrittenBody ++ willFields) (raw username) in
      let? rewrittenBody := appendMQTTLengthPrefixed rewrittenBody (raw password) in
      let? encodedRemainingLength := encodeMQTTRemainingLength (zlen rewrittenBody) in
      Ok (x10 :: encodedRemainingLength ++ rewrittenBody)
  end.

(** ** Redis *)

(** [strconv.Atoi]: a sign, decimal digits, a value that fits an int. *)
Fixpoint atoi_digits (s : bytes) (n : Z) : option Z :=
  match s with
  | [] => Some n
  | b :: s => if isDigitByte b then atoi_digits s (n * 10 + (bz b - 48)) else None
  end.

Definition Atoi (s : bytes) : option Z :=
  let '(negative, s) := match s with x2d :: s => (true, s) | x2b :: s => (false, s) | _ => (false, s) end in
  if is_nil s then None else
  match atoi_digits s 0 with
  | None => None
  | Some n => let n := if (negative : bool) then - n else n in
              if (- 2 ^ 63 <=? n) && (n <? 2 ^ 63) then Some n else None
  end.

Definition crlf : bytes := [x0d; x0a].

(** [strings.TrimSuffix(s, "\r\n")] *)
Definition trim_crlf (line : bytes) : bytes :=
  if bool_decide (crlf `suffix_of` line) then take (length line - 2) line else line.

Definition parseRESPIntegerLine (line : bytes) : res string Z :=
  match Atoi (trim_crlf line) with Some n => Ok n | None => Err "invalid syntax" end.

(** [make([]byte, length+2)] and the payload read into it. *)
Definition read_payload (length_ : Z) : ST string bytes bytes :=
  let size := add64 length_ 2 in
  if size <? 0 then panic else ReadFull size.

(** [appendRESPFrame] for [pending] frames, one after the other: an array adds the frames
    it announces to those still to be read.  Every frame takes a byte of the stream. *)
Fixpoint append_frames (fuel : nat) (pending : Z) (frame : bytes) : ST string bytes bytes :=
  if pending <=? 0 then ret frame else
  match fuel with
  | O => throw "out of fuel"
  | S fuel =>
      let* prefix := ReadByte in
      if decide (prefix ∈ [x2b; x2d; x3a]) then
        let* line := read_line in append_frames fuel (pending - 1) (frame ++ prefix :: line)
      else if decide (prefix = x24) then
        let* line := read_line in
        let* length_ := lift_res (parseRESPIntegerLine line) in
        if length_ <? 0 then append_frames fuel (pending - 1) (frame ++ prefix :: line) else
        let* payload := read_payload length_ in
        append_frames fuel (pending - 1) (frame ++ prefix :: line ++ payload)
      else if decide (prefix = x2a) then
        let* line := read_line in
        let* count := lift_res (parseRESPIntegerLine line) in
        append_frames fuel (pending - 1 + Z.max 0 count) (frame ++ prefix :: line)
      else throw "unsupported redis resp type"
  end.

Definition readRESPFrame : ST string bytes bytes := fun s => append_frames (S (length s)) 1 [] s.

(** The items of [parseRESPArrayStrings]. *)
Fixpoint array_items (fuel : nat) (count : Z) (values : list bytes) : ST string bytes (list bytes) :=
  if count <=? 0 then ret values else
  match fuel with
  | O => throw "out of fuel"
  | S fuel =>
      let* itemPrefix := ReadByte in
      if decide (itemPrefix = x24) then
        let* lengthLine := read_line in
        let* length_ := lift_res (parseRESPIntegerLine lengthLine) in
        if length_ <? 0 then array_items fuel (count - 1) (values ++ [[]]) else
        let* payload := read_payload length_ in
        let* value := lift_res (goslice 0 length_ payload) in
        array_items fuel (count - 1) (values ++ [value])
      else if decide (itemPrefix = x2b) then
        let* simpleLine := read_line in array_items fuel (count - 1) (values ++ [trim_crlf simpleLine])
      else throw "unsupported redis array item type"
  end.

Definition parseRESPArrayStrings (frame : bytes) : res string (list bytes) :=
  ((let* prefix := ReadByte in
    if negb (bool_decide (prefix = x2a)) then throw "redis command is not an array" else
    let* line := read_line in
    let* count := lift_res (parseRESPIntegerLine line) in
    if count <? 0 then panic else array_items (S (length frame)) count []) frame).1.

Fixpoint resp_items (values : list bytes) : bytes :=
  match values with
  | [] => []
  | v :: values => x24 :: raw (show_dec (zlen v)) ++ crlf ++ v ++ crlf ++ resp_items values
  end.

Definition buildRESPArray (values : list bytes) : bytes :=
  x2a :: raw (show_dec (zlen values)) ++ crlf ++ resp_items values.

Definition buildRedisAUTHCommand (username password : string) : bytes := buildRESPArray [raw "AUTH"; raw username; raw password].
Definition buildRedisAUTHPasswordOnlyCommand (password : string) : bytes := buildRESPArray [raw "AUTH"; raw password].

(** [strings.EqualFold] with an ASCII word that has no letter with a fold outside ASCII. *)
Definition EqualFold (s word : string) : bool := bool_decide (str_map lower_byte s = str_map lower_byte word).

Definition isRedisAUTHCommand (frame : bytes) : res string bool :=
  match parseRESPArrayStrings frame with
  | Panic => Panic
  | Err _ | Ok [] => Ok false
  | Ok (v :: _) => Ok (EqualFold (str v) "AUTH")
  end.

Definition isRedisOKReply (frame : bytes) : bool := bool_decide (frame = raw "+OK" ++ crlf).

(** ** Sessions *)

Section sessions.
Context `{CE : Certificates}.

(** The bytes still to come from the client and, if it can be reached, from the upstream;
    whether it was dialled; the bytes sent upstream and to the client so far. *)
Record session := mkSession {
  se_client : bytes; se_peer : option bytes; se_dialed : bool; se_sent : bytes; se_replied : bytes;
  se_auth : egressAuthContext
}.

Definition SM (A : Type) : Type := ST string session A.

Definition from_client {A} (m : ST string bytes A) : SM A := fun s =>
  let '(r, c) := m (se_client s) in
  (r, mkSession c (se_peer s) (se_dialed s) (se_sent s) (se_replied s) (se_auth s)).
Definition from_upstream {A} (m : ST string bytes A) : SM A := fun s =>
  let '(r, u) := m (default [] (se_peer s)) in
  (r, mkSession (se_client s) (Some u) (se_dialed s) (se_sent s) (se_replied s) (se_auth s)).
Definition write_upstream (payload : bytes) : SM unit := fun s =>
  (Ok tt, mkSession (se_client s) (se_peer s) (se_dialed s) (se_sent s ++ payload) (se_replied s) (se_auth s)).
Definition write_client (payload : bytes) : SM unit := fun s =>
  (Ok tt, mkSession (se_client s) (se_peer s) (se_dialed s) (se_sent s) (se_replied s ++ payload) (se_auth s)).
Definition set_auth (f : egressAuthContext -> egressAuthContext) : SM unit := fun s =>
  (Ok tt, mkSession (se_client s) (se_peer s) (se_dialed s) (se_sent s) (se_replied s) (f (se_auth s))).

Definition dialUpstreamTCP (req : adapterRequest) : SM unit := fun s =>
  if is_nil (rq_DestIP req) || (rq_DestPort req <=? 0) then (Err "upstream tcp request is incomplete", s) else
  let s := mkSession (se_client s) (se_peer s) true (se_sent s) (se_replied s) (se_auth s) in
  match se_peer s with None => (Err "dial failed", s) | Some _ => (Ok tt, s) end.

(** [pipeWithReader] run until both sides have ended. *)
Definition pipeWithReader : SM unit := fun s =>
  (Ok tt, mkSession [] (Some []) (se_dialed s) (se_sent s ++ se_client s) (se_replied s ++ default [] (se_peer s)) (se_auth s)).

Definition with_material (req : adapterRequest) (k : resolvedUsernamePassword -> SM unit) : SM unit :=
  if is_nil (rq_DestIP req) || (rq_DestPort req <=? 0) then throw "proxy request is incomplete" else
  let* s := get in
  match ac_ResolvedUsernamePassword (se_auth s) with
  | None => throw "egress auth material is missing"
  | Some material => k material
  end.

(** Whether the failure policy lets the session go on, after it is applied. *)
Definition bypass_after (reason : string) : SM bool :=
  let* _ := set_auth (applyEgressAuthFailurePolicy reason) in gets (fun s => ShouldBypass (se_auth s)).

Definition proxySOCKS5Session (req : adapterRequest) : SM unit :=
  with_material req (fun material =>
    let* _ := dialUpstreamTCP req in
    let* g := from_client readSOCKS5Greeting in
    let clientMethods := g.1 in
    let* rewritten := lift_res (ensureSOCKS5Method g.2 clientMethods socks5MethodUsernamePassword) in
    let clientOfferedUserPass := rewritten.2 in
    let clientOfferedNoAuth := socks5MethodsContain clientMethods socks5MethodNoAuth in
    let* _ := write_upstream rewritten.1 in
    let* methodSelection := from_upstream (ReadFull 2) in
    let* selected := lift_res (at_ methodSelection 1) in
    if selected =? bz socks5MethodUsernamePassword then
      if negb clientOfferedUserPass && negb clientOfferedNoAuth then
        let* bypass := bypass_after "client_auth_incompatible" in
        if (bypass : bool) then let* _ := write_client methodSelection in pipeWithReader
        else throw "socks5 client does not support an injectable auth method"
      else
        let* _ := if clientOfferedUserPass then
                    let* _ := write_client methodSelection in
                    let* _ := from_client readSOCKS5UsernamePasswordRequest in ret tt
                  else ret tt in
        let* authRequest := lift_res (buildSOCKS5UsernamePasswordRequest material) in
        let* _ := write_upstream authRequest in
        let* authResponse := from_upstream (ReadFull 2) in
        let* status := lift_res (at_ authResponse 1) in
        let* _ := if clientOfferedUserPass then write_client authResponse
                  else write_client [socks5Version; if status =? 0 then socks5MethodNoAuth else socks5MethodNoAcceptable] in
        if negb (status =? 0) then throw "socks5 upstream rejected injected credentials" else pipeWithReader
    else
      let* _ := write_client methodSelection in
      let* bypass := bypass_after "upstream_auth_unavailable" in
      if (bypass : bool) then pipeWithReader else throw "socks5 upstream selected unsupported auth method").

Definition proxyMQTTSession (req : adapterRequest) : SM unit :=
  with_material req (fun material =>
    let* packet := from_client readMQTTConnectPacket in
    let* rewritten := lift_res (rewriteMQTTConnectPacket packet (up_Username material) (up_Password material)) in
    let* _ := dialUpstreamTCP req in
    let* _ := write_upstream rewritten in
    pipeWithReader).

(** The AUTH commands one after the other, until one is answered with OK. *)
Fixpoint redis_auth (authFrames : list bytes) : SM bool :=
  match authFrames with
  | [] => ret false
  | authFrame :: rest =>
      let* _ := write_upstream authFrame in
      let* reply := from_upstream readRESPFrame in
      if isRedisOKReply reply then ret true else redis_auth rest
  end.

Definition proxyRedisSession (req : adapterRequest) : SM unit :=
  with_material req (fun material =>
    let* firstFrame := from_client readRESPFrame in
    let* _ := dialUpstreamTCP req in
    let authFrames := buildRedisAUTHCommand (up_Username material) (up_Password material) ::
      (if EqualFold (up_Username material) "default" then [buildRedisAUTHPasswordOnlyCommand (up_Password material)] else []) in
    let* authSucceeded := redis_auth authFrames in
    let* bypass := if (authSucceeded : bool) then ret true else bypass_after "upstream_auth_rejected" in
    if negb bypass then throw "redis upstream rejected injected credentials" else
    let* isAuth := if (authSucceeded : bool) then lift_res (isRedisAUTHCommand firstFrame) else ret false in
    if (isAuth : bool) then pipeWithReader else
    let* _ := write_upstream firstFrame in
    pipeWithReader).

End sessions.
