(* ===== verification/CredentialMqtt.v ===== *)
(** * netd: what is shown of credentials in MQTT sessions

    A CONNECT packet, encoded as MQTT 3.1.1 and 5 say, is sent upstream with the user name
    and password replaced and every other field as it was, and all that follows it as it is. *)

From stdpp Require Import base gmap strings list fin_maps numbers.
From Stdlib Require Import Strings.Byte.
From S2P Require Import Prelude GoStd GoNet Policy PolicyEval Classifier ClassifierSpec ClassifierTls Proxy EgressAuth CredentialProxy.

Local Open Scope Z_scope.

(** ** The variable length encoding *)

Fixpoint varlen_groups (n : nat) (value : Z) : bytes :=
  match n with
  | O => []
  | S n => if value <? 128 then [u8 value] else u8 (128 + value mod 128) :: varlen_groups n (value / 128)
  end.
Definition varlen (value : Z) : bytes := varlen_groups 4 value.
Definition maxVarlen : Z := 268435455.

Lemma to_byte_u8 n : to_byte n = u8 (n mod 256).
Proof. done. Qed.

Lemma land_top n : 0 <= n < 128 -> Z.land n 128 = 0 /\ Z.land (128 + n) 128 = 128 /\ Z.lor n 128 = 128 + n /\
  Z.land n 127 = n /\ Z.land (128 + n) 127 = n.
Proof.
  intros Hn. assert (H : forallb (fun k => let n := Z.of_nat k in
    (Z.land n 128 =? 0) && (Z.land (128 + n) 128 =? 128) && (Z.lor n 128 =? 128 + n) && (Z.land n 127 =? n) && (Z.land (128 + n) 127 =? n))
    (seq 0 128) = true) by (vm_compute; reflexivity).
  rewrite forallb_forall in H. specialize (H (Z.to_nat n) ltac:(apply in_seq; lia)). cbv zeta in H.
  rewrite Z2Nat.id in H by lia. rewrite !andb_true_iff, !Z.eqb_eq in H. tauto.
Qed.

Lemma varlen_groups_parse n value m i acc rest :
  0 <= value < 128 ^ Z.of_nat n -> (i + n <= 4)%nat -> (0 < n)%nat ->
  mqtt_length (varlen_groups n value ++ rest) i acc m =
  Some (acc + value * m, Z.of_nat i + zlen (varlen_groups n value)).
Proof.
  revert value m i acc. induction n as [|n IH]; intros value m i acc Hv Hi Hn; [lia|]. cbn [varlen_groups].
  destruct (Z.ltb_spec value 128) as [Hs|Hs]; cbn [app mqtt_length].
  - destruct (Nat.leb_spec 4 i); [lia|]. rewrite bz_u8 by lia. destruct (land_top value ltac:(lia)) as (-> & _ & _ & -> & _).
    cbn. f_equal. f_equal. unfold zlen. cbn. lia.
  - destruct (Nat.leb_spec 4 i); [lia|]. pose proof (Z.mod_pos_bound value 128 ltac:(lia)) as Hb.
    rewrite bz_u8 by lia. destruct (land_top (value mod 128) Hb) as (_ & -> & _ & _ & ->).
    rewrite Nat2Z.inj_succ, Z.pow_succ_r in Hv by lia.
    assert (0 <= value / 128 < 128 ^ Z.of_nat n) by (split; [apply Z.div_pos; lia|apply Z.div_lt_upper_bound; lia]).
    destruct n as [|n]; [cbn in Hv; lia|]. change (128 =? 0) with false. cbv iota. rewrite IH by lia.
    f_equal. f_equal; [pose proof (Z.div_mod value 128); nia|]. rewrite zlen_cons. lia.
Qed.

Lemma parse_varlen n rest : 0 <= n <= maxVarlen -> parseMQTTRemainingLength (varlen n ++ rest) = inl (n, zlen (varlen n)).
Proof.
  intros Hn. unfold parseMQTTRemainingLength, varlen. rewrite varlen_groups_parse by (unfold maxVarlen in *; lia).
  f_equal. f_equal; lia.
Qed.

Lemma encode_groups n value : 0 < value < 128 ^ Z.of_nat n -> encode_length n value = varlen_groups n value.
Proof.
  revert value. induction n as [|n IH]; intros value Hv; [cbn in Hv; lia|]. cbn [encode_length varlen_groups].
  destruct (Z.leb_spec value 0); [lia|]. rewrite Nat2Z.inj_succ, Z.pow_succ_r in Hv by lia.
  pose proof (Z.mod_pos_bound value 128 ltac:(lia)) as Hb. pose proof (Z.div_mod value 128 ltac:(lia)) as Hd.
  destruct (Z.ltb_spec value 128) as [Hs|Hs].
  - rewrite Z.div_small, Z.mod_small by lia. cbn. rewrite to_byte_u8, Z.mod_small by lia. f_equal. by destruct n.
  - destruct (land_top (value mod 128) Hb) as (_ & _ & -> & _). assert (0 < value / 128) by lia.
    destruct (Z.ltb_spec 0 (value / 128)); [|lia]. rewrite to_byte_u8, (Z.mod_small (128 + _)) by lia. f_equal.
    apply IH. split; [done|apply Z.div_lt_upper_bound; lia].
Qed.

Lemma encode_varlen n : 0 <= n <= maxVarlen -> encodeMQTTRemainingLength n = Ok (varlen n).
Proof.
  intros Hn. unfold encodeMQTTRemainingLength, maxVarlen in *.
  destruct (Z.ltb_spec n 0), (Z.ltb_spec 268435455 n); try lia. cbn [orb].
  destruct (Z.eqb_spec n 0) as [->|]; [done|]. f_equal. apply encode_groups. lia.
Qed.

Lemma zlen_varlen n : 0 < zlen (varlen n) <= 4.
Proof.
  unfold varlen. cbn. destruct (n <? 128); [done|]. destruct (n / 128 <? 128); [done|]. destruct (n / 128 / 128 <? 128); [done|].
  by destruct (n / 128 / 128 / 128 <? 128).
Qed.

(** ** Fields *)

Lemma upto_start l : upto l 0 l.
Proof. by exists []. Qed.

Lemma upto_rest data off rest : upto data off rest -> goslice (E := string) off (zlen data) data = Ok rest.
Proof.
  intros Hu. pose proof (upto_len _ _ _ Hu) as [Hl _]. rewrite <- (app_nil_r rest) in Hu.
  apply upto_slice in Hu. by rewrite Hl.
Qed.

Lemma field_ok err l rest : zlen l < 65536 -> mqtt_field err (vec16 l ++ rest) = Ok (l, rest).
Proof.
  intros Hl. unfold mqtt_field, readMQTTLengthPrefixed. pose proof (zlen_nonneg l). pose proof (zlen_nonneg rest).
  set (data := vec16 l ++ rest). assert (Hd : zlen data = 2 + zlen l + zlen rest) by (unfold data; by rewrite zlen_app, zlen_vec16).
  assert (Hu : upto data 0 (u16be (zlen l) ++ l ++ rest)) by (unfold data, vec16; rewrite <- app_assoc; apply upto_start).
  apply upto_be16 in Hu as [Hb Hu]; [|lia]. rewrite Hb. cbn [rbind].
  destruct (Z.ltb_spec (zlen data) 2); [lia|]. destruct (Z.ltb_spec (zlen data) (2 + zlen l)); [lia|].
  change (0 + 2) with 2 in Hu. rewrite (upto_slice _ _ _ _ Hu). apply upto_skip in Hu.
  by rewrite (upto_rest _ _ _ Hu).
Qed.

Lemma append_ok dst v : zlen v < 65536 -> appendMQTTLengthPrefixed dst v = Ok (dst ++ vec16 v).
Proof.
  intros Hv. unfold appendMQTTLengthPrefixed. pose proof (zlen_nonneg v). destruct (Z.ltb_spec 65535 (zlen v)); [lia|].
  rewrite !to_byte_u8, Z.shiftr_div_pow2 by lia. change (2 ^ 8) with 256.
  rewrite (Z.mod_small (zlen v / 256)); [done|]. split; [apply Z.div_pos; lia|apply Z.div_lt_upper_bound; lia].
Qed.

Definition properties (l : bytes) : bytes := varlen (zlen l) ++ l.

Lemma properties_ok err l rest : zlen l <= maxVarlen -> mqtt_properties err (properties l ++ rest) = Ok (properties l, rest).
Proof.
  intros Hl. unfold mqtt_properties. pose proof (zlen_nonneg l). pose proof (zlen_nonneg rest).
  assert (Hz : zlen (properties l) = zlen (varlen (zlen l)) + zlen l) by (unfold properties; by rewrite zlen_app).
  unfold properties at 1. rewrite <- app_assoc, parse_varlen by lia.
  destruct (Z.ltb_spec (zlen (properties l ++ rest)) (zlen (varlen (zlen l)) + zlen l)) as [Hs|_]; [rewrite zlen_app in Hs; lia|].
  pose proof (upto_start (properties l ++ rest)) as Hu. rewrite <- Hz.
  pose proof (upto_slice _ _ _ _ Hu) as Hf. rewrite Z.add_0_l in Hf. rewrite Hf. apply upto_skip in Hu. rewrite Z.add_0_l in Hu.
  by rewrite (upto_rest _ _ _ Hu).
Qed.

(** ** CONNECT packets *)

Record connect := mkConnect {
  cn_name : bytes; cn_level : byte; cn_flags : byte; cn_keepAlive : byte * byte; cn_properties : bytes; cn_id : bytes;
  cn_willProperties : bytes; cn_willTopic : bytes; cn_willPayload : bytes; cn_user : bytes; cn_password : bytes
}.

Definition has (flag : Z) (c : connect) : bool := negb (Z.land (bz (cn_flags c)) flag =? 0).
Definition v5 (c : connect) : bool := bz (cn_level c) =? 5.

Definition will_fields (c : connect) : bytes :=
  if has 4 c then (if v5 c then properties (cn_willProperties c) else []) ++ vec16 (cn_willTopic c) ++ vec16 (cn_willPayload c) else [].

Definition connect_body (c : connect) : bytes :=
  vec16 (cn_name c) ++ cn_level c :: cn_flags c :: fst (cn_keepAlive c) :: snd (cn_keepAlive c) ::
  (if v5 c then properties (cn_properties c) else []) ++ vec16 (cn_id c) ++ will_fields c ++
  (if has 128 c then vec16 (cn_user c) else []) ++ (if has 64 c then vec16 (cn_password c) else []).

Definition connect_packet (c : connect) : bytes := x10 :: varlen (zlen (connect_body c)) ++ connect_body c.

(** The lengths fit their fields. *)
Record connect_ok (c : connect) : Prop := {
  co_name : zlen (cn_name c) < 65536; co_id : zlen (cn_id c) < 65536;
  co_topic : zlen (cn_willTopic c) < 65536; co_payload : zlen (cn_willPayload c) < 65536;
  co_user : zlen (cn_user c) < 65536; co_password : zlen (cn_password c) < 65536;
  co_properties : zlen (cn_properties c) <= maxVarlen; co_willProperties : zlen (cn_willProperties c) <= maxVarlen;
  co_body : zlen (connect_body c) <= maxVarlen
}.

Definition with_credentials (c : connect) (user password : bytes) : connect :=
  mkConnect (cn_name c) (cn_level c) (to_byte (Z.lor (Z.lor (bz (cn_flags c)) 128) 64)) (cn_keepAlive c) (cn_properties c)
    (cn_id c) (cn_willProperties c) (cn_willTopic c) (cn_willPayload c) user password.

Lemma byte_range b : 0 <= bz b < 256.
Proof. by destruct b. Qed.

Lemma to_byte_bz b : to_byte (bz b) = b.
Proof. by destruct b. Qed.

Lemma credential_flags b :
  let b' := bz (to_byte (Z.lor (Z.lor (bz b) 128) 64)) in
  Z.land b' 128 = 128 /\ Z.land b' 64 = 64 /\ Z.land b' 4 = Z.land (bz b) 4.
Proof. destruct b; vm_compute; auto. Qed.

Lemma with_credentials_body c user password :
  connect_body (with_credentials c user password) =
  vec16 (cn_name c) ++ cn_level c :: to_byte (Z.lor (Z.lor (bz (cn_flags c)) 128) 64) :: fst (cn_keepAlive c) :: snd (cn_keepAlive c) ::
  (if v5 c then properties (cn_properties c) else []) ++ vec16 (cn_id c) ++ will_fields c ++ vec16 user ++ vec16 password.
Proof.
  unfold connect_body, will_fields, has. cbn [with_credentials cn_name cn_level cn_flags cn_keepAlive cn_properties cn_id
    cn_willProperties cn_willTopic cn_willPayload cn_user cn_password].
  destruct (credential_flags (cn_flags c)) as (-> & -> & ->). done.
Qed.

Lemma will_ok c rest : connect_ok c -> mqtt_will (bz (cn_level c)) (bz (cn_flags c)) (will_fields c ++ rest) = Ok (will_fields c, rest).
Proof.
  intros Hc. unfold mqtt_will, will_fields, has, v5, mqttConnectFlagWillFlag.
  destruct (Z.land (bz (cn_flags c)) 4 =? 0); [done|]. cbn [negb].
  set (props := if bz (cn_level c) =? 5 then properties (cn_willProperties c) else []).
  set (whole := (props ++ vec16 (cn_willTopic c) ++ vec16 (cn_willPayload c)) ++ rest).
  assert (Hp : (if bz (cn_level c) =? 5 then mqtt_properties "mqtt will properties are invalid" whole else Ok ([], whole)) =
    Ok (props, (vec16 (cn_willTopic c) ++ vec16 (cn_willPayload c)) ++ rest)).
  { unfold whole, props. destruct (_ =? 5); [|done]. rewrite <- app_assoc. apply properties_ok, Hc. }
  rewrite Hp. cbn [rbind snd]. rewrite <- app_assoc, field_ok by apply Hc. cbn [rbind snd].
  rewrite field_ok by apply Hc. cbn [rbind snd].
  assert (Hz : zlen whole - zlen rest = zlen (props ++ vec16 (cn_willTopic c) ++ vec16 (cn_willPayload c))).
  { unfold whole. rewrite (zlen_app _ rest). lia. }
  rewrite Hz. pose proof (upto_slice whole 0 _ rest (upto_start _)) as Hs. rewrite Z.add_0_l in Hs. by rewrite Hs.
Qed.

Lemma skip_ok flag c err l rest :
  zlen l < 65536 -> mqtt_skip flag (bz (cn_flags c)) err ((if has flag c then vec16 l else []) ++ rest) = Ok rest.
Proof.
  intros Hl. unfold mqtt_skip, has. destruct (_ =? 0); [done|]. cbn [negb]. by rewrite field_ok.
Qed.

Lemma rewrite_ok c user password :
  connect_ok c -> zlen (raw user) < 65536 -> zlen (raw password) < 65536 ->
  zlen (connect_body (with_credentials c (raw user) (raw password))) <= maxVarlen ->
  rewriteMQTTConnectPacket (connect_packet c) user password = Ok (connect_packet (with_credentials c (raw user) (raw password))).
Proof.
  intros Hc Hu Hp Hb. unfold rewriteMQTTConnectPacket.
  pose proof (zlen_varlen (zlen (connect_body c))) as Hv. pose proof (zlen_nonneg (connect_body c)) as Hn.
  set (packet := connect_packet c).
  assert (Hz : zlen packet = 1 + zlen (varlen (zlen (connect_body c))) + zlen (connect_body c))
    by (unfold packet, connect_packet; rewrite zlen_cons, zlen_app; lia).
  destruct (Z.ltb_spec (zlen packet) 2); [lia|].
  assert (Hs : upto packet 0 (x10 :: varlen (zlen (connect_body c)) ++ connect_body c)) by apply upto_start.
  rewrite (upto_at _ _ _ _ Hs). cbn [rbind].
  change (bz x10 =? 16) with true. cbn [negb]. apply upto_byte in Hs. change (0 + 1) with 1 in Hs.
  rewrite (upto_rest _ _ _ Hs). cbn [rbind]. rewrite parse_varlen by (split; [lia|apply Hc]).
  apply upto_skip in Hs. rewrite (upto_rest _ _ _ Hs). cbn [rbind]. rewrite Z.eqb_refl. cbn [negb].
  unfold connect_body at 1. rewrite field_ok by apply Hc. cbn [rbind fst snd].
  set (tail := (if v5 c then _ else _) ++ _).
  set (rest := cn_level c :: _).
  assert (Hr : zlen rest = 4 + zlen tail) by (unfold rest; rewrite !zlen_cons; lia). pose proof (zlen_nonneg tail).
  destruct (Z.ltb_spec (zlen rest) 4); [lia|].
  pose proof (upto_start rest) as Ht. unfold rest at 2 in Ht.
  rewrite (upto_at _ _ _ _ Ht). apply upto_byte in Ht. change (0 + 1) with 1 in Ht.
  rewrite (upto_at _ _ _ _ Ht). apply upto_byte in Ht. change (1 + 1) with 2 in Ht. cbn [rbind].
  pose proof (upto_slice rest 2 [fst (cn_keepAlive c); snd (cn_keepAlive c)] tail Ht) as Hk. change (2 + zlen _) with 4 in Hk.
  rewrite Hk. do 2 apply upto_byte in Ht. change (2 + 1 + 1) with 4 in Ht. rewrite (upto_rest _ _ _ Ht). cbn [rbind].
  unfold tail. set (tail' := vec16 (cn_id c) ++ _).
  assert (Hq : (if bz (cn_level c) =? 5 then mqtt_properties "mqtt connect properties are invalid"
      ((if v5 c then properties (cn_properties c) else []) ++ tail') else Ok ([], (if v5 c then properties (cn_properties c) else []) ++ tail')) =
    Ok (if v5 c then properties (cn_properties c) else [], tail')).
  { unfold v5. destruct (_ =? 5); [apply properties_ok, Hc|done]. }
  rewrite Hq. cbn [rbind fst snd]. unfold tail'. rewrite field_ok by apply Hc. cbn [rbind fst snd].
  rewrite will_ok by done. cbn [rbind fst snd]. rewrite skip_ok by apply Hc. cbn [rbind].
  rewrite <- (app_nil_r (if has 64 c then _ else _)), skip_ok by apply Hc. cbn [rbind].
  change (zlen [] =? 0) with true. cbn [negb]. rewrite append_ok by apply Hc. cbn [rbind app].
  rewrite append_ok by apply Hc. cbn [rbind]. rewrite append_ok by done. cbn [rbind]. rewrite append_ok by done. cbn [rbind].
  set (body := _ ++ vec16 (raw password)).
  assert (Hbody : body = connect_body (with_credentials c (raw user) (raw password))).
  { rewrite with_credentials_body. unfold body. rewrite to_byte_bz, <- ?app_assoc. cbn [app]. by rewrite <- ?app_assoc. }
  rewrite Hbody, encode_varlen by (split; [apply zlen_nonneg|done]). done.
Qed.

(** ** Reading the packet *)

Lemma ReadFull_ok l rest : ReadFull (zlen l) (l ++ rest) = (Ok l, rest).
Proof.
  unfold ReadFull. destruct (Z.ltb_spec (zlen (l ++ rest)) (zlen l)) as [H|_]; [rewrite zlen_app in H; pose proof (zlen_nonneg rest); lia|].
  unfold zlen. by rewrite Nat2Z.id, take_app_length, drop_app_length.
Qed.

Lemma read_groups n value rest :
  0 <= value < 128 ^ Z.of_nat n -> read_length_bytes n (varlen_groups n value ++ rest) = (Ok (varlen_groups n value), rest).
Proof.
  revert value. induction n as [|n IH]; intros value Hv; [done|]. cbn [varlen_groups read_length_bytes].
  rewrite Nat2Z.inj_succ, Z.pow_succ_r in Hv by lia. pose proof (Z.mod_pos_bound value 128 ltac:(lia)) as Hb.
  destruct (Z.ltb_spec value 128); cbn [app]; unfold bind, ReadByte.
  - rewrite bz_u8 by lia. by destruct (land_top value ltac:(lia)) as (-> & _).
  - rewrite bz_u8 by lia. destruct (land_top (value mod 128) Hb) as (_ & -> & _). change (128 =? 0) with false. cbv iota.
    cbv beta. rewrite IH; [done|]. split; [apply Z.div_pos; lia|apply Z.div_lt_upper_bound; lia].
Qed.

Lemma read_packet_ok c rest : connect_ok c -> readMQTTConnectPacket (connect_packet c ++ rest) = (Ok (connect_packet c), rest).
Proof.
  intros Hc. pose proof (co_body c Hc) as Hb. pose proof (zlen_nonneg (connect_body c)) as Hn. unfold maxVarlen in Hb.
  unfold readMQTTConnectPacket, connect_packet. cbn [app]. unfold bind at 1, ReadByte at 1. rewrite <- app_assoc.
  unfold bind at 1. unfold varlen at 1. rewrite read_groups by lia. fold (varlen (zlen (connect_body c))).
  pose proof (parse_varlen (zlen (connect_body c)) []) as Hp. rewrite app_nil_r in Hp.
  cbv beta. rewrite Hp, Z.eqb_refl by (unfold maxVarlen; lia). cbn [negb]. unfold bind. by rewrite ReadFull_ok.
Qed.

(** C29: An MQTT session: a well-formed CONNECT packet of protocol 3.1.1 or 5, whatever its
    options, will message and own credentials, reaches the upstream with the resolved user
    name and password in place of its own and every other field unchanged, followed by all
    that the client sends after it. *)
Theorem mqtt_credentials_replaced `{CE : Certificates} req c rest replies auth material :
  rq_DestIP req <> [] -> 0 < rq_DestPort req -> connect_ok c ->
  ac_ResolvedUsernamePassword auth = Some material ->
  zlen (raw (up_Username material)) < 65536 -> zlen (raw (up_Password material)) < 65536 ->
  zlen (connect_body (with_credentials c (raw (up_Username material)) (raw (up_Password material)))) <= maxVarlen ->
  proxyMQTTSession req (mkSession (connect_packet c ++ rest) (Some replies) false [] [] auth) =
  (Ok tt, mkSession [] (Some []) true
     (connect_packet (with_credentials c (raw (up_Username material)) (raw (up_Password material))) ++ rest) replies auth).
Proof.
  intros Hip Hport Hc Hm Hu Hp Hb. unfold proxyMQTTSession, with_material.
  destruct (rq_DestIP req) as [|ip ips] eqn:Hd; [done|]. cbn [is_nil orb]. destruct (Z.leb_spec (rq_DestPort req) 0); [lia|].
  unfold bind at 1, get. cbn [se_auth]. rewrite Hm. unfold bind at 1, from_client. cbn [se_client].
  rewrite read_packet_ok by done. unfold bind at 1, lift_res. rewrite rewrite_ok by done.
  unfold bind at 1, dialUpstreamTCP. rewrite Hd. cbn [is_nil orb]. destruct (Z.leb_spec (rq_DestPort req) 0); [lia|]. done.
Qed.

(** A client of protocol 5 with a will message and no credentials of its own. *)
Definition demo_connect : connect :=
  mkConnect (raw "MQTT") x05 x06 (x00, x3c) [x11; x00; x00; x00; x0a] (raw "sensor") [] (raw "gone") (raw "bye") [] [].
Definition demo_material : resolvedUsernamePassword := mkUserPass "user" "secret".
Definition demo_auth : egressAuthContext (CE := {| Certificate := unit; CertPool := unit; X509KeyPair := fun _ _ => None; NewCertPoolFromPEM := fun _ => None |}) :=
  mkAuthCtx (mkAuthRule "rule" "ref" "" "mqtt" "" "fail-closed" [] []) None ∅ None (Some demo_material) None false true None "fail-closed" "" "resolved".

Lemma mqtt_credentials_replaced_witness :
  proxyMQTTSession (mkRequest [10; 0; 0; 1] 1883 "" [] None None None)
    (mkSession (connect_packet demo_connect ++ [xc0; x00]) (Some []) false [] [] demo_auth) =
  (Ok tt, mkSession [] (Some []) true
     (connect_packet (with_credentials demo_connect (raw "user") (raw "secret")) ++ [xc0; x00]) [] demo_auth).
Proof.
  apply (mqtt_credentials_replaced (mkRequest [10; 0; 0; 1] 1883 "" [] None None None) demo_connect [xc0; x00] [] demo_auth demo_material);
    [done|reflexivity|split; by vm_compute|reflexivity|by vm_compute..].
Defined.
