(* ===== verification/CredentialSpec.v ===== *)
(** * netd: what is shown of credentials in SOCKS5 and Redis sessions

    Under a rule that does not fail open, nothing the client sends goes upstream before the
    upstream has accepted the credentials; RESP frames are read whole and commands are
    parsed as they were built. *)

From stdpp Require Import base gmap strings list fin_maps numbers.
From Stdlib Require Import Strings.Byte Strings.Ascii.
From S2P Require Import Prelude GoStd GoNet Policy PolicyEval Classifier ClassifierSpec ClassifierTls Proxy EgressAuth CredentialProxy CredentialMqtt.

Local Open Scope Z_scope.

(** ** Decimal numbers *)

Lemma digit_byte d : 0 <= d < 10 ->
  isDigitByte (byte_of_ascii (digit_char d)) = true /\ bz (byte_of_ascii (digit_char d)) - 48 = d /\
  byte_of_ascii (digit_char d) <> x0a.
Proof.
  intros Hd. assert (H : forallb (fun k => let b := byte_of_ascii (digit_char (Z.of_nat k)) in
    isDigitByte b && (bz b - 48 =? Z.of_nat k) && bool_decide (b <> x0a)) (seq 0 10) = true) by (vm_compute; reflexivity).
  rewrite forallb_forall in H. specialize (H (Z.to_nat d) ltac:(apply in_seq; lia)). cbv zeta in H.
  rewrite Z2Nat.id, !andb_true_iff, Z.eqb_eq, bool_decide_eq_true in H by lia. tauto.
Qed.

Lemma raw_cons a s : raw (String a s) = byte_of_ascii a :: raw s.
Proof. done. Qed.

(** A number is written with digits, the first of them there. *)
Lemma show_digits w n acc :
  0 <= n -> Forall (fun b => isDigitByte b = true) (raw acc) -> (0 < w)%nat ->
  raw (show 10 w n acc) <> [] /\ Forall (fun b => isDigitByte b = true) (raw (show 10 w n acc)).
Proof.
  revert n acc. induction w as [|w IH]; intros n acc Hn Ha Hw; [lia|]. cbn [show].
  assert (Hd : Forall (fun b => isDigitByte b = true) (raw (String (digit_char (n mod 10)) acc))).
  { rewrite raw_cons. constructor; [apply digit_byte, Z.mod_pos_bound; lia|done]. }
  destruct (Z.eqb_spec (n / 10) 0); [split; [done|exact Hd]|]. destruct w as [|w]; [by cbn|].
  apply IH; [apply Z.div_pos; lia|done|lia].
Qed.

Lemma atoi_show w n acc :
  0 <= n < 10 ^ Z.of_nat w -> (0 < w)%nat -> atoi_digits (raw (show 10 w n acc)) 0 = atoi_digits (raw acc) n.
Proof.
  revert n acc. induction w as [|w IH]; intros n acc Hn Hw; [lia|]. cbn [show].
  pose proof (Z.mod_pos_bound n 10 ltac:(lia)) as Hb. pose proof (Z.div_mod n 10 ltac:(lia)) as Hd.
  rewrite Nat2Z.inj_succ, Z.pow_succ_r in Hn by lia.
  assert (Hq : 0 <= n / 10 < 10 ^ Z.of_nat w) by (split; [apply Z.div_pos; lia|apply Z.div_lt_upper_bound; lia]).
  destruct (digit_byte (n mod 10) Hb) as (Hg & Hv & _).
  destruct (Z.eqb_spec (n / 10) 0).
  - rewrite raw_cons. cbn [atoi_digits]. rewrite Hg, Hv. f_equal. lia.
  - destruct w as [|w]; [cbn in Hq; lia|]. rewrite IH by lia. rewrite raw_cons. cbn [atoi_digits]. rewrite Hg, Hv. f_equal. lia.
Qed.

Lemma Atoi_show n : 0 <= n < 2 ^ 63 -> Atoi (raw (show_dec n)) = Some n.
Proof.
  intros Hn. unfold Atoi, show_dec.
  destruct (show_digits 20 n "" ltac:(lia) ltac:(constructor) ltac:(lia)) as [Hne Hd].
  pose proof (atoi_show 20 n "" ltac:(lia) ltac:(lia)) as Ha.
  destruct (raw (show 10 20 n "")) as [|b l]; [done|]. pose proof (Forall_inv Hd) as Hb.
  assert (Hs : match b :: l with x2d :: s => (true, s) | x2b :: s => (false, s) | _ => (false, b :: l) end = (false, b :: l)).
  { destruct b; try done; vm_compute in Hb; discriminate Hb. }
  rewrite Hs. cbn [is_nil]. rewrite Ha. change (atoi_digits (raw "") n) with (Some n). cbv iota beta zeta.
  destruct (Z.leb_spec (- 2 ^ 63) n), (Z.ltb_spec n (2 ^ 63)); try lia. done.
Qed.

(** ** Lines *)

Lemma cut_line l rest : x0a ∉ l -> bytes_Cut (l ++ x0a :: rest) x0a = Some (l, rest).
Proof.
  induction l as [|b l IH]; intros Hl; cbn.
  - by destruct (decide (x0a = x0a)).
  - rewrite not_elem_of_cons in Hl. destruct Hl as [Hb Hl]. destruct (decide (b = x0a)); [done|]. by rewrite IH.
Qed.

Lemma read_line_ok l rest : x0a ∉ l -> read_line (l ++ crlf ++ rest) = (Ok (l ++ crlf), rest).
Proof.
  intros Hl. unfold read_line, crlf. cbn [app]. change (l ++ x0d :: x0a :: rest) with (l ++ [x0d] ++ x0a :: rest).
  rewrite app_assoc, cut_line; [by rewrite <- app_assoc|]. rewrite elem_of_app. intros [H|H]; [done|].
  by apply list_elem_of_singleton in H.
Qed.

Lemma trim_crlf_ok l : trim_crlf (l ++ crlf) = l.
Proof.
  unfold trim_crlf. rewrite bool_decide_eq_true_2 by (by exists l). rewrite length_app. cbn [crlf length].
  rewrite Nat.add_sub. apply take_app_length.
Qed.

Lemma show_no_newline n : 0 <= n -> x0a ∉ raw (show_dec n).
Proof.
  intros Hn He. destruct (show_digits 20 n "" Hn ltac:(constructor) ltac:(lia)) as [_ Hd].
  rewrite Forall_forall in Hd. by apply list_elem_of_In, Hd in He.
Qed.

Lemma integer_line n : 0 <= n < 2 ^ 63 -> parseRESPIntegerLine (raw (show_dec n) ++ crlf) = Ok n.
Proof. intros Hn. unfold parseRESPIntegerLine. by rewrite trim_crlf_ok, Atoi_show. Qed.

(** ** RESP frames *)

Inductive resp :=
  | RLine (kind : byte) (text : bytes)
  | RBulk (payload : bytes)
  | RNull (kind : byte)
  | RArray (items : list resp).

Definition resp_rect' (P : resp -> Prop) (HL : forall k t, P (RLine k t)) (HB : forall p, P (RBulk p)) (HN : forall k, P (RNull k))
    (HA : forall items, Forall P items -> P (RArray items)) : forall v, P v :=
  fix go v := match v with
  | RLine k t => HL k t
  | RBulk p => HB p
  | RNull k => HN k
  | RArray items => HA items ((fix all l : Forall P l := match l with [] => Forall_nil_2 _ | v :: l => Forall_cons_2 _ _ _ (go v) (all l) end) items)
  end.

Fixpoint resp_bytes (v : resp) : bytes :=
  match v with
  | RLine kind text => kind :: text ++ crlf
  | RBulk payload => x24 :: raw (show_dec (zlen payload)) ++ crlf ++ payload ++ crlf
  | RNull kind => kind :: raw "-1" ++ crlf
  | RArray items => x2a :: raw (show_dec (zlen items)) ++ crlf ++ concat (map resp_bytes items)
  end.

Fixpoint resp_ok (v : resp) : Prop :=
  match v with
  | RLine kind text => kind ∈ [x2b; x2d; x3a] /\ x0a ∉ text
  | RBulk payload => zlen payload + 2 <= maxInt
  | RNull kind => kind ∈ [x24; x2a]
  | RArray items => zlen items <= maxInt /\ foldr (fun v P => resp_ok v /\ P) True items
  end.

Fixpoint resp_size (v : resp) : nat :=
  match v with RArray items => S (sum_list_with resp_size items) | _ => 1 end.

(** One frame is read, [pending] are left. *)
Definition reads (v : resp) : Prop := forall fuel pending frame rest, 0 <= pending ->
  append_frames (resp_size v + fuel) (pending + 1) frame (resp_bytes v ++ rest) =
  append_frames fuel pending (frame ++ resp_bytes v) rest.

Lemma reads_all items fuel pending frame rest :
  Forall reads items -> 0 <= pending ->
  append_frames (sum_list_with resp_size items + fuel) (pending + zlen items) frame (concat (map resp_bytes items) ++ rest) =
  append_frames fuel pending (frame ++ concat (map resp_bytes items)) rest.
Proof.
  intros Hr Hp. revert frame. induction Hr as [|v items Hv _ IH]; intros frame; cbn [sum_list_with map concat].
  - unfold zlen. cbn [length app plus]. by rewrite Z.add_0_r, app_nil_r.
  - rewrite <- !app_assoc, <- Nat.add_assoc. pose proof (zlen_nonneg items).
    replace (pending + zlen (v :: items)) with (pending + zlen items + 1) by (rewrite zlen_cons; lia).
    rewrite Hv by lia. by rewrite IH, <- app_assoc.
Qed.

Lemma step_frame fuel pending frame prefix rest :
  0 <= pending ->
  append_frames (S fuel) (pending + 1) frame (prefix :: rest) =
  (if decide (prefix ∈ [x2b; x2d; x3a]) then
     let* line := read_line in append_frames fuel pending (frame ++ prefix :: line)
   else if decide (prefix = x24) then
     let* line := read_line in
     let* length_ := lift_res (parseRESPIntegerLine line) in
     if length_ <? 0 then append_frames fuel pending (frame ++ prefix :: line) else
     let* payload := read_payload length_ in
     append_frames fuel pending (frame ++ prefix :: line ++ payload)
   else if decide (prefix = x2a) then
     let* line := read_line in
     let* count := lift_res (parseRESPIntegerLine line) in
     append_frames fuel (pending + Z.max 0 count) (frame ++ prefix :: line)
   else throw "unsupported redis resp type") rest.
Proof.
  intros Hp. cbn [append_frames]. destruct (Z.leb_spec (pending + 1) 0); [lia|].
  unfold bind at 1, ReadByte. cbv beta iota. by replace (pending + 1 - 1) with pending by lia.
Qed.

Lemma payload_ok payload rest :
  zlen payload + 2 <= maxInt -> read_payload (zlen payload) (payload ++ crlf ++ rest) = (Ok (payload ++ crlf), rest).
Proof.
  intros Hp. unfold read_payload. pose proof (zlen_nonneg payload). rewrite add64_small by lia.
  destruct (Z.ltb_spec (zlen payload + 2) 0); [lia|].
  replace (zlen payload + 2) with (zlen (payload ++ crlf)) by (by rewrite zlen_app). rewrite app_assoc. apply ReadFull_ok.
Qed.

Lemma not_line prefix : prefix = x24 \/ prefix = x2a -> prefix ∉ [x2b; x2d; x3a].
Proof. rewrite !not_elem_of_cons. intros [-> | ->]; split_and!; try done; apply not_elem_of_nil. Qed.

Lemma reads_frame v : resp_ok v -> reads v.
Proof.
  induction v as [kind text|payload|kind|items IH] using resp_rect'; intros Hv fuel pending frame rest Hp; cbn [resp_ok] in Hv;
    cbn [resp_size resp_bytes plus app]; rewrite step_frame by done.
  - destruct Hv as [Hk Ht]. rewrite decide_True by done. rewrite <- app_assoc. unfold bind. by rewrite read_line_ok.
  - rewrite decide_False, decide_True by (done || apply not_line; auto). rewrite <- !app_assoc. pose proof (zlen_nonneg payload).
    unfold maxInt in Hv. unfold bind, lift_res. rewrite read_line_ok by (by apply show_no_newline). rewrite integer_line by lia.
    destruct (Z.ltb_spec (zlen payload) 0); [lia|]. rewrite payload_ok by (unfold maxInt; lia). by rewrite <- !app_assoc.
  - rewrite decide_False by (apply not_line; apply elem_of_cons in Hv as [->|Hv]; [|apply list_elem_of_singleton in Hv]; auto).
    apply elem_of_cons in Hv as [->|Hv]; [|apply list_elem_of_singleton in Hv as ->].
    + by rewrite decide_True.
    + rewrite decide_False, decide_True by done. unfold bind, lift_res. rewrite <- app_assoc.
      rewrite read_line_ok by (apply (bool_decide_unpack _); vm_compute; exact I).
      change (parseRESPIntegerLine (raw "-1" ++ crlf)) with (Ok (E := string) (-1)). cbv iota beta.
      change (Z.max 0 (-1)) with 0. by rewrite Z.add_0_r.
  - destruct Hv as [Hl Hi]. rewrite decide_False, decide_False, decide_True by (done || apply not_line; auto).
    rewrite <- !app_assoc. pose proof (zlen_nonneg items). unfold maxInt in Hl.
    unfold bind, lift_res. rewrite read_line_ok by (by apply show_no_newline). rewrite integer_line by lia.
    rewrite Z.max_r by lia. rewrite reads_all; [rewrite <- app_assoc; cbn [app]; by rewrite <- ?app_assoc| |done].
    clear -IH Hi. induction IH as [|v items Hv _ IH]; constructor; [by apply Hv, Hi|by apply IH, Hi].
Qed.

Lemma resp_size_length v : (resp_size v <= length (resp_bytes v))%nat.
Proof.
  induction v as [kind text|payload|kind|items IH] using resp_rect'; cbn [resp_size resp_bytes length]; [lia..|].
  rewrite !length_app. cut (sum_list_with resp_size items <= length (concat (map resp_bytes items)))%nat; [lia|].
  induction IH as [|v items Hv _ IH]; cbn [sum_list_with map concat]; [done|]. rewrite length_app. lia.
Qed.

(** A frame of any depth is read to its end and no further. *)
Lemma readRESPFrame_ok v rest : resp_ok v -> readRESPFrame (resp_bytes v ++ rest) = (Ok (resp_bytes v), rest).
Proof.
  intros Hv. unfold readRESPFrame. pose proof (resp_size_length v) as Hs.
  replace (S (length (resp_bytes v ++ rest))) with (resp_size v + (S (length (resp_bytes v ++ rest)) - resp_size v))%nat
    by (rewrite length_app; lia).
  change 1 with (0 + 1). rewrite (reads_frame v Hv) by done. by destruct (_ - _)%nat.
Qed.

(** ** Commands *)

Definition values_ok (values : list bytes) : Prop :=
  zlen values <= maxInt /\ Forall (fun v => zlen v + 2 <= maxInt) values.

Lemma build_is_frame values : buildRESPArray values = resp_bytes (RArray (RBulk <$> values)).
Proof.
  unfold buildRESPArray. cbn [resp_bytes]. replace (zlen (RBulk <$> values)) with (zlen values) by (unfold zlen; by rewrite length_fmap).
  f_equal. f_equal. f_equal. induction values as [|v values IH]; [done|].
  cbn [fmap list_fmap map concat resp_items resp_bytes app]. rewrite IH. by rewrite <- !app_assoc.
Qed.

Lemma values_frame_ok values : values_ok values -> resp_ok (RArray (RBulk <$> values)).
Proof.
  intros [Hl Hv]. split; [unfold zlen in *; by rewrite length_fmap|]. clear Hl. induction Hv; cbn; auto.
Qed.

Lemma items_ok fuel values acc rest :
  Forall (fun v => zlen v + 2 <= maxInt) values -> (length values <= fuel)%nat ->
  array_items fuel (zlen values) acc (resp_items values ++ rest) = (Ok (acc ++ values), rest).
Proof.
  intros Hv. revert fuel acc. induction Hv as [|v values Hv _ IH]; intros fuel acc Hf; [destruct fuel; cbn; by rewrite app_nil_r|].
  destruct fuel as [|fuel]; [cbn in Hf; lia|]. rewrite zlen_cons. pose proof (zlen_nonneg values). pose proof (zlen_nonneg v).
  cbn [array_items resp_items app]. destruct (Z.leb_spec (zlen values + 1) 0) as [?|_]; [lia|]. rewrite <- !app_assoc.
  unfold bind, ReadByte, lift_res. cbv beta iota. rewrite decide_True by done. unfold maxInt in Hv.
  rewrite read_line_ok by (by apply show_no_newline). rewrite integer_line by lia.
  destruct (Z.ltb_spec (zlen v) 0); [lia|]. rewrite payload_ok by (unfold maxInt; lia).
  pose proof (upto_slice (v ++ crlf) 0 v crlf (upto_start _)) as Hs. rewrite Z.add_0_l in Hs. rewrite Hs.
  replace (zlen values + 1 - 1) with (zlen values) by lia. rewrite IH by (cbn in Hf; lia). by rewrite <- app_assoc.
Qed.

(** The command is parsed as it was built. *)
Lemma redis_command_roundtrip values : values_ok values -> parseRESPArrayStrings (buildRESPArray values) = Ok values.
Proof.
  intros [Hl Hv]. unfold parseRESPArrayStrings, buildRESPArray. cbn [app].
  unfold bind at 1, ReadByte. rewrite bool_decide_eq_true_2 by done. cbn [negb].
  unfold bind at 1. pose proof (zlen_nonneg values). unfold maxInt in Hl.
  rewrite read_line_ok by (by apply show_no_newline). unfold bind, lift_res. rewrite integer_line by lia.
  destruct (Z.ltb_spec (zlen values) 0); [lia|]. rewrite <- (app_nil_r (resp_items values)) at 2.
  rewrite items_ok; [done..|]. cbn [length]. rewrite !length_app.
  cut (length values <= length (resp_items values))%nat; [lia|]. clear. induction values as [|v values IH]; [done|].
  cbn [resp_items length]. rewrite !length_app. lia.
Qed.

Lemma build_auth_is_auth username password :
  zlen (raw username) + 2 <= maxInt -> zlen (raw password) + 2 <= maxInt ->
  isRedisAUTHCommand (buildRedisAUTHCommand username password) = Ok true.
Proof.
  intros Hu Hp. unfold isRedisAUTHCommand, buildRedisAUTHCommand.
  rewrite redis_command_roundtrip; [done|]. split; [done|]. by repeat constructor.
Qed.

(** ** Sessions *)

Lemma bind_inv {E S A B} (m : ST E S A) (k : A -> ST E S B) s r s' :
  bind m k s = (r, s') ->
  (exists a s1, m s = (Ok a, s1) /\ k a s1 = (r, s')) \/ (is_ok r = false /\ exists x, m s = (x, s') /\ is_ok x = false).
Proof.
  unfold bind. destruct (m s) as [[a|e|] s1]; [by left; exists a, s1| |]; intros [= <- <-]; right; split; [done| |done|]; by eexists.
Qed.

Section sessions.
Context `{CE : Certificates}.
Implicit Types s : session.

(** The upstream answers each command but the last with something else than OK. *)
Fixpoint dialogue (cmds : list bytes) (peer tail : bytes) : Prop :=
  match cmds with
  | [] => False
  | cmd :: rest =>
      exists reply peer', readRESPFrame peer = (Ok reply, peer') /\
      (if isRedisOKReply reply then rest = [] /\ peer' = tail else dialogue rest peer' tail)
  end.

Definition auth_frames (material : resolvedUsernamePassword) : list bytes :=
  buildRedisAUTHCommand (up_Username material) (up_Password material) ::
  (if EqualFold (up_Username material) "default" then [buildRedisAUTHPasswordOnlyCommand (up_Password material)] else []).

Lemma redis_auth_spec frames s r s' :
  redis_auth frames s = (r, s') ->
  se_client s' = se_client s /\ se_auth s' = se_auth s /\
  exists cmds, cmds `prefix_of` frames /\ se_sent s' = se_sent s ++ concat cmds /\
    (r = Ok true -> exists tail, dialogue cmds (default [] (se_peer s)) tail).
Proof.
  revert s. induction frames as [|f frames IH]; intros s; cbn [redis_auth].
  - intros [= <- <-]. split_and!; [done..|]. exists []. by rewrite app_nil_r.
  - unfold bind, write_upstream, from_upstream. cbn [se_peer se_client se_dialed se_sent se_replied se_auth].
    destruct (readRESPFrame _) as [[reply|e|] peer'] eqn:Er.
    2,3: intros [= <- <-]; split_and!; [done..|]; exists [f]; split_and!; [by apply prefix_cons, prefix_nil|cbn; by rewrite app_nil_r|done].
    destruct (isRedisOKReply reply) eqn:Eo.
    + intros [= <- <-]. split_and!; [done..|]. exists [f]. split_and!; [by apply prefix_cons, prefix_nil|cbn; by rewrite app_nil_r|].
      intros _. exists peer', reply, peer'. by rewrite Eo.
    + intros H. apply IH in H as (Hc & Ha & cmds & Hp & Hs & Hd). split_and!; [exact Hc|exact Ha|].
      exists (f :: cmds). cbn [concat se_sent] in *. split_and!; [by apply prefix_cons|by rewrite Hs, <- app_assoc|].
      intros Hr. destruct (Hd Hr) as [tail Ht]. exists tail, reply, peer'. by rewrite Eo.
Qed.

(** A session with a context that is not bypassed and does not fail open. *)
Definition closed_session s : Prop := ac_BypassReason (se_auth s) = "" /\ FailOpen (se_auth s) = false.

Lemma no_bypass reason s r s' :
  closed_session s -> bypass_after reason s = (r, s') -> r = Ok false /\ se_sent s' = se_sent s /\ se_client s' = se_client s.
Proof.
  intros [Hb Hf]. unfold bypass_after, bind, set_auth, gets. intros [= <- <-]. split_and!; [|done..]. f_equal.
  cbn [se_auth]. unfold applyEgressAuthFailurePolicy. rewrite Hf. unfold ShouldBypass. cbn. by rewrite Hb.
Qed.

(** What a Redis session sends upstream. *)
Definition redis_safe (material : resolvedUsernamePassword) s (r : res string unit) s' : Prop :=
  match r with
  | Ok _ => exists first rest cmds tail isAuth, readRESPFrame (se_client s) = (Ok first, rest) /\
      cmds `prefix_of` auth_frames material /\ dialogue cmds (default [] (se_peer s)) tail /\
      isRedisAUTHCommand first = Ok isAuth /\ se_sent s' = concat cmds ++ (if (isAuth : bool) then [] else first) ++ rest
  | _ => exists cmds, cmds `prefix_of` auth_frames material /\ se_sent s' = concat cmds
  end.

Lemma redis_session_safe req s material r s' :
  closed_session s -> se_sent s = [] -> ac_ResolvedUsernamePassword (se_auth s) = Some material ->
  proxyRedisSession req s = (r, s') -> redis_safe material s r s'.
Proof.
  intros Hcl Hsent Hm. unfold proxyRedisSession, with_material.
  assert (Hnone : forall x t, is_ok x = false -> se_sent t = [] -> redis_safe material s x t).
  { intros [] t Hx Ht; [done|..]; exists []; split; auto using prefix_nil. }
  destruct (_ || _)%bool; [intros [= <- <-]; by apply Hnone|].
  unfold bind at 1, get. rewrite Hm. intros H.
  apply bind_inv in H as [(first & s1 & H1 & H)|(Hr & x & H1 & Hx)];
    unfold from_client in H1; destruct (readRESPFrame (se_client s)) as [fr rest] eqn:Efirst; injection H1 as -> <-;
    [|by apply Hnone].
  apply bind_inv in H as [([] & s2 & H1 & H)|(Hr & x & H1 & Hx)]; unfold dialUpstreamTCP in H1; cbn [se_peer] in H1;
    (destruct (_ || _)%bool; [first [discriminate H1|injection H1 as _ <-; by apply Hnone]|]);
    (destruct (se_peer s) as [peer|] eqn:Epeer; [|first [discriminate H1|injection H1 as _ <-; by apply Hnone]]);
    injection H1 as <-; [|by apply Hnone; subst].
  fold (auth_frames material) in H.
  apply bind_inv in H as [(ok & s3 & H1 & H)|(Hr & x & H1 & Hx)]; apply redis_auth_spec in H1 as (Hc & Ha & cmds & Hp & Hs & Hd);
    cbn [se_sent se_client se_auth se_peer default] in *; rewrite Hsent in Hs; cbn [app] in Hs.
  2: destruct r; [done|by exists cmds..].
  assert (Hcmds : forall x, is_ok x = false -> redis_safe material s x s3) by (intros [] Hx; [done|by exists cmds..]).
  destruct ok.
  - unfold bind at 1, ret at 1, lift_res in H. cbn [negb] in H. unfold bind at 1 in H.
    destruct (isRedisAUTHCommand first) as [isAuth|e|] eqn:Ei; [|injection H as <- <-; by apply Hcmds..].
    destruct (Hd eq_refl) as [tail Ht].
    assert (Hok : r = Ok tt /\ se_sent s' = concat cmds ++ (if isAuth then [] else first) ++ rest).
    { destruct isAuth; unfold bind, write_upstream, pipeWithReader in H; injection H as <- <-; cbn; rewrite Hs, Hc; split; auto.
      by rewrite <- app_assoc. }
    destruct Hok as [-> Hok]. exists first, rest, cmds, tail, isAuth. rewrite Epeer. auto.
  - apply bind_inv in H as [(b & s4 & H1 & H)|(Hr & x & H1 & Hx)]; apply no_bypass in H1 as (Hb & Hs4 & _);
      try (split; rewrite Ha; apply Hcl); [|by subst].
    injection Hb as ->. injection H as <- <-. exists cmds. by rewrite Hs4.
Qed.

(** What a SOCKS5 session sends upstream: the greeting, offering the method, then the
    credentials, and what the client sends after its own credentials, if it has sent any,
    when the upstream has chosen the method and accepted them. *)
Definition socks5_safe (material : resolvedUsernamePassword) s (r : res string unit) s' : Prop :=
  match r with
  | Ok _ => exists methods greeting greeting' offered after rest v1 v2 tail authRequest,
      readSOCKS5Greeting (se_client s) = (Ok (methods, greeting), after) /\
      ensureSOCKS5Method greeting methods socks5MethodUsernamePassword = Ok (greeting', offered) /\
      (if (offered : bool) then exists own, readSOCKS5UsernamePasswordRequest after = (Ok own, rest) else rest = after) /\
      se_peer s = Some ([v1; socks5MethodUsernamePassword; v2; x00] ++ tail) /\
      buildSOCKS5UsernamePasswordRequest material = Ok authRequest /\ se_sent s' = greeting' ++ authRequest ++ rest
  | _ => se_sent s' = [] \/
      exists methods greeting greeting' offered after,
        readSOCKS5Greeting (se_client s) = (Ok (methods, greeting), after) /\
        ensureSOCKS5Method greeting methods socks5MethodUsernamePassword = Ok (greeting', offered) /\
        (se_sent s' = greeting' \/ exists authRequest, buildSOCKS5UsernamePasswordRequest material = Ok authRequest /\
                                                       se_sent s' = greeting' ++ authRequest)
  end.

Lemma bz_inj b b' : bz b = bz b' -> b = b'.
Proof. intros H. by rewrite <- (to_byte_bz b), H, to_byte_bz. Qed.

(** Two bytes are read, and the second is looked at. *)
Lemma read_two peer sel rest z :
  ReadFull 2 peer = (Ok sel, rest) -> at_ sel 1 = Ok z -> exists a b, peer = a :: b :: rest /\ sel = [a; b] /\ z = bz b.
Proof.
  unfold ReadFull. destruct (_ <? _) eqn:E; [done|]. intros [= <- <-]. destruct peer as [|a [|b peer]]; [done..|].
  cbn. intros [= <-]. eauto.
Qed.

(** The tail of a session once the upstream has chosen user name and password. *)
Lemma socks5_auth_safe material (offered : bool) (methodSelection : bytes) s r s' :
  (let* _ := if offered then
                let* _ := write_client methodSelection in
                let* _ := from_client readSOCKS5UsernamePasswordRequest in ret tt
              else ret tt in
   let* authRequest := lift_res (buildSOCKS5UsernamePasswordRequest material) in
   let* _ := write_upstream authRequest in
   let* authResponse := from_upstream (ReadFull 2) in
   let* status := lift_res (at_ authResponse 1) in
   let* _ := if offered then write_client authResponse
             else write_client [socks5Version; if status =? 0 then socks5MethodNoAuth else socks5MethodNoAcceptable] in
   if negb (status =? 0) then throw "socks5 upstream rejected injected credentials" else pipeWithReader) s = (r, s') ->
  match r with
  | Ok _ => exists rest v2 tail authRequest,
      (if offered then exists own, readSOCKS5UsernamePasswordRequest (se_client s) = (Ok own, rest) else rest = se_client s) /\
      default [] (se_peer s) = v2 :: x00 :: tail /\ buildSOCKS5UsernamePasswordRequest material = Ok authRequest /\
      se_sent s' = se_sent s ++ authRequest ++ rest
  | _ => se_sent s' = se_sent s \/ exists authRequest, buildSOCKS5UsernamePasswordRequest material = Ok authRequest /\
                                                     se_sent s' = se_sent s ++ authRequest
  end.
Proof.
  intros H. apply bind_inv in H as [([] & s1 & H1 & H)|(Hr & x & H1 & Hx)].
  2: { assert (Hs : se_sent s' = se_sent s); [|destruct r; by auto].
       destruct offered; [|by injection H1 as <- <-]. unfold bind, write_client, from_client in H1.
       destruct (readSOCKS5UsernamePasswordRequest _) as [[] ?]; by injection H1 as <- <-. }
  assert (H1' : se_sent s1 = se_sent s /\ se_peer s1 = se_peer s /\
    (if offered then exists own, readSOCKS5UsernamePasswordRequest (se_client s) = (Ok own, se_client s1) else se_client s1 = se_client s)).
  { destruct offered; [|by injection H1 as <-]. unfold bind, write_client, from_client, ret in H1. cbn [se_client] in H1.
    destruct (readSOCKS5UsernamePasswordRequest (se_client s)) as [[own|e|] rest]; try done. injection H1 as <-. cbn. eauto. }
  destruct H1' as (Hs1 & Hp1 & Hown). unfold bind at 1, lift_res at 1 in H.
  destruct (buildSOCKS5UsernamePasswordRequest material) as [authRequest|e|] eqn:Eb; [|injection H as <- <-; by left..].
  unfold bind at 1, write_upstream, bind at 1, from_upstream in H. cbn [se_peer se_client se_dialed se_sent se_replied se_auth] in H.
  destruct (ReadFull 2 _) as [[resp|e|] tail] eqn:Er; [|injection H as <- <-; right; exists authRequest; by rewrite <- Hs1..].
  unfold bind at 1, lift_res in H. destruct (at_ resp 1) as [status|e|] eqn:Ea;
    [|injection H as <- <-; right; exists authRequest; by rewrite <- Hs1..].
  destruct (read_two _ _ _ _ Er Ea) as (v2 & b & Hpeer & -> & ->).
  destruct (Z.eqb_spec (bz b) 0) as [Hb|Hb]; unfold bind in H; cbn [negb] in H.
  - change 0 with (bz x00) in Hb. apply bz_inj in Hb as ->.
    destruct offered; injection H as <- <-; exists (se_client s1), v2, tail, authRequest; rewrite <- Hp1;
      (split; [done|]; split; [done|]; split; [done|]; cbn; by rewrite Hs1, <- app_assoc).
  - destruct offered; injection H as <- <-; right; exists authRequest; cbn; by rewrite <- Hs1.
Qed.

Lemma socks5_session_safe req s material r s' :
  closed_session s -> se_sent s = [] -> ac_ResolvedUsernamePassword (se_auth s) = Some material ->
  proxySOCKS5Session req s = (r, s') -> socks5_safe material s r s'.
Proof.
  intros Hcl Hsent Hm. unfold proxySOCKS5Session, with_material.
  assert (Hnone : forall x t, is_ok x = false -> se_sent t = [] -> socks5_safe material s x t) by (intros [] t Hx Ht; [done|by left..]).
  destruct (_ || _)%bool eqn:Ereq; [intros [= <- <-]; by apply Hnone|].
  unfold bind at 1, get. rewrite Hm. unfold bind at 1, dialUpstreamTCP. rewrite Ereq. cbn [se_peer].
  destruct (se_peer s) as [peer|] eqn:Epeer; [|intros [= <- <-]; by apply Hnone].
  unfold bind at 1, from_client at 1. cbn [se_peer se_client se_dialed se_sent se_replied se_auth].
  destruct (readSOCKS5Greeting (se_client s)) as [[[methods greeting]|e|] after] eqn:Eg; [|intros [= <- <-]; by apply Hnone..].
  unfold bind at 1, lift_res at 1. cbn [fst snd].
  destruct (ensureSOCKS5Method _ _ _) as [[greeting' offered]|e|] eqn:Ee; [|intros [= <- <-]; by apply Hnone..].
  unfold bind at 1, write_upstream at 1. cbn [se_peer se_client se_dialed se_sent se_replied se_auth fst snd]. rewrite Hsent, app_nil_l.
  assert (Hgreet : forall x t, is_ok x = false -> se_sent t = greeting' -> socks5_safe material s x t).
  { intros [] t Hx Ht; [done|..]; right; exists methods, greeting, greeting', offered, after; auto. }
  intros H. apply bind_inv in H as [(sel & s2 & H1 & H)|(Hr & x & H1 & Hx)]; unfold from_upstream in H1; cbn [se_peer] in H1;
    change (default [] (Some peer)) with peer in H1; destruct (ReadFull 2 peer) as [y peer1] eqn:Er; injection H1 as -> <-;
    [|by apply Hgreet]. revert H.
  unfold bind at 1, lift_res at 1. destruct (at_ sel 1) as [selected|e|] eqn:Ea; [|intros [= <- <-]; by apply Hgreet..].
  destruct (read_two _ _ _ _ Er Ea) as (v1 & b & -> & -> & ->).
  destruct (Z.eqb_spec (bz b) (bz socks5MethodUsernamePassword)) as [Hb|_].
  - apply bz_inj in Hb as ->. destruct (_ && _)%bool.
    + intros H. apply bind_inv in H as [(c & s4 & H1 & H)|(Hr & x & H1 & Hx)]; apply no_bypass in H1 as (Hc & Hs4 & _);
        try exact Hcl; [|by subst]. injection Hc as ->. injection H as <- <-. by apply Hgreet.
    + intros H. apply socks5_auth_safe in H. cbn [se_client se_sent se_peer] in H. change (default [] (Some peer1)) with peer1 in H.
      destruct r as [[]|e|].
      * destruct H as (rest & v2 & tail & authRequest & Hown & -> & Hbuild & Hs).
        exists methods, greeting, greeting', offered, after, rest, v1, v2, tail, authRequest. rewrite Epeer. auto 10.
      * right. exists methods, greeting, greeting', offered, after. auto.
      * right. exists methods, greeting, greeting', offered, after. auto.
  - unfold bind at 1, write_client. intros H. apply bind_inv in H as [(c & s4 & H1 & H)|(Hr & x & H1 & Hx)];
      apply no_bypass in H1 as (Hc & Hs4 & _); try exact Hcl; [|by subst].
    injection Hc as ->. injection H as <- <-. by apply Hgreet.
Qed.

(** C28: Under a rule that does not fail open, a SOCKS5 or Redis session sends upstream its
    greeting and the resolved credentials, and passes what the client sends on only after
    the upstream has accepted them; the client's own SOCKS5 credentials and a first AUTH
    command of its own are dropped.  A session that ends in an error has sent nothing else. *)
Theorem credentials_before_data req s material r s' :
  closed_session s -> se_sent s = [] -> ac_ResolvedUsernamePassword (se_auth s) = Some material ->
  (proxySOCKS5Session req s = (r, s') -> socks5_safe material s r s') /\
  (proxyRedisSession req s = (r, s') -> redis_safe material s r s').
Proof. intros Hc Hs Hm. split; intros H; [by eapply socks5_session_safe|by eapply redis_session_safe]. Qed.

End sessions.

(** ** Examples *)

Definition redis_request : adapterRequest := mkRequest [10; 0; 0; 1] 6379 "" [] None None None.
Definition redis_replies : bytes := raw "+OK" ++ crlf ++ raw ":1" ++ crlf.

Lemma credentials_before_data_witness :
  redis_safe demo_material (mkSession (buildRESPArray [raw "INCR"; raw "hits"]) (Some redis_replies) false [] [] demo_auth) (Ok tt)
    (mkSession [] (Some []) true (buildRedisAUTHCommand "user" "secret" ++ buildRESPArray [raw "INCR"; raw "hits"])
       (raw ":1" ++ crlf) demo_auth).
Proof.
  apply (credentials_before_data redis_request
    (mkSession (buildRESPArray [raw "INCR"; raw "hits"]) (Some redis_replies) false [] [] demo_auth) demo_material); try reflexivity.
  split; reflexivity.
Defined.

(** A bulk string of the largest length, from a client or an upstream: the size of the
    buffer overflows. *)
Lemma bulk_length_panics : (readRESPFrame (raw "*1" ++ crlf ++ raw "$9223372036854775807" ++ crlf)).1 = Panic.
Proof. reflexivity. Qed.

(** A null array as the first command. *)
Lemma null_array_panics : isRedisAUTHCommand (raw "*-1" ++ crlf) = Panic.
Proof. reflexivity. Qed.

(** A client that offers all methods but user name and password. *)
Definition many_methods : bytes := replicate 255 x00.
Lemma method_count_wraps :
  ensureSOCKS5Method (x05 :: xff :: many_methods) many_methods socks5MethodUsernamePassword =
  Ok (x05 :: x00 :: many_methods ++ [x02], false).
Proof. vm_compute. reflexivity. Qed.
