(* ===== verification/Broker.v ===== *)
(** * Runtime resolution of egress credentials (pkg/egressauth/runtime)

    The service behind the resolver of netd: it looks the binding of a sandbox up in the
    binding store, has a provider build the material from the source the binding names, and
    caches the result; credentials of the configuration are the fallback.  The store is what
    the database holds when it is asked.  Templates, durations and the format of times are
    parameters. *)

From stdpp Require Import base gmap strings list fin_maps numbers.
From S2P Require Import Prelude GoStd GoNet Policy PolicyEval Classifier Proxy EgressAuth.

Local Open Scope Z_scope.

(** ** bindings.go and sources.go *)

Inductive CredentialProjectionType :=
  | CredentialProjectionTypeHTTPHeaders | CredentialProjectionTypeTLSClientCertificate
  | CredentialProjectionTypeUsernamePassword | CredentialProjectionTypeSSHProxy | otherProjection (t : string).

#[export] Instance CredentialProjectionType_eq_dec : EqDecision CredentialProjectionType.
Proof. solve_decision. Defined.

Record ProjectedHeader := mkProjectedHeader { ph_Name : string; ph_ValueTemplate : string }.
Record SSHProxyProjection := mkSSHProjection { sj_SandboxPublicKeys : list string; sj_UpstreamUsername : string; sj_KnownHosts : list string }.

(** The projections for certificates and passwords have no fields. *)
Record ProjectionSpec := mkProjection {
  pj_Type : CredentialProjectionType; pj_HTTPHeaders : option (list ProjectedHeader);
  pj_TLSClientCertificate : option unit; pj_UsernamePassword : option unit; pj_SSHProxy : option SSHProxyProjection
}.

Record CredentialBinding := mkBinding {
  cb_Ref : string; cb_SourceRef : string; cb_SourceID : Z; cb_SourceVersion : Z; cb_Projection : ProjectionSpec;
  cb_CachePolicy : option string
}.

Record BindingRecord := mkBindingRecord { br_Bindings : list CredentialBinding; br_UpdatedAt : Z }.

(** The SSH source has the key and its passphrase. *)
Record CredentialSourceSecretSpec := mkSecretSpec {
  ss_StaticHeaders : option (gmap string string); ss_StaticTLSClientCertificate : option TLSClientCertificateDirective;
  ss_StaticUsernamePassword : option UsernamePasswordDirective; ss_StaticSSHPrivateKey : option (string * string)
}.

Record CredentialSourceVersion := mkSourceVersion {
  sv_SourceID : Z; sv_Version : Z; sv_ResolverKind : string; sv_Spec : CredentialSourceSecretSpec
}.

(** The answers of the database at a moment. *)
Record BindingStore := mkBindingStore {
  GetBindings : string -> string -> res string (option BindingRecord);
  GetSourceVersion : Z -> Z -> res string (option CredentialSourceVersion)
}.

(** [fmt.Sprintf("%d", n)] of an int64. *)
Definition show_int (n : Z) : string := if n <? 0 then "-" +:+ show_dec (- n) else show_dec n.

(** ** runtime/cache.go *)

(** [time.Time{}], in nanoseconds of Unix time. *)
Definition zero_time : Z := -62135596800 * 1000000000.

Record cacheEntry := mkCacheEntry { ce_response : ResolveResponse; ce_expiresAt : Z }.
Record resultCache := mkResultCache { rc_entries : gmap string cacheEntry; rc_maxEntries : Z }.

Definition newResultCache (maxEntries : Z) : resultCache := mkResultCache ∅ (if maxEntries <=? 0 then 2048 else maxEntries).

Definition entry_expired (now : Z) (e : cacheEntry) : bool := negb (ce_expiresAt e =? zero_time) && (ce_expiresAt e <=? now).

Definition result_Get (key : string) (now : Z) (c : resultCache) : option ResolveResponse * resultCache :=
  if decide (key = "") then (None, c) else
  match rc_entries c !! key with
  | None => (None, c)
  | Some entry =>
      if entry_expired now entry then (None, mkResultCache (delete key (rc_entries c)) (rc_maxEntries c))
      else (Some (CloneResolveResponse (ce_response entry)), c)
  end.

Definition purgeExpiredLocked (now : Z) (entries : gmap string cacheEntry) : gmap string cacheEntry :=
  filter (fun kv => entry_expired now kv.2 = false) entries.

(** The key a range over the map visits first. *)
Class FirstKey := { first_key : gmap string cacheEntry -> string }.

Section runtime.
Context `{FK : FirstKey}.

Definition result_Set (key : string) (response : ResolveResponse) (ttl now : Z) (c : resultCache) : resultCache :=
  if bool_decide (key = "") || (ttl <=? 0) then c else
  let entries := purgeExpiredLocked now (rc_entries c) in
  let entries := if rc_maxEntries c <=? Z.of_nat (size entries) then
                   if decide (entries = ∅) then entries else delete (first_key entries) entries
                 else entries in
  mkResultCache (<[key := mkCacheEntry (CloneResolveResponse response) (now + ttl)]> entries) (rc_maxEntries c).

(** ** runtime/provider_static.go *)

(** [time.ParseDuration]; the rendering of a template with the option missingkey=error; the
    format RFC3339Nano of a time in UTC. *)
Class RuntimeLib := {
  ParseDuration : string -> option Z;
  renderValueTemplate : string -> gmap string string -> option string;
  Format_RFC3339Nano : Z -> string
}.
Context `{RL : RuntimeLib}.

Record ResolveResult := mkResult_ { rl_Response : ResolveResponse; rl_TTL : Z }.

(** The duration, when the policy gives a positive one. *)
Definition parseBindingTTL (cachePolicy : option string) : option Z :=
  match cachePolicy with
  | None => None
  | Some ttl =>
      let raw := TrimSpace ttl in
      if decide (raw = "") then None else
      match ParseDuration raw with
      | Some d => if d <=? 0 then None else Some d
      | None => None
      end
  end.

Fixpoint project_headers (headers : list ProjectedHeader) (values out : gmap string string) : res string (gmap string string) :=
  match headers with
  | [] => Ok out
  | h :: rest =>
      let name := TrimSpace (ph_Name h) in
      if decide (name = "") then Err "projected header name is required" else
      match renderValueTemplate (ph_ValueTemplate h) values with
      | None => Err "render projected header"
      | Some rendered => project_headers rest values (<[name := rendered]> out)
      end
  end.

Definition projectHTTPHeaders (headers : list ProjectedHeader) (values : gmap string string) : res string (gmap string string) :=
  project_headers headers values ∅.

(** The result of a provider that is asked at time [now]. *)
Definition with_ttl (b : CredentialBinding) (defaultTTL now : Z) (make : option Z -> ResolveResponse) : ResolveResult :=
  let ttl := default defaultTTL (parseBindingTTL (cb_CachePolicy b)) in
  mkResult_ (make (Some (now + ttl))) ttl.

Definition staticHeadersProvider (req : ResolveRequest) (b : CredentialBinding) (source : CredentialSourceVersion)
    (defaultTTL now : Z) : res string ResolveResult :=
  match ss_StaticHeaders (sv_Spec source), pj_HTTPHeaders (cb_Projection b) with
  | None, _ => Err "static_headers source spec is required"
  | Some values, projection =>
      match projection with
      | Some headers =>
          if decide (pj_Type (cb_Projection b) <> CredentialProjectionTypeHTTPHeaders) then Err "http_headers projection is required" else
          let? headers := projectHTTPHeaders headers values in
          Ok (with_ttl b defaultTTL now (NewHTTPHeadersResolveResponse (qr_AuthRef req) headers))
      | None => Err "http_headers projection is required"
      end
  end.

Definition staticTLSClientCertificateProvider (req : ResolveRequest) (b : CredentialBinding) (source : CredentialSourceVersion)
    (defaultTTL now : Z) : res string ResolveResult :=
  match ss_StaticTLSClientCertificate (sv_Spec source) with
  | None => Err "static_tls_client_certificate source spec is required"
  | Some spec =>
      if decide (pj_Type (cb_Projection b) <> CredentialProjectionTypeTLSClientCertificate \/ pj_TLSClientCertificate (cb_Projection b) = None)
      then Err "tls_client_certificate projection is required"
      else Ok (with_ttl b defaultTTL now (NewTLSClientCertificateResolveResponse (qr_AuthRef req) (Some spec)))
  end.

Definition staticUsernamePasswordProvider (req : ResolveRequest) (b : CredentialBinding) (source : CredentialSourceVersion)
    (defaultTTL now : Z) : res string ResolveResult :=
  match ss_StaticUsernamePassword (sv_Spec source) with
  | None => Err "static_username_password source spec is required"
  | Some spec =>
      if decide (pj_Type (cb_Projection b) <> CredentialProjectionTypeUsernamePassword \/ pj_UsernamePassword (cb_Projection b) = None)
      then Err "username_password projection is required"
      else Ok (with_ttl b defaultTTL now (NewUsernamePasswordResolveResponse (qr_AuthRef req) (Some spec)))
  end.

Definition staticSSHPrivateKeyProvider (req : ResolveRequest) (b : CredentialBinding) (source : CredentialSourceVersion)
    (defaultTTL now : Z) : res string ResolveResult :=
  match ss_StaticSSHPrivateKey (sv_Spec source) with
  | None => Err "static_ssh_private_key source spec is required"
  | Some (key, passphrase) =>
      match pj_SSHProxy (cb_Projection b) with
      | Some p =>
          if decide (pj_Type (cb_Projection b) <> CredentialProjectionTypeSSHProxy) then Err "ssh_proxy projection is required"
          else Ok (with_ttl b defaultTTL now (NewSSHProxyResolveResponse (qr_AuthRef req)
                 (Some (mkSSHDirective (sj_SandboxPublicKeys p) (sj_UpstreamUsername p) key passphrase (sj_KnownHosts p)))))
      | None => Err "ssh_proxy projection is required"
      end
  end.

(** ** runtime/service.go *)

Context `{UC : UnicodeCase}.

Record StaticAuthConfig := mkStaticAuth { sa_AuthRef : string; sa_Headers : gmap string string; sa_TTL : Z }.

Record Service := mkService { sc_defaultTTL : Z; sc_staticAuth : gmap string StaticAuthConfig; sc_resolveCache : resultCache }.

Definition defaultResolveTTL : Z := 300 * 1000000000.

Fixpoint build_static (entries : list StaticAuthConfig) (out : gmap string StaticAuthConfig) : gmap string StaticAuthConfig :=
  match entries with
  | [] => out
  | entry :: rest =>
      let authRef := TrimSpace (sa_AuthRef entry) in
      if decide (authRef = "") then build_static rest out else
      let ttl := if sa_TTL entry <=? 0 then defaultResolveTTL else sa_TTL entry in
      build_static rest (<[authRef := mkStaticAuth authRef (sa_Headers entry) ttl]> out)
  end.
Definition buildStaticAuthMap (entries : list StaticAuthConfig) : gmap string StaticAuthConfig := build_static entries ∅.

Definition NewService (defaultTTL : Z) (staticAuth : list StaticAuthConfig) : Service :=
  mkService (if defaultTTL <=? 0 then defaultResolveTTL else defaultTTL) (buildStaticAuthMap staticAuth) (newResultCache 2048).

(** The providers [NewService] registers. *)
Definition provider_of (name : string)
    : option (ResolveRequest -> CredentialBinding -> CredentialSourceVersion -> Z -> Z -> res string ResolveResult) :=
  if decide (name = "static_headers") then Some staticHeadersProvider else
  if decide (name = "static_tls_client_certificate") then Some staticTLSClientCertificateProvider else
  if decide (name = "static_username_password") then Some staticUsernamePasswordProvider else
  if decide (name = "static_ssh_private_key") then Some staticSSHPrivateKeyProvider else None.

Definition nul : string := String Ascii.zero "".

(** [strings.Join(parts, "\x00")] *)
Fixpoint join_nul (parts : list string) : string :=
  match parts with
  | [] => ""
  | [p] => p
  | p :: rest => p +:+ nul +:+ join_nul rest
  end.

Definition bindingCacheKey (req : ResolveRequest) (b : CredentialBinding) (updatedAt : Z) : string :=
  join_nul ["binding"; TrimSpace (qr_TeamID req); TrimSpace (qr_SandboxID req); TrimSpace (qr_AuthRef req); cb_SourceRef b;
    show_int (cb_SourceID b); show_int (cb_SourceVersion b); Format_RFC3339Nano updatedAt;
    ToLower (TrimSpace (qr_Destination req)); show_int (qr_DestinationPort req); ToLower (TrimSpace (qr_Transport req));
    ToLower (TrimSpace (qr_Protocol req)); TrimSpace (qr_RuleName req)].

Definition staticCacheKey (req : ResolveRequest) : string :=
  join_nul ["static"; TrimSpace (qr_AuthRef req); TrimSpace (qr_SandboxID req);
    ToLower (TrimSpace (qr_Destination req)); show_int (qr_DestinationPort req); ToLower (TrimSpace (qr_Transport req));
    ToLower (TrimSpace (qr_Protocol req)); TrimSpace (qr_RuleName req)].

(** The first binding with the reference, and when the record was updated. *)
Definition lookupBinding (store : BindingStore) (req : ResolveRequest) : option (CredentialBinding * Z) :=
  if bool_decide (TrimSpace (qr_TeamID req) = "") || bool_decide (TrimSpace (qr_SandboxID req) = "") then None else
  match GetBindings store (qr_TeamID req) (qr_SandboxID req) with
  | Ok (Some record) =>
      match find (fun b => bool_decide (TrimSpace (cb_Ref b) = TrimSpace (qr_AuthRef req))) (br_Bindings record) with
      | Some b => Some (b, br_UpdatedAt record)
      | None => None
      end
  | _ => None
  end.

Definition set_cache (s : Service) (c : resultCache) : Service := mkService (sc_defaultTTL s) (sc_staticAuth s) c.

(** The cache is looked at at time [now], the provider asked at [later]. *)
Definition resolveBinding (now later : Z) (store : BindingStore) (req : ResolveRequest) (b : CredentialBinding) (updatedAt : Z)
    : ST string Service ResolveResponse := fun s =>
  let cacheKey := bindingCacheKey req b updatedAt in
  match result_Get cacheKey now (sc_resolveCache s) with
  | (Some response, c) => (Ok response, set_cache s c)
  | (None, c) =>
      let s := set_cache s c in
      match GetSourceVersion store (cb_SourceID b) (cb_SourceVersion b) with
      | Panic => (Panic, s)
      | Err e => (Err e, s)
      | Ok None => (Err "credential source version not found", s)
      | Ok (Some sourceVersion) =>
          match provider_of (ToLower (TrimSpace (sv_ResolverKind sourceVersion))) with
          | None => (Err "credential binding provider is not supported", s)
          | Some provider =>
              match provider req b sourceVersion (sc_defaultTTL s) later with
              | Panic => (Panic, s)
              | Err e => (Err e, s)
              | Ok result =>
                  let cacheTTL := match rr_ExpiresAt (rl_Response result) with
                                  | Some t => if rl_TTL result <=? 0 then t - later else rl_TTL result
                                  | None => rl_TTL result
                                  end in
                  (Ok (CloneResolveResponse (rl_Response result)),
                   set_cache s (result_Set cacheKey (rl_Response result) cacheTTL now (sc_resolveCache s)))
              end
          end
      end
  end.

Definition resolveStatic (now : Z) (req : ResolveRequest) : ST string Service ResolveResponse := fun s =>
  match sc_staticAuth s !! TrimSpace (qr_AuthRef req) with
  | None => (Err "authRef not found", s)
  | Some entry =>
      let cacheKey := staticCacheKey req in
      match result_Get cacheKey now (sc_resolveCache s) with
      | (Some response, c) => (Ok response, set_cache s c)
      | (None, c) =>
          let response := NewHTTPHeadersResolveResponse (sa_AuthRef entry) (sa_Headers entry) (Some (now + sa_TTL entry)) in
          (Ok response, set_cache s (result_Set cacheKey response (sa_TTL entry) now c))
      end
  end.

Definition broker_Resolve (now later : Z) (store : BindingStore) (req : ResolveRequest) : ST string Service ResolveResponse :=
  if decide (TrimSpace (qr_AuthRef req) = "") then throw "authRef is required" else
  match lookupBinding store req with
  | Some (b, updatedAt) => resolveBinding now later store req b updatedAt
  | None => resolveStatic now req
  end.

End runtime.
