(* ===== verification/BrokerSpec.v ===== *)
(** * Runtime resolution of egress credentials: what is shown of it

    Whatever was resolved before and however bindings and sources have changed since, the
    material a sandbox gets is built from the source version its own current binding names,
    and has not expired; the cache keeps within its bound. *)

From stdpp Require Import base gmap strings list fin_maps numbers.
From Stdlib Require Import Strings.Byte Strings.Ascii.
From S2P Require Import Prelude GoStd GoNet Policy PolicyEval PolicySpec Classifier ClassifierSpec ClassifierTls Proxy ProxySpec EgressAuth EgressAuthSpec CredentialProxy CredentialMqtt CredentialSpec Broker.

Local Open Scope Z_scope.

(** ** Cache keys *)

Fixpoint nul_free (s : string) : Prop :=
  match s with
  | EmptyString => True
  | String a s => a <> Ascii.zero /\ nul_free s
  end.

Lemma nul_app x : nul +:+ x = String Ascii.zero x.
Proof. done. Qed.

Lemma nul_cut p q x y : nul_free p -> nul_free q -> p +:+ nul +:+ x = q +:+ nul +:+ y -> p = q /\ x = y.
Proof.
  rewrite !nul_app. revert q. induction p as [|a p IH]; intros [|b q] Hp Hq H; cbn in *.
  - by injection H as H.
  - injection H as <- _. by destruct Hq.
  - injection H as -> _. by destruct Hp.
  - injection H as -> H. destruct (IH q) as [-> ->]; tauto.
Qed.

(** Keys that agree agree on every part before the last ones. *)
Lemma join_inj ps qs x y xs ys :
  Forall nul_free ps -> Forall nul_free qs -> length ps = length qs ->
  join_nul (ps ++ x :: xs) = join_nul (qs ++ y :: ys) -> ps = qs.
Proof.
  intros Hp. revert qs. induction Hp as [|p ps Hpn _ IH]; intros [|q qs] Hq Hl H; try done. inversion Hq as [|? ? Hqn Hqs]; subst.
  assert (Hcons : forall p (ps : list string) z zs, join_nul ((p :: ps) ++ z :: zs) = p +:+ nul +:+ join_nul (ps ++ z :: zs))
    by (intros ? [|] ? ?; done).
  rewrite !Hcons in H. apply nul_cut in H as [-> H]; [|done..]. f_equal. apply IH; auto.
Qed.

(** ** Numbers in keys *)

Lemma show_dec_inj n m : 0 <= n < 10 ^ 20 -> 0 <= m < 10 ^ 20 -> show_dec n = show_dec m -> n = m.
Proof.
  intros Hn Hm H. assert (Hv : forall k, 0 <= k < 10 ^ 20 -> atoi_digits (raw (show_dec k)) 0 = Some k).
  { intros k Hk. unfold show_dec. by rewrite atoi_show by lia. }
  pose proof (Hv n Hn) as H1. rewrite H, (Hv m Hm) in H1. by injection H1.
Qed.

Lemma digits_nul_free s : Forall (fun b => isDigitByte b = true) (raw s) -> nul_free s.
Proof.
  induction s as [|a s IH]; [done|]. rewrite raw_cons. intros H. split; [|apply IH; by inversion H].
  intros ->. by apply Forall_inv in H.
Qed.

Definition is_int64 (n : Z) : Prop := - 2 ^ 63 <= n < 2 ^ 63.

Lemma show_int_nul_free n : nul_free (show_int n).
Proof.
  unfold show_int. destruct (Z.ltb_spec n 0); [split; [done|]|]; apply digits_nul_free;
    (apply show_digits; [lia|constructor|lia]).
Qed.

Lemma show_int_inj n m : is_int64 n -> is_int64 m -> show_int n = show_int m -> n = m.
Proof.
  unfold is_int64, show_int. intros Hn Hm.
  assert (Hneg : forall k s, 0 <= k -> show_dec k <> String "-" s).
  { intros k s Hk H. destruct (show_digits 20 k "" Hk ltac:(constructor) ltac:(lia)) as [_ Hd]. unfold show_dec in H.
    rewrite H, raw_cons in Hd. by apply Forall_inv in Hd. }
  destruct (Z.ltb_spec n 0), (Z.ltb_spec m 0); intros He.
  - injection He as He. apply show_dec_inj in He; lia.
  - by apply eq_sym, Hneg in He; [|lia].
  - by apply Hneg in He; [|lia].
  - apply show_dec_inj in He; lia.
Qed.

(** ** The cache *)

(** Documented behaviour of the format: a time of the years 1 to 9999 is written without
    loss, in printable characters. *)
Definition time_ok (t : Z) : Prop := zero_time <= t < 253402300800 * 1000000000.
Class FormatLaws `{RL : RuntimeLib} : Prop := {
  format_inj : forall t u, time_ok t -> time_ok u -> Format_RFC3339Nano t = Format_RFC3339Nano u -> t = u;
  format_nul_free : forall t, nul_free (Format_RFC3339Nano t)
}.
(** A range over a map that is not empty visits one of its keys first. *)
Class FirstKeyLaws `{FK : FirstKey} : Prop := { first_key_in : forall m, m <> ∅ -> is_Some (m !! first_key m) }.

Section spec.
Context `{FK : FirstKey} `{RL : RuntimeLib} `{UC : UnicodeCase} `{FL : !FormatLaws} `{FKL : !FirstKeyLaws}.

(** A request, with the database of the moment. *)
Record event := mkEvent { ev_now : Z; ev_later : Z; ev_store : BindingStore; ev_req : ResolveRequest }.

Definition step (s : Service) (e : event) : Service := (broker_Resolve (ev_now e) (ev_later e) (ev_store e) (ev_req e) s).2.
Definition run (s : Service) (es : list event) : Service := foldl step s es.

(** Identifiers without NUL, as the platform gives them out, and a clock that does not go back. *)
Definition binding_clean (bu : CredentialBinding * Z) : Prop :=
  nul_free (cb_SourceRef bu.1) /\ is_int64 (cb_SourceID bu.1) /\ is_int64 (cb_SourceVersion bu.1) /\ time_ok bu.2.
Definition clean (e : event) : Prop :=
  nul_free (TrimSpace (qr_TeamID (ev_req e))) /\ nul_free (TrimSpace (qr_SandboxID (ev_req e))) /\
  nul_free (TrimSpace (qr_AuthRef (ev_req e))) /\ zero_time <= ev_now e <= ev_later e /\
  forall bu, lookupBinding (ev_store e) (ev_req e) = Some bu -> binding_clean bu.

(** The result of [e]: what its provider makes of the source version its binding names. *)
Definition provided (ttl : Z) (e : event) (b : CredentialBinding) (u : Z) (result : ResolveResult) : Prop :=
  lookupBinding (ev_store e) (ev_req e) = Some (b, u) /\
  exists source provider,
    GetSourceVersion (ev_store e) (cb_SourceID b) (cb_SourceVersion b) = Ok (Some source) /\
    provider_of (ToLower (TrimSpace (sv_ResolverKind source))) = Some provider /\
    provider (ev_req e) b source ttl (ev_later e) = Ok result.

(** Where an entry of the cache comes from. *)
Definition origin (ttl : Z) (es : list event) (k : string) (c : cacheEntry) : Prop :=
  (exists e b u result, e ∈ es /\ provided ttl e b u result /\ k = bindingCacheKey (ev_req e) b u /\
     ce_response c = CloneResolveResponse (rl_Response result) /\ ce_expiresAt c = ev_now e + rl_TTL result) \/
  (exists e, e ∈ es /\ k = staticCacheKey (ev_req e)).

Definition cache_ok (es : list event) (s : Service) : Prop :=
  0 < sc_defaultTTL s /\ map_Forall (origin (sc_defaultTTL s) es) (rc_entries (sc_resolveCache s)).

Lemma origin_mono ttl es es' k c : es ⊆ es' -> origin ttl es k c -> origin ttl es' k c.
Proof.
  intros Hs [(e & b & u & r & He & H)|(e & He & H)]; [left; exists e, b, u, r; auto|right; exists e; auto].
Qed.

(** A provider's result lives as long as it is cached. *)
Lemma with_ttl_ok ttl b now make r :
  0 < ttl -> (forall t, rr_ExpiresAt (make t) = t) -> with_ttl b ttl now make = r ->
  0 < rl_TTL r /\ rr_ExpiresAt (rl_Response r) = Some (now + rl_TTL r).
Proof.
  intros Ht Hm <-. unfold with_ttl. cbn. rewrite Hm. split; [|done].
  unfold parseBindingTTL. destruct (cb_CachePolicy b); [|done]. destruct (decide _); [done|].
  destruct (ParseDuration _) as [d|]; [|done]. by destruct (Z.leb_spec d 0).
Qed.

Lemma provided_ttl ttl e b u result :
  0 < ttl -> provided ttl e b u result -> 0 < rl_TTL result /\ rr_ExpiresAt (rl_Response result) = Some (ev_later e + rl_TTL result).
Proof.
  intros Ht (_ & source & provider & _ & Hp & Hr). unfold provider_of in Hp.
  repeat (destruct (decide _); [injection Hp as <-|]); [..|done].
  - unfold staticHeadersProvider in Hr. destruct (ss_StaticHeaders _); [|done]. destruct (pj_HTTPHeaders _); [|done].
    destruct (decide _); [done|]. destruct (projectHTTPHeaders _ _); cbn [rbind] in Hr; try done. injection Hr as Hr. by eapply with_ttl_ok; [| |exact Hr].
  - unfold staticTLSClientCertificateProvider in Hr. destruct (ss_StaticTLSClientCertificate _); [|done]. destruct (decide _); [done|].
    injection Hr as Hr. by eapply with_ttl_ok; [| |exact Hr].
  - unfold staticUsernamePasswordProvider in Hr. destruct (ss_StaticUsernamePassword _); [|done]. destruct (decide _); [done|].
    injection Hr as Hr. by eapply with_ttl_ok; [| |exact Hr].
  - unfold staticSSHPrivateKeyProvider in Hr. destruct (ss_StaticSSHPrivateKey _) as [[]|]; [|done]. destruct (pj_SSHProxy _); [|done].
    destruct (decide _); [done|]. injection Hr as Hr. by eapply with_ttl_ok; [| |exact Hr].
Qed.

Lemma result_Get_ok key now c P :
  map_Forall P (rc_entries c) ->
  map_Forall P (rc_entries (result_Get key now c).2) /\
  (forall r, (result_Get key now c).1 = Some r ->
     exists x, P key x /\ r = CloneResolveResponse (ce_response x) /\ entry_expired now x = false).
Proof.
  intros HP. unfold result_Get. destruct (decide _); [done|]. destruct (rc_entries c !! key) as [x|] eqn:E; [|done].
  destruct (entry_expired now x) eqn:Ex; cbn; split; try done.
  - intros k y Hy. apply lookup_delete_Some in Hy as [_ Hy]. by apply HP.
  - intros r [= <-]. exists x. split; [by apply HP|done].
Qed.

Lemma result_Set_ok key response ttl now c P :
  map_Forall P (rc_entries c) -> P key (mkCacheEntry (CloneResolveResponse response) (now + ttl)) ->
  map_Forall P (rc_entries (result_Set key response ttl now c)).
Proof.
  intros HP Hk. unfold result_Set. destruct (_ || _); [done|]. cbn. intros k y Hy.
  apply lookup_insert_Some in Hy as [[<- <-]|[_ Hy]]; [done|]. apply HP.
  assert (Hf : purgeExpiredLocked now (rc_entries c) !! k = Some y -> rc_entries c !! k = Some y)
    by (intros H; by apply map_lookup_filter_Some in H as [H _]).
  destruct (_ <=? _); [|auto]. destruct (decide _); [auto|]. apply lookup_delete_Some in Hy as [_ Hy]. auto.
Qed.

Lemma step_ok es s e : cache_ok es s -> cache_ok (e :: es) (step s e).
Proof.
  intros [Ht HP]. set (P := origin (sc_defaultTTL s) (e :: es)).
  assert (HP' : map_Forall P (rc_entries (sc_resolveCache s))).
  { intros k x Hx. eapply origin_mono; [|by apply HP]. by apply list_subseteq_cons. }
  assert (Hin : e ∈ e :: es) by (by apply elem_of_cons; left).
  unfold step, broker_Resolve. destruct (decide _); [done|]. destruct (lookupBinding _ _) as [[b u]|] eqn:El.
  - unfold resolveBinding. destruct (result_Get_ok (bindingCacheKey (ev_req e) b u) (ev_now e) _ P HP') as [Hg _].
    destruct (result_Get _ _ _) as [[r|] c]; [done|]. cbn [fst snd] in Hg.
    destruct (GetSourceVersion _ _ _) as [[source|]|e'|] eqn:Es; try done.
    destruct (provider_of _) as [provider|] eqn:Ep; [|done].
    destruct (provider _ _ _ _ _) as [result|e'|] eqn:Er; try done. cbn. split; [done|].
    assert (Hpr : provided (sc_defaultTTL s) e b u result) by (split; [done|eauto]).
    destruct (provided_ttl _ _ _ _ _ Ht Hpr) as [Hl He]. rewrite He. destruct (Z.leb_spec (rl_TTL result) 0); [lia|].
    apply result_Set_ok; [done|]. left. exists e, b, u, result. auto.
  - unfold resolveStatic. destruct (sc_staticAuth s !! _) as [entry|]; [|done].
    destruct (result_Get_ok (staticCacheKey (ev_req e)) (ev_now e) _ P HP') as [Hg _].
    destruct (result_Get _ _ _) as [[r|] c]; [done|]. cbn in *. split; [done|].
    apply result_Set_ok; [done|]. right. eauto.
Qed.

Lemma broker_run_ok es es0 s : cache_ok es0 s -> cache_ok (rev es ++ es0) (run s es).
Proof.
  revert es0 s. induction es as [|e es IH]; intros es0 s Hs; [done|]. cbn. rewrite <- app_assoc. by apply (IH (e :: es0)), step_ok.
Qed.

Lemma key_inj r b u r' b' u' :
  nul_free (TrimSpace (qr_TeamID r)) -> nul_free (TrimSpace (qr_SandboxID r)) -> nul_free (TrimSpace (qr_AuthRef r)) ->
  nul_free (TrimSpace (qr_TeamID r')) -> nul_free (TrimSpace (qr_SandboxID r')) -> nul_free (TrimSpace (qr_AuthRef r')) ->
  binding_clean (b, u) -> binding_clean (b', u') -> bindingCacheKey r b u = bindingCacheKey r' b' u' ->
  TrimSpace (qr_TeamID r) = TrimSpace (qr_TeamID r') /\ TrimSpace (qr_SandboxID r) = TrimSpace (qr_SandboxID r') /\
  TrimSpace (qr_AuthRef r) = TrimSpace (qr_AuthRef r') /\ cb_SourceRef b = cb_SourceRef b' /\
  cb_SourceID b = cb_SourceID b' /\ cb_SourceVersion b = cb_SourceVersion b' /\ u = u'.
Proof.
  intros H1 H2 H3 H1' H2' H3' (Hr & Hi & Hv & Hu) (Hr' & Hi' & Hv' & Hu') H. unfold bindingCacheKey in H.
  apply (join_inj ["binding"; _; _; _; _; _; _; _] ["binding"; _; _; _; _; _; _; _]) in H; [|..|done].
  2,3: repeat constructor; try done; auto using show_int_nul_free, format_nul_free.
  injection H as E1 E2 E3 E4 E5 E6 E7. apply show_int_inj in E5; [|done..]. apply show_int_inj in E6; [|done..].
  apply format_inj in E7; [|done..]. auto 10.
Qed.

Lemma binding_key_not_static r b u r' : bindingCacheKey r b u <> staticCacheKey r'.
Proof. intros H. unfold bindingCacheKey, staticCacheKey in H. cbn [join_nul] in H. discriminate H. Qed.

Lemma new_service_ok ttl static : cache_ok [] (NewService ttl static).
Proof. split; [cbn; destruct (Z.leb_spec ttl 0); done|]. apply map_Forall_empty. Qed.

Lemma step_ttl s e : sc_defaultTTL (step s e) = sc_defaultTTL s.
Proof.
  unfold step, broker_Resolve, resolveBinding, resolveStatic.
  destruct (decide _); [done|]. destruct (lookupBinding _ _) as [[b u]|].
  - destruct (result_Get _ _ _) as [[r|] c]; [done|]. destruct (GetSourceVersion _ _ _) as [[source|]|e'|]; try done.
    destruct (provider_of _); [|done]. by destruct (r _ _ _ _ _).
  - destruct (sc_staticAuth s !! _); [|done]. by destruct (result_Get _ _ _) as [[r|] c].
Qed.

Lemma run_ttl s es : sc_defaultTTL (run s es) = sc_defaultTTL s.
Proof. revert s. induction es as [|e es IH]; intros s; [done|]. cbn. by rewrite IH, step_ttl. Qed.

(** The requests are for the same reference of the same sandbox of the same team. *)
Definition same_subject (r r' : ResolveRequest) : Prop :=
  TrimSpace (qr_TeamID r) = TrimSpace (qr_TeamID r') /\ TrimSpace (qr_SandboxID r) = TrimSpace (qr_SandboxID r') /\
  TrimSpace (qr_AuthRef r) = TrimSpace (qr_AuthRef r').
Definition same_source (b b' : CredentialBinding) : Prop :=
  cb_SourceRef b = cb_SourceRef b' /\ cb_SourceID b = cb_SourceID b' /\ cb_SourceVersion b = cb_SourceVersion b'.

(** C15: Credentials come from the sandbox's own binding.  After any requests, over any
    changes of bindings and sources, material for a sandbox that has a binding for the
    reference is what a provider makes of the very source version the binding now names:
    at once, or for an earlier request for the same reference, sandbox and team since the
    record was last updated; and it has not expired. *)
Theorem broker_scoped ttl static es e b u r :
  Forall clean (e :: es) -> lookupBinding (ev_store e) (ev_req e) = Some (b, u) ->
  (broker_Resolve (ev_now e) (ev_later e) (ev_store e) (ev_req e) (run (NewService ttl static) es)).1 = Ok r ->
  exists e0 b0 result, e0 ∈ e :: es /\ provided (sc_defaultTTL (NewService ttl static)) e0 b0 u result /\
    same_subject (ev_req e0) (ev_req e) /\ same_source b0 b /\
    r = CloneResolveResponse (rl_Response result) /\ unexpired (ev_now e) r.
Proof.
  intros Hc El. inversion Hc as [|? ? He Hes]; subst. destruct (broker_run_ok es [] _ (new_service_ok ttl static)) as [Ht HP].
  rewrite run_ttl, app_nil_r in *. set (s := run _ es) in *. set (d := sc_defaultTTL _) in *.
  assert (Hd : sc_defaultTTL s = d) by (unfold s; by rewrite run_ttl).
  unfold broker_Resolve. destruct (decide _); [done|]. rewrite El. unfold resolveBinding.
  destruct (result_Get_ok (bindingCacheKey (ev_req e) b u) (ev_now e) _ _ HP) as [_ Hg].
  destruct (result_Get _ _ _) as [[r0|] c]; cbn [fst snd] in *.
  - intros [= ->]. destruct (Hg r eq_refl) as (x & [(e0 & b0 & u0 & result & Hin & Hpr & Hk & Hx & Hex)|(e0 & _ & Hk)] & -> & Hexp);
      [|by apply binding_key_not_static in Hk].
    assert (Hin' : e0 ∈ es) by (by apply list_elem_of_In; apply in_rev; apply list_elem_of_In).
    rewrite Forall_forall in Hes. destruct (Hes e0) as (C1 & C2 & C3 & C4 & C5); [by apply list_elem_of_In|].
    destruct He as (D1 & D2 & D3 & D4 & D5). pose proof (proj1 Hpr) as El0.
    destruct (key_inj _ _ _ _ _ _ D1 D2 D3 C1 C2 C3 (D5 _ El) (C5 _ El0) Hk) as (T1 & T2 & T3 & S1 & S2 & S3 & <-).
    destruct (provided_ttl _ _ _ _ _ Ht Hpr) as [Hl Hr].
    exists e0, b0, result. split; [by apply elem_of_cons; right|]. split; [done|]. split; [done|]. split; [done|].
    rewrite Hx, clone_clone. split; [done|]. unfold unexpired. cbn. rewrite Hr.
    unfold entry_expired in Hexp. rewrite Hex in Hexp. destruct (Z.eqb_spec (ev_now e0 + rl_TTL result) zero_time); [lia|].
    cbn [negb andb] in Hexp. lia.
  - destruct (GetSourceVersion _ _ _) as [[source|]|e'|] eqn:Es; try done. destruct (provider_of _) as [provider|] eqn:Ep; [|done].
    cbn [sc_defaultTTL set_cache]. rewrite Hd.
    destruct (provider _ _ _ _ _) as [result|e'|] eqn:Er; try done. intros [= <-].
    assert (Hpr : provided d e b u result) by (split; [done|eauto]). destruct (provided_ttl _ _ _ _ _ Ht Hpr) as [Hl Hr].
    exists e, b, result. split; [by apply elem_of_cons; left|]. split_and!; try done. unfold unexpired. cbn. rewrite Hr.
    destruct He as (_ & _ & _ & D4 & _). lia.
Qed.

(** ** The bound of the cache *)

Definition within (c : resultCache) : Prop := 0 < rc_maxEntries c /\ Z.of_nat (size (rc_entries c)) <= rc_maxEntries c.

Lemma size_filter_le (P : string * cacheEntry -> Prop) `{!forall x, Decision (P x)} (m : gmap string cacheEntry) : (size (filter P m) <= size m)%nat.
Proof. apply map_subseteq_size, map_filter_subseteq. Qed.

Lemma result_Set_within key response ttl now c : within c -> within (result_Set key response ttl now c).
Proof.
  intros [Hm Hs]. unfold result_Set. destruct (_ || _); [done|]. split; [done|]. cbn [rc_entries rc_maxEntries].
  set (entries := purgeExpiredLocked now (rc_entries c)).
  assert (Hp : (size entries <= size (rc_entries c))%nat) by apply size_filter_le.
  destruct (Z.leb_spec (rc_maxEntries c) (Z.of_nat (size entries))) as [Hfull|Hfree].
  - destruct (decide (entries = ∅)) as [He|He]; [rewrite He, map_size_empty in Hfull; lia|].
    destruct (first_key_in entries He) as [x Hx].
    pose proof (map_size_insert key (mkCacheEntry (CloneResolveResponse response) (now + ttl)) (delete (first_key entries) entries)) as Hi.
    rewrite Hi, map_size_delete, Hx. pose proof (map_size_non_empty_iff entries) as Hne.
    assert (size entries <> 0%nat) by (by apply Hne). destruct (delete _ _ !! key); unfold id; lia.
  - rewrite map_size_insert. destruct (entries !! key); unfold id; lia.
Qed.

(** However many requests are answered, at most 2048 results are kept. *)
Lemma broker_cache_bounded ttl static es : within (sc_resolveCache (run (NewService ttl static) es)).
Proof.
  assert (Hget : forall key now c, within c -> within (result_Get key now c).2).
  { intros key now c [Hm Hs]. unfold result_Get. destruct (decide _); [done|]. destruct (rc_entries c !! key) as [x|] eqn:E; [|done].
    destruct (entry_expired now x); [|done]. split; [done|]. cbn. rewrite map_size_delete, E. lia. }
  assert (Hstep : forall s e, within (sc_resolveCache s) -> within (sc_resolveCache (step s e))).
  { intros s e Hw. unfold step, broker_Resolve, resolveBinding, resolveStatic. destruct (decide _); [done|].
    destruct (lookupBinding _ _) as [[b u]|]; [|destruct (sc_staticAuth s !! _) as [entry|]; [|done]];
      (pose proof (Hget (staticCacheKey (ev_req e)) (ev_now e) _ Hw) as H1).
    - pose proof (Hget (bindingCacheKey (ev_req e) b u) (ev_now e) _ Hw) as H2.
      destruct (result_Get (bindingCacheKey _ _ _) _ _) as [[r|] c]; [done|].
      destruct (GetSourceVersion _ _ _) as [[source|]|e'|]; try done. destruct (provider_of _) as [provider|]; [|done].
      destruct (provider _ _ _ _ _); try done. cbn. by apply result_Set_within.
    - destruct (result_Get _ _ _) as [[r|] c]; [done|]. cbn. by apply result_Set_within. }
  assert (H0 : within (sc_resolveCache (NewService ttl static))) by done. revert H0. generalize (NewService ttl static).
  induction es as [|e es IH]; intros s Hs; [done|]. apply IH. by apply Hstep.
Qed.

End spec.

(** ** Example *)

Fixpoint bits (p : positive) : string :=
  match p with xH => "1" | xO p => String "0" (bits p) | xI p => String "1" (bits p) end.
Definition write_time (t : Z) : string :=
  match t with Z0 => "0" | Zpos p => String "+" (bits p) | Zneg p => String "-" (bits p) end.

#[export] Instance demo_keys : FirstKey := {| first_key m := default "" (fst <$> head (map_to_list m)) |}.
#[export] Instance demo_lib : RuntimeLib :=
  {| ParseDuration := fun _ => None; renderValueTemplate := fun t values => values !! t; Format_RFC3339Nano := write_time |}.

Lemma bits_inj p q : bits p = bits q -> p = q.
Proof.
  assert (Hne : forall p, bits p <> "") by (by intros []).
  revert q. induction p as [p IH|p IH|]; intros [q|q|] H; cbn in H; try done; injection H as H;
    [f_equal; by apply IH|by apply Hne in H|f_equal; by apply IH|by apply eq_sym, Hne in H].
Qed.

#[export] Instance demo_format : FormatLaws.
Proof.
  split.
  - intros t u _ _. destruct t, u; cbn; try done; intros H; injection H as H; apply bits_inj in H; by subst.
  - assert (Hb : forall p, nul_free (bits p)) by (induction p; cbn; auto).
    intros []; cbn; auto.
Qed.

#[export] Instance demo_first : FirstKeyLaws.
Proof.
  split. intros m Hm. cbn. destruct (map_to_list m) as [|[k x] l] eqn:E; [by apply map_to_list_empty_iff in E|].
  exists x. cbn. apply elem_of_map_to_list. rewrite E. by apply elem_of_cons; left.
Qed.

Definition github_binding : CredentialBinding :=
  mkBinding "github" "github-token" 7 2 (mkProjection CredentialProjectionTypeHTTPHeaders
    (Some [mkProjectedHeader "Authorization" "token"]) None None None) None.
Definition github_store : BindingStore := mkBindingStore
  (fun team sandbox => if decide (team = "team-1" /\ sandbox = "sb-1") then Ok (Some (mkBindingRecord [github_binding] 5)) else Ok None)
  (fun id version => if decide (id = 7 /\ version = 2)
                     then Ok (Some (mkSourceVersion 7 2 "static_headers" (mkSecretSpec (Some {["token" := "Bearer secret"]}) None None None)))
                     else Ok None).
Definition github_event (now : Z) : event :=
  mkEvent now (now + 1) github_store (mkResolveRequest "sb-1" "team-1" "github" "rule" "api.github.com" 443 "tcp" "tls").

Lemma github_clean now : 0 <= now -> clean (github_event now).
Proof.
  intros Hn. split_and!; [vm_compute; repeat split; intros ?; discriminate..|unfold zero_time; cbn; lia|cbn; lia|].
  intros bu H. vm_compute in H. injection H as <-. split_and!; vm_compute; repeat split; intros ?; discriminate.
Qed.

(** The second request is answered from the cache. *)
Lemma broker_scoped_witness :
  exists e0 b0 result, e0 ∈ [github_event 11; github_event 10] /\
    provided (UC := no_unicode) defaultResolveTTL e0 b0 5 result /\ same_source b0 github_binding.
Proof.
  destruct (broker_scoped (UC := no_unicode) 0 [] [github_event 10] (github_event 11) github_binding 5
    (NewHTTPHeadersResolveResponse "github" {["Authorization" := "Bearer secret"]} (Some (11 + defaultResolveTTL))))
    as (e0 & b0 & result & Hin & Hp & _ & Hs & _).
  - constructor; [apply github_clean; lia|]. constructor; [apply github_clean; lia|constructor].
  - reflexivity.
  - vm_compute. reflexivity.
  - exists e0, b0, result. split; [exact Hin|]. split; [exact Hp|exact Hs].
Defined.

(** When the bindings cannot be loaded the credentials of the configuration are used. *)
Lemma store_error_falls_back :
  let store := mkBindingStore (fun _ _ => Err "connection refused") (fun _ _ => Err "connection refused") in
  let service := NewService 0 [mkStaticAuth "github" {["Authorization" := "Bearer operator"]} 10] in
  (broker_Resolve (UC := no_unicode) 0 0 store (ev_req (github_event 0)) service).1 =
  Ok (NewHTTPHeadersResolveResponse "github" {["Authorization" := "Bearer operator"]} (Some 10)).
Proof. vm_compute. reflexivity. Qed.
