(* ===== verification/KubeNames.v ===== *)
(** * Names of Kubernetes resources, exposure hosts and team images (pkg/naming)

    core.go, parse.go, replicaset.go, template.go, resources.go and image.go: a sandbox's
    name carries its cluster's ID in base32, names that do not fit a DNS label are shortened
    with a hash, and the image references of a team are checked against its prefix.

    [IsDNS1123Label] of the Kubernetes validation package and SHA-1 are parameters.  A loop
    over the runes of a string writes one dash for a run of runes that are not letters or
    digits; the model loops over the bytes, which gives the same text because every byte of
    a rune above 127 is such a byte. *)

From stdpp Require Import base strings list numbers.
From Stdlib Require Import Strings.Byte Strings.Ascii.
From S2P Require Import Prelude GoStd GoNet GoText Policy PolicyEval Classifier CredentialProxy.

Local Open Scope Z_scope.

Class KubeValidation := { IsDNS1123Label : string -> bool }.
Class Sha1 := { sha1_Sum : string -> list byte }.

(** ** core.go *)

Definition dnsLabelMaxLen : Z := 63.
Definition podRandSuffixLen : Z := 5.
Definition exposurePortDelimiter : string := "--p".
Definition maxPortDigits : Z := 5.
Definition slen (s : string) : Z := Z.of_nat (String.length s).
Definition sandboxNameMaxLen : Z := dnsLabelMaxLen - slen exposurePortDelimiter - maxPortDigits.
Definition replicaSetMaxLen : Z := sandboxNameMaxLen - 1 - podRandSuffixLen.
Definition defaultClusterID : string := "default".
Definition nameHashLength : Z := 8.
Definition clusterKeyMaxLen : Z := 32.
Definition clusterIDMaxLen : Z := 20.
Definition sandboxNamePrefix : string := "rs".

Definition ClusterIDOrDefault (clusterID : option string) : string :=
  match clusterID with
  | Some id => if bool_decide (id = "") then defaultClusterID else id
  | None => defaultClusterID
  end.

Section core.
  Context `{KubeValidation, Sha1, UnicodeCase, UnicodeUpper}.

Definition validateDNSLabel (name : string) : res string unit :=
  if IsDNS1123Label name then Ok tt else Err "invalid DNS-1123 label".

Definition ValidateClusterID (clusterID : string) : res string unit :=
  if bool_decide (clusterID = "") then Err "clusterID is required" else
  if clusterIDMaxLen <? slen clusterID then Err "clusterID is too long" else
  validateDNSLabel clusterID.

Definition label_alnum (a : ascii) : bool := between 97 122 (code a) || between 48 57 (code a).

Fixpoint write_label (s : string) (prevDash : bool) : string :=
  match s with
  | EmptyString => ""
  | String r rest =>
      if label_alnum r then String r (write_label rest false)
      else if prevDash then write_label rest true
      else String "-" (write_label rest true)
  end.

Definition normalizeToDNSLabel (input : string) : res string string :=
  if bool_decide (input = "") then Err "input is empty" else
  let out := Trim (write_label (ToLower input) false) "-" in
  if bool_decide (out = "") then Err "normalized to empty label" else Ok out.

(** [s[:n]], a panic when [n] is out of range. *)
Definition str_prefix (s : string) (n : Z) : res string string :=
  if (n <? 0) || (slen s <? n) then Panic else Ok (str_take (Z.to_nat n) s).

Definition shortHash (input : string) : res string string :=
  str_prefix (hex_EncodeToString (sha1_Sum input)) nameHashLength.

Definition truncateWithHash (base hashInput : string) (maxLen : Z) : res string string :=
  let? hash := shortHash hashInput in
  if maxLen <=? slen hash then str_prefix hash maxLen else
  let cut := maxLen - slen hash - 1 in
  if cut <=? 0 then Ok hash else
  let cut := if slen base <? cut then slen base else cut in
  let? head := str_prefix base cut in
  Ok (head +:+ "-" +:+ hash).

Definition slugWithHash (input : string) (maxLen : Z) : res string string :=
  if maxLen <=? 0 then Err "maxLen must be > 0" else
  let? slug := normalizeToDNSLabel input in
  let normalized := ToLower input in
  let changed := negb (bool_decide (slug = normalized)) in
  let? slug := if (maxLen <? slen slug) || changed then truncateWithHash slug input maxLen else Ok slug in
  let? _ := validateDNSLabel slug in
  if maxLen <? slen slug then Err "generated label exceeds max length" else Ok slug.

Definition encodeClusterID (clusterID : string) : res string string :=
  let? _ := ValidateClusterID clusterID in
  let encoded := ToLower (b32_EncodeToString clusterID) in
  if clusterKeyMaxLen <? slen encoded then Err "clusterID is too long to encode" else
  let? _ := validateDNSLabel encoded in
  Ok encoded.

Definition decodeClusterKey (clusterKey : string) : res string string :=
  if bool_decide (clusterKey = "") then Err "cluster key is empty" else
  match b32_DecodeString (ToUpper clusterKey) with
  | None => Err "decode cluster key"
  | Some data => Ok data
  end.

(** ** parse.go *)

Record ParsedSandboxName := mkParsed { ps_ClusterID : string; ps_ClusterKey : string }.

(** [strings.SplitN(rest, "-", 2)]: what is before the first dash, when there is one. *)
Definition extractClusterKey (name prefix : string) : res string string :=
  if bool_decide (name = "") then Err "name is empty" else
  let expected := prefix +:+ "-" in
  if negb (HasPrefix name expected) then Err "name does not start with the prefix" else
  let rest := TrimPrefix name expected in
  match Index_byte rest "-" with
  | None => Err "name does not include cluster key"
  | Some n => let key := str_take n rest in
              if bool_decide (key = "") then Err "name does not include cluster key" else Ok key
  end.

Definition ParseSandboxName (name : string) : res string ParsedSandboxName :=
  let? clusterKey := extractClusterKey name sandboxNamePrefix in
  let? clusterID := decodeClusterKey clusterKey in
  Ok (mkParsed clusterID clusterKey).

Definition ParseReplicasetName (name : string) : res string ParsedSandboxName :=
  let? clusterKey := extractClusterKey name sandboxNamePrefix in
  let? clusterID := decodeClusterKey clusterKey in
  Ok (mkParsed clusterID clusterKey).

Definition BuildExposureHostLabel (sandboxName : string) (port : Z) : res string string :=
  if bool_decide (sandboxName = "") then Err "sandboxName is empty" else
  let? _ := validateDNSLabel sandboxName in
  if (port <=? 0) || (65535 <? port) then Err "invalid port" else
  let label := sandboxName +:+ exposurePortDelimiter +:+ show_dec port in
  if dnsLabelMaxLen <? slen label then Err "exposure label too long" else
  let? _ := validateDNSLabel label in
  Ok label.

Definition ParseExposureHostLabel (label : string) : res string (string * Z) :=
  if bool_decide (label = "") then Err "label is empty" else
  match LastIndex label exposurePortDelimiter with
  | None | Some O => Err "invalid exposure label: missing delimiter"
  | Some idx =>
      let sandboxName := str_take idx label in
      let? _ := validateDNSLabel sandboxName in
      let portStr := str_from (idx + String.length exposurePortDelimiter) label in
      if bool_decide (portStr = "") then Err "invalid exposure label: empty port" else
      match Atoi (raw portStr) with
      | None => Err "invalid port in exposure label"
      | Some port => if (port <=? 0) || (65535 <? port) then Err "invalid port in exposure label" else Ok (sandboxName, port)
      end
  end.

(** ** replicaset.go *)

Definition ProcdConfigSecretName (clusterID templateName : string) : res string string :=
  let? clusterKey := encodeClusterID clusterID in
  slugWithHash ("procd-secret-" +:+ clusterKey +:+ "-" +:+ templateName) dnsLabelMaxLen.

Definition ReplicasetName (clusterID templateName : string) : res string string :=
  let? clusterKey := encodeClusterID clusterID in
  let prefix := sandboxNamePrefix +:+ "-" +:+ clusterKey +:+ "-" in
  let remaining := replicaSetMaxLen - slen prefix in
  if remaining <=? 0 then Err "cluster key too long to build replicaset name" else
  let? templateKey := slugWithHash templateName remaining in
  let name := prefix +:+ templateKey in
  let? _ := validateDNSLabel name in
  Ok name.

Definition SandboxName (clusterID templateName randSuffix : string) : res string string :=
  if bool_decide (randSuffix = "") then Err "randSuffix is empty" else
  if Contains_str randSuffix "-" then Err "randSuffix cannot contain hyphens" else
  if podRandSuffixLen <? slen randSuffix then Err "randSuffix is too long" else
  let? rsName := ReplicasetName clusterID templateName in
  let name := rsName +:+ "-" +:+ randSuffix in
  let? _ := validateDNSLabel name in
  if sandboxNameMaxLen <? slen name then Err "sandbox name too long for exposure routing" else Ok name.

Definition CheckTemplateName (clusterID templateName : string) : res string unit :=
  let? _ := ReplicasetName clusterID templateName in Ok tt.

(** ** template.go *)

Definition ScopeTeam : string := "team".

Definition TeamKey (teamID : string) : res string string := shortHash teamID.

(** What is returned when [slugWithHash] fails; a panic stays one. *)
Definition or_fallback (r : res string string) (fallback : res string string) : res string string :=
  match r with Ok name => Ok name | Err _ => fallback | Panic => Panic end.

Definition TemplateNameForCluster (scope teamID templateID : string) : res string string :=
  let templateID := ToLower templateID in
  if negb (bool_decide (scope = ScopeTeam)) then
    or_fallback (slugWithHash templateID dnsLabelMaxLen) (let? h := shortHash templateID in Ok ("tpl-" +:+ h))
  else
    let? teamKey := TeamKey teamID in
    let prefix := "t-" +:+ teamKey +:+ "-" in
    let remaining := dnsLabelMaxLen - slen prefix in
    let fallback := let? h := shortHash templateID in Ok (prefix +:+ h) in
    if remaining <=? 0 then fallback else
    or_fallback (let? name := slugWithHash templateID remaining in Ok (prefix +:+ name)) fallback.

Definition CanonicalTemplateID (templateID : string) : res string string :=
  let trimmed := TrimSpace templateID in
  if bool_decide (trimmed = "") then Err "template_id is required" else
  if 255 <? slen trimmed then Err "template_id is too long" else
  if Contains_str trimmed "/" then Err "template_id cannot contain '/'" else
  Ok (ToLower trimmed).

Definition ValidateTemplateID (templateID : string) : res string unit :=
  let? _ := CanonicalTemplateID templateID in Ok tt.

Definition TemplateNamespaceForBuiltin (templateID : string) : res string string :=
  let? canonical := CanonicalTemplateID templateID in
  let prefix := "tpl-" in
  let remaining := dnsLabelMaxLen - slen prefix in
  if remaining <=? 0 then Err "builtin template namespace prefix too long" else
  let? slug := slugWithHash canonical remaining in
  let name := prefix +:+ slug in
  let? _ := validateDNSLabel name in
  Ok name.

Definition TemplateNamespaceForTeam (teamID : string) : res string string :=
  let trimmed := TrimSpace teamID in
  if bool_decide (trimmed = "") then Err "team_id is required" else
  let? key := TeamKey trimmed in
  let name := "t-" +:+ key in
  let? _ := validateDNSLabel name in
  Ok name.

(** ** resources.go *)

Definition TeamName (teamID : string) : res string string := slugWithHash ("team-" +:+ teamID) dnsLabelMaxLen.
Definition UserName (userID : string) : res string string := slugWithHash ("user-" +:+ userID) dnsLabelMaxLen.

Definition ClusterName (clusterID : string) : res string string :=
  let? key := encodeClusterID clusterID in
  slugWithHash ("cluster-" +:+ key) dnsLabelMaxLen.

Definition ValidateClusterName (name : string) : res string unit :=
  let trimmed := TrimSpace name in
  if bool_decide (trimmed = "") then Err "cluster_name is required" else
  if 255 <? slen trimmed then Err "cluster_name is too long" else
  if Contains_str trimmed "/" then Err "cluster_name cannot contain '/'" else Ok tt.

Definition ClusterIDFromName (name : string) : res string string :=
  let? _ := ValidateClusterName name in
  slugWithHash name clusterIDMaxLen.

Definition VolumeName (teamID volumeID : string) : res string string :=
  slugWithHash ("vol-" +:+ teamID +:+ "-" +:+ volumeID) dnsLabelMaxLen.

Definition SnapshotName (volumeID snapshotID : string) : res string string :=
  slugWithHash ("snap-" +:+ volumeID +:+ "-" +:+ snapshotID) dnsLabelMaxLen.

(** ** image.go *)

Definition NormalizeRegistryHost (raw_ : string) : string :=
  Trim (TrimPrefix (TrimPrefix (TrimSpace raw_) "https://") "http://") "/".

Definition TeamImageRepositoryPrefix (teamID : string) : res string string :=
  let trimmed := TrimSpace teamID in
  if bool_decide (trimmed = "") then Ok "" else
  let? key := TeamKey trimmed in Ok ("t-" +:+ key).

Definition TeamScopedImageRegistry (registryHost teamID : string) : res string string :=
  let host := NormalizeRegistryHost registryHost in
  let? prefix := TeamImageRepositoryPrefix teamID in
  if bool_decide (host = "") || bool_decide (prefix = "") then Ok host else Ok (host +:+ "/" +:+ prefix).

Definition isRegistryHost (candidate : string) : bool :=
  bool_decide (candidate = "localhost") || Contains_str candidate "." || Contains_str candidate ":".

(** [strings.Index] and [strings.LastIndex] with -1 for nothing found. *)
Definition or_minus_one (n : option nat) : Z := match n with Some n => Z.of_nat n | None => -1 end.

Definition stripImageTagOrDigest (repository : string) : string :=
  let trimmed := TrimSpace repository in
  if bool_decide (trimmed = "") then "" else
  let trimmed := match Index_byte trimmed "@" with Some n => str_take n trimmed | None => trimmed end in
  let lastSlash := or_minus_one (LastIndex trimmed "/") in
  let colon := or_minus_one (LastIndex trimmed ":") in
  let trimmed := if lastSlash <? colon then str_take (Z.to_nat colon) trimmed else trimmed in
  Trim trimmed "/".

Definition SplitImageReference (imageRef : string) : res string (string * string) :=
  let trimmed := TrimSpace imageRef in
  if bool_decide (trimmed = "") then Err "image reference is required" else
  let '(registryHost, repository) :=
    match Index_byte trimmed "/" with
    | Some (S n) =>
        let candidate := str_take (S n) trimmed in
        if isRegistryHost candidate then (NormalizeRegistryHost candidate, str_from (S (S n)) trimmed) else ("", trimmed)
    | _ => ("", trimmed)
    end in
  let repository := stripImageTagOrDigest repository in
  if bool_decide (repository = "") then Err "image reference must include a repository" else Ok (registryHost, repository).

Definition registryHostMatchesAny (actual : string) (allowedHosts : list string) : bool :=
  let normalizedActual := NormalizeRegistryHost actual in
  if bool_decide (normalizedActual = "") then false else
  existsb (fun allowed => bool_decide (normalizedActual = NormalizeRegistryHost allowed)) allowedHosts.

Definition ValidateTeamScopedImageReference (imageRef teamID : string) (privateRegistryHosts : list string) : res string unit :=
  let? prefix := TeamImageRepositoryPrefix teamID in
  if bool_decide (prefix = "") || is_nil privateRegistryHosts then Ok tt else
  let? '(registryHost, repository) := SplitImageReference imageRef in
  if negb (registryHostMatchesAny registryHost privateRegistryHosts) then Ok tt else
  if bool_decide (repository = prefix) || HasPrefix repository (prefix +:+ "/") then Ok tt else
  Err "must use team registry prefix for private registry".

End core.
