(* ===== verification/KubeNamesSpec.v ===== *)
(** * Correctness of the names of sandboxes, exposure hosts and team images

    Every name [slugWithHash] makes is a DNS label within its bound, and it makes one for
    every input with a letter or a digit.  A sandbox's name gives back the cluster it was
    made for, and every port of the sandbox has a host label that gives back both.  An image
    of a private registry is accepted for the teams of one key only. *)

From stdpp Require Import base strings list numbers.
From Stdlib Require Import Strings.Byte Strings.Ascii Lia.
From S2P Require Import Prelude GoStd GoNet GoText Policy PolicyEval Classifier CredentialProxy CredentialSpec KubeNames.

Local Open Scope Z_scope.

(** ** DNS labels

    RFC 1123: at most 63 lower case letters, digits and dashes, no dash first or last. *)

Definition label_char (a : ascii) : bool := label_alnum a || bool_decide (a = "-"%char).

Definition starts_alnum (s : string) : bool := match s with String a _ => label_alnum a | EmptyString => false end.
Definition ends_alnum (s : string) : bool := starts_alnum (String.rev s).

Definition dns_label (s : string) : bool :=
  (slen s <=? 63) && str_forallb label_char s && starts_alnum s && ends_alnum s.

(** What package validation documents, and the size of a SHA-1 sum. *)
Class KubeLaws `{KubeValidation} : Prop := { IsDNS1123Label_spec : forall s, IsDNS1123Label s = dns_label s }.
Class Sha1Laws `{Sha1} : Prop := { sha1_length : forall s, length (sha1_Sum s) = 20%nat }.

(** The text has a lower case ASCII letter or a digit. *)
Definition has_alnum (s : string) : Prop := exists a, str_In a s /\ label_alnum a = true.

Lemma str_forallb_app f a b : str_forallb f (a +:+ b) = str_forallb f a && str_forallb f b.
Proof. induction a as [|x a IH]; [done|]. change (f x && str_forallb f (a +:+ b) = f x && str_forallb f a && str_forallb f b). by rewrite IH, andb_assoc. Qed.

Lemma str_forallb_In f s a : str_forallb f s = true -> str_In a s -> f a = true.
Proof. induction s as [|x s IH]; simpl; [done|]. intros [Hx Hs]%andb_prop [->|Ha]; auto. Qed.

Lemma str_forallb_impl (f g : ascii -> bool) s : (forall a, f a = true -> g a = true) -> str_forallb f s = true -> str_forallb g s = true.
Proof. intros Hi. induction s as [|x s IH]; simpl; [done|]. intros [Hx Hs]%andb_prop. by rewrite Hi, IH. Qed.

Lemma str_forallb_rev f s : str_forallb f (String.rev s) = str_forallb f s.
Proof.
  induction s as [|x s IH]; [done|]. change (String x s) with (String x "" +:+ s). rewrite rev_app_string, !str_forallb_app, IH.
  simpl. rewrite andb_true_r. apply andb_comm.
Qed.

Lemma starts_app a b : a <> "" -> starts_alnum (a +:+ b) = starts_alnum a.
Proof. by destruct a. Qed.

Lemma rev_nil s : String.rev s = "" -> s = "".
Proof. intros Hs. by rewrite <- (rev_involutive s), Hs. Qed.

Lemma ends_app a b : b <> "" -> ends_alnum (a +:+ b) = ends_alnum b.
Proof. intros Hb. unfold ends_alnum. rewrite rev_app_string. apply starts_app. by intros ?%rev_nil. Qed.

Lemma slen_app a b : slen (a +:+ b) = slen a + slen b.
Proof. unfold slen. rewrite str_length_app. lia. Qed.

Lemma slen_pos s : s <> "" -> 0 < slen s.
Proof. destruct s; [done|]. unfold slen. simpl. lia. Qed.

(** A label is non-empty; texts that make up labels. *)
Definition label_text (s : string) : Prop := str_forallb label_char s = true /\ starts_alnum s = true /\ ends_alnum s = true.
Definition alnum_text (s : string) : Prop := s <> "" /\ str_forallb label_alnum s = true.

Lemma dns_label_text s : dns_label s = true <-> label_text s /\ slen s <= 63.
Proof. unfold dns_label, label_text. rewrite !andb_true_iff, Z.leb_le. tauto. Qed.

Lemma starts_nonempty s : starts_alnum s = true -> s <> "".
Proof. by intros Hs ->. Qed.

Lemma alnum_label s : alnum_text s -> label_text s.
Proof.
  intros [Hne Ha]. split; [|split].
  - eapply str_forallb_impl; [|exact Ha]. intros a Hc. unfold label_char. by rewrite Hc.
  - destruct s; [done|]. by apply andb_prop in Ha as [? _].
  - unfold ends_alnum. assert (Hr : String.rev s <> "") by (by intros ?%rev_nil). rewrite <- str_forallb_rev in Ha.
    destruct (String.rev s); [done|]. by apply andb_prop in Ha as [? _].
Qed.

(** Two labels with label characters between them make one. *)
Lemma label_join a m b : label_text a -> str_forallb label_char m = true -> label_text b -> label_text (a +:+ m +:+ b).
Proof.
  intros (Ha & Hsa & Hea) Hm (Hb & Hsb & Heb). split; [|split].
  - by rewrite !str_forallb_app, Ha, Hm, Hb.
  - by rewrite starts_app by (by apply starts_nonempty).
  - rewrite ends_app, ends_app; [done|by apply starts_nonempty|]. intros Hn. apply starts_nonempty in Hsb.
    destruct m; [|done]. by destruct b.
Qed.

Lemma label_prefix a m b : label_text a -> str_forallb label_char m = true -> label_text b -> label_text ((a +:+ m) +:+ b).
Proof. intros. rewrite <- str_app_assoc. by apply label_join. Qed.

Create HintDb names.
#[export] Hint Resolve alnum_label slen_pos : names.
#[export] Hint Extern 1 (str_forallb label_char _ = true) => done : names.

(** Splits a label at the separators between its parts. *)
Ltac labels := repeat (apply label_join); first [done | auto with names].

(** ** Trimming dashes *)

Lemma TrimLeft_spec s c : exists d, s = d +:+ TrimLeft s c /\ str_forallb (fun a => bool_decide (a = c)) d = true /\
  (forall r, TrimLeft s c <> String c r).
Proof.
  induction s as [|x s (d & Hd & Hf & Hn)]; simpl; [by exists ""|]. case_decide as Hx.
  - exists (String x d). split_and!; [by rewrite Hd at 1|simpl; by rewrite bool_decide_eq_true_2 by done|done].
  - exists "". split_and!; [done..|]. by intros r [= ? ?].
Qed.

Lemma TrimLeft_nonempty s c a : str_In a s -> a <> c -> TrimLeft s c <> "".
Proof. induction s as [|x s IH]; simpl; [done|]. intros [->|Ha] Hne; case_decide; auto; done. Qed.

Lemma TrimLeft_In s c a : str_In a s -> a <> c -> str_In a (TrimLeft s c).
Proof. induction s as [|x s IH]; simpl; [done|]. intros [->|Ha] Hne; case_decide; simpl; auto; done. Qed.

Lemma str_In_rev a s : str_In a (String.rev s) <-> str_In a s.
Proof.
  induction s as [|x s IH]; [done|]. change (String x s) with (String x "" +:+ s) at 1. rewrite rev_app_string, str_In_app, IH. simpl. tauto.
Qed.

(** A text of label characters with a letter or digit is trimmed to a label, no longer. *)
Lemma Trim_label s : str_forallb label_char s = true -> has_alnum s -> label_text (Trim s "-") /\ slen (Trim s "-") <= slen s.
Proof.
  intros Hs (a & Ha & Hal). assert (Hne : a <> "-"%char) by (by intros ->).
  destruct (TrimLeft_spec s "-") as (d & Hd & _ & Hn). set (l := TrimLeft s "-") in *.
  assert (Hl : str_forallb label_char l = true) by (rewrite Hd, str_forallb_app in Hs; by apply andb_prop in Hs as [_ ?]).
  assert (Hal' : str_In a l) by (by apply TrimLeft_In).
  unfold Trim. fold l. unfold TrimRight. destruct (TrimLeft_spec (String.rev l) "-") as (e & He & Hfe & Hm).
  set (m := TrimLeft (String.rev l) "-") in *.
  assert (Hmne : m <> "") by (apply (TrimLeft_nonempty _ _ a); [by rewrite str_In_rev|done]).
  assert (Hmc : str_forallb label_char m = true).
  { rewrite <- str_forallb_rev, He, str_forallb_app in Hl. by apply andb_prop in Hl as [_ ?]. }
  assert (Hlm : l = String.rev m +:+ String.rev e) by (by rewrite <- rev_app_string, <- He, rev_involutive).
  assert (Hst : forall t, str_forallb label_char t = true -> t <> "" -> (forall r, t <> String "-" r) -> starts_alnum t = true).
  { intros [|x t] Ht Hnil Hd'; [done|]. apply andb_prop in Ht as [[Hx|Hx]%orb_prop _]; [done|].
    apply bool_decide_eq_true in Hx as ->. by destruct (Hd' t). }
  split; [split; [|split]|].
  - by rewrite str_forallb_rev.
  - assert (Hrne : String.rev m <> "") by (by intros ?%rev_nil).
    rewrite <- (starts_app _ (String.rev e) Hrne), <- Hlm. apply Hst; [done| |done].
    intros Hln. rewrite Hln in Hal'. done.
  - unfold ends_alnum. rewrite rev_involutive. by apply Hst.
  - apply (f_equal slen) in Hd. rewrite Hlm, !slen_app in Hd. unfold slen in *. lia.
Qed.

Lemma write_label_char s b : str_forallb label_char (write_label s b) = true.
Proof.
  revert b. induction s as [|x s IH]; intros b; cbn [write_label]; [done|]. destruct (label_alnum x) eqn:Hx.
  - cbn [str_forallb]. unfold label_char at 1. by rewrite Hx, IH.
  - destruct b; [apply IH|]. cbn [str_forallb]. by rewrite IH.
Qed.

Lemma write_label_In s b a : label_alnum a = true -> str_In a s -> str_In a (write_label s b).
Proof.
  intros Ha. revert b. induction s as [|x s IH]; intros b; [done|]. intros [->|Hs]; cbn [write_label].
  - rewrite Ha. by left.
  - destruct (label_alnum x); [right; by apply IH|]. destruct b; [by apply IH|right; by apply IH].
Qed.

(** ** slugWithHash *)

Section slugs.
  Context `{KubeValidation, !KubeLaws, Sha1, !Sha1Laws, UnicodeCase, UnicodeUpper}.

Lemma validate_label s : label_text s -> slen s <= 63 -> validateDNSLabel s = Ok tt.
Proof. intros Hs Hl. unfold validateDNSLabel. rewrite IsDNS1123Label_spec. by rewrite (proj2 (dns_label_text s)). Qed.

Lemma validate_label_inv s : validateDNSLabel s = Ok tt -> label_text s /\ slen s <= 63.
Proof. unfold validateDNSLabel. rewrite IsDNS1123Label_spec. destruct (dns_label s) eqn:E; [|done]. intros _. by apply dns_label_text. Qed.

Lemma hex_digit_alnum n : (n < 16)%nat -> label_alnum (hex_digit n) = true.
Proof. intros Hn. do 16 (destruct n as [|n]; [done|]). lia. Qed.

Lemma hex_alnum b : str_forallb label_alnum (hex_EncodeToString b) = true.
Proof.
  induction b as [|x b IH]; [done|]. cbn [hex_EncodeToString str_forallb].
  assert (Hx : (N.to_nat (Byte.to_N x) < 256)%nat) by (pose proof (Byte.to_N_bounded x); lia).
  rewrite !hex_digit_alnum, IH; [done|apply Nat.mod_upper_bound; lia|apply Nat.Div0.div_lt_upper_bound; lia].
Qed.

Lemma str_take_forallb f n s : str_forallb f s = true -> str_forallb f (str_take n s) = true.
Proof. revert s. induction n as [|n IH]; intros [|x s]; simpl; try done. intros [Hx Hs]%andb_prop. by rewrite Hx, IH. Qed.

Lemma str_prefix_ok s n : 0 <= n <= slen s -> str_prefix s n = Ok (str_take (Z.to_nat n) s) /\ slen (str_take (Z.to_nat n) s) = n.
Proof.
  intros Hn. unfold str_prefix, slen in *. destruct (Z.ltb_spec n 0); [lia|].
  destruct (Z.ltb_spec (Z.of_nat (String.length s)) n); [lia|]. split; [done|]. rewrite str_take_length by lia. lia.
Qed.

Lemma slen_nonempty s : 0 < slen s -> s <> "".
Proof. by intros Hs ->. Qed.

(** The hash of a name: eight hexadecimal digits. *)
Lemma shortHash_spec s : exists h, shortHash s = Ok h /\ alnum_text h /\ slen h = 8.
Proof.
  unfold shortHash, nameHashLength. destruct (str_prefix_ok (hex_EncodeToString (sha1_Sum s)) 8) as [-> Hl].
  { unfold slen. rewrite hex_length, sha1_length. lia. }
  eexists. split; [done|]. split; [|exact Hl]. split; [apply slen_nonempty; lia|]. apply str_take_forallb, hex_alnum.
Qed.

Lemma starts_take s n : (0 < n)%nat -> starts_alnum s = true -> starts_alnum (str_take n s) = true.
Proof. destruct n; [lia|]. by destruct s. Qed.

(** A label cut short and its hash: a label that fits. *)
Lemma truncate_label base input maxLen : label_text base -> 1 <= maxLen ->
  exists name, truncateWithHash base input maxLen = Ok name /\ label_text name /\ slen name <= maxLen.
Proof.
  intros (Hc & Hs & He) Hm. unfold truncateWithHash. destruct (shortHash_spec input) as (h & -> & Hh & Hl). cbn [rbind]. rewrite Hl.
  destruct (Z.leb_spec maxLen 8).
  { destruct (str_prefix_ok h maxLen ltac:(lia)) as [-> Hp]. eexists. split; [done|]. split; [|lia].
    apply alnum_label. split; [apply slen_nonempty; lia|apply str_take_forallb, Hh]. }
  destruct (Z.leb_spec (maxLen - 8 - 1) 0); [eexists; split; [done|]; split; [by apply alnum_label|lia]|].
  set (cut := if slen base <? maxLen - 8 - 1 then slen base else maxLen - 8 - 1).
  assert (Hb : 0 < slen base) by (by apply slen_pos, starts_nonempty).
  assert (Hcut : 0 < cut <= slen base /\ cut <= maxLen - 9) by (unfold cut; destruct (Z.ltb_spec (slen base) (maxLen - 8 - 1)); lia).
  destruct (str_prefix_ok base cut ltac:(lia)) as [-> Hp]. cbn [rbind]. eexists. split; [done|]. split.
  - destruct (alnum_label _ Hh) as (Hhc & Hhs & Hhe). pose proof (starts_nonempty _ Hhs) as Hhn. split; [|split].
    + rewrite !str_forallb_app, Hhc. by rewrite str_take_forallb.
    + rewrite starts_app; [apply starts_take; [lia|done]|apply slen_nonempty; lia].
    + by rewrite ends_app, ends_app by done.
  - rewrite !slen_app, Hp, Hl. change (slen "-") with 1. lia.
Qed.

Lemma normalize_label input : has_alnum (ToLower input) ->
  exists slug, normalizeToDNSLabel input = Ok slug /\ label_text slug.
Proof.
  intros (a & Ha & Hal). unfold normalizeToDNSLabel.
  destruct (Trim_label (write_label (ToLower input) false)) as [Hl _]; [apply write_label_char| |].
  { exists a. split; [by apply write_label_In|done]. }
  rewrite bool_decide_eq_false_2 by (by intros ->). pose proof Hl as (_ & Hst & _). apply starts_nonempty in Hst.
  rewrite bool_decide_eq_false_2 by done. by eexists.
Qed.

Lemma slug_label input maxLen : 1 <= maxLen <= 63 -> has_alnum (ToLower input) ->
  exists name, slugWithHash input maxLen = Ok name /\ label_text name /\ slen name <= maxLen.
Proof.
  intros Hm Ha. unfold slugWithHash. destruct (Z.leb_spec maxLen 0); [lia|].
  destruct (normalize_label _ Ha) as (slug & -> & Hs). cbn [rbind].
  destruct ((maxLen <? slen slug) || _) eqn:Hb.
  - destruct (truncate_label slug input maxLen Hs) as (name & -> & Hn & Hl); [lia|]. cbn [rbind].
    rewrite validate_label by (done || lia). cbn [rbind]. destruct (Z.ltb_spec maxLen (slen name)); [lia|]. by eexists.
  - apply orb_false_iff in Hb as [Hb _]. apply Z.ltb_ge in Hb. cbn [rbind]. rewrite validate_label by (done || lia). cbn [rbind].
    destruct (Z.ltb_spec maxLen (slen slug)); [lia|]. by eexists.
Qed.

(** ** Cluster keys *)

Lemma b32_lower s : b32_text s ->
  is_ascii s = true /\ str_forallb label_alnum (str_map lower_byte s) = true /\
  is_ascii (str_map lower_byte s) = true /\ str_map upper_byte (str_map lower_byte s) = s.
Proof.
  unfold is_ascii. induction s as [|x s IH]; cbn [b32_text str_map str_forallb]; [done|].
  intros ((a & b & c & d & e & ->) & Hs). destruct (IH Hs) as (-> & -> & -> & ->). by destruct a, b, c, d, e.
Qed.

Lemma str_map_length f s : String.length (str_map f s) = String.length s.
Proof. induction s; simpl; congruence. Qed.

(** The key of a valid cluster ID: letters and digits only, and the ID comes back. *)
Lemma cluster_key clusterID : ValidateClusterID clusterID = Ok tt ->
  exists key, encodeClusterID clusterID = Ok key /\ alnum_text key /\ slen key <= 32 /\ decodeClusterKey key = Ok clusterID.
Proof.
  intros Hv. unfold encodeClusterID. rewrite Hv. cbn [rbind]. unfold ValidateClusterID in Hv. case_bool_decide as Hne; [done|].
  unfold clusterIDMaxLen in Hv. destruct (Z.ltb_spec 20 (slen clusterID)) as [|Hl]; [done|]. clear Hv.
  assert (Ht : b32_text (b32_EncodeToString clusterID)) by (by eapply enc_bits_text).
  destruct (b32_lower _ Ht) as (Ha & Hal & Hla & Hup). unfold ToLower. rewrite Ha.
  set (key := str_map lower_byte (b32_EncodeToString clusterID)) in *.
  assert (Hlen : 0 < slen key <= 32).
  { apply slen_pos in Hne. unfold slen, key in *. rewrite str_map_length, b32_length.
    assert ((8 * String.length clusterID + 4) / 5 < 33)%nat by (apply Nat.Div0.div_lt_upper_bound; lia).
    pose proof (Nat.div_le_lower_bound (8 * String.length clusterID + 4) 5 1 ltac:(lia)). lia. }
  assert (Hk : alnum_text key) by (split; [apply slen_nonempty; lia|done]).
  unfold clusterKeyMaxLen. destruct (Z.ltb_spec 32 (slen key)); [lia|].
  rewrite validate_label by (lia || auto with names). exists key. split_and!; [done..|lia|]. unfold decodeClusterKey.
  rewrite bool_decide_eq_false_2 by (apply Hk). unfold ToUpper. by rewrite Hla, Hup, b32_roundtrip.
Qed.

Lemma alnum_no_dash s : str_forallb label_alnum s = true -> ~ str_In "-" s.
Proof. intros Hs Hi. by apply (str_forallb_In _ _ _ Hs) in Hi. Qed.

Lemma Index_byte_app s c t : ~ str_In c s -> Index_byte (s +:+ String c t) c = Some (String.length s).
Proof.
  induction s as [|x s IH]; intros Hn; [simpl; by rewrite decide_True|].
  change ((if decide (x = c) then Some 0%nat else S <$> Index_byte (s +:+ String c t) c) = Some (S (String.length s))).
  simpl in Hn. rewrite decide_False by tauto. by rewrite IH by tauto.
Qed.

(** The key is found in whatever follows it. *)
Lemma extract_key key rest : alnum_text key -> extractClusterKey ("rs-" +:+ key +:+ String "-" rest) sandboxNamePrefix = Ok key.
Proof.
  intros [Hne Ha]. unfold extractClusterKey. rewrite bool_decide_eq_false_2 by done.
  assert (Hp : TrimPrefixOpt (sandboxNamePrefix +:+ "-") ("rs-" +:+ key +:+ String "-" rest) = Some (key +:+ String "-" rest))
    by (by apply TrimPrefixOpt_spec).
  unfold HasPrefix, TrimPrefix. rewrite Hp. cbn [negb]. rewrite Index_byte_app by (by apply alnum_no_dash).
  rewrite str_take_app by done. by rewrite bool_decide_eq_false_2.
Qed.

Lemma replicaset_name clusterID templateName : ValidateClusterID clusterID = Ok tt -> has_alnum (ToLower templateName) ->
  exists key slug, ReplicasetName clusterID templateName = Ok ("rs-" +:+ key +:+ String "-" slug) /\
    alnum_text key /\ decodeClusterKey key = Ok clusterID /\
    label_text ("rs-" +:+ key +:+ String "-" slug) /\ slen ("rs-" +:+ key +:+ String "-" slug) <= 49.
Proof.
  intros Hc Ht. destruct (cluster_key _ Hc) as (key & Hk & Hal & Hl & Hd). unfold ReplicasetName. rewrite Hk. cbn [rbind].
  rewrite !slen_app. change (slen sandboxNamePrefix) with 2. change (slen "-") with 1. unfold replicaSetMaxLen, sandboxNameMaxLen,
    dnsLabelMaxLen, maxPortDigits, podRandSuffixLen. change (slen exposurePortDelimiter) with 3.
  set (remaining := 63 - 3 - 5 - 1 - 5 - (2 + (1 + (slen key + 1)))).
  assert (Hr : 13 <= remaining <= 45 /\ remaining = 45 - slen key) by (unfold remaining; pose proof (slen_pos key (proj1 Hal)); lia).
  destruct (Z.leb_spec remaining 0); [lia|]. destruct (slug_label templateName remaining ltac:(lia) Ht) as (slug & -> & Hs & Hsl).
  cbn [rbind]. exists key, slug.
  assert (Hn : (sandboxNamePrefix +:+ "-" +:+ key +:+ "-") +:+ slug = "rs-" +:+ key +:+ String "-" slug) by (by rewrite <- !str_app_assoc).
  assert (Hlab : label_text ("rs-" +:+ key +:+ String "-" slug)).
  { change (label_text ("rs" +:+ "-" +:+ (key +:+ "-" +:+ slug))). labels. }
  assert (Hlen : slen ("rs-" +:+ key +:+ String "-" slug) <= 49).
  { rewrite <- Hn, !slen_app. change (slen sandboxNamePrefix) with 2. change (slen "-") with 1. lia. }
  rewrite Hn, validate_label by (done || lia). done.
Qed.

Lemma Contains_dash s : str_forallb label_alnum s = true -> Contains_str s "-" = false.
Proof.
  induction s as [|x s IH]; [done|]. cbn [str_forallb Contains_str]. intros [Hx Hs]%andb_prop. rewrite IH by done.
  rewrite orb_false_r. unfold HasPrefix. simpl. case_decide as Hd; [by rewrite <- Hd in Hx|done].
Qed.

(** ** Exposure labels *)

Lemma LastIndex_absent s sub c : (exists r, sub = String c r) -> ~ str_In c s -> LastIndex s sub = None.
Proof.
  intros [r ->]. induction s as [|x s IH]; intros Hn; [done|]. cbn [LastIndex]. simpl in Hn. rewrite IH by tauto.
  unfold HasPrefix. cbn [TrimPrefixOpt]. rewrite decide_False; [done|]. intros ->. tauto.
Qed.

Lemma LastIndex_at name t : ~ str_In "-" t -> LastIndex (name +:+ exposurePortDelimiter +:+ t) exposurePortDelimiter = Some (String.length name).
Proof.
  intros Ht. assert (Hn : LastIndex t exposurePortDelimiter = None) by (by eapply LastIndex_absent; [by eexists|]).
  induction name as [|x name IH].
  - change ("" +:+ exposurePortDelimiter +:+ t) with (String "-" (String "-" (String "p" t))). cbn [LastIndex]. rewrite Hn. by destruct t.
  - change (LastIndex (String x (name +:+ exposurePortDelimiter +:+ t)) exposurePortDelimiter = Some (S (String.length name))).
    cbn [LastIndex]. by rewrite IH.
Qed.

Lemma digits_alnum s : Forall (fun b => isDigitByte b = true) (raw s) -> str_forallb label_alnum s = true.
Proof.
  induction s as [|a s IH]; [done|]. rewrite raw_cons. intros Hf. cbn [str_forallb]. rewrite IH by (by inversion Hf).
  apply Forall_inv in Hf. rewrite andb_true_r. by destruct a as [[] [] [] [] [] [] [] []].
Qed.

Lemma show_slen w k n acc : 0 <= n < 10 ^ Z.of_nat (S k) -> slen (show 10 w n acc) <= Z.of_nat (S k) + slen acc.
Proof.
  revert k n acc. induction w as [|w IH]; intros k n acc Hn; cbn [show]; [lia|].
  assert (Hc : slen (String (digit_char (n mod 10)) acc) = 1 + slen acc) by (unfold slen; cbn; lia).
  destruct (Z.eqb_spec (n / 10) 0); [lia|]. destruct k as [|k].
  - change (10 ^ Z.of_nat 1) with 10 in Hn. rewrite Z.div_small in n0 by lia. done.
  - rewrite Nat2Z.inj_succ, Z.pow_succ_r in Hn by lia. etrans; [apply (IH k)|lia].
    split; [apply Z.div_pos; lia|apply Z.div_lt_upper_bound; lia].
Qed.

Lemma port_text port : 0 < port <= 65535 -> alnum_text (show_dec port) /\ slen (show_dec port) <= 5.
Proof.
  intros Hp. destruct (show_digits 20 port "" ltac:(lia) ltac:(constructor) ltac:(lia)) as [Hne Hd]. split; [split|].
  - intros Hs. unfold show_dec in Hs. by rewrite Hs in Hne.
  - by apply digits_alnum.
  - pose proof (show_slen 20 4 port "" ltac:(simpl; lia)) as Hl. exact Hl.
Qed.

(** Every port of a sandbox has a host label, and it is read back. *)
Lemma exposure_label name port : label_text name -> slen name <= 55 -> 0 < port <= 65535 ->
  exists label, BuildExposureHostLabel name port = Ok label /\ ParseExposureHostLabel label = Ok (name, port).
Proof.
  intros Hn Hl Hp. destruct (port_text port Hp) as [Ht Htl]. pose proof Hn as (_ & Hs & _). apply starts_nonempty in Hs.
  assert (Hr : (port <=? 0) || (65535 <? port) = false) by (apply orb_false_iff; split; [apply Z.leb_gt|apply Z.ltb_ge]; lia).
  exists (name +:+ exposurePortDelimiter +:+ show_dec port). unfold BuildExposureHostLabel, ParseExposureHostLabel.
  set (label := name +:+ exposurePortDelimiter +:+ show_dec port).
  assert (Hlab : label_text label) by labels.
  assert (Hlen : slen label <= 63) by (unfold label; rewrite !slen_app; change (slen exposurePortDelimiter) with 3; lia).
  assert (Hlne : label <> "") by (by apply starts_nonempty, Hlab).
  split.
  - rewrite bool_decide_eq_false_2 by done. rewrite validate_label by (done || lia). cbn [rbind]. rewrite Hr. unfold dnsLabelMaxLen.
    destruct (Z.ltb_spec 63 (slen label)); [lia|]. by rewrite validate_label.
  - rewrite bool_decide_eq_false_2 by done. unfold label at 1. rewrite LastIndex_at by (by apply alnum_no_dash, Ht).
    destruct (String.length name) as [|k] eqn:Hk; [by destruct name|]. rewrite <- Hk. unfold label. rewrite str_take_app by done.
    rewrite validate_label by (done || lia). cbn [rbind].
    rewrite str_app_assoc, str_from_app by (by rewrite str_length_app). rewrite bool_decide_eq_false_2 by apply Ht.
    rewrite Atoi_show by lia. by rewrite Hr.
Qed.

(** C37: for every valid cluster ID, every template name with an ASCII letter or digit and
    every random suffix of one to five lower case letters and digits, the sandbox gets a
    name; the name is a DNS label from which the cluster ID is read back; and every port
    from 1 to 65535 has an exposure host label that gives back the sandbox and the port. *)
Theorem sandbox_name_routes clusterID templateName suffix :
  ValidateClusterID clusterID = Ok tt -> has_alnum (ToLower templateName) ->
  alnum_text suffix -> slen suffix <= podRandSuffixLen ->
  exists name, SandboxName clusterID templateName suffix = Ok name /\ dns_label name = true /\
    (exists key, ParseSandboxName name = Ok (mkParsed clusterID key)) /\
    forall port, 0 < port <= 65535 ->
      exists label, BuildExposureHostLabel name port = Ok label /\ ParseExposureHostLabel label = Ok (name, port).
Proof.
  intros Hc Ht Hs Hsl. destruct (replicaset_name _ _ Hc Ht) as (key & slug & Hrs & Hk & Hd & Hlab & Hlen).
  unfold SandboxName, podRandSuffixLen in *. rewrite bool_decide_eq_false_2 by apply Hs. rewrite Contains_dash by apply Hs.
  destruct (Z.ltb_spec 5 (slen suffix)); [lia|]. rewrite Hrs. cbn [rbind].
  set (rs := "rs-" +:+ key +:+ String "-" slug) in *. set (name := rs +:+ "-" +:+ suffix).
  assert (Hn : label_text name) by (apply label_join; [done|done|by apply alnum_label]).
  assert (Hnl : slen name <= 55) by (unfold name; rewrite !slen_app; change (slen "-") with 1; lia).
  rewrite validate_label by (done || lia). cbn [rbind]. unfold sandboxNameMaxLen, dnsLabelMaxLen, maxPortDigits.
  change (slen exposurePortDelimiter) with 3. destruct (Z.ltb_spec (63 - 3 - 5) (slen name)); [lia|].
  exists name. split_and!; [done|apply dns_label_text; split; [done|lia]| |intros port Hp; by apply exposure_label].
  exists key. unfold ParseSandboxName, name, rs. rewrite <- !str_app_assoc.
  change (String "-" slug +:+ "-" +:+ suffix) with (String "-" (slug +:+ "-" +:+ suffix)).
  rewrite extract_key by done. cbn [rbind]. by rewrite Hd.
Qed.

(** ** Collisions *)

Lemma write_label_alnum s b : str_forallb label_alnum s = true -> write_label s b = s.
Proof. revert b. induction s as [|x s IH]; intros b; [done|]. cbn [str_forallb write_label]. intros [-> Hs]%andb_prop. by rewrite IH. Qed.

Lemma lower_label s : str_forallb label_char s = true -> ToLower s = s.
Proof.
  intros Hs. unfold ToLower. assert (Ha : is_ascii s = true).
  { unfold is_ascii. eapply str_forallb_impl; [|exact Hs]. intros a Ha. by destruct a as [[] [] [] [] [] [] [] []]. }
  rewrite Ha. clear Ha. induction s as [|x s IH]; [done|]. cbn [str_forallb str_map] in *. apply andb_prop in Hs as [Hx Hs].
  rewrite IH by done. f_equal. by destruct x as [[] [] [] [] [] [] [] []].
Qed.

Lemma Trim_id s : starts_alnum s = true -> ends_alnum s = true -> Trim s "-" = s.
Proof.
  assert (Hl : forall t, starts_alnum t = true -> TrimLeft t "-" = t).
  { intros [|x t] Ht; [done|]. cbn [TrimLeft]. rewrite decide_False; [done|]. by intros ->. }
  intros Hs He. unfold Trim, TrimRight. rewrite (Hl s Hs), (Hl _ He). apply rev_involutive.
Qed.

Lemma slug_id s maxLen : label_text s -> write_label s false = s -> slen s <= maxLen <= 63 -> slugWithHash s maxLen = Ok s.
Proof.
  intros Hs Hw Hl. pose proof Hs as (Hc & Hst & He). pose proof (starts_nonempty _ Hst) as Hne. pose proof (slen_pos _ Hne).
  unfold slugWithHash, normalizeToDNSLabel. destruct (Z.leb_spec maxLen 0); [lia|]. rewrite lower_label by done.
  rewrite !bool_decide_eq_false_2, Hw, Trim_id by (done || by rewrite Hw, Trim_id). cbn [rbind].
  rewrite bool_decide_eq_true_2 by done. destruct (Z.ltb_spec maxLen (slen s)); [lia|]. cbn [orb negb rbind].
  rewrite validate_label by (done || lia). cbn [rbind]. destruct (Z.ltb_spec maxLen (slen s)); [lia|done].
Qed.

(** Two templates of one team have the same name in the cluster: the ID of one is the name
    the other was shortened to. *)
Lemma template_names_collide teamID : exists other, other <> "web_app" /\
  TemplateNameForCluster ScopeTeam teamID "web_app" = TemplateNameForCluster ScopeTeam teamID other.
Proof.
  destruct (shortHash_spec "web_app") as (h & Hh & Ha & Hl). exists ("web-app-" +:+ h). split; [done|].
  unfold TemplateNameForCluster, TeamKey. destruct (shortHash_spec teamID) as (k & -> & Hk & Hkl). cbn [rbind].
  rewrite bool_decide_eq_true_2 by done. cbn [negb]. rewrite !slen_app, Hkl. change (dnsLabelMaxLen - (slen "t-" + (8 + slen "-"))) with 52.
  change (52 <=? 0) with false. cbv iota.
  assert (Hn : label_text ("web-app-" +:+ h)) by (change ("web-app-" +:+ h) with ("web-app" +:+ "-" +:+ h); apply label_join; [done|done|by apply alnum_label]).
  rewrite (lower_label ("web-app-" +:+ h)) by apply Hn. rewrite (slug_id ("web-app-" +:+ h)); [|done| |rewrite slen_app, Hl; done].
  2: { pose proof (write_label_alnum h true (proj2 Ha)) as Hw. change (write_label ("web-app-" +:+ h) false) with ("web-app-" +:+ write_label h true).
       by rewrite Hw. }
  change (ToLower "web_app") with "web_app". unfold slugWithHash. change (52 <=? 0) with false. cbv iota.
  change (normalizeToDNSLabel "web_app") with (Ok (E:=string) "web-app"). cbn [rbind].
  change ((52 <? slen "web-app") || _) with true. cbv iota. unfold truncateWithHash. rewrite Hh. cbn [rbind]. rewrite Hl.
  change (str_prefix "web-app" _) with (Ok (E:=string) "web-app"). cbn [rbind Z.leb Z.compare].
  change (52 <=? 8) with false. cbv iota. cbn [rbind]. change ("web-app" +:+ "-" +:+ h) with ("web-app-" +:+ h).
  change (52 - 8 - 1 <=? 0) with false. cbv iota. cbn [rbind]. rewrite validate_label; [|done|rewrite slen_app, Hl; done].
  cbn [rbind]. rewrite slen_app, Hl. done.
Qed.

(** ** Team images *)

(** The repository is the team's own or under it. *)
Definition under_prefix (repository prefix : string) : Prop :=
  repository = prefix \/ exists rest, repository = prefix +:+ "/" +:+ rest.

Lemma team_prefix teamID : TrimSpace teamID <> "" ->
  exists key, TeamImageRepositoryPrefix teamID = Ok ("t-" +:+ key) /\ alnum_text key /\ slen key = 8.
Proof.
  intros Ht. unfold TeamImageRepositoryPrefix, TeamKey. rewrite bool_decide_eq_false_2 by done.
  destruct (shortHash_spec (TrimSpace teamID)) as (h & -> & Hh & Hl). by exists h.
Qed.

Lemma validate_private imageRef teamID hosts host repository prefix :
  TeamImageRepositoryPrefix teamID = Ok prefix -> prefix <> "" ->
  SplitImageReference imageRef = Ok (host, repository) -> registryHostMatchesAny host hosts = true ->
  ValidateTeamScopedImageReference imageRef teamID hosts = Ok tt -> under_prefix repository prefix.
Proof.
  intros Hp Hne Hs Hm. unfold ValidateTeamScopedImageReference. rewrite Hp. cbn [rbind]. rewrite bool_decide_eq_false_2 by done.
  destruct hosts as [|x hosts]; [unfold registryHostMatchesAny in Hm; by destruct (bool_decide _)|].
  cbn [orb is_nil]. rewrite Hs. cbn [rbind]. rewrite Hm. cbn [negb].
  destruct (bool_decide (repository = prefix)) eqn:Hr; [left; by apply bool_decide_eq_true in Hr|].
  destruct (HasPrefix repository (prefix +:+ "/")) eqn:Hx; [|done]. intros _. right.
  apply HasPrefix_spec in Hx as [r ->]. exists r. by rewrite <- str_app_assoc.
Qed.

Lemma under_prefix_take repository prefix : under_prefix repository prefix -> str_take (String.length prefix) repository = prefix.
Proof. intros [->|[r ->]]; [by apply str_take_all|by apply str_take_app]. Qed.

(** C23: an image reference of a private registry that is accepted for a team names a
    repository under the team's prefix, and two teams for which it is accepted have the same
    prefix: no team can use the private images of a team with another key. *)
Theorem private_image_one_team imageRef teamA teamB hosts host repository :
  SplitImageReference imageRef = Ok (host, repository) -> registryHostMatchesAny host hosts = true ->
  TrimSpace teamA <> "" -> TrimSpace teamB <> "" ->
  ValidateTeamScopedImageReference imageRef teamA hosts = Ok tt ->
  ValidateTeamScopedImageReference imageRef teamB hosts = Ok tt ->
  exists prefix, TeamImageRepositoryPrefix teamA = Ok prefix /\ TeamImageRepositoryPrefix teamB = Ok prefix /\
    under_prefix repository prefix.
Proof.
  intros Hs Hm Ha Hb Hva Hvb. destruct (team_prefix teamA Ha) as (ka & Hpa & Hka & Hla).
  destruct (team_prefix teamB Hb) as (kb & Hpb & Hkb & Hlb).
  pose proof (validate_private _ _ _ _ _ _ Hpa ltac:(done) Hs Hm Hva) as Hua.
  pose proof (validate_private _ _ _ _ _ _ Hpb ltac:(done) Hs Hm Hvb) as Hub.
  exists ("t-" +:+ ka). split_and!; [done| |done]. rewrite Hpb. f_equal.
  rewrite <- (under_prefix_take _ _ Hua), <- (under_prefix_take _ _ Hub). f_equal. unfold slen in *. rewrite !str_length_app. lia.
Qed.

(** The registry's host is compared byte by byte: with one letter in upper case the
    reference names the same host and is accepted for every team. *)
Lemma image_host_case teamID :
  TrimSpace teamID <> "" ->
  ValidateTeamScopedImageReference "Registry.example.com/t-00000000/app:v1" teamID ["registry.example.com"] = Ok tt /\
  SplitImageReference "Registry.example.com/t-00000000/app:v1" = Ok ("Registry.example.com", "t-00000000/app").
Proof.
  intros Ht. split; [|by vm_compute]. destruct (team_prefix _ Ht) as (k & Hk & _). unfold ValidateTeamScopedImageReference. rewrite Hk. by vm_compute.
Qed.

End slugs.

(** ** Witnesses *)

(** A checksum for the examples: the text padded to twenty bytes. *)
#[local] Instance pad_sha1 : Sha1 := {| sha1_Sum s := take 20 (raw s ++ replicate 20 x00) |}.
#[local] Instance pad_sha1_laws : Sha1Laws.
Proof. constructor. intros s. change (length (take 20 (raw s ++ replicate 20 x00)) = 20%nat). rewrite length_take, length_app, length_replicate. lia. Qed.
#[local] Instance rfc1123 : KubeValidation := {| IsDNS1123Label := dns_label |}.
#[local] Instance rfc1123_laws : KubeLaws.
Proof. by constructor. Qed.
#[local] Instance ascii_lower : UnicodeCase := {| unicode_lower s := s |}.
#[local] Instance ascii_upper : UnicodeUpper := {| unicode_upper s := s |}.

Lemma sandbox_name_routes_witness :
  exists name, SandboxName "aws-us-east-1" "My Template" "x7k2p" = Ok name /\ dns_label name = true /\
    (exists key, ParseSandboxName name = Ok (mkParsed "aws-us-east-1" key)) /\
    forall port, 0 < port <= 65535 ->
      exists label, BuildExposureHostLabel name port = Ok label /\ ParseExposureHostLabel label = Ok (name, port).
Proof.
  apply (sandbox_name_routes "aws-us-east-1" "My Template" "x7k2p"); [by vm_compute| |by split|by vm_compute].
  exists "m"%char. split; [by left|done].
Defined.

Lemma private_image_one_team_witness :
  exists prefix, TeamImageRepositoryPrefix "team-1" = Ok prefix /\ TeamImageRepositoryPrefix " team-1 " = Ok prefix /\
    under_prefix "t-7465616d/app" prefix.
Proof.
  apply (private_image_one_team "registry.example.com/t-7465616d/app:v1" "team-1" " team-1 " ["https://registry.example.com/"] "registry.example.com");
    by vm_compute.
Defined.
