(* ===== verification/Portal.v ===== *)
(** * ctld: the portals of a node and the volumes they are bound to (ctld/internal/ctld/portal)

    A portal is a file system that is published in a pod before it is known which volume
    it shows.  Binding a portal opens the volume on the node and registers the node as its
    owner in the database ([Mounts]); a volume can also be owned with no portal, for the
    requests that storage-proxy passes on.  Another node takes a volume over by a handoff:
    the requests are held back, the volume is saved, the new owner binds it, and this one
    lets it go.

    Portals are objects that two maps point to, so they live in a store.  What the engine,
    the object store, the kernel and the file system of the node answer are outcomes, in
    their order, as for the statements of the database; opening a volume, saving it and
    closing it are such calls here (the engine itself is in the S0fs files).  A handler is
    the sequence of its critical sections, which are definitions of their own. *)

From stdpp Require Import base gmap strings list fin_maps numbers sorting.
From Stdlib Require Import Strings.Byte Strings.Ascii.
From S2P Require Import Prelude GoStd GoText Volume Notify Mounts KubeNames.

Local Open Scope Z_scope.

(** ** State *)

Record portalMount := mkPortalMount {
  po_namespace : string;
  po_podName : string;
  po_podUID : string;
  po_name : string;
  po_mountPath : string;
  po_targetPath : string;
  po_serving : bool;
  po_volumeID : string;
  po_teamID : string;
  po_mountedAt : Z
}.

Definition set_binding (volumeID teamID : string) (mountedAt : Z) (p : portalMount) : portalMount :=
  mkPortalMount (po_namespace p) (po_podName p) (po_podUID p) (po_name p) (po_mountPath p) (po_targetPath p)
    (po_serving p) volumeID teamID mountedAt.

Definition stop_serving (p : portalMount) : portalMount :=
  mkPortalMount (po_namespace p) (po_podName p) (po_podUID p) (po_name p) (po_mountPath p) (po_targetPath p)
    false (po_volumeID p) (po_teamID p) (po_mountedAt p).

(** The goroutines of a bound volume: whether they run. *)
Record boundVolume := mkBoundVolume {
  bv_volumeID : string;
  bv_teamID : string;
  bv_access : string;
  bv_mountedAt : Z;
  bv_refCount : Z;
  bv_heartbeat : bool;
  bv_materializing : bool
}.

Definition set_refCount (n : Z) (b : boundVolume) : boundVolume :=
  mkBoundVolume (bv_volumeID b) (bv_teamID b) (bv_access b) (bv_mountedAt b) n (bv_heartbeat b) (bv_materializing b).
Definition set_materializing (on : bool) (b : boundVolume) : boundVolume :=
  mkBoundVolume (bv_volumeID b) (bv_teamID b) (bv_access b) (bv_mountedAt b) (bv_refCount b) (bv_heartbeat b) on.

(** session.go: the channel [done] is open exactly while [transferring]. *)
Record localVolumeRequestState := mkRequestState {
  rs_inFlight : Z;
  rs_transferring : bool;
  rs_lastAccess : Z
}.

Record localVolumeContext := mkLocalContext {
  lc_VolumeID : string;
  lc_TeamID : string;
  lc_Access : string;
  lc_MountedAt : Z
}.

Record localVolumeManager := mkLocalManager {
  lm_volumes : gmap string localVolumeContext;
  lm_requests : gmap string localVolumeRequestState
}.

Record Manager := mkManager {
  mg_nodeName : string;
  mg_clusterID : string;
  mg_podName : string;
  mg_podNamespace : string;
  mg_heartbeatTimeout : Z;
  mg_ownerOnlyIdleTTL : Z;
  mg_objects : list portalMount;
  mg_portals : gmap string nat;
  mg_portalsByTarget : gmap string nat;
  mg_boundVolumes : gmap string boundVolume;
  mg_volumes : localVolumeManager;
  mg_outcomes : list (option string)
}.

Definition NewManager (nodeName defaultClusterId podName podNamespace : string) (heartbeatTimeout ownerOnlyIdleTTL : Z) : Manager :=
  mkManager (TrimSpace nodeName) (ClusterIDOrDefault (Some defaultClusterId)) (TrimSpace podName) (TrimSpace podNamespace)
    heartbeatTimeout ownerOnlyIdleTTL [] ∅ ∅ ∅ (mkLocalManager ∅ ∅) [].

Definition set_objects (os : list portalMount) (m : Manager) : Manager :=
  mkManager (mg_nodeName m) (mg_clusterID m) (mg_podName m) (mg_podNamespace m) (mg_heartbeatTimeout m) (mg_ownerOnlyIdleTTL m)
    os (mg_portals m) (mg_portalsByTarget m) (mg_boundVolumes m) (mg_volumes m) (mg_outcomes m).
Definition set_portals (ps ts : gmap string nat) (m : Manager) : Manager :=
  mkManager (mg_nodeName m) (mg_clusterID m) (mg_podName m) (mg_podNamespace m) (mg_heartbeatTimeout m) (mg_ownerOnlyIdleTTL m)
    (mg_objects m) ps ts (mg_boundVolumes m) (mg_volumes m) (mg_outcomes m).
Definition set_bound (bs : gmap string boundVolume) (m : Manager) : Manager :=
  mkManager (mg_nodeName m) (mg_clusterID m) (mg_podName m) (mg_podNamespace m) (mg_heartbeatTimeout m) (mg_ownerOnlyIdleTTL m)
    (mg_objects m) (mg_portals m) (mg_portalsByTarget m) bs (mg_volumes m) (mg_outcomes m).
Definition set_local (l : localVolumeManager) (m : Manager) : Manager :=
  mkManager (mg_nodeName m) (mg_clusterID m) (mg_podName m) (mg_podNamespace m) (mg_heartbeatTimeout m) (mg_ownerOnlyIdleTTL m)
    (mg_objects m) (mg_portals m) (mg_portalsByTarget m) (mg_boundVolumes m) l (mg_outcomes m).
Definition set_node (os : list (option string)) (m : Manager) : Manager :=
  mkManager (mg_nodeName m) (mg_clusterID m) (mg_podName m) (mg_podNamespace m) (mg_heartbeatTimeout m) (mg_ownerOnlyIdleTTL m)
    (mg_objects m) (mg_portals m) (mg_portalsByTarget m) (mg_boundVolumes m) (mg_volumes m) os.

(** An error is its text, and whether it is that of a context that ended. *)
Record portal_error := mkPortalError {
  pe_text : string;
  pe_canceled : bool
}.

Abbreviation PM := (ST portal_error (Manager * DB)).

Definition failure {A} (text : string) : PM A := throw (mkPortalError text false).
Definition manager : PM Manager := gets fst.
Definition alter_manager (f : Manager -> Manager) : PM unit := modify (fun s => (f s.1, s.2)).

Definition check_ctx (ctx : option string) : PM unit :=
  match ctx with Some e => throw (mkPortalError e true) | None => ret tt end.

Definition repository {A} (m : DBM A) : PM A := fun '(c, d) =>
  let '(r, d') := m d in
  (match r with Ok a => Ok a | Err e => Err (mkPortalError (db_text e) false) | Panic => Panic end, (c, d')).

(** A call of the node, its error after [prefix]. *)
Definition node (prefix : string) : PM unit := fun '(m, d) =>
  match mg_outcomes m with
  | Some e :: os => (Err (mkPortalError (prefix +:+ e) false), (set_node os m, d))
  | None :: os => (Ok tt, (set_node os m, d))
  | [] => (Ok tt, (m, d))
  end.

(** An error that is dropped. *)
Definition ignoring (m : PM unit) : PM unit := fun s =>
  match m s with (Err _, s') => (Ok tt, s') | rs => rs end.

(** An error after [prefix], what has been done so far undone by [undo]. *)
Definition undoing {A} (m : PM A) (prefix : string) (undo : Manager -> Manager) : PM A := fun s =>
  match m s with
  | (Err e, s') => (Err (mkPortalError (prefix +:+ pe_text e) (pe_canceled e)), (undo s'.1, s'.2))
  | rs => rs
  end.

(** ** localVolumeManager (session.go) *)

Definition lv_add (now : Z) (v : localVolumeContext) (l : localVolumeManager) : localVolumeManager :=
  mkLocalManager (<[lc_VolumeID v := v]> (lm_volumes l))
    (match lm_requests l !! lc_VolumeID v with
     | Some _ => lm_requests l
     | None => <[lc_VolumeID v := mkRequestState 0 false now]> (lm_requests l)
     end).

Definition lv_remove (volumeID : string) (l : localVolumeManager) : localVolumeManager :=
  mkLocalManager (delete volumeID (lm_volumes l)) (delete volumeID (lm_requests l)).

Definition lv_request (volumeID : string) (l : localVolumeManager) : option localVolumeRequestState :=
  match lm_volumes l !! volumeID with Some _ => lm_requests l !! volumeID | None => None end.

Definition lv_set (volumeID : string) (st : localVolumeRequestState) (l : localVolumeManager) : localVolumeManager :=
  mkLocalManager (lm_volumes l) (<[volumeID := st]> (lm_requests l)).

Definition not_mounted (volumeID : string) : string := "volume " +:+ volumeID +:+ " not mounted".

(** One turn of the loop of [acquire]: whether the request may go on, or waits until the
    handoff is over. *)
Definition acquire (now : Z) (volumeID : string) (l : localVolumeManager) : res portal_error bool * localVolumeManager :=
  match lv_request volumeID l with
  | None => (Err (mkPortalError (not_mounted volumeID) false), l)
  | Some st =>
      if rs_transferring st then (Ok false, l) else
      (Ok true, lv_set volumeID (mkRequestState (rs_inFlight st + 1) false now) l)
  end.

(** The function that [acquire] returns; it wakes who waits on the condition when the
    last request is done. *)
Definition release (now : Z) (volumeID : string) (l : localVolumeManager) : localVolumeManager :=
  match lm_requests l !! volumeID with
  | None => l
  | Some st =>
      lv_set volumeID (mkRequestState (if 0 <? rs_inFlight st then rs_inFlight st - 1 else rs_inFlight st)
                         (rs_transferring st) now) l
  end.

(** The head of the loop of [prepareHandoff]: done, or one more wait on the condition. *)
Definition handoff_turn (ctx : option string) (volumeID : string) (st : localVolumeRequestState) (l : localVolumeManager) : res portal_error bool * localVolumeManager :=
  if rs_inFlight st <=? 0 then (Ok true, l) else
  match ctx with
  | Some e => (Err (mkPortalError e true), lv_set volumeID (mkRequestState (rs_inFlight st) false (rs_lastAccess st)) l)
  | None => (Ok false, l)
  end.

Definition lv_prepareHandoff (ctx : option string) (volumeID : string) (l : localVolumeManager) : res portal_error bool * localVolumeManager :=
  match lv_request volumeID l with
  | None => (Err (mkPortalError (not_mounted volumeID) false), l)
  | Some st =>
      if rs_transferring st then (Err (mkPortalError ("volume " +:+ volumeID +:+ " handoff already in progress") false), l) else
      let st' := mkRequestState (rs_inFlight st) true (rs_lastAccess st) in
      handoff_turn ctx volumeID st' (lv_set volumeID st' l)
  end.

Definition lv_abortHandoff (now : Z) (volumeID : string) (l : localVolumeManager) : localVolumeManager :=
  match lm_requests l !! volumeID with
  | None => l
  | Some st => if rs_transferring st then lv_set volumeID (mkRequestState (rs_inFlight st) false now) l else l
  end.

Definition touch (now : Z) (volumeID : string) (l : localVolumeManager) : localVolumeManager :=
  match lm_requests l !! volumeID with
  | None => l
  | Some st => lv_set volumeID (mkRequestState (rs_inFlight st) (rs_transferring st) now) l
  end.

(** A zero time is no access. *)
Definition canCleanupOwnerOnly (volumeID : string) (cutoff : Z) (l : localVolumeManager) : bool :=
  match lv_request volumeID l with
  | None => false
  | Some st => negb (rs_transferring st || (0 <? rs_inFlight st)) && negb (rs_lastAccess st =? 0) && (rs_lastAccess st <=? cutoff)
  end.

(** The volume is saved and closed, its directory removed, and only then forgotten. *)
Definition UnmountVolume (volumeID : string) : PM unit :=
  let* m := manager in
  match lm_volumes (mg_volumes m) !! volumeID with
  | None => ret tt
  | Some _ =>
      do* node "" in
      do* node "" in
      do* node "" in
      alter_manager (fun m => set_local (lv_remove volumeID (mg_volumes m)) m)
  end.

(** ** The registry of owners (registry.go) *)

Definition ownerPodID (m : Manager) : string :=
  if negb (bool_decide (mg_podNamespace m = "")) && negb (bool_decide (mg_podName m = ""))
  then mg_podNamespace m +:+ "/" +:+ mg_podName m
  else mg_podName m.

Record SandboxVolume := mkSandboxVolume {
  sv_ID : string;
  sv_TeamID : string;
  sv_AccessMode : string
}.

Definition isTransferSourceMount (mount : VolumeMount) (sourceClusterID sourcePodID : string) : bool :=
  if decide (TrimSpace sourcePodID = "") then false else
  bool_decide (vm_PodID mount = TrimSpace sourcePodID)
  && bool_decide (ClusterIDOrDefault (Some (vm_ClusterID mount)) = ClusterIDOrDefault (Some sourceClusterID)).

Definition isConflictingMountForCtldBind `{UnicodeUpper} (mount : VolumeMount) (selfClusterID selfPodID : string) : bool :=
  if same_instance mount selfClusterID selfPodID then false else
  negb (bool_decide (mo_OwnerKind (DecodeMountOptions (vm_MountOptions mount)) = OwnerKindStorageProxy)).

Definition validateBindableAccessMode `{UnicodeUpper} (raw : string) : PM string :=
  let accessMode := NormalizeAccessMode raw in
  if bool_decide (accessMode = AccessModeRWO) || bool_decide (accessMode = AccessModeROX) then ret accessMode else
  if bool_decide (accessMode = AccessModeRWX) then failure "ctld volume portal does not support RWX volumes"
  else failure ("ctld volume portal does not support access_mode " +:+ String "034" (raw +:+ String "034" "")).

Definition heartbeatTimeout (m : Manager) : Z := if 0 <? mg_heartbeatTimeout m then mg_heartbeatTimeout m else 15.

(** The first portal but [exceptKey] that shows the volume. *)
Definition findBoundPortalForVolume (m : Manager) (volumeID exceptKey : string) : option portalMount :=
  if bool_decide (TrimSpace volumeID = "") then None else
  head (omap (fun e : string * nat =>
          match mg_objects m !! e.2 with
          | Some p => if negb (bool_decide (e.1 = exceptKey)) && bool_decide (po_volumeID p = volumeID) then Some p else None
          | None => None
          end) (map_to_list (mg_portals m))).

Definition boundMountPath (m : Manager) (volumeID exceptKey : string) : string :=
  match findBoundPortalForVolume m volumeID exceptKey with Some p => po_mountPath p | None => volumeID end.

Section ctld.
  Context `{UnicodeUpper}.
  (** The column [team_id] of the volumes. *)
  Context (team_of : string -> string).

Definition GetSandboxVolume (volumeID : string) : DBM SandboxVolume :=
  stmt "query sandbox volume" (fun d =>
    (match db_volumes d !! volumeID with
     | Some mode => Ok (mkSandboxVolume volumeID (team_of volumeID) mode)
     | None => Err ErrNotFound
     end, d)).

Definition validateBindableVolume (volumeID teamID sourceClusterID sourcePodID : string) : PM SandboxVolume :=
  let* vol := repository (GetSandboxVolume volumeID) in
  if negb (bool_decide (TrimSpace (sv_TeamID vol) = TrimSpace teamID))
  then failure ("volume " +:+ volumeID +:+ " does not belong to team " +:+ teamID) else
  let* accessMode := validateBindableAccessMode (sv_AccessMode vol) in
  if bool_decide (accessMode = AccessModeROX) then ret vol else
  let* m := manager in
  let* mounts := repository (GetActiveMounts volumeID (heartbeatTimeout m)) in
  match filter (fun a => negb (isTransferSourceMount a sourceClusterID sourcePodID)
                         && isConflictingMountForCtldBind a (mg_clusterID m) (ownerPodID m)) mounts with
  | a :: _ => failure ("volume " +:+ volumeID +:+ " already has an active owner on " +:+ vm_ClusterID a +:+ "/" +:+ vm_PodID a)
  | [] => ret vol
  end.

(** The row is written, and the goroutine that keeps it alive is started. *)
Definition registerOwner (id : string) (now : Z) (volumeID sourceClusterID sourcePodID : string) : PM unit :=
  let* m := manager in
  match mg_boundVolumes m !! volumeID with
  | None => failure "ctld volume registry unavailable"
  | Some bound =>
      if bool_decide (volumeID = "") then failure "ctld volume registry unavailable" else
      if bool_decide (ownerPodID m = "") then failure "ctld pod identity unavailable" else
      let opts := mkMountOptions (bv_access bound) OwnerKindCtld 8095 (mg_nodeName m) (mg_podNamespace m) in
      let mount := mkVolumeMount id volumeID (mg_clusterID m) (ownerPodID m) now (bv_mountedAt bound) (Some (Some opts)) in
      do* repository
        (if negb (bool_decide (sourceClusterID = "")) && negb (bool_decide (sourcePodID = ""))
         then TransferMount volumeID sourceClusterID sourcePodID mount (heartbeatTimeout m)
         else AcquireMount mount (heartbeatTimeout m)) in
      alter_manager (fun m => set_bound (<[volumeID :=
        mkBoundVolume (bv_volumeID bound) (bv_teamID bound) (bv_access bound) (bv_mountedAt bound) (bv_refCount bound)
          true (bv_materializing bound)]> (mg_boundVolumes m)) m)
  end.

Definition heartbeat_tick (volumeID : string) : PM unit :=
  let* m := manager in
  ignoring (repository (UpdateMountHeartbeat volumeID (mg_clusterID m) (ownerPodID m))).

Definition unregisterOwner (volumeID : string) : PM unit :=
  let* m := manager in
  if bool_decide (volumeID = "") then ret tt else
  ignoring (repository (DeleteMount volumeID (mg_clusterID m) (ownerPodID m))).

(** ** Portals (manager.go) *)

Definition NormalizePortalName (name mountPath : string) : string :=
  let name := TrimSpace name in
  if negb (bool_decide (name = "")) then name else
  let mountPath := Trim (TrimSpace mountPath) "/" in
  str_map (fun c => if bool_decide (c = "/"%char) || bool_decide (c = "_"%char) || bool_decide (c = "."%char) then "-"%char else c) mountPath.

Definition portalKey (podUID name : string) : string := podUID +:+ String "000" name.

Record publishRequest := mkPublishRequest {
  pr_Namespace : string;
  pr_PodName : string;
  pr_PodUID : string;
  pr_Name : string;
  pr_MountPath : string;
  pr_TargetPath : string
}.

(** Whether the portal is there already. *)
Definition publish_begin (ctx : option string) (req : publishRequest) : PM bool :=
  do* check_ctx ctx in
  if bool_decide (pr_TargetPath req = "") then failure "target path is required" else
  if bool_decide (pr_PodUID req = "") then failure "pod uid is required" else
  if bool_decide (pr_Name req = "") then failure "portal name is required" else
  let* m := manager in
  match mg_portals m !! portalKey (pr_PodUID req) (pr_Name req) with
  | Some existing =>
      do* alter_manager (fun m => set_portals (mg_portals m) (<[pr_TargetPath req := existing]> (mg_portalsByTarget m)) m) in
      ret true
  | None => ret false
  end.

(** [mountPortalFS]: the server is made, then its mount is waited for. *)
Definition mountPortalFS : PM unit :=
  do* node "mount volume portal fuse: " in
  node "wait for volume portal mount: ".

Definition publish_commit (req : publishRequest) : PM unit :=
  alter_manager (fun m =>
    let pm := mkPortalMount (pr_Namespace req) (pr_PodName req) (pr_PodUID req) (pr_Name req) (pr_MountPath req)
                (pr_TargetPath req) true "" "" 0 in
    let i := length (mg_objects m) in
    set_portals (<[portalKey (pr_PodUID req) (pr_Name req) := i]> (mg_portals m))
      (<[pr_TargetPath req := i]> (mg_portalsByTarget m)) (set_objects (mg_objects m ++ [pm]) m)).

Definition PublishPortal (ctx : option string) (req : publishRequest) : PM unit :=
  let* existing := publish_begin ctx req in
  if existing then ret tt else
  do* node "create portal target: " in
  do* mountPortalFS in
  publish_commit req.

Definition portal_of (m : Manager) (key : string) : option (nat * portalMount) :=
  match mg_portals m !! key with
  | Some i => match mg_objects m !! i with Some p => Some (i, p) | None => None end
  | None => None
  end.

Definition attachPortalLocked (i : nat) (volumeID teamID : string) (mountedAt : Z) (m : Manager) : Manager :=
  set_objects (alter (set_binding volumeID teamID mountedAt) i (mg_objects m)) m.

Definition clearPortalLocked (i : nat) (m : Manager) : Manager :=
  set_objects (alter (set_binding "" "" 0) i (mg_objects m)) m.

Record BindVolumePortalRequest := mkBindRequest {
  bq_Namespace : string;
  bq_PodName : string;
  bq_PodUID : string;
  bq_PortalName : string;
  bq_MountPath : string;
  bq_SandboxID : string;
  bq_TeamID : string;
  bq_SandboxVolumeID : string;
  bq_TransferSourceClusterID : string;
  bq_TransferSourcePodID : string
}.

(** The time is not yet printed. *)
Record BindVolumePortalResponse := mkBindResponse {
  br_SandboxVolumeID : string;
  br_MountPoint : string;
  br_MountedAt : Z
}.

Definition boundResponse (pm : portalMount) : BindVolumePortalResponse :=
  mkBindResponse (po_volumeID pm) (po_mountPath pm) (po_mountedAt pm).

Definition not_published (portalName podUID : string) : string :=
  "volume portal " +:+ portalName +:+ " for pod " +:+ podUID +:+ " is not published".

(** The checks under the lock, which are made before the volume is opened and again after
    it: the portal may be bound by now, and the volume may be open on this node. *)
Definition attach_existing (req : BindVolumePortalRequest) (portalName teamID accessMode : string) (mountedAt : Z) : PM (option BindVolumePortalResponse) :=
  let volumeID := bq_SandboxVolumeID req in
  let key := portalKey (bq_PodUID req) portalName in
  let* m := manager in
  match portal_of m key with
  | None => failure (not_published portalName (bq_PodUID req))
  | Some (i, pm) =>
      if negb (bool_decide (po_volumeID pm = "")) then
        if negb (bool_decide (po_volumeID pm = volumeID)) then failure ("volume portal already bound to " +:+ po_volumeID pm)
        else ret (Some (boundResponse pm))
      else
      let attach refCount bound :=
        do* alter_manager (fun m =>
          set_bound (<[volumeID := set_refCount refCount bound]> (mg_boundVolumes m))
            (attachPortalLocked i volumeID teamID mountedAt m)) in
        ret (Some (boundResponse (set_binding volumeID teamID mountedAt pm))) in
      match mg_boundVolumes m !! volumeID with
      | Some bound =>
          if bv_refCount bound =? 0 then attach 1 bound else
          if negb (bool_decide (accessMode = AccessModeROX))
          then failure ("volume " +:+ volumeID +:+ " is already bound to " +:+ boundMountPath m volumeID key)
          else attach (bv_refCount bound + 1) bound
      | None =>
          match findBoundPortalForVolume m volumeID key with
          | Some existing => failure ("volume " +:+ volumeID +:+ " is already bound to " +:+ po_mountPath existing)
          | None => ret None
          end
      end
  end.

(** The directory, the object store, the encryption and the engine of a volume. *)
Definition open_volume : PM unit :=
  do* node "create local volume dir: " in
  do* node "create object storage: " in
  do* node "" in
  node "open local s0fs engine: ".

Definition startMaterializer (volumeID : string) (m : Manager) : Manager :=
  set_bound (alter (set_materializing true) volumeID (mg_boundVolumes m)) m.

(** The volume is entered in the maps with [refCount] and registered; a failure takes the
    entries out again, with [undo] for those of the caller. *)
Definition own_volume (id : string) (now : Z) (volumeID teamID accessMode : string) (mountedAt refCount : Z) (sourceClusterID sourcePodID : string)
    (undo : Manager -> Manager) : PM unit :=
  let bound := mkBoundVolume volumeID teamID accessMode mountedAt refCount false false in
  do* alter_manager (fun m =>
    set_local (lv_add now (mkLocalContext volumeID teamID accessMode mountedAt) (mg_volumes m))
      (set_bound (<[volumeID := bound]> (mg_boundVolumes m)) m)) in
  do* undoing (registerOwner id now volumeID sourceClusterID sourcePodID) "register ctld volume owner: "
    (fun m => set_local (lv_remove volumeID (mg_volumes m)) (set_bound (delete volumeID (mg_boundVolumes m)) (undo m))) in
  alter_manager (startMaterializer volumeID).

Definition bind_commit (id : string) (now : Z) (req : BindVolumePortalRequest) (portalName teamID accessMode : string) (mountedAt : Z) : PM BindVolumePortalResponse :=
  let volumeID := bq_SandboxVolumeID req in
  let* found := attach_existing req portalName teamID accessMode mountedAt in
  match found with
  | Some response => ret response
  | None =>
      let* m := manager in
      match portal_of m (portalKey (bq_PodUID req) portalName) with
      | None => failure (not_published portalName (bq_PodUID req))
      | Some (i, pm) =>
          do* alter_manager (attachPortalLocked i volumeID teamID mountedAt) in
          do* own_volume id now volumeID teamID accessMode mountedAt 1 (TrimSpace (bq_TransferSourceClusterID req))
            (TrimSpace (bq_TransferSourcePodID req)) (clearPortalLocked i) in
          ret (boundResponse (set_binding volumeID teamID mountedAt pm))
      end
  end.

(** What is checked before any lock is taken: the name of the portal, and the volume. *)
Definition bind_validate (ctx : option string) (req : BindVolumePortalRequest) : PM (string * SandboxVolume * string) :=
  do* check_ctx ctx in
  let portalName := NormalizePortalName (bq_PortalName req) (bq_MountPath req) in
  if bool_decide (portalName = "") then failure "portal name or mount path is required" else
  if bool_decide (bq_PodUID req = "") || bool_decide (bq_SandboxVolumeID req = "") || bool_decide (bq_TeamID req = "")
  then failure "pod_uid, sandboxvolume_id and team_id are required" else
  let* volumeRecord := validateBindableVolume (bq_SandboxVolumeID req) (bq_TeamID req)
    (TrimSpace (bq_TransferSourceClusterID req)) (TrimSpace (bq_TransferSourcePodID req)) in
  let* accessMode := validateBindableAccessMode (sv_AccessMode volumeRecord) in
  ret (portalName, volumeRecord, accessMode).

Definition Bind (ctx : option string) (id : string) (now : Z) (req : BindVolumePortalRequest) : PM BindVolumePortalResponse :=
  let* plan := bind_validate ctx req in
  let '(portalName, volumeRecord, accessMode) := plan in
  let* m := manager in
  match portal_of m (portalKey (bq_PodUID req) portalName) with
  | None => failure (not_published portalName (bq_PodUID req))
  | Some (_, pm) =>
      if bool_decide (po_volumeID pm = bq_SandboxVolumeID req) then ret (boundResponse pm) else
      if negb (bool_decide (po_volumeID pm = "")) then failure ("volume portal already bound to " +:+ po_volumeID pm) else
      let* found := attach_existing req portalName (sv_TeamID volumeRecord) accessMode now in
      match found with
      | Some response => ret response
      | None =>
          do* open_volume in
          bind_commit id now req portalName (sv_TeamID volumeRecord) accessMode now
      end
  end.

(** The goroutine that saves the volume is stopped, the volume unmounted, its entry
    deleted and its row taken out of the database. *)
Definition drop_volume (volumeID : string) : PM unit :=
  do* alter_manager (fun m => set_bound (alter (set_materializing false) volumeID (mg_boundVolumes m)) m) in
  do* UnmountVolume volumeID in
  do* alter_manager (fun m => set_bound (delete volumeID (mg_boundVolumes m)) m) in
  unregisterOwner volumeID.

Definition unbindLockedSnapshot (i : nat) (pm : portalMount) : PM unit :=
  let volumeID := po_volumeID pm in
  do* alter_manager (clearPortalLocked i) in
  if bool_decide (volumeID = "") then ret tt else
  let* m := manager in
  match mg_boundVolumes m !! volumeID with
  | None => ret tt
  | Some bound =>
      if 1 <? bv_refCount bound
      then alter_manager (fun m => set_bound (<[volumeID := set_refCount (bv_refCount bound - 1) bound]> (mg_boundVolumes m)) m)
      else drop_volume volumeID
  end.

Record UnbindVolumePortalRequest := mkUnbindRequest {
  uq_PodUID : string;
  uq_PortalName : string;
  uq_MountPath : string
}.

Definition Unbind (ctx : option string) (req : UnbindVolumePortalRequest) : PM unit :=
  do* check_ctx ctx in
  let portalName := NormalizePortalName (uq_PortalName req) (uq_MountPath req) in
  if bool_decide (uq_PodUID req = "") || bool_decide (portalName = "")
  then failure "pod_uid and portal identity are required" else
  let* m := manager in
  match portal_of m (portalKey (uq_PodUID req) portalName) with
  | None => ret tt
  | Some (i, pm) => unbindLockedSnapshot i pm
  end.

(** The entries go first; the file system is only unmounted when unbinding succeeds. *)
Definition UnpublishPortal (targetPath : string) : PM unit :=
  let* m := manager in
  match mg_portalsByTarget m !! targetPath with
  | None => ret tt
  | Some i =>
      match mg_objects m !! i with
      | None => ret tt
      | Some pm =>
          do* alter_manager (fun m => set_portals (delete (portalKey (po_podUID pm) (po_name pm)) (mg_portals m))
                (delete targetPath (mg_portalsByTarget m)) m) in
          do* unbindLockedSnapshot i pm in
          do* node "" in
          alter_manager (fun m => set_objects (alter stop_serving i (mg_objects m)) m)
      end
  end.

(** The names of the portals that are not published. *)
Definition CheckPublished (ctx : option string) (podUID : string) (portals : list (string * string)) : PM (list string) :=
  do* check_ctx ctx in
  if bool_decide (TrimSpace podUID = "") then failure "pod_uid is required" else
  let* m := manager in
  ret (filter (fun name => negb (bool_decide (name = "")) && bool_decide (mg_portals m !! portalKey podUID name = None))
         ((fun p => NormalizePortalName p.1 p.2) <$> portals)).

(** ** Owners without a portal *)

Definition touch_volume (now : Z) (volumeID : string) : PM unit :=
  alter_manager (fun m => set_local (touch now volumeID (mg_volumes m)) m).

Definition attach_commit (id : string) (now : Z) (volumeID teamID accessMode : string) (mountedAt : Z) : PM unit :=
  let* m := manager in
  match mg_boundVolumes m !! volumeID with
  | Some _ => touch_volume now volumeID
  | None => own_volume id now volumeID teamID accessMode mountedAt 0 "" "" (fun m => m)
  end.

Definition AttachOwner (ctx : option string) (id : string) (now : Z) (teamID volumeID : string) : PM unit :=
  do* check_ctx ctx in
  if bool_decide (TrimSpace volumeID = "") || bool_decide (TrimSpace teamID = "")
  then failure "sandboxvolume_id and team_id are required" else
  let* volumeRecord := validateBindableVolume volumeID teamID "" "" in
  let* accessMode := validateBindableAccessMode (sv_AccessMode volumeRecord) in
  let* m := manager in
  match mg_boundVolumes m !! volumeID with
  | Some _ => touch_volume now volumeID
  | None =>
      do* open_volume in
      attach_commit id now volumeID (sv_TeamID volumeRecord) accessMode now
  end.

(** ** Handoffs *)

(** A step of the local manager, its error as it is. *)
Definition local {A} (f : localVolumeManager -> res portal_error A * localVolumeManager) : PM A := fun '(m, d) =>
  let '(r, l) := f (mg_volumes m) in (r, (set_local l m, d)).

(** Up to the wait for the requests that are under way: whether there are none. *)
Definition prepare_begin (ctx : option string) (sandboxVolumeID : string) : PM bool :=
  let volumeID := TrimSpace sandboxVolumeID in
  if bool_decide (volumeID = "") then failure "sandboxvolume_id is required" else
  let* m := manager in
  match mg_boundVolumes m !! volumeID with
  | None => failure ("volume " +:+ volumeID +:+ " is not owned by this ctld")
  | Some bound =>
      if 0 <? bv_refCount bound then failure ("volume " +:+ volumeID +:+ " is actively bound to a portal") else
      local (lv_prepareHandoff ctx volumeID)
  end.

(** The requests under way end one after the other; the last wakes the handoff.  The end
    of the context does not wake it. *)
Fixpoint drain (now : Z) (n : nat) (volumeID : string) (l : localVolumeManager) : localVolumeManager :=
  match n with
  | O => l
  | S n => drain now n volumeID (release now volumeID l)
  end.

Definition drain_requests (now : Z) (volumeID : string) : PM unit :=
  alter_manager (fun m =>
    match lm_requests (mg_volumes m) !! volumeID with
    | Some st => set_local (drain now (Z.to_nat (rs_inFlight st)) volumeID (mg_volumes m)) m
    | None => m
    end).

Definition prepare_finish (now : Z) (sandboxVolumeID : string) : PM unit :=
  undoing (node "") "" (fun m => set_local (lv_abortHandoff now (TrimSpace sandboxVolumeID) (mg_volumes m)) m).

Definition PrepareHandoff (ctx : option string) (now : Z) (sandboxVolumeID : string) : PM unit :=
  let* idle := prepare_begin ctx sandboxVolumeID in
  do* (if idle then ret tt else drain_requests now (TrimSpace sandboxVolumeID)) in
  prepare_finish now sandboxVolumeID.

Definition abortHandoff (now : Z) (volumeID : string) : PM unit :=
  alter_manager (fun m => set_local (lv_abortHandoff now volumeID (mg_volumes m)) m).

(** The second critical section of [CompleteHandoff]. *)
Definition complete_locked (volumeID : string) : PM unit :=
  let* m := manager in
  match mg_boundVolumes m !! volumeID with
  | None => ret tt
  | Some _ => drop_volume volumeID
  end.

Definition CompleteHandoff (now : Z) (sandboxVolumeID : string) : PM unit :=
  let volumeID := TrimSpace sandboxVolumeID in
  if bool_decide (volumeID = "") then failure "sandboxvolume_id is required" else
  do* abortHandoff now volumeID in
  complete_locked volumeID.

Definition AbortHandoff (now : Z) (sandboxVolumeID : string) : PM unit :=
  let volumeID := TrimSpace sandboxVolumeID in
  if bool_decide (volumeID = "") then failure "sandboxvolume_id is required" else
  abortHandoff now volumeID.

(** ** Owners that are idle *)

Definition idle_owner (m : Manager) (now : Z) (volumeID : string) (bound : boundVolume) : bool :=
  negb (0 <? bv_refCount bound) && canCleanupOwnerOnly volumeID (now - mg_ownerOnlyIdleTTL m) (mg_volumes m).

Definition releaseOwnerOnlyVolume (now : Z) (volumeID : string) : PM unit :=
  let* m := manager in
  match mg_boundVolumes m !! volumeID with
  | None => ret tt
  | Some bound => if idle_owner m now volumeID bound then drop_volume volumeID else ret tt
  end.

Fixpoint release_each (now : Z) (volumeIDs : list string) : PM unit :=
  match volumeIDs with
  | [] => ret tt
  | volumeID :: rest => do* ignoring (releaseOwnerOnlyVolume now volumeID) in release_each now rest
  end.

Definition cleanupIdleOwnerOnlyVolumes (now : Z) : PM unit :=
  let* m := manager in
  if mg_ownerOnlyIdleTTL m <=? 0 then ret tt else
  release_each now ((filter (fun e => idle_owner m now e.1 e.2) (map_to_list (mg_boundVolumes m))).*1).

End ctld.
