(* ===== verification/PortalSpec.v ===== *)
(** * ctld: what the portals of a node promise

    On one node, at most one portal shows a volume that has a single writer, however the
    critical sections of the handlers interleave; a handoff holds every request back from
    the moment it is prepared. *)

From stdpp Require Import base gmap strings list fin_maps numbers sorting relations.
From Stdlib Require Import Strings.Byte Strings.Ascii Lia.
From S2P Require Import Prelude GoStd GoText Volume Notify Mounts KubeNames Portal.

Local Open Scope Z_scope.

(** ** The portals that show a volume *)

Definition shows (v : string) (os : list portalMount) : Z := zlen (filter (fun p => po_volumeID p = v) os).

Definition one_if (b : bool) : Z := if b then 1 else 0.

Lemma shows_cons v p os : shows v (p :: os) = one_if (bool_decide (po_volumeID p = v)) + shows v os.
Proof.
  unfold shows, zlen. rewrite filter_cons. unfold one_if.
  case_decide; [rewrite bool_decide_true by done|rewrite bool_decide_false by done]; cbn [length]; lia.
Qed.

Lemma shows_nonneg v os : 0 <= shows v os.
Proof. unfold shows, zlen. lia. Qed.

Lemma shows_app v os ps : shows v (os ++ ps) = shows v os + shows v ps.
Proof. unfold shows, zlen. rewrite filter_app, length_app. lia. Qed.

Lemma shows_alter v f i os p :
  os !! i = Some p ->
  shows v (alter f i os) = shows v os - one_if (bool_decide (po_volumeID p = v)) + one_if (bool_decide (po_volumeID (f p) = v)).
Proof.
  revert i. induction os as [|q os IH]; intros [|i] Hi; try done.
  - injection Hi as ->. change (alter f O (p :: os)) with (f p :: os). rewrite !shows_cons. lia.
  - change (alter f (S i) (q :: os)) with (q :: alter f i os). rewrite !shows_cons, (IH i Hi). lia.
Qed.

Lemma alter_none f i (os : list portalMount) : os !! i = None -> alter f i os = os.
Proof.
  revert i. induction os as [|q os IH]; intros [|i] Hi; try done.
  change (alter f (S i) (q :: os)) with (q :: alter f i os). f_equal. by apply IH.
Qed.

Lemma shows_alter_same v f i os :
  (forall p, po_volumeID (f p) = po_volumeID p) -> shows v (alter f i os) = shows v os.
Proof.
  intros Hf. destruct (os !! i) as [p|] eqn:Hi.
  - rewrite (shows_alter _ _ _ _ _ Hi), Hf. lia.
  - by rewrite alter_none.
Qed.

(** ** The invariant *)

Definition refs (bs : gmap string boundVolume) (v : string) : Z :=
  match bs !! v with Some b => bv_refCount b | None => 0 end.

(** No more portals show a volume than it counts, and a volume that is not read-only
    counts one at most. *)
Definition portal_ok (mode : string -> string) (os : list portalMount) (bs : gmap string boundVolume) : Prop :=
  forall v, v <> "" -> shows v os <= refs bs v /\ (mode v <> AccessModeROX -> refs bs v <= 1).

Definition manager_ok (mode : string -> string) (m : Manager) : Prop := portal_ok mode (mg_objects m) (mg_boundVolumes m).

Lemma refs_insert bs v b w : refs (<[v := b]> bs) w = if decide (v = w) then bv_refCount b else refs bs w.
Proof. unfold refs. case_decide; subst; [by rewrite lookup_insert_eq|by rewrite lookup_insert_ne]. Qed.

Lemma refs_delete bs v w : refs (delete v bs) w = if decide (v = w) then 0 else refs bs w.
Proof. unfold refs. case_decide; subst; [by rewrite lookup_delete_eq|by rewrite lookup_delete_ne]. Qed.

Lemma refs_alter f bs v w : (forall b, bv_refCount (f b) = bv_refCount b) -> refs (alter f v bs) w = refs bs w.
Proof.
  intros Hf. unfold refs. destruct (decide (v = w)) as [->|Hn].
  - rewrite lookup_alter_eq. destruct (bs !! w); cbn; auto.
  - by rewrite lookup_alter_ne.
Qed.

Lemma one_if_bound b : 0 <= one_if b <= 1.
Proof. destruct b; cbn; lia. Qed.

(** What a step does to one volume, the others being as they were. *)
Lemma portal_ok_one mode os bs os' bs' v :
  portal_ok mode os bs ->
  (forall w, w <> v -> w <> "" -> shows w os' <= shows w os /\ refs bs' w = refs bs w) ->
  (v <> "" -> shows v os' <= refs bs' v /\ (mode v <> AccessModeROX -> refs bs' v <= 1)) ->
  portal_ok mode os' bs'.
Proof.
  intros Hok Ho Hv w Hw. destruct (decide (w = v)) as [->|Hn]; [auto|].
  destruct (Ho w Hn Hw) as [H1 ->], (Hok w Hw). split; [lia|auto].
Qed.

Lemma portal_ok_same mode os bs os' bs' :
  portal_ok mode os bs -> (forall w, w <> "" -> shows w os' <= shows w os) -> (forall w, refs bs' w = refs bs w) ->
  portal_ok mode os' bs'.
Proof. intros Hok Ho Hb w Hw. rewrite Hb. specialize (Ho w Hw). destruct (Hok w Hw). split; [lia|auto]. Qed.

(** ** Steps that keep it *)

Definition keeps {A} (mode : string -> string) (f : PM A) : Prop :=
  forall m d, manager_ok mode m -> manager_ok mode (f (m, d)).2.1.

Section keeps.
  Context (mode : string -> string).

Lemma keeps_ret {A} (a : A) : keeps mode (ret a).
Proof. by intros m d. Qed.
Lemma keeps_failure {A} t : keeps mode (@failure A t).
Proof. by intros m d. Qed.
Lemma keeps_check ctx : keeps mode (check_ctx ctx).
Proof. by destruct ctx; intros m d. Qed.
Lemma keeps_node p : keeps mode (node p).
Proof. intros m d Hok. unfold node. by destruct (mg_outcomes m) as [|[e|] os]. Qed.
Lemma keeps_repository {A} (q : DBM A) : keeps mode (repository q).
Proof. intros m d Hok. unfold repository. by destruct (q d) as [[| |] d']. Qed.
Lemma keeps_ignoring f : keeps mode f -> keeps mode (ignoring f).
Proof. intros Hf m d Hok. specialize (Hf m d Hok). unfold ignoring. by destruct (f (m, d)) as [[| |] s']. Qed.
Lemma keeps_local {A} (f : localVolumeManager -> res portal_error A * localVolumeManager) : keeps mode (local f).
Proof. intros m d Hok. unfold local. by destruct (f (mg_volumes m)) as [r l]. Qed.

Lemma keeps_alter f : (forall m, manager_ok mode m -> manager_ok mode (f m)) -> keeps mode (alter_manager f).
Proof. intros Hf m d Hok. by apply Hf. Qed.

Lemma keeps_bind {A B} (f : PM A) (k : A -> PM B) : keeps mode f -> (forall a, keeps mode (k a)) -> keeps mode (bind f k).
Proof.
  intros Hf Hk m d Hok. specialize (Hf m d Hok). unfold bind.
  destruct (f (m, d)) as [[a|e|] [m' d']]; [by apply Hk|done..].
Qed.

(** The manager is read: the rest is looked at where it runs. *)
Lemma keeps_manager {B} (k : Manager -> PM B) :
  (forall m d, manager_ok mode m -> manager_ok mode (k m (m, d)).2.1) -> keeps mode (bind manager k).
Proof. intros Hk m d Hok. by apply Hk. Qed.

Lemma manager_set_local l m : manager_ok mode m -> manager_ok mode (set_local l m).
Proof. done. Qed.

End keeps.

Create HintDb portal.
#[export] Hint Resolve keeps_ret keeps_failure keeps_check keeps_node keeps_repository keeps_ignoring keeps_local keeps_bind manager_set_local : portal.

(** Steps that leave the portals and the bound volumes as they are. *)
Definition frames {A} (f : PM A) : Prop := forall m d,
  mg_objects (f (m, d)).2.1 = mg_objects m /\ mg_boundVolumes (f (m, d)).2.1 = mg_boundVolumes m.

Lemma frames_node p : frames (node p).
Proof. intros m d. unfold node. by destruct (mg_outcomes m) as [|[e|] os]. Qed.

Lemma frames_repository {A} (q : DBM A) : frames (repository q).
Proof. intros m d. unfold repository. by destruct (q d) as [[| |] d']. Qed.

Lemma frames_bind {A B} (f : PM A) (k : A -> PM B) : frames f -> (forall a, frames (k a)) -> frames (bind f k).
Proof.
  intros Hf Hk m d. specialize (Hf m d). unfold bind. destruct (f (m, d)) as [[a|e|] [m' d']]; cbn in *; [|done..].
  destruct Hf as [<- <-]. apply Hk.
Qed.

Lemma frames_keeps {A} mode (f : PM A) : frames f -> keeps mode f.
Proof. intros Hf m d Hok. unfold manager_ok. by destruct (Hf m d) as [-> ->]. Qed.

Lemma frames_UnmountVolume v : frames (UnmountVolume v).
Proof.
  unfold UnmountVolume. apply frames_bind; [done|]. intros m. destruct (lm_volumes (mg_volumes m) !! v); [|done].
  repeat (apply frames_bind; [apply frames_node|intros _]). done.
Qed.

Lemma drop_volume_ok mode v m d :
  manager_ok mode m -> (v <> "" -> shows v (mg_objects m) <= 0) -> manager_ok mode (drop_volume v (m, d)).2.1.
Proof.
  intros Hok Hv. unfold drop_volume, alter_manager. cbn.
  set (m1 := set_bound (alter (set_materializing false) v (mg_boundVolumes m)) m).
  assert (Hr : forall w, refs (mg_boundVolumes m1) w = refs (mg_boundVolumes m) w) by (intros w; by apply refs_alter).
  assert (H1 : manager_ok mode m1) by (apply (portal_ok_same _ _ _ _ _ Hok); [intros w _; cbn; lia|done]).
  pose proof (frames_UnmountVolume v m1 d) as [Ho Hb]. unfold bind at 1.
  destruct (UnmountVolume v (m1, d)) as [[[]|e|] [m2 d2]]; cbn in *;
    [|unfold manager_ok; rewrite Ho, Hb; apply H1..].
  assert (H2 : manager_ok mode (set_bound (delete v (mg_boundVolumes m2)) m2)).
  { apply (portal_ok_one _ _ _ _ _ v Hok); cbn; rewrite Ho, Hb.
    - intros w Hw _. split; [cbn; lia|]. rewrite refs_delete, decide_False by done. apply Hr.
    - intros Hn. rewrite refs_delete, decide_True by done. cbn. specialize (Hv Hn). split; lia. }
  unfold unregisterOwner, bind, manager, gets. case_bool_decide; [done|].
  apply keeps_ignoring; [apply keeps_repository|exact H2].
Qed.

Lemma clear_shows v i os p :
  os !! i = Some p -> v <> "" ->
  shows v (alter (set_binding "" "" 0) i os) = shows v os - one_if (bool_decide (po_volumeID p = v)).
Proof.
  intros Hi Hv. rewrite (shows_alter _ _ _ _ _ Hi). cbn. rewrite (bool_decide_false ("" = v)) by congruence. cbn. lia.
Qed.

Lemma attach_shows w v t at_ i os p :
  os !! i = Some p -> po_volumeID p = "" -> w <> "" ->
  shows w (alter (set_binding v t at_) i os) = shows w os + one_if (bool_decide (v = w)).
Proof.
  intros Hi Hp Hw. rewrite (shows_alter _ _ _ _ _ Hi). cbn. rewrite Hp, (bool_decide_false ("" = w)) by congruence. cbn. lia.
Qed.

Lemma unbind_ok mode i pm m d :
  manager_ok mode m -> mg_objects m !! i = Some pm -> manager_ok mode (unbindLockedSnapshot i pm (m, d)).2.1.
Proof.
  intros Hok Hi. unfold unbindLockedSnapshot, alter_manager, clearPortalLocked. cbn.
  set (v := po_volumeID pm). set (m1 := set_objects _ m).
  assert (Hs : forall w, w <> "" -> shows w (mg_objects m1) = shows w (mg_objects m) - one_if (bool_decide (v = w)))
    by (intros w; by apply clear_shows).
  assert (H1 : manager_ok mode m1).
  { apply (portal_ok_same _ _ _ _ _ Hok); [|done]. intros w Hw. rewrite (Hs w Hw). pose proof (one_if_bound (bool_decide (v = w))). lia. }
  case_bool_decide as Hv; [done|]. unfold bind, manager, gets. cbn [fst].
  change (mg_boundVolumes m1) with (mg_boundVolumes m). destruct (mg_boundVolumes m !! v) as [b|] eqn:Hb; [|done].
  destruct (Hok v Hv) as [Hle _]. unfold refs in Hle. rewrite Hb in Hle.
  specialize (Hs v Hv) as Hsv. rewrite bool_decide_true in Hsv by done. cbn [one_if] in Hsv.
  destruct (1 <? bv_refCount b) eqn:Hc.
  - apply (portal_ok_one _ _ _ _ _ v H1); cbn; change (mg_boundVolumes m1) with (mg_boundVolumes m).
    + intros w Hw _. split; [lia|]. by rewrite refs_insert, decide_False.
    + intros _. rewrite refs_insert, decide_True by done. split; [change (shows v (mg_objects m1) <= bv_refCount b - 1); lia|].
      intros Hm. cbn [set_refCount bv_refCount]. destruct (Hok v Hv) as [_ H2]. specialize (H2 Hm). unfold refs in H2. rewrite Hb in H2. lia.
  - apply drop_volume_ok; [done|]. intros _. rewrite Hsv. lia.
Qed.

Lemma registerOwner_effect `{UnicodeUpper} id now v sc sp m d :
  let s' := registerOwner id now v sc sp (m, d) in
  (s'.1 <> Ok tt /\ s'.2.1 = m) \/
  (s'.1 = Ok tt /\ exists b b', mg_boundVolumes m !! v = Some b /\ bv_refCount b' = bv_refCount b
    /\ s'.2.1 = set_bound (<[v := b']> (mg_boundVolumes m)) m).
Proof.
  cbv zeta. unfold registerOwner. cbn [bind manager gets fst].
  destruct (mg_boundVolumes m !! v) as [b|] eqn:Hb; [|left; split; [cbn; congruence|done]].
  case_bool_decide; [left; split; [cbn; congruence|done]|]. case_bool_decide; [left; split; [cbn; congruence|done]|].
  unfold bind, repository. destruct (_ d) as [[[]|e|] d'] eqn:Hq; [right|left; split; [cbn; congruence|done]..].
  split; [done|]. eexists b, _. split; [done|]. split; [|reflexivity]. done.
Qed.

Lemma own_volume_ok `{UnicodeUpper} mode id now v t access at_ n sc sp undo m0 m d :
  manager_ok mode m0 -> refs (mg_boundVolumes m0) v = 0 -> 0 <= n <= 1 ->
  mg_boundVolumes m = mg_boundVolumes m0 ->
  (forall w, w <> "" -> shows w (mg_objects m) = shows w (mg_objects m0) + (if decide (v = w) then n else 0)) ->
  (forall m1, mg_objects m1 = mg_objects m -> forall w, w <> "" -> shows w (mg_objects (undo m1)) = shows w (mg_objects m0)) ->
  manager_ok mode (own_volume id now v t access at_ n sc sp undo (m, d)).2.1.
Proof.
  intros Hok Hv Hn Hb Hs Hu1. unfold own_volume, alter_manager. cbn.
  set (b0 := mkBoundVolume v t access at_ n false false). set (m1 := set_local _ _).
  assert (Hm1 : forall b', bv_refCount b' = n -> portal_ok mode (mg_objects m) (<[v := b']> (mg_boundVolumes m))).
  { intros b' Hb'. apply (portal_ok_one _ _ _ _ _ v Hok).
    - intros w Hw Hne. rewrite (Hs w Hne), refs_insert, Hb, !decide_False by done. split; [lia|done].
    - intros Hne. rewrite (Hs v Hne), refs_insert, !decide_True, Hb' by done. destruct (Hok v Hne). lia. }
  unfold undoing. pose proof (registerOwner_effect id now v sc sp m1 d) as He. cbv zeta in He. unfold bind at 1.
  destruct (registerOwner id now v sc sp (m1, d)) as [[[]|e|] [m2 d2]]; cbn [fst snd] in *.
  - destruct He as [[? _]|(_ & b & b' & Hlb & Hr & ->)]; [done|].
    assert (Hbv : b = b0) by (cbn in Hlb; rewrite lookup_insert_eq in Hlb; congruence). subst b.
    apply (portal_ok_same _ (mg_objects m) (<[v := b']> (mg_boundVolumes m)) _ _ (Hm1 b' Hr)); [intros w _; cbn; lia|].
    intros w. cbn. rewrite refs_alter by done. rewrite !refs_insert. by destruct (decide (v = w)).
  - destruct He as [[_ ->]|[? _]]; [|done]. cbn [fst snd].
    apply (portal_ok_same _ _ _ _ _ Hok); cbn.
    + intros w Hw. rewrite Hu1 by done. lia.
    + intros w. rewrite refs_delete, refs_insert, Hb. destruct (decide (v = w)) as [<-|]; [by rewrite Hv|done].
  - destruct He as [[_ ->]|[? _]]; [|done]. by apply (Hm1 b0).
Qed.

Lemma portal_of_object m key i pm : portal_of m key = Some (i, pm) -> mg_objects m !! i = Some pm.
Proof. unfold portal_of. destruct (mg_portals m !! key) as [j|]; [|done]. destruct (mg_objects m !! j) eqn:Hj; naive_solver. Qed.

(** Attaching a portal that shows nothing to a volume that is open. *)
Lemma attach_open_ok mode i pm v t at_ n b m :
  manager_ok mode m -> mg_objects m !! i = Some pm -> po_volumeID pm = "" -> mg_boundVolumes m !! v = Some b ->
  n = bv_refCount b + 1 -> (mode v <> AccessModeROX -> bv_refCount b <= 0) ->
  manager_ok mode (set_bound (<[v := set_refCount n b]> (mg_boundVolumes m)) (attachPortalLocked i v t at_ m)).
Proof.
  intros Hok Hi Hp Hb -> Hm. apply (portal_ok_one _ _ _ _ _ v Hok); cbn.
  - intros w Hw Hne. rewrite (attach_shows _ _ _ _ _ _ _ Hi Hp Hne), bool_decide_false, refs_insert, decide_False by done.
    cbn. split; [lia|done].
  - intros Hne. rewrite (attach_shows _ _ _ _ _ _ _ Hi Hp Hne), bool_decide_true, refs_insert, decide_True by done.
    destruct (Hok v Hne) as [Hle _]. unfold refs in Hle. rewrite Hb in Hle. cbn. split; [lia|]. intros Hx. specialize (Hm Hx). lia.
Qed.

(** The checks under the lock leave the manager as it is, or attach the portal; and when
    they find nothing the volume is not open here and the portal shows nothing. *)
Lemma attach_existing_ok mode req name t access at_ m d :
  manager_ok mode m -> access = mode (bq_SandboxVolumeID req) ->
  manager_ok mode (attach_existing req name t access at_ (m, d)).2.1.
Proof.
  intros Hok Ha. unfold attach_existing, bind at 1, manager, gets. cbn [fst].
  destruct (portal_of m _) as [[i pm]|] eqn:Hp; [|done]. apply portal_of_object in Hp.
  case_bool_decide as Hn; cbn [negb]; [|case_bool_decide; done].
  destruct (mg_boundVolumes m !! _) as [b|] eqn:Hb; [|destruct (findBoundPortalForVolume _ _ _); done].
  destruct (Z.eqb_spec (bv_refCount b) 0) as [H0|H0].
  - apply (attach_open_ok mode i pm); try done; lia.
  - case_bool_decide as Hx; cbn [negb]; [|done]. apply (attach_open_ok mode i pm); try done. congruence.
Qed.

Lemma attach_existing_none req name t access at_ m d s' :
  attach_existing req name t access at_ (m, d) = (Ok None, s') ->
  s' = (m, d) /\ mg_boundVolumes m !! bq_SandboxVolumeID req = None /\
  exists i pm, portal_of m (portalKey (bq_PodUID req) name) = Some (i, pm) /\ po_volumeID pm = "".
Proof.
  unfold attach_existing, bind at 1, manager, gets. cbn [fst].
  destruct (portal_of m _) as [[i pm]|] eqn:Hp; [|done].
  case_bool_decide as Hn; cbn [negb]; [|case_bool_decide; done].
  destruct (mg_boundVolumes m !! _) as [b|] eqn:Hb.
  - destruct (bv_refCount b =? 0); [done|]. case_bool_decide; done.
  - destruct (findBoundPortalForVolume _ _ _); [done|]. intros [= <-]. eauto 10.
Qed.

Lemma bind_commit_ok `{UnicodeUpper} mode id now req name t access at_ m d :
  manager_ok mode m -> access = mode (bq_SandboxVolumeID req) ->
  manager_ok mode (bind_commit id now req name t access at_ (m, d)).2.1.
Proof.
  intros Hok Ha. unfold bind_commit. pose proof (attach_existing_ok mode req name t access at_ m d Hok Ha) as Hx.
  unfold bind at 1. destruct (attach_existing _ _ _ _ _ (m, d)) as [[[r|]|e|] s'] eqn:Hat; [done| |done..].
  apply attach_existing_none in Hat as (-> & Hb & i & pm & Hp & Hn).
  unfold bind at 1, manager, gets. cbn [fst]. rewrite Hp. apply portal_of_object in Hp as Hi.
  unfold bind at 1, alter_manager, modify. cbn [fst snd].
  set (m1 := attachPortalLocked _ _ _ _ m).
  assert (Hown : manager_ok mode (own_volume id now (bq_SandboxVolumeID req) t access at_ 1
    (TrimSpace (bq_TransferSourceClusterID req)) (TrimSpace (bq_TransferSourcePodID req)) (clearPortalLocked i) (m1, d)).2.1).
  { apply (own_volume_ok mode _ _ _ _ _ _ _ _ _ _ m); try done; [unfold refs; by rewrite Hb|..].
    - intros w Hw. cbn. rewrite (attach_shows _ _ _ _ _ _ _ Hi Hn Hw). by repeat (case_decide || case_bool_decide).
    - intros m2 Ho w Hw. cbn. rewrite Ho. cbn.
      rewrite (clear_shows w i _ (set_binding (bq_SandboxVolumeID req) t at_ pm)); [|by rewrite list_lookup_alter_eq, Hi|done].
      rewrite (attach_shows _ _ _ _ _ _ _ Hi Hn Hw). cbn. lia. }
  unfold bind. by destruct (own_volume _ _ _ _ _ _ _ _ _ _ _) as [[|e|] [m2 d2]].
Qed.

Lemma attach_commit_ok `{UnicodeUpper} mode id now v t access at_ m d :
  manager_ok mode m -> manager_ok mode (attach_commit id now v t access at_ (m, d)).2.1.
Proof.
  intros Hok. unfold attach_commit, bind, manager, gets. cbn [fst].
  destruct (mg_boundVolumes m !! v) eqn:Hb; [done|].
  apply (own_volume_ok mode _ _ _ _ _ _ _ _ _ _ m); try done; [unfold refs; by rewrite Hb|..].
  - intros w Hw. case_decide; lia.
  - by intros m1 ->.
Qed.

Lemma publish_commit_ok mode req : keeps mode (publish_commit req).
Proof.
  apply keeps_alter. intros m Hok. apply (portal_ok_same _ _ _ _ _ Hok); cbn; [|done].
  intros w Hw. rewrite shows_app, shows_cons. cbn [po_volumeID]. rewrite bool_decide_false by congruence.
  change (shows w []) with 0. cbn [one_if]. lia.
Qed.

Lemma publish_begin_ok mode ctx req : keeps mode (publish_begin ctx req).
Proof.
  unfold publish_begin. apply keeps_bind; [auto with portal|intros _]. do 3 (case_bool_decide; [auto with portal|]).
  apply keeps_manager. intros m d Hok. by destruct (mg_portals m !! _).
Qed.

Lemma UnpublishPortal_ok mode t : keeps mode (UnpublishPortal t).
Proof.
  intros m d Hok. unfold UnpublishPortal, bind at 1, manager, gets. cbn [fst].
  destruct (mg_portalsByTarget m !! t) as [i|]; [|done]. destruct (mg_objects m !! i) as [pm|] eqn:Hi; [|done].
  unfold bind at 1, alter_manager, modify. cbn [fst snd]. set (m1 := set_portals _ _ m).
  pose proof (unbind_ok mode i pm m1 d Hok Hi) as Hu. unfold bind at 1.
  destruct (unbindLockedSnapshot i pm (m1, d)) as [[[]|e|] [m2 d2]]; [|done..].
  apply (keeps_bind mode (node "")); [auto with portal| |done].
  intros _. apply (keeps_alter mode (fun m => set_objects (alter stop_serving i (mg_objects m)) m)). intros m3 H3. apply (portal_ok_same _ _ _ _ _ H3); cbn; [|done].
  intros w _. rewrite shows_alter_same by done. lia.
Qed.

Lemma Unbind_ok mode ctx req : keeps mode (Unbind ctx req).
Proof.
  unfold Unbind. apply keeps_bind; [auto with portal|intros _]. case_match; [auto with portal|].
  apply keeps_manager. intros m d Hok. destruct (portal_of m _) as [[i pm]|] eqn:Hp; [|done].
  apply unbind_ok; [done|]. by apply portal_of_object in Hp.
Qed.

Lemma release_owner_ok mode now v : keeps mode (releaseOwnerOnlyVolume now v).
Proof.
  unfold releaseOwnerOnlyVolume. apply keeps_manager. intros m d Hok.
  destruct (mg_boundVolumes m !! v) as [b|] eqn:Hb; [|done]. destruct (idle_owner m now v b) eqn:Hi; [|done].
  apply drop_volume_ok; [done|]. intros Hv. destruct (Hok v Hv) as [Hle _]. unfold refs in Hle. rewrite Hb in Hle.
  unfold idle_owner in Hi. destruct (0 <? bv_refCount b) eqn:Hc; [done|]. lia.
Qed.

Lemma complete_ok mode v m d :
  manager_ok mode m -> refs (mg_boundVolumes m) v <= 0 -> manager_ok mode (complete_locked v (m, d)).2.1.
Proof.
  intros Hok Hr. unfold complete_locked, bind, manager, gets. cbn [fst].
  destruct (mg_boundVolumes m !! v) eqn:Hb; [|done]. apply drop_volume_ok; [done|].
  intros Hv. destruct (Hok v Hv) as [Hle _]. lia.
Qed.

Lemma prepare_begin_ok mode ctx v : keeps mode (prepare_begin ctx v).
Proof.
  unfold prepare_begin. case_bool_decide; [auto with portal|]. apply keeps_manager. intros m d Hok.
  destruct (mg_boundVolumes m !! _); [|done]. case_match; [done|]. by apply keeps_local.
Qed.

Lemma prepare_finish_ok mode now v : keeps mode (prepare_finish now v).
Proof.
  intros m d Hok. pose proof (keeps_node mode "" m d Hok) as H1. unfold prepare_finish, undoing.
  by destruct (node "" (m, d)) as [[|e|] [m1 d1]].
Qed.

(** ** Interleavings *)

(** The critical sections of the handlers, in any order and for any request; the database
    changes as it likes.  A handoff completes a volume that no portal shows any more; the
    access mode of a volume does not change. *)
Inductive pstep `{UnicodeUpper} (mode : string -> string) : Manager * DB -> Manager * DB -> Prop :=
| pstep_db m d d' : pstep mode (m, d) (m, d')
| pstep_node p s : pstep mode s (node p s).2
| pstep_publish_begin ctx req s : pstep mode s (publish_begin ctx req s).2
| pstep_publish_commit req s : pstep mode s (publish_commit req s).2
| pstep_unpublish t s : pstep mode s (UnpublishPortal t s).2
| pstep_bind_attach req name t at_ s :
    pstep mode s (attach_existing req name t (mode (bq_SandboxVolumeID req)) at_ s).2
| pstep_bind_commit id now req name t at_ s :
    pstep mode s (bind_commit id now req name t (mode (bq_SandboxVolumeID req)) at_ s).2
| pstep_unbind ctx req s : pstep mode s (Unbind ctx req s).2
| pstep_attach_commit id now v t at_ s : pstep mode s (attach_commit id now v t (mode v) at_ s).2
| pstep_local {A} (f : localVolumeManager -> res portal_error A * localVolumeManager) s : pstep mode s (local f s).2
| pstep_prepare_begin ctx v s : pstep mode s (prepare_begin ctx v s).2
| pstep_prepare_finish now v s : pstep mode s (prepare_finish now v s).2
| pstep_complete v s : refs (mg_boundVolumes s.1) v <= 0 -> pstep mode s (complete_locked v s).2
| pstep_release now v s : pstep mode s (releaseOwnerOnlyVolume now v s).2.

Lemma pstep_ok `{UnicodeUpper} mode s s' : pstep mode s s' -> manager_ok mode s.1 -> manager_ok mode s'.1.
Proof.
  intros Hs. destruct Hs; try (destruct s as [m d]); cbn [fst] in *; intros Hok; [done|..].
  - by apply keeps_node.
  - by apply publish_begin_ok.
  - by apply publish_commit_ok.
  - by apply UnpublishPortal_ok.
  - by apply attach_existing_ok.
  - by apply bind_commit_ok.
  - by apply Unbind_ok.
  - by apply attach_commit_ok.
  - by apply keeps_local.
  - by apply prepare_begin_ok.
  - by apply prepare_finish_ok.
  - by apply complete_ok.
  - by apply release_owner_ok.
Qed.

Lemma psteps_ok `{UnicodeUpper} mode s s' : rtc (pstep mode) s s' -> manager_ok mode s.1 -> manager_ok mode s'.1.
Proof. induction 1; eauto using pstep_ok. Qed.

Lemma NewManager_ok mode a b c e f g : manager_ok mode (NewManager a b c e f g).
Proof. intros v Hv. unfold NewManager, refs. cbn. rewrite lookup_empty. split; [done|lia]. Qed.


(** ** A handler is a sequence of critical sections *)

Lemma stmt_ok {A} w (f : DB -> res db_error A * DB) d a d' :
  stmt w f d = (Ok a, d') -> exists os, f (set_outcomes os d) = (Ok a, d').
Proof. unfold stmt. destruct d as [? ? ? ? ? ? ? [|[|] os]]; cbn; intros Hf; [by eexists []|done|by eexists os]. Qed.

Definition modes_are `{UnicodeUpper} (mode : string -> string) (d : DB) : Prop :=
  forall v raw, db_volumes d !! v = Some raw -> NormalizeAccessMode raw = mode v.

Lemma repository_ok {A} (q : DBM A) m d a s' :
  repository q (m, d) = (Ok a, s') -> exists d', q d = (Ok a, d') /\ s' = (m, d').
Proof. unfold repository. destruct (q d) as [[|e|] d']; naive_solver. Qed.

Lemma repository_manager {A} (q : DBM A) m d : (repository q (m, d)).2.1 = m.
Proof. unfold repository. by destruct (q d) as [[| |] d']. Qed.

Lemma validate_mode `{UnicodeUpper} raw s a s' :
  validateBindableAccessMode raw s = (Ok a, s') -> a = NormalizeAccessMode raw /\ s' = s.
Proof. unfold validateBindableAccessMode. repeat case_match; intros Hv; by inversion Hv. Qed.

Lemma validate_volume `{UnicodeUpper} team v t sc sp m d vol s' :
  validateBindableVolume team v t sc sp (m, d) = (Ok vol, s') ->
  s'.1 = m /\ sv_ID vol = v /\ sv_TeamID vol = team v /\ TrimSpace (team v) = TrimSpace t
  /\ db_volumes d !! v = Some (sv_AccessMode vol).
Proof.
  unfold validateBindableVolume. intros Hv. apply bind_ok_inv in Hv as (vol1 & s1 & H1 & Hv).
  apply repository_ok in H1 as (d1 & H1 & ->). apply stmt_ok in H1 as (os & H1). cbn in H1.
  destruct (db_volumes d !! v) as [mode|] eqn:Hm; [|done]. injection H1 as <- <-.
  case_bool_decide as Ht; cbn [negb] in Hv; [|done]. apply bind_ok_inv in Hv as (acc & s2 & H2 & Hv).
  apply validate_mode in H2 as [_ ->]. cbn in Ht.
  assert (Hd : vol = mkSandboxVolume v (team v) mode /\ s'.1 = m); [|destruct Hd as [-> ->]; cbn; tauto].
  case_bool_decide; [by injection Hv as <- <-|]. cbn [bind manager gets fst] in Hv.
  apply bind_ok_inv in Hv as (ms & s3 & H3 & Hv). apply repository_ok in H3 as (d3 & _ & ->).
  destruct (filter _ ms); [by injection Hv as <- <-|done].
Qed.

Lemma bind_validate_ok `{UnicodeUpper} team ctx req m d name vol access s' :
  bind_validate team ctx req (m, d) = (Ok (name, vol, access), s') ->
  s'.1 = m /\ name = NormalizePortalName (bq_PortalName req) (bq_MountPath req) /\ bq_SandboxVolumeID req <> ""
  /\ sv_TeamID vol = team (bq_SandboxVolumeID req) /\ TrimSpace (team (bq_SandboxVolumeID req)) = TrimSpace (bq_TeamID req)
  /\ exists raw, db_volumes d !! bq_SandboxVolumeID req = Some raw /\ access = NormalizeAccessMode raw.
Proof.
  unfold bind_validate. intros Hv. apply bind_ok_inv in Hv as ([] & s1 & H1 & Hv).
  destruct ctx; [done|]. injection H1 as <-. case_bool_decide; [done|].
  destruct (_ || _) eqn:Hq; [done|]. apply orb_false_iff in Hq as [Hq _]. apply orb_false_iff in Hq as [_ Hq].
  apply bool_decide_eq_false in Hq.
  apply bind_ok_inv in Hv as (vol1 & s2 & H2 & Hv). apply validate_volume in H2 as (H2 & _ & Ht1 & Ht2 & Hd).
  apply bind_ok_inv in Hv as (acc & s3 & H3 & Hv). apply validate_mode in H3 as [-> ->].
  injection Hv as <- <- <- <-. eauto 10.
Qed.

(** Steps that only look at the manager. *)
Definition reads {A} (f : PM A) : Prop := forall m d, (f (m, d)).2.1 = m.

Lemma reads_bind {A B} (f : PM A) (k : A -> PM B) : reads f -> (forall a, reads (k a)) -> reads (bind f k).
Proof.
  intros Hf Hk m d. specialize (Hf m d). unfold bind. destruct (f (m, d)) as [[a|e|] [m' d']]; cbn in *; subst m'; [apply Hk|done..].
Qed.

Lemma reads_mode `{UnicodeUpper} raw : reads (validateBindableAccessMode raw).
Proof. intros m d. unfold validateBindableAccessMode. by repeat case_match. Qed.

Lemma reads_volume `{UnicodeUpper} team v t sc sp : reads (validateBindableVolume team v t sc sp).
Proof.
  apply reads_bind; [intros m d; apply repository_manager|intros vol]. destruct (negb _); [done|].
  apply reads_bind; [apply reads_mode|intros access]. case_bool_decide; [done|].
  apply reads_bind; [done|intros m]. apply reads_bind; [intros m' d; apply repository_manager|intros ms]. by destruct (filter _ ms).
Qed.

Lemma reads_validate `{UnicodeUpper} team ctx req : reads (bind_validate team ctx req).
Proof.
  apply reads_bind; [by destruct ctx|intros _; cbv zeta]. destruct (bool_decide _); [by intros m d|]. destruct (_ || _); [by intros m d|].
  apply reads_bind; [apply reads_volume|intros vol]. apply reads_bind; [apply reads_mode|done].
Qed.

Lemma open_volume_keeps mode : keeps mode open_volume.
Proof. unfold open_volume. auto 10 with portal. Qed.

(** Binding as a whole, and the volumes' modes as the database has them. *)
Lemma Bind_ok `{UnicodeUpper} mode team ctx id now req m d :
  modes_are mode d -> manager_ok mode m -> manager_ok mode (Bind team ctx id now req (m, d)).2.1.
Proof.
  intros Hm Hok. unfold Bind, bind at 1. pose proof (reads_validate team ctx req m d) as Hr.
  destruct (bind_validate team ctx req (m, d)) as [[[[name vol] access]|e|] [m1 d1]] eqn:Hv; cbn in Hr; subst m1; [|done..].
  apply bind_validate_ok in Hv as (_ & _ & _ & _ & _ & raw & Hraw & ->).
  assert (Ha : NormalizeAccessMode raw = mode (bq_SandboxVolumeID req)) by by apply Hm.
  unfold bind at 1, manager, gets. cbn [fst]. destruct (portal_of m _) as [[i pm]|]; [|done].
  destruct (bool_decide (po_volumeID pm = bq_SandboxVolumeID req)); [done|].
  destruct (bool_decide (po_volumeID pm = "")); cbn [negb]; [|done].
  pose proof (attach_existing_ok mode req name (sv_TeamID vol) _ now m d1 Hok Ha) as Hx. unfold bind at 1.
  destruct (attach_existing _ _ _ _ _ (m, d1)) as [[[r|]|e|] [m2 d2]]; [done| |done..].
  pose proof (open_volume_keeps mode m2 d2 Hx) as Ho. unfold bind at 1.
  destruct (open_volume (m2, d2)) as [[[]|e|] [m3 d3]]; [|done..]. by apply bind_commit_ok.
Qed.

(** ** The barrier of a handoff *)

(** What the requests to a node do to its volumes while [v] is handed off: anything but
    ending the handoff. *)
Inductive lstep (v : string) : localVolumeManager -> localVolumeManager -> Prop :=
| lstep_acquire now w l : lstep v l (acquire now w l).2
| lstep_release now w l : lstep v l (release now w l)
| lstep_touch now w l : lstep v l (touch now w l)
| lstep_prepare ctx w l : lstep v l (lv_prepareHandoff ctx w l).2
| lstep_abort now w l : w <> v -> lstep v l (lv_abortHandoff now w l)
| lstep_add now c l : lstep v l (lv_add now c l)
| lstep_remove w l : w <> v -> lstep v l (lv_remove w l).

(** The volume is handed off, with [n] requests under way at most. *)
Definition held (v : string) (n : Z) (l : localVolumeManager) : Prop :=
  exists st, lv_request v l = Some st /\ rs_transferring st = true /\ rs_inFlight st <= n.

Lemma lv_request_set v w st l :
  lv_request v (lv_set w st l) = if decide (w = v) then (match lm_volumes l !! v with Some _ => Some st | None => None end) else lv_request v l.
Proof.
  unfold lv_request, lv_set. cbn. destruct (lm_volumes l !! v); [|by case_decide].
  case_decide; subst; [by rewrite lookup_insert_eq|by rewrite lookup_insert_ne].
Qed.

Lemma held_inv v n l : held v n l -> exists c st, lm_volumes l !! v = Some c /\ lm_requests l !! v = Some st
  /\ rs_transferring st = true /\ rs_inFlight st <= n.
Proof. intros (st & Hr & Ht & Hn). unfold lv_request in Hr. destruct (lm_volumes l !! v); naive_solver. Qed.

Lemma held_set v n w st l :
  held v n l -> (w = v -> rs_transferring st = true /\ rs_inFlight st <= n) -> held v n (lv_set w st l).
Proof.
  intros Hh Hw. destruct (held_inv _ _ _ Hh) as (c & st0 & Hc & _). unfold held. rewrite lv_request_set, Hc.
  case_decide; [destruct (Hw H); eauto|exact Hh].
Qed.

Lemma held_step v n l l' : lstep v l l' -> held v n l -> held v n l'.
Proof.
  intros Hs Hh. destruct (held_inv _ _ _ Hh) as (c & st & Hc & Hst & Ht & Hn).
  assert (Hv : lv_request v l = Some st) by (unfold lv_request; by rewrite Hc).
  destruct Hs.
  - unfold acquire. destruct (lv_request w l) as [st'|] eqn:Hw; [|done]. destruct (rs_transferring st') eqn:Ht'; [done|].
    apply held_set; [done|]. intros ->. congruence.
  - unfold release. destruct (lm_requests l !! w) as [st'|] eqn:Hw; [|done]. apply held_set; [done|]. intros ->.
    replace st' with st by congruence. cbn. split; [done|]. destruct (0 <? rs_inFlight st); lia.
  - unfold touch. destruct (lm_requests l !! w) as [st'|] eqn:Hw; [|done]. apply held_set; [done|]. intros ->.
    by replace st' with st by congruence.
  - unfold lv_prepareHandoff. destruct (lv_request w l) as [st'|] eqn:Hw; [|done]. destruct (rs_transferring st') eqn:Ht'; [done|].
    assert (w <> v) by congruence. unfold handoff_turn. repeat case_match; cbn; repeat (apply held_set; [|done]); done.
  - unfold lv_abortHandoff. destruct (lm_requests l !! w) as [st'|]; [|done]. case_match; [|done]. by apply held_set.
  - exists st. split; [|done]. unfold lv_request, lv_add. cbn.
    assert (Hr : (match lm_requests l !! lc_VolumeID c0 with Some _ => lm_requests l
      | None => <[lc_VolumeID c0 := mkRequestState 0 false now]> (lm_requests l) end) !! v = Some st).
    { destruct (lm_requests l !! lc_VolumeID c0) eqn:Hq; [done|]. rewrite lookup_insert_ne; [done|congruence]. }
    rewrite Hr. destruct (decide (lc_VolumeID c0 = v)) as [->|]; [by rewrite lookup_insert_eq|by rewrite lookup_insert_ne, Hc].
  - exists st. split; [|done]. unfold lv_request, lv_remove. cbn. by rewrite !lookup_delete_ne, Hc by done.
Qed.


(** ** Examples *)

#[local] Instance plain_upper_portal : UnicodeUpper := {| unicode_upper := fun s => s |}.

(** A database that knows a volume for one writer, and a node with two portals. *)
Definition px_db0 : DB := mkDB (100 * second) {["vol" := "RWO"]} ∅ ∅ ∅ ∅ [] [].
Definition px_node0 : Manager := NewManager "node-1" "" "ctld-1" "sandbox0" 15 (60 * second).
Definition px_publish (name : string) : PM unit := PublishPortal None (mkPublishRequest "ns" "pod" "uid" name "/data" ("/target/" +:+ name)).
Definition px_bind_to (name : string) : PM BindVolumePortalResponse :=
    Bind (fun _ => "team") None "id" (100 * second) (mkBindRequest "ns" "pod" "uid" name "/data" "sb" "team" "vol" "" "").
Definition px_attach : PM unit := AttachOwner (fun _ => "team") None "id" (100 * second) "team" "vol".
Definition px_after {A} (f : PM A) (s : Manager * DB) : Manager * DB := (f s).2.
Definition px_failing (e : string) (s : Manager * DB) : Manager * DB := (set_node [Some e] s.1, s.2).
Definition px_ok {A} (r : res portal_error A) : bool := match r with Ok _ => true | _ => false end.
Definition px_portals0 : Manager * DB := px_after (px_publish "b") (px_after (px_publish "a") (px_node0, px_db0)).

Definition px_commit (name : string) (s : Manager * DB) : Manager * DB :=
  px_after (bind_commit "id" (100 * second) (mkBindRequest "ns" "pod" "uid" name "/data" "sb" "team" "vol" "" "") name "team" AccessModeRWO (100 * second))
    (px_after (publish_commit (mkPublishRequest "ns" "pod" "uid" name "/data" ("/target/" +:+ name))) s).



(** Completing a handoff first ends it, and only then takes the volume out: a request that
    was held back is admitted in between, to a volume that another node has open, and is
    under way when the volume is closed. *)
Lemma completing_readmits :
  let s1 := px_after (PrepareHandoff None (101 * second) "vol") (px_after px_attach (px_node0, px_db0)) in
  let s2 := px_after (abortHandoff (102 * second) "vol") s1 in
  let s3 := px_after (local (acquire (102 * second) "vol")) s2 in
  (local (acquire (102 * second) "vol") s1).1 = Ok false /\ (local (acquire (102 * second) "vol") s2).1 = Ok true
  /\ (rs_inFlight <$> lv_request "vol" (mg_volumes s3.1)) = Some 1 /\ px_ok (complete_locked "vol" s3).1 = true
  /\ lv_request "vol" (mg_volumes (px_after (complete_locked "vol") s3).1) = None.
Proof. vm_compute. repeat split. Qed.

(** A portal whose volume cannot be saved is cleared all the same, but the volume goes on
    counting it: no portal can be bound to the volume any more, and it is never idle. *)
Lemma failed_unbind_strands :
  let s1 := px_after (px_bind_to "a") px_portals0 in
  let s2 := px_after (Unbind None (mkUnbindRequest "uid" "a" "")) (px_failing "store down" s1) in
  px_ok (px_bind_to "a" px_portals0).1 = true /\ px_ok (Unbind None (mkUnbindRequest "uid" "a" "") (px_failing "store down" s1)).1 = false
  /\ shows "vol" (mg_objects s2.1) = 0 /\ refs (mg_boundVolumes s2.1) "vol" = 1
  /\ px_ok (px_bind_to "a" s2).1 = false /\ px_ok (px_bind_to "b" s2).1 = false
  /\ refs (mg_boundVolumes (px_after (cleanupIdleOwnerOnlyVolumes (1000 * second)) s2).1) "vol" = 1.
Proof. vm_compute. repeat split. Qed.

(** When unpublishing fails the portal is forgotten with its file system still mounted;
    the retry has nothing to do and succeeds. *)
Lemma failed_unpublish_leaks :
  let s1 := px_failing "store down" (px_after (px_bind_to "a") px_portals0) in
  let s2 := px_after (UnpublishPortal "/target/a") s1 in
  px_ok (UnpublishPortal "/target/a" s1).1 = false /\ px_ok (UnpublishPortal "/target/a" s2).1 = true
  /\ (po_serving <$> (mg_objects (px_after (UnpublishPortal "/target/a") s2).1 !! 0%nat)) = Some true.
Proof. vm_compute. repeat split. Qed.

(** Binding does not look whether the volume is being handed off.  A portal bound between
    the preparation and the completion is left with a volume that is closed; when the node
    owns the volume again, a second portal is bound beside it. *)
Lemma bound_during_handoff :
  let s1 := px_after (PrepareHandoff None (101 * second) "vol") (px_after px_attach px_portals0) in
  let s2 := px_after (CompleteHandoff (102 * second) "vol") (px_after (px_bind_to "a") s1) in
  let s3 := px_after (px_bind_to "b") (px_after px_attach s2) in
  px_ok (px_bind_to "a" s1).1 = true /\ px_ok (CompleteHandoff (102 * second) "vol" (px_after (px_bind_to "a") s1)).1 = true
  /\ mg_boundVolumes s2.1 !! "vol" = None /\ shows "vol" (mg_objects s2.1) = 1
  /\ px_ok (px_bind_to "b" (px_after px_attach s2)).1 = true /\ shows "vol" (mg_objects s3.1) = 2.
Proof. vm_compute. repeat split. Qed.
