(* ===== verification/Handoff.v ===== *)
(** * storage-proxy: who owns a volume, and how it changes hands
      (storage-proxy/pkg/http/volume_affinity.go, volume_handoff.go, ctld_owner.go)

    A request for a volume goes to the instance that owns it: the mount of a ctld is
    preferred to that of this pod, and that to others.  A volume that no one owns is given
    to the ctld of this node.  When a sandbox on another node wants a volume that a ctld
    owns, the server takes it from the one and gives it to the other by their handlers in
    [Portal]: the world is the database with the ctlds of the cluster by their addresses,
    and what becomes of each message.  A message can be lost on its way, or its answer.

    Kubernetes is a parameter: the pods it knows. *)

From stdpp Require Import base gmap strings list fin_maps numbers sorting pretty.
From Stdlib Require Import Strings.Byte Strings.Ascii.
From S2P Require Import Prelude GoStd GoText InternalAuth Volume Notify Mounts Classifier KubeNames Portal.

Local Open Scope Z_scope.

(** ** The preferred owner (volume_affinity.go) *)

Record Server := mkServer {
  se_selfClusterID : string;
  se_selfPodID : string;
  se_heartbeatTimeout : Z
}.

Definition volumeOwnerPriority `{UnicodeUpper} (s : Server) (mount : VolumeMount) : Z :=
  if bool_decide (mo_OwnerKind (DecodeMountOptions (vm_MountOptions mount)) = OwnerKindCtld) then 0 else
  if bool_decide (vm_PodID mount = se_selfPodID s) then 1 else 2.

Definition eligible (s : Server) (mount : VolumeMount) : bool :=
  negb (bool_decide (vm_PodID mount = ""))
  && negb (negb (bool_decide (se_selfClusterID s = "")) && negb (bool_decide (vm_ClusterID mount = ""))
           && negb (bool_decide (vm_ClusterID mount = se_selfClusterID s))).

Definition str_ltb (a b : string) : bool := match String.compare a b with Lt => true | _ => false end.

(** The test of the loop, with the score of the one chosen so far. *)
Definition better `{UnicodeUpper} (s : Server) (mount chosen : VolumeMount) : bool :=
  let score := volumeOwnerPriority s mount in
  let bestScore := volumeOwnerPriority s chosen in
  (score <? bestScore)
  || ((score =? bestScore) && (vm_MountedAt mount <? vm_MountedAt chosen))
  || ((score =? bestScore) && (vm_MountedAt mount =? vm_MountedAt chosen) && str_ltb (vm_PodID mount) (vm_PodID chosen)).

Definition owner_step `{UnicodeUpper} (s : Server) (chosen : option VolumeMount) (mount : VolumeMount) : option VolumeMount :=
  if negb (eligible s mount) then chosen else
  match chosen with
  | None => Some mount
  | Some c => if better s mount c then Some mount else Some c
  end.

Definition selectPreferredVolumeOwner `{UnicodeUpper} (s : Server) (mounts : list VolumeMount) : option VolumeMount :=
  fold_left (owner_step s) mounts None.

(** ** Addresses *)

(** [net.SplitHostPort], whose host may be empty. *)
Definition split_host (hostport : string) : option string :=
  let host := SplitHostPort_host hostport in
  if negb (bool_decide (host = "")) then Some host else
  match hostport with
  | String ":" _ => if bool_decide (SplitHostPort_host (String "x" hostport) = "x") then Some "" else None
  | String "[" (String "]" rest) => if bool_decide (SplitHostPort_host (String "x" rest) = "x") then Some "" else None
  | _ => None
  end.

Definition JoinHostPort (host port : string) : string :=
  if Contains_str host ":" then "[" +:+ host +:+ "]:" +:+ port else host +:+ ":" +:+ port.

Definition hostWithPort (hostport : string) (port : Z) : string :=
  JoinHostPort (match split_host hostport with Some host => host | None => hostport end) (pretty port).

(** [url.URL] of a pod: its host with the port, under [http]. *)
Definition url_string (host : string) : string := "http://" +:+ host.

Definition sameCTLDAddress (left right : string) : bool :=
  bool_decide (TrimRight (TrimSpace left) "/" = TrimRight (TrimSpace right) "/").

(** ** Pods (ctld_owner.go) *)

Record Pod := mkPod {
  pod_Namespace : string;
  pod_Name : string;
  pod_NodeName : string;
  pod_PodIP : string;
  pod_Phase : string;
  pod_Deleting : bool;
  pod_Conditions : list (string * string);
  pod_Instance : string
}.

(** The calls of the client: one pod, the pods with a name, and those of a namespace with
    a label selector. *)
Class Pods := {
  pods_Get : string -> string -> res string Pod;
  pods_Named : string -> res string (list Pod);
  pods_List : string -> string -> res string (list Pod)
}.

Fixpoint ready_condition (conditions : list (string * string)) : bool :=
  match conditions with
  | [] => false
  | (type, status) :: rest => if bool_decide (type = "Ready") then bool_decide (status = "True") else ready_condition rest
  end.

Definition isReadyCtldPod (pod : Pod) : bool :=
  negb (pod_Deleting pod || negb (bool_decide (pod_Phase pod = "Running")) || bool_decide (TrimSpace (pod_PodIP pod) = ""))
  && ready_condition (pod_Conditions pod).

Definition podInternalURL (pod : Pod) (port : Z) : option string :=
  if bool_decide (TrimSpace (pod_PodIP pod) = "") then None else Some ("http://" +:+ pod_PodIP pod +:+ ":" +:+ pretty port).

Definition quoted (s : string) : string := String "034" (s +:+ String "034" "").

Definition resolveKubernetesPod `{Pods} (podID : string) : res string Pod :=
  if bool_decide (TrimSpace podID = "") then Err "pod resolver unavailable" else
  match Index_byte podID "/" with
  | Some i => pods_Get (str_take i podID) (str_from (S i) podID)
  | None =>
      let? pods := pods_Named podID in
      match pods with
      | pod :: _ => Ok pod
      | [] => Err ("pod " +:+ quoted podID +:+ " not found")
      end
  end.

(** The order of the candidates: those of the node [nodeName] first, then by name. *)
Definition candidate_less (nodeName : string) (a b : Pod) : bool :=
  if bool_decide (pod_NodeName a = pod_NodeName b) then str_ltb (pod_Name a) (pod_Name b) else
  if bool_decide (pod_NodeName a = nodeName) then true else
  if bool_decide (pod_NodeName b = nodeName) then false else
  str_ltb (pod_Name a) (pod_Name b).

Definition candidate_le (nodeName : string) (a b : Pod) : Prop := candidate_less nodeName b a = false.
#[export] Instance candidate_le_dec nodeName : RelDecision (candidate_le nodeName).
Proof. intros a b. unfold candidate_le. apply _. Defined.

Definition listCtldCandidates `{Pods} (selfPod : Pod) : res string (list Pod) :=
  let instance := TrimSpace (pod_Instance selfPod) in
  let selector := "app.kubernetes.io/name=ctld"
    +:+ (if bool_decide (instance = "") then "" else ",app.kubernetes.io/instance=" +:+ instance) in
  let? pods := pods_List (pod_Namespace selfPod) selector in
  Ok (merge_sort (candidate_le (pod_NodeName selfPod)) (filter (fun p => isReadyCtldPod p) pods)).

Definition defaultCtldPort : Z := 8095.

Definition ResolveLocalCtldURL `{Pods} (selfPodID : string) : res string string :=
  let? selfPod := resolveKubernetesPod selfPodID in
  if bool_decide (pod_NodeName selfPod = "") then Err ("storage-proxy pod " +:+ quoted selfPodID +:+ " is not scheduled") else
  let? candidates := listCtldCandidates selfPod in
  let url p := podInternalURL p defaultCtldPort in
  match omap url (filter (fun p => pod_NodeName p = pod_NodeName selfPod) candidates) ++ omap url candidates with
  | addr :: _ => Ok addr
  | [] => Err ("no ready ctld pod available for storage-proxy pod " +:+ quoted selfPodID)
  end.

Definition buildStorageProxyPodURL (podIP : string) (httpPort : Z) : res string string :=
  if bool_decide (TrimSpace podIP = "") then Err "pod ip is empty" else Ok (podIP +:+ ":" +:+ pretty httpPort).

(** The host of the URL of a pod. *)
Definition ResolvePodURL `{Pods} (httpPort : Z) (podID : string) : res string string :=
  if bool_decide (podID = "") then Err "missing pod id" else
  let '(namespace, name) := match Index_byte podID "/" with
                            | Some i => (str_take i podID, str_from (S i) podID)
                            | None => ("", podID)
                            end in
  if negb (bool_decide (namespace = "")) then
    let? pod := pods_Get namespace name in buildStorageProxyPodURL (pod_PodIP pod) httpPort
  else
    let? pods := pods_Named name in
    match pods with
    | pod :: _ => buildStorageProxyPodURL (pod_PodIP pod) httpPort
    | [] => Err ("pod " +:+ quoted podID +:+ " not found")
    end.

(** The port of the owner, in place of that of storage-proxy. *)
Definition owner_host `{UnicodeUpper} (mount : VolumeMount) (host : string) : string :=
  let opts := DecodeMountOptions (vm_MountOptions mount) in
  let ownerPort := if (mo_OwnerPort opts =? 0) && bool_decide (mo_OwnerKind opts = OwnerKindCtld) then 8095 else mo_OwnerPort opts in
  if 0 <? ownerPort then hostWithPort host ownerPort else host.

(** ** The world of a server *)

Inductive delivery :=
| Delivered
| RequestLost (e : string)
| AnswerLost (e : string).

Record World := mkWorld {
  w_db : DB;
  w_ctlds : gmap string Manager;
  w_net : list delivery
}.

Inductive ctld_error :=
| Transport (e : string)
| ctldRequestError (StatusCode : Z) (Message : string).

Inductive http_error :=
| HDb (e : db_error)
| HCtld (e : ctld_error)
| HText (text : string)
| HCanceled (text : string).

Abbreviation WM := (ST http_error World).

Definition ctld_text (e : ctld_error) : string :=
  match e with
  | Transport text => text
  | ctldRequestError code message =>
      "ctld request failed with status " +:+ pretty code
      +:+ (if bool_decide (TrimSpace message = "") then "" else ": " +:+ message)
  end.

Definition isCtldConflictError (e : ctld_error) : bool :=
  match e with ctldRequestError code _ => code =? 409 | Transport _ => false end.

Definition db_call {A} (m : DBM A) : WM A := fun w =>
  let '(r, d) := m (w_db w) in
  (match r with Ok a => Ok a | Err e => Err (HDb e) | Panic => Panic end, mkWorld d (w_ctlds w) (w_net w)).

(** ctld/cmd/ctld/main.go *)
Definition volumePortalErrorStatus `{UnicodeCase} (e : portal_error) : Z :=
  if pe_canceled e then 408 else
  let message := ToLower (TrimSpace (pe_text e)) in
  if Contains_str message "already has an active owner" || Contains_str message "actively bound to a portal"
     || Contains_str message "already bound to" || Contains_str message "handoff already in progress"
  then 409 else 400.

(** The handler of the ctld at an address, with what it answers. *)
Definition at_ctld {A} `{UnicodeCase} (addr : string) (handler : PM A) (w : World) : res ctld_error A * World :=
  match w_ctlds w !! addr with
  | None => (Err (Transport "connection refused"), w)
  | Some m =>
      let '(r, (m', d')) := handler (m, w_db w) in
      (match r with
       | Ok a => Ok a
       | Err e => Err (ctldRequestError (volumePortalErrorStatus e) (TrimSpace (pe_text e)))
       | Panic => Err (Transport "EOF")
       end, mkWorld d' (<[addr := m']> (w_ctlds w)) (w_net w))
  end.

(** The answer, or the error of the call, as a value: callers decide what it means. *)
Definition postCtldJSON {A} `{UnicodeCase} (baseURL : string) (handler : PM A) : WM (res ctld_error A) := fun w =>
  let addr := TrimRight baseURL "/" in
  match w_net w with
  | RequestLost e :: net => (Ok (Err (Transport e)), mkWorld (w_db w) (w_ctlds w) net)
  | AnswerLost e :: net =>
      (Ok (Err (Transport e)), (at_ctld addr handler (mkWorld (w_db w) (w_ctlds w) net)).2)
  | Delivered :: net => let '(r, w') := at_ctld addr handler (mkWorld (w_db w) (w_ctlds w) net) in (Ok r, w')
  | [] => let '(r, w') := at_ctld addr handler w in (Ok r, w')
  end.

(** ** Handoffs (volume_handoff.go) *)

Record preparePortalBindRequest := mkPortalBindRequest {
  pb_TargetClusterID : string;
  pb_TargetCtldAddr : string;
  pb_Namespace : string;
  pb_PodName : string;
  pb_PodUID : string;
  pb_PortalName : string;
  pb_MountPath : string;
  pb_SandboxID : string;
  pb_OwnerTeamID : string
}.

Section server.
  Context `{UnicodeCase, UnicodeUpper, Pods}.
  Context (team_of : string -> string) (httpPort : Z) (s : Server).

(** Whether the wait goes on after this look at the row. *)
Definition handoff_poll (now : Z) (volumeID : string) : DBM bool := fun d =>
  match GetVolumeHandoff volumeID d with
  | (Ok handoff, d1) =>
      if negb (vh_ExpiresAt handoff =? 0) && (vh_ExpiresAt handoff <? now)
      then (Ok false, (DeleteVolumeHandoff volumeID d1).2) else (Ok true, d1)
  | (Err ErrNotFound, d1) => (Ok false, d1)
  | (Err e, d1) => (Err e, d1)
  | (Panic, d1) => (Panic, d1)
  end.

(** Between two looks: the clock, what others did to the database, or the end of the
    context. *)
Inductive tick :=
| Tick (now : Z) (others : DB -> DB)
| CtxDone (e : string).

(** [None] while the wait is not over at the end of the ticks. *)
Fixpoint waitForVolumeHandoff (now : Z) (ticks : list tick) (volumeID : string) : WM (option unit) :=
  if bool_decide (TrimSpace volumeID = "") then ret (Some tt) else
  let* waiting := db_call (handoff_poll now volumeID) in
  if negb waiting then ret (Some tt) else
  match ticks with
  | [] => ret None
  | CtxDone e :: _ => throw (HCanceled e)
  | Tick now others :: rest =>
      do* modify (fun w => mkWorld (others (w_db w)) (w_ctlds w) (w_net w)) in
      waitForVolumeHandoff now rest volumeID
  end.

Definition resolveVolumeMountURL (mount : VolumeMount) : res string (option string) :=
  if bool_decide (vm_PodID mount = "") then Ok None else
  let? host := ResolvePodURL httpPort (vm_PodID mount) in
  Ok (Some (url_string (owner_host mount host))).

(** The error of a call to a ctld: a conflict stays one. *)
Definition handoff_error (e : ctld_error) : http_error :=
  if isCtldConflictError e then HDb (ErrConflict (ctld_text e)) else HCtld e.

Definition cleanup_handoff (volumeID : string) : WM unit := fun w =>
  (Ok tt, (db_call (DeleteVolumeHandoff volumeID) w).2).

Definition abort_source (now : Z) (sourceURL volumeID : string) : WM unit :=
  let* _ := postCtldJSON sourceURL (AbortHandoff now volumeID) in ret tt.

(** The error [e] after [undo]. *)
Definition giving_up {A} (undo : WM unit) (e : http_error) : WM A := do* undo in throw e.

Definition handoff_row (volumeID : string) (sourceMount : VolumeMount) (req : preparePortalBindRequest) (status : string) (expiresAt : Z) : VolumeHandoff :=
  mkHandoff volumeID (vm_ClusterID sourceMount) (vm_PodID sourceMount) (TrimSpace (pb_TargetClusterID req))
    (if bool_decide (pb_PodName req = "") then TrimSpace (pb_PodUID req)
     else TrimSpace (pb_Namespace req +:+ "/" +:+ pb_PodName req))
    (TrimSpace (pb_TargetCtldAddr req)) status expiresAt.

Definition bind_request (volumeID : string) (sourceMount : VolumeMount) (req : preparePortalBindRequest) : BindVolumePortalRequest :=
  mkBindRequest (pb_Namespace req) (pb_PodName req) (pb_PodUID req) (pb_PortalName req) (pb_MountPath req) (pb_SandboxID req)
    (pb_OwnerTeamID req) volumeID (vm_ClusterID sourceMount) (vm_PodID sourceMount).

(** After the row says [preparing]. *)
Definition run_handoff (id : string) (now : Z) (volumeID sourceURL : string) (sourceMount : VolumeMount) (req : preparePortalBindRequest) : WM unit :=
  let abort := (do* abort_source now sourceURL volumeID in cleanup_handoff volumeID) in
  let* prepared := postCtldJSON sourceURL (PrepareHandoff None now volumeID) in
  match prepared with
  | Panic => panic
  | Err e => giving_up (cleanup_handoff volumeID) (handoff_error e)
  | Ok _ => fun w =>
      match db_call (UpsertVolumeHandoff now (handoff_row volumeID sourceMount req "binding" (now + 30 * second))) w with
      | (Ok _, w) =>
          (let* bound := postCtldJSON (pb_TargetCtldAddr req) (Bind team_of None id now (bind_request volumeID sourceMount req)) in
           match bound with
           | Panic => panic
           | Err e => giving_up abort (handoff_error e)
           | Ok _ =>
               let* completed := postCtldJSON sourceURL (CompleteHandoff now volumeID) in
               match completed with
               | Panic => panic
               | Err e => giving_up (cleanup_handoff volumeID) (HCtld e)
               | Ok _ => cleanup_handoff volumeID
               end
           end) w
      | (Err e, w) => giving_up abort e w
      | (Panic, w) => (Panic, w)
      end
  end.

Definition executePortalBindHandoff (id : string) (now : Z) (volumeID : string) (sourceMount : VolumeMount) (req : preparePortalBindRequest) : WM unit :=
  match resolveVolumeMountURL sourceMount with
  | Panic => panic
  | Err e => throw (HText e)
  | Ok None => throw (HText "resolve source ctld owner")
  | Ok (Some sourceURL) =>
      if sameCTLDAddress sourceURL (pb_TargetCtldAddr req) then ret tt else
      do* db_call (UpsertVolumeHandoff now (handoff_row volumeID sourceMount req "preparing" (now + 30 * second))) in
      run_handoff id now volumeID sourceURL sourceMount req
  end.

(** ** Requests *)

Definition server_timeout : Z := if 0 <? se_heartbeatTimeout s then se_heartbeatTimeout s else 15.

(** A volume for one writer that no one owns goes to the ctld of this node; that another
    was faster is no error. *)
Definition ensureCtldVolumeOwner (id : string) (now : Z) (vol : SandboxVolume) : WM unit :=
  if negb (bool_decide (NormalizeAccessMode (sv_AccessMode vol) = AccessModeRWO)) then ret tt else
  let owner := (let* mounts := db_call (GetActiveMounts (sv_ID vol) server_timeout) in ret (selectPreferredVolumeOwner s mounts)) in
  let* found := owner in
  match found with
  | Some _ => ret tt
  | None =>
      match ResolveLocalCtldURL (TrimSpace (se_selfPodID s)) with
      | Panic => panic
      | Err e => throw (HText e)
      | Ok ctldAddr =>
          let* attached := postCtldJSON ctldAddr (AttachOwner team_of None id now (sv_TeamID vol) (sv_ID vol)) in
          match attached with
          | Panic => panic
          | Ok _ => ret tt
          | Err e => fun w =>
              match owner w with
              | (Ok (Some _), w) => (Ok tt, w)
              | (Panic, w) => (Panic, w)
              | (_, w) => (Err (HCtld e), w)
              end
          end
      end
  end.

(** Where a request for the volume goes, with the pod; [None] is this server. *)
Definition resolveRemoteVolumeOwnerURL (volumeID : string) : WM (option (string * string)) :=
  if bool_decide (volumeID = "") then ret None else
  let* mounts := db_call (GetActiveMounts volumeID server_timeout) in
  match selectPreferredVolumeOwner s mounts with
  | None => ret None
  | Some owner =>
      if bool_decide (vm_PodID owner = "") then ret None else
      if negb (bool_decide (mo_OwnerKind (DecodeMountOptions (vm_MountOptions owner)) = OwnerKindCtld))
         && bool_decide (vm_PodID owner = se_selfPodID s) then ret None else
      match ResolvePodURL httpPort (vm_PodID owner) with
      | Panic => panic
      | Err e => throw (HText e)
      | Ok host => ret (Some (url_string (owner_host owner host), vm_PodID owner))
      end
  end.

(** handlers_sandboxvolume.go: the part of [prepareSandboxVolumeForPortalBind] that runs
    while the volume is held.  [cleaned] is what the volume manager answers; the result
    is whether there was a handoff. *)
Definition run_portal_bind (id : string) (now : Z) (cleaned : res string bool) (vol : SandboxVolume) (req : preparePortalBindRequest) : WM bool :=
  match cleaned with
  | Panic => panic
  | Err e => throw (HText ("cleanup direct volume mount: " +:+ e))
  | Ok _ =>
      if negb (bool_decide (NormalizeAccessMode (sv_AccessMode vol) = AccessModeRWO)) then ret false else
      let* mounts := db_call (GetActiveMounts (sv_ID vol) 15) in
      match mounts with
      | [] => ret false
      | _ =>
          let conflict := throw (HDb (ErrConflict "volume has active mounts")) in
          match selectPreferredVolumeOwner s mounts with
          | None => conflict
          | Some source =>
              if negb (bool_decide (mo_OwnerKind (DecodeMountOptions (vm_MountOptions source)) = OwnerKindCtld)) then conflict else
              if bool_decide (TrimSpace (pb_TargetCtldAddr req) = "")
              then throw (HDb (ErrConflict "target ctld address is required for owner handoff")) else
              do* executePortalBindHandoff id now (sv_ID vol) source req in
              ret true
          end
      end
  end.

(** The claims of a manager, or the status of the refusal. *)
Definition requireManagerInternal (claims : option Claims) : res Z Claims :=
  match claims with
  | None => Err 401
  | Some c => if bool_decide (tc_Caller c = "manager") then Ok c else Err 403
  end.

(** The status of the answer; [body] is what decoding the request gave. *)
Definition prepareSandboxVolumeForPortalBind (id : string) (now : Z) (cleaned : res string bool) (claims : option Claims) (pathID : string)
    (body : option preparePortalBindRequest) : World -> Z * World := fun w =>
  match requireManagerInternal claims with
  | Panic => (500, w)
  | Err status => (status, w)
  | Ok claims =>
      let volumeID := TrimSpace pathID in
      if bool_decide (volumeID = "") then (400, w) else
      match db_call (GetSandboxVolume team_of volumeID) w with
      | (Err (HDb ErrNotFound), w) => (404, w)
      | (Ok vol, w) =>
          if negb (IsSystemToken claims) && negb (bool_decide (tc_TeamID claims = "")) && negb (bool_decide (sv_TeamID vol = tc_TeamID claims))
          then (404, w) else
          match body with
          | None => (400, w)
          | Some req =>
              let req := mkPortalBindRequest (pb_TargetClusterID req) (pb_TargetCtldAddr req) (pb_Namespace req) (pb_PodName req)
                           (pb_PodUID req) (pb_PortalName req) (pb_MountPath req) (pb_SandboxID req)
                           (if bool_decide (pb_OwnerTeamID req = "") then sv_TeamID vol else pb_OwnerTeamID req) in
              match run_portal_bind id now cleaned vol req w with
              | (Ok _, w) => (200, w)
              | (Err (HDb (ErrConflict _)), w) => (409, w)
              | (_, w) => (500, w)
              end
          end
      | (_, w) => (500, w)
      end
  end.

End server.
