(* ===== verification/HandoffSpec.v ===== *)
(** * storage-proxy: what a handoff promises

    The preferred owner does not depend on the order of the mounts; a handoff that
    succeeds has moved the volume, in the nodes and in the database; one that fails, with
    no message lost, leaves the source serving. *)

From stdpp Require Import base gmap strings list fin_maps numbers sorting relations.
From Stdlib Require Import Strings.Byte Strings.Ascii Lia.
From S2P Require Import Prelude GoStd GoText Volume Notify Mounts Coordinator CoordinatorSpec Classifier KubeNames Portal PortalSpec Handoff.

Local Open Scope Z_scope.

(** ** The preferred owner *)

Lemma str_ltb_le a b : str_ltb a b = true <-> ~ String.le b a.
Proof.
  unfold str_ltb, String.le, String.leb. rewrite Is_true_true, (String.compare_antisym b a).
  destruct (String.compare a b); cbn; split; congruence || done.
Qed.

Lemma str_ltb_false a b : str_ltb a b = false <-> String.le b a.
Proof.
  destruct (str_ltb a b) eqn:E.
  - apply str_ltb_le in E. split; [done|]. by intros.
  - split; [|done]. intros _. destruct (decide (String.le b a)) as [|Hn]; [done|]. apply str_ltb_le in Hn. congruence.
Qed.

Section owner.
  Context `{UnicodeUpper} (s : Server).

(** [a] does not come after [b]. *)
Definition no_worse (a b : VolumeMount) : Prop := better s b a = false.

Lemma no_worse_spec a b :
  no_worse a b <->
  volumeOwnerPriority s a < volumeOwnerPriority s b \/
  (volumeOwnerPriority s a = volumeOwnerPriority s b /\
   (vm_MountedAt a < vm_MountedAt b \/ (vm_MountedAt a = vm_MountedAt b /\ String.le (vm_PodID a) (vm_PodID b)))).
Proof.
  unfold no_worse, better. rewrite !orb_false_iff, !andb_false_iff, !Z.ltb_ge, !Z.eqb_neq, str_ltb_false.
  destruct (decide (volumeOwnerPriority s a = volumeOwnerPriority s b)), (decide (vm_MountedAt a = vm_MountedAt b)); intuition lia.
Qed.

Lemma no_worse_trans a b c : no_worse a b -> no_worse b c -> no_worse a c.
Proof.
  rewrite !no_worse_spec. intros [Hab|(Hab & [Ha|[Ha1 Ha2]])] [Hbc|(Hbc & [Hb|[Hb1 Hb2]])]; try (left; lia); right; (split; [lia|]);
    try (left; lia). right. split; [lia|]. by trans (vm_PodID b).
Qed.

Lemma no_worse_total a b : no_worse a b \/ no_worse b a.
Proof.
  rewrite !no_worse_spec. destruct (total String.le (vm_PodID a) (vm_PodID b));
    destruct (Z.lt_trichotomy (volumeOwnerPriority s a) (volumeOwnerPriority s b)) as [|[]];
    destruct (Z.lt_trichotomy (vm_MountedAt a) (vm_MountedAt b)) as [|[]]; intuition lia.
Qed.

Lemma no_worse_antisym a b : no_worse a b -> no_worse b a -> vm_PodID a = vm_PodID b.
Proof.
  rewrite !no_worse_spec. intros [Hab|(Hab & [Ha|[Ha1 Ha2]])] [Hbc|(Hbc & [Hb|[Hb1 Hb2]])]; try lia. by apply (anti_symm String.le).
Qed.

(** [r] is the preferred one of the mounts [ms]. *)
Definition preferred (ms : list VolumeMount) (r : option VolumeMount) : Prop :=
  match r with
  | None => forall a, a ∈ ms -> eligible s a = false
  | Some c => c ∈ ms /\ eligible s c = true /\ forall a, a ∈ ms -> eligible s a = true -> no_worse c a
  end.

Lemma preferred_step ms r m : preferred ms r -> preferred (ms ++ [m]) (owner_step s r m).
Proof.
  unfold preferred, owner_step. intros Hr.
  assert (Hself : no_worse m m) by by destruct (no_worse_total m m).
  assert (Hor : forall (P : VolumeMount -> Prop), (forall a, a ∈ ms -> P a) -> P m -> forall a, a ∈ ms ++ [m] -> P a).
  { intros P Hms Hm a [Ha|Ha%list_elem_of_singleton]%elem_of_app; [auto|by subst]. }
  destruct (eligible s m) eqn:He; cbn [negb].
  2:{ destruct r as [c|]; [destruct Hr as (H1 & H2 & H3); split; [set_solver|split; [done|]]|].
      - apply (Hor (fun a => eligible s a = true -> no_worse c a)); [auto|congruence].
      - by apply (Hor (fun a => eligible s a = false)). }
  destruct r as [c|].
  - destruct Hr as (H1 & H2 & H3). destruct (better s m c) eqn:Hb; (split; [set_solver|split; [done|]]).
    2:{ apply (Hor (fun a => eligible s a = true -> no_worse c a)); [auto|]. by intros _. }
    apply (Hor (fun a => eligible s a = true -> no_worse m a)); [|done].
    intros a Ha Hea. apply (no_worse_trans m c); [|auto]. destruct (no_worse_total m c) as [|Hx]; [done|]. unfold no_worse in Hx. congruence.
  - split; [set_solver|split; [done|]]. apply (Hor (fun a => eligible s a = true -> no_worse m a)); [|done]. intros a Ha Hea. rewrite (Hr a Ha) in Hea. done.
Qed.

Lemma preferred_owner ms : preferred ms (selectPreferredVolumeOwner s ms).
Proof.
  unfold selectPreferredVolumeOwner.
  assert (Hg : forall l seen r, preferred seen r -> preferred (seen ++ l) (fold_left (owner_step s) l r)).
  { induction l as [|m l IH]; intros seen r Hr; cbn [fold_left]; [by rewrite app_nil_r|].
    replace (seen ++ m :: l) with ((seen ++ [m]) ++ l) by by rewrite <-app_assoc. by apply IH, preferred_step. }
  apply (Hg ms [] None). intros a Ha. by apply elem_of_nil in Ha.
Qed.
End owner.

(** The servers of a cluster agree on the owner as soon as a ctld has the volume: they
    choose the same mount, in whatever order they read the mounts and whoever they are. *)
Theorem ctld_owner_agreed `{UnicodeUpper} s s' ms ms' c :
  se_selfClusterID s = se_selfClusterID s' -> ms ≡ₚ ms' ->
  (forall a b, a ∈ ms -> b ∈ ms -> vm_PodID a = vm_PodID b -> a = b) ->
  selectPreferredVolumeOwner s ms = Some c -> volumeOwnerPriority s c = 0 -> selectPreferredVolumeOwner s' ms' = Some c.
Proof.
  intros Hc Hp Hu Hs H0. pose proof (preferred_owner s ms) as Hr. rewrite Hs in Hr. destruct Hr as (Hin & He & Hbest).
  pose proof (preferred_owner s' ms') as Hr'. unfold preferred in Hr'.
  assert (Hel : forall a, eligible s' a = eligible s a) by (intros a; unfold eligible; by rewrite Hc).
  assert (Hz : forall a, volumeOwnerPriority s a = 0 <-> volumeOwnerPriority s' a = 0).
  { intros a. unfold volumeOwnerPriority. repeat case_bool_decide; lia. }
  assert (Hnn : forall t a, 0 <= volumeOwnerPriority t a) by (intros t a; unfold volumeOwnerPriority; repeat case_bool_decide; lia).
  destruct (selectPreferredVolumeOwner s' ms') as [c'|].
  2:{ rewrite Hp in Hin. specialize (Hr' c Hin). rewrite Hel in Hr'. congruence. }
  destruct Hr' as (Hin' & He' & Hbest'). rewrite <-Hp in Hin'. rewrite Hel in He'. f_equal.
  assert (Hcc : no_worse s' c' c) by (apply Hbest'; [by rewrite <-Hp|by rewrite Hel]).
  apply Hu; [done..|]. apply (no_worse_antisym s); [|by apply Hbest].
  apply no_worse_spec in Hcc. apply no_worse_spec. apply Hz in H0 as H0'. pose proof (Hnn s' c') as Hnn'.
  assert (H1 : volumeOwnerPriority s' c' = 0) by lia. apply Hz in H1 as H1'. rewrite H0, H1'. rewrite H0', H1 in Hcc. done.
Qed.

(** ** Messages *)

Lemma at_ctld_ok {A} `{UnicodeCase} addr (h : PM A) w a w' :
  at_ctld addr h w = (Ok a, w') ->
  exists m m', w_ctlds w !! addr = Some m /\ h (m, w_db w) = (Ok a, (m', w_db w')) /\ w_ctlds w' = <[addr := m']> (w_ctlds w).
Proof.
  unfold at_ctld. destruct (w_ctlds w !! addr) as [m|]; [|done].
  destruct (h (m, w_db w)) as [[b|e|] [m' d']] eqn:Hh; [|done..]. intros [= <- <-]. by exists m, m'.
Qed.

Lemma post_ok {A} `{UnicodeCase} url (h : PM A) w a w' :
  postCtldJSON url h w = (Ok (Ok a), w') ->
  exists m m', w_ctlds w !! TrimRight url "/" = Some m /\ h (m, w_db w) = (Ok a, (m', w_db w'))
    /\ w_ctlds w' = <[TrimRight url "/" := m']> (w_ctlds w).
Proof.
  unfold postCtldJSON. destruct (w_net w) as [|[|e|e] net]; [| |done|done].
  - destruct (at_ctld _ h w) as [r w1] eqn:Hc. intros [= -> ->]. by apply at_ctld_ok in Hc.
  - destruct (at_ctld _ h _) as [r w1] eqn:Hc. intros [= -> ->]. by apply at_ctld_ok in Hc.
Qed.

Lemma db_call_ok {A} (q : DBM A) w a w' :
  db_call q w = (Ok a, w') -> q (w_db w) = (Ok a, w_db w') /\ w_ctlds w' = w_ctlds w.
Proof. unfold db_call. destruct (q (w_db w)) as [[|e|] d]; [|done..]. by intros [= <- <-]. Qed.

(** ** What the handlers of the nodes did *)

Lemma node_effect p m d : exists os, (node p (m, d)).2 = (set_node os m, d).
Proof. unfold node. destruct (mg_outcomes m) as [|[e|] os] eqn:Ho; [exists []|exists os..]; [by destruct m; cbn in *; subst|done..]. Qed.

Lemma node_ok p m d s' : node p (m, d) = (Ok tt, s') -> exists os, s' = (set_node os m, d).
Proof. intros Hn. destruct (node_effect p m d) as [os Ho]. rewrite Hn in Ho. eauto. Qed.

Lemma open_volume_ok m d s' : open_volume (m, d) = (Ok tt, s') -> exists os, s' = (set_node os m, d).
Proof.
  unfold open_volume. intros Ho. repeat (apply bind_ok_inv in Ho as ([] & s & Hn & Ho); apply node_ok in Hn as [? ->]).
  apply node_ok in Ho as [os ->]. by exists os.
Qed.

Lemma local_bound {A} (f : localVolumeManager -> res portal_error A * localVolumeManager) m d r m' d' :
  local f (m, d) = (r, (m', d')) -> d' = d /\ mg_boundVolumes m' = mg_boundVolumes m.
Proof. unfold local. destruct (f (mg_volumes m)) as [r0 l]. by intros [= <- <- <-]. Qed.

Lemma prepare_ok ctx now v m d m' d' :
  PrepareHandoff ctx now v (m, d) = (Ok tt, (m', d')) ->
  d' = d /\ mg_boundVolumes m' = mg_boundVolumes m /\ TrimSpace v <> "" /\ exists b, mg_boundVolumes m !! TrimSpace v = Some b /\ bv_refCount b <= 0.
Proof.
  unfold PrepareHandoff. intros Hp. apply bind_ok_inv in Hp as (idle & [m1 d1] & H1 & Hp).
  unfold prepare_begin in H1. case_bool_decide as Hv; [done|]. cbn [bind manager gets fst] in H1.
  destruct (mg_boundVolumes m !! TrimSpace v) as [b|] eqn:Hb; [|done]. destruct (0 <? bv_refCount b) eqn:Hr; [done|].
  apply local_bound in H1 as [-> Hb1]. apply bind_ok_inv in Hp as ([] & [m2 d2] & H2 & Hp).
  assert (d2 = d /\ mg_boundVolumes m2 = mg_boundVolumes m1) as [-> Hb2].
  { destruct idle; [by injection H2 as <- <-|]. unfold drain_requests, alter_manager, modify in H2. injection H2 as <- <-. by destruct (lm_requests _ !! _). }
  unfold prepare_finish, undoing in Hp. destruct (node "" (m2, d)) as [[[]|e|] s3] eqn:Hn; [|done..].
  apply node_ok in Hn as [os ->]. injection Hp as <- <-. cbn. split; [done|]. split; [congruence|]. split; [done|].
  exists b. split; [done|lia].
Qed.

(** What a handler does to the mounts of the database. *)
Definition fewer_mounts (d d' : DB) : Prop :=
  db_now d' = db_now d /\ db_volumes d' = db_volumes d /\ db_mounts d' ⊆ db_mounts d.

Lemma fewer_refl d : fewer_mounts d d.
Proof. done. Qed.

Lemma unregister_effect v m d r m' d' :
  unregisterOwner v (m, d) = (r, (m', d')) -> m' = m /\ fewer_mounts d d'.
Proof.
  unfold unregisterOwner. cbn [bind manager gets fst]. case_bool_decide; [by intros [= <- <- <-]|].
  unfold ignoring, repository, DeleteMount, stmt. destruct (db_outcomes d) as [|[e|] os]; cbn; intros [= <- <- <-];
    (split; [done|]); repeat split; try done; cbn; apply delete_subseteq.
Qed.

Lemma unmount_ok v m d m' d' :
  UnmountVolume v (m, d) = (Ok tt, (m', d')) ->
  d' = d /\ mg_boundVolumes m' = mg_boundVolumes m /\ lm_volumes (mg_volumes m') !! v = None.
Proof.
  unfold UnmountVolume. cbn [bind manager gets fst]. destruct (lm_volumes (mg_volumes m) !! v) eqn:Hv; [|by intros [= <- <-]].
  intros Hu. repeat (apply bind_ok_inv in Hu as ([] & s & Hn & Hu); apply node_ok in Hn as [? ->]).
  injection Hu as <- <-. cbn. by rewrite lookup_delete_eq.
Qed.

Lemma drop_ok v m d m' d' :
  drop_volume v (m, d) = (Ok tt, (m', d')) ->
  fewer_mounts d d' /\ mg_boundVolumes m' !! v = None /\ lm_volumes (mg_volumes m') !! v = None.
Proof.
  unfold drop_volume. intros Hd. apply bind_ok_inv in Hd as ([] & s1 & H1 & Hd). injection H1 as <-.
  apply bind_ok_inv in Hd as ([] & [m2 d2] & H2 & Hd). apply unmount_ok in H2 as (-> & _ & Hl).
  apply bind_ok_inv in Hd as ([] & s3 & H3 & Hd). injection H3 as <-. apply unregister_effect in Hd as [-> Hf].
  cbn. rewrite lookup_delete_eq. done.
Qed.

Lemma complete_ok_inv now v m d m' d' b :
  CompleteHandoff now v (m, d) = (Ok tt, (m', d')) -> mg_boundVolumes m !! TrimSpace v = Some b ->
  fewer_mounts d d' /\ mg_boundVolumes m' !! TrimSpace v = None /\ lm_volumes (mg_volumes m') !! TrimSpace v = None.
Proof.
  unfold CompleteHandoff. cbv zeta. case_bool_decide; [done|]. intros Hc Hb.
  apply bind_ok_inv in Hc as ([] & s1 & H1 & Hc). injection H1 as <-. unfold complete_locked in Hc. cbn [bind manager gets fst] in Hc.
  change (mg_boundVolumes (set_local _ m)) with (mg_boundVolumes m) in Hc. rewrite Hb in Hc. by apply drop_ok in Hc.
Qed.

(** ** What binding did *)

Lemma shown_counts v i os p : os !! i = Some p -> po_volumeID p = v -> 1 <= shows v os.
Proof.
  intros Hi <-. revert i Hi. induction os as [|q os IH]; intros [|i] Hi; try done; rewrite shows_cons.
  - injection Hi as ->. rewrite bool_decide_true by done. pose proof (shows_nonneg (po_volumeID p) os). cbn [one_if]. lia.
  - specialize (IH i Hi). pose proof (one_if_bound (bool_decide (po_volumeID q = po_volumeID p))). lia.
Qed.

Definition portal_shows (m : Manager) (key v : string) : Prop :=
  exists i pm, portal_of m key = Some (i, pm) /\ po_volumeID pm = v.

Lemma attach_portal_shows m key i pm v t at_ bs l :
  portal_of m key = Some (i, pm) -> portal_shows (set_local l (set_bound bs (attachPortalLocked i v t at_ m))) key v.
Proof.
  unfold portal_of, portal_shows. cbn. destruct (mg_portals m !! key) as [j|] eqn:Hk; [|done].
  destruct (mg_objects m !! j) as [p|] eqn:Hj; [|done]. intros [= -> ->].
  exists i, (set_binding v t at_ pm). unfold portal_of. cbn. by rewrite Hk, list_lookup_alter_eq, Hj.
Qed.

(** The transaction that made the node the owner. *)
Definition owner_row `{UnicodeUpper} (m : Manager) (id : string) (now : Z) (v access : string) (at_ : Z) : VolumeMount :=
  mkVolumeMount id v (mg_clusterID m) (ownerPodID m) now at_
    (Some (Some (mkMountOptions access OwnerKindCtld 8095 (mg_nodeName m) (mg_podNamespace m)))).

Lemma own_ok `{UnicodeUpper} id now v t access at_ n sc sp undo m d m' d' :
  own_volume id now v t access at_ n sc sp undo (m, d) = (Ok tt, (m', d')) -> sc <> "" -> sp <> "" ->
  TransferMount v sc sp (owner_row m id now v access at_) (heartbeatTimeout m) d = (Ok tt, d')
  /\ exists bs l, m' = set_local l (set_bound bs m).
Proof.
  unfold own_volume. intros Ho Hsc Hsp. apply bind_ok_inv in Ho as ([] & s1 & H1 & Ho). injection H1 as <-.
  apply bind_ok_inv in Ho as ([] & s2 & H2 & Ho). unfold undoing in H2.
  destruct (registerOwner _ _ _ _ _ _) as [[[]|e|] s3] eqn:Hr; [|done..]. injection H2 as ->.
  unfold registerOwner in Hr. cbn [bind manager gets fst mg_boundVolumes set_local set_bound] in Hr.
  rewrite lookup_insert_eq in Hr. case_bool_decide; [done|]. case_bool_decide; [done|].
  rewrite !bool_decide_false in Hr by done. cbn [negb andb] in Hr.
  apply bind_ok_inv in Hr as ([] & s4 & H4 & Hr). apply repository_ok in H4 as (d4 & H4 & ->).
  injection Hr as <-. injection Ho as <- <-. split; [exact H4|]. eexists _, _. reflexivity.
Qed.

(** A portal that shows another volume, or none, is not attached to one that is closed. *)
Lemma attach_existing_fresh req name t access at_ m d r s' i pm :
  attach_existing req name t access at_ (m, d) = (Ok (Some r), s') -> mg_boundVolumes m !! bq_SandboxVolumeID req = None ->
  portal_of m (portalKey (bq_PodUID req) name) = Some (i, pm) -> po_volumeID pm = bq_SandboxVolumeID req.
Proof.
  unfold attach_existing. cbn [bind manager gets fst]. intros Ha Hb Hp. rewrite Hp, Hb in Ha.
  destruct (bool_decide (po_volumeID pm = "")); cbn [negb] in Ha; [by destruct (findBoundPortalForVolume _ _ _)|].
  case_bool_decide; [done|]. done.
Qed.

Lemma bind_commit_fresh `{UnicodeUpper} id now req name t access at_ m d r m' d' :
  bind_commit id now req name t access at_ (m, d) = (Ok r, (m', d')) ->
  mg_boundVolumes m !! bq_SandboxVolumeID req = None ->
  (forall i pm, portal_of m (portalKey (bq_PodUID req) name) = Some (i, pm) -> po_volumeID pm <> bq_SandboxVolumeID req) ->
  TrimSpace (bq_TransferSourceClusterID req) <> "" -> TrimSpace (bq_TransferSourcePodID req) <> "" ->
  portal_shows m' (portalKey (bq_PodUID req) name) (bq_SandboxVolumeID req) /\
  TransferMount (bq_SandboxVolumeID req) (TrimSpace (bq_TransferSourceClusterID req)) (TrimSpace (bq_TransferSourcePodID req))
    (owner_row m id now (bq_SandboxVolumeID req) access at_) (heartbeatTimeout m) d = (Ok tt, d').
Proof.
  unfold bind_commit. intros Hc Hb Hp Hsc Hsp. apply bind_ok_inv in Hc as (found & s1 & H1 & Hc).
  destruct found as [r0|].
  - exfalso. destruct (portal_of m (portalKey (bq_PodUID req) name)) as [[i pm]|] eqn:Hpo.
    + apply (Hp i pm eq_refl). by eapply attach_existing_fresh.
    + unfold attach_existing in H1. cbn [bind manager gets fst] in H1. by rewrite Hpo in H1.
  - apply attach_existing_none in H1 as (-> & _ & i & pm & Hpo & _). cbn [bind manager gets fst] in Hc. rewrite Hpo in Hc.
    apply bind_ok_inv in Hc as ([] & s2 & H2 & Hc). injection H2 as <-.
    apply bind_ok_inv in Hc as ([] & [m3 d3] & H3 & Hc). injection Hc as _ <- <-.
    apply own_ok in H3 as [H3 (bs & l & ->)]; [|done..]. split; [|exact H3]. by eapply attach_portal_shows.
Qed.

Lemma same_tables_refl d : same_tables d d.
Proof. done. Qed.

Lemma validate_tables `{UnicodeUpper} team ctx req m d p s' :
  bind_validate team ctx req (m, d) = (Ok p, s') -> same_tables d s'.2.
Proof.
  unfold bind_validate. intros Hv. apply bind_ok_inv in Hv as ([] & s1 & H1 & Hv). destruct ctx; [done|]. injection H1 as <-.
  case_bool_decide; [done|]. destruct (_ || _); [done|]. apply bind_ok_inv in Hv as (vol & s2 & H2 & Hv).
  apply bind_ok_inv in Hv as (acc & s3 & H3 & Hv). apply validate_mode in H3 as [_ ->]. injection Hv as _ <-.
  unfold validateBindableVolume in H2. apply bind_ok_inv in H2 as (vol1 & s4 & H4 & H2). apply repository_ok in H4 as (d4 & H4 & ->).
  assert (same_tables d d4) as Ht by (apply stmt_ok in H4 as [os H4]; cbn in H4; destruct (db_volumes d !! _); by inversion H4).
  destruct (negb _); [done|]. apply bind_ok_inv in H2 as (acc' & s5 & H5 & H2). apply validate_mode in H5 as [_ ->].
  case_bool_decide; [by injection H2 as _ <-|]. cbn [bind manager gets fst] in H2.
  apply bind_ok_inv in H2 as (ms & s6 & H6 & H2). apply repository_ok in H6 as (d6 & H6 & ->).
  apply active_ok in H6 as (_ & Ht6 & _). destruct (filter _ ms); [|done]. injection H2 as _ <-. by eapply same_tables_trans.
Qed.

Lemma Bind_fresh `{UnicodeUpper} team ctx id now req m d r m' d' :
  let key := portalKey (bq_PodUID req) (NormalizePortalName (bq_PortalName req) (bq_MountPath req)) in
  Bind team ctx id now req (m, d) = (Ok r, (m', d')) ->
  mg_boundVolumes m !! bq_SandboxVolumeID req = None -> shows (bq_SandboxVolumeID req) (mg_objects m) = 0 ->
  TrimSpace (bq_TransferSourceClusterID req) <> "" -> TrimSpace (bq_TransferSourcePodID req) <> "" ->
  portal_shows m' key (bq_SandboxVolumeID req) /\
  exists d1 access, same_tables d d1 /\
    TransferMount (bq_SandboxVolumeID req) (TrimSpace (bq_TransferSourceClusterID req)) (TrimSpace (bq_TransferSourcePodID req))
      (owner_row m id now (bq_SandboxVolumeID req) access now) (heartbeatTimeout m) d1 = (Ok tt, d').
Proof.
  intros key Hbind Hb Hs Hsc Hsp. unfold Bind in Hbind. apply bind_ok_inv in Hbind as ([[name vol] access] & [m1 d1] & H1 & Hbind).
  pose proof (validate_tables _ _ _ _ _ _ _ H1) as Ht. apply bind_validate_ok in H1 as (Hm & -> & _). cbn in Hm, Ht. subst m1.
  cbn [bind manager gets fst] in Hbind. fold key in Hbind. destruct (portal_of m key) as [[i pm]|] eqn:Hp; [|done].
  assert (Hpm : po_volumeID pm <> bq_SandboxVolumeID req).
  { intros He. apply portal_of_object in Hp. pose proof (shown_counts _ _ _ _ Hp He). lia. }
  rewrite bool_decide_false in Hbind by done. destruct (negb _); [done|].
  apply bind_ok_inv in Hbind as (found & s2 & H2 & Hbind).
  assert (Hn : found = None).
  { destruct found as [r0|]; [exfalso|done]. by apply Hpm, (attach_existing_fresh _ _ _ _ _ _ _ _ _ _ _ H2 Hb Hp). }
  subst found. apply attach_existing_none in H2 as (-> & _).
  apply bind_ok_inv in Hbind as ([] & s3 & H3 & Hbind). apply open_volume_ok in H3 as [os ->].
  apply bind_commit_fresh in Hbind as [Hsh Htr]; try done.
  - split; [exact Hsh|]. exists d1, access. split; [done|exact Htr].
  - intros j pm' Hp'. change (portal_of (set_node os m) _) with (portal_of m key) in Hp'. congruence.
Qed.

(** ** What the transfer did *)

Lemma transfer_ok `{UnicodeUpper} v sc sp target T d d' :
  TransferMount v sc sp target T d = (Ok tt, d') -> keys_ok d -> vm_VolumeID target = v -> 0 < T ->
  instance_of target <> (sc, sp) ->
  db_now d' = db_now d /\ db_volumes d' = db_volumes d /\ db_mounts d' !! (v, sc, sp) = None
  /\ is_Some (db_mounts d' !! key_of target)
  /\ (forall a, a ∈ active_mounts d' v T -> instance_of a = instance_of target).
Proof.
  intros Htr Hk Hvt HT Hne. pose proof (guarded_transfer false T HT v sc sp target Hvt d) as Hg.
  unfold guarded in Hg. rewrite Htr in Hg. destruct Hg as [[Hk' _] _]; [split; [done|discriminate]|]. cbn in Hk'.
  unfold TransferMount in Htr. destruct (Z.leb_spec T 0) as [Hz|Hz]; [lia|]. destruct (_ || _ || _); [done|]. destruct (_ || _); [done|].
  apply with_tx_ok in Htr as (d1 & d2 & (N1 & W1 & M1) & Hb & (N2 & W2 & M2)).
  apply bind_ok_inv in Hb as (mode & x1 & H1 & Hb). case_decide as Hdm; [done|]. apply bind_ok_inv in Hb as (ms & x2 & H2 & Hb).
  apply lock_ok in H1 as (_ & (Nx1 & Wx1 & Mx1) & _). apply active_ok in H2 as (-> & (Nx2 & Wx2 & Mx2) & _).
  destruct (negb _) eqn:Hfree; [done|]. apply negb_false_iff in Hfree. rewrite forallb_forall in Hfree.
  destruct (negb (existsb _ _)); [done|]. apply bind_ok_inv in Hb as ([] & x3 & H3 & H4).
  apply delete_ok in H3 as (y3 & (Ny3 & Wy3 & My3) & _ & ->). apply create_ok in H4 as (y4 & (Ny4 & Wy4 & My4) & _ & ->). cbn in *.
  assert (Hms : db_mounts d' = upsert target (delete (v, sc, sp) (db_mounts d))) by congruence.
  assert (Hup : forall k, k <> key_of target -> db_mounts d' !! k = delete (v, sc, sp) (db_mounts d) !! k).
  { intros k Hkt. rewrite Hms. unfold upsert. destruct (delete _ _ !! key_of target); by rewrite lookup_insert_ne by congruence. }
  split; [congruence|]. split; [congruence|]. split.
  { rewrite Hup; [apply lookup_delete_eq|]. unfold key_of, instance_of in *. intros Heq. injection Heq as E1 E2 E3. apply Hne. congruence. }
  split.
  { rewrite Hms. unfold upsert. destruct (delete _ _ !! key_of target); rewrite lookup_insert_eq; eauto. }
  intros a (Hav & Hact & k & Ha)%elem_of_active. specialize (Hk' k a Ha).
  destruct (decide (k = key_of target)) as [->|Hkt]; [unfold key_of, instance_of in *; congruence|].
  rewrite (Hup k Hkt) in Ha. apply lookup_delete_Some in Ha as [Hnk Ha].
  assert (Hin : a ∈ active_mounts x1 v T).
  { apply elem_of_active. split; [done|]. split; [|exists k; congruence].
    unfold is_active in *. by replace (db_now x1) with (db_now d') by congruence. }
  apply list_elem_of_In in Hin. specialize (Hfree a Hin). unfold same_instance, key_of, instance_of in *.
  apply orb_prop in Hfree as [Hs|Hs]; apply andb_prop in Hs as [Hc%bool_decide_eq_true Hp%bool_decide_eq_true]; congruence.
Qed.

(** ** A handoff that succeeds *)

Lemma upsert_handoff_ok now h d d' : UpsertVolumeHandoff now h d = (Ok tt, d') -> same_tables d d'.
Proof.
  unfold UpsertVolumeHandoff. case_decide; [done|]. unfold stmt. destruct (db_outcomes d) as [|[e|] os]; intros [= <-]; done.
Qed.

Lemma cleanup_tables v w w' : cleanup_handoff v w = (Ok tt, w') -> same_tables (w_db w) (w_db w') /\ w_ctlds w' = w_ctlds w.
Proof.
  unfold cleanup_handoff, db_call, DeleteVolumeHandoff, stmt. case_decide; [by intros [= <-]|].
  destruct (db_outcomes (w_db w)) as [|[e|] os]; intros [= <-]; done.
Qed.

(** The four steps of a handoff that succeeds. *)
Lemma run_handoff_ok `{UnicodeCase, UnicodeUpper} team id now v url src req w w' :
  run_handoff team id now v url src req w = (Ok tt, w') ->
  exists w1 w2 w3 w4 r,
    postCtldJSON url (PrepareHandoff None now v) w = (Ok (Ok tt), w1) /\
    db_call (UpsertVolumeHandoff now (handoff_row v src req "binding" (now + 30 * second))) w1 = (Ok tt, w2) /\
    postCtldJSON (pb_TargetCtldAddr req) (Bind team None id now (bind_request v src req)) w2 = (Ok (Ok r), w3) /\
    postCtldJSON url (CompleteHandoff now v) w3 = (Ok (Ok tt), w4) /\ cleanup_handoff v w4 = (Ok tt, w').
Proof.
  unfold run_handoff. intros Hr. apply bind_ok_inv in Hr as (p & w1 & H1 & Hr).
  destruct p as [[]|e|]; [|by apply bind_ok_inv in Hr as (? & ? & _ & ?)|done].
  destruct (db_call _ w1) as [[[]|e|] w2] eqn:H2; [|by apply bind_ok_inv in Hr as (? & ? & _ & ?)|done].
  apply bind_ok_inv in Hr as (b & w3 & H3 & Hr). destruct b as [r|e|]; [|by apply bind_ok_inv in Hr as (? & ? & _ & ?)|done].
  apply bind_ok_inv in Hr as (c & w4 & H4 & Hr). destruct c as [[]|e|]; [|by apply bind_ok_inv in Hr as (? & ? & _ & ?)|done].
  by exists w1, w2, w3, w4, r.
Qed.

Lemma fewer_active d d' v T a : fewer_mounts d d' -> a ∈ active_mounts d' v T -> a ∈ active_mounts d v T.
Proof.
  intros (Hn & _ & Hm) (Hv & Ha & k & Hk)%elem_of_active. apply elem_of_active. split; [done|]. split.
  - unfold is_active in *. by rewrite <-Hn.
  - exists k. by eapply lookup_weaken.
Qed.

(** What the handlers of the two nodes did, one after the other. *)
Lemma handoff_trace `{UnicodeCase, UnicodeUpper, Pods} team port id now v src req w w' url mt :
  executePortalBindHandoff team port id now v src req w = (Ok tt, w') ->
  resolveVolumeMountURL port src = Ok (Some url) -> sameCTLDAddress url (pb_TargetCtldAddr req) = false ->
  TrimRight url "/" <> TrimRight (pb_TargetCtldAddr req) "/" ->
  w_ctlds w !! TrimRight (pb_TargetCtldAddr req) "/" = Some mt ->
  exists ms1 ms2 mt' b r d2 d3 d4,
    TrimSpace v <> "" /\ mg_boundVolumes ms1 !! TrimSpace v = Some b /\ same_tables (w_db w) d2
    /\ Bind team None id now (bind_request v src req) (mt, d2) = (Ok r, (mt', d3))
    /\ CompleteHandoff now v (ms1, d3) = (Ok tt, (ms2, d4)) /\ same_tables d4 (w_db w')
    /\ w_ctlds w' !! TrimRight url "/" = Some ms2 /\ w_ctlds w' !! TrimRight (pb_TargetCtldAddr req) "/" = Some mt'.
Proof.
  intros Hex Hurl Hsame Hne Hmt. unfold executePortalBindHandoff in Hex. rewrite Hurl, Hsame in Hex.
  apply bind_ok_inv in Hex as ([] & w0 & K0 & Hex). apply db_call_ok in K0 as [T0 C0]. apply upsert_handoff_ok in T0.
  apply run_handoff_ok in Hex as (w1 & w2 & w3 & w4 & r & K1 & K2 & K3 & K4 & K5).
  apply post_ok in K1 as (ms & ms1 & _ & K1 & C1). apply prepare_ok in K1 as (D1 & B1 & Hv1 & b & Hbs & _).
  apply db_call_ok in K2 as [T2 C2]. apply upsert_handoff_ok in T2.
  apply post_ok in K3 as (mt0 & mt1 & Hmt0 & K3 & C3). apply post_ok in K4 as (ms2 & ms3 & Hms2 & K4 & C4).
  apply cleanup_tables in K5 as [T5 C5].
  assert (mt0 = mt) as ->. { rewrite C2, C1, lookup_insert_ne, C0 in Hmt0 by done. congruence. }
  assert (ms2 = ms1) as ->. { rewrite C3, lookup_insert_ne, C2, C1, lookup_insert_eq in Hms2 by done. congruence. }
  exists ms1, ms3, mt1, b, r, (w_db w2), (w_db w3), (w_db w4). split; [done|]. split; [congruence|].
  split; [rewrite D1 in T2; by eapply same_tables_trans|]. split; [done|]. split; [done|]. split; [done|].
  split; [by rewrite C5, C4, lookup_insert_eq|]. by rewrite C5, C4, lookup_insert_ne, C3, lookup_insert_eq.
Qed.

(** C7: A handoff that reports success has moved the volume: the source no longer has it
    open, the portal of the target shows it and the target counts it, the row of the
    source is gone from the database, and no instance but the target has an active mount
    of the volume. *)
Theorem handoff_moves_owner `{UnicodeCase, UnicodeUpper, Pods} team port mode id now v src req w w' url mt :
  executePortalBindHandoff team port id now v src req w = (Ok tt, w') ->
  resolveVolumeMountURL port src = Ok (Some url) -> sameCTLDAddress url (pb_TargetCtldAddr req) = false ->
  TrimRight url "/" <> TrimRight (pb_TargetCtldAddr req) "/" -> TrimSpace v = v ->
  w_ctlds w !! TrimRight (pb_TargetCtldAddr req) "/" = Some mt ->
  manager_ok mode mt -> modes_are mode (w_db w) -> mg_boundVolumes mt !! v = None -> keys_ok (w_db w) ->
  TrimSpace (vm_ClusterID src) = vm_ClusterID src -> TrimSpace (vm_PodID src) = vm_PodID src ->
  vm_ClusterID src <> "" -> vm_PodID src <> "" -> instance_of src <> (mg_clusterID mt, ownerPodID mt) ->
  exists ms' mt',
    w_ctlds w' !! TrimRight url "/" = Some ms' /\ mg_boundVolumes ms' !! v = None /\ lm_volumes (mg_volumes ms') !! v = None
    /\ w_ctlds w' !! TrimRight (pb_TargetCtldAddr req) "/" = Some mt'
    /\ portal_shows mt' (portalKey (pb_PodUID req) (NormalizePortalName (pb_PortalName req) (pb_MountPath req))) v
    /\ 1 <= refs (mg_boundVolumes mt') v
    /\ db_mounts (w_db w') !! (v, vm_ClusterID src, vm_PodID src) = None
    /\ (forall a, a ∈ active_mounts (w_db w') v (heartbeatTimeout mt) -> instance_of a = (mg_clusterID mt, ownerPodID mt)).
Proof.
  intros Hex Hurl Hsame Hne Hv Hmt Hok Hmodes Hb Hkeys Hc1 Hp1 Hc2 Hp2 Hinst.
  apply (handoff_trace _ _ _ _ _ _ _ _ _ url mt) in Hex
    as (ms1 & ms2 & mt' & b & r & d2 & d3 & d4 & Hv1 & Hbs & (N2 & W2 & M2) & Hbind & Hcompl & (N5 & W5 & M5) & Hw1 & Hw2); [|done..].
  rewrite Hv in *.
  assert (Hok1 : manager_ok mode mt').
  { pose proof (Bind_ok mode team None id now (bind_request v src req) mt d2) as Hx. rewrite Hbind in Hx.
    apply Hx; [|done]. unfold modes_are. by rewrite W2. }
  apply Bind_fresh in Hbind as [Hsh (d1 & access & (N1 & W1 & M1) & Htr)];
    cbn [bq_SandboxVolumeID bq_TransferSourceClusterID bq_TransferSourcePodID bind_request] in *; [|done| |by rewrite Hc1|by rewrite Hp1].
  2:{ destruct (Hok v Hv1) as [Hle _]. unfold refs in Hle. rewrite Hb in Hle. pose proof (shows_nonneg v (mg_objects mt)). lia. }
  rewrite Hc1, Hp1 in Htr.
  apply transfer_ok in Htr as (_ & _ & Hsrc & _ & Hact); [|unfold keys_ok; by rewrite M1, M2|done| |unfold instance_of in *; cbn; congruence].
  2:{ unfold heartbeatTimeout. destruct (0 <? mg_heartbeatTimeout mt) eqn:?; lia. }
  apply (complete_ok_inv _ _ _ _ _ _ b) in Hcompl as ((F1 & F2 & F3) & Hnb & Hnl); rewrite ?Hv in *; [|done].
  assert (Hf5 : fewer_mounts d3 (w_db w')) by (repeat split; [congruence..|by rewrite M5]).
  exists ms2, mt'. do 4 (split; [done|]). split; [exact Hsh|]. split; [|split].
  - destruct Hsh as (i & pm & Hp & Hpm). apply portal_of_object in Hp. pose proof (shown_counts _ _ _ _ Hp Hpm).
    destruct (Hok1 v Hv1). lia.
  - destruct (db_mounts (w_db w') !! _) as [x|] eqn:Hx; [|done].
    destruct Hf5 as (_ & _ & Hsub). eapply lookup_weaken in Hx; [|exact Hsub]. congruence.
  - intros a Ha. apply Hact. by eapply fewer_active.
Qed.

(** ** A handoff that fails *)

Lemma own_effect `{UnicodeUpper} id now v t access at_ n sc sp undo m d m' d' :
  own_volume id now v t access at_ n sc sp undo (m, d) = (Ok tt, (m', d')) -> exists bs l, m' = set_local l (set_bound bs m).
Proof.
  unfold own_volume. intros Ho. apply bind_ok_inv in Ho as ([] & s1 & K1 & Ho). injection K1 as <-.
  apply bind_ok_inv in Ho as ([] & [m2 d2] & K2 & Ho). unfold undoing in K2. cbn [fst snd] in K2.
  set (m1 := set_local _ _) in K2. pose proof (registerOwner_effect id now v sc sp m1 d) as He. cbv zeta in He.
  destruct (registerOwner _ _ _ _ _ _) as [[[]|e|] [m3 d3]]; [|done..]. injection K2 as <- <-. cbn [fst snd] in He.
  destruct He as [[? _]|(_ & b & b' & _ & _ & ->)]; [done|]. injection Ho as <- <-. eexists _, _. reflexivity.
Qed.

Lemma attach_existing_shows req name t access at_ m d r s' :
  attach_existing req name t access at_ (m, d) = (Ok (Some r), s') ->
  portal_shows s'.1 (portalKey (bq_PodUID req) name) (bq_SandboxVolumeID req).
Proof.
  unfold attach_existing. cbn [bind manager gets fst]. destruct (portal_of m _) as [[i pm]|] eqn:Hp; [|done].
  destruct (bool_decide (po_volumeID pm = "")); cbn [negb].
  - assert (Ha : forall bs, portal_shows (set_bound bs (attachPortalLocked i (bq_SandboxVolumeID req) t at_ m))
      (portalKey (bq_PodUID req) name) (bq_SandboxVolumeID req)).
    { intros bs. exact (attach_portal_shows m _ i pm (bq_SandboxVolumeID req) t at_ bs (mg_volumes m) Hp). }
    destruct (mg_boundVolumes m !! _) as [b|]; [|by destruct (findBoundPortalForVolume _ _ _)].
    destruct (bv_refCount b =? 0); [intros [= <- <-]; apply Ha|]. destruct (negb _); [done|]. intros [= <- <-]; apply Ha.
  - case_bool_decide as He; cbn [negb]; [|done]. intros [= <- <-]. by exists i, pm.
Qed.

Lemma Bind_shows `{UnicodeUpper} team ctx id now req m d r s' :
  Bind team ctx id now req (m, d) = (Ok r, s') ->
  portal_shows s'.1 (portalKey (bq_PodUID req) (NormalizePortalName (bq_PortalName req) (bq_MountPath req))) (bq_SandboxVolumeID req).
Proof.
  unfold Bind. intros Hb. apply bind_ok_inv in Hb as ([[name vol] access] & [m1 d1] & K1 & Hb).
  apply bind_validate_ok in K1 as (Hm & -> & _). cbn in Hm. subst m1. cbn [bind manager gets fst] in Hb.
  set (key := portalKey _ _) in *. destruct (portal_of m key) as [[i pm]|] eqn:Hp; [|done].
  case_bool_decide as He; [injection Hb as _ <-; by exists i, pm|]. destruct (negb _); [done|].
  apply bind_ok_inv in Hb as (found & s2 & K2 & Hb).
  destruct found as [r0|]; [injection Hb as _ <-; by apply attach_existing_shows in K2|].
  apply bind_ok_inv in Hb as ([] & [m3 d3] & _ & Hb). unfold bind_commit in Hb.
  apply bind_ok_inv in Hb as (found & s4 & K4 & Hb).
  destruct found as [r0|]; [injection Hb as _ <-; by apply attach_existing_shows in K4|].
  apply attach_existing_none in K4 as (-> & _ & j & pm' & Hp' & _). cbn [bind manager gets fst] in Hb. rewrite Hp' in Hb.
  apply bind_ok_inv in Hb as ([] & s5 & K5 & Hb). injection K5 as <-. apply bind_ok_inv in Hb as ([] & [m6 d6] & K6 & Hb).
  injection Hb as _ <-. apply own_effect in K6 as (bs & l & ->). by eapply attach_portal_shows.
Qed.

(** No handoff of the volume holds requests back. *)
Definition serving (v : string) (m : Manager) : Prop :=
  forall st, lm_requests (mg_volumes m) !! v = Some st -> rs_transferring st = false.

Lemma serving_abort now v m : serving v (set_local (lv_abortHandoff now v (mg_volumes m)) m).
Proof.
  intros st. unfold lv_abortHandoff. cbn. destruct (lm_requests (mg_volumes m) !! v) as [st0|] eqn:Hs; cbn; [|congruence].
  destruct (rs_transferring st0) eqn:Ht; cbn; [rewrite lookup_insert_eq; by intros [= <-]|congruence].
Qed.

Lemma serving_drop v m d : serving v m -> serving v (drop_volume v (m, d)).2.1.
Proof.
  intros Hs. unfold drop_volume, alter_manager. cbn. set (m1 := set_bound _ m). assert (H1 : serving v m1) by exact Hs.
  assert (H2 : serving v (UnmountVolume v (m1, d)).2.1).
  { unfold UnmountVolume. cbn [bind manager gets fst]. destruct (lm_volumes (mg_volumes m1) !! v); [|done].
    do 3 (match goal with |- serving _ (bind (node ?p) ?k (?mx, ?dx)).2.1 =>
            unfold bind at 1; destruct (node_effect p mx dx) as [? Ho]; destruct (node p (mx, dx)) as [[[]|e|] s]; cbn in Ho; subst s; [|done..]
          end). intros st. cbn. by rewrite lookup_delete_eq. }
  unfold bind at 1. destruct (UnmountVolume v (m1, d)) as [[[]|e|] [m2 d2]]; [|done..].
  unfold bind at 1, modify. cbn [fst snd].
  destruct (unregisterOwner v (set_bound (delete v (mg_boundVolumes m2)) m2, d2)) as [r [m3 d3]] eqn:Hu. apply unregister_effect in Hu as [-> _]. exact H2.
Qed.

Lemma serving_complete now v m d : TrimSpace v = v -> v <> "" -> serving v (CompleteHandoff now v (m, d)).2.1.
Proof.
  intros Hv Hne. unfold CompleteHandoff. rewrite Hv, bool_decide_false by done. unfold bind, abortHandoff, alter_manager, modify.
  cbn [fst snd]. pose proof (serving_abort now v m) as Ha. unfold complete_locked. cbn [bind manager gets fst].
  destruct (mg_boundVolumes _ !! v); [by apply serving_drop|exact Ha].
Qed.

(** With no message lost, the handler of the node ran, and what it answered arrived. *)
Lemma post_nil {A} `{UnicodeCase} url (h : PM A) w m :
  w_net w = [] -> w_ctlds w !! TrimRight url "/" = Some m ->
  exists r m' d', postCtldJSON url h w = (Ok r, mkWorld d' (<[TrimRight url "/" := m']> (w_ctlds w)) [])
    /\ (h (m, w_db w)).2 = (m', d') /\ (forall a, r = Ok a <-> (h (m, w_db w)).1 = Ok a) /\ r <> Panic.
Proof.
  intros Hn Hm. unfold postCtldJSON. rewrite Hn. unfold at_ctld. rewrite Hm.
  destruct (h (m, w_db w)) as [[a|e|] [m' d']]; rewrite Hn; eexists _, m', d'; (split; [reflexivity|]); cbn; repeat split; congruence.
Qed.

Lemma post_elsewhere {A} `{UnicodeCase} url (h : PM A) w addr :
  w_net w = [] -> addr <> TrimRight url "/" ->
  exists r w', postCtldJSON url h w = (Ok r, w') /\ w_net w' = [] /\ w_ctlds w' !! addr = w_ctlds w !! addr /\ r <> Panic.
Proof.
  intros Hn Ha. unfold postCtldJSON. rewrite Hn. unfold at_ctld. destruct (w_ctlds w !! TrimRight url "/") as [m|].
  - destruct (h (m, w_db w)) as [[a|e|] [m' d']]; eexists _, _; (split; [reflexivity|]); cbn; rewrite lookup_insert_ne by done; done.
  - eexists _, _. split; [reflexivity|]. done.
Qed.

Lemma cleanup_world v w : exists d, cleanup_handoff v w = (Ok tt, mkWorld d (w_ctlds w) (w_net w)).
Proof. unfold cleanup_handoff, db_call. destruct (DeleteVolumeHandoff v (w_db w)) as [r d]. eauto. Qed.

Lemma db_call_world {A} (q : DBM A) w : exists r d, db_call q w = (r, mkWorld d (w_ctlds w) (w_net w)).
Proof. unfold db_call. destruct (q (w_db w)) as [r d]. eauto. Qed.

(** A preparation that fails, and one that is aborted. *)
Lemma finish_failed now v m d r m' d' :
  prepare_finish now v (m, d) = (r, (m', d')) -> r <> Ok tt -> TrimSpace v = v -> serving v m' /\ mg_boundVolumes m' = mg_boundVolumes m.
Proof.
  unfold prepare_finish, undoing. destruct (node_effect "" m d) as [os Ho].
  destruct (node "" (m, d)) as [[[]|e|] s] eqn:Hn; cbn in Ho; subst s; intros Hf Hne Hv.
  - by injection Hf as <- <- <-.
  - injection Hf as <- <- <-. rewrite Hv. split; [exact (serving_abort now v (set_node os m))|done].
  - unfold node in Hn. by destruct (mg_outcomes m) as [|[|] ?].
Qed.

Lemma prepare_failed now v m d r m' d' :
  PrepareHandoff None now v (m, d) = (r, (m', d')) -> r <> Ok tt -> TrimSpace v = v -> serving v m ->
  serving v m' /\ mg_boundVolumes m' = mg_boundVolumes m.
Proof.
  unfold PrepareHandoff, bind at 1. intros Hp Hr Hv Hs. destruct (prepare_begin None v (m, d)) as [r1 [m1 d1]] eqn:Hb.
  unfold prepare_begin in Hb. rewrite Hv in Hb. cbv zeta in Hb. case_bool_decide; [injection Hb as <- <- <-; injection Hp as <- <- <-; done|].
  cbn [bind manager gets fst] in Hb.
  destruct (mg_boundVolumes m !! v) as [b|]; [|injection Hb as <- <- <-; injection Hp as <- <- <-; done].
  destruct (0 <? bv_refCount b); [injection Hb as <- <- <-; injection Hp as <- <- <-; done|].
  pose proof (local_bound _ _ _ _ _ _ Hb) as [-> Hb1]. unfold local, lv_prepareHandoff, handoff_turn in Hb.
  destruct (lv_request v (mg_volumes m)) as [st|]; [|injection Hb as <- <-; injection Hp as <- <- <-; done].
  destruct (rs_transferring st); [injection Hb as <- <-; injection Hp as <- <- <-; done|]. cbn [rs_inFlight] in Hb.
  assert (exists idle, r1 = Ok idle) as [idle ->] by (destruct (rs_inFlight st <=? 0); injection Hb as <- <-; eauto).
  unfold bind in Hp. destruct idle; [apply finish_failed in Hp as [? ?]; [split; [done|congruence]|done..]|].
  unfold drain_requests, alter_manager, modify in Hp. cbn [fst snd] in Hp.
  apply finish_failed in Hp as [Hs' Hb']; [|done..]. split; [done|]. rewrite Hb', <-Hb1. by destruct (lm_requests (mg_volumes m1) !! TrimSpace v).
Qed.

Lemma abort_serves now v m d :
  TrimSpace v = v -> v <> "" ->
  exists m', AbortHandoff now v (m, d) = (Ok tt, (m', d)) /\ serving v m' /\ mg_boundVolumes m' = mg_boundVolumes m.
Proof.
  intros Hv Hn. unfold AbortHandoff. rewrite Hv, bool_decide_false by done. eexists. split; [reflexivity|].
  split; [apply serving_abort|done].
Qed.

(** The source serves again when the handoff gives up. *)
Lemma abort_source_serves `{UnicodeCase} now url v w m :
  w_net w = [] -> w_ctlds w !! TrimRight url "/" = Some m -> TrimSpace v = v -> v <> "" ->
  exists d m', (do* abort_source now url v in cleanup_handoff v) w = (Ok tt, mkWorld d (<[TrimRight url "/" := m']> (w_ctlds w)) [])
    /\ serving v m' /\ mg_boundVolumes m' = mg_boundVolumes m.
Proof.
  intros Hn Hm Hv Hne. destruct (post_nil url (AbortHandoff now v) w m Hn Hm) as (r & m' & d' & Hp & Hh & _ & _).
  destruct (abort_serves now v m (w_db w) Hv Hne) as (m2 & Ha & Hs & Hb). rewrite Ha in Hh. injection Hh as <- <-.
  unfold abort_source, bind. rewrite Hp. cbn. destruct (cleanup_world v (mkWorld (w_db w) (<[TrimRight url "/" := m2]> (w_ctlds w)) [])) as [d ->].
  eauto.
Qed.

(** Where a handoff that fails leaves the nodes. *)
Definition released (sa ta key v : string) (bs : gmap string boundVolume) (ctlds : gmap string Manager) : Prop :=
  exists ms', ctlds !! sa = Some ms' /\ serving v ms' /\
    (mg_boundVolumes ms' = bs \/ exists mt', ctlds !! ta = Some mt' /\ portal_shows mt' key v).

Section failed.
  Context `{UnicodeCase, UnicodeUpper} (team : string -> string) (id : string) (now : Z) (v url : string) (src : VolumeMount) (req : preparePortalBindRequest).
  Context (Hne : TrimRight url "/" <> TrimRight (pb_TargetCtldAddr req) "/") (Hv : TrimSpace v = v).

Abbreviation key := (portalKey (pb_PodUID req) (NormalizePortalName (pb_PortalName req) (pb_MountPath req))).
Abbreviation is_released := (released (TrimRight url "/") (TrimRight (pb_TargetCtldAddr req) "/") key v).

Lemma give_up_cleanup w e e' w' bs : giving_up (A := unit) (cleanup_handoff v) e w = (Err e', w') -> is_released bs (w_ctlds w) -> is_released bs (w_ctlds w').
Proof. unfold giving_up, bind. destruct (cleanup_world v w) as [d ->]. by intros [= <- <-]. Qed.

Lemma give_up_abort w e e' w' m bs :
  giving_up (A := unit) (do* abort_source now url v in cleanup_handoff v) e w = (Err e', w') ->
  w_net w = [] -> w_ctlds w !! TrimRight url "/" = Some m -> v <> "" -> mg_boundVolumes m = bs -> is_released bs (w_ctlds w').
Proof.
  intros Hg Hn Hm Hv1 Hb. destruct (abort_source_serves now url v w m Hn Hm Hv Hv1) as (d & m' & Ha & Hs & Hb').
  unfold giving_up in Hg. rewrite (bind_ok _ _ _ _ _ Ha) in Hg. injection Hg as <- <-.
  exists m'. cbn. rewrite lookup_insert_eq. split; [done|]. split; [done|]. left. congruence.
Qed.

(** The part after the source is prepared. *)
Lemma complete_failed w e w' ms1 mt' bs :
  (let* completed := postCtldJSON url (CompleteHandoff now v) in
   match completed with
   | Panic => panic
   | Err e => giving_up (cleanup_handoff v) (HCtld e)
   | Ok _ => cleanup_handoff v
   end) w = (Err e, w') ->
  w_net w = [] -> w_ctlds w !! TrimRight url "/" = Some ms1 -> serving v (CompleteHandoff now v (ms1, w_db w)).2.1 ->
  w_ctlds w !! TrimRight (pb_TargetCtldAddr req) "/" = Some mt' -> portal_shows mt' key v -> is_released bs (w_ctlds w').
Proof.
  intros Hc Hn Hms Hs Hmt Hsh. unfold bind at 1 in Hc.
  destruct (post_nil url (CompleteHandoff now v) w ms1 Hn Hms) as (r & m' & d' & Hp & Hh & _ & Hnp). rewrite Hp in Hc.
  destruct r as [[]|e1|]; [by destruct (cleanup_world v (mkWorld d' (<[TrimRight url "/" := m']> (w_ctlds w)) [])) as [d Hd]; rewrite Hd in Hc| |done].
  eapply give_up_cleanup; [exact Hc|]. rewrite Hh in Hs. exists m'. cbn. rewrite lookup_insert_eq, lookup_insert_ne by done.
  split; [done|]. split; [exact Hs|]. eauto.
Qed.

Lemma run_handoff_failed w e w' ms :
  run_handoff team id now v url src req w = (Err e, w') -> w_net w = [] -> w_ctlds w !! TrimRight url "/" = Some ms -> serving v ms ->
  is_released (mg_boundVolumes ms) (w_ctlds w').
Proof.
  intros Hr Hn Hms Hs. unfold run_handoff, bind at 1 in Hr.
  destruct (post_nil url (PrepareHandoff None now v) w ms Hn Hms) as (r1 & ms1 & d1 & Hp1 & Hh1 & Hr1 & Hnp). rewrite Hp1 in Hr. clear Hp1.
  destruct (PrepareHandoff None now v (ms, w_db w)) as [p [mx dx]] eqn:Hprep. cbn [fst snd] in Hh1, Hr1. injection Hh1 as -> ->.
  destruct r1 as [[]|e1|]; [|clear Hnp|done].
  2:{ apply prepare_failed in Hprep as [Hs1 Hb1]; [|intros ->; by destruct (Hr1 tt) as [_ Hx]; specialize (Hx eq_refl)|done..].
      eapply give_up_cleanup; [exact Hr|]. exists ms1. cbn. rewrite lookup_insert_eq. eauto. }
  rewrite (proj1 (Hr1 tt) eq_refl) in Hprep. apply prepare_ok in Hprep as (_ & Hb1 & Hv1 & _). rewrite Hv in Hv1.
  match type of Hr with context [db_call ?q ?w1] => destruct (db_call_world q w1) as (r2 & d2 & Hu); rewrite Hu in Hr end. cbn [w_ctlds w_net] in *.
  destruct r2 as [[]|e2|]; [|eapply give_up_abort; [exact Hr|reflexivity|apply lookup_insert_eq|done..]|done].
  set (w2 := mkWorld d2 _ []) in *. unfold bind at 1 in Hr.
  destruct (post_elsewhere (pb_TargetCtldAddr req) (Bind team None id now (bind_request v src req)) w2 (TrimRight url "/") eq_refl Hne)
    as (r3 & w3 & Hp3 & Hn3 & Hc3 & Hnp3). rewrite Hp3 in Hr. assert (Hms3 : w_ctlds w3 !! TrimRight url "/" = Some ms1) by (rewrite Hc3; apply lookup_insert_eq).
  destruct r3 as [b|e3|]; [|by eapply give_up_abort|done].
  apply post_ok in Hp3 as (mt & mt' & _ & Hb & Hmt). eapply (complete_failed w3 e w' ms1 mt'); try done.
  - by apply serving_complete.
  - rewrite Hmt. apply lookup_insert_eq.
  - apply Bind_shows in Hb. exact Hb.
Qed.
End failed.

(** C18: With no message lost, a handoff that fails never leaves the source holding its
    requests back, and the volume is never left without an owner: either the source has
    its volumes open as before, or the portal of the target shows the volume. *)
Theorem failed_handoff_releases `{UnicodeCase, UnicodeUpper, Pods} team port id now v src req w w' e url ms :
  executePortalBindHandoff team port id now v src req w = (Err e, w') ->
  resolveVolumeMountURL port src = Ok (Some url) -> TrimRight url "/" <> TrimRight (pb_TargetCtldAddr req) "/" ->
  w_net w = [] -> TrimSpace v = v -> w_ctlds w !! TrimRight url "/" = Some ms -> serving v ms ->
  exists ms', w_ctlds w' !! TrimRight url "/" = Some ms' /\ serving v ms' /\
    (mg_boundVolumes ms' = mg_boundVolumes ms \/
     exists mt', w_ctlds w' !! TrimRight (pb_TargetCtldAddr req) "/" = Some mt'
       /\ portal_shows mt' (portalKey (pb_PodUID req) (NormalizePortalName (pb_PortalName req) (pb_MountPath req))) v).
Proof.
  intros Hex Hurl Hne Hn Hv Hms Hs. unfold executePortalBindHandoff in Hex. rewrite Hurl in Hex. destruct (sameCTLDAddress _ _); [done|].
  unfold bind at 1 in Hex. destruct (db_call_world (UpsertVolumeHandoff now (handoff_row v src req "preparing" (now + 30 * second))) w) as (r0 & d0 & H0').
  rewrite H0' in Hex. destruct r0 as [[]|e0|]; [|injection Hex as <- <-; eauto 10|done].
  exact (run_handoff_failed team id now v url src req Hne Hv _ _ _ ms Hex Hn Hms Hs).
Qed.

(** ** Examples *)

#[local] Instance hx_upper : UnicodeUpper := {| unicode_upper := fun s => s |}.
#[local] Instance hx_case : UnicodeCase := {| unicode_lower := fun s => s |}.
#[local] Instance hx_pods : Pods := {|
  pods_Get := fun ns name => if bool_decide (name = "ctld-1") then Ok (mkPod ns name "node-1" "10.0.0.1" "Running" false [("Ready", "True")] "")
                             else Err "not found";
  pods_Named := fun _ => Ok [];
  pods_List := fun _ _ => Ok []
|}.

(** The first node owns the volume; the second has a portal, or none. *)
Definition hx_source : Manager * DB := px_after px_attach (px_node0, px_db0).
Definition hx_bare : Manager := NewManager "node-2" "" "ctld-2" "sandbox0" 15 (60 * second).
Definition hx_target : Manager := (publish_commit (mkPublishRequest "ns" "pod" "uid" "data" "/data" "/target") (hx_bare, px_db0)).2.1.
Definition hx_world (target : Manager) (net : list delivery) : World :=
  mkWorld hx_source.2 (<["http://10.0.0.1:8095" := hx_source.1]> {["http://10.0.0.2:8095" := target]}) net.
Definition hx_mount : VolumeMount := owner_row px_node0 "id" (100 * second) "vol" "RWO" (100 * second).
Definition hx_request : preparePortalBindRequest :=
  mkPortalBindRequest "" "http://10.0.0.2:8095" "ns" "pod" "uid" "data" "/data" "sb" "team".
Definition hx_handoff (w : World) : res http_error unit * World :=
  executePortalBindHandoff (fun _ => "team") 8080 "id2" (101 * second) "vol" hx_mount hx_request w.

Lemma keys_ok_map d : map_Forall (fun k m => key_of m = k) (db_mounts d) -> keys_ok d.
Proof. done. Qed.

Lemma handoff_moves_owner_witness :
  exists w', hx_handoff (hx_world hx_target []) = (Ok tt, w') /\
  exists ms' mt', w_ctlds w' !! "http://10.0.0.1:8095" = Some ms' /\ mg_boundVolumes ms' !! "vol" = None
    /\ w_ctlds w' !! "http://10.0.0.2:8095" = Some mt' /\ 1 <= refs (mg_boundVolumes mt') "vol".
Proof.
  destruct (hx_handoff (hx_world hx_target [])) as [[[]|e|] w'] eqn:Hx; [|exfalso; vm_compute in Hx; discriminate..].
  exists w'. split; [done|].
  destruct (handoff_moves_owner (fun _ => "team") 8080 (fun _ => "RWO") "id2" (101 * second) "vol" hx_mount hx_request (hx_world hx_target []) w'
    "http://10.0.0.1:8095" hx_target Hx) as (ms' & mt' & H1 & H2 & _ & H3 & _ & H4 & _).
  1-2, 4-5, 8, 10-11: vm_compute; reflexivity.
  1, 5-7: vm_compute; discriminate.
  - apply publish_commit_ok, NewManager_ok.
  - assert (Hf : map_Forall (fun (k : string) m => NormalizeAccessMode m = "RWO") (db_volumes (w_db (hx_world hx_target []))))
      by (apply (bool_decide_unpack _); vm_compute; exact I). exact Hf.
  - apply keys_ok_map. apply (bool_decide_unpack _). vm_compute. exact I.
  - exists ms', mt'. eauto.
Defined.

Lemma failed_handoff_releases_witness :
  exists e w', hx_handoff (hx_world hx_bare []) = (Err e, w') /\
  exists ms', w_ctlds w' !! "http://10.0.0.1:8095" = Some ms' /\ serving "vol" ms'.
Proof.
  destruct (hx_handoff (hx_world hx_bare [])) as [[[]|e|] w'] eqn:Hx; [exfalso; vm_compute in Hx; discriminate| |exfalso; vm_compute in Hx; discriminate].
  exists e, w'. split; [done|].
  destruct (failed_handoff_releases (fun _ => "team") 8080 "id2" (101 * second) "vol" hx_mount hx_request (hx_world hx_bare []) w' e
    "http://10.0.0.1:8095" hx_source.1 Hx) as (ms' & H1 & H2 & _).
  1, 3-5: vm_compute; reflexivity.
  1: vm_compute; discriminate.
  - intros st Hst. vm_compute in Hst. injection Hst as <-. reflexivity.
  - exists ms'. eauto.
Defined.

(** When the answer of the preparation is lost, the handoff is given up without ending it
    at the source: the source holds every request back, and no other handoff can start. *)
Lemma lost_answer_freezes :
  let w1 := (hx_handoff (hx_world hx_target [AnswerLost "context deadline exceeded"])).2 in
  let waits := match w_ctlds w1 !! "http://10.0.0.1:8095" with
               | Some m => (acquire (200 * second) "vol" (mg_volumes m)).1
               | None => Panic
               end in
  (hx_handoff (hx_world hx_target [AnswerLost "context deadline exceeded"])).1 = Err (HCtld (Transport "context deadline exceeded"))
  /\ db_handoffs (w_db w1) !! "vol" = None /\ waits = Ok false
  /\ exists t, (hx_handoff w1).1 = Err (HDb (ErrConflict t)).
Proof. vm_compute. repeat split. eexists. reflexivity. Qed.

(** The status is read off the text of the error: that a volume is mounted elsewhere, as
    the registry of mounts puts it, is not among the texts. *)
Lemma owner_conflict_status :
  let e := ErrConflict ("volume vol already mounted on another instance") in
  volumePortalErrorStatus (mkPortalError ("register ctld volume owner: " +:+ db_text e) false) = 400.
Proof. vm_compute. reflexivity. Qed.

(** The address of a pod is put before the port as it is: with a version 6 address the
    host of the owner takes in the port of storage-proxy. *)
Lemma version_6_owner_host :
  match buildStorageProxyPodURL "fd00::1" 8080 with Ok host => owner_host hx_mount host | _ => "" end = "[fd00::1:8080]:8095".
Proof. vm_compute. reflexivity. Qed.
